(* ===== verification/_CoqProject ===== *)
-Q . S2P
Prelude.v
GoStrings.v
GoTime.v
Json.v
JsonText.v
JsonWriter.v
Sha256.v
Refs.v
SchedJob.v
PickleReader.v
PickleWriter.v
JobState.v
PickleSafety.v
Scheduler.v
ReconcileFacts.v
DispatchFacts.v
SchedulerOpen.v
SchedulerProps.v
MemoryModel.v
Review.v
Contents.v
Scope.v
Sql.v
ArtifactStore.v
ArtifactStoreFacts.v
ScopeStore.v
MemoryService.v
MemoryServiceFacts.v
PlanFacts.v
MemoryStore.v
MemorySearch.v
MemoryExtract.v
MemorySearchFacts.v
ExtractFacts.v
MemoryProps.v
SearchProps.v
Checkpoint.v
Connector.v
ConnectorFacts.v
ConnectorProps.v
ScopeCache.v
Runtime.v
RuntimeFacts.v
Scheduled.v
RuntimeProps.v
Handoff.v
HandoffResolution.v
HandoffCodec.v
HandoffCodecFacts.v
MemoryCodec.v
MemoryRepository.v
ReviewCodec.v
CandidateStore.v
MemoryRepositoryFacts.v
MemoryBackend.v
Trigger.v
MemoryApplication.v
CursorStore.v
SourceStore.v
SourceStoreFacts.v
ReviewStore.v
ReviewFacts.v
Windows.v
MemoryFlush.v
SourceProps.v
ReviewProps.v
MemoryRelProps.v
TriggerProps.v
HandoffService.v
HandoffGeneration.v
HandoffStore.v
HandoffActivation.v
HandoffProps.v
ContextPack.v
ContextPackFacts.v
ContextPackProps.v
Incubation.v
Inference.v
InferenceProps.v
ScopeProps.v
