(* ===== verification/Prelude.v ===== *)
(** * PowerContext: a verification development

    PowerContext (the Go module [github.com/ob-labs/powercontext-go], under
    [src/]) keeps the memory of coding agents: it captures sources, distils them
    into versioned Memory, Experience and Handoff artifacts, and prepares bounded
    contexts from them.  A persistent scheduler, compatible with the tables and
    Pickle job states of Python's APScheduler, drives the background processors.

    This library models the program's own logic as Rocq functions and proves what
    makes it correct.  The rest of the program calls these parts through the
    server, the command line and the HTTP and MCP surfaces, which are not modelled.

    ** Files

    Foundations
    - [Prelude]: this header; results ([result], Go's [(value, error)]), the loops
      [fold_res] and [map_res], tactics ([bind_inv], [ok_inv], [boolify]), machine
      integers, bytes.
    - [GoStrings]: UTF-8 decoding, runes, trimming, byte order of strings, hex.
    - [GoTime]: instants, civil calendar, durations, binary64 arithmetic (on the
      Standard Library's [spec_float]) and the timestamp columns.
    - [Json]: Go's JSON encoder and [unescapeLineSeparators] of
      [internal/contextpack/builder.go].
    - [JsonText]: the reader of [encoding/json/jsontext] (numbers,
      strings with escapes, nesting limit, no duplicate members).
    - [Sha256]: SHA-256, executable, and [lowerHex64].

    Scheduler ([src/internal/scheduler])
    - [SchedJob] ([job.go]): jobs, schedules, [NewJob], [withNext].
    - [PickleReader] ([pickle.go], [pickle_reader.go]): the stack machine, with
      dicts and instances in a heap, since Go shares them through pointers.
    - [PickleWriter] ([pickle_writer.go], [encodeJobState]), [JobState]
      ([decodeJobState], timedeltas), [PickleSafety] (facts on the reader).
    - [Scheduler] ([scheduler.go]): configuration, loading, reconciliation, the
      loop, dispatch, pause and close.  The table is the class [JobStore]; a pass
      of the loop is a step of [loop_step].
    - [SchedulerOpen]: opening, path ownership and the interleavings of a process.
    - [ReconcileFacts], [DispatchFacts]: lemmas; [SchedulerProps]: properties.

    Artifacts and Memory ([src/artifact], [src/source])
    - [Refs] ([artifact/model.go], [source/model.go]): references, lineage, drafts.
    - [MemoryModel] ([artifact/memory/model.go], [canonical.go], [errors.go]):
      entries, manifests, canonical texts, content hashes, embeddings.
    - [MemoryService] ([service*.go], [storage.go]): remember, forget, reactivate,
      organize, reads.  The store is the class [Backend] with the contract of its
      Go interface in [BackendLaws].
    - [MemorySearch] ([search.go], [service_search.go], [reranking.go]): admission,
      reciprocal rank fusion, search modes, reranking, expansion.
    - [MemoryExtract] ([extraction.go]): model-backed extraction.
    - [MemoryServiceFacts], [PlanFacts], [MemorySearchFacts], [ExtractFacts]:
      lemmas; [MemoryStore]: a backend in memory that meets the
      laws, on which the properties are evaluated; [MemoryProps], [SearchProps]:
      properties.

    Connectors ([src/source], [src/internal/runtime])
    - [Checkpoint] ([connector.go], [connector_lifecycle.go]): bindings, checkpoint
      texts and the comparison of the JSON values that they hold.
    - [Connector] ([connector_lifecycle.go] of both directories,
      [connector_checkpoint_application.go]): the session that the goroutines of a
      connector share, their calls as sequences of atomic steps ([advance],
      [world_step]), the end of a run ([conclude]) and commits.  Ingestion and the
      checkpoint store are the classes [Ingestion] and [CheckpointStore].
    - [ConnectorFacts] (the invariant of a run), [ConnectorProps].

    Runtime ([src/internal/runtime])
    - [ScopeCache] ([scope_cache.go]): leases and evictions; entries are heap objects
      with their semaphores, since a lease outlives an eviction.
    - [Runtime] ([lifecycle.go]): admission, scope locks, background work and
      shutdown; operations and the closer move by [op_step] and [close_step], and
      [world_step] interleaves them.
    - [Scheduled] ([scheduled_processor.go]): the loop over scopes and its outcome.
    - [RuntimeFacts] (the invariant [rt_inv]): lemmas; [RuntimeProps].

    The relational store ([src/internal/sqlstore])
    - [Sql] ([database.go], [errors.go]): rows are finite maps; a statement is a
      computation on a [Session], which holds the tables and, for each statement to
      come, whether the driver fails it; [Transaction] keeps all changes or none.
      The class [Holds] gives each store its tables inside the whole database, and
      [Apart] says that two of them do not overlap, so that stores compose.
    - [ArtifactStore] ([artifacts.go], [artifact_codec.go]): revisions, heads,
      lineage.  [CursorStore] ([cursors.go]): trigger cursors with their generation.
    - [SourceStore] ([sources.go], [source_codec.go]): the journal of a scope.
    - [MemoryCodec] ([artifact_codecs.go]), [MemoryRepository] ([memory.go],
      [memory_entries.go], [memory_index.go]): Memory revisions with entry versions,
      searchable heads and indexes; [MemoryBackend] makes it the [Backend] of
      [MemoryService].
    - [Windows]: processors that observe a window of a journal and commit what they
      made of it under the generation they observed; the interface [WindowStore]
      and, for any attempts that keep to it, the tiling of the journal; the windows of
      the relational store, whose values ([journal_values]) are those that its rows
      decode to ([SourceStoreFacts.row_value]).
    - [MemoryFlush] ([memory_flush.go]): windows for Memories; the class
      [MemoryFlushLaws] is what the application relies on.
    - [MemoryApplication] ([internal/runtime/memory_*.go]): the commands and queries
      of a scope's Memory, and the flush of a window.
    - [ArtifactStoreFacts], [SourceStoreFacts], [MemoryRepositoryFacts]: lemmas;
      [SourceProps], [MemoryRelProps]: properties and the databases of the witnesses.

    Reviews and Experiences ([src/internal/review], [src/artifact/experience],
    [src/artifact/skill], [src/internal/sqlstore])
    - [Contents] ([artifact/experience/model.go], [artifact/skill/model.go]): the
      contents of Experiences and Skills.
    - [Review] ([internal/review/model.go], [errors.go], [service.go]): Candidates,
      their checks, references without repetitions.
    - [ReviewCodec] ([artifact_codecs.go]): stored payloads.
    - [CandidateStore] ([candidates.go]): the versions and heads of Candidates, with
      compare-and-swap updates and pages.
    - [ReviewStore] ([review.go], [experience_index.go]): the transactions that
      propose, revise, reject and approve; skill packages are the class
      [SkillPackages], the index of Experiences is [ExperienceIndex].
    - [Incubation] ([artifact/experience/incubation.go],
      [internal/runtime/experience_incubation.go],
      [sqlstore/experience_incubation.go]): Experiences that a model proposes from
      the Task Outcomes of a window become pending Candidates together with the move
      of the cursor; the class [ExperienceIncubationLaws] is what the application
      relies on, and [Windows] gives the tiling.
    - [ReviewFacts]: lemmas; [ReviewProps]: properties.

    Scopes ([src/internal/scope], [src/internal/sqlstore], [src/internal/runtime])
    - [Scope] ([scope/models.go] and the hierarchy of [scope_application.go]):
      metadata, drafts, descriptors, mutations, bindings, selections; the check of a
      place in the hierarchy, and the search of a subtree.
    - [ScopeStore] ([scopes.go], [runtime_scopes.go], [scope_application.go]): the six
      tables with their keys and foreign keys, the statements, the transactions and
      the commands; then what the tables describe, and their shape [organized].
    - [ScopeProps]: the specification [performs] of the commands as steps of an
      [organization], and properties.

    Inference ([src/inference])
    - [Inference] ([prompted.go], [text.go], [embedding.go], [tokens.go],
      [errors.go], [probe.go]): requests, the prompt with its schema, fences,
      feedback, the bounded conversation with a model, embeddings in batches, token
      estimates.  Providers are the classes [TextModel] and [EmbeddingTransport].
    - [InferenceProps]: lemmas on passes over JSON texts, and properties.

    Handoffs, triggers, contexts
    - [Handoff] ([artifact/handoff]: [model.go], [citation.go], [content.go],
      [request.go], [activation.go]): citations, contents, requests.
    - [HandoffResolution] ([evidence.go], [resolution.go], [render.go]): resolved
      evidence, prepared handoffs, resolutions, and the JSON text of a content.
    - [HandoffService] ([service.go], [handoff_application.go]): prepare, finalize,
      commit, continue; the store and the evidence resolver are the classes
      [HandoffBackend] and [EvidenceResolver], with [HandoffBackendLaws].
    - [HandoffGeneration] ([generation.go]): what the model is shown, and the checks
      on what it answers.
    - [HandoffCodec], [HandoffStore] ([handoff_codec.go], [handoff.go]): the stored
      payload and the relational backend, an instance of the laws.
    - [HandoffActivation] ([handoff_activation.go]): the boundary cursor, and the
      interleavings of activations; [ActivationBackendLaws] is its interface.
    - [HandoffCodecFacts]: lemmas; [HandoffProps]: properties.
    - [Trigger], [TriggerProps] ([src/trigger], [source/journal.go]): the two
      trigger policies, which drive source windows and handoff preparation.
    - [ContextPack] ([internal/contextpack], [artifact/experience/model.go]): the
      builder of prepared contexts down to the bytes; [ContextPackFacts] and
      [ContextPackProps].

    ** What the theorems show

    - Scheduler: a job is dispatched at most once for each time that its stored run
      time is advanced, in any run; every due job is run when the store accepts
      updates; reconciliation is right and restarts change nothing; no two
      schedulers of a process own one path.
    - Pickle: the reader always answers, with well-formed allowlisted values; what
      the writer writes is read back; a decoded job is valid; timedelta bounds.
    - Contexts: never over budget, provenance of every item, each candidate taken in
      its longest fitting form or skipped because no form fits ([greedy]), so empty
      exactly when nothing fits; rendering equal to a reference.
    - Triggers: source windows tile the journal; each handoff boundary fires once,
      also when activations interleave on the relational store.
    - Relational store: whichever statements fail, a commit stores a whole Memory
      revision or nothing, and is read back; the repository is a backend of the
      service; a journal only grows, at consecutive positions; the windows that
      flushes commit tile it, each is planned from exactly the values of its rows, and
      the plan is committed together with its cursor.
    - Handoffs: a commit appends the prepared content over its base or changes
      nothing; of two preparations of one base one is committed; continuations show
      contents unchanged and report exactly the evidence that is gone; whatever the
      model answers, drafts cite only evidence of the request, within the budget;
      contents are read back from their stored and rendered texts.
    - Memory: a plan is the successor of its base; forgetting and reactivating are
      exact; of two writers on one base the second is refused; organizing keeps
      contents and deduplicates; canonical material is a fixed point.
    - Search: fusion is reciprocal rank fusion and does not depend on map order;
      what is found is distinct, within the limit, admitted, in a granted mode.
      Reranking and extraction are safe whatever the model answers, and the planner
      accepts what extraction proposes to revise.
    - Connectors: whatever the interleaving, the checkpoint moves only past items
      whose submissions are durable; closing a session drains it in a bounded number
      of steps; outcomes are well formed and unique; checkpoints are compared by the
      values they hold; a commit is a compare-and-swap.
    - Runtime: one writer in a scope and one background operation at a time; no
      panic and no deadlock; the cache is bounded and evicts the least recently used;
      a shutdown closes resources only when nothing runs; scheduled scopes do not
      disturb each other.
    - Reviews: a proposal is stored only with evidence that is in the tables of the
      database it was made in; an approval
      stores one Artifact revision with the proposal and its evidence or nothing; a
      decision is final; whatever interleaves and fails, versions stay, and an approved
      Candidate keeps naming its own stored revision; pages list each Candidate once.
    - Scopes: the commands implement their specification, whatever statements fail; the
      hierarchy stays free of cycles and dangling names; a subtree is selected exactly; a
      creation can be repeated.
    - Inference: the schema shown is the schema of the codec, fenced answers are
      unwrapped, a generation ends within its limit and says how, and vectors answer
      to their texts one by one.
    - Incubation: plans are distinct and cite only Task Outcomes of their window,
      whatever the model answers; a window is applied whole or not at all; the windows
      of interleaved incubations tile the journal, and each is offered to the pipeline
      as the values of its rows.
    - Defects, proved as lemmas (citation keys as a theorem): timedelta sums and source windows that wrap
      ([td_duration_wraps], [source_window_wraps]), citation keys that collide
      ([citation_keys_collide]), an addition lost by the content it replaces
      ([remember_drops_replaced_content]), an item rejected after the checkpoint
      moved ([reject_after_checkpoint]), a scope lost to a panic
      ([crashed_scope_is_lost]), admission after resources are closed
      ([reopened_without_resource]), an empty Task Outcome that stops the incubations of
      its scope for good ([empty_outcome_stalls]).

    ** Conventions

    - Integers are [Z]; where Go's 64-bit result may leave the range, [wrap64] is
      written out.  Floats are executable binary64 values.
    - Errors are constructors that keep the code and the parts that callers test;
      message texts are shortened.
    - Nil and empty slices are identified, and clones are dropped: values are
      immutable here, and the code clones so that its values are too.
    - Go's map iteration order is unspecified.  Where a result could depend on it,
      the order is a parameter ([MemorySearch.FuseRankings]); elsewhere the code
      sorts afterwards and the model uses the order of [gmap].
    - Contexts and cancellation are modelled where the code branches on them (the
      scheduler, the runtime, connector runs), and not elsewhere.
    - Concurrency is interleaving: a goroutine is a value of a type of program points,
      and a step is one critical section, one channel operation or one call out.

    ** Fuel

    - [PickleReader.run]: [maxPickleOpcodes] + 1 rounds; [parse_pickle_total] shows
      that [EFuel] is never returned.
    - [Inference.converse], [Inference.embed_from]: as many rounds as the limit allows,
      and as there are texts; [generation_bounded] and [embed_aligned] show that
      [Unreachable] is never returned by the loop.
    - [Scope.walk_parents], [Scope.subtree_from]: one round more than there are scopes;
      [walk_terminates] and [subtree_found] show that they are enough.
    - [ContextPack.search]: the binary search gets the length of the text, which
      halving cannot exhaust; [fit_entry_longest] would fail otherwise.
    - [ContextPack.interleaveGroups]: as many rounds as entries;
      [interleave_complete] shows that nothing is lost.
    - [ScopeCache.evict_while]: as many turns as entries, each of which evicts one
      ([evictions_least_recently_used]).
    - [JsonText.parse_json]: more than twice the length of the text;
      [JsonText.parse_fuel_enough] shows that more changes nothing.
    - [MemoryService.hex_digits]: 8 digits hold any rune.

    ** Third-party code

    Parameters: [Text] (Unicode normalization, RFC 8785 transform), [Analysis]
    (case folding, Unicode classes), the model providers behind generators and
    embedding models, the database behind [JobStore], [Backend], [CheckpointStore]
    and [Ingestion], and the indexes behind [MemoryIndex].  Their laws are the classes
    [TextLaws], [BackendLaws], [HandoffBackendLaws], [MemoryFlushLaws],
    [ExperienceIncubationLaws] and [IngestionLaws], which concrete instances meet.

    ** Limits of the relational model

    - A statement is atomic and either runs or fails as a whole.  The driver may fail
      any statement that writes and the commit of a transaction (a failed commit is
      not applied); the theorems on reads are about a driver that does not fail them.
    - The Sources that the Artifact repository checks citations against are those that
      a session began with, kept in [ArtifactStore.Tables]; [SourceStore] has its own
      tables.  Which Sources have a text ([has_text]) and which observations are
      accepted (the class [Observations]) are parameters; an observation that is
      accepted is accepted as it is, which is what [source.AdmitObservation] does.
    - Storing a Skill package ([AddPackage]) leaves the tables of Artifacts, Candidates
      and Sources alone ([ReviewParts]); it writes a table of its own.
    - The other writers of the worlds of [Windows] keep the values of the journal
      and the cursor; a journal that grows keeps them ([journal_values_grown]).
    - Full-text and vector indexes are the class [MemoryIndex]; the composite that
      calls them in turn is modelled.
    - A command that fails returns only its error, not the partial value beside it.

    ** Not modelled

    The JSON decoding of model answers of the Memory pipelines; source definitions
    and the admission of observations; skill packages (the checks of an upload come
    before [ProposeUploadedPackage_]); the full-text index of Experiences; the review
    service, which passes requests on; statistics; schema
    creation; the generated API, HTTP and MCP transports, clients, command line, web
    UI, service hosting, model providers and observability, which are input and
    output around this logic. *)

From Stdlib Require Export ZArith Lia String Ascii.
From stdpp Require Export base tactics option list gmap strings numbers sorting.

#[export] Set Default Goal Selector "!".

Declare Scope go_scope.
Delimit Scope go_scope with go.
#[global] Open Scope Z_scope.

(** ** Fallible results: Go's [(value, error)] pairs *)

Inductive result (E A : Type) : Type :=
| Ok (a : A)
| Err (e : E).
Arguments Ok {E A} a.
Arguments Err {E A} e.

#[export] Instance result_eq_dec `{EqDecision E, EqDecision A} :
  EqDecision (result E A).
Proof. solve_decision. Defined.

Definition bind {E A B : Type} (m : result E A) (k : A -> result E B) : result E B :=
  match m with
  | Ok a => k a
  | Err e => Err e
  end.

(** [guard b e] is the early return [if !b { return e }]. *)
Definition check {E : Type} (b : bool) (e : E) : result E unit :=
  if b then Ok tt else Err e.

(** Translates an error, as [if err != nil { return f(err) }]. *)
Definition map_err {E F A : Type} (f : E -> F) (m : result E A) : result F A :=
  match m with
  | Ok a => Ok a
  | Err e => Err (f e)
  end.

Definition of_option {E A : Type} (o : option A) (e : E) : result E A :=
  match o with
  | Some a => Ok a
  | None => Err e
  end.

Definition is_ok {E A : Type} (m : result E A) : bool :=
  match m with Ok _ => true | Err _ => false end.

Notation "'let*' x ':=' m 'in' k" := (bind m (fun x => k))
  (at level 10, x name, m at level 200, k at level 200) : go_scope.
Notation "'let*' ' p ':=' m 'in' k" := (bind m (fun x => match x with p => k end))
  (at level 10, p strict pattern, m at level 200, k at level 200) : go_scope.
Notation "'require' b 'else' e 'in' k" := (bind (check b e) (fun _ => k))
  (at level 10, b at level 200, e at level 200, k at level 200) : go_scope.
#[global] Open Scope go_scope.

(** A Go [for _, x := range xs] that accumulates a value and may return an error. *)
Fixpoint fold_res {E A B : Type} (f : B -> A -> result E B) (acc : B) (xs : list A) : result E B :=
  match xs with
  | [] => Ok acc
  | x :: rest => let* acc' := f acc x in fold_res f acc' rest
  end.

(** A Go loop that builds one output per input, stopping at the first error. *)
Fixpoint map_res {E A B : Type} (f : A -> result E B) (xs : list A) : result E (list B) :=
  match xs with
  | [] => Ok []
  | x :: rest => let* y := f x in let* ys := map_res f rest in Ok (y :: ys)
  end.

Section bind_lemmas.
Context {E A B : Type}.

Lemma bind_ok_inv (m : result E A) (k : A -> result E B) b :
  bind m k = Ok b -> exists a, m = Ok a /\ k a = Ok b.
Proof. destruct m; simpl; [eauto | discriminate]. Qed.

Lemma bind_err_inv (m : result E A) (k : A -> result E B) e :
  bind m k = Err e -> m = Err e \/ exists a, m = Ok a /\ k a = Err e.
Proof. destruct m; simpl; [eauto | intros [= ->]; auto]. Qed.

Lemma check_ok_inv (b : bool) (e : E) u : check b e = Ok u -> b = true.
Proof. by destruct b. Qed.

Lemma check_err_inv (b : bool) (e e' : E) : check b e = Err e' -> b = false /\ e' = e.
Proof. destruct b; [done|]. by intros [= ->]. Qed.

Lemma check_true (e : E) : check true e = Ok tt.
Proof. reflexivity. Qed.

Lemma of_option_ok_inv (o : option A) (e : E) a : of_option o e = Ok a -> o = Some a.
Proof. by destruct o; simpl; intros [= ->]. Qed.

End bind_lemmas.

Lemma map_err_ok {E F A} (f : E -> F) (r : result E A) a : map_err f r = Ok a <-> r = Ok a.
Proof. destruct r; cbn; split; congruence. Qed.

Section loop_lemmas.
Context {E A B : Type}.

Lemma map_res_length (f : A -> result E B) xs ys :
  map_res f xs = Ok ys -> length ys = length xs.
Proof.
  revert ys; induction xs as [|x xs IH]; simpl; intros ys H.
  - by injection H as <-.
  - apply bind_ok_inv in H as (y & _ & H).
    apply bind_ok_inv in H as (zs & Hz & H). injection H as <-. simpl. auto.
Qed.

Lemma map_res_Forall2 (f : A -> result E B) xs ys :
  map_res f xs = Ok ys <-> Forall2 (fun x y => f x = Ok y) xs ys.
Proof.
  revert ys; induction xs as [|x xs IH]; intros ys; simpl; split; intros H.
  - by injection H as <-.
  - by inversion H.
  - apply bind_ok_inv in H as (y & Hy & H).
    apply bind_ok_inv in H as (zs & Hz & H). injection H as <-.
    constructor; [done|]. by apply IH.
  - inversion H as [|? y ? zs Hy Hz]; subst. rewrite Hy; simpl.
    apply IH in Hz. by rewrite Hz.
Qed.

(** The invariant rule for error-returning loops. *)
Lemma fold_res_ind (P : B -> Prop) (f : B -> A -> result E B) acc xs out :
  (forall b x b', x ∈ xs -> P b -> f b x = Ok b' -> P b') ->
  P acc -> fold_res f acc xs = Ok out -> P out.
Proof.
  revert acc; induction xs as [|x xs IH]; intros acc Hstep H0 H; simpl in H.
  - by injection H as <-.
  - apply bind_ok_inv in H as (b & Hb & H).
    refine (IH b _ _ H); [|by eapply Hstep; [left | |]].
    intros; eapply Hstep; [by right| |]; eauto.
Qed.

Lemma fold_res_app (f : B -> A -> result E B) acc xs ys :
  fold_res f acc (xs ++ ys) = let* b := fold_res f acc xs in fold_res f b ys.
Proof.
  revert acc; induction xs as [|x xs IH]; intros acc; simpl; [done|].
  destruct (f acc x); simpl; auto.
Qed.
End loop_lemmas.

(** Weakening a pointwise relation, knowing where its elements come from. *)
Lemma Forall2_in {A B} (P Q : A -> B -> Prop) l k :
  Forall2 P l k -> (forall x y, x ∈ l -> y ∈ k -> P x y -> Q x y) -> Forall2 Q l k.
Proof.
  induction 1 as [|x y l k Hxy _ IH]; intros HQ; constructor.
  - apply HQ; [left|left|done].
  - apply IH. intros x' y' Hx Hy. apply HQ; by right.
Qed.

(** Peels the successful binds of a hypothesis. *)
Ltac bind_inv H :=
  repeat first
    [ progress cbn beta iota in H
    | match type of H with
      | bind _ _ = Ok _ =>
          let a := fresh "a" in let Ha := fresh "Ha" in
          apply bind_ok_inv in H as (a & Ha & H)
      end ].

Ltac ok_inv :=
  repeat match goal with
  | H : Ok _ = Ok _ |- _ => injection H as H
  | H : Ok _ = Err _ |- _ => discriminate H
  | H : Err _ = Ok _ |- _ => discriminate H
  | H : Err _ = Err _ |- _ => injection H as H
  | H : check _ _ = Ok _ |- _ => apply check_ok_inv in H
  | H : of_option _ _ = Ok _ |- _ => apply of_option_ok_inv in H
  end.

(** Splits boolean tests of the code into the propositions they decide. *)
Ltac boolify :=
  repeat match goal with
  | H : (_ && _)%bool = true |- _ => apply andb_true_iff in H as [? ?]
  | H : (_ || _)%bool = false |- _ => apply orb_false_iff in H as [? ?]
  | H : negb _ = true |- _ => apply negb_true_iff in H
  | H : negb _ = false |- _ => apply negb_false_iff in H
  | H : bool_decide _ = true |- _ => apply bool_decide_eq_true in H
  | H : bool_decide _ = false |- _ => apply bool_decide_eq_false in H
  end.

(** ** Machine integers *)

Definition two64 : Z := 18446744073709551616.
Definition two63 : Z := 9223372036854775808.
Definition max_int64 : Z := 9223372036854775807.
Definition min_int64 : Z := -9223372036854775808.
Definition max_int32 : Z := 2147483647.
Definition min_int32 : Z := -2147483648.

(** Two's complement wrap-around of a 64-bit and of a 32-bit signed result. *)
Definition wrap64 (z : Z) : Z := (z + two63) mod two64 - two63.
Definition wrap32 (z : Z) : Z := (z + 2147483648) mod 4294967296 - 2147483648.
Definition in_int64 (z : Z) : Prop := min_int64 <= z <= max_int64.

(** Go's [/] and [%] truncate towards zero. *)
Definition go_div (a b : Z) : Z := Z.quot a b.
Definition go_mod (a b : Z) : Z := Z.rem a b.

Lemma wrap64_id z : in_int64 z -> wrap64 z = z.
Proof.
  unfold in_int64, wrap64, min_int64, max_int64, two63, two64. intros H.
  rewrite Z.mod_small; lia.
Qed.

Lemma wrap64_range z : in_int64 (wrap64 z).
Proof.
  unfold in_int64, wrap64, min_int64, max_int64, two63, two64.
  pose proof (Z.mod_pos_bound (z + 9223372036854775808) 18446744073709551616). lia.
Qed.

Lemma wrap32_id z : min_int32 <= z <= max_int32 -> wrap32 z = z.
Proof.
  unfold min_int32, max_int32, wrap32. intros H. rewrite Z.mod_small; lia.
Qed.

(** ** Bytes *)

Abbreviation bytes := (list ascii).

Definition byteZ (b : ascii) : Z := Z.of_N (N_of_ascii b).
Definition Zbyte (z : Z) : ascii := ascii_of_N (Z.to_N (z mod 256)).

Abbreviation bytes_of := list_ascii_of_string.
Abbreviation string_of := string_of_list_ascii.

Lemma byteZ_range b : 0 <= byteZ b < 256.
Proof. unfold byteZ. pose proof (N_ascii_bounded b). lia. Qed.

Lemma byteZ_Zbyte z : byteZ (Zbyte z) = z mod 256.
Proof.
  unfold byteZ, Zbyte. pose proof (Z.mod_pos_bound z 256).
  rewrite N_ascii_embedding; lia.
Qed.

Lemma byteZ_Zbyte_small z : 0 <= z < 256 -> byteZ (Zbyte z) = z.
Proof. intros H. rewrite byteZ_Zbyte. by apply Z.mod_small. Qed.

Lemma Zbyte_byteZ b : Zbyte (byteZ b) = b.
Proof.
  unfold Zbyte. rewrite Z.mod_small by apply byteZ_range.
  unfold byteZ. by rewrite N2Z.id, ascii_N_embedding.
Qed.

#[export] Instance byteZ_inj : Inj (=) (=) byteZ.
Proof. intros a b H. by rewrite <- (Zbyte_byteZ a), <- (Zbyte_byteZ b), H. Qed.

Lemma length_bytes_of s : length (bytes_of s) = String.length s.
Proof. induction s; simpl; auto. Qed.

Create HintDb go.
Create Rewrite HintDb go.
#[export] Hint Rewrite @string_of_list_ascii_of_string @list_ascii_of_string_of_list_ascii
  @length_app : go.
#[export] Hint Resolve byteZ_range wrap64_range : go.

(** ** Counting the elements that satisfy a test *)

Section tally.
Context {A : Type} (f : A -> bool).

Definition tally (l : list A) : Z := Z.of_nat (length (List.filter f l)).

Lemma tally_cons x l : tally (x :: l) = (if f x then 1 else 0) + tally l.
Proof. unfold tally. cbn [List.filter]. destruct (f x); cbn [length]; lia. Qed.

Lemma tally_nonneg l : 0 <= tally l.
Proof. unfold tally. lia. Qed.

Lemma tally_app l k : tally (l ++ k) = tally l + tally k.
Proof.
  induction l as [|x l IH]; [done|].
  change ((x :: l) ++ k) with (x :: (l ++ k)). rewrite !tally_cons, IH. lia.
Qed.

Lemma tally_insert l i x y :
  l !! i = Some x -> tally (<[i := y]> l) = tally l - (if f x then 1 else 0) + (if f y then 1 else 0).
Proof.
  revert i. induction l as [|z l IH]; intros [|i] H; try done.
  - injection H as ->. change (<[0%nat := y]> (x :: l)) with (y :: l). rewrite !tally_cons. lia.
  - change (<[S i := y]> (z :: l)) with (z :: <[i := y]> l). rewrite !tally_cons, (IH i H). lia.
Qed.

Lemma tally_pos l x : x ∈ l -> f x = true -> 1 <= tally l.
Proof.
  intros H E. induction l as [|y l IH]; [by apply not_elem_of_nil in H|]. rewrite tally_cons. pose proof (tally_nonneg l).
  apply elem_of_cons in H as [<-|H]; [rewrite E; lia|]. specialize (IH H). destruct (f y); lia.
Qed.

Lemma tally_zero l : tally l = 0 -> forall x, x ∈ l -> f x = false.
Proof. intros H x Hx. destruct (f x) eqn:E; [|done]. pose proof (tally_pos l x Hx E). lia. Qed.

Lemma tally_none l : (forall x, x ∈ l -> f x = false) -> tally l = 0.
Proof.
  intros H. induction l as [|x l IH]; [done|]. rewrite tally_cons, (H x) by left. rewrite IH; [done|].
  intros y Hy. apply H. by right.
Qed.

(** At most one, at one place. *)
Lemma tally_unique l i j x y :
  tally l <= 1 -> l !! i = Some x -> l !! j = Some y -> f x = true -> f y = true -> i = j.
Proof.
  revert i j. induction l as [|z l IH]; intros [|i] [|j] H Hi Hj Hx Hy; try done; rewrite tally_cons in H.
  - injection Hi as ->. change (l !! j = Some y) in Hj. apply list_elem_of_lookup_2 in Hj. pose proof (tally_pos l y Hj Hy). rewrite Hx in H. lia.
  - injection Hj as ->. change (l !! i = Some x) in Hi. apply list_elem_of_lookup_2 in Hi. pose proof (tally_pos l x Hi Hx). rewrite Hy in H. lia.
  - f_equal. apply (IH i j); try done. destruct (f z); lia.
Qed.
End tally.
