(* ===== verification/GoStrings.v ===== *)
(** * Go strings: UTF-8, runes, trimming

    The parts of Go's [unicode/utf8], [unicode] and [strings] packages that the
    program uses, on byte sequences.  A Go string is a Rocq [string] (a sequence
    of bytes); a [[]byte] is a [list ascii]. *)

From S2P Require Import Prelude.

Definition RuneError : Z := 65533.

Definition in_range (lo hi : Z) (b : ascii) : bool := (lo <=? byteZ b) && (byteZ b <=? hi).

(** Continuation bytes, [0x80..0xBF]. *)
Definition is_cont (b : ascii) : bool := in_range 128 191 b.

(** The admissible second bytes after a three- or four-byte lead
    ([utf8.acceptRanges]). *)
Definition second_ok (lead : Z) (b : ascii) : bool :=
  if lead =? 224 then in_range 160 191 b
  else if lead =? 237 then in_range 128 159 b
  else if lead =? 240 then in_range 144 191 b
  else if lead =? 244 then in_range 128 143 b
  else is_cont b.

(** One rune with the bytes it was decoded from; [rune_bad] marks the
    [(RuneError, 1)] result of [utf8.DecodeRune] on an invalid sequence. *)
Record rune := Rune { rune_value : Z; rune_bytes : bytes; rune_bad : bool }.

Definition rune1 (a : ascii) : rune := Rune (byteZ a) [a] false.
Definition rune_err (a : ascii) : rune := Rune RuneError [a] true.
Definition rune2 (a b : ascii) : rune :=
  Rune ((byteZ a - 192) * 64 + (byteZ b - 128)) [a; b] false.
Definition rune3 (a b c : ascii) : rune :=
  Rune ((byteZ a - 224) * 4096 + (byteZ b - 128) * 64 + (byteZ c - 128)) [a; b; c] false.
Definition rune4 (a b c d : ascii) : rune :=
  Rune ((byteZ a - 240) * 262144 + (byteZ b - 128) * 4096 + (byteZ c - 128) * 64
        + (byteZ d - 128)) [a; b; c; d] false.

(** How many bytes the lead byte announces: 1 for ASCII, 0 for a byte that
    cannot start a rune. *)
Definition lead_size (a : ascii) : nat :=
  let v := byteZ a in
  if v <? 128 then 1
  else if (194 <=? v) && (v <=? 223) then 2
  else if (224 <=? v) && (v <=? 239) then 3
  else if (240 <=? v) && (v <=? 244) then 4
  else 0.

(** [for _, r := range s]: the decoding of a whole byte sequence. *)
Fixpoint runes (s : bytes) : list rune :=
  match s with
  | [] => []
  | a :: r1 =>
      match lead_size a with
      | 1%nat => rune1 a :: runes r1
      | 2%nat =>
          match r1 with
          | b :: r2 => if is_cont b then rune2 a b :: runes r2 else rune_err a :: runes r1
          | [] => rune_err a :: runes r1
          end
      | 3%nat =>
          match r1 with
          | b :: c :: r3 =>
              if second_ok (byteZ a) b && is_cont c then rune3 a b c :: runes r3
              else rune_err a :: runes r1
          | _ => rune_err a :: runes r1
          end
      | 4%nat =>
          match r1 with
          | b :: c :: d :: r4 =>
              if second_ok (byteZ a) b && is_cont c && is_cont d then rune4 a b c d :: runes r4
              else rune_err a :: runes r1
          | _ => rune_err a :: runes r1
          end
      | _ => rune_err a :: runes r1
      end
  end.

(** [utf8.Valid] and [utf8.RuneCountInString]. *)
Definition utf8_valid (s : bytes) : bool := forallb (fun r => negb (rune_bad r)) (runes s).
Definition rune_count (s : string) : Z := Z.of_nat (length (runes (bytes_of s))).

(** [unicode.IsSpace]: the White_Space property. *)
Definition is_space (r : Z) : bool :=
  ((9 <=? r) && (r <=? 13)) || (r =? 32) || (r =? 133) || (r =? 160) || (r =? 5760)
  || ((8192 <=? r) && (r <=? 8202)) || (r =? 8232) || (r =? 8233) || (r =? 8239)
  || (r =? 8287) || (r =? 12288).

(** [isPythonWhitespace]: Go's spaces and the four information separators. *)
Definition isPythonWhitespace (r : Z) : bool := is_space r || ((28 <=? r) && (r <=? 31)).

Definition flatten_runes (rs : list rune) : bytes := concat (map rune_bytes rs).

Fixpoint drop_while {A} (f : A -> bool) (l : list A) : list A :=
  match l with
  | [] => []
  | x :: r => if f x then drop_while f r else l
  end.

(** [strings.TrimFunc]: cut the leading and trailing runes satisfying [f]. *)
Definition trim_func (f : Z -> bool) (s : string) : string :=
  let keep := fun r => f (rune_value r) in
  string_of (flatten_runes (rev (drop_while keep (rev (drop_while keep (runes (bytes_of s))))))).

Definition trim_space : string -> string := trim_func is_space.

(** ** Hexadecimal *)

(** [%02x] of a byte. *)
Definition hex_digit (n : Z) : ascii :=
  match String.get (Z.to_nat n) "0123456789abcdef" with Some c => c | None => "?"%char end.
Definition hex2 (b : Z) : string := String (hex_digit (b / 16)) (String (hex_digit (b mod 16)) "").

(** ** Decoding one rune at a time *)

#[global] Arguments byteZ : simpl never.
#[global] Arguments is_cont : simpl never.
#[global] Arguments second_ok : simpl never.
#[global] Arguments lead_size : simpl never.

(** [utf8.DecodeRune] on a non-empty slice. *)
Definition decode_rune (a : ascii) (r1 : bytes) : rune :=
  match lead_size a, r1 with
  | 1%nat, _ => rune1 a
  | 2%nat, b :: _ => if is_cont b then rune2 a b else rune_err a
  | 3%nat, b :: c :: _ =>
      if second_ok (byteZ a) b && is_cont c then rune3 a b c else rune_err a
  | 4%nat, b :: c :: d :: _ =>
      if second_ok (byteZ a) b && is_cont c && is_cont d then rune4 a b c d else rune_err a
  | _, _ => rune_err a
  end.

Ltac decode_cases a r1 :=
  destruct (lead_size a) as [|[|[|[|[|?]]]]];
    try (destruct r1 as [|? r1]); try (destruct r1 as [|? r1]);
    try (destruct r1 as [|? r1]);
    repeat match goal with |- context [if ?c then _ else _] => destruct c end.

Lemma decode_rune_bytes a r1 :
  exists t, rune_bytes (decode_rune a r1) = a :: t /\
    r1 = t ++ drop (length t) r1 /\
    runes (a :: r1) = decode_rune a r1 :: runes (drop (length t) r1).
Proof.
  unfold decode_rune. cbn [runes].
  decode_cases a r1; eexists; (split; [reflexivity|]); by cbn.
Qed.

(** Induction over the runes of a byte sequence. *)
Lemma runes_ind (P : bytes -> Prop) :
  P [] ->
  (forall a r1 t rest, rune_bytes (decode_rune a r1) = a :: t -> r1 = t ++ rest ->
     runes (a :: r1) = decode_rune a r1 :: runes rest -> P rest -> P (a :: r1)) ->
  forall s, P s.
Proof.
  intros H0 Hs s. remember (length s) as n eqn:Hn.
  assert (Hl : (length s <= n)%nat) by lia. clear Hn.
  revert s Hl. induction n as [|n IH]; intros [|a r1] Hl; try done; [simpl in Hl; lia|].
  destruct (decode_rune_bytes a r1) as (t & Ht & Hr & Hc).
  eapply Hs; [exact Ht | exact Hr | exact Hc |].
  apply IH. rewrite length_drop. simpl in Hl. lia.
Qed.

Lemma runes_flatten s : flatten_runes (runes s) = s.
Proof.
  induction s as [|a r1 t rest Ht Hr Hc IH] using runes_ind; [done|].
  rewrite Hc. unfold flatten_runes in *. simpl. by rewrite Ht, IH, Hr.
Qed.

Lemma rune_bytes_nonempty s : Forall (fun r => rune_bytes r <> []) (runes s).
Proof.
  induction s as [|a r1 t rest Ht Hr Hc IH] using runes_ind; [constructor|].
  rewrite Hc. constructor; [by rewrite Ht | done].
Qed.

Lemma flatten_runes_app l1 l2 : flatten_runes (l1 ++ l2) = flatten_runes l1 ++ flatten_runes l2.
Proof. unfold flatten_runes. by rewrite map_app, concat_app. Qed.

(** A decoded rune depends only on its own bytes when it is good, and a bad
    lead stays bad when the text is cut later: the runes of the first part of
    a text are the first runes of the text. *)
Lemma decode_rune_cut a t u more :
  rune_bytes (decode_rune a (u ++ more)) = a :: t -> (length t <= length u)%nat ->
  decode_rune a u = decode_rune a (u ++ more).
Proof.
  unfold decode_rune. intros H Hl.
  destruct (lead_size a) as [|[|[|[|[|k]]]]]; try done.
  all: destruct u as [|u1 [|u2 [|u3 u]]], more as [|m1 [|m2 [|m3 more]]]; cbn in *; try done.
  all: repeat match goal with
       | _ : context [if ?c then _ else _] |- _ => destruct c
       end; try done.
  all: cbn in H; injection H as <-; simpl in Hl; lia.
Qed.

Lemma runes_prefix l1 l2 s : runes s = l1 ++ l2 -> runes (flatten_runes l1) = l1.
Proof.
  revert s. induction l1 as [|r l1 IH]; intros s H; [done|].
  destruct s as [|a r1]; [done|].
  destruct (decode_rune_bytes a r1) as (t & Ht & Hr & Hc).
  rewrite Hc in H. injection H as Hr0 Hrest.
  pose proof (IH _ Hrest) as IH1. subst r.
  set (rest := drop (length t) r1) in *.
  assert (Hsplit : rest = flatten_runes l1 ++ flatten_runes l2).
  { by rewrite <- flatten_runes_app, <- Hrest, runes_flatten. }
  change (flatten_runes (?x :: l1)) with (rune_bytes x ++ flatten_runes l1). rewrite Ht.
  assert (Hd : decode_rune a (t ++ flatten_runes l1) = decode_rune a r1).
  { rewrite Hr, Hsplit, app_assoc. apply (decode_rune_cut a t).
    - by rewrite <- app_assoc, <- Hsplit, <- Hr.
    - rewrite length_app. lia. }
  simpl app. destruct (decode_rune_bytes a (t ++ flatten_runes l1)) as (t' & Ht' & _ & Hc').
  rewrite Hd, Ht in Ht'. injection Ht' as <-.
  rewrite Hc', Hd, drop_app_length. by rewrite IH1.
Qed.

Lemma runes_suffix l1 l2 s : runes s = l1 ++ l2 -> runes (flatten_runes l2) = l2.
Proof.
  revert s. induction l1 as [|r l1 IH]; intros s H.
  - simpl in H. by rewrite <- H, runes_flatten.
  - destruct s as [|a r1]; [done|].
    destruct (decode_rune_bytes a r1) as (t & Ht & Hr & Hc).
    rewrite Hc in H. injection H as _ Hrest. by eapply IH.
Qed.

(** ** Trimming *)

Lemma drop_while_suffix {A} (f : A -> bool) l : exists p, l = p ++ drop_while f l.
Proof.
  induction l as [|x l [p IH]]; simpl; [by exists []|].
  destruct (f x); [exists (x :: p); simpl; by f_equal | by exists []].
Qed.

Lemma drop_while_keeps {A} (f : A -> bool) l x : x ∈ l -> f x = false -> x ∈ drop_while f l.
Proof.
  intros Hx Hf. induction l as [|y l IH]; simpl; [set_solver|].
  destruct (f y) eqn:E; [|done].
  apply elem_of_cons in Hx as [->|Hx]; [congruence | auto].
Qed.

Lemma drop_while_all {A} (f : A -> bool) l :
  Forall (fun x => f x = true) l -> drop_while f l = [].
Proof. induction 1 as [|x l Hx _ IH]; simpl; [done|]. by rewrite Hx. Qed.

Lemma drop_while_idem {A} (f : A -> bool) l : drop_while f (drop_while f l) = drop_while f l.
Proof.
  induction l as [|x l IH]; simpl; [done|].
  destruct (f x) eqn:E; [done|]. simpl. by rewrite E.
Qed.

(** The trimmed list of runes: both ends cut. *)
Definition trim_list {A} (f : A -> bool) (l : list A) : list A :=
  rev (drop_while f (rev (drop_while f l))).

Lemma trim_list_infix {A} (f : A -> bool) l : exists p q, l = p ++ trim_list f l ++ q.
Proof.
  unfold trim_list. destruct (drop_while_suffix f l) as [p Hp].
  destruct (drop_while_suffix f (rev (drop_while f l))) as [q Hq].
  exists p, (rev q). rewrite <- rev_app_distr, <- Hq, rev_involutive. done.
Qed.

Lemma elem_of_rev {A} (x : A) l : x ∈ rev l <-> x ∈ l.
Proof. rewrite !list_elem_of_In. symmetry. apply in_rev. Qed.

Lemma trim_list_keeps {A} (f : A -> bool) l x : x ∈ l -> f x = false -> x ∈ trim_list f l.
Proof.
  unfold trim_list. intros Hx Hf.
  apply elem_of_rev, drop_while_keeps; [|done].
  by apply elem_of_rev, drop_while_keeps.
Qed.

Lemma drop_while_first {A} (f : A -> bool) l x r : drop_while f l = x :: r -> f x = false.
Proof.
  induction l as [|y l IH]; simpl; [done|]. destruct (f y) eqn:E; [done|].
  by intros [= -> ->].
Qed.

Lemma trim_list_idem {A} (f : A -> bool) l : trim_list f (trim_list f l) = trim_list f l.
Proof.
  unfold trim_list at 1.
  assert (Hd : drop_while f (trim_list f l) = trim_list f l).
  { unfold trim_list. destruct (drop_while f l) as [|x r] eqn:E; [done|].
    pose proof (drop_while_first _ _ _ _ E) as Hx.
    destruct (drop_while_suffix f (rev (x :: r))) as [q Hq].
    destruct (drop_while f (rev (x :: r))) as [|z d] eqn:Ed; [done|].
    apply (f_equal (@rev A)) in Hq. rewrite rev_involutive, rev_app_distr in Hq.
    destruct (rev (z :: d)) as [|x' r'] eqn:Er.
    { by apply (f_equal (@length A)) in Er; rewrite length_rev in Er. }
    injection Hq as -> _. simpl. by rewrite Hx. }
  rewrite Hd. unfold trim_list. by rewrite rev_involutive, drop_while_idem.
Qed.

Lemma trim_func_list f s :
  trim_func f s
  = string_of (flatten_runes (trim_list (fun r => f (rune_value r)) (runes (bytes_of s)))).
Proof. reflexivity. Qed.

Lemma runes_trim f s :
  runes (bytes_of (trim_func f s)) = trim_list (fun r => f (rune_value r)) (runes (bytes_of s)).
Proof.
  rewrite trim_func_list, list_ascii_of_string_of_list_ascii.
  destruct (trim_list_infix (fun r => f (rune_value r)) (runes (bytes_of s))) as (p & q & H).
  pose proof (runes_suffix _ _ _ H) as Hs. exact (runes_prefix _ _ _ Hs).
Qed.

Lemma trim_func_idem f s : trim_func f (trim_func f s) = trim_func f s.
Proof.
  rewrite (trim_func_list f (trim_func f s)), runes_trim, trim_list_idem.
  by rewrite <- trim_func_list.
Qed.

Lemma flatten_runes_nil s rs :
  (forall r, r ∈ rs -> r ∈ runes s) -> flatten_runes rs = [] -> rs = [].
Proof.
  destruct rs as [|r rs]; [done|]. intros Hin H. exfalso.
  assert (Hr : rune_bytes r <> []).
  { eapply (proj1 (Forall_forall _ _) (rune_bytes_nonempty s)). apply Hin. left. }
  unfold flatten_runes in H. simpl in H. by apply app_nil in H as [H _].
Qed.

(** [strings.TrimFunc(s, f) == ""] says that [f] holds of every rune of [s]. *)
Lemma trim_func_empty f s :
  trim_func f s = ""%string <-> Forall (fun r => f (rune_value r) = true) (runes (bytes_of s)).
Proof.
  rewrite trim_func_list. set (keep := fun r => f (rune_value r)). split.
  - intros H. apply (f_equal bytes_of) in H.
    rewrite list_ascii_of_string_of_list_ascii in H. apply flatten_runes_nil with (s := bytes_of s) in H.
    + apply Forall_forall. intros x Hx. fold (keep x). destruct (keep x) eqn:E; [done|].
      pose proof (trim_list_keeps keep _ _ Hx E) as Hin. rewrite H in Hin. by apply not_elem_of_nil in Hin.
    + intros r Hr. destruct (trim_list_infix keep (runes (bytes_of s))) as (p & q & ->). rewrite !elem_of_app. auto.
  - intros Hall. unfold trim_list. by rewrite (drop_while_all keep _ Hall).
Qed.

Definition blank (s : string) : bool := String.eqb (trim_space s) "".

Lemma blank_false_first s c r :
  runes (bytes_of s) = c :: r -> is_space (rune_value c) = false -> blank s = false.
Proof.
  intros H Hc. apply String.eqb_neq. unfold trim_space. rewrite trim_func_empty, H.
  intros Hall. inversion Hall; subst. congruence.
Qed.

(** ASCII text is valid UTF-8, one rune per byte. *)
Lemma runes_ascii s : Forall (fun b => byteZ b < 128) s -> runes s = map rune1 s.
Proof.
  induction 1 as [|a s Ha _ IH]; [done|]. cbn [runes].
  unfold lead_size. replace (byteZ a <? 128) with true by (symmetry; apply Z.ltb_lt; lia).
  cbn. by rewrite IH.
Qed.

(** The byte order of [strings.Compare], as a total order for [slices.SortFunc]. *)
Definition str_le (a b : string) : Prop := String.leb a b = true.

#[export] Instance str_le_dec a b : Decision (str_le a b).
Proof. unfold str_le. apply _. Defined.

#[export] Instance str_le_total : Total str_le.
Proof. intros a b. apply String.leb_total. Qed.

#[export] Instance str_le_refl : Reflexive str_le.
Proof. intros a. by destruct (total str_le a a). Qed.

#[export] Instance str_le_antisym : AntiSymm (=) str_le.
Proof. intros a b. apply String.leb_antisym. Qed.

Lemma ascii_compare_trans_lt a b c :
  Ascii.compare a b = Lt -> Ascii.compare b c = Lt -> Ascii.compare a c = Lt.
Proof. unfold Ascii.compare. rewrite !N.compare_lt_iff. lia. Qed.

#[export] Instance str_le_trans : Transitive str_le.
Proof.
  unfold str_le, String.leb.
  enough (H : forall a b c, String.compare a b <> Gt -> String.compare b c <> Gt ->
                 String.compare a c <> Gt).
  { intros a b c H1 H2. specialize (H a b c).
    destruct (String.compare a b), (String.compare b c), (String.compare a c); try done;
      exfalso; by apply H. }
  induction a as [|x a IH]; intros [|y b] [|z c]; simpl; try done.
  unfold Ascii.compare.
  destruct (N.compare_spec (N_of_ascii x) (N_of_ascii y)),
    (N.compare_spec (N_of_ascii y) (N_of_ascii z)),
    (N.compare_spec (N_of_ascii x) (N_of_ascii z)); try done; try lia; eauto.
Qed.
