(* ===== verification/GoTime.v ===== *)
(** * Go time: instants, the civil calendar, durations, float timestamps

    The parts of Go's [time] package the program uses, for instants in UTC, and
    the IEEE 754 double arithmetic of the timestamp columns. *)

From Stdlib Require Import SpecFloat.
From S2P Require Import Prelude.

(** ** Instants *)

(** A [time.Time] in UTC: nanoseconds since the Unix epoch. *)
Abbreviation time := Z (only parsing).

(** A [time.Duration]: nanoseconds, an [int64]. *)
Abbreviation duration := Z (only parsing).

Definition giga : Z := 1000000000.
Definition day_seconds : Z := 86400.

(** The zero [time.Time], 0001-01-01T00:00:00Z. *)
Definition zero_time : time := -62135596800 * giga.

Definition unix (t : time) : Z := t / giga.
Definition nanosecond (t : time) : Z := t mod giga.
Definition unix_micro (t : time) : Z := wrap64 (unix t * 1000000 + nanosecond t / 1000).

(** [time.UnixMicro]. *)
Definition of_unix_micro (us : Z) : time := us * 1000.

(** [time.Duration.Microseconds]. *)
Definition microseconds (d : duration) : Z := go_div d 1000.

(** ** The proleptic Gregorian calendar *)

Record civil_date := Civil { year : Z; month : Z; day : Z }.

(** The date of a day number counted from 1970-01-01. *)
Definition civil_of_days (z : Z) : civil_date :=
  let n := z + 719468 in
  let era := n / 146097 in
  let doe := n mod 146097 in
  let yoe := (doe - doe / 1460 + doe / 36524 - doe / 146096) / 365 in
  let doy := doe - (365 * yoe + yoe / 4 - yoe / 100) in
  let mp := (5 * doy + 2) / 153 in
  let d := doy - (153 * mp + 2) / 5 + 1 in
  let m := if mp <? 10 then mp + 3 else mp - 9 in
  Civil (yoe + era * 400 + (if m <=? 2 then 1 else 0)) m d.

(** The day number of a date whose month is in 1..12 (the day may overflow). *)
Definition days_of_civil (y m d : Z) : Z :=
  let y' := if m <=? 2 then y - 1 else y in
  let era := y' / 400 in
  let yoe := y' mod 400 in
  let mp := (m + 9) mod 12 in
  let doy := (153 * mp + 2) / 5 + d - 1 in
  let doe := yoe * 365 + yoe / 4 - yoe / 100 + doy in
  era * 146097 + doe - 719468.

Definition civil_of (t : time) : civil_date := civil_of_days (unix t / day_seconds).
Definition second_of_day (t : time) : Z := unix t mod day_seconds.
Definition hour (t : time) : Z := second_of_day t / 3600.
Definition minute (t : time) : Z := second_of_day t mod 3600 / 60.
Definition second (t : time) : Z := second_of_day t mod 60.

(** [time.Date(y, mo, d, h, mi, s, ns, time.UTC)]: out-of-range fields carry. *)
Definition go_date (y mo d h mi s ns : Z) : time :=
  let y' := y + (mo - 1) / 12 in
  let mo' := (mo - 1) mod 12 + 1 in
  ((days_of_civil y' mo' d) * day_seconds + h * 3600 + mi * 60 + s) * giga + ns.

Example civil_epoch : civil_of_days 0 = Civil 1970 1 1.
Proof. reflexivity. Qed.
Example civil_leap : civil_of_days 11016 = Civil 2000 2 29.
Proof. reflexivity. Qed.
Example civil_zero_time : civil_of zero_time = Civil 1 1 1.
Proof. reflexivity. Qed.
Example go_date_carry : go_date 2025 13 32 0 0 0 0 = go_date 2026 2 1 0 0 0 0.
Proof. reflexivity. Qed.

Lemma year_of_era_bound doe :
  0 <= doe < 146097 ->
  0 <= (doe - doe / 1460 + doe / 36524 - doe / 146096) / 365 < 400.
Proof. intros H. split; Z.to_euclidean_division_equations; lia. Qed.

Lemma day_of_year_bound doe :
  0 <= doe < 146097 ->
  let yoe := (doe - doe / 1460 + doe / 36524 - doe / 146096) / 365 in
  0 <= doe - (365 * yoe + yoe / 4 - yoe / 100) <= 365.
Proof. cbv zeta. intros H. split; Z.to_euclidean_division_equations; lia. Qed.

Lemma civil_of_days_fields z :
  1 <= month (civil_of_days z) <= 12 /\ 1 <= day (civil_of_days z) <= 31.
Proof.
  unfold civil_of_days. cbn.
  pose proof (day_of_year_bound ((z + 719468) mod 146097)
                (Z.mod_pos_bound _ 146097 ltac:(lia))) as Hd.
  cbv zeta in Hd.
  set (doy := _ - (365 * _ + _ / 4 - _ / 100)) in *. clearbody doy.
  destruct (Z.ltb_spec ((5 * doy + 2) / 153) 10);
    split; Z.to_euclidean_division_equations; lia.
Qed.

(** Reading the fields of a day number and counting them again is the identity. *)
Lemma days_of_civil_of_days z :
  let c := civil_of_days z in days_of_civil (year c) (month c) (day c) = z.
Proof.
  unfold civil_of_days. cbn. unfold days_of_civil.
  pose proof (Z.mod_pos_bound (z + 719468) 146097 ltac:(lia)) as Hb.
  pose proof (Z.div_mod (z + 719468) 146097 ltac:(lia)) as Hz.
  set (era := (z + 719468) / 146097) in *.
  set (doe := (z + 719468) mod 146097) in *.
  pose proof (day_of_year_bound doe Hb) as Hdoy. cbv zeta in Hdoy.
  pose proof (year_of_era_bound doe Hb) as Hyoe.
  set (yoe := (doe - doe / 1460 + doe / 36524 - doe / 146096) / 365) in *.
  set (doy := doe - (365 * yoe + yoe / 4 - yoe / 100)) in *.
  assert (Hmp : 0 <= (5 * doy + 2) / 153 < 12) by (Z.to_euclidean_division_equations; lia).
  set (mp := (5 * doy + 2) / 153) in *.
  set (m := if mp <? 10 then mp + 3 else mp - 9).
  replace (if m <=? 2 then yoe + era * 400 + (if m <=? 2 then 1 else 0) - 1
           else yoe + era * 400 + (if m <=? 2 then 1 else 0)) with (yoe + era * 400)
    by (destruct (m <=? 2); lia).
  replace ((m + 9) mod 12) with mp
    by (unfold m; destruct (Z.ltb_spec mp 10); [|];
        [apply (Z.mod_unique _ _ 1) | apply (Z.mod_unique _ _ 0)]; lia).
  rewrite Z.div_add, Z.mod_add by lia.
  rewrite Z.div_small, Z.mod_small by lia. unfold doy. lia.
Qed.

Lemma time_fields_bounds t :
  0 <= hour t < 24 /\ 0 <= minute t < 60 /\ 0 <= second t < 60 /\ 0 <= nanosecond t < giga.
Proof.
  unfold hour, minute, second, second_of_day, nanosecond, day_seconds, giga.
  repeat split; Z.to_euclidean_division_equations; lia.
Qed.

(** [time.Date] of the fields of an instant is that instant. *)
Lemma go_date_fields t :
  go_date (year (civil_of t)) (month (civil_of t)) (day (civil_of t))
    (hour t) (minute t) (second t) (nanosecond t) = t.
Proof.
  unfold go_date. destruct (civil_of_days_fields (unix t / day_seconds)) as [Hm _].
  fold (civil_of t) in Hm.
  replace ((month (civil_of t) - 1) / 12) with 0 by (symmetry; apply Z.div_small; lia).
  replace ((month (civil_of t) - 1) mod 12 + 1) with (month (civil_of t))
    by (rewrite Z.mod_small; lia).
  rewrite Z.add_0_r. unfold civil_of. rewrite days_of_civil_of_days.
  unfold hour, minute, second, second_of_day, nanosecond, unix, day_seconds, giga.
  Z.to_euclidean_division_equations. lia.
Qed.

(** ** Float64 *)

(** An IEEE 754 double, by the Standard Library's executable specification. *)
Abbreviation float64 := spec_float.

Definition f64_of_int (z : Z) : float64 := binary_normalize 53 1024 z 0 false.
Definition f64_add : float64 -> float64 -> float64 := SFadd 53 1024.
Definition f64_mul : float64 -> float64 -> float64 := SFmul 53 1024.
Definition f64_div : float64 -> float64 -> float64 := SFdiv 53 1024.
Definition f64_eq : float64 -> float64 -> bool := SFeqb.
Definition f64_lt (a b : float64) : bool := SFltb a b.

Definition is_nan (f : float64) : bool := match f with S754_nan => true | _ => false end.
Definition is_inf (f : float64) : bool := match f with S754_infinity _ => true | _ => false end.
Definition is_finite (f : float64) : bool := negb (is_nan f) && negb (is_inf f).

#[export] Instance float64_eq_dec : EqDecision float64.
Proof. solve_decision. Defined.

Lemma f64_eq_refl f : is_nan f = false -> f64_eq f f = true.
Proof.
  destruct f as [s|s| |s m e]; cbn; try done; unfold f64_eq, SFeqb; cbn;
    destruct s; try done; rewrite Z.compare_refl.
  - by rewrite Pos.compare_cont_refl.
  - by rewrite Pos.compare_cont_refl.
Qed.

(** *** No overflow for bounded operands

    [mag K m e] says that the number [m * 2^e] is at most [2^K]. *)
Definition mag (K m e : Z) : Prop := 0 <= m <= 2 ^ (K - e) /\ e <= K.

Definition fmag (K : Z) (f : float64) : Prop :=
  match f with
  | S754_zero _ => True
  | S754_finite _ m e => mag K (Zpos m) e
  | _ => False
  end.

Lemma fmag_finite K f : fmag K f -> is_finite f = true.
Proof. by destruct f. Qed.

Lemma mag_mono K K' m e : K <= K' -> mag K m e -> mag K' m e.
Proof.
  intros HK [[Hm1 Hm2] He]. split; [|lia]. split; [done|].
  transitivity (2 ^ (K - e)); [done|]. apply Z.pow_le_mono_r; lia.
Qed.

Lemma fmag_mono K K' f : K <= K' -> fmag K f -> fmag K' f.
Proof. destruct f; simpl; try done. apply mag_mono. Qed.

Lemma Zdigits2_bound m k : 0 <= k -> 0 <= m <= 2 ^ k -> Zdigits2 m <= k + 1.
Proof.
  intros Hk Hm. destruct (decide (k + 1 < Zdigits2 m)) as [Hlt|]; [|lia]. exfalso.
  destruct m as [|p|p]; simpl in *; try lia.
  assert (Hp : 2 ^ (Zpos (digits2_pos p) - 1) <= Zpos p).
  { clear. induction p as [p IH|p IH|]; cbn [digits2_pos]; [| |done];
      rewrite Pos2Z.inj_succ;
      replace (Z.succ (Zpos (digits2_pos p)) - 1) with (Z.succ (Zpos (digits2_pos p) - 1)) by lia;
      rewrite Z.pow_succ_r by lia; lia. }
  assert (2 ^ (k + 1) <= 2 ^ (Zpos (digits2_pos p) - 1)) by (apply Z.pow_le_mono_r; lia).
  rewrite Z.pow_add_r in * by lia. lia.
Qed.

Lemma shr_1_half r : 0 <= shr_m r -> shr_m (shr_1 r) = shr_m r / 2.
Proof.
  destruct r as [m r s]. cbn [shr_m]. intros H. destruct m as [|[p|p|]|p]; try lia.
  - done.
  - change (Zpos p = Zpos p~1 / 2). Z.to_euclidean_division_equations. lia.
  - change (Zpos p = Zpos p~0 / 2). Z.to_euclidean_division_equations. lia.
  - done.
Qed.

Lemma iter_pos_nat {A} (f : A -> A) p x :
  SpecFloat.iter_pos f p x = Nat.iter (Pos.to_nat p) f x.
Proof.
  revert x. induction p as [p IH|p IH|]; intros x; cbn [SpecFloat.iter_pos]; [| |done].
  - rewrite !IH. rewrite <- Nat.iter_add, <- Nat.iter_succ_r. f_equal. lia.
  - rewrite !IH. rewrite <- Nat.iter_add. f_equal. lia.
Qed.

Lemma shr_iter r n :
  0 <= shr_m r -> shr_m (Nat.iter n shr_1 r) = shr_m r / 2 ^ Z.of_nat n.
Proof.
  intros Hr. induction n as [|n IH]; [by rewrite Z.div_1_r|].
  change (Nat.iter (S n) shr_1 r) with (shr_1 (Nat.iter n shr_1 r)).
  rewrite shr_1_half; rewrite IH.
  - rewrite Nat2Z.inj_succ, Z.pow_succ_r, Z.mul_comm, Z.div_div; lia.
  - apply Z.div_pos; lia.
Qed.

Lemma shr_m_of_loc m l : 0 <= m -> shr_m (shr_record_of_loc m l) = m.
Proof. by destruct l as [|[]]. Qed.

(** The double-precision shift keeps the magnitude. *)
Lemma shr_fexp_mag K m e l r e' :
  mag K m e -> -1074 <= K -> shr_fexp 53 1024 m e l = (r, e') -> mag K (shr_m r) e'.
Proof.
  intros [Hm He] HK. unfold shr_fexp, shr, fexp, emin.
  pose proof (Zdigits2_bound m (K - e) ltac:(lia) Hm) as Hd.
  destruct (Z.max (Zdigits2 m + e - 53) (3 - 1024 - 53) - e) as [|p|p] eqn:E;
    intros [= <- <-]; (split; [|lia]); [by rewrite shr_m_of_loc by lia | |by rewrite shr_m_of_loc by lia].
  rewrite iter_pos_nat, shr_iter; rewrite shr_m_of_loc by lia; [|lia].
  rewrite positive_nat_Z. split; [apply Z.div_pos; lia|].
  replace (K - (e + Zpos p)) with ((K - e) - Zpos p) by lia.
  apply Z.div_le_upper_bound; [lia|]. rewrite <- Z.pow_add_r by lia.
  replace (Zpos p + (K - e - Zpos p)) with (K - e) by lia. lia.
Qed.

Lemma round_nearest_even_le m l : m <= round_nearest_even m l <= m + 1.
Proof. unfold round_nearest_even. destruct l as [|[]]; try destruct (Z.even m); lia. Qed.

Lemma binary_round_aux_fmag K sx m e l :
  mag K m e -> -1074 <= K -> K + 1 <= 971 ->
  fmag (K + 1) (binary_round_aux 53 1024 sx m e l).
Proof.
  intros HB HK Hmax. unfold binary_round_aux.
  destruct (shr_fexp 53 1024 m e l) as [r e1] eqn:E1.
  apply shr_fexp_mag with (K := K) in E1 as [[H1 H2] H3]; [|done|done].
  pose proof (round_nearest_even_le (shr_m r) (loc_of_shr_record r)) as Hr.
  set (m1 := round_nearest_even _ _) in *.
  destruct (shr_fexp 53 1024 m1 e1 loc_Exact) as [r2 e2] eqn:E2.
  apply shr_fexp_mag with (K := K + 1) in E2 as [[H4 H5] H6]; [|split; [|lia]|lia].
  - destruct (shr_m r2) as [|q|q] eqn:Eq; [done| |lia].
    destruct (Z.leb_spec e2 (1024 - 53)); [|lia]. by split.
  - split; [lia|]. replace (K + 1 - e1) with (Z.succ (K - e1)) by lia.
    rewrite Z.pow_succ_r by lia. pose proof (Z.pow_pos_nonneg 2 (K - e1)). lia.
Qed.

Lemma iter_xO_mul m p : Zpos (Pos.iter xO m p) = Zpos m * 2 ^ Zpos p.
Proof.
  rewrite Pos2Nat.inj_iter, <- (positive_nat_Z p). generalize (Pos.to_nat p). intros n.
  induction n as [|n IH]; [simpl; lia|].
  cbn [nat_rect].
  rewrite Pos2Z.inj_xO, IH, Nat2Z.inj_succ, Z.pow_succ_r; lia.
Qed.

Lemma shl_align_mag K m e e' m2 e2 :
  mag K (Zpos m) e -> shl_align m e e' = (m2, e2) -> mag K (Zpos m2) e2.
Proof.
  intros [Hm He]. unfold shl_align. destruct (e' - e) as [|p|p] eqn:E; intros [= <- <-];
    [done|done|]. split; [|lia].
  rewrite iter_xO_mul. split; [lia|].
  replace (K - e') with ((K - e) + Zpos p) by lia. rewrite Z.pow_add_r by lia. nia.
Qed.

Lemma binary_normalize_fmag K m e :
  mag K (Z.abs m) e -> -1074 <= K -> K + 1 <= 971 ->
  fmag (K + 1) (binary_normalize 53 1024 m e false).
Proof.
  intros HB H1 H2. unfold binary_normalize, binary_round.
  destruct m as [|p|p]; [done| |]; simpl Z.abs in HB.
  all: destruct (shl_align p e (fexp 53 1024 (Zpos (digits2_pos p) + e))) as [m2 e2] eqn:E.
  all: apply shl_align_mag with (K := K) in E; [|done]; by apply binary_round_aux_fmag.
Qed.

Lemma f64_of_int_fmag K z :
  0 <= K -> K + 1 <= 971 -> Z.abs z <= 2 ^ K -> fmag (K + 1) (f64_of_int z).
Proof.
  intros H1 H2 Hz. apply binary_normalize_fmag; [|lia|lia].
  split; [|lia]. rewrite Z.sub_0_r. lia.
Qed.

Lemma f64_add_fmag K x y :
  fmag K x -> fmag K y -> -1074 <= K -> K + 2 <= 971 -> fmag (K + 2) (f64_add x y).
Proof.
  intros Hx Hy H1 H2. unfold f64_add, SFadd.
  destruct x as [sx| | |sx mx ex], y as [sy| | |sy my ey]; simpl in Hx, Hy; try done.
  - by destruct sx, sy.
  - apply (mag_mono K); [lia|done].
  - apply (mag_mono K); [lia|done].
  - replace (K + 2) with ((K + 1) + 1) by lia. apply binary_normalize_fmag; [|lia|lia].
    destruct (shl_align mx ex (Z.min ex ey)) as [mx' ex'] eqn:E1.
    destruct (shl_align my ey (Z.min ex ey)) as [my' ey'] eqn:E2.
    assert (ex' = Z.min ex ey) as -> by (unfold shl_align in E1; case_match; simplify_eq; lia).
    assert (ey' = Z.min ex ey) as -> by (unfold shl_align in E2; case_match; simplify_eq; lia).
    apply (shl_align_mag K) in E1 as [Ha Hae]; [|done].
    apply (shl_align_mag K) in E2 as [Hb Hbe]; [|done].
    cbn [fst]. split; [|lia].
    replace (K + 1 - Z.min ex ey) with (Z.succ (K - Z.min ex ey)) by lia.
    rewrite Z.pow_succ_r by lia. unfold cond_Zopp. destruct sx, sy; lia.
Qed.

(** Division by a finite divisor. *)
Lemma f64_div_fmag K x sy my ey :
  fmag K x -> -1074 <= K - ey -> K - ey + 1 <= 971 -> K <= K - ey + 1 ->
  fmag (K - ey + 1) (f64_div x (S754_finite sy my ey)).
Proof.
  intros Hx H1 H2 H3. unfold f64_div, SFdiv.
  destruct x as [sx| | |sx mx ex]; simpl in Hx; try done.
  destruct (SFdiv_core_binary 53 1024 (Zpos mx) ex (Zpos my) ey) as [[mz ez] lz] eqn:E.
  apply binary_round_aux_fmag; [|done|done].
  unfold SFdiv_core_binary in E. destruct Hx as [Hm He].
  set (e' := Z.min _ (ex - ey)) in E. assert (e' <= ex - ey) as He' by lia.
  set (m' := match ex - ey - e' with 0 => _ | Zpos _ => _ | Zneg _ => _ end) in E.
  assert (Hm' : 0 <= m' <= 2 ^ (K - ey - e')).
  { unfold m'. destruct (ex - ey - e') as [|p|p] eqn:Ep; [| |lia].
    - replace (K - ey - e') with (K - ex) by lia. done.
    - rewrite Z.shiftl_mul_pow2 by lia.
      replace (K - ey - e') with ((K - ex) + Zpos p) by lia.
      rewrite Z.pow_add_r by lia. nia. }
  clearbody m'. destruct (Z.div_eucl m' (Zpos my)) as [q r] eqn:Eq. injection E as <- <- _.
  assert (q = m' / Zpos my) as -> by (unfold Z.div; by rewrite Eq).
  split; [|lia]. split; [apply Z.div_pos; lia|].
  transitivity m'; [|lia]. apply Z.div_le_upper_bound; nia.
Qed.

(** ** The timestamp columns *)

(** [float64(value.Unix()) + float64(value.Nanosecond()/1_000)/1_000_000]. *)
Definition unixTimestamp (t : time) : float64 :=
  f64_add (f64_of_int (unix t))
    (f64_div (f64_of_int (go_div (nanosecond t) 1000)) (f64_of_int 1000000)).

Definition sameTimestamp (column : float64) (value : time) : bool :=
  negb (is_nan column) && negb (is_inf column) && f64_eq column (unixTimestamp value).

Lemma unixTimestamp_finite t : Z.abs (unix t) <= 2 ^ 62 -> is_finite (unixTimestamp t) = true.
Proof.
  intros Ht. unfold unixTimestamp. apply (fmag_finite 65).
  apply (f64_add_fmag 63); [|  | lia | lia].
  - apply (f64_of_int_fmag 62); [lia|lia|done].
  - apply (fmag_mono 55); [lia|].
    change (f64_of_int 1000000) with (S754_finite false 8589934592000000 (-33)).
    apply (f64_div_fmag 21); [|lia|lia|lia].
    apply (f64_of_int_fmag 20); [lia|lia|].
    pose proof (time_fields_bounds t) as (_ & _ & _ & Hn). unfold giga in Hn.
    unfold go_div. rewrite Z.quot_div_nonneg by lia.
    change (2 ^ 20) with 1048576. Z.to_euclidean_division_equations. lia.
Qed.

Lemma sameTimestamp_refl t :
  Z.abs (unix t) <= 2 ^ 62 -> sameTimestamp (unixTimestamp t) t = true.
Proof.
  intros Ht. apply unixTimestamp_finite in Ht. unfold sameTimestamp, is_finite in *.
  rewrite Ht. cbn. apply f64_eq_refl. by destruct (is_nan _).
Qed.

(** A year in Python's [datetime] range bounds the seconds. *)
Lemma year_unix_bound t :
  1 <= year (civil_of t) <= 9999 -> -62135596800 <= unix t <= 253402300799.
Proof.
  unfold civil_of. set (z := unix t / day_seconds). intros Hy.
  assert (Hz : -719162 <= z <= 2932896).
  { pose proof (days_of_civil_of_days z) as Hd. cbv zeta in Hd.
    pose proof (civil_of_days_fields z) as [Hm Hday].
    destruct (civil_of_days z) as [y m d] eqn:E. cbn [year month day] in *.
    rewrite <- Hd. unfold days_of_civil.
    assert (Hmp : (m + 9) mod 12 = if m <=? 2 then m + 9 else m - 3).
    { destruct (Z.leb_spec m 2); [apply Z.mod_small; lia|].
      symmetry. apply (Z.mod_unique _ _ 1); lia. }
    rewrite Hmp. destruct (Z.leb_spec m 2);
      split; Z.to_euclidean_division_equations; lia. }
  unfold z, day_seconds in Hz. Z.to_euclidean_division_equations. lia.
Qed.

Lemma unix_bound_year t :
  -62135596800 <= unix t <= 253402300799 -> 1 <= year (civil_of t) <= 9999.
Proof.
  intros Ht. unfold civil_of, civil_of_days.
  assert (Hz : -719162 <= unix t / day_seconds <= 2932896)
    by (unfold day_seconds; Z.to_euclidean_division_equations; lia).
  set (z := unix t / day_seconds) in *. clearbody z. clear Ht. cbn [year].
  pose proof (Z.mod_pos_bound (z + 719468) 146097 ltac:(lia)) as Hb.
  pose proof (Z.div_mod (z + 719468) 146097 ltac:(lia)) as Hdm.
  set (era := (z + 719468) / 146097) in *. set (doe := (z + 719468) mod 146097) in *.
  clearbody era doe.
  pose proof (day_of_year_bound doe Hb) as Hdoy. cbv zeta in Hdoy.
  pose proof (year_of_era_bound doe Hb) as Hyoe.
  set (yoe := (doe - doe / 1460 + doe / 36524 - doe / 146096) / 365) in *.
  assert (Hlow : yoe = 0 -> doe <= 365).
  { intros E. rewrite E in Hdoy. change (365 * 0 + 0 / 4 - 0 / 100) with 0 in Hdoy. lia. }
  clearbody yoe.
  set (doy := doe - (365 * yoe + yoe / 4 - yoe / 100)) in *.
  assert (Edoy : yoe = 0 -> doy = doe) by (intros E; unfold doy; rewrite E; change (365 * 0 + 0 / 4 - 0 / 100) with 0; lia).
  assert (Edoy' : yoe = 399 -> doy = doe - 145731) by (intros E; unfold doy; rewrite E; reflexivity).
  clearbody doy.
  destruct (Z.ltb_spec ((5 * doy + 2) / 153) 10) as [Hmp|Hmp];
    match goal with |- context [?m <=? 2] => destruct (Z.leb_spec m 2) end;
    Z.to_euclidean_division_equations; lia.
Qed.

#[global] Arguments civil_of : simpl never.
#[global] Arguments unix_micro : simpl never.
#[global] Arguments microseconds : simpl never.
#[global] Arguments unixTimestamp : simpl never.
#[global] Arguments sameTimestamp : simpl never.
#[global] Arguments nanosecond : simpl never.
