(* ===== verification/Json.v ===== *)
(** * JSON text ([encoding/json])

    Go's encoder on the values the program encodes: its string escapes, decimal
    integers, and structs with their fields in order. *)

From S2P Require Import Prelude.
From S2P Require Import GoStrings.
From stdpp Require Export pretty.
#[global] Open Scope Z_scope.

Abbreviation backslash := "\"%char.
Abbreviation dquote := (ascii_of_nat 34).

(** Escapes of two characters: the letter after the backslash. *)
Definition short_escape (v : Z) : option ascii :=
  if v =? 34 then Some dquote else if v =? 92 then Some backslash
  else if v =? 8 then Some "b"%char else if v =? 12 then Some "f"%char
  else if v =? 10 then Some "n"%char else if v =? 13 then Some "r"%char
  else if v =? 9 then Some "t"%char else None.

(** The characters that [SetEscapeHTML(true)] escapes. *)
Definition html_unsafe (v : Z) : bool := (v =? 60) || (v =? 62) || (v =? 38).

Definition line_separator (v : Z) : bool := (v =? 8232) || (v =? 8233).

(** One rune of a JSON string. [escape_ls] is true for Go, which always escapes
    U+2028 and U+2029. *)
Definition json_rune (escape_html escape_ls : bool) (r : rune) : bytes :=
  if rune_bad r then bytes_of "\ufffd"
  else if rune_value r <? 128 then
    match short_escape (rune_value r) with
    | Some c => [backslash; c]
    | None =>
        if (rune_value r <? 32) || (escape_html && html_unsafe (rune_value r))
        then bytes_of ("\u00" +:+ hex2 (rune_value r))
        else rune_bytes r
    end
  else if escape_ls && line_separator (rune_value r)
  then bytes_of (if rune_value r =? 8232 then "\u2028" else "\u2029")
  else rune_bytes r.

Definition json_string (escape_html escape_ls : bool) (s : string) : bytes :=
  dquote :: concat (map (json_rune escape_html escape_ls) (runes (bytes_of s))) ++ [dquote].

(** Values; [JMarshal] is the output of a [MarshalJSON] method, which calls
    [json.Marshal] and so escapes HTML whatever the outer encoder does. *)
Inductive json :=
| JNull | JBool (b : bool) | JInt (z : Z) | JStr (s : string)
| JArr (xs : list json)
| JObj (fields : list (string * json))
| JMarshal (j : json).

Definition comma : ascii := ",".
Definition colon : ascii := ":".

(** Elements between separators. *)
Fixpoint sep_by (sep : ascii) (xs : list bytes) : bytes :=
  match xs with
  | [] => []
  | [x] => x
  | x :: more => x ++ sep :: sep_by sep more
  end.

Fixpoint json_bytes (escape_html escape_ls : bool) (j : json) : bytes :=
  match j with
  | JNull => bytes_of "null"
  | JBool true => bytes_of "true"
  | JBool false => bytes_of "false"
  | JInt z => bytes_of (pretty z)
  | JStr s => json_string escape_html escape_ls s
  | JArr xs => "["%char :: sep_by comma (map (json_bytes escape_html escape_ls) xs) ++ ["]"%char]
  | JObj fs =>
      "{"%char :: sep_by comma (map (fun f => json_string escape_html escape_ls (fst f) ++
                                       colon :: json_bytes escape_html escape_ls (snd f)) fs)
      ++ ["}"%char]
  | JMarshal j => json_bytes true escape_ls j
  end.

Example json_string_1 :
  string_of (json_string false true ("a<" +:+ string_of [Zbyte 226; Zbyte 128; Zbyte 168; Zbyte 10; Zbyte 255]))
  = string_of (dquote :: bytes_of "a<\u2028\n\ufffd" ++ [dquote]).
Proof. reflexivity. Qed.

(** ** Lexical structure of the encoder's output *)

(** A token: a plain byte, a two-character escape, or a [\uXXXX] escape. *)
Inductive token :=
| TRaw (c : ascii)
| TEsc (c : ascii)
| TUni (a b c d : ascii).

Definition plain (c : ascii) : Prop := c <> backslash.

Definition token_ok (t : token) : Prop :=
  match t with
  | TRaw c => plain c
  | TEsc c => c <> "u"%char
  | TUni a b c d => plain a /\ plain b /\ plain c /\ plain d
  end.

Definition token_bytes (t : token) : bytes :=
  match t with
  | TRaw c => [c]
  | TEsc c => [backslash; c]
  | TUni a b c d => [backslash; "u"%char; a; b; c; d]
  end.

(** The UTF-8 encodings of U+2028 and U+2029. *)
Definition ls_bytes : bytes := [Zbyte 226; Zbyte 128; Zbyte 168].
Definition ps_bytes : bytes := [Zbyte 226; Zbyte 128; Zbyte 169].

Definition replacement (hex : bytes) : option bytes :=
  if bool_decide (hex = bytes_of "2028") then Some ls_bytes
  else if bool_decide (hex = bytes_of "2029") then Some ps_bytes
  else None.

Definition token_restored (t : token) : bytes :=
  match t with
  | TUni a b c d => match replacement [a; b; c; d] with Some r => r | None => token_bytes t end
  | _ => token_bytes t
  end.

(** [lexed a b]: [a] is a sequence of tokens, and [b] the same sequence with the
    escaped line separators restored. *)
Definition lexed (a b : bytes) : Prop :=
  exists ts, Forall token_ok ts /\ a = concat (map token_bytes ts) /\ b = concat (map token_restored ts).

Lemma lexed_app a b a' b' : lexed a a' -> lexed b b' -> lexed (a ++ b) (a' ++ b').
Proof.
  intros (t1 & H1 & -> & ->) (t2 & H2 & -> & ->). exists (t1 ++ t2).
  rewrite !map_app, !concat_app. split; [by apply Forall_app|done].
Qed.

Lemma lexed_nil : lexed [] [].
Proof. by exists []. Qed.

Lemma lexed_token t : token_ok t -> lexed (token_bytes t) (token_restored t).
Proof. intros H. exists [t]. cbn. rewrite !app_nil_r. auto. Qed.

Lemma lexed_plain s : Forall plain s -> lexed s s.
Proof.
  intros H. exists (map TRaw s). split; [by apply Forall_map|].
  rewrite !map_map. cbn. by induction H as [|c s _ _ [IH _]]; [|cbn; rewrite <- IH].
Qed.

Lemma lexed_cons c a b : plain c -> lexed a b -> lexed (c :: a) (c :: b).
Proof. intros Hc H. apply (lexed_app [c] a [c] b); [|done]. by apply lexed_plain; constructor. Qed.

Definition plainb (c : ascii) : bool := negb (Ascii.eqb c backslash).

Lemma plain_forallb s : forallb plainb s = true -> Forall plain s.
Proof.
  intros H. apply Forall_forall. intros c Hc. apply list_elem_of_In in Hc.
  rewrite forallb_forall in H. specialize (H c Hc). unfold plainb in H.
  apply negb_true_iff in H. by apply Ascii.eqb_neq.
Qed.

Lemma byte_plain c : 128 <= byteZ c -> plain c.
Proof. intros H ->. revert H. vm_compute. intros H. by apply H. Qed.

Lemma hex_digit_plain n : plain (hex_digit n).
Proof.
  unfold hex_digit, plain. destruct (String.get _ _) as [c|] eqn:E; [|done].
  intros ->. revert E. generalize (Z.to_nat n). intros k.
  do 16 (destruct k as [|k]; [discriminate|]). by destruct k.
Qed.

(** A good rune is one ASCII byte, or several bytes that are all above 127. *)
Definition rune_shape (r : rune) : Prop :=
  (exists c, rune_bytes r = [c] /\ rune_value r = byteZ c /\ byteZ c < 128) \/
  (128 <= rune_value r /\ Forall (fun c => 128 <= byteZ c) (rune_bytes r) /\
   (rune_value r = 8232 -> rune_bytes r = ls_bytes) /\ (rune_value r = 8233 -> rune_bytes r = ps_bytes)).

Lemma byte_is c z : byteZ c = z -> c = Zbyte z.
Proof. intros <-. symmetry. apply Zbyte_byteZ. Qed.

Lemma is_cont_bound b : is_cont b = true -> 128 <= byteZ b <= 191.
Proof. unfold is_cont, in_range. lia. Qed.

Lemma second_ok_bound a b :
  second_ok (byteZ a) b = true ->
  128 <= byteZ b <= 191 /\ (byteZ a = 224 -> 160 <= byteZ b) /\ (byteZ a = 240 -> 144 <= byteZ b).
Proof.
  unfold second_ok, in_range. intros H.
  destruct (Z.eqb_spec (byteZ a) 224); [lia|]. destruct (Z.eqb_spec (byteZ a) 237); [lia|].
  destruct (Z.eqb_spec (byteZ a) 240); [lia|]. destruct (Z.eqb_spec (byteZ a) 244); [lia|].
  apply is_cont_bound in H. lia.
Qed.

Lemma lead_size_bound a :
  match lead_size a with
  | 1%nat => byteZ a < 128
  | 2%nat => 194 <= byteZ a <= 223
  | 3%nat => 224 <= byteZ a <= 239
  | 4%nat => 240 <= byteZ a <= 244
  | _ => True
  end.
Proof.
  unfold lead_size. destruct (Z.ltb_spec (byteZ a) 128); [done|].
  destruct ((194 <=? byteZ a) && _) eqn:E2; [lia|].
  destruct ((224 <=? byteZ a) && _) eqn:E3; [lia|].
  destruct ((240 <=? byteZ a) && _) eqn:E4; [lia|done].
Qed.

Lemma decode_rune_shape a r : rune_bad (decode_rune a r) = false -> rune_shape (decode_rune a r).
Proof.
  pose proof (lead_size_bound a) as Hl. unfold decode_rune, rune_shape.
  destruct (lead_size a) as [|[|[|[|[|k]]]]]; try done; intros H.
  - left. exists a. done.
  - destruct r as [|b r]; [done|]. destruct (is_cont b) eqn:Hb; [|done].
    apply is_cont_bound in Hb. right. cbn. split; [lia|].
    split; [repeat constructor; lia|]. split; intros; lia.
  - destruct r as [|b [|c r]]; try done. destruct (_ && _) eqn:Hb; [|done]. boolify.
    apply second_ok_bound in H0 as (B1 & B2 & _). apply is_cont_bound in H1.
    right. cbn. split; [lia|]. split; [repeat constructor; lia|]. unfold ls_bytes, ps_bytes.
    split; intros Hv; rewrite (byte_is a 226), (byte_is b 128) by lia;
      [rewrite (byte_is c 168) by lia|rewrite (byte_is c 169) by lia]; done.
  - destruct r as [|b [|c [|d r]]]; try done. destruct (_ && _) eqn:Hb; [|done]. boolify.
    apply second_ok_bound in H0 as (B1 & _ & B2). apply is_cont_bound in H1, H2.
    right. cbn. split; [lia|]. split; [repeat constructor; lia|]. split; intros; lia.
Qed.

Lemma runes_shape s : Forall (fun r => rune_bad r = false -> rune_shape r) (runes s).
Proof.
  induction s as [|a r1 t rest Ht Hr Hc IH] using runes_ind; [constructor|].
  rewrite Hc. constructor; [apply decode_rune_shape|done].
Qed.

Lemma lexed_bytes_of l : forallb plainb (bytes_of l) = true -> lexed (bytes_of l) (bytes_of l).
Proof. intros H. by apply lexed_plain, plain_forallb. Qed.

Lemma json_rune_lexed html r :
  (rune_bad r = false -> rune_shape r) ->
  lexed (json_rune html true r) (json_rune html false r).
Proof.
  intros Hr. unfold json_rune. destruct (rune_bad r).
  { apply (lexed_token (TUni "f" "f" "f" "d")). by repeat split. }
  specialize (Hr eq_refl). destruct (Z.ltb_spec (rune_value r) 128) as [Hlt|Hge].
  - destruct (short_escape (rune_value r)) as [c|] eqn:Ec.
    + apply (lexed_token (TEsc c)). cbn. unfold short_escape in Ec. intros ->.
      by repeat case_match.
    + destruct (_ || _).
      * apply (lexed_token (TUni "0" "0" (hex_digit (rune_value r / 16)) (hex_digit (rune_value r mod 16)))).
        split; [done|]. split; [done|]. split; apply hex_digit_plain.
      * destruct Hr as [(c & -> & Ev & _)|[H _]]; [|lia].
        apply lexed_plain. constructor; [|done]. intros ->. rewrite Ev in Ec. by vm_compute in Ec.
  - destruct Hr as [(c & _ & Ev & Hc)|(_ & Hall & Hls & Hps)]; [lia|]. cbn [andb].
    unfold line_separator. destruct (Z.eqb_spec (rune_value r) 8232) as [E|E]; cbn [orb].
    + rewrite (Hls E).
      apply (lexed_token (TUni "2" "0" "2" "8")). by repeat split.
    + destruct (Z.eqb_spec (rune_value r) 8233) as [E'|E'].
      * rewrite (Hps E').
        apply (lexed_token (TUni "2" "0" "2" "9")). by repeat split.
      * apply lexed_plain. eapply Forall_impl; [exact Hall|]. apply byte_plain.
Qed.

Lemma json_string_lexed html s : lexed (json_string html true s) (json_string html false s).
Proof.
  unfold json_string. apply lexed_cons; [done|]. apply lexed_app; [|by apply lexed_plain; constructor].
  pose proof (runes_shape (bytes_of s)) as H. induction H as [|r rs Hr _ IH]; cbn; [apply lexed_nil|].
  apply lexed_app; [by apply json_rune_lexed|done].
Qed.

Lemma plainb_app a b : forallb plainb (a ++ b) = forallb plainb a && forallb plainb b.
Proof. apply forallb_app. Qed.

Lemma pretty_Z_plain (z : Z) : Forall plain (bytes_of (pretty z)).
Proof.
  assert (HN : forall n s, Forall plain (bytes_of s) -> Forall plain (bytes_of (pretty_N_go n s))).
  { intros n. induction n as [n IH] using (well_founded_induction N.lt_wf_0). intros s Hs.
    destruct (decide (n = 0)%N) as [->|Hn]; [done|].
    rewrite pretty_N_go_step by lia. apply IH; [apply N.div_lt; lia|]. constructor; [|done].
    unfold pretty_N_char, plain. by repeat case_match. }
  assert (HP : forall n : N, Forall plain (bytes_of (pretty n))).
  { intros n. unfold pretty, pretty_N. case_decide; [by repeat constructor|]. apply HN. constructor. }
  destruct z as [|p|p]; unfold pretty, pretty_Z.
  - by repeat constructor.
  - apply HP.
  - cbn. constructor; [done|]. apply HP.
Qed.

Lemma sep_by_lexed sep xs ys :
  plain sep -> Forall2 lexed xs ys -> lexed (sep_by sep xs) (sep_by sep ys).
Proof.
  intros Hs. induction 1 as [|x y xs ys Hxy H IH]; [apply lexed_nil|].
  destruct H as [|x' y' xs ys Hxy' H]; [done|].
  change (sep_by sep (x :: x' :: xs)) with (x ++ sep :: sep_by sep (x' :: xs)).
  change (sep_by sep (y :: y' :: ys)) with (y ++ sep :: sep_by sep (y' :: ys)).
  apply lexed_app; [done|]. by apply lexed_cons.
Qed.

Lemma lexed_wrap a b x y : plain a -> plain b -> lexed x y -> lexed (a :: x ++ [b]) (a :: y ++ [b]).
Proof.
  intros Ha Hb H. apply lexed_cons; [done|]. apply lexed_app; [done|]. by apply lexed_plain; constructor.
Qed.

(** What Go writes for a value, and the same with the line separators written as
    they are, have the same tokens. *)
Lemma json_bytes_lexed : forall j html, lexed (json_bytes html true j) (json_bytes html false j).
Proof.
  fix IH 1. intros [| b | z | s | xs | fs | j] html; cbn [json_bytes].
  - by apply lexed_bytes_of.
  - destruct b; by apply lexed_bytes_of.
  - apply lexed_plain, pretty_Z_plain.
  - apply json_string_lexed.
  - apply lexed_wrap; [done|done|]. apply sep_by_lexed; [done|].
    revert xs. fix IHl 1. intros [|x xs]; cbn [map]; constructor; [apply IH|apply IHl].
  - apply lexed_wrap; [done|done|]. apply sep_by_lexed; [done|].
    revert fs. fix IHl 1. intros [|[k x] fs]; cbn [map fst snd]; constructor; [|apply IHl].
    apply lexed_app; [apply json_string_lexed|]. apply lexed_cons; [done|]. apply IH.
  - apply IH.
Qed.

(** ** Restoring line separators, on tokens *)

(** The number of leading backslashes. *)
Fixpoint leading (s : bytes) : nat :=
  match s with
  | c :: r => if Ascii.eqb c backslash then S (leading r) else 0%nat
  | [] => 0%nat
  end.

(** The loop of [unescapeLineSeparators]; every iteration consumes input. *)
Fixpoint unescape_loop (fuel : nat) (encoded : bytes) : bytes :=
  match fuel, encoded with
  | S n, c :: r =>
      if plainb c then c :: unescape_loop n r
      else
        let slashes := leading encoded in
        let tail := drop slashes encoded in
        if Nat.odd slashes && (5 <=? length tail)%nat
           && bool_decide (head tail = Some "u"%char)
        then match replacement (take 4 (drop 1 tail)) with
             | Some rep => take (slashes - 1) encoded ++ rep ++ unescape_loop n (drop 5 tail)
             | None => take slashes encoded ++ unescape_loop n tail
             end
        else take slashes encoded ++ unescape_loop n tail
  | _, _ => []
  end.

Definition unescapeLineSeparators (encoded : bytes) : bytes := unescape_loop (length encoded) encoded.

Lemma leading_plain c r : plain c -> leading (c :: r) = 0%nat.
Proof. intros H. cbn. by apply Ascii.eqb_neq in H as ->. Qed.

(** A run of [k] backslashes before a byte that is not one. *)
Definition ends_run (s : bytes) : Prop := match s with c :: _ => plain c | [] => True end.

Lemma leading_run k s : ends_run s -> leading (replicate k backslash ++ s) = k.
Proof.
  intros Hs. induction k as [|k IH]; cbn.
  - destruct s; [done|]. by apply leading_plain.
  - by rewrite IH.
Qed.

Lemma leading_pos c r : plainb c = false -> (1 <= leading (c :: r))%nat.
Proof. unfold plainb. cbn. destruct (Ascii.eqb c backslash); [lia|done]. Qed.

Lemma unescape_fuel n m s :
  (length s <= n)%nat -> (length s <= m)%nat -> unescape_loop n s = unescape_loop m s.
Proof.
  revert m s. induction n as [|n IH]; intros m s Hn Hm.
  - destruct s; [|cbn in Hn; lia]. by destruct m.
  - destruct m as [|m]; [destruct s; [done|cbn in Hm; lia]|].
    destruct s as [|c r]; [done|]. cbn [length] in Hn, Hm. cbn [unescape_loop].
    destruct (plainb c) eqn:Hp; [by rewrite (IH m) by lia|].
    pose proof (leading_pos c r Hp) as Hl. cbv zeta.
    assert (Hd : (length (drop (leading (c :: r)) (c :: r)) <= n)%nat /\
                 (length (drop (leading (c :: r)) (c :: r)) <= m)%nat)
      by (rewrite length_drop; cbn [length]; lia).
    assert (Hd5 : (length (drop 5 (drop (leading (c :: r)) (c :: r))) <= n)%nat /\
                  (length (drop 5 (drop (leading (c :: r)) (c :: r))) <= m)%nat)
      by (rewrite !length_drop; cbn [length]; lia).
    destruct (_ && _); [|by rewrite (IH m) by tauto].
    destruct (replacement _); [by rewrite (IH m) by tauto|by rewrite (IH m) by tauto].
Qed.

Lemma unescape_unfold s fuel : (length s <= fuel)%nat -> unescape_loop fuel s = unescapeLineSeparators s.
Proof. intros H. by apply unescape_fuel. Qed.

Lemma unescape_plain c r : plain c -> unescapeLineSeparators (c :: r) = c :: unescapeLineSeparators r.
Proof.
  intros H. unfold unescapeLineSeparators at 1. cbn [length unescape_loop]. unfold plainb.
  apply Ascii.eqb_neq in H as ->. done.
Qed.

Lemma unescape_plains p r : Forall plain p -> unescapeLineSeparators (p ++ r) = p ++ unescapeLineSeparators r.
Proof. induction 1 as [|c p Hc _ IH]; [done|]. cbn [app]. by rewrite unescape_plain, IH. Qed.

(** A run of backslashes, as the loop treats it. *)
Lemma unescape_run k s :
  (0 < k)%nat -> ends_run s ->
  unescapeLineSeparators (replicate k backslash ++ s) =
  (if Nat.odd k && (5 <=? length s)%nat && bool_decide (head s = Some "u"%char)
   then match replacement (take 4 (drop 1 s)) with
        | Some rep => replicate (k - 1) backslash ++ rep ++ unescapeLineSeparators (drop 5 s)
        | None => replicate k backslash ++ unescapeLineSeparators s
        end
   else replicate k backslash ++ unescapeLineSeparators s).
Proof.
  intros Hk Hs. destruct k as [|k]; [lia|].
  unfold unescapeLineSeparators at 1. cbn [replicate app length unescape_loop].
  change (plainb backslash) with false. cbv iota zeta.
  change (backslash :: replicate k backslash ++ s) with (replicate (S k) backslash ++ s).
  rewrite (leading_run (S k) s Hs).
  rewrite (drop_app_length' (replicate (S k) backslash) s (S k)) by by rewrite length_replicate.
  rewrite (take_app_length' (replicate (S k) backslash) s (S k)) by by rewrite length_replicate.
  assert (E : take (S k - 1) (replicate (S k) backslash ++ s) = replicate (S k - 1) backslash).
  { rewrite take_app_le by (rewrite length_replicate; lia).
    rewrite take_replicate. f_equal. lia. }
  rewrite E. rewrite !unescape_unfold; [done|..];
    rewrite ?length_drop, length_app, length_replicate; lia.
Qed.

Lemma replicate_even_step k (s : bytes) :
  replicate (2 * k) backslash ++ backslash :: backslash :: s = replicate (2 * S k) backslash ++ s.
Proof.
  replace (2 * S k)%nat with (2 * k + 2)%nat by lia. by rewrite replicate_add, <- app_assoc.
Qed.

(** [k] escaped backslashes, then tokens. *)
Lemma unescape_tokens ts : Forall token_ok ts -> forall k,
  unescapeLineSeparators (replicate (2 * k) backslash ++ concat (map token_bytes ts)) =
  replicate (2 * k) backslash ++ concat (map token_restored ts).
Proof.
  assert (Hodd : forall k, Nat.odd (2 * k + 1) = true /\ Nat.odd (2 * k) = false).
  { intros k. rewrite Nat.odd_add, Nat.odd_mul. done. }
  assert (Hrun : forall k s, ends_run s ->
            unescapeLineSeparators (replicate (2 * k) backslash ++ s) =
            replicate (2 * k) backslash ++ unescapeLineSeparators s).
  { intros k s Hs. destruct k as [|k]; [done|]. rewrite unescape_run by (lia || done).
    by rewrite (proj2 (Hodd (S k))). }
  assert (Hcons : forall k (s : bytes), replicate (2 * k) backslash ++ backslash :: s
                            = replicate (2 * k + 1) backslash ++ s).
  { intros k s. by rewrite replicate_add, <- app_assoc. }
  induction 1 as [|t ts Ht _ IH]; intros k.
  { cbn [map concat]. by rewrite (Hrun k []). }
  assert (IH0 : unescapeLineSeparators (concat (map token_bytes ts)) = concat (map token_restored ts))
    by exact (IH 0%nat).
  destruct t as [c|c|a b c d]; cbn [map concat token_bytes token_restored token_ok] in *.
  - cbn [app]. rewrite Hrun by done. by rewrite unescape_plain, IH0.
  - destruct (decide (c = backslash)) as [->|Hc].
    + cbn [app]. by rewrite !replicate_even_step, IH.
    + cbn [app]. rewrite !Hcons, unescape_run by (lia || done).
      rewrite bool_decide_eq_false_2 by (cbn; congruence). rewrite andb_false_r.
      by rewrite unescape_plain, IH0.
  - destruct Ht as (Ha & Hb & Hc & Hd). cbn [app]. rewrite !Hcons, unescape_run by (lia || done).
    rewrite (proj1 (Hodd k)). cbn [length Nat.leb andb head drop take].
    rewrite bool_decide_eq_true_2 by done.
    rewrite take_0, drop_0.
    destruct (replacement [a; b; c; d]) as [rep|].
    + replace (2 * k + 1 - 1)%nat with (2 * k)%nat by lia. by rewrite IH0.
    + assert (Hp : unescapeLineSeparators (["u"%char; a; b; c; d] ++ concat (map token_bytes ts))
                   = "u"%char :: a :: b :: c :: d :: concat (map token_restored ts))
        by (rewrite (unescape_plains ["u"%char; a; b; c; d]) by (by repeat constructor); by rewrite IH0).
      cbn [app] in Hp |- *. rewrite Hp. by rewrite Hcons.
Qed.

Lemma unescape_lexed a b : lexed a b -> unescapeLineSeparators a = b.
Proof. intros (ts & H & -> & ->). apply (unescape_tokens ts H 0). Qed.
