(* ===== verification/JsonText.v ===== *)
(** * Reading JSON ([encoding/json], [encoding/json/jsontext])

    The grammar that Go's [jsontext] accepts by default ([strict] is true): RFC
    8259 with valid UTF-8, escapes that decode to code points, and object names
    that are unique.  The decoder of [encoding/json] ([strict] is false) takes
    repeated names, and reads an unpaired surrogate or an invalid byte as U+FFFD.
    A number keeps its literal; a string is decoded. *)

From S2P Require Import Prelude.
From S2P Require Import GoStrings.
From S2P Require Import Json.

Inductive jvalue :=
| VNull | VFalse | VTrue
| VNumber (literal : bytes)
| VText (text : bytes)
| VArray (values : list jvalue)
| VMembers (members : list (bytes * jvalue)).

(** ** White space and literals *)

Definition is_ws (c : ascii) : bool :=
  let v := byteZ c in (v =? 32) || (v =? 9) || (v =? 10) || (v =? 13).
Definition skip_ws : bytes -> bytes := drop_while is_ws.

Definition is_digit (c : ascii) : bool := in_range 48 57 c.

Fixpoint strip_prefix (p s : bytes) : option bytes :=
  match p, s with
  | [], _ => Some s
  | a :: p', b :: s' => if Ascii.eqb a b then strip_prefix p' s' else None
  | _, [] => None
  end.

(** ** Numbers *)

(** The digits at the front, and what follows. *)
Fixpoint span_digits (s : bytes) : bytes * bytes :=
  match s with
  | c :: r => if is_digit c then let (ds, rest) := span_digits r in (c :: ds, rest) else ([], s)
  | [] => ([], [])
  end.

(** What follows a given byte. *)
Definition expect (c : ascii) (s : bytes) : option bytes :=
  match s with x :: r => if Ascii.eqb x c then Some r else None | [] => None end.

(** The bytes before and after an optional byte of a list. *)
Fixpoint optional (cs : list ascii) (s : bytes) : bytes * bytes :=
  match cs with
  | [] => ([], s)
  | c :: more => match expect c s with Some r => ([c], r) | None => optional more s end
  end.

Definition scan_integer (s : bytes) : option (bytes * bytes) :=
  let (ds, rest) := span_digits s in
  match ds with
  | [] => None
  | c :: more => if Ascii.eqb c "0"%char && negb (bool_decide (more = [])) then None else Some (ds, rest)
  end.

Definition scan_fraction (s : bytes) : option (bytes * bytes) :=
  match expect "."%char s with
  | None => Some ([], s)
  | Some r =>
      let (ds, rest) := span_digits r in
      match ds with [] => None | _ => Some ("."%char :: ds, rest) end
  end.

Definition scan_exponent (s : bytes) : option (bytes * bytes) :=
  let (mark, r) := optional ["e"; "E"]%char s in
  match mark with
  | [] => Some ([], s)
  | _ =>
      let (sign, r') := optional ["+"; "-"]%char r in
      let (ds, rest) := span_digits r' in
      match ds with [] => None | _ => Some (mark ++ sign ++ ds, rest) end
  end.

(** A number literal and what follows it. *)
Definition scan_number (s : bytes) : option (bytes * bytes) :=
  let (sign, s1) := optional ["-"%char] s in
  match scan_integer s1 with
  | None => None
  | Some (int, s2) =>
      match scan_fraction s2 with
      | None => None
      | Some (frac, s3) =>
          match scan_exponent s3 with
          | None => None
          | Some (exp, rest) => Some (sign ++ int ++ frac ++ exp, rest)
          end
      end
  end.

(** The value of decimal digits. *)
Definition digit_value (c : ascii) : Z := byteZ c - 48.
Definition digits_value (ds : bytes) : Z := fold_left (fun acc c => acc * 10 + digit_value c) ds 0.

(** [big.Int.SetString(s, 10)]: an optional sign and digits. *)
Definition parse_big (s : bytes) : option Z :=
  let '(negative, ds) := match s with
                         | "-"%char :: r => (true, r)
                         | "+"%char :: r => (false, r)
                         | _ => (false, s)
                         end in
  match ds with
  | [] => None
  | _ => if forallb is_digit ds then Some (if negative then - digits_value ds else digits_value ds) else None
  end.

(** [strconv.ParseInt] on the literal of a JSON number. *)
Definition parse_int64 (s : bytes) : option Z :=
  match parse_big s with
  | Some z => if (min_int64 <=? z) && (z <=? max_int64) then Some z else None
  | None => None
  end.

(** ** Strings *)

Definition hex_value (c : ascii) : option Z :=
  let v := byteZ c in
  if (48 <=? v) && (v <=? 57) then Some (v - 48)
  else if (97 <=? v) && (v <=? 102) then Some (v - 87)
  else if (65 <=? v) && (v <=? 70) then Some (v - 55)
  else None.

Definition hex4 (a b c d : ascii) : option Z :=
  match hex_value a, hex_value b, hex_value c, hex_value d with
  | Some w, Some x, Some y, Some z => Some (w * 4096 + x * 256 + y * 16 + z)
  | _, _, _, _ => None
  end.

(** The UTF-8 encoding of a code point. *)
Definition utf8_encode (r : Z) : bytes :=
  if r <? 128 then [Zbyte r]
  else if r <? 2048 then [Zbyte (192 + r / 64); Zbyte (128 + r mod 64)]
  else if r <? 65536 then [Zbyte (224 + r / 4096); Zbyte (128 + r / 64 mod 64); Zbyte (128 + r mod 64)]
  else [Zbyte (240 + r / 262144); Zbyte (128 + r / 4096 mod 64); Zbyte (128 + r / 64 mod 64);
        Zbyte (128 + r mod 64)].

Definition simple_escape (c : ascii) : option ascii :=
  match c with
  | "/"%char => Some "/"%char
  | "b"%char => Some (Zbyte 8) | "f"%char => Some (Zbyte 12) | "n"%char => Some (Zbyte 10)
  | "r"%char => Some (Zbyte 13) | "t"%char => Some (Zbyte 9)
  | _ => if Ascii.eqb c backslash || Ascii.eqb c dquote then Some c else None
  end.

Definition is_high (r : Z) : bool := (55296 <=? r) && (r <=? 56319).
Definition is_low (r : Z) : bool := (56320 <=? r) && (r <=? 57343).

Definition replacement_rune : bytes := utf8_encode RuneError.

(** A text with every invalid byte replaced. *)
Definition clean_rune (r : rune) : bytes := if rune_bad r then replacement_rune else rune_bytes r.
Definition clean (s : bytes) : bytes := concat (map clean_rune (runes s)).

(** A [\uXXXX] escape of a low surrogate, and what follows it. *)
Definition low_escape (s : bytes) : option (Z * bytes) :=
  match s with
  | c1 :: c2 :: a :: b :: x :: y :: r =>
      match hex4 a b x y with
      | Some lo => if Ascii.eqb c1 backslash && Ascii.eqb c2 "u"%char && is_low lo then Some (lo, r) else None
      | None => None
      end
  | _ => None
  end.

(** The bytes after the opening quote, up to the closing one; [fuel] bounds the
    length. *)
Fixpoint scan_string (strict : bool) (fuel : nat) (s : bytes) (acc : bytes) : option (bytes * bytes) :=
  match fuel, s with
  | O, _ | _, [] => None
  | S n, c :: r =>
      if Ascii.eqb c dquote then Some (acc, r)
      else if Ascii.eqb c backslash then
        match r with
        | [] => None
        | e :: r0 =>
            if Ascii.eqb e "u"%char then
              match r0 with
              | a :: b :: x :: y :: r1 =>
                  match hex4 a b x y with
                  | None => None
                  | Some hi =>
                      let unpaired := if strict then None else scan_string strict n r1 (acc ++ replacement_rune) in
                      if is_low hi then unpaired
                      else if is_high hi then
                        match low_escape r1 with
                        | Some (lo, r2) =>
                            scan_string strict n r2 (acc ++ utf8_encode (65536 + (hi - 55296) * 1024 + (lo - 56320)))
                        | None => unpaired
                        end
                      else scan_string strict n r1 (acc ++ utf8_encode hi)
                  end
              | _ => None
              end
            else
              match simple_escape e with
              | Some b => scan_string strict n r0 (acc ++ [b])
              | None => None
              end
        end
      else if byteZ c <? 32 then None
      else scan_string strict n r (acc ++ [c])
  end.

(** A string with its opening quote; its decoded text is valid UTF-8. *)
Definition scan_text (strict : bool) (s : bytes) : option (bytes * bytes) :=
  match s with
  | c :: r =>
      if Ascii.eqb c dquote then
        match scan_string strict (S (length r)) r [] with
        | Some (text, rest) =>
            if utf8_valid text then Some (text, rest)
            else if strict then None else Some (clean text, rest)
        | None => None
        end
      else None
  | [] => None
  end.

(** ** Values *)

(** The deepest nesting that is read. *)
Definition max_depth : nat := 10000.

Definition has_name (name : bytes) (members : list (bytes * jvalue)) : bool :=
  existsb (fun m => bool_decide (fst m = name)) members.

Definition scan_literal (text : string) (v : jvalue) (s : bytes) : option (jvalue * bytes) :=
  match strip_prefix (bytes_of text) s with Some rest => Some (v, rest) | None => None end.

(** [fuel] bounds the number of calls, [depth] the nesting left. *)
Fixpoint parse_value (strict : bool) (fuel depth : nat) (s : bytes) : option (jvalue * bytes) :=
  match fuel, s with
  | O, _ | _, [] => None
  | S n, c :: r =>
      if Ascii.eqb c dquote then
        match scan_text strict s with Some (t, rest) => Some (VText t, rest) | None => None end
      else if Ascii.eqb c "{"%char then
        match depth with
        | O => None
        | S d =>
            match expect "}"%char (skip_ws r) with
            | Some rest => Some (VMembers [], rest)
            | None => match parse_members strict n d r [] with
                      | Some (ms, rest) => Some (VMembers ms, rest) | None => None end
            end
        end
      else if Ascii.eqb c "["%char then
        match depth with
        | O => None
        | S d =>
            match expect "]"%char (skip_ws r) with
            | Some rest => Some (VArray [], rest)
            | None => match parse_elements strict n d r [] with
                      | Some (vs, rest) => Some (VArray vs, rest) | None => None end
            end
        end
      else if Ascii.eqb c "n"%char then scan_literal "null" VNull s
      else if Ascii.eqb c "t"%char then scan_literal "true" VTrue s
      else if Ascii.eqb c "f"%char then scan_literal "false" VFalse s
      else match scan_number s with Some (l, rest) => Some (VNumber l, rest) | None => None end
  end
with parse_elements (strict : bool) (fuel depth : nat) (s : bytes) (acc : list jvalue) : option (list jvalue * bytes) :=
  match fuel with
  | O => None
  | S n =>
      match parse_value strict n depth (skip_ws s) with
      | None => None
      | Some (v, rest) =>
          match expect "]"%char (skip_ws rest) with
          | Some rest' => Some (acc ++ [v], rest')
          | None =>
              match expect ","%char (skip_ws rest) with
              | Some rest' => parse_elements strict n depth rest' (acc ++ [v])
              | None => None
              end
          end
      end
  end
with parse_members (strict : bool) (fuel depth : nat) (s : bytes) (acc : list (bytes * jvalue))
  : option (list (bytes * jvalue) * bytes) :=
  match fuel with
  | O => None
  | S n =>
      match scan_text strict (skip_ws s) with
      | None => None
      | Some (name, rest) =>
          match expect ":"%char (skip_ws rest) with
          | None => None
          | Some rest1 =>
              if strict && has_name name acc then None
              else
                match parse_value strict n depth (skip_ws rest1) with
                | None => None
                | Some (v, rest2) =>
                    match expect "}"%char (skip_ws rest2) with
                    | Some rest' => Some (acc ++ [(name, v)], rest')
                    | None =>
                        match expect ","%char (skip_ws rest2) with
                        | Some rest' => parse_members strict n depth rest' (acc ++ [(name, v)])
                        | None => None
                        end
                    end
                end
          end
      end
  end.

(** Enough calls for any text of this length. *)
Definition parse_fuel (s : bytes) : nat := (2 * length s + 2)%nat.

(** A complete value. *)
Definition read_json (strict : bool) (s : bytes) : option jvalue :=
  match parse_value strict (parse_fuel s) max_depth (skip_ws s) with
  | Some (v, rest) => match skip_ws rest with [] => Some v | _ => None end
  | None => None
  end.

(** [jsontext]'s reader: [Value.IsValid] is that it has a result. *)
Definition parse_json : bytes -> option jvalue := read_json true.

Definition IsValid (s : bytes) : bool := match parse_json s with Some _ => true | None => false end.

Definition json_text (s : string) : bytes := map (fun c => if Ascii.eqb c "'" then dquote else c) (bytes_of s).

Example parse_json_1 :
  parse_json (json_text "{'a' : [1.50e+3, -0, 'x\ud83d\ude00'], 'b':null} ")
  = Some (VMembers [(bytes_of "a", VArray [VNumber (bytes_of "1.50e+3"); VNumber (bytes_of "-0");
                                         VText (bytes_of "x" ++ map Zbyte [240; 159; 152; 128])]);
                    (bytes_of "b", VNull)]).
Proof. vm_compute. reflexivity. Qed.

Example parse_json_2 :
  map IsValid (map json_text ["{'a':1,'a':2}"; "01"; "'\ud800'"; "[1,]"; ""; "1 2"; "1."; "tru"]%string)
  = repeat false 8.
Proof. vm_compute. reflexivity. Qed.

(** [encoding/json] reads what [jsontext] refuses. *)
Example read_json_1 :
  map (read_json false) (map json_text ["{'a':1,'a':2}"; "'\ud800x'"; "'\udc00\u0041'"]%string)
  = [Some (VMembers [(bytes_of "a", VNumber (bytes_of "1")); (bytes_of "a", VNumber (bytes_of "2"))]);
     Some (VText (replacement_rune ++ bytes_of "x")); Some (VText (replacement_rune ++ bytes_of "A"))].
Proof. vm_compute. reflexivity. Qed.

(** ** Termination of the JSON reader

    Every step leaves less input than it was given, so the number of calls is
    bounded by the length of the text: more fuel never changes an answer. *)
Lemma skip_ws_length s : (length (skip_ws s) <= length s)%nat.
Proof. induction s as [|c s IH]; [done|]. cbn. destruct (is_ws c); cbn; lia. Qed.

Lemma expect_length c s r : expect c s = Some r -> (length r < length s)%nat.
Proof. destruct s as [|x s]; [done|]. cbn. destruct (Ascii.eqb x c); [|done]. intros [= <-]. lia. Qed.

Lemma optional_length cs s a r : optional cs s = (a, r) -> (length r <= length s)%nat.
Proof.
  induction cs as [|c cs IH]; cbn; [by intros [= _ <-]|].
  destruct (expect c s) eqn:E; [|done]. intros [= _ <-]. apply expect_length in E. lia.
Qed.

Lemma span_digits_length s ds r : span_digits s = (ds, r) -> (length r + length ds = length s)%nat.
Proof.
  revert ds r. induction s as [|c s IH]; intros ds r; cbn; [by intros [= <- <-]|].
  destruct (is_digit c); [|by intros [= <- <-]]. destruct (span_digits s) as [ds' r'].
  intros [= <- <-]. specialize (IH _ _ eq_refl). cbn. lia.
Qed.

Lemma scan_number_length s l r : scan_number s = Some (l, r) -> (length r < length s)%nat.
Proof.
  unfold scan_number. destruct (optional _ s) as [sign s1] eqn:Es. apply optional_length in Es.
  unfold scan_integer. destruct (span_digits s1) as [ds s2] eqn:Ei. apply span_digits_length in Ei.
  destruct ds as [|c ds]; [done|]. destruct (_ && _); [done|]. cbn [length] in Ei.
  unfold scan_fraction.
  assert (Hf : forall out s3, match expect "."%char s2 with
    | None => Some ([], s2)
    | Some r => let (ds, rest) := span_digits r in match ds with [] => None | _ => Some ("."%char :: ds, rest) end
    end = Some (out, s3) -> (length s3 <= length s2)%nat).
  { intros out s3. destruct (expect "."%char s2) eqn:E; [|by intros [= _ <-]]. apply expect_length in E.
    destruct (span_digits l0) as [d q] eqn:E'. apply span_digits_length in E'. destruct d; [done|]. intros [= _ <-]. lia. }
  destruct (match expect "."%char s2 with None => _ | Some _ => _ end) as [[out s3]|]; [|done].
  specialize (Hf _ _ eq_refl). unfold scan_exponent.
  destruct (optional _ s3) as [mark s4] eqn:Em. apply optional_length in Em. destruct mark as [|m mark].
  - intros [= _ <-]. lia.
  - destruct (optional _ s4) as [sg s5] eqn:Eg. apply optional_length in Eg.
    destruct (span_digits s5) as [d q] eqn:E'. apply span_digits_length in E'. destruct d; [done|]. intros [= _ <-]. lia.
Qed.

Lemma low_escape_length s lo r : low_escape s = Some (lo, r) -> (length r < length s)%nat.
Proof.
  unfold low_escape. destruct s as [|c1 [|c2 [|a [|b [|x [|y s]]]]]]; try done.
  destruct (hex4 a b x y); [|done]. destruct (_ && _); [|done]. intros [= _ <-]. cbn. lia.
Qed.

Lemma scan_string_length strict fuel s acc t r :
  scan_string strict fuel s acc = Some (t, r) -> (length r < length s)%nat.
Proof.
  revert s acc. induction fuel as [|n IH]; intros s acc; [done|]. cbn [scan_string].
  destruct s as [|c s]; [done|]. destruct (Ascii.eqb c dquote); [intros [= _ <-]; cbn; lia|].
  destruct (Ascii.eqb c backslash); [|destruct (byteZ c <? 32); [done|]; intros H%IH; cbn; lia].
  destruct s as [|e r1]; [done|]. destruct (Ascii.eqb e "u"%char).
  - destruct r1 as [|a [|b [|x [|y r2]]]]; try done. destruct (hex4 a b x y) as [hi|]; [|done].
    assert (Hun : (if strict then None else scan_string strict n r2 (acc ++ replacement_rune)) = Some (t, r) ->
              (length r < length r2)%nat) by (destruct strict; [done|apply IH]).
    destruct (is_low hi); [intros H%Hun; cbn; lia|].
    destruct (is_high hi); [|intros H%IH; cbn in *; lia].
    destruct (low_escape r2) as [[lo r3]|] eqn:El; [|intros H%Hun; cbn; lia].
    apply low_escape_length in El. intros H%IH. cbn in *. lia.
  - destruct (simple_escape e); [|done]. intros H%IH. cbn. lia.
Qed.

Lemma scan_text_length strict s t r : scan_text strict s = Some (t, r) -> (length r < length s)%nat.
Proof.
  unfold scan_text. destruct s as [|c s]; [done|]. destruct (Ascii.eqb c dquote); [|done].
  destruct (scan_string _ _ _ _) as [[text rest]|] eqn:E; [|done]. apply scan_string_length in E. cbn.
  destruct (utf8_valid text); [|destruct strict]; intros [= _ <-]; lia.
Qed.

Lemma scan_literal_length text v s w r : text <> ""%string -> scan_literal text v s = Some (w, r) -> (length r < length s)%nat.
Proof.
  intros Hne. unfold scan_literal. destruct (strip_prefix _ s) eqn:E; [|done]. intros [= _ <-].
  assert (H : forall p s l, strip_prefix p s = Some l -> (length l + length p = length s)%nat).
  { induction p as [|a p IH]; intros [|b q] m; cbn; try (intros [= <-]; cbn; lia).
    destruct (Ascii.eqb a b); [|done]. intros H%IH. lia. }
  apply H in E. destruct text; [done|]. cbn in E. lia.
Qed.

Lemma parse_length strict fuel :
  (forall depth s v rest, parse_value strict fuel depth s = Some (v, rest) -> (length rest < length s)%nat) /\
  (forall depth s acc vs rest, parse_elements strict fuel depth s acc = Some (vs, rest) -> (length rest < length s)%nat) /\
  (forall depth s acc ms rest, parse_members strict fuel depth s acc = Some (ms, rest) -> (length rest < length s)%nat).
Proof.
  induction fuel as [|n (IHv & IHe & IHm)]; [done|]. split; [|split].
  - intros depth s v rest H. cbn [parse_value] in H. destruct s as [|c r]; [done|].
    destruct (Ascii.eqb c dquote).
    { destruct (scan_text strict (c :: r)) as [[t r']|] eqn:E; [|done]. injection H as _ <-. by eapply scan_text_length. }
    pose proof (skip_ws_length r) as Hws.
    destruct (Ascii.eqb c "{"%char).
    { destruct depth as [|d]; [done|]. destruct (expect "}"%char (skip_ws r)) as [r'|] eqn:E.
      - injection H as _ <-. apply expect_length in E. cbn. lia.
      - destruct (parse_members strict n d r []) as [[ms r']|] eqn:Em; [|done]. injection H as _ <-. apply IHm in Em. cbn. lia. }
    destruct (Ascii.eqb c "["%char).
    { destruct depth as [|d]; [done|]. destruct (expect "]"%char (skip_ws r)) as [r'|] eqn:E.
      - injection H as _ <-. apply expect_length in E. cbn. lia.
      - destruct (parse_elements strict n d r []) as [[ms r']|] eqn:Em; [|done]. injection H as _ <-. apply IHe in Em. cbn. lia. }
    destruct (Ascii.eqb c "n"%char); [by apply scan_literal_length in H|].
    destruct (Ascii.eqb c "t"%char); [by apply scan_literal_length in H|].
    destruct (Ascii.eqb c "f"%char); [by apply scan_literal_length in H|].
    destruct (scan_number (c :: r)) as [[l r']|] eqn:E; [|done]. injection H as _ <-. by eapply scan_number_length.
  - intros depth s acc vs rest H. cbn [parse_elements] in H. pose proof (skip_ws_length s).
    destruct (parse_value strict n depth (skip_ws s)) as [[v r]|] eqn:E; [|done]. apply IHv in E.
    pose proof (skip_ws_length r).
    destruct (expect "]"%char (skip_ws r)) eqn:E1; [injection H as _ <-; apply expect_length in E1; lia|].
    destruct (expect ","%char (skip_ws r)) eqn:E2; [|done]. apply expect_length in E2. apply IHe in H. lia.
  - intros depth s acc ms rest H. cbn [parse_members] in H. pose proof (skip_ws_length s).
    destruct (scan_text strict (skip_ws s)) as [[name r]|] eqn:E; [|done]. apply scan_text_length in E.
    pose proof (skip_ws_length r). destruct (expect ":"%char (skip_ws r)) as [r1|] eqn:E1; [|done].
    apply expect_length in E1. destruct (strict && has_name name acc); [done|]. pose proof (skip_ws_length r1).
    destruct (parse_value strict n depth (skip_ws r1)) as [[v r2]|] eqn:Ev; [|done]. apply IHv in Ev.
    pose proof (skip_ws_length r2).
    destruct (expect "}"%char (skip_ws r2)) eqn:E2; [injection H as _ <-; apply expect_length in E2; lia|].
    destruct (expect ","%char (skip_ws r2)) eqn:E3; [|done]. apply expect_length in E3. apply IHm in H. lia.
Qed.

(** More fuel than the length requires gives the same answer. *)
Lemma parse_fuel_enough strict n : forall m,
  (forall depth s, (2 * length s < n)%nat -> (n <= m)%nat -> parse_value strict n depth s = parse_value strict m depth s) /\
  (forall depth s acc, (2 * length s + 1 < n)%nat -> (n <= m)%nat -> parse_elements strict n depth s acc = parse_elements strict m depth s acc) /\
  (forall depth s acc, (2 * length s + 1 < n)%nat -> (n <= m)%nat -> parse_members strict n depth s acc = parse_members strict m depth s acc).
Proof.
  induction n as [|n IH]; intros m; [split; [|split]; intros; lia|].
  destruct m as [|m]; [split; [|split]; intros; lia|]. destruct (IH m) as (IHv & IHe & IHm). clear IH.
  split; [|split].
  - intros depth s Hn Hm. cbn [parse_value]. destruct s as [|c r]; [done|]. cbn [length] in Hn.
    destruct (Ascii.eqb c dquote); [done|].
    destruct depth as [|d]; [done|]. rewrite IHe, IHm by lia. done.
  - intros depth s acc Hn Hm. cbn [parse_elements]. pose proof (skip_ws_length s).
    rewrite IHv by lia. destruct (parse_value strict m depth (skip_ws s)) as [[v r]|] eqn:E; [|done].
    apply parse_length in E. pose proof (skip_ws_length r).
    destruct (expect "]"%char (skip_ws r)); [done|].
    destruct (expect ","%char (skip_ws r)) eqn:E2; [|done]. apply expect_length in E2. apply IHe; lia.
  - intros depth s acc Hn Hm. cbn [parse_members]. pose proof (skip_ws_length s).
    destruct (scan_text strict (skip_ws s)) as [[name r]|] eqn:E; [|done]. apply scan_text_length in E.
    pose proof (skip_ws_length r). destruct (expect ":"%char (skip_ws r)) as [r1|] eqn:E1; [|done].
    apply expect_length in E1. destruct (strict && has_name name acc); [done|]. pose proof (skip_ws_length r1).
    rewrite IHv by lia. destruct (parse_value strict m depth (skip_ws r1)) as [[v r2]|] eqn:Ev; [|done].
    apply parse_length in Ev. pose proof (skip_ws_length r2).
    destruct (expect "}"%char (skip_ws r2)); [done|].
    destruct (expect ","%char (skip_ws r2)) eqn:E3; [|done]. apply expect_length in E3. apply IHm; lia.
Qed.
