(* ===== verification/JsonWriter.v ===== *)
(** * Writing and reading JSON

    Go's encoder with [SetIndent], and what its reader makes of what any of its
    encoders wrote: the same tree, with invalid bytes of strings replaced. *)

From S2P Require Import Prelude.
From S2P Require Import GoStrings.
From S2P Require Import Json.
From S2P Require Import JsonText.

(** ** The indented writer *)

Definition space : ascii := " ".

(** A new line and the indentation of a nesting level, [SetIndent("", "  ")]. *)
Definition line_break (depth : nat) : bytes := Zbyte 10 :: repeat space (2 * depth).

Fixpoint join (sep : bytes) (xs : list bytes) : bytes :=
  match xs with
  | [] => []
  | [x] => x
  | x :: more => x ++ sep ++ join sep more
  end.

(** Items on lines of their own, between brackets. *)
Definition block (o c : ascii) (depth : nat) (items : list bytes) : bytes :=
  match items with
  | [] => [o; c]
  | _ => o :: line_break (S depth) ++ join (comma :: line_break (S depth)) items ++ line_break depth ++ [c]
  end.

Fixpoint json_indent (escape_html : bool) (depth : nat) (j : json) : bytes :=
  match j with
  | JArr xs => block "[" "]" depth (map (json_indent escape_html (S depth)) xs)
  | JObj fs =>
      block "{" "}" depth
        (map (fun f => json_string escape_html true (fst f) ++
                       colon :: space :: json_indent escape_html (S depth) (snd f)) fs)
  | JMarshal j => json_indent true depth j
  | JNull | JBool _ | JInt _ | JStr _ => json_bytes escape_html true j
  end%char.

(** ** What a reader makes of it *)

(** The tree that is read back. *)
Fixpoint value_of (j : json) : jvalue :=
  match j with
  | JNull => VNull
  | JBool b => if b then VTrue else VFalse
  | JInt z => VNumber (bytes_of (pretty z))
  | JStr s => VText (clean (bytes_of s))
  | JArr xs => VArray (map value_of xs)
  | JObj fs => VMembers (map (fun f => (clean (bytes_of (fst f)), value_of (snd f))) fs)
  | JMarshal j => value_of j
  end.

(** No object repeats a name. *)
Fixpoint names_unique (j : json) : Prop :=
  match j with
  | JArr xs => (fix all xs := match xs with [] => True | x :: more => names_unique x /\ all more end) xs
  | JObj fs =>
      NoDup (map (fun f => clean (bytes_of (fst f))) fs) /\
      (fix all fs := match fs with [] => True | f :: more => names_unique (snd f) /\ all more end) fs
  | JMarshal j => names_unique j
  | JNull | JBool _ | JInt _ | JStr _ => True
  end.

(** The levels of arrays and objects. *)
Fixpoint nesting (j : json) : nat :=
  match j with
  | JArr xs => S (list_max (map nesting xs))
  | JObj fs => S (list_max (map (fun f => nesting (snd f)) fs))
  | JMarshal j => nesting j
  | JNull | JBool _ | JInt _ | JStr _ => 0
  end.

(** ** Texts of a tree, with white space anywhere between tokens *)

Definition white (s : bytes) : Prop := Forall (fun c => is_ws c = true) s.

Inductive renders : json -> bytes -> Prop :=
| R_null : renders JNull (bytes_of "null")
| R_bool (b : bool) : renders (JBool b) (bytes_of (if b then "true" else "false"))
| R_int z : renders (JInt z) (bytes_of (pretty z))
| R_str eh s : renders (JStr s) (json_string eh true s)
| R_arr xs body : renders_items xs body -> renders (JArr xs) ("["%char :: body)
| R_obj fs body : renders_fields fs body -> renders (JObj fs) ("{"%char :: body)
| R_marshal j b : renders j b -> renders (JMarshal j) b
with renders_items : list json -> bytes -> Prop :=
| RI_empty w : white w -> renders_items [] (w ++ ["]"%char])
| RI_last w1 j b w2 : white w1 -> white w2 -> renders j b -> renders_items [j] (w1 ++ b ++ w2 ++ ["]"%char])
| RI_more w1 j b w2 j' more body :
    white w1 -> white w2 -> renders j b -> renders_items (j' :: more) body ->
    renders_items (j :: j' :: more) (w1 ++ b ++ w2 ++ comma :: body)
with renders_fields : list (string * json) -> bytes -> Prop :=
| RF_empty w : white w -> renders_fields [] (w ++ ["}"%char])
| RF_last w1 eh f w2 w3 b w4 :
    white w1 -> white w2 -> white w3 -> white w4 -> renders (snd f) b ->
    renders_fields [f] (w1 ++ json_string eh true (fst f) ++ w2 ++ colon :: w3 ++ b ++ w4 ++ ["}"%char])
| RF_more w1 eh f w2 w3 b w4 f' more body :
    white w1 -> white w2 -> white w3 -> white w4 -> renders (snd f) b -> renders_fields (f' :: more) body ->
    renders_fields (f :: f' :: more)
      (w1 ++ json_string eh true (fst f) ++ w2 ++ colon :: w3 ++ b ++ w4 ++ comma :: body).

Scheme renders_mut := Minimality for renders Sort Prop
with renders_items_mut := Minimality for renders_items Sort Prop
with renders_fields_mut := Minimality for renders_fields Sort Prop.
Combined Scheme renders_ind3 from renders_mut, renders_items_mut, renders_fields_mut.

(** ** Strings *)

(** A byte that a string holds as it is. *)
Definition raw (c : ascii) : Prop := c <> dquote /\ c <> backslash /\ 32 <= byteZ c.

Lemma scan_raw strict bs n X acc :
  Forall raw bs -> scan_string strict (length bs + n) (bs ++ X) acc = scan_string strict n X (acc ++ bs).
Proof.
  intros H. revert acc. induction H as [|c bs (H1 & H2 & H3) _ IH]; intros acc; [by rewrite app_nil_r|].
  cbn [length Nat.add app scan_string]. apply Ascii.eqb_neq in H1, H2. rewrite H1, H2.
  replace (byteZ c <? 32) with false by (symmetry; apply Z.ltb_ge; lia).
  rewrite IH, <- app_assoc. done.
Qed.

Lemma hex4_small v : 0 <= v < 128 -> hex4 "0" "0" (hex_digit (v / 16)) (hex_digit (v mod 16)) = Some v.
Proof.
  intros Hv. assert (H : exists n, v = Z.of_nat n /\ (n < 128)%nat) by (exists (Z.to_nat v); lia).
  destruct H as (n & -> & Hn). clear Hv.
  do 128 (destruct n as [|n]; [vm_compute; reflexivity|]). lia.
Qed.

Lemma short_escape_read v c : short_escape v = Some c -> c <> "u"%char /\ simple_escape c = Some (Zbyte v).
Proof.
  unfold short_escape. intros H.
  repeat match type of H with
  | (if ?v =? ?k then _ else _) = _ => destruct (Z.eqb_spec v k) as [->|]; [injection H as <-; by vm_compute|]
  end; done.
Qed.

(** A rune written is a rune read. *)
Lemma scan_rune strict eh r :
  (rune_bad r = false -> rune_shape r) ->
  exists k, (k <= length (json_rune eh true r))%nat /\
    forall n X acc, scan_string strict (k + n) (json_rune eh true r ++ X) acc = scan_string strict n X (acc ++ clean_rune r).
Proof.
  intros Hr. unfold json_rune, clean_rune. destruct (rune_bad r).
  { exists 1%nat. split; [cbn; lia|]. intros. reflexivity. }
  specialize (Hr eq_refl). destruct (Z.ltb_spec (rune_value r) 128) as [Hlt|Hge].
  - destruct Hr as [(c & Eb & Ev & Hc)|[H _]]; [|lia]. rewrite Eb. pose proof (byteZ_range c).
    destruct (short_escape (rune_value r)) as [e|] eqn:Ee.
    + exists 1%nat. split; [cbn; lia|]. intros n X acc. apply short_escape_read in Ee as [Hu Hs].
      cbn [app Nat.add scan_string]. apply Ascii.eqb_neq in Hu. change (Ascii.eqb backslash dquote) with false. change (Ascii.eqb backslash backslash) with true. cbn iota. rewrite Hu, Hs, Ev, Zbyte_byteZ. done.
    + destruct (_ || _) eqn:Eu.
      * exists 1%nat. change (bytes_of ("\u00" +:+ hex2 (rune_value r)))
          with [backslash; "u"%char; "0"%char; "0"%char; hex_digit (rune_value r / 16); hex_digit (rune_value r mod 16)].
        split; [cbn; lia|]. intros n X acc. cbn [app Nat.add scan_string]. change (Ascii.eqb backslash dquote) with false. change (Ascii.eqb backslash backslash) with true.
        change (Ascii.eqb "u" "u") with true. cbn iota.
        rewrite hex4_small by lia. unfold is_low, is_high, utf8_encode.
        replace (56320 <=? rune_value r) with false by lia. replace (55296 <=? rune_value r) with false by lia.
        replace (rune_value r <? 128) with true by lia. cbn [andb]. cbn zeta iota. by rewrite Ev, Zbyte_byteZ.
      * exists 1%nat. split; [cbn; lia|]. intros n X acc. apply (scan_raw strict [c] n). constructor; [|done].
        apply orb_false_iff in Eu as [Eu _]. rewrite Ev in Ee, Eu.
        split; [|split]; [| |lia]; intros ->; by vm_compute in Ee.
  - destruct Hr as [(c & _ & Ev & Hc)|(_ & Hall & Hls & Hps)]; [lia|]. cbn [andb].
    unfold line_separator. destruct (Z.eqb_spec (rune_value r) 8232) as [E|E]; cbn [orb].
    { rewrite (Hls E). exists 1%nat. split; [cbn; lia|]. intros. reflexivity. }
    destruct (Z.eqb_spec (rune_value r) 8233) as [E'|E'].
    { rewrite (Hps E'). exists 1%nat. split; [cbn; lia|]. intros. reflexivity. }
    exists (length (rune_bytes r)). split; [done|]. intros n X acc. apply scan_raw.
    eapply Forall_impl; [exact Hall|]. intros c Hc. cbn beta in Hc. split; [|split]; [| |lia]; intros ->; by vm_compute in Hc.
Qed.

Lemma scan_runes strict eh rs :
  Forall (fun r => rune_bad r = false -> rune_shape r) rs ->
  forall fuel acc X, (length (concat (map (json_rune eh true) rs)) < fuel)%nat ->
    scan_string strict fuel (concat (map (json_rune eh true) rs) ++ dquote :: X) acc
    = Some (acc ++ concat (map clean_rune rs), X).
Proof.
  induction 1 as [|r rs Hr _ IH]; intros fuel acc X Hf; cbn [map concat] in *.
  - destruct fuel as [|n]; [cbn in Hf; lia|]. by rewrite app_nil_r.
  - destruct (scan_rune strict eh r Hr) as (k & Hk & Hs). rewrite length_app in Hf.
    replace fuel with (k + (fuel - k))%nat by lia. rewrite <- app_assoc, Hs, IH by lia. by rewrite <- app_assoc.
Qed.

(** ** Clean texts *)

Lemma decode_rune_stable a r1 Y :
  rune_bad (decode_rune a r1) = false ->
  runes (rune_bytes (decode_rune a r1) ++ Y) = decode_rune a r1 :: runes Y.
Proof.
  unfold decode_rune. intros H.
  destruct (lead_size a) as [|[|[|[|[|k]]]]] eqn:El; try done.
  - cbn. by rewrite El.
  - destruct r1 as [|b r1]; [done|]. destruct (is_cont b) eqn:Eb; [|done]. cbn. by rewrite El, Eb.
  - destruct r1 as [|b [|c r1]]; try done. destruct (_ && _) eqn:Eb; [|done]. cbn. by rewrite El, Eb.
  - destruct r1 as [|b [|c [|d r1]]]; try done. destruct (_ && _) eqn:Eb; [|done]. cbn. by rewrite El, Eb.
Qed.

Definition good_rune (r : rune) : rune := if rune_bad r then Rune RuneError replacement_rune false else r.

Lemma runes_clean s : runes (clean s) = map good_rune (runes s).
Proof.
  unfold clean. induction s as [|a r1 t rest Ht Hr Hc IH] using runes_ind; [done|].
  rewrite Hc. cbn [map concat]. unfold clean_rune at 1, good_rune at 1.
  destruct (rune_bad (decode_rune a r1)) eqn:Eb.
  - change (runes (replacement_rune ++ ?x)) with (Rune RuneError replacement_rune false :: runes x). by rewrite IH.
  - rewrite decode_rune_stable by done. by rewrite IH.
Qed.

Lemma clean_valid s : utf8_valid (clean s) = true.
Proof.
  unfold utf8_valid. rewrite runes_clean, forallb_forall. intros r Hr. apply in_map_iff in Hr as (r' & <- & _).
  unfold good_rune. by destruct (rune_bad r') eqn:E; cbn; rewrite ?E.
Qed.

Lemma clean_id s : utf8_valid s = true -> clean s = s.
Proof.
  unfold utf8_valid, clean. intros H. rewrite <- (runes_flatten s) at 2. unfold flatten_runes. f_equal.
  rewrite forallb_forall in H. apply map_ext_in. intros r Hr. apply H in Hr. unfold clean_rune.
  by destruct (rune_bad r).
Qed.

(** A string written is the string read, with invalid bytes replaced. *)
Lemma scan_text_string strict eh s X :
  scan_text strict (json_string eh true s ++ X) = Some (clean (bytes_of s), X).
Proof.
  unfold json_string, scan_text. cbn [app]. rewrite Ascii.eqb_refl, <- app_assoc. cbn [app].
  rewrite scan_runes; [|apply runes_shape|rewrite length_app; cbn; lia].
  cbn [app]. fold (clean (bytes_of s)). by rewrite clean_valid.
Qed.

(** ** Numbers *)

(** What follows a number does not continue it. *)
Definition ends (s : bytes) : Prop :=
  match s with
  | [] => True
  | c :: _ => is_digit c = false /\ c <> "."%char /\ c <> "e"%char /\ c <> "E"%char
  end.

Definition digits (ds : bytes) : Prop := Forall (fun c => is_digit c = true) ds.

(** Decimal digits, without leading zeros. *)
Definition natural (ds : bytes) : Prop :=
  digits ds /\ exists c more, ds = c :: more /\ (c = "0"%char -> more = []).

Lemma pretty_N_digits (n : N) : natural (bytes_of (pretty n)).
Proof.
  assert (Hgo : forall n s, (n <> 0)%N -> digits (bytes_of s) ->
            exists c more, bytes_of (pretty_N_go n s) = c :: more /\ c <> "0"%char /\ digits (c :: more)).
  { clear n. intros n. induction n as [n IH] using (well_founded_induction N.lt_wf_0). intros s Hn Hs.
    rewrite pretty_N_go_step by lia.
    assert (Hd : forall m, is_digit (pretty_N_char m) = true) by (intros m; unfold pretty_N_char; by repeat case_match).
    destruct (decide (n `div` 10 = 0)%N) as [E|E].
    - rewrite E, pretty_N_go_0. exists (pretty_N_char (n `mod` 10)), (bytes_of s).
      split; [done|]. split; [|by constructor].
      assert (Hm : (n `mod` 10 = n)%N) by (apply N.mod_small; apply N.div_small_iff in E; lia).
      rewrite Hm. apply N.div_small_iff in E; [|lia].
      assert (H : (n = 1 \/ n = 2 \/ n = 3 \/ n = 4 \/ n = 5 \/ n = 6 \/ n = 7 \/ n = 8 \/ n = 9)%N) by lia.
      by repeat destruct H as [->|H]; [..|subst n].
    - apply IH; [apply N.div_lt; lia|done|]. by constructor. }
  unfold pretty, pretty_N. destruct (decide (n = 0)%N) as [->|Hn].
  { split; [by repeat constructor|]. by exists "0"%char, []. }
  destruct (Hgo n "" Hn) as (c & more & -> & Hc & Hd); [constructor|]. split; [done|]. by exists c, more.
Qed.

Lemma span_digits_all ds rest : digits ds -> ends rest -> span_digits (ds ++ rest) = (ds, rest).
Proof.
  intros Hd Hr. induction Hd as [|c ds Hc _ IH]; cbn [app span_digits].
  - destruct rest as [|c rest]; [done|]. destruct Hr as [Hc _]. cbn. by rewrite Hc.
  - by rewrite Hc, IH.
Qed.

Lemma scan_natural ds rest :
  natural ds -> ends rest ->
  match scan_integer (ds ++ rest) with
  | None => None
  | Some (int, s2) =>
      match scan_fraction s2 with
      | None => None
      | Some (frac, s3) =>
          match scan_exponent s3 with
          | None => None
          | Some (exp, rest) => Some (int ++ frac ++ exp, rest)
          end
      end
  end = Some (ds, rest).
Proof.
  intros [Hd (c & more & -> & Hz)] Hr. unfold scan_integer. rewrite span_digits_all by done.
  destruct (Ascii.eqb c "0" && negb (bool_decide (more = []))) eqn:E.
  { exfalso. apply andb_true_iff in E as [E1 E2]. apply Ascii.eqb_eq in E1. rewrite (Hz E1) in E2. done. }
  unfold scan_fraction, scan_exponent, expect.
  destruct rest as [|x rest]; [cbn; by rewrite app_nil_r|]. destruct Hr as (_ & H1 & H2 & H3).
  apply Ascii.eqb_neq in H1, H2, H3. rewrite H1. cbn [optional expect]. rewrite H2, H3. by rewrite app_nil_r.
Qed.

Lemma scan_number_int (z : Z) rest : ends rest -> scan_number (bytes_of (pretty z) ++ rest) = Some (bytes_of (pretty z), rest).
Proof.
  intros Hr. unfold scan_number.
  assert (Hnat : forall n : N, optional ["-"%char] (bytes_of (pretty n) ++ rest) = ([], bytes_of (pretty n) ++ rest)).
  { intros n. destruct (pretty_N_digits n) as [Hd (c & more & E & _)]. rewrite E in Hd |- *. cbn.
    destruct (Ascii.eqb_spec c "-") as [->|]; [|done]. by inversion Hd. }
  assert (Hpos : forall n : N,
    match scan_integer (bytes_of (pretty n) ++ rest) with
    | None => None
    | Some (int, s2) =>
        match scan_fraction s2 with
        | None => None
        | Some (frac, s3) =>
            match scan_exponent s3 with
            | None => None
            | Some (exp, rest) => Some (int ++ frac ++ exp, rest)
            end
        end
    end = Some (bytes_of (pretty n), rest)) by (intros n; by apply scan_natural; [apply pretty_N_digits|]).
  destruct z as [|p|p].
  - change (pretty 0) with (pretty 0%N). rewrite (Hnat 0%N). exact (Hpos 0%N).
  - change (pretty (Z.pos p)) with (pretty (N.pos p)). rewrite (Hnat (N.pos p)). exact (Hpos (N.pos p)).
  - change (bytes_of (pretty (Z.neg p)) ++ rest) with ("-"%char :: bytes_of (pretty (N.pos p)) ++ rest).
    change (bytes_of (pretty (Z.neg p))) with ("-"%char :: bytes_of (pretty (N.pos p))).
    cbn [optional expect]. rewrite Ascii.eqb_refl. specialize (Hpos (N.pos p)).
    destruct (scan_integer _) as [[int s2]|]; [|done]. destruct (scan_fraction s2) as [[frac s3]|]; [|done].
    destruct (scan_exponent s3) as [[exp r]|]; [|done]. injection Hpos as E ->. cbn [app]. by rewrite E.
Qed.

(** ** Values *)

Lemma skip_white w s : white w -> skip_ws (w ++ s) = skip_ws s.
Proof. induction 1 as [|c w Hc _ IH]; [done|]. cbn. unfold skip_ws in *. cbn. by rewrite Hc. Qed.

(** A byte that starts a value. *)
Definition starts (c : ascii) : Prop := is_ws c = false /\ c <> "]"%char /\ c <> "}"%char.

Lemma skip_starts c s : is_ws c = false -> skip_ws (c :: s) = c :: s.
Proof. intros H. unfold skip_ws. cbn. by rewrite H. Qed.

Lemma renders_starts j b : renders j b -> exists c more, b = c :: more /\ starts c.
Proof.
  induction 1 as [|[]|z|eh s|xs body _|fs body _|j b _ IH]; try (eexists _, _; split; [reflexivity|by repeat split]); [|done].
  destruct z as [|p|p].
  - eexists _, _. split; [reflexivity|]. by repeat split.
  - change (pretty (Z.pos p)) with (pretty (N.pos p)).
    destruct (pretty_N_digits (N.pos p)) as [Hd (c & more & E & _)]. exists c, more. split; [done|].
    rewrite E in Hd. inversion_clear Hd as [|? ? Hc]. unfold starts, is_ws.
    unfold is_digit, in_range in Hc. split; [lia|]. split; intros ->; by vm_compute in Hc.
  - eexists "-"%char, _. split; [reflexivity|]. by repeat split.
Qed.

Lemma ends_white w c s : white w -> ends (c :: s) -> ends (w ++ c :: s).
Proof.
  intros [|x w' Hx _] He; [done|]. cbn. unfold is_ws in Hx. unfold is_digit, in_range.
  split; [lia|]. repeat split; intros ->; by vm_compute in Hx.
Qed.

Lemma names_unique_arr xs : names_unique (JArr xs) <-> Forall names_unique xs.
Proof. cbn. induction xs as [|x xs IH]; [by split|]. rewrite Forall_cons, IH. done. Qed.

Lemma names_unique_obj fs :
  names_unique (JObj fs) <->
  NoDup (map (fun f => clean (bytes_of (fst f))) fs) /\ Forall (fun f => names_unique (snd f)) fs.
Proof. cbn. apply and_iff_compat_l. induction fs as [|f fs IH]; [by split|]. rewrite Forall_cons, IH. done. Qed.

Lemma nesting_le {A} (f : A -> json) xs d :
  (list_max (map (fun x => nesting (f x)) xs) <= d)%nat <-> Forall (fun x => (nesting (f x) <= d)%nat) xs.
Proof. rewrite list_max_le. apply List.Forall_map. Qed.

Definition member_of (f : string * json) : bytes * jvalue := (clean (bytes_of (fst f)), value_of (snd f)).

(** Nested appends to the right, and lengths of them. *)
Ltac flat := repeat (rewrite <- ?app_assoc in *; cbn [app] in *).
Ltac count_bytes := repeat (rewrite !length_app in * || cbn [length] in *); lia.

Section ReadBack.
Context (strict : bool).

Definition reads (j : json) (b : bytes) : Prop :=
  names_unique j -> forall depth fuel rest,
    (nesting j <= depth)%nat -> ends rest -> (2 * length (b ++ rest) < fuel)%nat ->
    parse_value strict fuel depth (b ++ rest) = Some (value_of j, rest).

Definition reads_items (xs : list json) (body : bytes) : Prop :=
  (xs = [] -> exists w, white w /\ body = w ++ ["]"%char]) /\
  (xs <> [] -> forall rest,
    expect "]"%char (skip_ws (body ++ rest)) = None /\
    (Forall names_unique xs -> forall depth fuel acc,
      Forall (fun j => (nesting j <= depth)%nat) xs -> (2 * length (body ++ rest) + 1 < fuel)%nat ->
      parse_elements strict fuel depth (body ++ rest) acc = Some (acc ++ map value_of xs, rest))).

Definition reads_fields (fs : list (string * json)) (body : bytes) : Prop :=
  (fs = [] -> exists w, white w /\ body = w ++ ["}"%char]) /\
  (fs <> [] -> forall rest,
    expect "}"%char (skip_ws (body ++ rest)) = None /\
    (Forall (fun f => names_unique (snd f)) fs -> forall depth fuel acc,
      NoDup (map fst acc ++ map (fun f => clean (bytes_of (fst f))) fs) ->
      Forall (fun f => (nesting (snd f) <= depth)%nat) fs -> (2 * length (body ++ rest) + 1 < fuel)%nat ->
      parse_members strict fuel depth (body ++ rest) acc = Some (acc ++ map member_of fs, rest))).

Lemma skip_value w b c more rest : white w -> b = c :: more -> starts c -> skip_ws (w ++ b ++ rest) = b ++ rest.
Proof. intros Hw -> [Hc _]. rewrite skip_white by done. cbn [app]. by apply skip_starts. Qed.

Lemma expect_starts x c more rest w :
  white w -> starts c -> x = "]"%char \/ x = "}"%char -> expect x (skip_ws (w ++ (c :: more) ++ rest)) = None.
Proof.
  intros Hw (H1 & H2 & H3) Hx. rewrite skip_white by done. cbn [app]. rewrite skip_starts by done.
  apply Ascii.eqb_neq in H2, H3. cbn. by destruct Hx as [->| ->]; rewrite ?H2, ?H3.
Qed.

Lemma expect_token c w rest : is_ws c = false -> white w -> expect c (skip_ws (w ++ c :: rest)) = Some rest.
Proof. intros Hc Hw. rewrite skip_white, skip_starts by done. cbn. by rewrite Ascii.eqb_refl. Qed.

Lemma expect_other c d w rest :
  is_ws d = false -> white w -> Ascii.eqb d c = false -> expect c (skip_ws (w ++ d :: rest)) = None.
Proof. intros Hc Hw He. rewrite skip_white, skip_starts by done. cbn. by rewrite He. Qed.

Lemma ends_token w c rest : white w -> c = comma \/ c = "]"%char \/ c = "}"%char -> ends (w ++ c :: rest).
Proof. intros Hw Hc. apply ends_white; [done|]. by destruct Hc as [->|[->| ->]]; repeat split. Qed.

(** One element and what follows it. *)
Lemma read_element w1 j b w2 c X n depth acc :
  white w1 -> white w2 -> renders j b -> reads j b -> names_unique j -> (nesting j <= depth)%nat ->
  c = comma \/ c = "]"%char -> (2 * length (w1 ++ b ++ w2 ++ c :: X) < n)%nat ->
  parse_elements strict (S n) depth (w1 ++ b ++ w2 ++ c :: X) acc
  = if Ascii.eqb c comma then parse_elements strict n depth X (acc ++ [value_of j]) else Some (acc ++ [value_of j], X).
Proof.
  intros H1 H2 Hb Hr Hu Hd Hc Hl. cbn [parse_elements].
  destruct (renders_starts j b Hb) as (x & more & E & Hs). rewrite (skip_value w1 b x more) by done.
  rewrite !length_app in Hl.
  rewrite (Hr Hu depth n (w2 ++ c :: X) Hd); [|by apply ends_token; tauto|rewrite length_app; rewrite length_app; lia].
  destruct Hc as [->| ->].
  - rewrite expect_other by done. by rewrite expect_token.
  - by rewrite expect_token.
Qed.

(** One member and what follows it. *)
Lemma read_member w1 eh f w2 w3 b w4 c X n depth acc :
  white w1 -> white w2 -> white w3 -> white w4 -> renders (snd f) b -> reads (snd f) b ->
  names_unique (snd f) -> (nesting (snd f) <= depth)%nat -> clean (bytes_of (fst f)) ∉ map fst acc ->
  c = comma \/ c = "}"%char ->
  (2 * length (w1 ++ json_string eh true (fst f) ++ w2 ++ colon :: w3 ++ b ++ w4 ++ c :: X) < n)%nat ->
  parse_members strict (S n) depth (w1 ++ json_string eh true (fst f) ++ w2 ++ colon :: w3 ++ b ++ w4 ++ c :: X) acc
  = if Ascii.eqb c comma then parse_members strict n depth X (acc ++ [member_of f]) else Some (acc ++ [member_of f], X).
Proof.
  intros H1 H2 H3 H4 Hb Hr Hu Hd Hn Hc Hl. cbn [parse_members].
  rewrite (skip_value w1 (json_string eh true (fst f)) dquote
             (concat (map (json_rune eh true) (runes (bytes_of (fst f)))) ++ [dquote])) by done.
  rewrite scan_text_string, expect_token by done.
  destruct (has_name (clean (bytes_of (fst f))) acc) eqn:Eh.
  { exfalso. apply Hn. unfold has_name in Eh. apply existsb_exists in Eh as (m & Hm & E).
    apply bool_decide_eq_true in E as <-. apply list_elem_of_In in Hm. by apply list_elem_of_fmap_2. }
  rewrite andb_false_r.
  destruct (renders_starts _ b Hb) as (x & more & E & Hs). rewrite (skip_value w3 b x more) by done.
  rewrite !length_app in Hl. cbn [length] in Hl. rewrite !length_app in Hl. cbn [length] in Hl.
  rewrite (Hr Hu depth n (w4 ++ c :: X) Hd);
    [|by apply ends_token; tauto|rewrite length_app, length_app; cbn [length]; lia].
  destruct Hc as [->| ->].
  - rewrite expect_other by done. by rewrite expect_token.
  - by rewrite expect_token.
Qed.

Lemma reads_scalar j b v :
  value_of j = v ->
  (forall n depth rest, ends rest -> parse_value strict (S n) depth (b ++ rest) = Some (v, rest)) -> reads j b.
Proof. intros <- H _ depth [|n] rest _ Hr Hl; [lia|]. by apply H. Qed.

Lemma reads_brackets_items xs body : reads_items xs body -> reads (JArr xs) ("["%char :: body).
Proof.
  intros [H0 H1] Hu depth fuel rest Hd _ Hl. apply names_unique_arr in Hu.
  destruct fuel as [|n]; [cbn in Hl; lia|]. cbn [nesting] in Hd. destruct depth as [|d]; [lia|].
  cbn [app length] in *. cbn [parse_value]. change (Ascii.eqb "[" dquote) with false.
  change (Ascii.eqb "[" "{") with false. rewrite Ascii.eqb_refl. cbn iota.
  destruct (decide (xs = [])) as [->|Hne].
  - destruct (H0 eq_refl) as (w & Hw & ->). rewrite <- app_assoc. cbn [app]. by rewrite expect_token.
  - destruct (H1 Hne rest) as [He Hp]. rewrite He, (Hp Hu); [done| |lia].
    apply (nesting_le (fun j => j)). by apply le_S_n.
Qed.

Lemma reads_brackets_fields fs body : reads_fields fs body -> reads (JObj fs) ("{"%char :: body).
Proof.
  intros [H0 H1] Hu depth fuel rest Hd _ Hl. apply names_unique_obj in Hu as [Hn Hu].
  destruct fuel as [|n]; [cbn in Hl; lia|]. cbn [nesting] in Hd. destruct depth as [|d]; [lia|].
  cbn [app length] in *. cbn [parse_value]. change (Ascii.eqb "{" dquote) with false.
  rewrite Ascii.eqb_refl. cbn iota.
  destruct (decide (fs = [])) as [->|Hne].
  - destruct (H0 eq_refl) as (w & Hw & ->). rewrite <- app_assoc. cbn [app]. by rewrite expect_token.
  - destruct (H1 Hne rest) as [He Hp]. rewrite He, (Hp Hu); [done|done| |lia].
    apply (nesting_le snd). by apply le_S_n.
Qed.

Lemma reads_last_item w1 j b w2 :
  white w1 -> white w2 -> renders j b -> reads j b -> reads_items [j] (w1 ++ b ++ w2 ++ ["]"%char]).
Proof.
  intros H1 H2 Hb Hr. split; [done|]. intros _ rest.
  split; flat.
  - destruct (renders_starts j b Hb) as (x & more & -> & Hs). by apply expect_starts; [| |left].
  - intros Hu depth fuel acc Hd Hl; flat. rewrite Forall_singleton in Hu, Hd. destruct fuel as [|n]; [lia|].
    erewrite read_element by (eauto; lia). done.
Qed.

Lemma reads_more_items w1 j b w2 j' more body :
  white w1 -> white w2 -> renders j b -> reads j b -> reads_items (j' :: more) body ->
  reads_items (j :: j' :: more) (w1 ++ b ++ w2 ++ comma :: body).
Proof.
  intros H1 H2 Hb Hr [_ IH]. split; [done|]. intros _ rest.
  split; flat.
  - destruct (renders_starts j b Hb) as (x & tl & -> & Hs). by apply expect_starts; [| |left].
  - intros Hu depth fuel acc Hd Hl; flat. apply Forall_cons in Hu as [Hu1 Hu2]. apply Forall_cons in Hd as [Hd1 Hd2].
    destruct fuel as [|n]; [lia|]. erewrite read_element by (eauto; lia). rewrite Ascii.eqb_refl.
    destruct (IH ltac:(done) rest) as [_ Hp]. rewrite (Hp Hu2); [by rewrite <- app_assoc|done|count_bytes].
Qed.

Lemma reads_last_field w1 eh f w2 w3 b w4 :
  white w1 -> white w2 -> white w3 -> white w4 -> renders (snd f) b -> reads (snd f) b ->
  reads_fields [f] (w1 ++ json_string eh true (fst f) ++ w2 ++ colon :: w3 ++ b ++ w4 ++ ["}"%char]).
Proof.
  intros H1 H2 H3 H4 Hb Hr. split; [done|]. intros _ rest.
  split; flat.
  - by apply expect_starts; [| |right].
  - intros Hu depth fuel acc Hn Hd Hl; flat. rewrite Forall_singleton in Hu, Hd. destruct fuel as [|n]; [lia|].
    apply NoDup_app in Hn as (_ & Hn & _).
    rewrite read_member; [done|auto..|lia].
    intros Hin. apply (Hn _ Hin). by left.
Qed.

Lemma reads_more_fields w1 eh f w2 w3 b w4 f' more body :
  white w1 -> white w2 -> white w3 -> white w4 -> renders (snd f) b -> reads (snd f) b ->
  reads_fields (f' :: more) body ->
  reads_fields (f :: f' :: more)
    (w1 ++ json_string eh true (fst f) ++ w2 ++ colon :: w3 ++ b ++ w4 ++ comma :: body).
Proof.
  intros H1 H2 H3 H4 Hb Hr [_ IH]. split; [done|]. intros _ rest.
  split; flat.
  - by apply expect_starts; [| |right].
  - intros Hu depth fuel acc Hn Hd Hl; flat. apply Forall_cons in Hu as [Hu1 Hu2]. apply Forall_cons in Hd as [Hd1 Hd2].
    destruct fuel as [|n]; [lia|]. rewrite read_member;
      [|auto..|lia]; [|apply NoDup_app in Hn as (_ & Hn & _); intros Hin; apply (Hn _ Hin); by left].
    rewrite Ascii.eqb_refl. destruct (IH ltac:(done) rest) as [_ Hp]. rewrite (Hp Hu2); [by rewrite <- app_assoc| |done|].
    + rewrite map_app, <- app_assoc. exact Hn.
    + count_bytes.
Qed.

Lemma renders_reads :
  (forall j b, renders j b -> reads j b) /\
  (forall xs b, renders_items xs b -> reads_items xs b) /\
  (forall fs b, renders_fields fs b -> reads_fields fs b).
Proof.
  apply renders_ind3.
  - apply reads_scalar with VNull; [done|]. intros. reflexivity.
  - intros []; (eapply reads_scalar; [reflexivity|]); intros; reflexivity.
  - intros z. apply reads_scalar with (VNumber (bytes_of (pretty z))); [done|]. intros n depth rest Hr.
    destruct (renders_starts (JInt z) _ (R_int z)) as (c & more & E & Hs).
    pose proof (scan_number_int z rest Hr) as Hn. rewrite E in Hn |- *. cbn [app] in *. cbn [parse_value].
    assert (Hc : is_digit c = true \/ c = "-"%char).
    { destruct z as [|p|p].
      - left. change (bytes_of (pretty 0)) with ["0"%char] in E. injection E as <- <-. done.
      - left. change (pretty (Z.pos p)) with (pretty (N.pos p)) in E.
        destruct (pretty_N_digits (N.pos p)) as [Hd _]. rewrite E in Hd. by inversion Hd.
      - right. cbn in E. by injection E as <- _. }
    assert (Hx : forall x, x <> "-"%char -> is_digit x = false -> Ascii.eqb c x = false).
    { intros x H1 H2. apply Ascii.eqb_neq. intros ->. destruct Hc as [Hc|Hc]; congruence. }
    rewrite !Hx by done. by rewrite Hn.
  - intros eh s. eapply reads_scalar; [reflexivity|]. intros n depth rest _. unfold json_string at 1. cbn [app parse_value].
    rewrite Ascii.eqb_refl. pose proof (scan_text_string strict eh s rest) as H. unfold json_string in H. cbn [app] in H.
    by rewrite H.
  - intros xs body _. apply reads_brackets_items.
  - intros fs body _. apply reads_brackets_fields.
  - intros j b _ IH. exact IH.
  - intros w Hw. split; [by eauto|done].
  - intros w1 j b w2 H1 H2 Hb IH. by apply reads_last_item.
  - intros w1 j b w2 j' more body H1 H2 Hb IH _ IH'. by apply reads_more_items.
  - intros w Hw. split; [by eauto|done].
  - intros w1 eh f w2 w3 b w4 H1 H2 H3 H4 Hb IH. by apply reads_last_field.
  - intros w1 eh f w2 w3 b w4 f' more body H1 H2 H3 H4 Hb IH _ IH'. by apply reads_more_fields.
Qed.

(** What an encoder writes, a reader of either kind reads. *)
Lemma read_renders j b :
  renders j b -> names_unique j -> (nesting j <= max_depth)%nat -> read_json strict b = Some (value_of j).
Proof.
  intros Hb Hu Hd. unfold read_json, parse_fuel.
  destruct (renders_starts j b Hb) as (c & more & E & Hc & _).
  assert (Hs : skip_ws b = b) by (rewrite E; by apply skip_starts). rewrite Hs.
  destruct renders_reads as [Hr _]. specialize (Hr j b Hb Hu max_depth (2 * length b + 2)%nat [] Hd I).
  rewrite app_nil_r in Hr. rewrite Hr by lia. done.
Qed.
End ReadBack.

(** ** The encoders write texts of their trees *)

Lemma json_nested_ind (P : json -> Prop) :
  P JNull -> (forall b, P (JBool b)) -> (forall z, P (JInt z)) -> (forall s, P (JStr s)) ->
  (forall xs, Forall P xs -> P (JArr xs)) -> (forall fs, Forall (fun f => P (snd f)) fs -> P (JObj fs)) ->
  (forall j, P j -> P (JMarshal j)) -> forall j, P j.
Proof.
  intros H0 H1 H2 H3 H4 H5 H6. fix IH 1. intros [|b|z|s|xs|fs|j]; [done|apply H1|apply H2|apply H3| | |apply H6, IH].
  - apply H4. induction xs as [|x xs IHxs]; constructor; [apply IH|exact IHxs].
  - apply H5. induction fs as [|f fs IHfs]; constructor; [apply IH|exact IHfs].
Qed.

Lemma renders_join xs bs w0 w1 :
  white w0 -> white w1 -> Forall2 renders xs bs -> xs <> [] ->
  renders_items xs (w0 ++ join (comma :: w0) bs ++ w1 ++ ["]"%char]).
Proof.
  intros H0 H1 H Hne. induction H as [|j b xs bs Hj H IH]; [done|].
  destruct H as [|j' b' xs bs Hj' H]; [cbn [join]; by apply RI_last|].
  change (join ?s (b :: b' :: bs)) with (b ++ s ++ join s (b' :: bs)).
  flat. apply (RI_more w0 j b [] j' xs); [done|constructor|done|]. by apply IH.
Qed.

Lemma renders_join_fields eh fs bs w0 w1 w2 :
  white w0 -> white w1 -> white w2 -> Forall2 (fun f b => renders (snd f) b) fs bs -> fs <> [] ->
  renders_fields fs (w0 ++ join (comma :: w0)
    (zip_with (fun f b => json_string eh true (fst f) ++ colon :: w1 ++ b) fs bs) ++ w2 ++ ["}"%char]).
Proof.
  intros H0 H1 H2 H Hne. induction H as [|f b fs bs Hj H IH]; [done|].
  destruct H as [|f' b' fs bs Hj' H].
  { cbn [join zip_with]. flat. apply (RF_last w0 eh f [] w1); [done|constructor|done..]. }
  change (join ?s (zip_with ?g (f :: f' :: fs) (b :: b' :: bs)))
    with (g f b ++ s ++ join s (zip_with g (f' :: fs) (b' :: bs))).
  flat. apply (RF_more w0 eh f [] w1 b [] f' fs); try done; try constructor. by apply IH.
Qed.

Lemma sep_by_join sep xs : sep_by sep xs = join [sep] xs.
Proof.
  induction xs as [|x [|y xs] IH]; [done..|].
  change (x ++ sep :: sep_by sep (y :: xs) = x ++ [sep] ++ join [sep] (y :: xs)). by rewrite IH.
Qed.

Lemma white_break n : white (line_break n).
Proof. constructor; [done|]. apply Forall_forall. intros c Hc. apply list_elem_of_In, repeat_spec in Hc as ->. done. Qed.

Lemma Forall2_map_r {A C} (R : A -> C -> Prop) (f : A -> C) (xs : list A) :
  Forall (fun x => R x (f x)) xs -> Forall2 R xs (map f xs).
Proof. induction 1; constructor; auto. Qed.

Lemma zip_map {A B C} (g : A -> B -> C) (h : A -> B) xs : zip_with g xs (map h xs) = map (fun x => g x (h x)) xs.
Proof. induction xs as [|x xs IH]; [done|]. cbn. by rewrite IH. Qed.

Lemma block_some o c depth items :
  items <> [] -> block o c depth items
  = o :: line_break (S depth) ++ join (comma :: line_break (S depth)) items ++ line_break depth ++ [c].
Proof. by destruct items. Qed.

Lemma json_bytes_renders j : forall eh, renders j (json_bytes eh true j).
Proof.
  induction j as [|b|z|s|xs IH|fs IH|j IH] using json_nested_ind; intros eh; cbn [json_bytes].
  - constructor.
  - destruct b; [apply (R_bool true)|apply (R_bool false)].
  - constructor.
  - constructor.
  - constructor. rewrite sep_by_join. destruct (decide (xs = [])) as [->|Hne]; [apply (RI_empty []); constructor|].
    apply (renders_join xs _ [] []); [constructor..| |done]. apply Forall2_map_r.
    eapply Forall_impl; [exact IH|]. intros x Hx. apply Hx.
  - constructor. rewrite sep_by_join. destruct (decide (fs = [])) as [->|Hne]; [apply (RF_empty []); constructor|].
    pose proof (renders_join_fields eh fs (map (fun f => json_bytes eh true (snd f)) fs) [] [] []) as H.
    rewrite zip_map in H. apply H; [constructor..| |done]. apply Forall2_map_r.
    eapply Forall_impl; [exact IH|]. intros x Hx. apply Hx.
  - constructor. apply IH.
Qed.

Lemma json_indent_renders j : forall eh depth, renders j (json_indent eh depth j).
Proof.
  induction j as [|b|z|s|xs IH|fs IH|j IH] using json_nested_ind; intros eh depth; cbn [json_indent];
    try apply json_bytes_renders.
  - destruct (decide (xs = [])) as [->|Hne]; [apply R_arr, (RI_empty []); constructor|].
    rewrite block_some by (by destruct xs). constructor. apply renders_join; [apply white_break..| |done].
    apply Forall2_map_r. eapply Forall_impl; [exact IH|]. intros x Hx. apply Hx.
  - destruct (decide (fs = [])) as [->|Hne]; [apply R_obj, (RF_empty []); constructor|].
    rewrite block_some by (by destruct fs). constructor.
    pose proof (renders_join_fields eh fs (map (fun f => json_indent eh (S depth) (snd f)) fs)
                  (line_break (S depth)) [space] (line_break depth)) as H.
    rewrite zip_map in H. apply H; try apply white_break; [by repeat constructor| |done].
    apply Forall2_map_r. eapply Forall_impl; [exact IH|]. intros x Hx. apply Hx.
  - constructor. apply IH.
Qed.

(** ** Reading integers *)

Lemma digits_value_snoc ds c : digits_value (ds ++ [c]) = digits_value ds * 10 + digit_value c.
Proof. unfold digits_value. by rewrite fold_left_app. Qed.

Lemma digits_value_cons c ds : digits_value (c :: ds) = digit_value c * 10 ^ Z.of_nat (length ds) + digits_value ds.
Proof.
  induction ds as [|x ds IH] using rev_ind; [unfold digits_value; cbn; lia|].
  rewrite app_comm_cons, !digits_value_snoc, IH, length_app. cbn [length]. rewrite Nat.add_1_r, Nat2Z.inj_succ, Z.pow_succ_r by lia. lia.
Qed.

Lemma pretty_N_value (n : N) : digits_value (bytes_of (pretty n)) = Z.of_N n.
Proof.
  assert (Hgo : forall n s, digits_value (bytes_of (pretty_N_go n s))
            = Z.of_N n * 10 ^ Z.of_nat (length (bytes_of s)) + digits_value (bytes_of s)).
  { clear n. intros n. induction n as [n IH] using (well_founded_induction N.lt_wf_0). intros s.
    destruct (decide (n = 0)%N) as [->|Hn]; [done|]. rewrite pretty_N_go_step by lia.
    rewrite IH by (apply N.div_lt; lia). cbn [bytes_of length]. rewrite Nat2Z.inj_succ, Z.pow_succ_r by lia.
    change (bytes_of (String ?c s)) with (c :: bytes_of s). rewrite digits_value_cons.
    assert (Hd : digit_value (pretty_N_char (n `mod` 10)) = Z.of_N (n `mod` 10)).
    { assert (Hlt : (n `mod` 10 < 10)%N) by (apply N.mod_lt; lia). revert Hlt. generalize (n `mod` 10)%N. intros m Hm.
      assert (H : (m = 0 \/ m = 1 \/ m = 2 \/ m = 3 \/ m = 4 \/ m = 5 \/ m = 6 \/ m = 7 \/ m = 8 \/ m = 9)%N) by lia.
      by repeat destruct H as [->|H]; [..|subst m]. }
    rewrite Hd. pose proof (N.div_mod n 10). rewrite (N.div_mod n 10) at 3 by lia. lia. }
  unfold pretty, pretty_N. case_decide as H; [by subst|]. rewrite Hgo. unfold digits_value. cbn. lia.
Qed.

Lemma parse_big_pretty (z : Z) : parse_big (bytes_of (pretty z)) = Some z.
Proof.
  assert (Hp : forall n : N, parse_big (bytes_of (pretty n)) = Some (Z.of_N n)).
  { intros n. destruct (pretty_N_digits n) as [Hd (c & more & E & _)]. pose proof (pretty_N_value n) as Hv.
    rewrite E in *. unfold parse_big.
    assert (Em : (match c :: more with "-"%char :: r => (true, r) | "+"%char :: r => (false, r) | _ => (false, c :: more) end)
                = (false, c :: more)).
    { inversion Hd as [|? ? Hc _]. destruct c as [[] [] [] [] [] [] [] []]; done. }
    rewrite Em. replace (forallb is_digit (c :: more)) with true; [by rewrite Hv|].
    symmetry. apply forallb_forall. intros x Hx. unfold digits in Hd. rewrite Forall_forall in Hd. apply Hd. by apply list_elem_of_In. }
  destruct z as [|p|p]; [done|exact (Hp (N.pos p))|].
  change (bytes_of (pretty (Z.neg p))) with ("-"%char :: bytes_of (pretty (N.pos p))). specialize (Hp (N.pos p)).
  destruct (pretty_N_digits (N.pos p)) as [Hd (c & more & E & _)]. pose proof (pretty_N_value (N.pos p)) as Hv. rewrite E in *.
  unfold parse_big. replace (forallb is_digit (c :: more)) with true; [by rewrite Hv|].
  symmetry. apply forallb_forall. intros x Hx. unfold digits in Hd. rewrite Forall_forall in Hd. apply Hd. by apply list_elem_of_In.
Qed.

Lemma parse_int64_pretty z : min_int64 <= z <= max_int64 -> parse_int64 (bytes_of (pretty z)) = Some z.
Proof.
  intros H. unfold parse_int64. rewrite parse_big_pretty.
  by rewrite (proj2 (Z.leb_le min_int64 z)), (proj2 (Z.leb_le z max_int64)) by lia.
Qed.
