(* ===== verification/Sha256.v ===== *)
(** * SHA-256 ([crypto/sha256], FIPS 180-4) and [encoding/hex]

    Executable, on 32-bit words as [Z]; evaluated on the standard's examples. *)

From S2P Require Import Prelude.
From S2P Require Import GoStrings.

Section sha256.

Definition two32 : Z := 4294967296.
Definition add32 (a b : Z) : Z := (a + b) mod two32.
Definition rotr (n x : Z) : Z := Z.lor (Z.shiftr x n) (Z.shiftl x (32 - n) mod two32).

Definition ch (x y z : Z) : Z := Z.lxor (Z.land x y) (Z.land (two32 - 1 - x) z).
Definition maj (x y z : Z) : Z := Z.lxor (Z.lxor (Z.land x y) (Z.land x z)) (Z.land y z).
Definition big0 (x : Z) : Z := Z.lxor (Z.lxor (rotr 2 x) (rotr 13 x)) (rotr 22 x).
Definition big1 (x : Z) : Z := Z.lxor (Z.lxor (rotr 6 x) (rotr 11 x)) (rotr 25 x).
Definition small0 (x : Z) : Z := Z.lxor (Z.lxor (rotr 7 x) (rotr 18 x)) (Z.shiftr x 3).
Definition small1 (x : Z) : Z := Z.lxor (Z.lxor (rotr 17 x) (rotr 19 x)) (Z.shiftr x 10).

(** The constants are defined as the standard defines them: the fractional bits of
    square and cube roots of the first primes. *)
Definition prime (n : Z) : bool :=
  (2 <=? n) && forallb (fun d => negb (n mod d =? 0)) (map Z.of_nat (seq 2 (Z.to_nat (Z.sqrt n) - 1))).
Definition primes_below (n : nat) : list Z := List.filter prime (map Z.of_nat (seq 0 n)).

(** The greatest [r] below [acc + 2^n] whose cube is at most [x], bit by bit. *)
Fixpoint cube_root (n : nat) (acc x : Z) : Z :=
  match n with
  | O => acc
  | S m =>
      let r := acc + 2 ^ Z.of_nat m in
      cube_root m (if r * r * r <=? x then r else acc) x
  end.

Definition sqrt_bits (p : Z) : Z := Z.sqrt (p * two32 * two32) mod two32.
Definition cbrt_bits (p : Z) : Z := cube_root 36 0 (p * two32 * two32 * two32) mod two32.

Definition round_constants : list Z := Eval vm_compute in map cbrt_bits (primes_below 312).

Record sha_state := Sha { ha : Z; hb : Z; hc : Z; hd : Z; he : Z; hf : Z; hg : Z; hh : Z }.

Definition initial_hash : sha_state := Eval vm_compute in
  match map sqrt_bits (primes_below 20) with
  | [a; b; c; d; e; f; g; h] => Sha a b c d e f g h
  | _ => Sha 0 0 0 0 0 0 0 0
  end.

(** Big-endian words of a block. *)
Fixpoint words (bs : list Z) : list Z :=
  match bs with
  | a :: b :: c :: d :: r => (((a * 256 + b) * 256 + c) * 256 + d) :: words r
  | _ => []
  end.

(** The message schedule, newest word first. *)
Fixpoint extend (n : nat) (w : list Z) : list Z :=
  match n with
  | O => w
  | S m =>
      let at_ i := nth i w 0 in
      extend m (add32 (add32 (small1 (at_ 1%nat)) (at_ 6%nat)) (add32 (small0 (at_ 14%nat)) (at_ 15%nat)) :: w)
  end.

Definition schedule (block : list Z) : list Z := rev (extend 48 (rev (words block))).

Definition round_step (s : sha_state) (kw : Z * Z) : sha_state :=
  let t1 := add32 (add32 (hh s) (big1 (he s))) (add32 (ch (he s) (hf s) (hg s)) (add32 (fst kw) (snd kw))) in
  let t2 := add32 (big0 (ha s)) (maj (ha s) (hb s) (hc s)) in
  Sha (add32 t1 t2) (ha s) (hb s) (hc s) (add32 (hd s) t1) (he s) (hf s) (hg s).

Definition compress (s : sha_state) (block : list Z) : sha_state :=
  let t := fold_left round_step (combine round_constants (schedule block)) s in
  Sha (add32 (ha s) (ha t)) (add32 (hb s) (hb t)) (add32 (hc s) (hc t)) (add32 (hd s) (hd t))
      (add32 (he s) (he t)) (add32 (hf s) (hf t)) (add32 (hg s) (hg t)) (add32 (hh s) (hh t)).

(** Padding: 0x80, zeros, and the 64-bit bit length. *)
Definition big_endian (n : nat) (z : Z) : list Z :=
  rev (map (fun i => Z.shiftr z (8 * Z.of_nat i) mod 256) (seq 0 n)).

Definition pad (msg : list Z) : list Z :=
  let n := Z.of_nat (length msg) in
  msg ++ 128 :: replicate (Z.to_nat ((55 - n) mod 64)) 0 ++ big_endian 8 (8 * n).

Fixpoint blocks (fuel : nat) (bs : list Z) : list (list Z) :=
  match fuel, bs with
  | S n, _ :: _ => take 64 bs :: blocks n (drop 64 bs)
  | _, _ => []
  end.

Definition digest_words (s : sha_state) : list Z := [ha s; hb s; hc s; hd s; he s; hf s; hg s; hh s].

(** [sha256.Sum256] *)
Definition sha256 (msg : bytes) : bytes :=
  let padded := pad (map byteZ msg) in
  let s := fold_left compress (blocks (length padded) padded) initial_hash in
  map Zbyte (concat (map (big_endian 4) (digest_words s))).
End sha256.

(** [hex.EncodeToString] *)
Fixpoint hex_encode (bs : bytes) : string :=
  match bs with
  | [] => ""
  | b :: r => hex2 (byteZ b) +:+ hex_encode r
  end.

Example sha256_empty :
  hex_encode (sha256 []) = "e3b0c44298fc1c149afbf4c8996fb92427ae41e4649b934ca495991b7852b855"%string.
Proof. vm_compute. reflexivity. Qed.
Example sha256_abc :
  hex_encode (sha256 (bytes_of "abc")) = "ba7816bf8f01cfea414140de5dae2223b00361a396177a9cb410ff61f20015ad"%string.
Proof. vm_compute. reflexivity. Qed.
Example sha256_two_blocks :
  hex_encode (sha256 (bytes_of "abcdbcdecdefdefgefghfghighijhijkijkljklmklmnlmnomnopnopq"))
  = "248d6a61d20638b8e5c026930c3e6039a33ce45964ff2167f6ecedd419db06c1"%string.
Proof. vm_compute. reflexivity. Qed.

(** The pattern [^[0-9a-f]{64}$]. *)
Definition lower_hex (c : ascii) : bool :=
  ((48 <=? byteZ c) && (byteZ c <=? 57)) || ((97 <=? byteZ c) && (byteZ c <=? 102)).
Definition lowerHex64 (s : string) : bool :=
  (String.length s =? 64)%nat && forallb lower_hex (bytes_of s).

Lemma hex_digit_lower n : 0 <= n < 16 -> lower_hex (hex_digit n) = true.
Proof.
  intros H. rewrite <- (Z2Nat.id n) by lia. assert (Hn : (Z.to_nat n < 16)%nat) by lia.
  revert Hn. generalize (Z.to_nat n). clear. intros k Hk.
  do 16 (destruct k as [|k]; [reflexivity|]). lia.
Qed.

Lemma hex_encode_spec bs :
  String.length (hex_encode bs) = (2 * length bs)%nat /\ forallb lower_hex (bytes_of (hex_encode bs)) = true.
Proof.
  induction bs as [|b bs [IH1 IH2]]; [done|].
  assert (Hb : 0 <= byteZ b / 16 < 16 /\ 0 <= byteZ b mod 16 < 16).
  { pose proof (byteZ_range b). Z.to_euclidean_division_equations. lia. }
  change (hex_encode (b :: bs)) with
    (String (hex_digit (byteZ b / 16)) (String (hex_digit (byteZ b mod 16)) (hex_encode bs))).
  cbn [String.length list_ascii_of_string forallb]. rewrite IH1, IH2, !hex_digit_lower by tauto.
  split; [cbn [length]; lia|done].
Qed.

Lemma length_sha256 msg : length (sha256 msg) = 32%nat.
Proof.
  unfold sha256. cbv zeta. rewrite length_map. set (s := fold_left compress _ initial_hash).
  clearbody s. reflexivity.
Qed.

(** A digest in hexadecimal is a content hash. *)
Lemma sha256_hex msg : lowerHex64 (hex_encode (sha256 msg)) = true.
Proof.
  destruct (hex_encode_spec (sha256 msg)) as [H1 H2]. unfold lowerHex64.
  by rewrite H1, length_sha256, H2.
Qed.
