(* ===== verification/Refs.v ===== *)
(** * References and artifacts ([source/model.go], [artifact/model.go])

    Source references, versioned artifact references, lineage, drafts and
    artifacts.  Both packages validate their string parts the same way. *)

From S2P Require Import Prelude.
From S2P Require Import GoStrings.

(** ** Errors *)

Inductive ref_error :=
| InvalidReference (field detail : string)        (** both packages' [InvalidReferenceError] *)
| InvalidEntry                                    (** [source.InvalidEntryError] *)
| InvalidMaterialization (value : string).

#[export] Instance ref_error_eq_dec : EqDecision ref_error.
Proof. solve_decision. Defined.

(** ** Parts of a reference *)

Definition trim_python : string -> string := trim_func isPythonWhitespace.

(** [validateReferencePart] and [validatePart]. *)
Definition validatePart (field value : string) (maximum : Z) : result ref_error unit :=
  let trimmed := trim_python value in
  require negb (String.eqb trimmed "") else InvalidReference field "must be a non-empty string" in
  require String.eqb value trimmed
    else InvalidReference field "must not contain leading or trailing whitespace" in
  require rune_count value <=? maximum else InvalidReference field "must not exceed maximum characters" in
  Ok tt.

(** The strings that pass: non-empty, without surrounding whitespace, short. *)
Definition valid_part (maximum : Z) (value : string) : Prop :=
  value <> ""%string /\ trim_python value = value /\ rune_count value <= maximum.

Lemma validatePart_ok field value maximum u :
  validatePart field value maximum = Ok u <-> valid_part maximum value.
Proof.
  destruct u. unfold validatePart, valid_part. split.
  - intros H. bind_inv H. ok_inv. boolify.
    apply String.eqb_neq in Ha. apply String.eqb_eq in Ha0. apply Z.leb_le in Ha1.
    rewrite <- Ha0 in Ha |- *. auto.
  - intros (H1 & H2 & H3). apply Z.leb_le in H3. apply String.eqb_neq in H1.
    by rewrite H2, H1, String.eqb_refl, H3.
Qed.

(** ** Source references *)

Module Source.
Definition MaxIDLength : Z := 256.
Definition MaxTypeLength : Z := 128.

Record Ref := MkRef { sourceType : string; sourceID : string }.

#[global] Instance ref_eq_dec : EqDecision Ref.
Proof. solve_decision. Defined.

Definition NewRef (ty id : string) : result ref_error Ref :=
  let* _ := validatePart "source_type" ty MaxTypeLength in
  let* _ := validatePart "source_id" id MaxIDLength in
  Ok (MkRef ty id).

Definition to_string (r : Ref) : string := sourceType r +:+ ":" +:+ sourceID r.

Definition MarshalText (r : Ref) : result ref_error string :=
  let* _ := NewRef (sourceType r) (sourceID r) in
  Ok (to_string r).

Definition valid (r : Ref) : Prop :=
  valid_part MaxTypeLength (sourceType r) /\ valid_part MaxIDLength (sourceID r).

Lemma source_ref_ok ty id r : NewRef ty id = Ok r <-> r = MkRef ty id /\ valid r.
Proof.
  unfold NewRef, valid. split.
  - intros H. bind_inv H. ok_inv. subst r. apply validatePart_ok in Ha, Ha0. done.
  - intros [-> [H1 H2]]. cbn in *.
    rewrite (proj2 (validatePart_ok "source_type" ty _ tt)) by done. cbn.
    by rewrite (proj2 (validatePart_ok "source_id" id _ tt)).
Qed.

(** Where a read value comes from. *)
Inductive Materialization := Captured | Referenced | OtherMaterialization (s : string).

(** A Source value through its interface. *)
Record Value := MkValue {
  SourceName : string;
  SourceMaterialization : Materialization;
  SourceDescription : option string
}.

Definition validateValue (v : option Value) : result ref_error unit :=
  match v with
  | None => Err InvalidEntry
  | Some v =>
      match NewRef "source" (SourceName v) with
      | Err (InvalidReference _ d) => Err (InvalidReference "source_id" d)
      | Err e => Err e
      | Ok _ =>
          match SourceMaterialization v with
          | Captured | Referenced => Ok tt
          | OtherMaterialization s => Err (InvalidMaterialization s)
          end
      end
  end.
End Source.

(** ** Artifact references *)

Definition MaxFamilyLength : Z := 128.
Definition MaxIDLength : Z := 128.

Record Ref := MkRef { family : string; artifactID : string; revision : Z }.

#[export] Instance ref_eq_dec : EqDecision Ref.
Proof. solve_decision. Defined.
#[export] Instance ref_countable : Countable Ref.
Proof.
  refine (inj_countable' (fun r => (family r, artifactID r, revision r))
            (fun p => MkRef (fst (fst p)) (snd (fst p)) (snd p)) _).
  by intros [].
Defined.

Definition NewRef (fam id : string) (rev : Z) : result ref_error Ref :=
  let* _ := validatePart "family" fam MaxFamilyLength in
  let* _ := validatePart "artifact_id" id MaxIDLength in
  require 1 <=? rev else InvalidReference "revision" "must be greater than or equal to 1" in
  Ok (MkRef fam id rev).

Definition Validate (r : Ref) : result ref_error unit :=
  let* _ := NewRef (family r) (artifactID r) (revision r) in Ok tt.

Definition IsZero (r : Ref) : bool :=
  String.eqb (family r) "" && String.eqb (artifactID r) "" && (revision r =? 0).

Definition valid_ref (r : Ref) : Prop :=
  valid_part MaxFamilyLength (family r) /\ valid_part MaxIDLength (artifactID r) /\ 1 <= revision r.

Lemma NewRef_ok fam id rev r : NewRef fam id rev = Ok r <-> r = MkRef fam id rev /\ valid_ref r.
Proof.
  unfold NewRef, valid_ref. split.
  - intros H. bind_inv H. ok_inv. subst r. apply validatePart_ok in Ha, Ha0. apply Z.leb_le in Ha1. done.
  - intros [-> (H1 & H2 & H3)]. cbn in *. apply Z.leb_le in H3.
    rewrite (proj2 (validatePart_ok "family" fam _ tt)) by done. cbn.
    rewrite (proj2 (validatePart_ok "artifact_id" id _ tt)) by done. cbn. by rewrite H3.
Qed.

Lemma Validate_ok r u : Validate r = Ok u <-> valid_ref r.
Proof.
  destruct u. unfold Validate. split.
  - intros H. apply bind_ok_inv in H as (r' & H & _). apply NewRef_ok in H as [-> H]. by destruct r.
  - intros H. rewrite (proj2 (NewRef_ok _ _ _ r)); [done|]. split; [by destruct r|done].
Qed.

(** ** Lineage, drafts and artifacts *)

Record Lineage := MkLineage { sources : list Source.Ref; artifacts : list Ref }.

#[export] Instance lineage_eq_dec : EqDecision Lineage.
Proof. solve_decision. Defined.

Definition check_source (ref : Source.Ref) : result ref_error unit :=
  let* _ := Source.NewRef (Source.sourceType ref) (Source.sourceID ref) in Ok tt.

Definition NewLineage (srcs : list Source.Ref) (arts : list Ref) : result ref_error Lineage :=
  let* _ := map_res check_source srcs in
  let* _ := map_res Validate arts in
  Ok (MkLineage srcs arts).

Record Draft (T : Type) := MkDraft { d_family : string; d_content : T; d_lineage : Lineage }.
Arguments MkDraft {T}. Arguments d_family {T}. Arguments d_content {T}. Arguments d_lineage {T}.

Definition NewDraft {T} (fam : string) (content : T) (srcs : list Source.Ref) (arts : list Ref)
  : result ref_error (Draft T) :=
  let* _ := validatePart "family" fam MaxFamilyLength in
  let* lineage := NewLineage srcs arts in
  Ok (MkDraft fam content lineage).

Record Artifact (T : Type) := MkArtifact { a_ref : Ref; a_content : T; a_lineage : Lineage }.
Arguments MkArtifact {T}. Arguments a_ref {T}. Arguments a_content {T}. Arguments a_lineage {T}.

Definition New {T} (id : string) (rev : Z) (draft : Draft T) : result ref_error (Artifact T) :=
  let* ref := NewRef (d_family draft) id rev in
  Ok (MkArtifact ref (d_content draft) (d_lineage draft)).

Definition Restore {T} (ref : Ref) (content : T) (lineage : Lineage) : result ref_error (Artifact T) :=
  let* _ := Validate ref in
  let* validated := NewLineage (sources lineage) (artifacts lineage) in
  Ok (MkArtifact ref content validated).

Definition valid_lineage (l : Lineage) : Prop :=
  Forall Source.valid (sources l) /\ Forall valid_ref (artifacts l).

Lemma map_res_check {A} (f : A -> result ref_error unit) (P : A -> Prop) xs us :
  (forall x u, f x = Ok u <-> P x) -> map_res f xs = Ok us -> Forall P xs.
Proof.
  intros Hf H. apply map_res_Forall2 in H. induction H; constructor; [by eapply Hf|done].
Qed.

Lemma map_res_check_ok {A} (f : A -> result ref_error unit) (P : A -> Prop) xs :
  (forall x u, f x = Ok u <-> P x) -> Forall P xs -> exists us, map_res f xs = Ok us.
Proof.
  intros Hf. induction 1 as [|x xs Hx _ [us IH]]; cbn; [eauto|].
  rewrite (proj2 (Hf x tt)) by done. cbn. rewrite IH. cbn. eauto.
Qed.

Lemma check_source_ok r u : check_source r = Ok u <-> Source.valid r.
Proof.
  destruct u. unfold check_source. split.
  - intros H. apply bind_ok_inv in H as (r' & H & _). apply Source.source_ref_ok in H as [-> H]. by destruct r.
  - intros H. rewrite (proj2 (Source.source_ref_ok _ _ r)); [done|]. split; [by destruct r|done].
Qed.

Lemma NewLineage_ok srcs arts l :
  NewLineage srcs arts = Ok l <-> l = MkLineage srcs arts /\ valid_lineage l.
Proof.
  unfold NewLineage, valid_lineage. split.
  - intros H. bind_inv H. ok_inv. subst l. cbn.
    split; [done|]. split; eapply map_res_check; eauto using check_source_ok, Validate_ok.
  - intros [-> [H1 H2]]. cbn in *.
    destruct (map_res_check_ok check_source _ srcs check_source_ok H1) as [u1 ->].
    destruct (map_res_check_ok Validate _ arts Validate_ok H2) as [u2 ->]. done.
Qed.

(** An artifact built from a draft keeps its content and lineage, under a valid
    reference. *)
Lemma New_ok {T} id rev (draft : Draft T) a :
  New id rev draft = Ok a <->
  a = MkArtifact (MkRef (d_family draft) id rev) (d_content draft) (d_lineage draft) /\ valid_ref (a_ref a).
Proof.
  unfold New. split.
  - intros H. bind_inv H. ok_inv. apply NewRef_ok in Ha as [-> Hv]. by subst a.
  - intros [-> Hv]. cbn in Hv. by rewrite (proj2 (NewRef_ok _ _ _ _) (conj eq_refl Hv)).
Qed.

(** Restoring the parts of a valid artifact returns it. *)
Lemma Restore_ok {T} ref (content : T) l a :
  Restore ref content l = Ok a <->
  a = MkArtifact ref content l /\ valid_ref ref /\ valid_lineage l.
Proof.
  unfold Restore. split.
  - intros H. bind_inv H. ok_inv. apply Validate_ok in Ha. apply NewLineage_ok in Ha0 as [-> Hl].
    subst a. by destruct l.
  - intros (-> & Hr & Hl). rewrite (proj2 (Validate_ok ref tt) Hr). cbn.
    rewrite (proj2 (NewLineage_ok _ _ l)); [done|]. split; [by destruct l|done].
Qed.
