(* ===== verification/SchedJob.v ===== *)
(** * Scheduler jobs ([internal/scheduler/job.go])

    The identity, validation and advance of one interval job. *)

From S2P Require Import Prelude.
From S2P Require Import GoStrings.
From S2P Require Import GoTime.

(** ** Errors of the scheduler package *)

Inductive sched_error :=
| EUnsupportedKind (name : string)
| ERuntimePath
| EInterval
| ENotConfigured (field : string)
| EPrecision (field : string)
| EYearRange (field : string)
| ENotAligned
| EInvalidJobState (detail : string)            (** [invalidState(detail)] *)
| EInvalidJob (cause : sched_error)             (** [invalidState(err.Error())] *)
| EConfiguration (field : string)               (** [ConfigurationError] *)
| EProcessorMissing (field : string)
| EState (code key : string)                    (** [StateError] *)
| ECas (id : string) (affected : Z)
| EDatabase (what : string)
| EHandler (what : string)
| EPanic (what : string)
| EJoin (first second : sched_error)            (** [errors.Join] *)
| EFuel.                                        (** never produced: see [parse_pickle_total] *)

#[export] Instance sched_error_eq_dec : EqDecision sched_error.
Proof. solve_decision. Defined.

Abbreviation res := (result sched_error).

Definition invalidState {A} (detail : string) : res A := Err (EInvalidJobState detail).

(** ** Job kinds *)

(** Go's [JobKind] is a string; the two constants and every other value. *)
Inductive JobKind := SourceWindow | ExperienceIncubation | OtherKind (name : string).

#[export] Instance job_kind_eq_dec : EqDecision JobKind.
Proof. solve_decision. Defined.

#[export] Instance job_kind_countable : Countable JobKind.
Proof.
  apply (inj_countable'
    (fun k => match k with
              | SourceWindow => inl false
              | ExperienceIncubation => inl true
              | OtherKind s => inr s
              end)
    (fun e => match e with
              | inl false => SourceWindow
              | inl true => ExperienceIncubation
              | inr s => OtherKind s
              end)).
  by intros [].
Defined.

Definition SourceWindowJobID : string := "powercontext.memory.source-window.v1".
Definition ExperienceIncubationJobID : string := "powercontext.experience.incubation.v1".

Record identity := Identity { id_of : string; callable_of : string; name_of : string }.

Definition jobIdentity (kind : JobKind) : res identity :=
  match kind with
  | SourceWindow =>
      Ok (Identity SourceWindowJobID
            "powercontext.builtin.runtime.scheduler:dispatch_source_windows"
            "dispatch_source_windows")
  | ExperienceIncubation =>
      Ok (Identity ExperienceIncubationJobID
            "powercontext.builtin.runtime.scheduler:dispatch_experience_incubation"
            "dispatch_experience_incubation")
  | OtherKind s => Err (EUnsupportedKind s)
  end.

Definition kindForID (id : string) : option JobKind :=
  if String.eqb id SourceWindowJobID then Some SourceWindow
  else if String.eqb id ExperienceIncubationJobID then Some ExperienceIncubation
  else None.

(** ** Jobs *)

Record Job := MkJob {
  kind : JobKind;
  runtimePath : string;
  interval : duration;
  start : time;
  next : time
}.

#[export] Instance job_eq_dec : EqDecision Job.
Proof. solve_decision. Defined.

(** [Job.ID]: the identity of a job of unknown kind is the empty string. *)
Definition job_id (j : Job) : string :=
  match jobIdentity (kind j) with Ok i => id_of i | Err _ => "" end.

(** [filepath.IsAbs] on Unix. *)
Definition is_abs (path : string) : bool := String.prefix "/" path.
#[global] Arguments is_abs : simpl never.

Definition utcMicrosecond (field : string) (value : time) : res time :=
  require negb (value =? zero_time) else ENotConfigured field in
  require nanosecond value mod 1000 =? 0 else EPrecision field in
  require (1 <=? year (civil_of value)) && (year (civil_of value) <=? 9999)
    else EYearRange field in
  Ok value.

Definition NewJob (kd : JobKind) (path : string) (itv : duration) (st nx : time) : res Job :=
  let* _ := jobIdentity kd in
  require negb (String.eqb path "" || String.eqb path ":memory:" || negb (is_abs path))
    else ERuntimePath in
  require negb ((itv <=? 0) || negb (go_mod itv 1000 =? 0)) else EInterval in
  let* st' := utcMicrosecond "start_date" st in
  let* nx' := utcMicrosecond "next_run_time" nx in
  let delta := wrap64 (unix_micro nx' - unix_micro st') in
  let intervalMicros := microseconds itv in
  require negb ((delta <? 0) || negb (go_mod delta intervalMicros =? 0)) else ENotAligned in
  Ok (MkJob kd path itv st' nx').

(** [Job.withNext]: the first run time after [now]; missed runs coalesce. *)
Definition withNext (j : Job) (now : time) : res Job :=
  if now <? next j then Ok j
  else
    let elapsedMicros := wrap64 (unix_micro now - unix_micro (start j)) in
    let step := wrap64 (go_div elapsedMicros (microseconds (interval j)) + 1) in
    let nextMicros :=
      wrap64 (unix_micro (start j) + wrap64 (step * microseconds (interval j))) in
    NewJob (kind j) (runtimePath j) (interval j) (start j) (of_unix_micro nextMicros).

(** [validStoredRuntimePath]. *)
Definition validStoredRuntimePath (stored expected : string) : bool :=
  String.eqb stored expected && is_abs stored
  && negb (existsb (fun b => byteZ b =? 0) (bytes_of stored)).

(** ** The job invariant *)

Definition micro_time (t : time) : Prop :=
  t <> zero_time /\ nanosecond t mod 1000 = 0 /\ 1 <= year (civil_of t) <= 9999.

Record valid_job (j : Job) : Prop := {
  vj_kind : is_ok (jobIdentity (kind j)) = true;
  vj_path : is_abs (runtimePath j) = true;
  vj_path_memory : runtimePath j <> ":memory:"%string;
  vj_interval : 0 < interval j;
  vj_micro : interval j mod 1000 = 0;
  vj_start : micro_time (start j);
  vj_next : micro_time (next j);
  vj_order : start j <= next j;
  vj_aligned : (next j - start j) mod interval j = 0
}.

Lemma utcMicrosecond_ok field t u : utcMicrosecond field t = Ok u <-> u = t /\ micro_time t.
Proof.
  unfold utcMicrosecond, micro_time. split.
  - intros H. bind_inv H. ok_inv. boolify. subst u. split; [done|].
    apply Z.eqb_neq in Ha. lia.
  - intros (-> & H1 & H2 & H3). apply Z.eqb_neq in H1. rewrite H1, H2. cbn.
    destruct (Z.leb_spec 1 (year (civil_of t))); [|lia].
    by destruct (Z.leb_spec (year (civil_of t)) 9999); [|lia].
Qed.

(** In range, [UnixMicro] is exact. *)
Lemma unix_micro_exact t :
  -62135596800 <= unix t <= 253402300799 -> unix_micro t = t / 1000.
Proof.
  intros H. unfold unix_micro. rewrite wrap64_id.
  - unfold unix, nanosecond, giga in *. Z.to_euclidean_division_equations. lia.
  - unfold in_int64, min_int64, max_int64. pose proof (time_fields_bounds t) as (_ & _ & _ & Hn).
    unfold giga in Hn. Z.to_euclidean_division_equations. lia.
Qed.

Lemma micro_time_unix t : micro_time t -> -62135596800 <= unix t <= 253402300799.
Proof. intros (_ & _ & H). by apply year_unix_bound. Qed.

Lemma micro_time_exact t : micro_time t -> unix_micro t * 1000 = t.
Proof.
  intros H. rewrite unix_micro_exact by by apply micro_time_unix.
  destruct H as (_ & H & _). unfold nanosecond, giga in H.
  Z.to_euclidean_division_equations. lia.
Qed.

Lemma unix_micro_diff s t :
  -62135596800 <= unix s <= 253402300799 -> -62135596800 <= unix t <= 253402300799 ->
  wrap64 (unix_micro t - unix_micro s) = t / 1000 - s / 1000.
Proof.
  intros Hs Ht. rewrite !unix_micro_exact by done. apply wrap64_id.
  unfold in_int64, min_int64, max_int64, unix, giga in *.
  Z.to_euclidean_division_equations. lia.
Qed.

Lemma micro_interval itv : 0 < itv -> itv mod 1000 = 0 -> microseconds itv * 1000 = itv.
Proof.
  intros H1 H2. unfold microseconds, go_div. rewrite Z.quot_div_nonneg by lia.
  Z.to_euclidean_division_equations. lia.
Qed.

Lemma is_abs_nonempty p : is_abs p = true -> p <> ""%string.
Proof. by intros H ->. Qed.

(** Constructing a job succeeds exactly on the valid ones, and returns its inputs. *)
Lemma NewJob_valid kd p i s n j :
  NewJob kd p i s n = Ok j <-> j = MkJob kd p i s n /\ valid_job j.
Proof.
  unfold NewJob. split.
  - intros H. bind_inv H. ok_inv. boolify.
    apply utcMicrosecond_ok in Ha2 as [-> Hs], Ha3 as [-> Hn]. subst j.
    split; [done|].
    match goal with H : (i <=? 0) = false |- _ => apply Z.leb_gt in H end.
    match goal with H : (go_mod i 1000 =? 0) = true |- _ => apply Z.eqb_eq in H; rename H into Hi end.
    unfold go_mod in Hi. rewrite Z.rem_mod_nonneg in Hi by lia.
    match goal with H : (_ <? 0) = false |- _ => apply Z.ltb_ge in H; rename H into Hd end.
    match goal with H : (go_mod (wrap64 _) _ =? 0) = true |- _ => apply Z.eqb_eq in H; rename H into Hm end.
    pose proof (micro_interval i ltac:(lia) Hi) as Hmi.
    pose proof (micro_time_exact _ Hs) as Es. pose proof (micro_time_exact _ Hn) as En.
    rewrite (unix_micro_diff s n) in Hd, Hm by by apply micro_time_unix.
    rewrite <- !unix_micro_exact in Hd, Hm by by apply micro_time_unix.
    unfold go_mod in Hm. rewrite Z.rem_mod_nonneg in Hm by lia.
    constructor; cbn; try done; try lia.
    + by rewrite Ha.
    + intros ->. by simpl in *.
    + rewrite <- En, <- Es, <- Hmi, <- Z.mul_sub_distr_r.
      rewrite Z.mul_mod_distr_r by lia. lia.
  - intros [-> [Hk Hp Hpm Hi0 Hi1 Hs Hn Ho Ha]]. cbn in *.
    destruct (jobIdentity kd); [|done]. cbn [bind].
    assert (String.eqb p "" = false) as -> by (apply String.eqb_neq; by apply is_abs_nonempty).
    assert (String.eqb p ":memory:" = false) as -> by by apply String.eqb_neq.
    rewrite Hp. cbn [orb negb check bind].
    assert ((i <=? 0) = false) as -> by (apply Z.leb_gt; lia).
    unfold go_mod. rewrite Z.rem_mod_nonneg, Hi1 by lia. cbn [orb negb check bind Z.eqb].
    rewrite (proj2 (utcMicrosecond_ok _ s s)) by done.
    rewrite (proj2 (utcMicrosecond_ok _ n n)) by done. cbn [bind].
    rewrite unix_micro_diff by by apply micro_time_unix.
    rewrite <- !unix_micro_exact by by apply micro_time_unix.
    pose proof (micro_interval i ltac:(lia) Hi1) as Hmi.
    pose proof (micro_time_exact _ Hs) as Es. pose proof (micro_time_exact _ Hn) as En.
    assert ((unix_micro n - unix_micro s <? 0) = false) as -> by (apply Z.ltb_ge; lia).
    rewrite Z.rem_mod_nonneg by lia.
    assert ((unix_micro n - unix_micro s) mod microseconds i = 0) as ->.
    { rewrite <- En, <- Es, <- Hmi, <- Z.mul_sub_distr_r, Z.mul_mod_distr_r in Ha by lia. lia. }
    done.
Qed.

(** ** Advancing a job *)

(** The slot that [withNext] computes, as plain arithmetic on nanoseconds. *)
Definition next_slot (j : Job) (now : time) : time :=
  start j + ((now / 1000 - start j / 1000) / (interval j / 1000) + 1) * interval j.

Lemma next_slot_after j now :
  valid_job j -> next j <= now ->
  now < next_slot j now /\ next_slot j now - interval j <= now /\
  (next_slot j now - start j) mod interval j = 0.
Proof.
  intros [_ _ _ Hi Hm Hs _ Ho _] Hnow. unfold next_slot.
  assert (Es : start j mod 1000 = 0).
  { destruct Hs as (_ & Hs & _). unfold nanosecond, giga in Hs.
    Z.to_euclidean_division_equations. lia. }
  set (i := interval j / 1000). assert (Ei : interval j = i * 1000) by (unfold i; Z.to_euclidean_division_equations; lia).
  assert (Hipos : 0 < i) by lia.
  set (s := start j / 1000). assert (E : start j = s * 1000) by (unfold s; Z.to_euclidean_division_equations; lia).
  set (n := now / 1000).
  assert (Hn : n * 1000 <= now < n * 1000 + 1000) by (unfold n; Z.to_euclidean_division_equations; lia).
  pose proof (Z.div_mod (n - s) i ltac:(lia)) as Hdm.
  pose proof (Z.mod_pos_bound (n - s) i ltac:(lia)) as Hb.
  set (q := (n - s) / i) in *. rewrite Ei, E.
  split; [nia|]. split; [nia|].
  replace (s * 1000 + (q + 1) * (i * 1000) - s * 1000) with ((q + 1) * (i * 1000)) by lia.
  apply Z.mod_mul. lia.
Qed.

Lemma withNext_slot j now :
  valid_job j -> next j <= now -> unix now <= 253402300799 ->
  interval j <= max_int64 ->
  withNext j now = NewJob (kind j) (runtimePath j) (interval j) (start j) (next_slot j now).
Proof.
  intros Hv Hnow Hmax H64. unfold withNext.
  destruct (Z.ltb_spec now (next j)); [lia|]. f_equal.
  destruct Hv as [_ _ _ Hi Hm Hs Hn Ho _].
  pose proof (micro_time_unix _ Hs) as Us. pose proof (micro_time_unix _ Hn) as Un.
  assert (Unow : -62135596800 <= unix now <= 253402300799).
  { split; [|done]. unfold unix, giga in *. Z.to_euclidean_division_equations. lia. }
  rewrite unix_micro_diff by done.
  pose proof (micro_time_exact _ Hs) as Es.
  pose proof (micro_interval _ Hi Hm) as Ei.
  assert (Emi : microseconds (interval j) = interval j / 1000)
    by (unfold microseconds, go_div; rewrite Z.quot_div_nonneg by lia; done).
  assert (Eus : unix_micro (start j) = start j / 1000) by by apply unix_micro_exact.
  rewrite Emi, Eus in *. unfold next_slot, of_unix_micro.
  set (i := interval j / 1000) in *. set (s := start j / 1000) in *.
  assert (Hsn : 0 <= now / 1000 - s <= 316000000000000000).
  { unfold s, unix, giga in *. Z.to_euclidean_division_equations. lia. }
  set (d := now / 1000 - s) in *.
  unfold go_div. rewrite Z.quot_div_nonneg by lia.
  assert (Hq : 0 <= d / i <= d) by (Z.to_euclidean_division_equations; nia).
  assert (Hqi : 0 <= d / i * i <= d) by (Z.to_euclidean_division_equations; nia).
  assert (His : i <= 9223372036854775) by (unfold i, max_int64 in *; Z.to_euclidean_division_equations; lia).
  assert (Hsb : -62135596800000000 <= s <= 253402300799999999).
  { unfold s, unix, giga in *. Z.to_euclidean_division_equations. lia. }
  rewrite (wrap64_id (d / i + 1)) by (unfold in_int64, min_int64, max_int64; lia).
  rewrite (wrap64_id ((d / i + 1) * i)) by (unfold in_int64, min_int64, max_int64; lia).
  rewrite wrap64_id by (unfold in_int64, min_int64, max_int64; lia).
  lia.
Qed.

Lemma later_micro_time s t :
  micro_time s -> s <= t -> t mod 1000 = 0 -> unix t <= 253402300799 -> micro_time t.
Proof.
  intros (H1 & H2 & H3) Hle Hm Hmax.
  assert (Hu : -62135596800 <= unix t).
  { apply year_unix_bound in H3. unfold unix, giga in *. Z.to_euclidean_division_equations. lia. }
  split; [|split].
  - intros ->. apply H1. apply year_unix_bound in H3.
    unfold zero_time, unix, nanosecond, giga in *. Z.to_euclidean_division_equations. lia.
  - unfold nanosecond, giga in *. Z.to_euclidean_division_equations. lia.
  - apply unix_bound_year. lia.
Qed.

Lemma micro_time_mod t : micro_time t -> t mod 1000 = 0.
Proof.
  intros (_ & H & _). unfold nanosecond, giga in H. Z.to_euclidean_division_equations. lia.
Qed.

Lemma slot_valid j now :
  valid_job j -> next j <= now -> unix (next_slot j now) <= 253402300799 ->
  valid_job (MkJob (kind j) (runtimePath j) (interval j) (start j) (next_slot j now)).
Proof.
  intros Hv Hnow Hmax. pose proof (next_slot_after j now Hv Hnow) as (H1 & H2 & H3).
  destruct Hv as [Hk Hp Hpm Hi Hm Hs Hn Ho Ha].
  constructor; cbn; try done; [|lia].
  apply (later_micro_time (start j)); [done|lia| |done].
  apply micro_time_mod in Hs. unfold next_slot. revert Hs Hm. clear.
  generalize ((now / 1000 - start j / 1000) / (interval j / 1000) + 1). intros k Hs Hi.
  rewrite Z.add_mod, Z.mul_mod, Hs, Hi, Z.mul_0_r by lia. done.
Qed.
