(* ===== verification/PickleReader.v ===== *)
(** * The bounded Pickle reader ([internal/scheduler/pickle.go], [pickle_reader.go])

    The opcode machine that reads APScheduler job states.  Dictionaries and
    class instances are Go maps and pointers, shared between the stack, the
    memo and other values, so they live in a heap and values refer to them. *)

From S2P Require Import Prelude.
From S2P Require Import GoStrings.
From S2P Require Import GoTime.
From S2P Require Import SchedJob.

(** ** Limits *)

Definition maxPickleBytes : Z := 64 * 1024.
Definition maxPickleOpcodes : nat := 4096.
Definition maxPickleMemo : Z := 512.
Definition maxPickleDepth : nat := 64.

(** ** Values *)

Record pickleGlobal := Global { g_module : string; g_name : string }.

#[export] Instance pickle_global_eq_dec : EqDecision pickleGlobal.
Proof. solve_decision. Defined.

Record pickleTimedelta := Timedelta { td_days : Z; td_seconds : Z; td_micros : Z }.

#[export] Instance pickle_timedelta_eq_dec : EqDecision pickleTimedelta.
Proof. solve_decision. Defined.

Abbreviation loc := nat (only parsing).

Inductive pickle_value :=
| VNone
| VBool (b : bool)
| VInt (z : Z)
| VStr (s : string)
| VBytes (bs : bytes)
| VTuple (vs : list pickle_value)
| VGlobal (g : pickleGlobal)
| VDict (l : loc)            (** [map[string]any] *)
| VObject (l : loc)          (** [*pickleObject] *)
| VDelta (d : pickleTimedelta)
| VUTC
| VTime (t : time).

(** Heap cells; the state of an instance is a reference to a map, [None] when nil. *)
Inductive cell :=
| CDict (m : gmap string pickle_value)
| CObject (class : pickleGlobal) (state : option loc).

Abbreviation heap := (list cell).

Definition dict_at (h : heap) (l : loc) : gmap string pickle_value :=
  match h !! l with Some (CDict m) => m | _ => ∅ end.

Definition object_class (h : heap) (l : loc) : option pickleGlobal :=
  match h !! l with Some (CObject c _) => Some c | _ => None end.

(** The fields of an instance: reading a nil map finds nothing. *)
Definition object_state (h : heap) (l : loc) : gmap string pickle_value :=
  match h !! l with Some (CObject _ (Some d)) => dict_at h d | _ => ∅ end.

Definition IntervalTrigger : pickleGlobal :=
  Global "apscheduler.triggers.interval" "IntervalTrigger".
Definition datetime_timedelta : pickleGlobal := Global "datetime" "timedelta".
Definition datetime_timezone : pickleGlobal := Global "datetime" "timezone".
Definition datetime_datetime : pickleGlobal := Global "datetime" "datetime".

Definition allowedGlobal (g : pickleGlobal) : bool :=
  bool_decide (g = IntervalTrigger) || bool_decide (g = datetime_timezone)
  || bool_decide (g = datetime_timedelta) || bool_decide (g = datetime_datetime).

(** ** The parser state

    [rest] is [data[position:]].  [stack] and [marks] are the Go slices read
    from their end: the head of the list is the last element of the slice. *)
Record pickleParser := Parser {
  rest : bytes;
  position : Z;
  protocol : Z;
  opcodes : nat;
  stack : list pickle_value;
  marks : list nat;
  memo : list pickle_value;
  frameEnd : Z;
  cells : heap
}.

Definition set_rest r p (s : pickleParser) : pickleParser :=
  Parser r p (protocol s) (opcodes s) (stack s) (marks s) (memo s) (frameEnd s) (cells s).
Definition set_stack k (s : pickleParser) : pickleParser :=
  Parser (rest s) (position s) (protocol s) (opcodes s) k (marks s) (memo s) (frameEnd s) (cells s).
Definition set_marks m (s : pickleParser) : pickleParser :=
  Parser (rest s) (position s) (protocol s) (opcodes s) (stack s) m (memo s) (frameEnd s) (cells s).
Definition set_memo m (s : pickleParser) : pickleParser :=
  Parser (rest s) (position s) (protocol s) (opcodes s) (stack s) (marks s) m (frameEnd s) (cells s).
Definition set_frame f (s : pickleParser) : pickleParser :=
  Parser (rest s) (position s) (protocol s) (opcodes s) (stack s) (marks s) (memo s) f (cells s).
Definition set_cells h (s : pickleParser) : pickleParser :=
  Parser (rest s) (position s) (protocol s) (opcodes s) (stack s) (marks s) (memo s) (frameEnd s) h.
Definition set_protocol p (s : pickleParser) : pickleParser :=
  Parser (rest s) (position s) p (opcodes s) (stack s) (marks s) (memo s) (frameEnd s) (cells s).
Definition tick (s : pickleParser) : pickleParser :=
  Parser (rest s) (position s) (protocol s) (S (opcodes s)) (stack s) (marks s) (memo s)
    (frameEnd s) (cells s).

(** Parser actions: state passing with early return. *)
Definition P (A : Type) : Type := pickleParser -> res (A * pickleParser).

Definition ret {A} (a : A) : P A := fun s => Ok (a, s).
Definition andThen {A B} (m : P A) (k : A -> P B) : P B :=
  fun s => match m s with Ok (a, s') => k a s' | Err e => Err e end.
Definition throw {A} (detail : string) : P A := fun _ => invalidState detail.
Definition gets {A} (f : pickleParser -> A) : P A := fun s => Ok (f s, s).
Definition modify (f : pickleParser -> pickleParser) : P unit := fun s => Ok (tt, f s).
Definition ensure (b : bool) (detail : string) : P unit := if b then ret tt else throw detail.
Definition lift {A} (r : res A) : P A := fun s => let* a := r in Ok (a, s).

Notation "'do' x <- m ; k" := (andThen m (fun x => k))
  (at level 10, x name, m at level 200, k at level 200) : go_scope.
Notation "'do' ' p <- m ; k" := (andThen m (fun x => match x with p => k end))
  (at level 10, p strict pattern, m at level 200, k at level 200) : go_scope.
Notation "'then' m ; k" := (andThen m (fun _ => k))
  (at level 10, m at level 200, k at level 200) : go_scope.

(** ** Bounded reads *)

(** Little-endian value of a byte sequence. *)
Fixpoint le_decode (bs : bytes) : Z :=
  match bs with
  | [] => 0
  | b :: r => byteZ b + 256 * le_decode r
  end.

Definition p_byte : P Z := fun s =>
  match rest s with
  | [] => invalidState "truncated Pickle"
  | b :: r => Ok (byteZ b, set_rest r (position s + 1) s)
  end.

Definition p_bytesLength (length : Z) : P bytes := fun s =>
  if (Z.of_nat (List.length (rest s)) <? length) || (maxPickleBytes <? length)
  then invalidState "truncated or oversized Pickle value"
  else let n := Z.to_nat length in
       Ok (take n (rest s), set_rest (drop n (rest s)) (position s + length) s).

(** [bytes(length int)] converts to [uint64] first. *)
Definition p_bytes (length : Z) : P bytes := p_bytesLength (length mod two64).

Definition p_uint16 : P Z := do v <- p_bytes 2; ret (le_decode v).
Definition p_uint32 : P Z := do v <- p_bytes 4; ret (le_decode v).
Definition p_uint64 : P Z := do v <- p_bytes 8; ret (le_decode v).

Definition p_stringLength (length : Z) : P string :=
  do v <- p_bytesLength length;
  then ensure (utf8_valid v) "Pickle Unicode value is invalid UTF-8";
  ret (string_of v).

Definition p_string (length : Z) : P string := p_stringLength (length mod two64).

(** Sign extension of the last byte to a little-endian [int64]. *)
Definition sign_extend (value : bytes) : Z :=
  let fill := match last value with
              | Some b => if Z.land (byteZ b) 128 =? 0 then Zbyte 0 else Zbyte 255
              | None => Zbyte 0
              end in
  wrap64 (le_decode (value ++ replicate (8 - length value) fill)).

Definition p_long (length : Z) : P Z :=
  then ensure ((1 <=? length) && (length <=? 8)) "Pickle integer exceeds int64";
  do v <- p_bytes length;
  ret (sign_extend v).

(** ** Stack operations *)

Definition push (v : pickle_value) : P unit := modify (fun s => set_stack (v :: stack s) s).

Definition pop : P pickle_value := fun s =>
  match stack s with
  | [] => invalidState "Pickle stack underflow"
  | v :: k => Ok (v, set_stack k s)
  end.

(** A fresh heap cell and its location. *)
Definition alloc (c : cell) : P loc := fun s => Ok (length (cells s), set_cells (cells s ++ [c]) s).

Definition popStringPair : P (string * string) :=
  do nameValue <- pop;
  do moduleValue <- pop;
  match nameValue, moduleValue with
  | VStr name, VStr module => ret (name, module)
  | _, _ => throw "STACK_GLOBAL requires Unicode names"
  end.

Definition popTupleGlobal : P (list pickle_value * pickleGlobal) :=
  do argsValue <- pop;
  do callableValue <- pop;
  match argsValue, callableValue with
  | VTuple args, VGlobal callable => ret (args, callable)
  | _, _ => throw "Pickle constructor operands differ"
  end.

Definition fixedTuple (size : nat) : P unit := fun s =>
  if (length (stack s) <? size)%nat then invalidState "Pickle tuple stack underflow"
  else Ok (tt, set_stack (VTuple (rev (take size (stack s))) :: drop size (stack s)) s).

(** Pops the last mark; the elements above it, in slice order, and the rest. *)
Definition popMark (detail : string) : P nat := fun s =>
  match marks s with
  | [] => invalidState detail
  | m :: ms => Ok (m, set_marks ms s)
  end.

Definition above (mark : nat) (k : list pickle_value) : list pickle_value :=
  rev (take (length k - mark) k).
Definition below (mark : nat) (k : list pickle_value) : list pickle_value :=
  drop (length k - mark) k.

Definition markTuple : P unit :=
  do mark <- popMark "Pickle tuple has no mark";
  do k <- gets stack;
  then ensure (mark <=? length k)%nat "Pickle tuple mark is outside the stack";
  modify (fun s => set_stack (VTuple (above mark k) :: below mark k) s).

(** The loop of [setItems] over [key, value, key, value, ...]. *)
Fixpoint set_pairs (items : list pickle_value) (target : gmap string pickle_value)
  : res (gmap string pickle_value) :=
  match items with
  | key :: value :: more =>
      match key with
      | VStr k =>
          match target !! k with
          | Some _ => invalidState "Pickle dictionary contains duplicate keys"
          | None => set_pairs more (<[k := value]> target)
          end
      | _ => invalidState "Pickle dictionary key is not Unicode"
      end
  | _ => Ok target
  end.

Definition write_dict (l : loc) (m : gmap string pickle_value) : P unit :=
  modify (fun s => set_cells (<[l := CDict m]> (cells s)) s).

Definition setItems : P unit :=
  do mark <- popMark "Pickle SETITEMS has no mark";
  do k <- gets stack;
  then ensure ((1 <=? mark) && (mark <=? length k) && Nat.even (length k - mark))%nat
    "Pickle SETITEMS operands differ";
  match below mark k with
  | VDict l :: _ =>
      do h <- gets cells;
      do m <- lift (set_pairs (above mark k) (dict_at h l));
      then write_dict l m;
      modify (fun s => set_stack (below mark k) s)
  | _ => throw "Pickle SETITEMS target is not a dictionary"
  end.

Definition setItem : P unit :=
  do k <- gets stack;
  then ensure (3 <=? length k)%nat "Pickle SETITEM stack underflow";
  do value <- pop;
  do keyValue <- pop;
  do k' <- gets stack;
  match k', keyValue with
  | VDict l :: _, VStr key =>
      do h <- gets cells;
      match dict_at h l !! key with
      | Some _ => throw "Pickle dictionary contains duplicate keys"
      | None => write_dict l (<[key := value]> (dict_at h l))
      end
  | _, _ => throw "Pickle SETITEM operands differ"
  end.

Definition memoize (index : Z) : P unit := fun s =>
  match stack s with
  | v :: _ =>
      let n := Z.of_nat (length (memo s)) in
      if (index <? 0) || (maxPickleMemo <=? index)
      then invalidState "Pickle memo limit or stack violation"
      else if n <? index then invalidState "Pickle memo index is sparse"
      else if index =? n then Ok (tt, set_memo (memo s ++ [v]) s)
      else Ok (tt, set_memo (<[Z.to_nat index := v]> (memo s)) s)
  | [] => invalidState "Pickle memo limit or stack violation"
  end.

Definition getMemo (index : Z) : P unit := fun s =>
  if (index <? 0) then invalidState "Pickle memo reference is invalid"
  else match memo s !! Z.to_nat index with
       | Some v => Ok (tt, set_stack (v :: stack s) s)
       | None => invalidState "Pickle memo reference is invalid"
       end.

(** ** REDUCE: interpreted constructors *)

Definition decodePythonDatetime (value : bytes) : res time :=
  match value with
  | [b0; b1; b2; b3; b4; b5; b6; b7; b8; b9] =>
      require (Z.land (byteZ b2) 128 =? 0)
        else EInvalidJobState "datetime binary state is invalid" in
      let year' := byteZ b0 * 256 + byteZ b1 in
      let month' := byteZ b2 in
      let day' := byteZ b3 in
      let hour' := byteZ b4 in
      let minute' := byteZ b5 in
      let second' := byteZ b6 in
      let microsecond :=
        Z.lor (Z.lor (Z.shiftl (byteZ b7) 16) (Z.shiftl (byteZ b8) 8)) (byteZ b9) in
      let result := go_date year' month' day' hour' minute' second' (microsecond * 1000) in
      require (year (civil_of result) =? year') && (month (civil_of result) =? month')
        && (day (civil_of result) =? day') && (hour result =? hour')
        && (minute result =? minute') && (second result =? second')
        && (microsecond <? 1000000)
        else EInvalidJobState "datetime binary fields are invalid" in
      Ok result
  | _ => invalidState "datetime binary state is invalid"
  end.

Definition safeReduce (callable : pickleGlobal) (args : list pickle_value) : res pickle_value :=
  if bool_decide (callable = datetime_timedelta) then
    match args with
    | [a0; a1; a2] =>
        match a0, a1, a2 with
        | VInt days, VInt seconds, VInt micros =>
            require negb ((seconds <? 0) || (86400 <=? seconds) || (micros <? 0)
                          || (1000000 <=? micros))
              else EInvalidJobState "timedelta arguments are invalid" in
            Ok (VDelta (Timedelta days seconds micros))
        | _, _, _ => invalidState "timedelta arguments are invalid"
        end
    | _ => invalidState "timedelta arguments differ"
    end
  else if bool_decide (callable = datetime_timezone) then
    match args with
    | [a0] =>
        match a0 with
        | VDelta delta =>
            require bool_decide (delta = Timedelta 0 0 0)
              else EInvalidJobState "only UTC timezone is allowed" in
            Ok VUTC
        | _ => invalidState "only UTC timezone is allowed"
        end
    | _ => invalidState "timezone arguments differ"
    end
  else if bool_decide (callable = datetime_datetime) then
    match args with
    | [a0; a1] =>
        match a0, a1 with
        | VBytes packed, VUTC => let* t := decodePythonDatetime packed in Ok (VTime t)
        | _, _ => invalidState "datetime must be UTC"
        end
    | _ => invalidState "datetime arguments differ"
    end
  else invalidState "Pickle REDUCE target is not allowed".

(** ** The opcode machine *)

(** The case labels of the opcode switch. *)
Inductive opcode :=
| PROTO | FRAME | EMPTY_DICT | EMPTY_TUPLE | MARK | NONE | NEWTRUE | NEWFALSE
| BININT1 | BININT2 | BININT | LONG1 | LONG4
| SHORT_BINUNICODE | BINUNICODE | BINUNICODE8 | SHORT_BINBYTES | BINBYTES | BINBYTES8
| STACK_GLOBAL | NEWOBJ | REDUCE | BUILD | TUPLE1 | TUPLE2 | TUPLE3 | TUPLE
| SETITEMS | SETITEM | MEMOIZE | BINPUT | LONG_BINPUT | BINGET | LONG_BINGET | STOP.

Definition opcode_of (b : Z) : option opcode :=
  match b with
  | 128 => Some PROTO | 149 => Some FRAME | 125 => Some EMPTY_DICT | 41 => Some EMPTY_TUPLE
  | 40 => Some MARK | 78 => Some NONE | 136 => Some NEWTRUE | 137 => Some NEWFALSE
  | 75 => Some BININT1 | 77 => Some BININT2 | 74 => Some BININT
  | 138 => Some LONG1 | 139 => Some LONG4
  | 140 => Some SHORT_BINUNICODE | 88 => Some BINUNICODE | 141 => Some BINUNICODE8
  | 67 => Some SHORT_BINBYTES | 66 => Some BINBYTES | 142 => Some BINBYTES8
  | 147 => Some STACK_GLOBAL | 129 => Some NEWOBJ | 82 => Some REDUCE | 98 => Some BUILD
  | 133 => Some TUPLE1 | 134 => Some TUPLE2 | 135 => Some TUPLE3 | 116 => Some TUPLE
  | 117 => Some SETITEMS | 115 => Some SETITEM | 148 => Some MEMOIZE
  | 113 => Some BINPUT | 114 => Some LONG_BINPUT | 104 => Some BINGET | 106 => Some LONG_BINGET
  | 46 => Some STOP
  | _ => None
  end.

(** BUILD: the popped map becomes the state of the instance below it. *)
Definition build : P unit :=
  do state <- pop;
  do k <- gets stack;
  do h <- gets cells;
  match k with
  | [] => throw "BUILD has no instance"
  | VObject o :: _ =>
      match state, h !! o with
      | VDict d, Some (CObject class _) =>
          then ensure (bool_decide (class = IntervalTrigger)) "Pickle BUILD target is not allowed";
          modify (fun s => set_cells (<[o := CObject class (Some d)]> (cells s)) s)
      | _, _ => throw "Pickle BUILD target is not allowed"
      end
  | _ => throw "Pickle BUILD target is not allowed"
  end.

(** The cases of the switch from STACK_GLOBAL on, which work on the values below
    them; [Some v] is the [return p.stack[0], nil] of STOP.  The other opcodes
    are [exec]'s. *)
Definition exec_stack (op : opcode) : P (option pickle_value) :=
  match op with
  | STACK_GLOBAL =>
      do ' (name, module) <- popStringPair;
      then ensure (allowedGlobal (Global module name)) "Pickle global target is not allowed";
      then push (VGlobal (Global module name)); ret None
  | NEWOBJ =>
      do ' (args, class) <- popTupleGlobal;
      then ensure (bool_decide (class = IntervalTrigger) && (length args =? 0)%nat)
        "Pickle NEWOBJ target is not allowed";
      do l <- alloc (CObject class None); then push (VObject l); ret None
  | REDUCE =>
      do ' (args, callable) <- popTupleGlobal;
      do v <- lift (safeReduce callable args);
      then push v; ret None
  | BUILD => then build; ret None
  | TUPLE1 => then fixedTuple 1; ret None
  | TUPLE2 => then fixedTuple 2; ret None
  | TUPLE3 => then fixedTuple 3; ret None
  | TUPLE => then markTuple; ret None
  | SETITEMS => then setItems; ret None
  | SETITEM => then setItem; ret None
  | MEMOIZE => do m <- gets memo; then memoize (Z.of_nat (length m)); ret None
  | BINPUT => do i <- p_byte; then memoize i; ret None
  | LONG_BINPUT => do i <- p_uint32; then memoize i; ret None
  | BINGET => do i <- p_byte; then getMemo i; ret None
  | LONG_BINGET => do i <- p_uint32; then getMemo i; ret None
  | STOP => fun s =>
      match stack s with
      | [v] =>
          if negb ((protocol s =? 0) || negb (length (marks s) =? 0)%nat
                   || negb (length (rest s) =? 0)%nat
                   || ((0 <=? frameEnd s) && negb (position s =? frameEnd s)))
          then Ok (Some v, s)
          else invalidState "Pickle did not terminate as one framed value"
      | _ => invalidState "Pickle did not terminate as one framed value"
      end
  | _ => ret None
  end.

(** One case of the switch. *)
Definition exec (op : opcode) : P (option pickle_value) :=
  match op with
  | PROTO =>
      do proto <- p_byte;
      do n <- gets opcodes;
      then ensure ((n =? 1)%nat && ((proto =? 4) || (proto =? 5)))
        "only Pickle protocol 4/5 is allowed";
      then modify (set_protocol proto); ret None
  | FRAME =>
      do proto <- gets protocol;
      do fe <- gets frameEnd;
      then ensure (negb ((proto <? 4) || (0 <=? fe))) "invalid Pickle frame";
      do len <- p_uint64;
      do r <- gets rest;
      then ensure (negb (Z.of_nat (length r) <? len)) "truncated Pickle frame";
      do p <- gets position;
      then modify (set_frame (p + len)); ret None
  | EMPTY_DICT => do l <- alloc (CDict ∅); then push (VDict l); ret None
  | EMPTY_TUPLE => then push (VTuple []); ret None
  | MARK =>
      do ms <- gets marks;
      then ensure (length ms <? maxPickleDepth)%nat "Pickle nesting limit exceeded";
      then modify (fun s => set_marks (length (stack s) :: marks s) s); ret None
  | NONE => then push VNone; ret None
  | NEWTRUE => then push (VBool true); ret None
  | NEWFALSE => then push (VBool false); ret None
  | BININT1 => do v <- p_byte; then push (VInt v); ret None
  | BININT2 => do v <- p_uint16; then push (VInt v); ret None
  | BININT => do v <- p_uint32; then push (VInt (wrap32 v)); ret None
  | LONG1 => do n <- p_byte; do v <- p_long n; then push (VInt v); ret None
  | LONG4 =>
      do n <- p_uint32;
      then ensure (negb (8 <? n)) "Pickle integer exceeds int64";
      do v <- p_long n; then push (VInt v); ret None
  | SHORT_BINUNICODE => do n <- p_byte; do v <- p_string n; then push (VStr v); ret None
  | BINUNICODE => do n <- p_uint32; do v <- p_stringLength n; then push (VStr v); ret None
  | BINUNICODE8 => do n <- p_uint64; do v <- p_stringLength n; then push (VStr v); ret None
  | SHORT_BINBYTES => do n <- p_byte; do v <- p_bytes n; then push (VBytes v); ret None
  | BINBYTES => do n <- p_uint32; do v <- p_bytesLength n; then push (VBytes v); ret None
  | BINBYTES8 => do n <- p_uint64; do v <- p_bytesLength n; then push (VBytes v); ret None
  | _ => exec_stack op
  end.

(** The frame check at the head of the loop. *)
Definition checkFrame : P unit := fun s =>
  if 0 <=? frameEnd s then
    if frameEnd s <? position s then invalidState "Pickle frame boundary was exceeded"
    else if position s =? frameEnd s then Ok (tt, set_frame (-1) s)
    else Ok (tt, s)
  else Ok (tt, s).

(** One iteration of the loop of [parsePickle]. *)
Definition iteration : P (option pickle_value) :=
  do n <- gets opcodes;
  then ensure (n <? maxPickleOpcodes)%nat "Pickle opcode limit exceeded";
  then checkFrame;
  do b <- p_byte;
  then modify tick;
  match opcode_of b with
  | None => throw ("Pickle opcode 0x" +:+ hex2 b +:+ " is not allowed")
  | Some op =>
      do out <- exec op;
      match out with
      | Some v => ret (Some v)
      | None =>
          do k <- gets stack;
          then ensure (length k <=? maxPickleOpcodes)%nat "Pickle stack limit exceeded";
          ret None
      end
  end.

Fixpoint run (fuel : nat) (s : pickleParser) : res (pickle_value * heap) :=
  match fuel with
  | O => Err EFuel
  | S n =>
      let* ' (out, s') := iteration s in
      match out with
      | Some v => Ok (v, cells s')
      | None => run n s'
      end
  end.

(** The opcode limit bounds the iterations, so this fuel is never used up. *)
Definition parse_fuel : nat := S maxPickleOpcodes.

Definition initial_parser (blob : bytes) : pickleParser := Parser blob 0 0 0 [] [] [] (-1) [].

Definition parsePickle (blob : bytes) : res (pickle_value * heap) :=
  if (length blob =? 0)%nat || (maxPickleBytes <? Z.of_nat (length blob))
  then invalidState "Pickle exceeds the supported size"
  else run parse_fuel (initial_parser blob).
