(* ===== verification/PickleWriter.v ===== *)
(** * The Pickle writer ([internal/scheduler/pickle_writer.go]) and [encodeJobState]

    Each writer method is the bytes it appends to [w.data]. *)

From S2P Require Import Prelude.
From S2P Require Import GoStrings.
From S2P Require Import GoTime.
From S2P Require Import SchedJob.
From S2P Require Import PickleReader.

(** Little-endian encoding of the low [n] bytes of an integer
    ([binary.LittleEndian.PutUintN]). *)
Fixpoint le_encode (n : nat) (z : Z) : bytes :=
  match n with
  | O => []
  | S m => Zbyte z :: le_encode m (z / 256)
  end.

Definition w_opcode (v : Z) : bytes := [Zbyte v].
Definition w_uint16 (v : Z) : bytes := le_encode 2 v.
Definition w_uint32 (v : Z) : bytes := le_encode 4 v.

Definition w_string (value : string) : bytes :=
  let bs := bytes_of value in
  let n := Z.of_nat (length bs) in
  if n <=? 255 then [Zbyte 140; Zbyte n] ++ bs
  else [Zbyte 88] ++ w_uint32 n ++ bs.

Definition w_bytes (value : bytes) : bytes :=
  let n := Z.of_nat (length value) in
  if n <=? 255 then [Zbyte 67; Zbyte n] ++ value
  else [Zbyte 66] ++ w_uint32 n ++ value.

(** The number of significant bytes of a two's complement buffer. *)
Fixpoint significant (buffer : bytes) (length : nat) : nat :=
  match length with
  | S ((S m) as shorter) =>
      match buffer !! shorter, buffer !! m with
      | Some last, Some previous =>
          if ((byteZ last =? 0) && (Z.land (byteZ previous) 128 =? 0))
             || ((byteZ last =? 255) && negb (Z.land (byteZ previous) 128 =? 0))
          then significant buffer shorter
          else length
      | _, _ => length
      end
  | _ => length
  end.

Definition w_integer (value : Z) : bytes :=
  if (0 <=? value) && (value <=? 255) then [Zbyte 75; Zbyte value]
  else if (0 <=? value) && (value <=? 65535) then [Zbyte 77] ++ w_uint16 value
  else if (min_int32 <=? value) && (value <=? max_int32) then [Zbyte 74] ++ w_uint32 value
  else
    let buffer := le_encode 8 value in
    let n := significant buffer 8 in
    [Zbyte 138; Zbyte (Z.of_nat n)] ++ take n buffer.

Definition w_global (g : pickleGlobal) : bytes :=
  w_string (g_module g) ++ w_string (g_name g) ++ w_opcode 147.

Definition w_timedelta (d : duration) : bytes :=
  let micros := microseconds d in
  let days := go_div micros (86400 * 1000000) in
  let micros := micros - days * 86400 * 1000000 in
  let seconds := go_div micros 1000000 in
  let micros := micros - seconds * 1000000 in
  w_global datetime_timedelta ++ w_integer days ++ w_integer seconds ++ w_integer micros
    ++ w_opcode 135 ++ w_opcode 82.

Definition w_utc : bytes :=
  w_global datetime_timezone ++ w_timedelta 0 ++ w_opcode 133 ++ w_opcode 82.

(** The ten packed bytes of a Python [datetime]. *)
Definition packed_datetime (value : time) : bytes :=
  let microsecond := go_div (nanosecond value) 1000 in
  [Zbyte (Z.shiftr (year (civil_of value)) 8); Zbyte (year (civil_of value));
   Zbyte (month (civil_of value)); Zbyte (day (civil_of value));
   Zbyte (hour value); Zbyte (minute value); Zbyte (second value);
   Zbyte (Z.shiftr microsecond 16); Zbyte (Z.shiftr microsecond 8); Zbyte microsecond].

Definition w_datetime (value : time) : bytes :=
  w_global datetime_datetime ++ w_bytes (packed_datetime value) ++ w_utc
    ++ w_opcode 134 ++ w_opcode 82.

Definition w_intervalTrigger (job : Job) : bytes :=
  w_global IntervalTrigger ++ w_opcode 41 ++ w_opcode 129 ++ w_opcode 125 ++ w_opcode 40
  ++ w_string "version" ++ w_integer 2
  ++ w_string "timezone" ++ w_utc
  ++ w_string "start_date" ++ w_datetime (start job)
  ++ w_string "end_date" ++ w_opcode 78
  ++ w_string "interval" ++ w_timedelta (interval job)
  ++ w_string "jitter" ++ w_opcode 78
  ++ w_opcode 117 ++ w_opcode 98.

Definition job_state_bytes (i : identity) (job : Job) : bytes :=
  [Zbyte 128; Zbyte 5; Zbyte 125; Zbyte 40]
  ++ w_string "version" ++ w_integer 1
  ++ w_string "id" ++ w_string (id_of i)
  ++ w_string "func" ++ w_string (callable_of i)
  ++ w_string "trigger" ++ w_intervalTrigger job
  ++ w_string "executor" ++ w_string "default"
  ++ w_string "args" ++ w_string (runtimePath job) ++ w_opcode 133
  ++ w_string "kwargs" ++ w_opcode 125
  ++ w_string "name" ++ w_string (name_of i)
  ++ w_string "misfire_grace_time" ++ w_opcode 78
  ++ w_string "coalesce" ++ w_opcode 136
  ++ w_string "max_instances" ++ w_integer 1
  ++ w_string "next_run_time" ++ w_datetime (next job)
  ++ w_opcode 117 ++ w_opcode 46.

Definition encodeJobState (job : Job) : res bytes :=
  let* validated := NewJob (kind job) (runtimePath job) (interval job) (start job) (next job) in
  let* i := jobIdentity (kind validated) in
  let data := job_state_bytes i validated in
  require negb (maxPickleBytes <? Z.of_nat (length data))
    else EInvalidJobState "encoded Pickle exceeds size limit" in
  Ok data.

(** ** Integers *)

Lemma length_le_encode n z : length (le_encode n z) = n.
Proof. revert z. induction n; simpl; auto. Qed.

Lemma le_decode_encode n z : le_decode (le_encode n z) = z mod 256 ^ Z.of_nat n.
Proof.
  revert z. induction n as [|n IH]; intros z; [by rewrite Z.mod_1_r|].
  cbn [le_encode le_decode]. rewrite byteZ_Zbyte, IH.
  rewrite Nat2Z.inj_succ, Z.pow_succ_r by lia.
  rewrite Z.rem_mul_r by lia. lia.
Qed.

Lemma le_decode_bound bs : 0 <= le_decode bs < 256 ^ Z.of_nat (length bs).
Proof.
  induction bs as [|b bs IH]; cbn [le_decode length]; [done|].
  rewrite Nat2Z.inj_succ, Z.pow_succ_r by lia. pose proof (byteZ_range b). lia.
Qed.

Lemma le_decode_app l1 l2 :
  le_decode (l1 ++ l2) = le_decode l1 + 256 ^ Z.of_nat (length l1) * le_decode l2.
Proof.
  induction l1 as [|b l1 IH]; cbn [app le_decode length]; [simpl; lia|].
  rewrite IH, Nat2Z.inj_succ, Z.pow_succ_r by lia. lia.
Qed.

(** The signed value of a two's complement byte sequence. *)
Definition negative (bs : bytes) : bool :=
  match last bs with Some b => negb (Z.land (byteZ b) 128 =? 0) | None => false end.
Definition signed (bs : bytes) : Z :=
  le_decode bs - (if negative bs then 256 ^ Z.of_nat (length bs) else 0).

Lemma land_128 b : negb (Z.land (byteZ b) 128 =? 0) = (128 <=? byteZ b).
Proof.
  pose proof (byteZ_range b) as Hb. change 128 with (2 ^ 7).
  assert (E : Z.testbit (byteZ b) 7 = (2 ^ 7 <=? byteZ b)).
  { destruct (Z.leb_spec (2 ^ 7) (byteZ b)).
    - apply Z.testbit_true; [lia|]. change (2 ^ 7) with 128 in *.
      Z.to_euclidean_division_equations. lia.
    - apply Z.testbit_false; [lia|]. change (2 ^ 7) with 128 in *.
      Z.to_euclidean_division_equations. lia. }
  rewrite <- E. destruct (Z.testbit (byteZ b) 7) eqn:Et.
  - apply negb_true_iff, Z.eqb_neq. intros H0.
    apply (f_equal (fun z => Z.testbit z 7)) in H0.
    by rewrite Z.land_spec, Et, Z.testbit_0_l in H0.
  - apply negb_false_iff, Z.eqb_eq. apply Z.bits_inj_iff'. intros k Hk.
    rewrite Z.land_spec, Z.testbit_0_l, Z.pow2_bits_eqb by lia.
    destruct (Z.eqb_spec 7 k) as [<-|]; [by rewrite Et|by rewrite andb_false_r].
Qed.

Lemma le_decode_replicate n b :
  le_decode (replicate n (Zbyte b)) * 255 = (b mod 256) * (256 ^ Z.of_nat n - 1).
Proof.
  induction n as [|n IH]; [simpl; lia|].
  cbn [replicate le_decode]. rewrite byteZ_Zbyte, Nat2Z.inj_succ, Z.pow_succ_r by lia. lia.
Qed.

Lemma signed_range bs :
  (1 <= length bs)%nat ->
  - 128 * 256 ^ (Z.of_nat (length bs) - 1) <= signed bs < 128 * 256 ^ (Z.of_nat (length bs) - 1).
Proof.
  intros Hl. destruct bs as [|b0 bs0] using rev_ind; [simpl in Hl; lia|]. clear IHbs0.
  unfold signed, negative. rewrite last_snoc, land_128, le_decode_app, length_app.
  cbn [length le_decode]. pose proof (le_decode_bound bs0) as Hb. pose proof (byteZ_range b0).
  replace (Z.of_nat (length bs0 + 1) - 1) with (Z.of_nat (length bs0)) by lia.
  replace (Z.of_nat (length bs0 + 1)) with (Z.succ (Z.of_nat (length bs0))) by lia.
  rewrite Z.pow_succ_r by lia. set (w := 256 ^ Z.of_nat (length bs0)) in *.
  destruct (Z.leb_spec 128 (byteZ b0)); nia.
Qed.

Lemma sign_extend_signed bs : (1 <= length bs <= 8)%nat -> sign_extend bs = signed bs.
Proof.
  intros Hl. pose proof (signed_range bs ltac:(lia)) as Hr.
  assert (Hw : in_int64 (signed bs)).
  { assert (256 ^ (Z.of_nat (length bs) - 1) <= 256 ^ 7) by (apply Z.pow_le_mono_r; lia).
    unfold in_int64, min_int64, max_int64. change (256 ^ 7) with 72057594037927936 in *. lia. }
  rewrite <- (wrap64_id _ Hw). unfold sign_extend, wrap64. f_equal.
  rewrite le_decode_app.
  assert (Hp : 256 ^ Z.of_nat (length bs) * 256 ^ Z.of_nat (8 - length bs) = two64).
  { rewrite <- Z.pow_add_r by lia.
    replace (Z.of_nat (length bs) + Z.of_nat (8 - length bs)) with 8 by lia. done. }
  unfold signed, negative. destruct (last bs) as [b|] eqn:El.
  2: { destruct bs; [simpl in Hl; lia | apply last_None in El; done]. }
  pose proof (land_128 b) as Hb.
  destruct (Z.land (byteZ b) 128 =? 0) eqn:E; cbn [negb].
  - pose proof (le_decode_replicate (8 - length bs) 0) as H0. rewrite Z.mod_0_l in H0 by lia.
    replace (le_decode (replicate (8 - length bs) (Zbyte 0))) with 0 by lia.
    by rewrite Z.mul_0_r, Z.add_0_r, Z.sub_0_r.
  - pose proof (le_decode_replicate (8 - length bs) 255) as H1.
    replace (le_decode (replicate (8 - length bs) (Zbyte 255)))
      with (256 ^ Z.of_nat (8 - length bs) - 1) by (change (255 mod 256) with 255 in H1; lia).
    rewrite Z.mul_sub_distr_l, Hp, Z.mul_1_r.
    replace (le_decode bs + (two64 - 256 ^ Z.of_nat (length bs)) + two63)
      with (le_decode bs - 256 ^ Z.of_nat (length bs) + two63 + 1 * two64) by lia.
    by rewrite Z.mod_add by done.
Qed.

Lemma significant_SS bs m :
  significant bs (S (S m)) =
  match bs !! S m, bs !! m with
  | Some last, Some previous =>
      if ((byteZ last =? 0) && (Z.land (byteZ previous) 128 =? 0))
         || ((byteZ last =? 255) && negb (Z.land (byteZ previous) 128 =? 0))
      then significant bs (S m)
      else S (S m)
  | _, _ => S (S m)
  end.
Proof. reflexivity. Qed.

Lemma significant_spec bs n :
  (1 <= n <= length bs)%nat ->
  (1 <= significant bs n <= n)%nat /\
  signed (take (significant bs n) bs) = signed (take n bs).
Proof.
  induction n as [|n IH]; intros Hn; [lia|].
  destruct n as [|m]; [by cbn; split; [lia|]|].
  rewrite significant_SS.
  destruct (lookup_lt_is_Some_2 bs (S m) ltac:(lia)) as [b Hb].
  destruct (lookup_lt_is_Some_2 bs m ltac:(lia)) as [p Hp].
  rewrite Hb, Hp.
  match goal with |- context [if ?c then _ else _] => destruct c eqn:Hc end; [|by split; [lia|]].
  destruct (IH ltac:(lia)) as [IH1 IH2]. split; [lia|]. rewrite IH2.
  rewrite (take_S_r bs (S m) b Hb), (take_S_r bs m p Hp).
  unfold signed, negative. rewrite !last_snoc, !land_128, !le_decode_app, !length_app.
  cbn [length le_decode]. rewrite length_take_le by lia.
  replace (Z.of_nat (m + 1)) with (Z.succ (Z.of_nat m)) by lia.
  replace (Z.of_nat (m + 1 + 1)) with (Z.succ (Z.succ (Z.of_nat m))) by lia.
  rewrite !Z.pow_succ_r by lia. set (w := 256 ^ Z.of_nat m).
  assert (Hland : (Z.land (byteZ p) 128 =? 0) = negb (128 <=? byteZ p)).
  { by rewrite <- land_128, negb_involutive. }
  rewrite Hland in Hc. pose proof (byteZ_range p).
  destruct (Z.leb_spec 128 (byteZ p)), (Z.leb_spec 128 (byteZ b)),
    (Z.eqb_spec (byteZ b) 0), (Z.eqb_spec (byteZ b) 255); cbn in Hc; try done; lia.
Qed.

Lemma signed_le_encode8 v : in_int64 v -> signed (le_encode 8 v) = v.
Proof.
  intros Hv. rewrite <- sign_extend_signed by (rewrite length_le_encode; lia).
  unfold sign_extend. rewrite length_le_encode. cbn [Nat.sub replicate]. rewrite app_nil_r.
  rewrite le_decode_encode. change (256 ^ Z.of_nat 8) with two64.
  unfold wrap64. rewrite Zplus_mod_idemp_l. by apply wrap64_id.
Qed.

(** ** Small bytes written by the encoder *)

#[global] Arguments Zbyte : simpl never.
#[global] Arguments le_encode : simpl never.
#[local] Arguments Nat.ltb : simpl never.
#[local] Arguments Nat.leb : simpl never.
#[local] Arguments Z.of_nat : simpl never.

(** ** Running the reader on written bytes

    [steps n s s'] says that [n] iterations of the reader lead from [s] to [s']. *)
Definition steps (n : nat) (s s' : pickleParser) : Prop :=
  forall fuel, run (n + fuel) s = run fuel s'.

Lemma steps_trans n m s1 s2 s3 : steps n s1 s2 -> steps m s2 s3 -> steps (n + m) s1 s3.
Proof. intros H1 H2 fuel. by rewrite <- Nat.add_assoc, H1, H2. Qed.

Lemma steps_one s s' : iteration s = Ok (None, s') -> steps 1 s s'.
Proof. intros H fuel. cbn [Nat.add run]. by rewrite H. Qed.

(** An unframed reader state in protocol 5. *)
Definition at_ (r : bytes) (pos : Z) (opc : nat) (stk : list pickle_value) (mks : list nat)
  (h : heap) : pickleParser := Parser r pos 5 opc stk mks [] (-1) h.

Lemma iteration_op b op tl pos opc stk mks h s' :
  opcode_of b = Some op -> 0 <= b < 256 -> (opc < 4096)%nat ->
  exec op (at_ tl (pos + 1) (S opc) stk mks h) = Ok (None, s') ->
  (length (stack s') <= 4096)%nat ->
  steps 1 (at_ (Zbyte b :: tl) pos opc stk mks h) s'.
Proof.
  intros Hop Hb Hopc Hex Hlen. apply steps_one. unfold iteration, andThen, gets, at_ in *. cbn.
  assert ((opc <? maxPickleOpcodes)%nat = true) as -> by by apply Nat.ltb_lt.
  cbn. rewrite byteZ_Zbyte_small, Hop by done. unfold modify, tick. cbn.
  rewrite Hex. apply Nat.leb_le in Hlen. unfold maxPickleOpcodes. by rewrite Hlen.
Qed.

(** [emits n enc v]: reading [enc] takes [n] opcodes and pushes [v]. *)
Definition emits (n : nat) (enc : bytes) (v : pickle_value) : Prop :=
  forall tl pos opc stk mks h,
    (length stk <= opc)%nat -> (opc + n <= 4096)%nat ->
    steps n (at_ (enc ++ tl) pos opc stk mks h)
      (at_ tl (pos + Z.of_nat (length enc)) (opc + n) (v :: stk) mks h).

Lemma p_bytesLength_ok (bs tl : bytes) pos opc stk mks h :
  Z.of_nat (length bs) <= maxPickleBytes ->
  p_bytesLength (Z.of_nat (length bs)) (at_ (bs ++ tl) pos opc stk mks h)
  = Ok (bs, at_ tl (pos + Z.of_nat (length bs)) opc stk mks h).
Proof.
  intros Hl. unfold p_bytesLength, at_. cbn [rest].
  rewrite length_app.
  destruct (Z.ltb_spec (Z.of_nat (length bs + length tl)) (Z.of_nat (length bs))); [lia|].
  destruct (Z.ltb_spec maxPickleBytes (Z.of_nat (length bs))); [lia|].
  cbn. by rewrite Nat2Z.id, take_app_length, drop_app_length.
Qed.

Lemma p_bytes_ok (bs tl : bytes) pos opc stk mks h :
  Z.of_nat (length bs) <= maxPickleBytes ->
  p_bytes (Z.of_nat (length bs)) (at_ (bs ++ tl) pos opc stk mks h)
  = Ok (bs, at_ tl (pos + Z.of_nat (length bs)) opc stk mks h).
Proof.
  intros Hl. unfold p_bytes. rewrite Z.mod_small; [by apply p_bytesLength_ok|].
  unfold maxPickleBytes, two64 in *. lia.
Qed.

Lemma p_uint_ok n (k : nat) tl pos opc stk mks h :
  Z.of_nat k <= maxPickleBytes ->
  p_bytes (Z.of_nat k) (at_ (le_encode k n ++ tl) pos opc stk mks h)
  = Ok (le_encode k n, at_ tl (pos + Z.of_nat k) opc stk mks h).
Proof.
  intros Hk. pose proof (p_bytes_ok (le_encode k n) tl pos opc stk mks h) as H.
  rewrite length_le_encode in H. auto.
Qed.

Lemma p_stringLength_ok s tl pos opc stk mks h :
  utf8_valid (bytes_of s) = true -> Z.of_nat (length (bytes_of s)) <= maxPickleBytes ->
  p_stringLength (Z.of_nat (length (bytes_of s))) (at_ (bytes_of s ++ tl) pos opc stk mks h)
  = Ok (s, at_ tl (pos + Z.of_nat (length (bytes_of s))) opc stk mks h).
Proof.
  intros Hu Hl. unfold p_stringLength, andThen. rewrite p_bytesLength_ok by done.
  unfold ensure. rewrite Hu. unfold ret. by rewrite string_of_list_ascii_of_string.
Qed.

(** Turns a goal [emits 1 (b :: args) v] into the execution of one opcode. *)
Lemma emits_op b op args v :
  opcode_of b = Some op -> 0 <= b < 256 ->
  (forall tl pos opc stk mks h,
     exec op (at_ (args ++ tl) pos opc stk mks h)
     = Ok (None, at_ tl (pos + Z.of_nat (length args)) opc (v :: stk) mks h)) ->
  emits 1 (Zbyte b :: args) v.
Proof.
  intros Hop Hb Hex tl pos opc stk mks h Hs Ho.
  replace (pos + Z.of_nat (length (Zbyte b :: args))) with (pos + 1 + Z.of_nat (length args))
    by (cbn [length]; lia).
  replace (opc + 1)%nat with (S opc) by lia.
  apply (iteration_op b op); [done|done|lia| |cbn; lia].
  apply Hex.
Qed.

Lemma p_byte_ok z tl pos opc stk mks h :
  0 <= z < 256 ->
  p_byte (at_ (Zbyte z :: tl) pos opc stk mks h) = Ok (z, at_ tl (pos + 1) opc stk mks h).
Proof. intros Hz. unfold p_byte, at_. cbn. by rewrite byteZ_Zbyte_small. Qed.

Lemma push_at v tl pos opc stk mks h :
  push v (at_ tl pos opc stk mks h) = Ok (tt, at_ tl pos opc (v :: stk) mks h).
Proof. reflexivity. Qed.

Lemma uint32_id n : 0 <= n < 4294967296 -> le_decode (le_encode 4 n) = n.
Proof. intros H. rewrite le_decode_encode. by apply Z.mod_small. Qed.

Lemma ok_at (out : option pickle_value) tl pos pos' opc stk mks h :
  pos = pos' -> Ok (E := sched_error) (out, at_ tl pos opc stk mks h)
                = Ok (out, at_ tl pos' opc stk mks h).
Proof. by intros ->. Qed.

Ltac solve_at :=
  apply ok_at; rewrite ?length_app, ?length_le_encode; cbn [length];
  rewrite ?length_app, ?length_le_encode; lia.

Ltac at_steps :=
  unfold andThen, ret;
  repeat first
    [ rewrite p_byte_ok by lia
    | rewrite push_at
    | progress cbn beta iota ].

Lemma emits_string s :
  utf8_valid (bytes_of s) = true -> Z.of_nat (length (bytes_of s)) <= maxPickleBytes ->
  emits 1 (w_string s) (VStr s).
Proof.
  intros Hu Hl. unfold w_string. set (n := Z.of_nat (length (bytes_of s))) in *.
  destruct (Z.leb_spec n 255).
  - apply (emits_op _ SHORT_BINUNICODE); [done|lia|].
    intros tl pos opc stk mks h. cbn [exec exec_stack app]. at_steps.
    unfold p_string. rewrite Z.mod_small by (unfold two64, maxPickleBytes in *; lia).
    unfold n. rewrite p_stringLength_ok by done. at_steps.
    solve_at.
  - apply (emits_op _ BINUNICODE); [done|lia|].
    intros tl pos opc stk mks h. cbn [exec exec_stack]. unfold p_uint32, w_uint32. at_steps.
    rewrite <- app_assoc, (p_uint_ok n 4) by done. cbn beta iota.
    rewrite uint32_id by (unfold maxPickleBytes in *; lia).
    unfold n. rewrite p_stringLength_ok by done. at_steps.
    solve_at.
Qed.

Lemma emits_bytes bs :
  Z.of_nat (length bs) <= maxPickleBytes -> emits 1 (w_bytes bs) (VBytes bs).
Proof.
  intros Hl. unfold w_bytes. set (n := Z.of_nat (length bs)) in *.
  destruct (Z.leb_spec n 255).
  - apply (emits_op _ SHORT_BINBYTES); [done|lia|].
    intros tl pos opc stk mks h. cbn [exec exec_stack app]. at_steps.
    unfold n. rewrite p_bytes_ok by done. at_steps.
    solve_at.
  - apply (emits_op _ BINBYTES); [done|lia|].
    intros tl pos opc stk mks h. cbn [exec exec_stack]. unfold p_uint32, w_uint32. at_steps.
    rewrite <- app_assoc, (p_uint_ok n 4) by done. cbn beta iota.
    rewrite uint32_id by (unfold maxPickleBytes in *; lia).
    unfold n. rewrite p_bytesLength_ok by done. at_steps.
    solve_at.
Qed.

Lemma emits_integer v : in_int64 v -> emits 1 (w_integer v) (VInt v).
Proof.
  intros Hv. unfold w_integer, min_int32, max_int32.
  destruct ((0 <=? v) && (v <=? 255)) eqn:E1.
  { boolify. apply (emits_op _ BININT1); [done|lia|]. intros. cbn [exec exec_stack app]. at_steps.
    done. }
  destruct ((0 <=? v) && (v <=? 65535)) eqn:E2.
  { boolify. apply (emits_op _ BININT2); [done|lia|]. intros. cbn [exec exec_stack]. unfold p_uint16, w_uint16.
    at_steps. rewrite (p_uint_ok v 2) by done. at_steps. rewrite le_decode_encode.
    rewrite Z.mod_small by (change (256 ^ Z.of_nat 2) with 65536; lia). by rewrite length_le_encode. }
  destruct ((-2147483648 <=? v) && (v <=? 2147483647)) eqn:E3.
  { boolify. apply (emits_op _ BININT); [done|lia|]. intros. cbn [exec exec_stack]. unfold p_uint32, w_uint32.
    at_steps. rewrite (p_uint_ok v 4) by done. at_steps. rewrite le_decode_encode.
    rewrite length_le_encode. do 4 f_equal. change (256 ^ Z.of_nat 4) with 4294967296.
    unfold wrap32. rewrite Zplus_mod_idemp_l. f_equal.
    pose proof (wrap32_id v) as Hw. unfold wrap32, min_int32, max_int32 in Hw. rewrite Hw by lia. done. }
  clear E1 E2 E3.
  set (bs := le_encode 8 v). assert (Hlb : length bs = 8%nat) by apply length_le_encode.
  destruct (significant_spec bs 8 ltac:(lia)) as [Hn Hs].
  set (n := significant bs 8) in *.
  assert (Hlt : length (take n bs) = n) by (rewrite length_take; lia).
  apply (emits_op _ LONG1); [done|lia|]. intros. cbn [exec exec_stack app]. at_steps.
  unfold p_long, andThen, ensure.
  assert ((1 <=? Z.of_nat n) = true) as -> by (apply Z.leb_le; lia).
  assert ((Z.of_nat n <=? 8) = true) as -> by (apply Z.leb_le; lia).
  cbn beta iota. unfold ret. cbn beta iota.
  cbn beta iota delta [andb]. replace (Z.of_nat n) with (Z.of_nat (length (take n bs))) by by rewrite Hlt.
  rewrite p_bytes_ok by (rewrite Hlt; unfold maxPickleBytes; lia). at_steps.
  rewrite sign_extend_signed by lia. rewrite Hs, (take_ge bs 8) by lia.
  unfold bs. rewrite signed_le_encode8 by done. fold bs. solve_at.
Qed.

(** ** Composing writes *)

(** [writes n enc vs]: reading [enc] takes [n] opcodes and pushes [vs] in order. *)
Definition writes (n : nat) (enc : bytes) (vs : list pickle_value) : Prop :=
  (length vs <= n)%nat /\
  forall tl pos opc stk mks h,
    (length stk <= opc)%nat -> (opc + n <= 4096)%nat ->
    steps n (at_ (enc ++ tl) pos opc stk mks h)
      (at_ tl (pos + Z.of_nat (length enc)) (opc + n) (rev vs ++ stk) mks h).

Lemma writes_one n enc v : (1 <= n)%nat -> emits n enc v -> writes n enc [v].
Proof. intros Hn H. split; [done|]. intros. by apply H. Qed.

Lemma writes_emits n enc v : writes n enc [v] -> emits n enc v.
Proof. intros [_ H] tl pos opc stk mks h. apply H. Qed.

Lemma writes_app n1 n2 e1 e2 vs1 vs2 :
  writes n1 e1 vs1 -> writes n2 e2 vs2 -> writes (n1 + n2) (e1 ++ e2) (vs1 ++ vs2).
Proof.
  intros [L1 H1] [L2 H2]. split; [rewrite length_app; lia|].
  intros tl pos opc stk mks h Hs Ho. rewrite <- app_assoc.
  eapply steps_trans; [apply H1; lia|].
  replace (pos + Z.of_nat (length (e1 ++ e2)))
    with (pos + Z.of_nat (length e1) + Z.of_nat (length e2)) by (rewrite length_app; lia).
  replace (opc + (n1 + n2))%nat with (opc + n1 + n2)%nat by lia.
  rewrite rev_app_distr, <- app_assoc.
  apply H2; [|lia]. rewrite length_app, length_rev. lia.
Qed.

(** An opcode that only rewrites the top of the stack. *)
Lemma writes_op n enc vs b op vs' :
  writes n enc vs -> opcode_of b = Some op -> 0 <= b < 256 -> (length vs' <= S (length vs))%nat ->
  (forall tl pos opc stk mks h,
     exec op (at_ tl pos opc (rev vs ++ stk) mks h)
     = Ok (None, at_ tl pos opc (rev vs' ++ stk) mks h)) ->
  writes (n + 1) (enc ++ [Zbyte b]) vs'.
Proof.
  intros [Hl H] Hop Hb Hv Hex. split; [lia|].
  intros tl pos opc stk mks h Hs Ho. rewrite <- app_assoc.
  eapply steps_trans; [apply H; lia|].
  replace (pos + Z.of_nat (length (enc ++ [Zbyte b])))
    with (pos + Z.of_nat (length enc) + 1) by (rewrite length_app; cbn [length]; lia).
  replace (opc + (n + 1))%nat with (S (opc + n)) by lia.
  apply (iteration_op b op); [done|done|lia|apply Hex|].
  cbn. rewrite length_app, length_rev. lia.
Qed.

Lemma writes_nop b op v :
  opcode_of b = Some op -> 0 <= b < 256 ->
  (forall tl pos opc stk mks h,
     exec op (at_ tl pos opc stk mks h) = Ok (None, at_ tl pos opc (v :: stk) mks h)) ->
  writes 1 (w_opcode b) [v].
Proof.
  intros Hop Hb Hex. apply writes_one; [done|]. apply (emits_op b op); [done|done|].
  intros. cbn [app length]. rewrite Hex. by rewrite Z.add_0_r.
Qed.

(** Text that the reader accepts: valid UTF-8 within the size limit. *)
Definition readable (s : string) : Prop :=
  utf8_valid (bytes_of s) = true /\ Z.of_nat (length (bytes_of s)) <= maxPickleBytes.

Lemma writes_string s : readable s -> writes 1 (w_string s) [VStr s].
Proof. intros [H1 H2]. apply writes_one; [done|]. by apply emits_string. Qed.

Lemma writes_integer v : in_int64 v -> writes 1 (w_integer v) [VInt v].
Proof. intros H. apply writes_one; [done|]. by apply emits_integer. Qed.

Lemma writes_none : writes 1 (w_opcode 78) [VNone].
Proof. by apply (writes_nop 78 NONE). Qed.

Lemma writes_true : writes 1 (w_opcode 136) [VBool true].
Proof. by apply (writes_nop 136 NEWTRUE). Qed.

Lemma writes_global g :
  readable (g_module g) -> readable (g_name g) -> allowedGlobal g = true ->
  writes 3 (w_global g) [VGlobal g].
Proof.
  intros Hm Hn Ha. unfold w_global, w_opcode. rewrite app_assoc.
  eapply (writes_op (1 + 1)).
  - apply writes_app; by apply writes_string.
  - reflexivity.
  - lia.
  - simpl; lia.
  - intros. cbn. unfold andThen, popStringPair, pop, andThen, ret, ensure. cbn.
    destruct g as [m n]. cbn. by rewrite Ha.
Qed.

Ltac readable_const := split; vm_compute; [reflexivity | discriminate].

Lemma writes_delta_global : writes 3 (w_global datetime_timedelta) [VGlobal datetime_timedelta].
Proof. apply writes_global; [readable_const | readable_const | reflexivity]. Qed.

Lemma writes_timezone_global : writes 3 (w_global datetime_timezone) [VGlobal datetime_timezone].
Proof. apply writes_global; [readable_const | readable_const | reflexivity]. Qed.

Lemma writes_datetime_global : writes 3 (w_global datetime_datetime) [VGlobal datetime_datetime].
Proof. apply writes_global; [readable_const | readable_const | reflexivity]. Qed.

Lemma writes_trigger_global : writes 3 (w_global IntervalTrigger) [VGlobal IntervalTrigger].
Proof. apply writes_global; [readable_const | readable_const | reflexivity]. Qed.

(** REDUCE of a callable to its arguments. *)
Lemma writes_reduce n enc g args v :
  writes n enc [VGlobal g; VTuple args] -> safeReduce g args = Ok v ->
  writes (n + 1) (enc ++ [Zbyte 82]) [v].
Proof.
  intros H Hr. eapply writes_op; [exact H|reflexivity|lia|simpl; lia|].
  intros. cbn. unfold andThen, popTupleGlobal, pop, andThen, ret, lift. cbn. by rewrite Hr.
Qed.

Lemma writes_tuple1 n enc v : writes n enc [v] -> writes (n + 1) (enc ++ [Zbyte 133]) [VTuple [v]].
Proof. intros H. eapply writes_op; [exact H|reflexivity|lia|simpl; lia|]. done. Qed.

Lemma writes_tuple2 n enc v w :
  writes n enc [v; w] -> writes (n + 1) (enc ++ [Zbyte 134]) [VTuple [v; w]].
Proof. intros H. eapply writes_op; [exact H|reflexivity|lia|simpl; lia|]. done. Qed.

Lemma writes_tuple3 n enc u v w :
  writes n enc [u; v; w] -> writes (n + 1) (enc ++ [Zbyte 135]) [VTuple [u; v; w]].
Proof. intros H. eapply writes_op; [exact H|reflexivity|lia|simpl; lia|]. done. Qed.

(** The days, seconds and microseconds of a non-negative duration. *)
Definition timedelta_of (d : duration) : pickleTimedelta :=
  Timedelta (d / 1000 / 86400000000) (d / 1000 mod 86400000000 / 1000000) (d / 1000 mod 1000000).

Lemma writes_timedelta d :
  0 <= d <= max_int64 -> writes 8 (w_timedelta d) [VDelta (timedelta_of d)].
Proof.
  intros Hd. unfold w_timedelta, w_opcode.
  assert (Hm : microseconds d = d / 1000) by (unfold microseconds, go_div; by rewrite Z.quot_div_nonneg by lia).
  rewrite Hm. set (m := d / 1000).
  assert (Hmb : 0 <= m <= 9223372036854775) by (unfold m, max_int64 in *; Z.to_euclidean_division_equations; lia).
  change (86400 * 1000000) with 86400000000.
  assert (E1 : go_div m 86400000000 = m / 86400000000) by (unfold go_div; by rewrite Z.quot_div_nonneg by lia).
  rewrite E1.
  assert (E2 : m - m / 86400000000 * 86400 * 1000000 = m mod 86400000000)
    by (Z.to_euclidean_division_equations; lia).
  rewrite E2.
  assert (E3 : go_div (m mod 86400000000) 1000000 = m mod 86400000000 / 1000000).
  { unfold go_div. pose proof (Z.mod_pos_bound m 86400000000). by rewrite Z.quot_div_nonneg by lia. }
  rewrite E3.
  assert (E4 : m mod 86400000000 - m mod 86400000000 / 1000000 * 1000000 = m mod 1000000)
    by (Z.to_euclidean_division_equations; lia).
  rewrite E4.
  set (days := m / 86400000000). set (secs := m mod 86400000000 / 1000000). set (mic := m mod 1000000).
  assert (B1 : 0 <= days <= 106751) by (unfold days; Z.to_euclidean_division_equations; lia).
  assert (B2 : 0 <= secs < 86400) by (unfold secs; Z.to_euclidean_division_equations; lia).
  assert (B3 : 0 <= mic < 1000000) by (unfold mic; Z.to_euclidean_division_equations; lia).
  pose proof (fun v (H : 0 <= v <= 1000000) =>
    writes_integer v ltac:(unfold in_int64, min_int64, max_int64; lia)) as Hint.
  rewrite !app_assoc.
  apply (writes_reduce 7 _ datetime_timedelta [VInt days; VInt secs; VInt mic]).
  - rewrite <- !app_assoc. apply (writes_app 3 4 _ _ [_] [_]); [apply writes_delta_global|].
    rewrite !app_assoc. apply (writes_tuple3 3). rewrite <- app_assoc.
    apply (writes_app 1 2 _ _ [_] [_; _]); [apply Hint; lia|].
    apply (writes_app 1 1 _ _ [_] [_]); apply Hint; lia.
  - unfold safeReduce. cbn.
    assert ((secs <? 0) = false) as -> by (apply Z.ltb_ge; lia).
    assert ((86400 <=? secs) = false) as -> by (apply Z.leb_gt; lia).
    assert ((mic <? 0) = false) as -> by (apply Z.ltb_ge; lia).
    assert ((1000000 <=? mic) = false) as -> by (apply Z.leb_gt; lia). done.
Qed.

Lemma writes_utc : writes 13 w_utc [VUTC].
Proof.
  unfold w_utc, w_opcode. rewrite !app_assoc.
  apply (writes_reduce 12 _ datetime_timezone [VDelta (timedelta_of 0)]); [|done].
  rewrite <- !app_assoc. apply (writes_app 3 9 _ _ [_] [_]); [apply writes_timezone_global|].
  apply (writes_tuple1 8). apply writes_timedelta. unfold max_int64. lia.
Qed.

Lemma lor_shiftl_add a b n :
  0 <= n -> 0 <= b < 2 ^ n -> Z.lor (Z.shiftl a n) b = a * 2 ^ n + b.
Proof.
  intros Hn Hb. rewrite <- Z.shiftl_mul_pow2 by done.
  pose proof (Z.add_lor_land (Z.shiftl a n) b) as H.
  enough (E : Z.land (Z.shiftl a n) b = 0) by (rewrite E in H; lia).
  apply Z.bits_inj_iff'. intros k Hk. rewrite Z.land_spec, Z.testbit_0_l.
  destruct (Z.lt_ge_cases k n).
  - by rewrite Z.shiftl_spec_low.
  - replace (Z.testbit b k) with false; [by rewrite andb_false_r|].
    symmetry. destruct (Z.eq_dec b 0) as [->|]; [by rewrite Z.testbit_0_l|].
    apply Z.bits_above_log2; [lia|]. apply Z.log2_lt_pow2; [lia|].
    apply Z.lt_le_trans with (2 ^ n); [lia|]. apply Z.pow_le_mono_r; lia.
Qed.

Lemma pack3 us :
  0 <= us < 16777216 ->
  Z.lor (Z.lor (Z.shiftl ((us / 65536) mod 256) 16) (Z.shiftl ((us / 256) mod 256) 8)) (us mod 256)
  = us.
Proof.
  intros H.
  rewrite (lor_shiftl_add _ (Z.shiftl ((us / 256) mod 256) 8)); [|lia|];
    rewrite Z.shiftl_mul_pow2 by lia; change (2 ^ 16) with 65536; change (2 ^ 8) with 256;
    [|Z.to_euclidean_division_equations; lia].
  replace ((us / 65536) mod 256 * 65536 + (us / 256) mod 256 * 256)
    with (Z.shiftl ((us / 65536) mod 256 * 256 + (us / 256) mod 256) 8)
    by (rewrite Z.shiftl_mul_pow2 by lia; change (2 ^ 8) with 256; lia).
  rewrite lor_shiftl_add; [|lia|change (2 ^ 8) with 256; apply Z.mod_pos_bound; lia].
  change (2 ^ 8) with 256. Z.to_euclidean_division_equations. lia.
Qed.

(** Reading back the packed fields of an instant. *)
Lemma decode_packed_datetime t :
  micro_time t -> decodePythonDatetime (packed_datetime t) = Ok t.
Proof.
  intros (Hz & Hn & Hy). unfold packed_datetime, decodePythonDatetime.
  pose proof (time_fields_bounds t) as (Bh & Bm & Bs & Bn).
  pose proof (civil_of_days_fields (unix t / day_seconds)) as [Bmo Bd]. fold (civil_of t) in Bmo, Bd.
  unfold go_div. rewrite Z.quot_div_nonneg by lia.
  set (us := nanosecond t / 1000).
  assert (Bus : 0 <= us < 1000000) by (unfold us, giga in *; Z.to_euclidean_division_equations; lia).
  rewrite !byteZ_Zbyte, !Z.shiftr_div_pow2 by lia.
  change (2 ^ 8) with 256. change (2 ^ 16) with 65536.
  rewrite (Z.mod_small (month _)), (Z.mod_small (day _)), (Z.mod_small (hour t)),
    (Z.mod_small (minute t)), (Z.mod_small (second t)) by lia.
  assert ((year (civil_of t) / 256) mod 256 * 256 + year (civil_of t) mod 256 = year (civil_of t)) as ->
    by (Z.to_euclidean_division_equations; lia).
  assert (Hland : Z.land (month (civil_of t)) 128 = 0).
  { assert (Hm : month (civil_of t) ∈ [1;2;3;4;5;6;7;8;9;10;11;12]).
    { rewrite !elem_of_cons. lia. }
    revert Hm. generalize (month (civil_of t)). intros m Hm.
    repeat (apply elem_of_cons in Hm as [->|Hm]; [done|]). by apply not_elem_of_nil in Hm. }
  rewrite Hland. cbn [Z.eqb check bind].
  rewrite pack3 by lia.
  assert (Hns : us * 1000 = nanosecond t) by (unfold us; Z.to_euclidean_division_equations; lia).
  rewrite Hns, go_date_fields, !Z.eqb_refl. cbn.
  assert ((us <? 1000000) = true) as -> by (apply Z.ltb_lt; lia). done.
Qed.

Lemma length_packed_datetime t : length (packed_datetime t) = 10%nat.
Proof. reflexivity. Qed.

Lemma writes_datetime t : micro_time t -> writes 19 (w_datetime t) [VTime t].
Proof.
  intros Ht. unfold w_datetime, w_opcode. rewrite !app_assoc.
  apply (writes_reduce 18 _ datetime_datetime [VBytes (packed_datetime t); VUTC]).
  - rewrite <- !app_assoc. apply (writes_app 3 15 _ _ [_] [_]); [apply writes_datetime_global|].
    rewrite !app_assoc. apply (writes_tuple2 14). apply (writes_app 1 13 _ _ [_] [_]).
    + apply writes_one; [done|]. apply emits_bytes. rewrite length_packed_datetime.
      unfold maxPickleBytes. lia.
    + apply writes_utc.
  - unfold safeReduce. pose proof (decode_packed_datetime t Ht) as E.
    revert E. generalize (packed_datetime t). intros bs E. cbn. by rewrite E.
Qed.
