(* ===== verification/JobState.v ===== *)
(** * Job states ([internal/scheduler/pickle.go], [decodeJobState])

    Reading an APScheduler job back from its Pickle, and the round trip with
    the writer. *)

From S2P Require Import Prelude.
From S2P Require Import GoStrings.
From S2P Require Import GoTime.
From S2P Require Import SchedJob.
From S2P Require Import PickleReader.
From S2P Require Import PickleWriter.

(** ** Decoding *)

(** [state[key]]: a missing key reads as nil. *)
Definition field (m : gmap string pickle_value) (key : string) : pickle_value :=
  default VNone (m !! key).

Definition exactKeys (m : gmap string pickle_value) (keys : list string) : bool :=
  (size m =? length keys)%nat && forallb (fun k => bool_decide (is_Some (m !! k))) keys.

Definition as_int (v : pickle_value) : option Z := match v with VInt z => Some z | _ => None end.
Definition as_string (v : pickle_value) : option string :=
  match v with VStr s => Some s | _ => None end.
Definition is_string (v : pickle_value) (s : string) : bool :=
  match v with VStr s' => String.eqb s' s | _ => false end.
Definition is_none (v : pickle_value) : bool := match v with VNone => true | _ => false end.
Definition is_true (v : pickle_value) : bool := match v with VBool b => b | _ => false end.

(** [pickleTimedelta.duration], in wrapping 64-bit arithmetic. *)
Definition td_duration (d : pickleTimedelta) : option duration :=
  if (td_days d <? 0) || (td_seconds d <? 0) || (86400 <=? td_seconds d)
     || (td_micros d <? 0) || (1000000 <=? td_micros d)
  then None
  else if max_int64 / (86400 * 1000000) <? td_days d then None
  else
    let micros :=
      wrap64 (wrap64 (wrap64 (wrap64 (td_days d * 86400) * 1000000)
                      + wrap64 (td_seconds d * 1000000)) + td_micros d) in
    if max_int64 / 1000 <? micros then None
    else Some (wrap64 (micros * 1000)).

Definition trigger_keys : list string :=
  ["version"; "timezone"; "start_date"; "end_date"; "interval"; "jitter"]%string.

Definition decodeIntervalTrigger (state : gmap string pickle_value) : res (time * duration) :=
  require exactKeys state trigger_keys
    else EInvalidJobState "IntervalTrigger state fields differ from v2" in
  require match field state "version" with VInt v => v =? 2 | _ => false end
    else EInvalidJobState "unsupported IntervalTrigger state version" in
  require match field state "timezone" with VUTC => true | _ => false end
    else EInvalidJobState "IntervalTrigger timezone is not UTC" in
  let* st := match field state "start_date" with
             | VTime t => Ok t
             | _ => invalidState "IntervalTrigger start_date is not UTC"
             end in
  require is_none (field state "end_date") && is_none (field state "jitter")
    else EInvalidJobState "IntervalTrigger end_date and jitter must be null" in
  let* d := match field state "interval" with
            | VDelta d => Ok d
            | _ => invalidState "IntervalTrigger interval is not timedelta"
            end in
  match td_duration d with
  | Some itv => if itv <=? 0
                then invalidState "IntervalTrigger interval must be positive"
                else Ok (st, itv)
  | None => invalidState "IntervalTrigger interval must be positive"
  end.

Definition job_keys : list string :=
  ["version"; "id"; "func"; "trigger"; "executor"; "args"; "kwargs"; "name";
   "misfire_grace_time"; "coalesce"; "max_instances"; "next_run_time"]%string.

Definition decodeJobState (blob : bytes) (columnID path : string) (nextRunColumn : float64)
  : res Job :=
  let* ' (root, h) := parsePickle blob in
  let* l := match root with
            | VDict l => Ok l
            | _ => invalidState "root is not a dictionary"
            end in
  let state := dict_at h l in
  require exactKeys state job_keys else EInvalidJobState "Job state fields differ from v1" in
  require match field state "version" with VInt v => v =? 1 | _ => false end
    else EInvalidJobState "unsupported Job state version" in
  require is_string (field state "id") columnID
    else EInvalidJobState "row ID and Job ID differ" in
  let* kd := of_option (kindForID columnID) (EInvalidJobState "unknown stable Job ID") in
  let* i := jobIdentity kd in
  require is_string (field state "func") (callable_of i) && is_string (field state "executor") "default"
    && is_string (field state "name") (name_of i)
    else EInvalidJobState "Job callable identity is not allowed" in
  let* args := match field state "args" with
               | VTuple [a] => Ok a
               | _ => invalidState "Job args must contain one runtime path"
               end in
  let* _ := match args with
            | VStr storedPath => check (validStoredRuntimePath storedPath path)
                (EInvalidJobState "Job runtime path differs from the scheduler path")
            | _ => invalidState "Job runtime path differs from the scheduler path"
            end in
  require match field state "kwargs" with VDict k => (size (dict_at h k) =? 0)%nat | _ => false end
    else EInvalidJobState "Job kwargs must be empty" in
  require is_none (field state "misfire_grace_time") && is_true (field state "coalesce")
    else EInvalidJobState "Job retry/coalescing policy differs" in
  require match field state "max_instances" with VInt v => v =? 1 | _ => false end
    else EInvalidJobState "Job max_instances must be one" in
  let* trigger := match field state "trigger" with
                  | VObject o =>
                      if bool_decide (object_class h o = Some IntervalTrigger) then Ok o
                      else invalidState "Job trigger is not IntervalTrigger"
                  | _ => invalidState "Job trigger is not IntervalTrigger"
                  end in
  let* ' (st, itv) := decodeIntervalTrigger (object_state h trigger) in
  let* nx := match field state "next_run_time" with
             | VTime t => Ok t
             | _ => invalidState "next_run_time is not an aware UTC datetime"
             end in
  let* job := map_err EInvalidJob (NewJob kd path itv st nx) in
  require sameTimestamp nextRunColumn nx
    else EInvalidJobState "next_run_time column and Job state differ" in
  Ok job.

(** ** Timedeltas *)

Lemma td_duration_of d :
  0 < d <= max_int64 -> d mod 1000 = 0 -> td_duration (timedelta_of d) = Some d.
Proof.
  intros Hd Hm. unfold td_duration, timedelta_of. cbn [td_days td_seconds td_micros].
  assert (Hb : 0 <= d / 1000 <= 9223372036854775)
    by (unfold max_int64 in *; Z.to_euclidean_division_equations; lia).
  assert (E : d = d / 1000 * 1000) by (Z.to_euclidean_division_equations; lia).
  set (m := d / 1000) in *.
  assert (B1 : 0 <= m / 86400000000 <= 106751) by (Z.to_euclidean_division_equations; lia).
  assert (B2 : 0 <= m mod 86400000000 / 1000000 < 86400) by (Z.to_euclidean_division_equations; lia).
  assert (B3 : 0 <= m mod 1000000 < 1000000) by (Z.to_euclidean_division_equations; lia).
  assert (Esum : m / 86400000000 * 86400 * 1000000 + m mod 86400000000 / 1000000 * 1000000
                 + m mod 1000000 = m) by (Z.to_euclidean_division_equations; lia).
  set (days := m / 86400000000) in *. set (secs := m mod 86400000000 / 1000000) in *.
  set (mic := m mod 1000000) in *.
  assert ((days <? 0) = false) as -> by (apply Z.ltb_ge; lia).
  assert ((secs <? 0) = false) as -> by (apply Z.ltb_ge; lia).
  assert ((86400 <=? secs) = false) as -> by (apply Z.leb_gt; lia).
  assert ((mic <? 0) = false) as -> by (apply Z.ltb_ge; lia).
  assert ((1000000 <=? mic) = false) as -> by (apply Z.leb_gt; lia).
  cbn [orb]. change (max_int64 / (86400 * 1000000)) with 106751991.
  change (max_int64 / 1000) with 9223372036854775.
  assert ((106751991 <? days) = false) as -> by (apply Z.ltb_ge; lia).
  rewrite (wrap64_id (days * 86400)) by (unfold in_int64, min_int64, max_int64; lia).
  rewrite (wrap64_id (days * 86400 * 1000000)) by (unfold in_int64, min_int64, max_int64; lia).
  rewrite (wrap64_id (secs * 1000000)) by (unfold in_int64, min_int64, max_int64; lia).
  rewrite (wrap64_id (_ + secs * 1000000)) by (unfold in_int64, min_int64, max_int64; lia).
  rewrite Esum. rewrite (wrap64_id m) by (unfold in_int64, min_int64, max_int64; lia).
  assert ((9223372036854775 <? m) = false) as -> by (apply Z.ltb_ge; lia).
  rewrite wrap64_id by (unfold in_int64, min_int64, max_int64 in *; lia). f_equal. lia.
Qed.

#[global] Arguments decodeIntervalTrigger : simpl never.
#[global] Arguments decodePythonDatetime : simpl never.

(** ** The dictionary opcodes of the writer *)

Lemma step_empty_dict tl pos opc stk mks h :
  (length stk < 4096)%nat -> (opc < 4096)%nat ->
  steps 1 (at_ (Zbyte 125 :: tl) pos opc stk mks h)
    (at_ tl (pos + 1) (S opc) (VDict (length h) :: stk) mks (h ++ [CDict ∅])).
Proof. intros Hs Ho. apply (iteration_op 125 EMPTY_DICT); [done|lia|done|done|cbn; lia]. Qed.

Lemma step_empty_tuple tl pos opc stk mks h :
  (length stk < 4096)%nat -> (opc < 4096)%nat ->
  steps 1 (at_ (Zbyte 41 :: tl) pos opc stk mks h)
    (at_ tl (pos + 1) (S opc) (VTuple [] :: stk) mks h).
Proof. intros Hs Ho. apply (iteration_op 41 EMPTY_TUPLE); [done|lia|done|done|cbn; lia]. Qed.

Lemma step_proto tail : steps 1 (initial_parser (Zbyte 128 :: Zbyte 5 :: tail)) (at_ tail 2 1 [] [] []).
Proof.
  apply steps_one. unfold iteration, andThen, gets, ensure, initial_parser. cbn.
  rewrite byteZ_Zbyte_small by lia. cbn. unfold andThen, gets. cbn.
  by rewrite byteZ_Zbyte_small by lia.
Qed.

Lemma step_mark tl pos opc stk mks h :
  (length stk <= 4096)%nat -> (opc < 4096)%nat -> (length mks < 64)%nat ->
  steps 1 (at_ (Zbyte 40 :: tl) pos opc stk mks h)
    (at_ tl (pos + 1) (S opc) stk (length stk :: mks) h).
Proof.
  intros Hs Ho Hm. apply (iteration_op 40 MARK); [done|lia|done| |cbn; lia].
  cbn [exec exec_stack]. unfold andThen, gets, ensure, modify, ret. cbn [marks at_].
  assert ((length mks <? maxPickleDepth)%nat = true) as -> by (by apply Nat.ltb_lt). done.
Qed.

Lemma step_newobj tl pos opc stk mks h :
  (length stk < 4094)%nat -> (opc < 4096)%nat ->
  steps 1 (at_ (Zbyte 129 :: tl) pos opc (VTuple [] :: VGlobal IntervalTrigger :: stk) mks h)
    (at_ tl (pos + 1) (S opc) (VObject (length h) :: stk) mks (h ++ [CObject IntervalTrigger None])).
Proof. intros Hs Ho. apply (iteration_op 129 NEWOBJ); [done|lia|done|done|cbn; lia]. Qed.

Lemma step_setitems tl pos opc vs l stk mks h m :
  (length vs + length stk < 4095)%nat -> (opc < 4096)%nat -> Nat.even (length vs) = true ->
  set_pairs vs (dict_at h l) = Ok m ->
  steps 1 (at_ (Zbyte 117 :: tl) pos opc (rev vs ++ VDict l :: stk) (S (length stk) :: mks) h)
    (at_ tl (pos + 1) (S opc) (VDict l :: stk) mks (<[l := CDict m]> h)).
Proof.
  intros Hs Ho He Hset. apply (iteration_op 117 SETITEMS); [done|lia|done| |cbn; lia].
  cbn [exec exec_stack]. unfold setItems, andThen, gets, popMark, ensure, modify, ret, lift, write_dict.
  cbn [marks stack at_ set_marks].
  assert (Hl : (length (rev vs ++ VDict l :: stk) - S (length stk) = length vs)%nat)
    by (rewrite length_app, length_rev; cbn [length]; lia).
  assert (Hle : (S (length stk) <= length (rev vs ++ VDict l :: stk))%nat)
    by (rewrite length_app; cbn [length]; lia).
  apply Nat.leb_le in Hle.
  unfold above, below. rewrite Hl, He, Hle. rewrite <- (length_rev vs).
  rewrite take_app_length, drop_app_length, rev_involutive. cbn.
  by rewrite Hset.
Qed.

Lemma step_build tl pos opc d o stk mks h :
  (length stk < 4095)%nat -> (opc < 4096)%nat -> h !! o = Some (CObject IntervalTrigger None) ->
  steps 1 (at_ (Zbyte 98 :: tl) pos opc (VDict d :: VObject o :: stk) mks h)
    (at_ tl (pos + 1) (S opc) (VObject o :: stk) mks
       (<[o := CObject IntervalTrigger (Some d)]> h)).
Proof.
  intros Hs Ho Hh. apply (iteration_op 98 BUILD); [done|lia|done| |cbn; lia].
  cbn [exec exec_stack]. unfold build, andThen, gets, pop, modify, ret, ensure. cbn. by rewrite Hh.
Qed.

(** ** The round trip *)

(** Reaching a later unframed state, whatever the position counter. *)
Definition goes (n : nat) (r : bytes) (opc : nat) (stk : list pickle_value) (mks : list nat) (h : heap)
  (r' : bytes) (stk' : list pickle_value) (mks' : list nat) (h' : heap) : Prop :=
  forall pos, exists pos', steps n (at_ r pos opc stk mks h) (at_ r' pos' (opc + n) stk' mks' h').

Lemma goes_trans n m r opc stk mks h r1 stk1 mks1 h1 r2 stk2 mks2 h2 :
  goes n r opc stk mks h r1 stk1 mks1 h1 ->
  goes m r1 (opc + n) stk1 mks1 h1 r2 stk2 mks2 h2 ->
  goes (n + m) r opc stk mks h r2 stk2 mks2 h2.
Proof.
  intros H1 H2 pos. destruct (H1 pos) as [p1 S1]. destruct (H2 p1) as [p2 S2].
  exists p2. rewrite Nat.add_assoc. by eapply steps_trans.
Qed.

Lemma goes_writes n enc vs tl opc stk mks h :
  writes n enc vs -> (length stk <= opc)%nat -> (opc + n <= 4096)%nat ->
  goes n (enc ++ tl) opc stk mks h tl (rev vs ++ stk) mks h.
Proof. intros [_ H] Hs Ho pos. eexists. by apply H. Qed.

Lemma goes_step r opc stk mks h r' stk' mks' h' :
  (forall pos, steps 1 (at_ r pos opc stk mks h) (at_ r' (pos + 1) (S opc) stk' mks' h')) ->
  goes 1 r opc stk mks h r' stk' mks' h'.
Proof. intros H pos. exists (pos + 1). rewrite Nat.add_1_r. apply H. Qed.

Definition trigger_items (st : time) (itv : duration) : list pickle_value :=
  [VStr "version"; VInt 2; VStr "timezone"; VUTC; VStr "start_date"; VTime st;
   VStr "end_date"; VNone; VStr "interval"; VDelta (timedelta_of itv); VStr "jitter"; VNone].

(** The map that a sequence of keys and values builds. *)
Fixpoint map_of_items (items : list pickle_value) (m : gmap string pickle_value)
  : gmap string pickle_value :=
  match items with
  | VStr k :: v :: more => map_of_items more (<[k := v]> m)
  | _ => m
  end.

Definition trigger_map (st : time) (itv : duration) : gmap string pickle_value :=
  map_of_items (trigger_items st itv) ∅.

Lemma set_trigger_items st itv :
  set_pairs (trigger_items st itv) ∅ = Ok (trigger_map st itv).
Proof. reflexivity. Qed.

Definition job_items_1 (i : identity) : list pickle_value :=
  [VStr "version"; VInt 1; VStr "id"; VStr (id_of i); VStr "func"; VStr (callable_of i);
   VStr "trigger"].
Definition job_items_2 (path : string) : list pickle_value :=
  [VStr "executor"; VStr "default"; VStr "args"; VTuple [VStr path]; VStr "kwargs"].
Definition job_items_3 (i : identity) (nx : time) : list pickle_value :=
  [VStr "name"; VStr (name_of i); VStr "misfire_grace_time"; VNone; VStr "coalesce"; VBool true;
   VStr "max_instances"; VInt 1; VStr "next_run_time"; VTime nx].

Definition job_items (i : identity) (j : Job) : list pickle_value :=
  job_items_1 i ++ [VObject 1] ++ job_items_2 (runtimePath j) ++ [VDict 3]
  ++ job_items_3 i (next j).

Definition job_map (i : identity) (j : Job) : gmap string pickle_value :=
  map_of_items (job_items i j) ∅.

Lemma set_job_items i j : set_pairs (job_items i j) ∅ = Ok (job_map i j).
Proof. reflexivity. Qed.

(** The heap that reading a written job leaves. *)
Definition job_heap (i : identity) (j : Job) : heap :=
  [CDict (job_map i j); CObject IntervalTrigger (Some 2%nat);
   CDict (trigger_map (start j) (interval j)); CDict ∅].

Ltac const_string := apply writes_string; readable_const.
Ltac const_int := apply writes_integer; unfold in_int64, min_int64, max_int64; lia.

Lemma writes_trigger_items st itv :
  micro_time st -> 0 <= itv <= max_int64 ->
  writes 49 (w_string "version" ++ w_integer 2 ++ w_string "timezone" ++ w_utc
    ++ w_string "start_date" ++ w_datetime st ++ w_string "end_date" ++ w_opcode 78
    ++ w_string "interval" ++ w_timedelta itv ++ w_string "jitter" ++ w_opcode 78)
    (trigger_items st itv).
Proof.
  intros Hst Hitv. unfold trigger_items.
  apply (writes_app 1 48 _ _ [_]); [const_string|].
  apply (writes_app 1 47 _ _ [_]); [const_int|].
  apply (writes_app 1 46 _ _ [_]); [const_string|].
  apply (writes_app 13 33 _ _ [_]); [apply writes_utc|].
  apply (writes_app 1 32 _ _ [_]); [const_string|].
  apply (writes_app 19 13 _ _ [_]); [by apply writes_datetime|].
  apply (writes_app 1 12 _ _ [_]); [const_string|].
  apply (writes_app 1 11 _ _ [_]); [apply writes_none|].
  apply (writes_app 1 10 _ _ [_]); [const_string|].
  apply (writes_app 8 2 _ _ [_]); [by apply writes_timedelta|].
  apply (writes_app 1 1 _ _ [_]); [const_string|apply writes_none].
Qed.

(** Writing an IntervalTrigger allocates the instance and its state. *)
Lemma goes_trigger j tl opc stk mks c :
  micro_time (start j) -> 0 <= interval j <= max_int64 ->
  (length stk <= opc)%nat -> (opc < 4000)%nat -> (length mks < 64)%nat ->
  goes 58 (w_intervalTrigger j ++ tl) opc stk mks [c] tl (VObject 1 :: stk) mks
    [c; CObject IntervalTrigger (Some 2%nat); CDict (trigger_map (start j) (interval j))].
Proof.
  intros Hst Hitv Hs Ho Hm. pose proof (writes_trigger_items _ _ Hst Hitv) as Hw.
  unfold w_intervalTrigger.
  set (items := w_string "version" ++ _) in Hw.
  match goal with |- context [w_opcode 40 ++ ?t] => set (body := t) end.
  assert (Hbody : body = items ++ [Zbyte 117; Zbyte 98]).
  { unfold body, items, w_opcode. rewrite <- !app_assoc. reflexivity. }
  clearbody body items. subst body. unfold w_opcode. rewrite <- !app_assoc. cbn [app].
  eapply (goes_trans 3 55). { apply goes_writes; [apply writes_trigger_global|lia|lia]. }
  cbn [rev app].
  eapply (goes_trans 1 54).
  { apply goes_step. intros pos. apply step_empty_tuple; cbn [length]; lia. }
  eapply (goes_trans 1 53). { apply goes_step. intros pos. apply step_newobj; lia. }
  eapply (goes_trans 1 52). { apply goes_step. intros pos. apply step_empty_dict; cbn [length]; lia. }
  eapply (goes_trans 1 51). { apply goes_step. intros pos. apply step_mark; cbn [length]; lia. }
  eapply (goes_trans 49 2). { apply goes_writes; [exact Hw|cbn [length]; lia|lia]. }
  eapply (goes_trans 1 1).
  { apply goes_step. intros pos. eapply (step_setitems _ _ _ _ _ (VObject 1 :: stk));
      [cbn [length trigger_items]; lia|lia|done|apply set_trigger_items]. }
  apply goes_step. intros pos. apply step_build; [lia|lia|reflexivity].
Qed.

Lemma writes_items_1 i :
  readable (id_of i) -> readable (callable_of i) ->
  writes 7 (w_string "version" ++ w_integer 1 ++ w_string "id" ++ w_string (id_of i)
    ++ w_string "func" ++ w_string (callable_of i) ++ w_string "trigger") (job_items_1 i).
Proof.
  intros H1 H2. unfold job_items_1.
  apply (writes_app 1 6 _ _ [_]); [const_string|].
  apply (writes_app 1 5 _ _ [_]); [const_int|].
  apply (writes_app 1 4 _ _ [_]); [const_string|].
  apply (writes_app 1 3 _ _ [_]); [by apply writes_string|].
  apply (writes_app 1 2 _ _ [_]); [const_string|].
  apply (writes_app 1 1 _ _ [_]); [by apply writes_string|const_string].
Qed.

Lemma writes_items_2 path :
  readable path ->
  writes 6 (w_string "executor" ++ w_string "default" ++ w_string "args"
    ++ (w_string path ++ w_opcode 133) ++ w_string "kwargs") (job_items_2 path).
Proof.
  intros Hp. unfold job_items_2.
  apply (writes_app 1 5 _ _ [_]); [const_string|].
  apply (writes_app 1 4 _ _ [_]); [const_string|].
  apply (writes_app 1 3 _ _ [_]); [const_string|].
  apply (writes_app 2 1 _ _ [_]); [|const_string].
  apply (writes_tuple1 1). by apply writes_string.
Qed.

Lemma writes_items_3 i nx :
  readable (name_of i) -> micro_time nx ->
  writes 28 (w_string "name" ++ w_string (name_of i) ++ w_string "misfire_grace_time"
    ++ w_opcode 78 ++ w_string "coalesce" ++ w_opcode 136 ++ w_string "max_instances"
    ++ w_integer 1 ++ w_string "next_run_time" ++ w_datetime nx) (job_items_3 i nx).
Proof.
  intros Hn Ht. unfold job_items_3.
  apply (writes_app 1 27 _ _ [_]); [const_string|].
  apply (writes_app 1 26 _ _ [_]); [by apply writes_string|].
  apply (writes_app 1 25 _ _ [_]); [const_string|].
  apply (writes_app 1 24 _ _ [_]); [apply writes_none|].
  apply (writes_app 1 23 _ _ [_]); [const_string|].
  apply (writes_app 1 22 _ _ [_]); [apply writes_true|].
  apply (writes_app 1 21 _ _ [_]); [const_string|].
  apply (writes_app 1 20 _ _ [_]); [const_int|].
  apply (writes_app 1 19 _ _ [_]); [const_string|by apply writes_datetime].
Qed.

Lemma jobIdentity_readable kd i :
  jobIdentity kd = Ok i -> readable (id_of i) /\ readable (callable_of i) /\ readable (name_of i).
Proof.
  destruct kd; intros [= <-]; (split; [|split]); readable_const.
Qed.

(** The opcodes between PROTO and STOP. *)
Lemma goes_job_state i j :
  jobIdentity (kind j) = Ok i -> valid_job j -> interval j <= max_int64 -> readable (runtimePath j) ->
  goes 103 (drop 2 (job_state_bytes i j)) 1 [] [] [] [Zbyte 46] [VDict 0] [] (job_heap i j).
Proof.
  intros Hi Hv Hmax Hp. destruct (jobIdentity_readable _ _ Hi) as (Ri & Rc & Rn).
  destruct Hv as [_ _ _ Hi0 _ Hst Hnx _ _].
  pose proof (writes_items_1 i Ri Rc) as W1. pose proof (writes_items_2 _ Hp) as W2.
  pose proof (writes_items_3 i (next j) Rn Hnx) as W3.
  unfold job_state_bytes.
  match type of W1 with writes _ ?b _ => set (b1 := b) in W1 end.
  match type of W2 with writes _ ?b _ => set (b2 := b) in W2 end.
  match type of W3 with writes _ ?b _ => set (b3 := b) in W3 end.
  match goal with |- context [[Zbyte 128; Zbyte 5; Zbyte 125; Zbyte 40] ++ ?t] => set (body := t) end.
  assert (Hbody : body = b1 ++ w_intervalTrigger j ++ b2 ++ [Zbyte 125] ++ b3
                         ++ [Zbyte 117; Zbyte 46]).
  { unfold body, b1, b2, b3, w_opcode. rewrite <- !app_assoc. reflexivity. }
  clearbody body b1 b2 b3. subst body. cbn [app drop skipn].
  eapply (goes_trans 1 102). { apply goes_step. intros pos. apply step_empty_dict; cbn [length]; lia. }
  eapply (goes_trans 1 101). { apply goes_step. intros pos. apply step_mark; cbn [length]; lia. }
  eapply (goes_trans 7 94). { apply goes_writes; [exact W1|cbn [length]; lia|lia]. }
  eapply (goes_trans 58 36).
  { apply goes_trigger; [done|lia|cbn [length rev app job_items_1]; lia|lia|cbn [length]; lia]. }
  eapply (goes_trans 6 30). { apply goes_writes; [exact W2|cbn [length rev app job_items_1]; lia|lia]. }
  eapply (goes_trans 1 29).
  { apply goes_step. intros pos. apply step_empty_dict; [|lia].
    rewrite !length_app, !length_rev. cbn. lia. }
  eapply (goes_trans 28 1). { apply goes_writes; [exact W3| |lia].
    cbn [length rev app job_items_1 job_items_2]. lia. }
  apply goes_step. intros pos.
  exact (step_setitems [Zbyte 46] pos 103 (job_items i j) 0 [] []
    [CDict ∅; CObject IntervalTrigger (Some 2%nat); CDict (trigger_map (start j) (interval j)); CDict ∅]
    (job_map i j) ltac:(cbn; lia) ltac:(lia) eq_refl (set_job_items i j)).
Qed.

#[local] Arguments Nat.ltb : simpl never.
#[local] Arguments Nat.leb : simpl never.
#[local] Arguments Z.of_nat : simpl never.

Lemma run_stop n s v s' : iteration s = Ok (Some v, s') -> run (S n) s = Ok (v, cells s').
Proof. intros H. cbn [run]. by rewrite H. Qed.

Lemma stop_at pos opc v h :
  (opc < 4096)%nat ->
  iteration (at_ [Zbyte 46] pos opc [v] [] h) = Ok (Some v, at_ [] (pos + 1) (S opc) [v] [] h).
Proof.
  intros Ho. unfold iteration, andThen, gets, ensure, at_. cbn.
  assert ((opc <? maxPickleOpcodes)%nat = true) as -> by by apply Nat.ltb_lt.
  cbn. by rewrite byteZ_Zbyte_small by lia.
Qed.

Lemma parse_job_state i j :
  jobIdentity (kind j) = Ok i -> valid_job j -> interval j <= max_int64 -> readable (runtimePath j) ->
  Z.of_nat (length (job_state_bytes i j)) <= maxPickleBytes ->
  parsePickle (job_state_bytes i j) = Ok (VDict 0, job_heap i j).
Proof.
  intros Hi Hv Hmax Hp Hlen. unfold parsePickle.
  destruct (Z.ltb_spec maxPickleBytes (Z.of_nat (length (job_state_bytes i j)))); [lia|].
  assert (Hne : (length (job_state_bytes i j) =? 0)%nat = false) by reflexivity.
  rewrite Hne. cbn [orb].
  pose proof (goes_job_state i j Hi Hv Hmax Hp 2) as [pos' Hs].
  change (job_state_bytes i j) with
    (Zbyte 128 :: Zbyte 5 :: drop 2 (job_state_bytes i j)).
  set (tail := drop 2 (job_state_bytes i j)) in *. clearbody tail.
  pose proof (step_proto tail) as Hproto.
  pose proof (steps_trans 1 103 _ _ _ Hproto Hs) as Hall.
  assert (Hfuel : exists n, parse_fuel = (1 + 103 + S n)%nat) by by exists 3992%nat.
  destruct Hfuel as [n ->]. rewrite Hall. refine (run_stop n _ _ _ (stop_at pos' _ _ _ _)). lia.
Qed.

Lemma exactKeys_job i j : exactKeys (job_map i j) job_keys = true.
Proof. reflexivity. Qed.

Lemma exactKeys_trigger st itv : exactKeys (trigger_map st itv) trigger_keys = true.
Proof. reflexivity. Qed.

Lemma decode_trigger_map st itv :
  0 < itv <= max_int64 -> itv mod 1000 = 0 ->
  decodeIntervalTrigger (trigger_map st itv) = Ok (st, itv).
Proof.
  intros Hi Hm. unfold decodeIntervalTrigger. rewrite exactKeys_trigger.
  change (field (trigger_map st itv) "version") with (VInt 2).
  change (field (trigger_map st itv) "timezone") with VUTC.
  change (field (trigger_map st itv) "start_date") with (VTime st).
  change (field (trigger_map st itv) "end_date") with VNone.
  change (field (trigger_map st itv) "jitter") with VNone.
  change (field (trigger_map st itv) "interval") with (VDelta (timedelta_of itv)).
  cbn. rewrite td_duration_of by done.
  by destruct (Z.leb_spec itv 0); [lia|].
Qed.

Lemma kindForID_identity kd i : jobIdentity kd = Ok i -> kindForID (id_of i) = Some kd.
Proof. by destruct kd; intros [= <-]. Qed.

Definition no_nul (s : string) : Prop := existsb (fun b => byteZ b =? 0) (bytes_of s) = false.

Lemma length_w_string s : (length (bytes_of s) <= length (w_string s))%nat.
Proof.
  unfold w_string. case_match; rewrite ?length_app; cbn [length]; rewrite ?length_app; lia.
Qed.

Lemma job_state_path_length i j :
  (length (bytes_of (runtimePath j)) <= length (job_state_bytes i j))%nat.
Proof.
  unfold job_state_bytes. pose proof (length_w_string (runtimePath j)).
  rewrite !length_app. lia.
Qed.

(** What the writer emits for a valid job with a readable path, the reader
    returns unchanged. *)
Lemma decode_encode_job j blob :
  valid_job j -> interval j <= max_int64 ->
  utf8_valid (bytes_of (runtimePath j)) = true -> no_nul (runtimePath j) ->
  encodeJobState j = Ok blob ->
  decodeJobState blob (job_id j) (runtimePath j) (unixTimestamp (next j)) = Ok j.
Proof.
  intros Hv Hmax Hu Hz Henc. unfold encodeJobState in Henc.
  assert (HN : NewJob (kind j) (runtimePath j) (interval j) (start j) (next j) = Ok j).
  { apply NewJob_valid. split; [by destruct j|done]. }
  rewrite HN in Henc. cbn [bind] in Henc.
  destruct (jobIdentity (kind j)) as [i|] eqn:Hi; [|done]. cbn [bind] in Henc.
  bind_inv Henc. ok_inv. boolify. subst blob.
  match goal with H : (maxPickleBytes <? _) = false |- _ => apply Z.ltb_ge in H; rename H into Hlen end.
  assert (Hp : readable (runtimePath j)).
  { split; [done|]. pose proof (job_state_path_length i j). lia. }
  unfold decodeJobState. rewrite (parse_job_state i j) by done. cbn [bind].
  change (dict_at (job_heap i j) 0) with (job_map i j).
  rewrite exactKeys_job. cbn [check bind].
  change (field (job_map i j) "version") with (VInt 1).
  change (field (job_map i j) "id") with (VStr (id_of i)).
  change (field (job_map i j) "func") with (VStr (callable_of i)).
  change (field (job_map i j) "executor") with (VStr "default").
  change (field (job_map i j) "name") with (VStr (name_of i)).
  change (field (job_map i j) "args") with (VTuple [VStr (runtimePath j)]).
  change (field (job_map i j) "kwargs") with (VDict 3).
  change (field (job_map i j) "misfire_grace_time") with VNone.
  change (field (job_map i j) "coalesce") with (VBool true).
  change (field (job_map i j) "max_instances") with (VInt 1).
  change (field (job_map i j) "trigger") with (VObject 1).
  change (field (job_map i j) "next_run_time") with (VTime (next j)).
  change (object_class (job_heap i j) 1) with (Some IntervalTrigger).
  unfold job_id. rewrite Hi. cbn [is_string Z.eqb Pos.eqb check bind].
  rewrite String.eqb_refl. cbn [check bind]. rewrite (kindForID_identity _ _ Hi). cbn [of_option bind].
  rewrite Hi. cbn [bind]. rewrite !String.eqb_refl. cbn [andb check bind is_none is_true].
  unfold validStoredRuntimePath. rewrite String.eqb_refl, (vj_path _ Hv), Hz.
  rewrite bool_decide_eq_true_2 by done. cbn [andb negb check bind].
  change (size (dict_at (job_heap i j) 3) =? 0)%nat with true. cbn [check bind].
  change (object_state (job_heap i j) 1) with (trigger_map (start j) (interval j)).
  rewrite decode_trigger_map; [|split; [apply Hv|done]|apply Hv]. cbn [bind].
  rewrite HN. cbn [map_err bind]. rewrite sameTimestamp_refl; [done|].
  pose proof (micro_time_unix _ (vj_next _ Hv)). lia.
Qed.
