(* ===== verification/PickleSafety.v ===== *)
(** * Safety of the Pickle reader

    The reader always answers, its only errors are invalid-state errors, and
    what it returns is well formed: allowlisted globals, valid UTF-8 strings,
    64-bit integers and references to allocated objects of the right kind. *)

From S2P Require Import Prelude.
From S2P Require Import GoStrings.
From S2P Require Import GoTime.
From S2P Require Import SchedJob.
From S2P Require Import PickleReader.
From S2P Require Import PickleWriter.

(** ** Well-formed values *)

(** What a heap cell is: [true] for a class instance. *)
Definition is_object (c : cell) : bool := match c with CObject _ _ => true | CDict _ => false end.

Abbreviation kinds h := (map is_object h).

Definition at_kind (ks : list bool) (l : nat) (b : bool) : bool := bool_decide (ks !! l = Some b).

(** The globals that the format admits. *)
Definition listed_global (g : pickleGlobal) : bool :=
  bool_decide (g ∈ [IntervalTrigger; Global "datetime" "timezone"; Global "datetime" "timedelta";
                    Global "datetime" "datetime"]%string).

Lemma allowedGlobal_listed g : allowedGlobal g = true -> listed_global g = true.
Proof.
  unfold allowedGlobal. intros H. apply bool_decide_eq_true_2.
  repeat (apply orb_true_iff in H as [H|H]); apply bool_decide_eq_true in H as ->; set_solver.
Qed.

Fixpoint safe (ks : list bool) (v : pickle_value) : bool :=
  match v with
  | VInt z => (min_int64 <=? z) && (z <=? max_int64)
  | VStr s => utf8_valid (bytes_of s)
  | VTuple vs => forallb (safe ks) vs
  | VGlobal g => listed_global g
  | VDict l => at_kind ks l false
  | VObject l => at_kind ks l true
  | VTime t => t mod 1000 =? 0
  | _ => true
  end.

Definition cell_safe (ks : list bool) (c : cell) : Prop :=
  match c with
  | CDict m => map_Forall (fun _ v => safe ks v = true) m
  | CObject class state =>
      class = IntervalTrigger /\
      match state with Some d => ks !! d = Some false | None => True end
  end.

Definition all_safe (ks : list bool) (vs : list pickle_value) : Prop :=
  Forall (fun v => safe ks v = true) vs.

(** The machine's invariant. *)
Record parser_inv (s : pickleParser) : Prop := {
  pi_stack : all_safe (kinds (cells s)) (stack s);
  pi_memo : all_safe (kinds (cells s)) (memo s);
  pi_cells : Forall (cell_safe (kinds (cells s))) (cells s);
  pi_marks : (length (marks s) <= maxPickleDepth)%nat;
  pi_memo_limit : Z.of_nat (length (memo s)) <= maxPickleMemo
}.

Section safe_mono.

Variables (ks ks' : list bool) (Hpre : ks `prefix_of` ks').

Lemma at_kind_mono l b : at_kind ks l b = true -> at_kind ks' l b = true.
Proof.
  unfold at_kind. rewrite !bool_decide_eq_true. intros H.
  destruct Hpre as [k ->]. by apply lookup_app_l_Some.
Qed.

Lemma safe_mono : forall v, safe ks v = true -> safe ks' v = true.
Proof using Hpre.
  fix IH 1. destruct v as [| | | | |vs| | | | | |]; cbn; auto using at_kind_mono.
  revert vs. fix IHl 1. destruct vs as [|w vs]; cbn; [done|].
  intros H. apply andb_true_iff in H as [H1 H2]. apply andb_true_iff. split.
  - by apply IH.
  - by apply IHl.
Qed.

Lemma all_safe_mono vs : all_safe ks vs -> all_safe ks' vs.
Proof using Hpre. intros H. eapply Forall_impl; [exact H|]. intros v. apply safe_mono. Qed.

Lemma cell_safe_mono c : cell_safe ks c -> cell_safe ks' c.
Proof using Hpre.
  destruct c as [m|cl [d|]]; cbn; [|intros [? H]; split; [done|]|done].
  - intros H i v Hv. apply safe_mono. by eapply H.
  - destruct Hpre as [k ->]. by apply lookup_app_l_Some.
Qed.
End safe_mono.

Definition invalid (e : sched_error) : Prop := exists d, e = EInvalidJobState d.

(** ** Triples on parser actions

    From a state whose cells have kinds [ks], the action keeps the invariant,
    does not count opcodes, only adds cells, and fails only with an
    invalid-state error. *)
Definition spec {A} (ks : list bool) (m : P A) (Q : A -> list bool -> Prop) : Prop :=
  forall s, parser_inv s -> kinds (cells s) = ks ->
  match m s with
  | Ok (a, s') =>
      parser_inv s' /\ opcodes s' = opcodes s /\
      ks `prefix_of` kinds (cells s') /\ Q a (kinds (cells s'))
  | Err e => invalid e
  end.

Definition any {A} : A -> list bool -> Prop := fun _ _ => True.

#[local] Hint Unfold any : core.
Ltac conj := repeat match goal with |- _ /\ _ => split end.

Section rules.

Lemma spec_bind {A B} ks (m : P A) (k : A -> P B) Q R :
  spec ks m Q ->
  (forall a ks', ks `prefix_of` ks' -> Q a ks' -> spec ks' (k a) R) ->
  spec ks (andThen m k) R.
Proof.
  intros Hm Hk s Hs Hks. specialize (Hm s Hs Hks). unfold andThen.
  destruct (m s) as [[a s1]|e]; [|done].
  destruct Hm as (H1 & H2 & H3 & H4). specialize (Hk a _ H3 H4 s1 H1 eq_refl).
  destruct (k a s1) as [[b s2]|e]; [|done].
  destruct Hk as (K1 & K2 & K3 & K4). split; [done|]. split; [congruence|].
  split; [|done]. by etrans.
Qed.

Lemma spec_ret {A} ks (a : A) (Q : A -> list bool -> Prop) : Q a ks -> spec ks (ret a) Q.
Proof. intros H s Hs <-. cbn. by conj. Qed.

Lemma spec_throw {A} ks d (Q : A -> list bool -> Prop) : spec ks (throw d) Q.
Proof. intros s _ _. cbn. by exists d. Qed.

Lemma spec_ensure ks b d : spec ks (ensure b d) (fun _ _ => b = true).
Proof. destruct b; [by apply spec_ret|apply spec_throw]. Qed.

Lemma spec_gets {A} ks (f : pickleParser -> A) (Q : A -> list bool -> Prop) :
  (forall s, parser_inv s -> kinds (cells s) = ks -> Q (f s) ks) -> spec ks (gets f) Q.
Proof. intros H s Hs Hks. cbn. subst ks. conj; eauto. Qed.

Lemma spec_stack ks : spec ks (gets stack) (fun k ks' => all_safe ks' k).
Proof. apply spec_gets. intros s Hs <-. apply Hs. Qed.

Lemma spec_cells ks :
  spec ks (gets cells) (fun h ks' => kinds h = ks' /\ Forall (cell_safe ks') h).
Proof. apply spec_gets. intros s Hs <-. split; [done|]. apply Hs. Qed.

Lemma spec_get {A} ks (f : pickleParser -> A) : spec ks (gets f) any.
Proof. by apply spec_gets. Qed.

Lemma spec_lift {A} ks (r : res A) (Q : A -> list bool -> Prop) :
  match r with Ok a => Q a ks | Err e => invalid e end -> spec ks (lift r) Q.
Proof. intros H s Hs <-. unfold lift. destruct r; cbn; [by conj|done]. Qed.

Lemma spec_weaken {A} ks (m : P A) (Q R : A -> list bool -> Prop) :
  spec ks m Q -> (forall a ks', ks `prefix_of` ks' -> Q a ks' -> R a ks') -> spec ks m R.
Proof.
  intros H HQ s Hs Hks. specialize (H s Hs Hks). destruct (m s) as [[a s']|]; [|done].
  destruct H as (? & ? & ? & ?). conj; auto.
Qed.

Lemma spec_set_stack ks (f : pickleParser -> list pickle_value) :
  (forall s, parser_inv s -> kinds (cells s) = ks -> all_safe ks (f s)) ->
  spec ks (modify (fun s => set_stack (f s) s)) any.
Proof.
  intros H s Hs Hks. cbn. rewrite Hks. split; [|by conj].
  constructor; cbn; rewrite ?Hks; [auto|..]; rewrite <- ?Hks; apply Hs.
Qed.

Lemma spec_push ks v : safe ks v = true -> spec ks (push v) any.
Proof.
  intros H. apply spec_set_stack. intros s Hs <-. constructor; [done|apply Hs].
Qed.

Lemma spec_pop ks : spec ks pop (fun v ks' => safe ks' v = true).
Proof.
  intros s [H1 H2 H3 H4 H5] <-. unfold pop. destruct (stack s) as [|v k] eqn:E; [by eexists|].
  inversion H1; subst. cbn. split; [by constructor|]. by conj.
Qed.

(** Kind-preserving updates of the heap. *)
Lemma spec_set_cells ks (f : pickleParser -> list cell) :
  (forall s, parser_inv s -> kinds (cells s) = ks ->
    kinds (f s) = ks /\ Forall (cell_safe ks) (f s)) ->
  spec ks (modify (fun s => set_cells (f s) s)) any.
Proof.
  intros H s Hs Hks. cbn. destruct (H s Hs Hks) as [E HF]. rewrite E. split; [|by conj].
  destruct Hs as [H1 H2 H3 H4 H5]. rewrite Hks in *. constructor; cbn; rewrite ?E; auto.
Qed.

Lemma spec_alloc ks c :
  cell_safe ks c ->
  spec ks (alloc c) (fun l ks' => ks' !! l = Some (is_object c)).
Proof.
  intros Hc s [H1 H2 H3 H4 H5] Hks. cbn. rewrite map_app, Hks. cbn.
  assert (Hpre : ks `prefix_of` ks ++ [is_object c]) by by apply prefix_app_r.
  split; [|split; [done|split; [done|]]].
  - rewrite Hks in *. constructor; cbn; rewrite ?map_app, ?Hks; cbn; auto.
    + by eapply all_safe_mono.
    + by eapply all_safe_mono.
    + apply Forall_app. split; [|constructor; [by eapply cell_safe_mono|done]].
      eapply Forall_impl; [exact H3|]. intros x. by apply cell_safe_mono.
  - rewrite lookup_app_r by (rewrite <- Hks, length_map; done).
    by rewrite <- Hks, length_map, Nat.sub_diag.
Qed.

Lemma spec_popMark ks d : spec ks (popMark d) any.
Proof.
  intros s [H1 H2 H3 H4 H5] <-. unfold popMark.
  destruct (marks s) as [|m ms] eqn:E; [by eexists|]. cbn in *.
  split; [constructor; cbn; auto; lia|]. conj; auto.
Qed.

Lemma spec_byte ks : spec ks p_byte (fun v _ => 0 <= v < 256).
Proof.
  intros s [H1 H2 H3 H4 H5] <-. unfold p_byte. destruct (rest s) as [|b r]; [by eexists|].
  cbn. split; [by constructor|]. conj; auto; apply byteZ_range.
Qed.

Lemma spec_bytesLength ks n :
  0 <= n -> spec ks (p_bytesLength n) (fun v _ => Z.of_nat (length v) = n).
Proof.
  intros Hn s [H1 H2 H3 H4 H5] <-. unfold p_bytesLength.
  destruct ((Z.of_nat (length (rest s)) <? n) || (maxPickleBytes <? n)) eqn:E; [by eexists|].
  cbn. split; [by constructor|]. conj; auto. boolify.
  match goal with H : (_ <? n) = false |- _ => apply Z.ltb_ge in H end.
  rewrite length_take. lia.
Qed.

Lemma spec_bytes ks n :
  0 <= n < two64 -> spec ks (p_bytes n) (fun v _ => Z.of_nat (length v) = n).
Proof. intros H. unfold p_bytes. rewrite Z.mod_small by lia. apply spec_bytesLength. lia. Qed.

Lemma spec_uint ks k :
  0 <= k < two64 ->
  spec ks (do v <- p_bytes k; ret (le_decode v)) (fun z _ => 0 <= z < 256 ^ k).
Proof.
  intros H. eapply spec_bind; [by apply spec_bytes|]. intros v ks' _ Hv. apply spec_ret.
  pose proof (le_decode_bound v) as Hb. by rewrite Hv in Hb.
Qed.

Lemma spec_stringLength ks n :
  0 <= n -> spec ks (p_stringLength n) (fun v _ => utf8_valid (bytes_of v) = true).
Proof.
  intros H. eapply spec_bind; [by apply spec_bytesLength|]. intros v k1 _ _.
  eapply spec_bind; [apply spec_ensure|]. intros ? k2 _ Hv. apply spec_ret.
  by rewrite list_ascii_of_string_of_list_ascii.
Qed.

Lemma spec_long ks n : 0 <= n < two64 -> spec ks (p_long n) (fun z _ => in_int64 z).
Proof.
  intros H. eapply spec_bind; [apply spec_ensure|]. intros _ k1 _ _.
  eapply spec_bind; [by apply spec_bytes|]. intros v k2 _ _. apply spec_ret. apply wrap64_range.
Qed.
End rules.

(** ** The composite operations *)

Section operations.

Lemma spec_memoize ks i : spec ks (memoize i) any.
Proof.
  intros s [H1 H2 H3 H4 H5] <-. unfold memoize. destruct (stack s) as [|v k] eqn:E; [by eexists|].
  destruct ((i <? 0) || (maxPickleMemo <=? i)) eqn:E1; [by eexists|].
  destruct (Z.of_nat (length (memo s)) <? i) eqn:E2; [by eexists|]. boolify.
  inversion H1; subst. apply Z.leb_gt in H0. apply Z.ltb_ge in E2, H.
  assert (Hi : all_safe (kinds (cells s)) (<[Z.to_nat i := v]> (memo s))) by by apply Forall_insert.
  destruct (i =? Z.of_nat (length (memo s))) eqn:Ei; cbn; (split; [constructor; cbn; rewrite ?E; auto|conj; auto]).
  - unfold all_safe. rewrite Forall_app. split; [done|]. by constructor.
  - rewrite length_app; cbn. apply Z.eqb_eq in Ei. lia.
  - by rewrite length_insert.
Qed.

Lemma spec_getMemo ks i : spec ks (getMemo i) any.
Proof.
  intros s [H1 H2 H3 H4 H5] <-. unfold getMemo. destruct (i <? 0); [by eexists|].
  destruct (memo s !! Z.to_nat i) as [v|] eqn:E; [|eexists; done].
  cbn. split; [constructor; cbn; auto|conj; auto]. constructor; [|done].
  unfold all_safe in H2. rewrite Forall_lookup in H2. eauto.
Qed.

Lemma all_safe_forallb ks vs : forallb (safe ks) vs = true <-> all_safe ks vs.
Proof.
  unfold all_safe. induction vs as [|v vs IH]; cbn; [done|].
  rewrite andb_true_iff, Forall_cons. tauto.
Qed.

Lemma all_safe_above ks m k : all_safe ks k -> all_safe ks (above m k).
Proof. intros H. apply Forall_rev. by apply Forall_take. Qed.

Lemma spec_fixedTuple ks n : spec ks (fixedTuple n) any.
Proof.
  intros s Hs <-. pose proof (pi_stack _ Hs) as H1. unfold fixedTuple.
  destruct (length (stack s) <? n)%nat; [by eexists|].
  destruct Hs as [_ H2 H3 H4 H5]. cbn. split; [constructor; cbn; auto|conj; auto].
  constructor; [|by apply Forall_drop]. cbn. apply all_safe_forallb.
  apply Forall_rev. by apply Forall_take.
Qed.

Lemma spec_markTuple ks : spec ks markTuple any.
Proof.
  unfold markTuple. eapply spec_bind; [apply spec_popMark|]. intros mark k1 _ _.
  eapply spec_bind; [apply spec_stack|]. intros k k2 P2 Hk.
  eapply spec_bind; [apply spec_ensure|]. intros _ k3 P3 _. apply spec_set_stack. intros s Hs E.
  eapply all_safe_mono in Hk; [|exact P3].
  constructor; [|by apply Forall_drop]. cbn. apply all_safe_forallb. by apply all_safe_above.
Qed.

Lemma set_pairs_safe ks : forall items m,
  all_safe ks items -> map_Forall (fun _ v => safe ks v = true) m ->
  match set_pairs items m with
  | Ok m' => map_Forall (fun _ v => safe ks v = true) m'
  | Err e => invalid e
  end.
Proof.
  fix IH 1. intros [|key [|value more]] m Hi Hm; cbn; [done|done|].
  inversion Hi as [|? ? _ H2]; subst. inversion H2; subst.
  destruct key; try (by eexists).
  destruct (m !! _); [by eexists|]. apply IH; [done|]. by apply map_Forall_insert_2.
Qed.

Lemma dict_at_safe ks h l :
  Forall (cell_safe ks) h -> map_Forall (fun _ v => safe ks v = true) (dict_at h l).
Proof.
  intros H. unfold dict_at. destruct (h !! l) as [[m|]|] eqn:E; try (by apply map_Forall_empty).
  rewrite Forall_lookup in H. by apply (H _ _ E).
Qed.

Lemma kinds_insert l c (h : heap) : kinds (<[l := c]> h) = <[l := is_object c]> (kinds h).
Proof. apply (list_fmap_insert is_object). Qed.

Lemma spec_write_dict ks l m :
  ks !! l = Some false -> map_Forall (fun _ v => safe ks v = true) m ->
  spec ks (write_dict l m) any.
Proof.
  intros Hl Hm. apply spec_set_cells. intros s Hs <-. split.
  - rewrite kinds_insert. cbn. by apply list_insert_id.
  - apply Forall_insert; [apply Hs|done].
Qed.

Lemma safe_dict ks l : safe ks (VDict l) = true -> ks !! l = Some false.
Proof. cbn. unfold at_kind. by rewrite bool_decide_eq_true. Qed.

Lemma spec_setItems ks : spec ks setItems any.
Proof.
  unfold setItems. eapply spec_bind; [apply spec_popMark|]. intros mark k1 _ _.
  eapply spec_bind; [apply spec_stack|]. intros k k2 _ Hk.
  eapply spec_bind; [apply spec_ensure|]. intros _ k3 P3 _.
  eapply all_safe_mono in Hk; [|exact P3].
  assert (Hb : all_safe k3 (below mark k)) by by apply Forall_drop.
  destruct (below mark k) as [|[] bs] eqn:E; try apply spec_throw.
  assert (Hl : k3 !! l = Some false) by (inversion Hb; subst; by apply safe_dict).
  eapply spec_bind; [apply spec_cells|]. intros h k4 P4 [_ Hh].
  eapply spec_bind.
  { apply (spec_lift _ _ (fun m ks' => map_Forall (fun _ v => safe ks' v = true) m)).
    apply set_pairs_safe; [|by apply dict_at_safe].
    eapply all_safe_mono; [exact P4|]. by apply all_safe_above. }
  intros m k5 P5 Hm. eapply spec_bind.
  { apply spec_write_dict; [|exact Hm].
    destruct (transitivity P4 P5) as [t ->]. by apply lookup_app_l_Some. }
  intros _ k6 P6 _. apply spec_set_stack. intros s _ _.
  eapply all_safe_mono; [|exact Hb]. by etrans; [exact P4|etrans].
Qed.

Lemma spec_setItem ks : spec ks setItem any.
Proof.
  unfold setItem. eapply spec_bind; [apply spec_stack|]. intros k k1 _ _.
  eapply spec_bind; [apply spec_ensure|]. intros _ k2 _ _.
  eapply spec_bind; [apply spec_pop|]. intros v k3 _ Hv.
  eapply spec_bind; [apply spec_pop|]. intros key k4 P4 _.
  eapply spec_bind; [apply spec_stack|]. intros k' k5 P5 Hk.
  destruct k' as [|[] ?]; try apply spec_throw. destruct key; try apply spec_throw.
  assert (Hl : k5 !! l = Some false) by (inversion Hk; subst; by apply safe_dict).
  eapply spec_bind; [apply spec_cells|]. intros h k6 P6 [_ Hh].
  case_match; [apply spec_throw|]. apply spec_write_dict.
  - destruct P6 as [t ->]. by apply lookup_app_l_Some.
  - apply map_Forall_insert_2; [|by apply dict_at_safe].
    eapply safe_mono; [|exact Hv]. by etrans; [exact P4|etrans].
Qed.

Lemma spec_build ks : spec ks build any.
Proof.
  unfold build. eapply spec_bind; [apply spec_pop|]. intros state k1 _ Hst.
  eapply spec_bind; [apply spec_stack|]. intros k k2 P2 Hk.
  eapply spec_bind; [apply spec_cells|]. intros h k3 P3 [E Hh].
  destruct k as [|[] ?]; try apply spec_throw. destruct state; try apply spec_throw.
  destruct (h !! l) as [[|class st]|] eqn:Ho; try apply spec_throw.
  eapply spec_bind; [apply spec_ensure|]. intros ? k4 P4 Hc.
  apply bool_decide_eq_true in Hc. subst class.
  assert (P : k2 `prefix_of` k4) by by etrans.
  assert (Ho' : k4 !! l = Some true).
  { destruct P as [t ->]. apply lookup_app_l_Some. inversion Hk as [|? ? Hv]; subst.
    cbn in Hv. unfold at_kind in Hv. by apply bool_decide_eq_true in Hv. }
  apply spec_set_cells. intros s Hs Hks. split.
  - rewrite kinds_insert, Hks. cbn. by apply list_insert_id.
  - apply Forall_insert; [rewrite <- Hks; apply Hs|]. cbn. split; [done|].
    apply safe_dict. eapply safe_mono; [|exact Hst]. by etrans.
Qed.

Lemma spec_popStringPair ks : spec ks popStringPair any.
Proof.
  unfold popStringPair. eapply spec_bind; [apply spec_pop|]. intros n k1 _ _.
  eapply spec_bind; [apply spec_pop|]. intros m k2 _ _.
  destruct n; try apply spec_throw. destruct m; try apply spec_throw. by apply spec_ret.
Qed.

Lemma spec_popTupleGlobal ks :
  spec ks popTupleGlobal (fun p ks' => all_safe ks' (fst p)).
Proof.
  unfold popTupleGlobal. eapply spec_bind; [apply spec_pop|]. intros n k1 _ Hn.
  eapply spec_bind; [apply spec_pop|]. intros m k2 P2 _.
  destruct n; try apply spec_throw. destruct m; try apply spec_throw. apply spec_ret.
  cbn. apply all_safe_forallb. exact (safe_mono _ _ P2 _ Hn).
Qed.

Lemma go_date_micro y mo d h mi s us : go_date y mo d h mi s (us * 1000) mod 1000 = 0.
Proof. unfold go_date, giga. Z.to_euclidean_division_equations. lia. Qed.

(** The outcome of a pure step: its value has the property, or an invalid-state error. *)
Definition sound {A} (Q : A -> Prop) (r : res A) : Prop :=
  match r with Ok v => Q v | Err e => invalid e end.

Lemma sound_require {A} (Q : A -> Prop) b d (k : res A) :
  sound Q k -> sound Q (require b else EInvalidJobState d in k).
Proof. destruct b; cbn; [done|]. intros _. by exists d. Qed.

Lemma sound_bind {A B} (Q : A -> Prop) (R : B -> Prop) (m : res A) (k : A -> res B) :
  sound Q m -> (forall a, Q a -> sound R (k a)) -> sound R (let* x := m in k x).
Proof. destruct m; cbn; auto. Qed.

Lemma sound_invalid {A} (Q : A -> Prop) d : sound Q (invalidState d).
Proof. by exists d. Qed.

Lemma decodePythonDatetime_sound bs : sound (fun t => t mod 1000 = 0) (decodePythonDatetime bs).
Proof.
  unfold decodePythonDatetime.
  do 10 (destruct bs as [|? bs]; [apply sound_invalid|]). destruct bs; [|apply sound_invalid].
  do 2 apply sound_require. cbn. apply go_date_micro.
Qed.

Lemma safeReduce_safe ks g args : sound (fun v => safe ks v = true) (safeReduce g args).
Proof.
  unfold safeReduce. repeat case_bool_decide; [| | |apply sound_invalid].
  - destruct args as [|a0 [|a1 [|a2 [|]]]]; try apply sound_invalid.
    destruct a0, a1, a2; try apply sound_invalid. by apply sound_require.
  - destruct args as [|a0 [|]]; try apply sound_invalid.
    destruct a0; try apply sound_invalid. by apply sound_require.
  - destruct args as [|a0 [|a1 [|]]]; try apply sound_invalid.
    destruct a0, a1; try apply sound_invalid.
    eapply sound_bind; [apply decodePythonDatetime_sound|]. intros t Ht. by apply Z.eqb_eq.
Qed.
End operations.

(** ** The opcode machine *)

Section machine.

Definition stopped (o : option pickle_value) (ks : list bool) : Prop :=
  match o with Some v => safe ks v = true | None => True end.

Lemma spec_then_none ks (m : P unit) Q :
  spec ks m Q -> spec ks (then m; ret None) stopped.
Proof. intros H. eapply spec_bind; [exact H|]. intros. by apply spec_ret. Qed.

Lemma spec_then_push ks {A} (m : P A) (f : A -> pickle_value) Q :
  spec ks m Q -> (forall a ks', Q a ks' -> safe ks' (f a) = true) ->
  spec ks (do a <- m; then push (f a); ret None) stopped.
Proof.
  intros H HQ. eapply spec_bind; [exact H|]. intros a ks' _ Ha.
  eapply spec_then_none. apply spec_push. auto.
Qed.

Lemma safe_int_range ks z : in_int64 z -> safe ks (VInt z) = true.
Proof. unfold in_int64. cbn. intros H. apply andb_true_iff. lia. Qed.

#[local] Ltac small := unfold in_int64, min_int64, max_int64, two64 in *; lia.

(** Updates of the scalar fields. *)
Lemma spec_modify ks (f : pickleParser -> pickleParser) :
  (forall s, stack (f s) = stack s /\ memo (f s) = memo s /\ marks (f s) = marks s /\
             cells (f s) = cells s /\ opcodes (f s) = opcodes s) ->
  spec ks (modify f) any.
Proof.
  intros H s [H1 H2 H3 H4 H5] Hks. cbn. destruct (H s) as (E1 & E2 & E3 & E4 & E5).
  rewrite E4. split; [constructor; rewrite ?E1, ?E2, ?E3, ?E4; auto|]. subst. by conj.
Qed.

Lemma spec_mark ks :
  spec ks (do ms <- gets marks;
           then ensure (length ms <? maxPickleDepth)%nat "Pickle nesting limit exceeded";
           then modify (fun s => set_marks (length (stack s) :: marks s) s); ret None) stopped.
Proof.
  intros s [H1 H2 H3 H4 H5] <-. unfold andThen, gets, ensure.
  destruct (length (marks s) <? maxPickleDepth)%nat eqn:E; cbn -[maxPickleDepth]; [|by eexists].
  apply Nat.ltb_lt in E. split; [constructor; cbn -[maxPickleDepth]; auto|by conj].
Qed.

Lemma spec_stop ks : spec ks (exec STOP) stopped.
Proof.
  intros s Hs <-. pose proof (pi_stack _ Hs) as H1. cbn.
  destruct (stack s) as [|v [|]] eqn:E; try by eexists.
  destruct (negb _); [|by eexists]. conj; auto. cbn. by inversion H1.
Qed.

Lemma spec_object ks :
  spec ks (do ' (args, class) <- popTupleGlobal;
      then ensure (bool_decide (class = IntervalTrigger) && (length args =? 0)%nat)
        "Pickle NEWOBJ target is not allowed";
      do l <- alloc (CObject class None); then push (VObject l); ret None) stopped.
Proof.
  eapply spec_bind; [apply spec_popTupleGlobal|]. intros [args class] k1 _ _.
  eapply spec_bind; [apply spec_ensure|]. intros ? k2 _ Hc. cbn beta in Hc. boolify. subst class.
  apply (spec_then_push _ _ VObject) with (Q := fun l ks' => ks' !! l = Some true).
  - by apply spec_alloc.
  - intros l ks' Hl. cbn. unfold at_kind. by apply bool_decide_eq_true.
Qed.

Lemma spec_long4 ks :
  spec ks (do n <- p_uint32;
      then ensure (negb (8 <? n)) "Pickle integer exceeds int64";
      do v <- p_long n; then push (VInt v); ret None) stopped.
Proof.
  eapply spec_bind; [by apply (spec_uint _ 4)|]. intros n k1 _ Hn.
  eapply spec_bind; [apply spec_ensure|]. intros ? k2 _ _.
  eapply (spec_then_push _ _ VInt); [apply spec_long; small|]. intros. by apply safe_int_range.
Qed.

(** A length, then that many bytes. *)
Lemma spec_sized {A} ks (m : P Z) (f : Z -> P A) (g : A -> pickle_value) k Q :
  spec ks m (fun z _ => 0 <= z < k) ->
  (forall n ks', 0 <= n < k -> spec ks' (f n) Q) ->
  (forall a ks', Q a ks' -> safe ks' (g a) = true) ->
  spec ks (do n <- m; do v <- f n; then push (g v); ret None) stopped.
Proof.
  intros Hm Hf Hg. eapply spec_bind; [exact Hm|]. intros n k1 _ Hn.
  eapply spec_then_push; [by apply Hf|exact Hg].
Qed.

Lemma spec_exec ks op : spec ks (exec op) stopped.
Proof.
  destruct op; cbn [exec exec_stack];
    try (eapply spec_then_none;
         auto using spec_fixedTuple, spec_markTuple, spec_setItems, spec_setItem, spec_build,
           spec_push; fail);
    auto using spec_mark, spec_stop, spec_object, spec_long4.
  - eapply spec_bind; [apply spec_byte|]. intros v k1 _ _.
    eapply spec_bind; [by apply spec_get|]. intros n k2 _ _.
    eapply spec_bind; [apply spec_ensure|]. intros ? k3 _ _.
    eapply spec_then_none. by apply spec_modify.
  - do 2 (eapply spec_bind; [by apply spec_get|]; intros ? ? _ _).
    eapply spec_bind; [apply spec_ensure|]. intros ? k3 _ _.
    eapply spec_bind; [by apply (spec_uint _ 8)|]. intros len k4 _ _.
    eapply spec_bind; [by apply spec_get|]. intros r k5 _ _.
    eapply spec_bind; [apply spec_ensure|]. intros ? k6 _ _.
    eapply spec_bind; [by apply spec_get|]. intros p k7 _ _.
    eapply spec_then_none. by apply spec_modify.
  - apply (spec_then_push _ _ VDict) with (Q := fun l ks' => ks' !! l = Some false).
    + apply spec_alloc. apply map_Forall_empty.
    + intros l ks' Hl. cbn. unfold at_kind. by apply bool_decide_eq_true.
  - apply (spec_then_push _ _ VInt) with (Q := fun z _ => 0 <= z < 256); [apply spec_byte|].
    intros. apply safe_int_range. small.
  - apply (spec_then_push _ _ VInt) with (Q := fun z _ => 0 <= z < 256 ^ 2); [by apply (spec_uint _ 2)|].
    intros. apply safe_int_range. small.
  - eapply spec_bind; [by apply (spec_uint _ 4)|]. intros v k1 _ _.
    eapply spec_then_none. apply spec_push. apply safe_int_range. unfold wrap32.
    pose proof (Z.mod_pos_bound (v + 2147483648) 4294967296). small.
  - eapply (spec_sized _ _ _ VInt 256);
      [apply spec_byte|intros; apply spec_long; small|intros; by apply safe_int_range].
  - eapply (spec_sized _ _ _ VStr 256);
      [apply spec_byte|intros; unfold p_string; rewrite Z.mod_small by small;
         apply spec_stringLength; lia|by intros].
  - eapply (spec_sized _ _ _ VStr (256 ^ 4));
      [by apply (spec_uint _ 4)|intros; apply spec_stringLength; lia|by intros].
  - eapply (spec_sized _ _ _ VStr (256 ^ 8));
      [by apply (spec_uint _ 8)|intros; apply spec_stringLength; lia|by intros].
  - apply (spec_sized _ _ _ VBytes 256 any);
      [apply spec_byte|intros; eapply spec_weaken; [apply spec_bytes; small|done]|by intros].
  - apply (spec_sized _ _ _ VBytes (256 ^ 4) any);
      [by apply (spec_uint _ 4)|intros; eapply spec_weaken; [apply spec_bytesLength; lia|done]|by intros].
  - apply (spec_sized _ _ _ VBytes (256 ^ 8) any);
      [by apply (spec_uint _ 8)|intros; eapply spec_weaken; [apply spec_bytesLength; lia|done]|by intros].
  - eapply spec_bind; [apply spec_popStringPair|]. intros [name module] k1 _ _.
    eapply spec_bind; [apply spec_ensure|]. intros ? k2 _ Hg.
    eapply spec_then_none. by apply spec_push, allowedGlobal_listed.
  - eapply spec_bind; [apply spec_popTupleGlobal|]. intros [args g] k1 _ _.
    eapply (spec_then_push _ _ (fun v => v)).
    + apply (spec_lift _ _ (fun v ks' => safe ks' v = true)), safeReduce_safe.
    + by intros.
  - eapply spec_bind; [by apply spec_get|]. intros m k1 _ _. eapply spec_then_none, spec_memoize.
  - eapply spec_bind; [apply spec_byte|]. intros m k1 _ _.
    eapply spec_then_none, spec_memoize.
  - eapply spec_bind; [by apply (spec_uint _ 4)|]. intros m k1 _ _.
    eapply spec_then_none, spec_memoize.
  - eapply spec_bind; [apply spec_byte|]. intros m k1 _ _.
    eapply spec_then_none, spec_getMemo.
  - eapply spec_bind; [by apply (spec_uint _ 4)|]. intros m k1 _ _.
    eapply spec_then_none, spec_getMemo.
Qed.

Lemma spec_checkFrame ks : spec ks checkFrame any.
Proof.
  intros s Hs Hks. unfold checkFrame.
  destruct (0 <=? frameEnd s); [|subst; by conj].
  destruct (frameEnd s <? position s); [by eexists|].
  destruct (position s =? frameEnd s); [|subst; by conj].
  subst. destruct Hs. split; [by constructor|]. by conj.
Qed.

(** One turn of the loop: it counts one opcode, and never past the limit. *)
Lemma iteration_sound s :
  parser_inv s ->
  match iteration s with
  | Ok (o, s') => parser_inv s' /\ opcodes s' = S (opcodes s) /\
                  (opcodes s < maxPickleOpcodes)%nat /\ stopped o (kinds (cells s'))
  | Err e => invalid e
  end.
Proof.
  intros Hs. unfold iteration.
  destruct (opcodes s <? maxPickleOpcodes)%nat eqn:Hn;
    [|by unfold andThen, gets, ensure; rewrite Hn; eexists].
  apply Nat.ltb_lt in Hn.
  assert (Hrun : spec (kinds (cells s)) (then checkFrame; p_byte) any).
  { eapply spec_bind; [apply spec_checkFrame|]. intros _ k _ _.
    eapply spec_weaken; [apply spec_byte|done]. }
  specialize (Hrun s Hs eq_refl). unfold andThen, gets, ensure, modify in *.
  apply Nat.ltb_lt in Hn as Hn'. rewrite Hn'. cbn -[checkFrame maxPickleOpcodes exec exec_stack].
  destruct (checkFrame s) as [[[] s1]|]; [|done].
  destruct (p_byte s1) as [[b s2]|]; [|done]. destruct Hrun as (I2 & O2 & _ & _).
  destruct (opcode_of b) as [op|]; [|by eexists].
  assert (I3 : parser_inv (tick s2)) by by destruct I2.
  pose proof (spec_exec _ op (tick s2) I3 eq_refl) as Hex.
  destruct (exec op (tick s2)) as [[[v|] s4]|]; [| |done].
  - destruct Hex as (I4 & O4 & _ & H4). cbn in O4. rewrite O2 in O4. by conj.
  - destruct Hex as (I4 & O4 & _ & H4). cbn in O4. rewrite O2 in O4.
    destruct (length (stack s4) <=? maxPickleOpcodes)%nat; [|by eexists]. by conj.
Qed.

(** What the whole parse promises. *)
Definition well_formed (p : pickle_value * heap) : Prop :=
  safe (kinds (snd p)) (fst p) = true /\ Forall (cell_safe (kinds (snd p))) (snd p).

(** The opcode limit is the fuel: it never runs out. *)
Lemma run_sound n s :
  parser_inv s -> (opcodes s <= maxPickleOpcodes)%nat ->
  (maxPickleOpcodes < opcodes s + n)%nat -> sound well_formed (run n s).
Proof.
  revert s. induction n as [|n IH]; intros s Hs Hle Hn; [lia|].
  cbn [run]. pose proof (iteration_sound s Hs) as H.
  destruct (iteration s) as [[o s']|]; [|done]. destruct H as (I & O & L & S).
  destruct o as [v|]; cbn -[maxPickleOpcodes].
  - split; [done|apply I].
  - apply IH; [done| |]; lia.
Qed.

Lemma initial_inv blob : parser_inv (initial_parser blob).
Proof. constructor; cbn; [constructor| constructor | constructor | unfold maxPickleDepth; lia | done]. Qed.

Lemma parsePickle_sound blob : sound well_formed (parsePickle blob).
Proof.
  unfold parsePickle. destruct (_ || _); [by eexists|].
  apply run_sound; [apply initial_inv|cbn; lia|].
  unfold parse_fuel, initial_parser. cbn -[maxPickleOpcodes]. lia.
Qed.
End machine.
