(* ===== verification/Scheduler.v ===== *)
(** * The scheduler ([internal/scheduler/scheduler.go])

    Configuration, owner claims, reconciliation of the job table with the
    configuration, and the dispatch of due jobs.  The SQLite connection is an
    interface ([JobStore]) whose laws state what its SQL statements do. *)

From S2P Require Import Prelude.
From S2P Require Import GoStrings.
From S2P Require Import GoTime.
From S2P Require Import SchedJob.
From S2P Require Import PickleReader.
From S2P Require Import PickleWriter.
From S2P Require Import JobState.
From S2P Require Import PickleSafety.

(** ** Column values *)

(** The dynamic types a scanned column can have; a [float32] is given by its
    exact double value. *)
Inductive sql_any :=
| AFloat64 (f : float64) | AFloat32 (f : float64) | AInt64 (z : Z)
| ABytes (b : bytes) | AString (s : string) | ANil.

Definition storedFloat (value : sql_any) : option float64 :=
  match value with
  | AFloat64 f | AFloat32 f => if is_finite f then Some f else None
  | AInt64 z => let f := f64_of_int z in if is_finite f then Some f else None
  | _ => None
  end.

Definition storedBlob (value : sql_any) : option bytes :=
  match value with
  | ABytes b => Some b
  | AString s => Some (bytes_of s)
  | _ => None
  end.

(** SQL's [=] between a column and a REAL parameter. *)
Definition sql_eq (column : sql_any) (f : float64) : bool :=
  match column with
  | AFloat64 g | AFloat32 g => f64_eq g f
  | AInt64 z => f64_eq (f64_of_int z) f
  | _ => false
  end.

Record row := Row { row_id : string; row_next : sql_any; row_state : sql_any }.

(** ** The database interface *)

(** The connection: one operation per SQL statement of the source. *)
Class JobStore (DB : Type) := {
  begin_tx : DB -> res DB;
  rollback_tx : DB -> option sched_error;
  commit_tx : DB -> res DB;
  (** [SELECT id, next_run_time, job_state ... ORDER BY id] *)
  select_jobs : DB -> res (list row);
  rows_err : DB -> option sched_error;
  rows_close : DB -> option sched_error;
  (** [DELETE ... WHERE id = ?] *)
  delete_job : string -> DB -> res DB;
  (** [INSERT ... ON CONFLICT(id) DO UPDATE] *)
  upsert_job : string -> float64 -> bytes -> DB -> res DB;
  (** [UPDATE ... WHERE id = ? AND next_run_time = ?], with the rows affected *)
  cas_job : string -> float64 -> float64 -> bytes -> DB -> res (Z * DB)
}.

(** The ids of a table in [ORDER BY id] order. *)
Definition sorted_rows (t : gmap string (sql_any * sql_any)) (l : list row) : Prop :=
  (map (fun r => (row_id r, (row_next r, row_state r))) l ≡ₚ map_to_list t) /\
  Sorted str_le (map row_id l).

(** What the statements mean, on the table contents [table]. *)
Class JobStoreLaws (DB : Type) `{JobStore DB} := {
  table : DB -> gmap string (sql_any * sql_any);
  law_begin db tx : begin_tx db = Ok tx -> table tx = table db;
  law_commit tx db : commit_tx tx = Ok db -> table db = table tx;
  law_select db l :
    select_jobs db = Ok l -> rows_err db = None -> sorted_rows (table db) l;
  law_delete id db db' : delete_job id db = Ok db' -> table db' = delete id (table db);
  law_upsert id f b db db' :
    upsert_job id f b db = Ok db' -> table db' = <[id := (AFloat64 f, ABytes b)]> (table db);
  law_cas id old new b db n db' :
    cas_job id old new b db = Ok (n, db') ->
    match table db !! id with
    | Some (column, _) =>
        if sql_eq column old
        then n = 1 /\ table db' = <[id := (AFloat64 new, ABytes b)]> (table db)
        else n = 0 /\ table db' = table db
    | None => n = 0 /\ table db' = table db
    end
}.

(** ** Configuration *)

Inductive handler_outcome := HOk | HError (what : string) | HPanic (what : string).

(** A processor: what a call at a given time does; [None] when not configured. *)
Abbreviation handler := (option (time -> handler_outcome)) (only parsing).

Record Config := MkConfig {
  Path : string;
  SourceWindowInterval : option duration;
  ExperienceIncubationInterval : option duration;
  SourceWindowHandler : handler;
  ExperienceIncubationHandler : handler
}.

Definition handler_of (c : Config) (k : JobKind) : handler :=
  match k with
  | SourceWindow => SourceWindowHandler c
  | ExperienceIncubation => ExperienceIncubationHandler c
  | OtherKind _ => None
  end.

Definition validateItem (item : string * option duration * handler) : res unit :=
  let ' (fld, itv, hd) := item in
  match itv with
  | None => Ok tt
  | Some i =>
      require negb ((i <=? 0) || negb (go_mod i 1000 =? 0)) else EConfiguration fld in
      require match hd with Some _ => true | None => false end else EProcessorMissing fld in
      Ok tt
  end.

Definition validateConfig (c : Config) : res unit :=
  match SourceWindowInterval c, ExperienceIncubationInterval c with
  | None, None => Err (EConfiguration "schedule_seconds")
  | _, _ =>
      let* _ := validateItem ("schedule_seconds", SourceWindowInterval c, SourceWindowHandler c)%string in
      validateItem ("experience_schedule_seconds", ExperienceIncubationInterval c,
                    ExperienceIncubationHandler c)%string
  end.

(** ** Owner claims: the process-wide set of open paths *)

Abbreviation owners := (gset string).

Definition claimOwner (path : string) (live : owners) : res owners :=
  if bool_decide (path ∈ live) then Err (EState "duplicate" path) else Ok ({[path]} ∪ live).

Definition releaseOwner (path : string) (live : owners) : owners := live ∖ {[path]}.

(** ** Loading the job table *)

Section store.
Context {DB : Type} `{JobStore DB}.

Definition load_row (path : string) (result : gmap JobKind Job) (r : row)
  : res (gmap JobKind Job) :=
  let* kd := of_option (kindForID (row_id r)) (EInvalidJobState "unknown stable Job ID") in
  require bool_decide (result !! kd = None) else EInvalidJobState "duplicate stable Job ID" in
  let* nx := of_option (storedFloat (row_next r))
               (EInvalidJobState "next_run_time column is not a finite float") in
  let* blob := of_option (storedBlob (row_state r))
                 (EInvalidJobState "job_state column is not bytes") in
  let* job := decodeJobState blob (row_id r) path nx in
  Ok (<[kd := job]> result).

(** [defer returnErr = errors.Join(returnErr, rows.Close())]. *)
Definition with_close {A} (r : res A) (close : option sched_error) : res A :=
  match r, close with
  | r, None => r
  | Ok _, Some e => Err e
  | Err e, Some e' => Err (EJoin e e')
  end.

Definition loadJobs (db : DB) (path : string) : res (gmap JobKind Job) :=
  let* rows := select_jobs db in
  with_close
    (let* result := fold_res (load_row path) ∅ rows in
     match rows_err db with Some e => Err e | None => Ok result end)
    (rows_close db).

(** ** Reconciliation *)

(** [t.Truncate(time.Microsecond)] *)
Definition truncate_micro (t : time) : time := t - t mod 1000.

(** One configured kind: delete, keep or reset its row. *)
Definition reconcile_item (existing : gmap JobKind Job) (path : string) (now : time)
  (st : DB * gmap JobKind Job) (item : JobKind * option duration) : res (DB * gmap JobKind Job) :=
  let ' (tx, result) := st in
  let ' (kd, itv) := item in
  let current := existing !! kd in
  match itv with
  | None =>
      match current with
      | Some j => let* tx' := delete_job (job_id j) tx in Ok (tx', result)
      | None => Ok (tx, result)
      end
  | Some i =>
      let reset :=
        let st := truncate_micro (now + i) in
        let* job := NewJob kd path i st st in
        let* blob := encodeJobState job in
        let* tx' := upsert_job (job_id job) (unixTimestamp (next job)) blob tx in
        Ok (tx', <[kd := job]> result) in
      match current with
      | Some j => if interval j =? i then Ok (tx, <[kd := j]> result) else reset
      | None => reset
      end
  end.

Definition wanted (c : Config) : list (JobKind * option duration) :=
  [(SourceWindow, SourceWindowInterval c); (ExperienceIncubation, ExperienceIncubationInterval c)].

(** The work between BEGIN and COMMIT. *)
Definition reconcile_tx (tx : DB) (path : string) (now : time) (c : Config)
  : res (DB * gmap JobKind Job) :=
  let* existing := loadJobs tx path in
  fold_res (reconcile_item existing path now) (tx, ∅) (wanted c).

(** The database after the call, with the jobs: an error rolls back. *)
Definition reconcile (db : DB) (path : string) (now : time) (c : Config)
  : DB * res (gmap JobKind Job) :=
  match begin_tx db with
  | Err e => (db, Err e)
  | Ok tx =>
      match reconcile_tx tx path now c with
      | Err e =>
          (db, Err match rollback_tx tx with Some e' => EJoin e e' | None => e end)
      | Ok (tx', jobs) =>
          match commit_tx tx' with
          | Err e => (db, Err e)
          | Ok db' => (db', Ok jobs)
          end
      end
  end.

(** ** The running scheduler *)

Record Sched := MkSched {
  s_path : string;
  s_db : DB;
  s_handlers : JobKind -> handler;
  s_jobs : gmap JobKind Job;
  s_cancelled : bool;
  s_closed : bool
}.

Definition set_db_jobs d js (s : Sched) : Sched :=
  MkSched (s_path s) d (s_handlers s) js (s_cancelled s) (s_closed s).

(** [s.cancel()], also the whole of [Pause]. *)
Definition cancel (s : Sched) : Sched :=
  MkSched (s_path s) (s_db s) (s_handlers s) (s_jobs s) true (s_closed s).
Definition Pause : Sched -> Sched := cancel.

Inductive event :=
| EvRun (k : JobKind)                       (** a processor was called *)
| EvReport (k : JobKind) (e : sched_error). (** [onError] was called *)

(** The order of [slices.SortFunc] in [snapshot]: run time, then id. *)
Definition job_before (a b : Job) : Prop :=
  next a < next b \/ (next a = next b /\ str_le (job_id a) (job_id b)).

#[export] Instance job_before_dec a b : Decision (job_before a b).
Proof. unfold job_before. apply _. Defined.

Definition snapshot (s : Sched) : list Job :=
  merge_sort job_before (map snd (map_to_list (s_jobs s))).

Definition safeHandle (s : Sched) (k : JobKind) (now : time) : list event :=
  match s_handlers s k with
  | None => [EvReport k (EHandler "processor is not configured")]
  | Some f =>
      EvRun k ::
      match f now with
      | HOk => []
      | HError w => [EvReport k (EHandler w)]
      | HPanic w => [EvReport k (EPanic w)]
      end
  end.

(** [ExecContext(s.ctx, UPDATE ...)]: a cancelled context fails. *)
Definition exec_cas (s : Sched) (job nx : Job) (blob : bytes) : res DB :=
  if s_cancelled s then Err (EDatabase "context canceled")
  else
    let* ' (affected, db') :=
      cas_job (job_id job) (unixTimestamp (next job)) (unixTimestamp (next nx)) blob (s_db s) in
    if affected =? 1 then Ok db' else Err (ECas (job_id job) affected).

(** One due job: advance, persist, record, run. *)
Definition dispatch (s : Sched) (job : Job) (now : time) : res (Sched * list event) :=
  let* nx := withNext job now in
  let* blob := encodeJobState nx in
  let* db' := exec_cas s job nx blob in
  let s' := set_db_jobs db' (<[kind job := nx]> (s_jobs s)) s in
  Ok (s', safeHandle s' (kind job) now).

Fixpoint run_list (s : Sched) (jobs : list Job) (now : time) : Sched * list event :=
  match jobs with
  | [] => (s, [])
  | job :: more =>
      if now <? next job then (s, [])
      else
        match dispatch s job now with
        | Err e => (cancel s, [EvReport (kind job) e])
        | Ok (s', evs) => let ' (s'', evs') := run_list s' more now in (s'', evs ++ evs')
        end
  end.

Definition runDue (s : Sched) (now : time) : Sched * list event := run_list s (snapshot s) now.

(** One choice of the [select] in [loop], or a call of [Pause] from outside. *)
Inductive loop_step : Sched -> list event -> Sched -> Prop :=
| step_timer s now s' evs :
    (* the timer of the earliest job has fired *)
    (exists j rest, snapshot s = j :: rest /\ next j <= now) ->
    (* the clock reads a date that a job can store *)
    unix now <= 253402300799 ->
    runDue s now = (s', evs) -> loop_step s evs s'
| step_wake s : loop_step s [] s
| step_pause s : loop_step s [] (Pause s).

Inductive loop_steps : Sched -> list event -> Sched -> Prop :=
| loop_refl s : loop_steps s [] s
| loop_more s evs s' evs' s'' :
    loop_step s evs s' -> loop_steps s' evs' s'' -> loop_steps s (evs ++ evs') s''.

(** [Close], given whether the loop drained before the deadline, and the error
    of closing the database. *)
Definition Close (s : Sched) (live : owners) (drained : bool) (close_err : option sched_error)
  : Sched * owners * res unit :=
  if s_closed s then (s, live, Ok tt)
  else
    let s' := cancel s in
    if negb drained then (s', live, Err (EDatabase "context done"))
    else
      match close_err with
      | Some e => (s', live, Err e)
      | None =>
          (MkSched (s_path s') (s_db s') (s_handlers s') (s_jobs s') true true,
           releaseOwner (s_path s') live, Ok tt)
      end.

End store.
#[global] Arguments Sched DB : clear implicits.
