(* ===== verification/ReconcileFacts.v ===== *)
(** * Reconciliation: facts

    Jobs read back from the table are valid, loading reads exactly the stored
    jobs, and reconciliation leaves the table and the jobs in agreement. *)

From S2P Require Import Prelude.
From S2P Require Import GoStrings.
From S2P Require Import GoTime.
From S2P Require Import SchedJob.
From S2P Require Import PickleReader.
From S2P Require Import PickleWriter.
From S2P Require Import JobState.
From S2P Require Import PickleSafety.
From S2P Require Import Scheduler.

(** ** Decoded jobs *)

Lemma td_duration_range d itv : td_duration d = Some itv -> itv <= max_int64.
Proof.
  unfold td_duration. destruct (_ || _); [done|]. destruct (_ <? td_days d); [done|].
  cbv zeta. destruct (_ <? _); [done|]. intros H. apply Some_inj in H. subst itv.
  apply wrap64_range.
Qed.

Lemma decodeIntervalTrigger_range m st itv :
  decodeIntervalTrigger m = Ok (st, itv) -> itv <= max_int64.
Proof.
  unfold decodeIntervalTrigger. intros H. bind_inv H.
  destruct (td_duration a4) as [i|] eqn:E; [|done].
  destruct (i <=? 0); [done|]. assert (i = itv) as -> by congruence.
  by eapply td_duration_range.
Qed.

(** A decoded job is valid and is the one its row names. *)
Record decoded_job (id path : string) (column : float64) (j : Job) : Prop := {
  dj_valid : valid_job j;
  dj_path : runtimePath j = path;
  dj_kind : kindForID id = Some (kind j);
  dj_id : job_id j = id;
  dj_interval : interval j <= max_int64;
  dj_column : sameTimestamp column (next j) = true;
  dj_nul : no_nul path
}.

Lemma kindForID_id id kd : kindForID id = Some kd -> forall j, kind j = kd -> job_id j = id.
Proof.
  unfold kindForID. intros H j Hj. unfold job_id. rewrite Hj.
  destruct (String.eqb_spec id SourceWindowJobID) as [->|]; [by injection H as <-|].
  destruct (String.eqb_spec id ExperienceIncubationJobID) as [->|]; [by injection H as <-|done].
Qed.

Lemma decodeJobState_decoded blob id path column j :
  decodeJobState blob id path column = Ok j -> decoded_job id path column j.
Proof.
  unfold decodeJobState. intros H. bind_inv H.
  destruct a as [root h]. bind_inv H.
  destruct a12 as [st itv]. bind_inv H. ok_inv. subst j.
  destruct (field (dict_at h a) "next_run_time") as [| | | | | | | | | | |t]; try done.
  injection Ha14 as ->.
  destruct (NewJob a3 path itv st a12) as [j|] eqn:HN; [|done]. injection Ha15 as ->.
  apply NewJob_valid in HN as [-> Hv].
  assert (Hp : validStoredRuntimePath path path = true).
  { destruct a6; try done. destruct (validStoredRuntimePath s path) eqn:E; [|done].
    unfold validStoredRuntimePath in E. boolify. 
    match goal with H : String.eqb _ _ = true |- _ => apply String.eqb_eq in H; subst s end.
    unfold validStoredRuntimePath. rewrite String.eqb_refl. cbn.
    apply andb_true_iff. split; [done|]. by apply negb_true_iff. }
  unfold validStoredRuntimePath in Hp. boolify.
  constructor; cbn; auto.
  - by apply (kindForID_id id a3).
  - by eapply decodeIntervalTrigger_range.
Qed.

(** ** Rows *)

Abbreviation columns := (sql_any * sql_any)%type.

(** The job that a row holds, under the scheduler's path. *)
Definition row_reads (path id : string) (cs : columns) (j : Job) : Prop :=
  exists f blob, storedFloat (fst cs) = Some f /\ storedBlob (snd cs) = Some blob /\
                 decodeJobState blob id path f = Ok j.

Lemma row_reads_functional path id cs j j' :
  row_reads path id cs j -> row_reads path id cs j' -> j = j'.
Proof. intros (f & b & H1 & H2 & H3) (f' & b' & H1' & H2' & H3'). congruence. Qed.

Lemma row_reads_decoded path id cs j :
  row_reads path id cs j -> exists f, storedFloat (fst cs) = Some f /\ decoded_job id path f j.
Proof. intros (f & b & H1 & _ & H3). exists f. eauto using decodeJobState_decoded. Qed.

Lemma row_reads_id path id cs j : row_reads path id cs j -> job_id j = id.
Proof. intros H. apply row_reads_decoded in H as (f & _ & H). apply H. Qed.

Lemma row_reads_kind path id cs j : row_reads path id cs j -> kindForID id = Some (kind j).
Proof. intros H. apply row_reads_decoded in H as (f & _ & H). apply H. Qed.

(** The table holds exactly these jobs, one row each. *)
Record represents (path : string) (t : gmap string columns) (jobs : gmap JobKind Job) : Prop := {
  rep_rows : forall id cs, t !! id = Some cs -> exists j, row_reads path id cs j;
  rep_jobs : forall k j,
    jobs !! k = Some j <-> exists id cs, t !! id = Some cs /\ row_reads path id cs j /\ k = kind j
}.

Section represents.
Context {path : string} {t : gmap string columns} {jobs : gmap JobKind Job}.
Hypothesis R : represents path t jobs.

Lemma rep_row k j :
  jobs !! k = Some j -> kind j = k /\ exists cs, t !! job_id j = Some cs /\ row_reads path (job_id j) cs j.
Proof using R.
  intros H. apply (rep_jobs _ _ _ R) in H as (id & cs & H1 & H2 & ->).
  split; [done|]. rewrite (row_reads_id _ _ _ _ H2). eauto.
Qed.

(** Rows of different ids hold jobs of different kinds. *)
Lemma rep_id id cs j k : t !! id = Some cs -> row_reads path id cs j -> kindForID id = Some k -> k = kind j.
Proof using. intros _ H Hk. apply row_reads_kind in H. congruence. Qed.

Lemma kindForID_inj id id' k : kindForID id = Some k -> kindForID id' = Some k -> id = id'.
Proof using.
  intros H H'. set (j := MkJob k "" 0 0 0).
  by rewrite <- (kindForID_id _ _ H j eq_refl), <- (kindForID_id _ _ H' j eq_refl).
Qed.

Lemma represents_delete k j :
  jobs !! k = Some j -> represents path (delete (job_id j) t) (delete k jobs).
Proof using R.
  intros Hj. destruct (rep_row _ _ Hj) as [Hk (cs & Hcs & Hr)]. split.
  - intros id cs' H. apply lookup_delete_Some in H as [_ H]. by eapply rep_rows.
  - intros k' j'. rewrite lookup_delete_Some, (rep_jobs _ _ _ R). split.
    + intros [Hne (id & cs' & H1 & H2 & ->)]. exists id, cs'. split; [|done].
      apply lookup_delete_Some. split; [|done]. intros <-. apply Hne. rewrite <- Hk.
      assert (cs' = cs) as -> by congruence. by rewrite (row_reads_functional _ _ _ _ _ Hr H2).
    + intros (id & cs' & H1 & H2 & ->). apply lookup_delete_Some in H1 as [Hne H1]. split; [|eauto].
      intros E. apply Hne.
      apply row_reads_kind in Hr, H2. eapply kindForID_inj; [exact Hr|congruence].
Qed.

Lemma represents_insert j cs :
  row_reads path (job_id j) cs j ->
  represents path (<[job_id j := cs]> t) (<[kind j := j]> jobs).
Proof using R.
  intros Hr. split.
  - intros id cs' H. apply lookup_insert_Some in H as [[<- <-]|[_ H]]; [eauto|by eapply rep_rows].
  - intros k' j'. rewrite lookup_insert_Some, (rep_jobs _ _ _ R). split.
    + intros [[<- <-]|[Hne (id & cs' & H1 & H2 & ->)]].
      * exists (job_id j), cs. by rewrite lookup_insert_eq.
      * exists id, cs'. split; [|done]. apply lookup_insert_Some. right. split; [|done].
        intros <-. apply Hne. apply row_reads_kind in Hr, H2. congruence.
    + intros (id & cs' & H1 & H2 & ->).
      apply lookup_insert_Some in H1 as [[<- <-]|[Hne H1]].
      * left. by rewrite (row_reads_functional _ _ _ _ _ Hr H2).
      * right. split; [|eauto]. intros E. apply Hne.
        apply row_reads_kind in Hr, H2. eapply kindForID_inj; [exact Hr|congruence].
Qed.
End represents.

Lemma represents_functional path t m m' : represents path t m -> represents path t m' -> m = m'.
Proof.
  intros R R'. apply map_eq. intros k. apply option_eq. intros j.
  by rewrite (rep_jobs _ _ _ R), (rep_jobs _ _ _ R').
Qed.

(** ** Loading *)

Section load.
Context {DB : Type} {S : JobStore DB} {L : JobStoreLaws DB} (path : string).

Definition row_columns (r : row) : columns := (row_next r, row_state r).

Lemma load_row_ok acc r acc' :
  load_row path acc r = Ok acc' <->
  exists j, row_reads path (row_id r) (row_columns r) j /\ acc !! kind j = None /\
            acc' = <[kind j := j]> acc.
Proof.
  unfold load_row. split.
  - intros H. bind_inv H. ok_inv. boolify. exists a3. subst acc'.
    apply decodeJobState_decoded in Ha3 as D. pose proof (dj_kind _ _ _ _ D) as Hk.
    assert (a = kind a3) as -> by congruence. split; [|done]. by exists a1, a2.
  - intros (j & Hr & Hn & ->). rewrite (row_reads_kind _ _ _ _ Hr). cbn.
    rewrite bool_decide_eq_true_2 by done. destruct Hr as (f & b & H1 & H2 & H3).
    unfold row_columns in *. cbn in *. by rewrite H1, H2; cbn; rewrite H3.
Qed.

Lemma load_rows_reads rows acc m :
  fold_res (load_row path) acc rows = Ok m ->
  (forall r, r ∈ rows -> exists j, row_reads path (row_id r) (row_columns r) j) /\
  (forall k j, m !! k = Some j <->
     acc !! k = Some j \/
     exists r, r ∈ rows /\ row_reads path (row_id r) (row_columns r) j /\ k = kind j).
Proof.
  revert acc. induction rows as [|r rows IH]; intros acc; cbn.
  - intros [= <-]. split; [by intros r H; inversion H|]. intros k j. split; [auto|].
    intros [H|(r & H & _)]; [done|inversion H].
  - intros H. apply bind_ok_inv in H as (acc' & H1 & H2).
    apply load_row_ok in H1 as (j0 & Hr & Hn & ->). apply IH in H2 as [A B]. split.
    + intros r' [->|H]%elem_of_cons; eauto.
    + intros k j. rewrite B, lookup_insert_Some. split.
      * intros [[[<- <-]|[_ H]]|(r' & H & Hr' & ->)]; [|by left|].
        -- right. exists r. split; [by left|done].
        -- right. exists r'. split; [by right|done].
      * intros [H|(r' & [->|H]%elem_of_cons & Hr' & ->)].
        -- left. right. split; [congruence|done].
        -- left. left. by rewrite (row_reads_functional _ _ _ _ _ Hr Hr').
        -- right. eauto.
Qed.

Lemma load_rows_total rows acc :
  (forall r, r ∈ rows -> exists j, row_reads path (row_id r) (row_columns r) j /\ acc !! kind j = None) ->
  NoDup (map row_id rows) -> exists m, fold_res (load_row path) acc rows = Ok m.
Proof.
  revert acc. induction rows as [|r rows IH]; intros acc H Hnd; cbn; [eauto|].
  inversion Hnd as [|? ? Hr Hnd']; subst.
  destruct (H r) as (j & Hj & Hn); [by left|].
  rewrite (proj2 (load_row_ok acc r (<[kind j := j]> acc))) by eauto. cbn.
  apply IH; [|done]. intros r' Hr'. destruct (H r') as (j' & Hj' & Hn'); [by right|].
  exists j'. split; [done|]. rewrite lookup_insert_ne; [done|]. intros E. apply Hr.
  apply row_reads_kind in Hj, Hj'.
  assert (row_id r = row_id r') as -> by (eapply kindForID_inj; [exact Hj|congruence]).
  apply list_elem_of_fmap. eauto.
Qed.

Lemma sorted_rows_lookup t l :
  sorted_rows t l ->
  NoDup (map row_id l) /\ forall id cs, t !! id = Some cs <-> exists r, r ∈ l /\ row_id r = id /\ row_columns r = cs.
Proof.
  intros [HP _]. split.
  - assert (E : map row_id l = (map (fun r => (row_id r, (row_next r, row_state r))) l).*1).
    { unfold fmap. change (@list_fmap) with (@map). by rewrite map_map. }
    rewrite E, HP. apply NoDup_fst_map_to_list.
  - intros id cs. rewrite <- elem_of_map_to_list, <- HP, list_elem_of_fmap. split.
    + intros (r & [= -> ->] & Hr). eauto.
    + intros (r & Hr & <- & <-). exists r. done.
Qed.

Lemma with_close_ok {A} (r : res A) c a : with_close r c = Ok a -> r = Ok a /\ c = None.
Proof. destruct r, c; cbn; by intros [= ->]. Qed.

Lemma loadJobs_represents db m :
  loadJobs db path = Ok m -> rows_err db = None /\ represents path (table db) m.
Proof.
  unfold loadJobs. intros H. bind_inv H. apply with_close_ok in H as [H _]. bind_inv H. destruct (rows_err db) eqn:E; [done|]. ok_inv. subst a0.
  split; [done|]. pose proof (law_select db a Ha E) as HS.
  apply sorted_rows_lookup in HS as [_ HT]. apply load_rows_reads in Ha0 as [A B]. split.
  - intros id cs Hid. apply HT in Hid as (r & Hr & <- & <-). eauto.
  - intros k j. rewrite B, lookup_empty. split.
    + intros [|(r & Hr & Hj & ->)]; [done|]. exists (row_id r), (row_columns r).
      split; [|done]. apply HT. eauto.
    + intros (id & cs & H1 & H2 & ->). apply HT in H1 as (r & Hr & <- & <-). eauto.
Qed.

Lemma loadJobs_complete db rows m :
  represents path (table db) m ->
  select_jobs db = Ok rows -> rows_err db = None -> rows_close db = None ->
  loadJobs db path = Ok m.
Proof.
  intros R Hs He Hc. unfold loadJobs. rewrite Hs, He, Hc. cbn.
  pose proof (law_select db rows Hs He) as HS. apply sorted_rows_lookup in HS as [Hnd HT].
  destruct (load_rows_total rows ∅) as [m' Hm']; [|done|].
  { intros r Hr. destruct (rep_rows _ _ _ R (row_id r) (row_columns r)) as [j Hj].
    - apply HT. eauto.
    - exists j. by rewrite lookup_empty. }
  rewrite Hm'. cbn. f_equal. apply map_eq. intros k. apply option_eq. intros j.
  apply load_rows_reads in Hm' as [_ B]. rewrite B, (rep_jobs _ _ _ R), lookup_empty. split.
  - intros [|(r & Hr & Hj & ->)]; [done|]. exists (row_id r), (row_columns r).
    split; [|done]. apply HT. eauto.
  - intros (id & cs & H1 & H2 & ->). apply HT in H1 as (r & Hr & <- & <-). eauto.
Qed.
End load.

(** ** Reconciling *)

Section reconcile.
Context {DB : Type} {S : JobStore DB} {L : JobStoreLaws DB} (path : string).
Hypothesis path_utf8 : utf8_valid (bytes_of path) = true.
Hypothesis path_no_nul : no_nul path.

(** The row that the writer stores for a job reads back as that job. *)
Lemma row_reads_written j blob :
  valid_job j -> interval j <= max_int64 -> runtimePath j = path -> encodeJobState j = Ok blob ->
  row_reads path (job_id j) (AFloat64 (unixTimestamp (next j)), ABytes blob) j.
Proof using path_utf8 path_no_nul.
  intros Hv Hi Hp He. exists (unixTimestamp (next j)), blob. cbn. split; [|split; [done|]].
  - rewrite unixTimestamp_finite; [done|]. pose proof (micro_time_unix _ (vj_next _ Hv)). lia.
  - rewrite <- Hp. by apply decode_encode_job; rewrite ?Hp.
Qed.

(** The job that reconciliation wants for one kind. *)
Definition fresh_job (kd : JobKind) (now : time) (i : duration) : Job :=
  MkJob kd path i (truncate_micro (now + i)) (truncate_micro (now + i)).

Definition desired (kd : JobKind) (now : time) (current : option Job) (itv : option duration) : option Job :=
  match itv with
  | None => None
  | Some i =>
      match current with
      | Some j => if interval j =? i then Some j else Some (fresh_job kd now i)
      | None => Some (fresh_job kd now i)
      end
  end.

Definition itv_ok (itv : option duration) : Prop :=
  match itv with Some i => i <= max_int64 | None => True end.

(** One kind: the table follows the result, for the jobs [cur] it held before. *)
Lemma reconcile_item_spec existing now tx result kd itv tx' result' cur :
  represents path (table tx) cur -> existing !! kd = cur !! kd -> result !! kd = None -> itv_ok itv ->
  reconcile_item existing path now (tx, result) (kd, itv) = Ok (tx', result') ->
  let want := desired kd now (cur !! kd) itv in
  represents path (table tx') (partial_alter (fun _ => want) kd cur) /\
  result' = partial_alter (fun _ => want) kd result.
Proof using path_utf8 path_no_nul L.
  intros R Hex Hn Hitv. unfold reconcile_item. rewrite Hex. cbv zeta.
  assert (Hreset : forall i,
    (let st := truncate_micro (now + i) in
     let* job := NewJob kd path i st st in
     let* blob := encodeJobState job in
     let* tx' := upsert_job (job_id job) (unixTimestamp (next job)) blob tx in
     Ok (tx', <[kd := job]> result)) = Ok (tx', result') -> i <= max_int64 ->
    represents path (table tx') (<[kd := fresh_job kd now i]> cur) /\
    result' = <[kd := fresh_job kd now i]> result).
  { intros i H Hi. cbv zeta in H. bind_inv H.
    apply NewJob_valid in Ha as [-> Hv]. change (MkJob _ _ _ _ _) with (fresh_job kd now i) in *.
    apply (law_upsert _ _ _ _ _) in Ha1. injection H as <- <-. split; [|done].
    rewrite Ha1. apply represents_insert; [done|]. by apply row_reads_written. }
  destruct itv as [i|]; cbn [desired].
  - destruct (cur !! kd) as [j|] eqn:Ej.
    + destruct (interval j =? i) eqn:Ei.
      * intros [= <- <-]. split; [|done]. change (partial_alter _ kd cur) with (<[kd := j]> cur).
        by rewrite insert_id.
      * intros H. by apply Hreset.
    + intros H. by apply Hreset.
  - destruct (cur !! kd) as [j|] eqn:Ej.
    + intros H. bind_inv H. injection H as <- <-. split.
      * rewrite (law_delete _ _ _ Ha). by apply represents_delete.
      * change (partial_alter _ kd result) with (delete kd result). by rewrite delete_id.
    + intros [= <- <-]. split.
      * change (partial_alter _ kd cur) with (delete kd cur). by rewrite delete_id.
      * change (partial_alter _ kd result) with (delete kd result). by rewrite delete_id.
Qed.

(** What configuration [c] makes of the stored jobs [existing]. *)
Definition interval_of (c : Config) (k : JobKind) : option duration :=
  match k with
  | SourceWindow => SourceWindowInterval c
  | ExperienceIncubation => ExperienceIncubationInterval c
  | OtherKind _ => None
  end.

Definition reconciled (c : Config) (now : time) (existing jobs : gmap JobKind Job) : Prop :=
  forall k, jobs !! k = desired k now (existing !! k) (interval_of c k).

Lemma represents_known t m name : represents path t m -> m !! OtherKind name = None.
Proof using.
  intros R. destruct (m !! OtherKind name) as [j|] eqn:E; [|done].
  apply (rep_jobs _ _ _ R) in E as (id & cs & _ & H & E).
  apply row_reads_kind in H. unfold kindForID in H. rewrite <- E in H. by repeat case_match.
Qed.

Lemma reconcile_tx_spec tx now c tx' jobs :
  itv_ok (SourceWindowInterval c) -> itv_ok (ExperienceIncubationInterval c) ->
  reconcile_tx tx path now c = Ok (tx', jobs) ->
  exists existing, represents path (table tx) existing /\
    reconciled c now existing jobs /\ represents path (table tx') jobs.
Proof using path_utf8 path_no_nul L.
  intros H1 H2 H. unfold reconcile_tx in H. apply bind_ok_inv in H as (existing & Hl & H).
  apply loadJobs_represents in Hl as [_ R]. exists existing. split; [done|].
  cbn [fold_res wanted] in H. apply bind_ok_inv in H as ([tx1 r1] & I1 & H).
  apply bind_ok_inv in H as ([tx2 r2] & I2 & H). injection H as <- <-.
  eapply reconcile_item_spec in I1; [|done..]. cbv zeta in I1. destruct I1 as [R1 ->].
  eapply reconcile_item_spec in I2; [|done|..|done]; cbv zeta in I2; [destruct I2 as [R2 ->]|..].
  - assert (E : partial_alter (fun _ => desired ExperienceIncubation now
                  (existing !! ExperienceIncubation) (ExperienceIncubationInterval c)) ExperienceIncubation
                (partial_alter (fun _ => desired SourceWindow now (existing !! SourceWindow)
                  (SourceWindowInterval c)) SourceWindow existing)
              = partial_alter (fun _ => desired ExperienceIncubation now
                  (existing !! ExperienceIncubation) (ExperienceIncubationInterval c)) ExperienceIncubation
                (partial_alter (fun _ => desired SourceWindow now (existing !! SourceWindow)
                  (SourceWindowInterval c)) SourceWindow ∅)).
    { apply map_eq. intros k. destruct k as [| |name].
      - by rewrite !(lookup_partial_alter_ne _ _ ExperienceIncubation), !lookup_partial_alter_eq.
      - by rewrite !lookup_partial_alter_eq.
      - rewrite !(lookup_partial_alter_ne _ _ ExperienceIncubation) by done.
        rewrite !lookup_partial_alter_ne, lookup_empty by done. by eapply represents_known. }
    rewrite (lookup_partial_alter_ne _ existing SourceWindow ExperienceIncubation) in * by done.
    rewrite E in R2. split; [|done]. intros [| |name]; cbn [interval_of].
    + by rewrite (lookup_partial_alter_ne _ _ ExperienceIncubation), lookup_partial_alter_eq.
    + by rewrite lookup_partial_alter_eq.
    + by rewrite !lookup_partial_alter_ne.
  - by rewrite lookup_partial_alter_ne.
  - by rewrite lookup_partial_alter_ne.
Qed.

Lemma reconcile_spec db now c db' jobs :
  itv_ok (SourceWindowInterval c) -> itv_ok (ExperienceIncubationInterval c) ->
  reconcile db path now c = (db', Ok jobs) ->
  exists existing, represents path (table db) existing /\
    reconciled c now existing jobs /\ represents path (table db') jobs.
Proof using path_utf8 path_no_nul L.
  intros H1 H2 H. unfold reconcile in H. destruct (begin_tx db) as [tx|] eqn:Hb; [|done].
  destruct (reconcile_tx tx path now c) as [[tx' js]|] eqn:Ht; [|done].
  destruct (commit_tx tx') as [d|] eqn:Hc; [|done]. injection H as <- <-.
  apply reconcile_tx_spec in Ht as (ex & A & B & C); [|done..].
  exists ex. rewrite <- (law_begin _ _ Hb), (law_commit _ _ Hc). done.
Qed.
End reconcile.
