(* ===== verification/DispatchFacts.v ===== *)
(** * Dispatching due jobs: facts

    What [runDue] does to the jobs, the table and the processors, and the
    invariant that every run of the loop keeps. *)

From S2P Require Import Prelude.
From S2P Require Import GoStrings.
From S2P Require Import GoTime.
From S2P Require Import SchedJob.
From S2P Require Import PickleReader.
From S2P Require Import PickleWriter.
From S2P Require Import JobState.
From S2P Require Import PickleSafety.
From S2P Require Import Scheduler.
From S2P Require Import ReconcileFacts.

(** ** Encoding always fits *)

Definition sz (b : bytes) : Z := Z.of_nat (length b).

Lemma sz_app a b : sz (a ++ b) = sz a + sz b.
Proof. unfold sz. rewrite length_app. lia. Qed.

Lemma sz_string s : sz (w_string s) <= Z.of_nat (String.length s) + 5.
Proof.
  unfold w_string. rewrite length_bytes_of. case_match; rewrite sz_app; unfold sz.
  - rewrite length_bytes_of. cbn [length]. lia.
  - unfold w_uint32. rewrite length_app, length_le_encode, length_bytes_of. cbn [length]. lia.
Qed.

Lemma sz_integer v : sz (w_integer v) <= 10.
Proof.
  unfold w_integer, w_uint16, w_uint32. repeat (destruct (_ && _)%bool); cbv zeta;
    rewrite ?sz_app; unfold sz; cbn [length]; rewrite ?length_take, ?length_le_encode; lia.
Qed.

(** Replaces the size of each part by its bound. *)
Ltac size_step :=
  match goal with
  | |- context [sz (?a ++ ?b)] => rewrite (sz_app a b)
  | |- context [sz (w_integer ?v)] =>
      pose proof (sz_integer v); generalize dependent (sz (w_integer v)); intros
  | |- context [sz (w_opcode ?v)] => change (sz (w_opcode v)) with 1
  | |- context [sz (w_string ?s)] =>
      let H := fresh in pose proof (sz_string s) as H; cbn [String.length] in H; generalize dependent (sz (w_string s)); intros
  end.
Ltac sizes := repeat size_step.

Lemma sz_global g : sz (w_global g) <= Z.of_nat (String.length (g_module g) + String.length (g_name g)) + 11.
Proof. unfold w_global. sizes. lia. Qed.

Lemma sz_timedelta d : sz (w_timedelta d) <= 64.
Proof.
  unfold w_timedelta. cbv zeta. pose proof (sz_global datetime_timedelta) as H. cbn in H. sizes. lia.
Qed.

Lemma sz_utc : sz w_utc <= 93.
Proof.
  unfold w_utc. pose proof (sz_global datetime_timezone) as H. pose proof (sz_timedelta 0).
  cbn in H. sizes. lia.
Qed.

Lemma sz_datetime t : sz (w_datetime t) <= 134.
Proof.
  assert (Hb : sz (w_bytes (packed_datetime t)) = 12) by reflexivity.
  unfold w_datetime. pose proof (sz_global datetime_datetime) as H. pose proof sz_utc.
  cbn in H. sizes. lia.
Qed.

Lemma sz_trigger j : sz (w_intervalTrigger j) <= 520.
Proof.
  unfold w_intervalTrigger. pose proof (sz_global IntervalTrigger) as H. pose proof sz_utc.
  pose proof (sz_datetime (start j)). pose proof (sz_timedelta (interval j)).
  cbn in H. sizes. lia.
Qed.

Lemma sz_job_state i j :
  jobIdentity (kind j) = Ok i ->
  sz (job_state_bytes i j) <= Z.of_nat (String.length (runtimePath j)) + 1200.
Proof.
  intros Hi.
  assert (B1 : sz (w_string (id_of i)) <= 60 /\ sz (w_string (callable_of i)) <= 80 /\
               sz (w_string (name_of i)) <= 60).
  { destruct (kind j); [| |discriminate]; injection Hi as <-; vm_compute; auto; done. }
  destruct B1 as (B1 & B2 & B3). unfold job_state_bytes.
  pose proof (sz_trigger j). pose proof (sz_datetime (next j)).
  change (sz ([Zbyte 128; Zbyte 5; Zbyte 125; Zbyte 40] ++ ?l)) with (sz ([Zbyte 128; Zbyte 5; Zbyte 125; Zbyte 40] ++ l)).
  rewrite sz_app. change (sz [Zbyte 128; Zbyte 5; Zbyte 125; Zbyte 40]) with 4.
  revert B1 B2 B3. sizes. lia.
Qed.

(** A path of at most this many bytes leaves room for the rest of the state. *)
Definition max_path_length : Z := 64000.

Lemma encodeJobState_total j :
  valid_job j -> Z.of_nat (String.length (runtimePath j)) <= max_path_length ->
  exists blob, encodeJobState j = Ok blob.
Proof.
  intros Hv Hp. unfold encodeJobState.
  rewrite (proj2 (NewJob_valid _ _ _ _ _ j)) by (split; [by destruct j|done]). cbn [bind].
  pose proof (vj_kind _ Hv) as Hk. destruct (jobIdentity (kind j)) as [i|] eqn:Hi; [|done].
  cbn [bind]. cbv zeta. pose proof (sz_job_state i j Hi) as H. unfold sz, max_path_length in *.
  destruct (Z.ltb_spec maxPickleBytes (Z.of_nat (length (job_state_bytes i j)))).
  - unfold maxPickleBytes in *. lia.
  - cbn. eauto.
Qed.

(** ** One dispatch *)

(** How often [k] was run. *)
Definition is_run (k : JobKind) (e : event) : bool :=
  match e with EvRun k' => bool_decide (k' = k) | EvReport _ _ => false end.
Definition runs (k : JobKind) (evs : list event) : Z :=
  Z.of_nat (length (List.filter (is_run k) evs)).

Lemma runs_app k a b : runs k (a ++ b) = runs k a + runs k b.
Proof. unfold runs. rewrite List.filter_app, length_app. lia. Qed.

Section dispatch.
Context {DB : Type} {S : JobStore DB} {L : JobStoreLaws DB}.

(** The invariant of a running scheduler. *)
Record sched_inv (s : Sched DB) : Prop := {
  si_table : represents (s_path s) (table (s_db s)) (s_jobs s);
  si_utf8 : utf8_valid (bytes_of (s_path s)) = true;
  si_no_nul : no_nul (s_path s)
}.

Lemma inv_job s k j :
  sched_inv s -> s_jobs s !! k = Some j ->
  kind j = k /\ valid_job j /\ runtimePath j = s_path s /\ interval j <= max_int64.
Proof.
  intros Hs H. apply (rep_row (si_table _ Hs)) in H as [Hk (cs & _ & Hr)].
  apply row_reads_decoded in Hr as (f & _ & []). done.
Qed.

(** [withNext] moves a due job past [now], by whole intervals. *)
Definition advanced (j j' : Job) (now : time) : Prop :=
  kind j' = kind j /\ runtimePath j' = runtimePath j /\ interval j' = interval j /\
  start j' = start j /\ now < next j' <= now + interval j /\ next j + interval j <= next j'.

Lemma aligned_progress i a b now : 0 < i -> a <= now -> now < b -> (b - a) mod i = 0 -> a + i <= b.
Proof.
  intros Hi H1 H2 Hm. apply Z.div_exact in Hm; [|lia].
  assert (0 < (b - a) / i); [|nia]. nia.
Qed.

Lemma withNext_advanced j now j' :
  valid_job j -> next j <= now -> unix now <= 253402300799 -> interval j <= max_int64 ->
  withNext j now = Ok j' -> valid_job j' /\ advanced j j' now.
Proof.
  intros Hv Hd Hu Hi H. rewrite withNext_slot in H by done.
  apply NewJob_valid in H as [-> Hv']. split; [done|].
  pose proof (next_slot_after j now Hv Hd) as (A & B & C).
  unfold advanced; cbn. repeat split; try lia.
  apply (aligned_progress _ _ _ now); [apply Hv|done|done|].
  replace (next_slot j now - next j) with ((next_slot j now - start j) - (next j - start j)) by lia.
  rewrite Zminus_mod, C, (vj_aligned _ Hv). reflexivity.
Qed.

Lemma safeHandle_runs (s : Sched DB) k now k' :
  runs k' (safeHandle s k now) =
  if bool_decide (k = k') then match s_handlers s k with Some _ => 1 | None => 0 end else 0.
Proof.
  unfold safeHandle, runs. destruct (s_handlers s k) as [f|]; cbn.
  - destruct (f now); cbn; by case_bool_decide.
  - by case_bool_decide.
Qed.

Lemma dispatch_spec (s : Sched DB) job now s' evs :
  sched_inv s -> s_jobs s !! kind job = Some job -> next job <= now -> unix now <= 253402300799 ->
  dispatch s job now = Ok (s', evs) ->
  exists j', advanced job j' now /\ valid_job j' /\ sched_inv s' /\
    s_jobs s' = <[kind job := j']> (s_jobs s) /\
    s_cancelled s' = false /\ s_cancelled s = false /\
    s_path s' = s_path s /\ s_handlers s' = s_handlers s /\ evs = safeHandle s (kind job) now.
Proof.
  intros Hs Hj Hd Hu H. unfold dispatch in H. bind_inv H.
  destruct (inv_job _ _ _ Hs Hj) as (_ & Hv & Hp & Hi).
  apply withNext_advanced in Ha as [Hv' Hadv]; [|done..].
  injection H as <- <-. unfold exec_cas in Ha1.
  destruct (s_cancelled s) eqn:Hc; [done|]. bind_inv Ha1. destruct a2 as [n db'].
  destruct (Z.eqb_spec n 1) as [->|]; [|done]. injection Ha1 as <-.
  exists a. destruct Hadv as (E1 & E2 & E3 & E4 & E5 & E6).
  assert (Eid : job_id a = job_id job) by (unfold job_id; by rewrite E1).
  apply (law_cas) in Ha. destruct (rep_row (si_table _ Hs) _ _ Hj) as [_ ([col st] & Hcs & Hr)].
  rewrite Hcs in Ha. destruct (sql_eq col _); [|by destruct Ha].
  destruct Ha as [_ Ht].
  split; [done|]. split; [done|]. split; [|done].
  constructor; cbn; [|apply Hs..].
  rewrite Ht, <- E1, <- Eid. apply represents_insert; [apply Hs|].
  apply row_reads_written; auto using si_utf8, si_no_nul; [lia|congruence].
Qed.

(** A dispatch that the store accepts: nothing else can fail. *)
Lemma dispatch_total (s : Sched DB) job now :
  sched_inv s -> s_jobs s !! kind job = Some job -> next job <= now ->
  unix (now + interval job) <= 253402300799 ->
  Z.of_nat (String.length (s_path s)) <= max_path_length ->
  s_cancelled s = false ->
  (forall id old new b db, exists n db', cas_job id old new b db = Ok (n, db')) ->
  exists s' evs, dispatch s job now = Ok (s', evs).
Proof.
  intros Hs Hj Hd Hu Hlen Hc Htotal.
  destruct (inv_job _ _ _ Hs Hj) as (_ & Hv & Hp & Hi).
  assert (Hu' : unix now <= 253402300799).
  { pose proof (vj_interval _ Hv). unfold unix, giga in *. Z.to_euclidean_division_equations. lia. }
  pose proof (next_slot_after job now Hv Hd) as (N1 & N2 & N3).
  assert (Hn : withNext job now = Ok (MkJob (kind job) (runtimePath job) (interval job) (start job) (next_slot job now))).
  { rewrite withNext_slot by done. apply NewJob_valid. split; [done|]. apply slot_valid; [done|done|].
    unfold unix, giga in *. Z.to_euclidean_division_equations. lia. }
  set (nx := MkJob _ _ _ _ _) in Hn.
  unfold dispatch. rewrite Hn. cbn [bind].
  pose proof (withNext_advanced _ _ _ Hv Hd Hu' Hi Hn) as [Hv' _].
  destruct (encodeJobState_total nx Hv') as [blob Hb]; [cbn; by rewrite Hp|].
  rewrite Hb. cbn [bind]. unfold exec_cas. rewrite Hc.
  destruct (Htotal (job_id job) (unixTimestamp (next job)) (unixTimestamp (next nx)) blob (s_db s))
    as (n & db' & Hcas).
  rewrite Hcas. cbn [bind]. pose proof (law_cas _ _ _ _ _ _ _ Hcas) as HL.
  destruct (rep_row (si_table _ Hs) _ _ Hj) as [_ (cs & Hcs & Hr)].
  apply row_reads_decoded in Hr as (f & Hf & D).
  assert (Heq : sql_eq (fst cs) (unixTimestamp (next job)) = true).
  { pose proof (dj_column _ _ _ _ D) as Hsame. unfold sameTimestamp in Hsame. boolify.
    destruct (fst cs); cbn in Hf; try done; cbn;
      (destruct (is_finite _) in Hf; [by injection Hf as ->|done]). }
  rewrite Hcs in HL. destruct cs as [col st]. cbn in Heq. rewrite Heq in HL.
  destruct HL as [-> _]. cbn. eauto.
Qed.
End dispatch.

(** ** A whole pass *)

Section pass.
Context {DB : Type} {S : JobStore DB} {L : JobStoreLaws DB}.

(** What a pass at [now] did to the job of kind [k]. *)
Definition unchanged (s s' : Sched DB) (evs : list event) (k : JobKind) : Prop :=
  s_jobs s' !! k = s_jobs s !! k /\ runs k evs = 0.

Definition ran_once (s s' : Sched DB) (evs : list event) (now : time) (k : JobKind) : Prop :=
  exists j j', s_jobs s !! k = Some j /\ s_jobs s' !! k = Some j' /\
    next j <= now /\ advanced j j' now /\
    runs k evs = match s_handlers s k with Some _ => 1 | None => 0 end.

Definition no_later (j : Job) (more : list Job) : Prop := Forall (fun j' => next j <= next j') more.

Inductive by_time : list Job -> Prop :=
| by_time_nil : by_time []
| by_time_cons j more : no_later j more -> by_time more -> by_time (j :: more).

Record pass_spec (s s' : Sched DB) (l : list Job) (evs : list event) (now : time) : Prop := {
  ps_inv : sched_inv s';
  ps_path : s_path s' = s_path s;
  ps_handlers : s_handlers s' = s_handlers s;
  ps_each : forall k, unchanged s s' evs k \/ ran_once s s' evs now k;
  ps_others : forall k, k ∉ map kind l -> unchanged s s' evs k;
  ps_all : s_cancelled s' = false ->
    forall j, j ∈ l -> next j <= now -> ran_once s s' evs now (kind j);
  ps_cancelled : s_cancelled s = true -> s_cancelled s' = true
}.

Lemma pass_stop s l now :
  sched_inv s -> (forall j, j ∈ l -> now < next j) -> pass_spec s s l [] now.
Proof.
  intros Hs Hl. constructor; auto; try done.
  - intros k. left. done.
  - intros _ j Hj. specialize (Hl j Hj). lia.
Qed.

Lemma pass_fail s l now k e : sched_inv s -> pass_spec s (cancel s) l [EvReport k e] now.
Proof.
  intros [H1 H2 H3]. constructor; cbn; auto; try done.
  - intros k'. by left.
Qed.

Lemma run_list_spec now : unix now <= 253402300799 -> forall l s s' evs,
  sched_inv s -> NoDup (map kind l) -> by_time l ->
  (forall j, j ∈ l -> s_jobs s !! kind j = Some j) ->
  run_list s l now = (s', evs) -> pass_spec s s' l evs now.
Proof.
  intros Hu. induction l as [|job more IH]; intros s s' evs Hs Hnd Hsort Hin; cbn [run_list].
  { intros [= <- <-]. apply pass_stop; [done|]. intros j Hj. inversion Hj. }
  inversion Hnd as [|? ? Hk Hnd']; subst. inversion Hsort as [|? ? Hle Hsort']; subst.
  destruct (Z.ltb_spec now (next job)) as [Hlt|Hdue].
  { intros [= <- <-]. apply pass_stop; [done|]. intros j [->|Hj]%elem_of_cons; [done|].
    unfold no_later in Hle. rewrite Forall_forall in Hle. specialize (Hle j Hj). cbn in *. lia. }
  destruct (dispatch s job now) as [[s1 ev1]|e] eqn:Hd.
  2: { intros [= <- <-]. by apply pass_fail. }
  destruct (run_list s1 more now) as [s2 ev2] eqn:Hr. intros [= <- <-].
  apply dispatch_spec in Hd as (j' & Hadv & Hv' & Hs1 & Hjobs & Hc1 & Hc & Hp1 & Hh1 & ->);
    [|done|apply Hin; left|done|done].
  apply IH in Hr as [P1 P2 P3 P4 P5 P6 P7]; [|done..|].
  2: { intros j Hj. rewrite Hjobs, lookup_insert_ne; [apply Hin; by right|].
       intros E. apply Hk. rewrite E. apply list_elem_of_fmap. eauto. }
  assert (Hself : ran_once s s2 (safeHandle s (kind job) now ++ ev2) now (kind job)).
  { destruct (P5 (kind job)) as [U1 U2]; [done|]. exists job, j'.
    rewrite U1, Hjobs, lookup_insert_eq, runs_app, U2, safeHandle_runs, bool_decide_eq_true_2 by done.
    split; [apply Hin; left|]. repeat split; auto; try apply Hadv. lia. }
  assert (Hother : forall k, k <> kind job ->
            s_jobs s1 !! k = s_jobs s !! k /\ runs k (safeHandle s (kind job) now ++ ev2) = runs k ev2).
  { intros k Hne. rewrite Hjobs, lookup_insert_ne by done. split; [done|].
    rewrite runs_app, safeHandle_runs, bool_decide_eq_false_2 by done. lia. }
  assert (Hlift : forall k, k <> kind job -> ran_once s1 s2 ev2 now k ->
            ran_once s s2 (safeHandle s (kind job) now ++ ev2) now k).
  { intros k Hne (a & b & A1 & A2 & A3 & A4 & A5). destruct (Hother k Hne) as [B1 B2].
    exists a, b. rewrite B2, <- B1, <- Hh1. done. }
  constructor; try congruence; try done.
  - intros k. destruct (decide (k = kind job)) as [->|Hne]; [by right|].
    destruct (P4 k) as [[U1 U2]|Hran]; [left|right; by apply Hlift].
    destruct (Hother k Hne) as [B1 B2]. unfold unchanged. rewrite B2. split; congruence.
  - intros k Hnin. cbn [map] in Hnin. rewrite elem_of_cons in Hnin.
    destruct (Hother k) as [B1 B2]; [tauto|]. destruct (P5 k) as [U1 U2]; [tauto|].
    unfold unchanged. rewrite B2. split; congruence.
  - intros Hc2 j [->|Hj]%elem_of_cons Hjd; [done|]. apply Hlift; [|by apply P6].
    intros E. apply Hk. rewrite <- E. apply list_elem_of_fmap. eauto.
Qed.
End pass.

(** ** The snapshot *)

Section snapshot.
Context {DB : Type} {S : JobStore DB} {L : JobStoreLaws DB}.

#[export] Instance job_before_total : Total job_before.
Proof.
  intros a b. unfold job_before. destruct (Z.lt_trichotomy (next a) (next b)) as [|[E|]]; auto.
  destruct (total str_le (job_id a) (job_id b)); auto.
Qed.

#[export] Instance job_before_trans : Transitive job_before.
Proof.
  intros a b c [H1|[H1 H1']] [H2|[H2 H2']]; unfold job_before; [left; lia..|].
  right. split; [congruence|]. by etrans.
Qed.

Lemma by_time_of_sorted l : StronglySorted job_before l -> by_time l.
Proof.
  induction 1 as [|j l _ IH H]; constructor; [|done].
  eapply Forall_impl; [exact H|]. intros j'. unfold job_before. lia.
Qed.

Lemma snapshot_sorted (s : Sched DB) : StronglySorted job_before (snapshot s).
Proof. apply Sorted_StronglySorted; [apply _|]. apply Sorted_merge_sort. apply _. Qed.

Lemma elem_of_snapshot (s : Sched DB) j :
  j ∈ snapshot s <-> exists k, s_jobs s !! k = Some j.
Proof.
  unfold snapshot. rewrite merge_sort_Permutation, list_elem_of_fmap. split.
  - intros ([k j'] & -> & H). exists k. by apply elem_of_map_to_list.
  - intros [k H]. exists (k, j). split; [done|]. by apply elem_of_map_to_list.
Qed.

Lemma snapshot_kinds (s : Sched DB) :
  sched_inv s -> map kind (snapshot s) ≡ₚ (map_to_list (s_jobs s)).*1.
Proof.
  intros Hs. unfold snapshot. rewrite merge_sort_Permutation, map_map.
  erewrite map_ext_in; [reflexivity|]. intros [k j] H. cbn.
  apply list_elem_of_In, elem_of_map_to_list in H. by destruct (inv_job _ _ _ Hs H).
Qed.

Lemma snapshot_nodup (s : Sched DB) : sched_inv s -> NoDup (map kind (snapshot s)).
Proof. intros Hs. rewrite snapshot_kinds by done. apply NoDup_fst_map_to_list. Qed.

Lemma snapshot_lookup (s : Sched DB) j :
  sched_inv s -> j ∈ snapshot s -> s_jobs s !! kind j = Some j.
Proof.
  intros Hs H. apply elem_of_snapshot in H as [k H].
  destruct (inv_job _ _ _ Hs H) as [E _]. congruence.
Qed.

Lemma runDue_spec (s s' : Sched DB) now evs :
  sched_inv s -> unix now <= 253402300799 -> runDue s now = (s', evs) ->
  pass_spec s s' (snapshot s) evs now.
Proof.
  intros Hs Hu H. eapply run_list_spec; eauto using snapshot_nodup, snapshot_lookup.
  apply by_time_of_sorted, snapshot_sorted.
Qed.

(** With a store that accepts updates and room before year 10000, a pass
    never cancels the scheduler. *)
Lemma run_list_total now :
  (forall id old new b (db : DB), exists n db', cas_job id old new b db = Ok (n, db')) ->
  forall l s s' evs,
  sched_inv s -> NoDup (map kind l) ->
  (forall j, j ∈ l -> s_jobs s !! kind j = Some j) ->
  (forall j, j ∈ l -> unix (now + interval j) <= 253402300799) ->
  Z.of_nat (String.length (s_path s)) <= max_path_length ->
  s_cancelled s = false ->
  run_list s l now = (s', evs) -> s_cancelled s' = false.
Proof.
  intros Htotal. induction l as [|job more IH]; intros s s' evs Hs Hnd Hin Hroom Hlen Hc; cbn [run_list].
  { by intros [= <- <-]. }
  inversion Hnd as [|? ? Hk Hnd']; subst.
  destruct (Z.ltb_spec now (next job)) as [Hlt|Hdue]; [by intros [= <- <-]|].
  assert (Hj : s_jobs s !! kind job = Some job) by (apply Hin; left).
  destruct (inv_job _ _ _ Hs Hj) as (_ & Hv & _ & _).
  assert (Hu : unix now <= 253402300799).
  { pose proof (vj_interval _ Hv). specialize (Hroom job ltac:(left)).
    unfold unix, giga in *. Z.to_euclidean_division_equations. lia. }
  destruct (dispatch_total s job now Hs Hj Hdue) as (s1 & ev1 & Hd); [apply Hroom; left|done..|].
  rewrite Hd. destruct (run_list s1 more now) as [s2 ev2] eqn:Hr. intros [= <- <-].
  apply dispatch_spec in Hd as (j' & Hadv & Hv' & Hs1 & Hjobs & Hc1 & _ & Hp1 & _ & _); [|done..].
  eapply IH; [| | | | | |exact Hr]; auto; [| |by rewrite Hp1].
  - intros j Hjm. rewrite Hjobs, lookup_insert_ne; [apply Hin; by right|].
    intros E. apply Hk. rewrite E. apply list_elem_of_fmap. eauto.
  - intros j Hjm. apply Hroom. by right.
Qed.
End snapshot.

(** ** Runs of the loop *)

Section loop.
Context {DB : Type} {S : JobStore DB} {L : JobStoreLaws DB}.

(** Each run of a processor is paid by a whole interval of its schedule. *)
Record loop_spec (s s' : Sched DB) (evs : list event) : Prop := {
  ls_inv : sched_inv s';
  ls_path : s_path s' = s_path s;
  ls_dom : forall k, is_Some (s_jobs s' !! k) <-> is_Some (s_jobs s !! k);
  ls_runs : forall k, s_jobs s !! k = None -> runs k evs = 0;
  ls_paid : forall k j j', s_jobs s !! k = Some j -> s_jobs s' !! k = Some j' ->
    interval j' = interval j /\ start j' = start j /\ next j + runs k evs * interval j <= next j';
  ls_cancelled : s_cancelled s = true -> s_cancelled s' = true
}.

Lemma loop_spec_refl s : sched_inv s -> loop_spec s s [].
Proof.
  intros Hs. constructor; try done. intros k j j' H H'. assert (j' = j) as -> by congruence.
  unfold runs. cbn. lia.
Qed.

Lemma loop_spec_trans s1 s2 s3 e1 e2 :
  loop_spec s1 s2 e1 -> loop_spec s2 s3 e2 -> loop_spec s1 s3 (e1 ++ e2).
Proof.
  intros [A1 A2 A3 A4 A5 A6] [B1 B2 B3 B4 B5 B6]. constructor; auto; try congruence.
  - intros k. by rewrite B3.
  - intros k H. rewrite runs_app, A4, B4; [done| |done].
    destruct (s_jobs s2 !! k) eqn:E; [|done]. destruct (A3 k) as [F _].
    rewrite E, H in F. destruct F as [? ?]; by eauto.
  - intros k j j' H H'. destruct (A3 k) as [_ F]. destruct F as [j2 E]; [by rewrite H|].
    destruct (A5 k j j2 H E) as (P1 & P2 & P3). destruct (B5 k j2 j' E H') as (Q1 & Q2 & Q3).
    rewrite runs_app. split; [congruence|]. split; [congruence|]. rewrite P1 in Q3. lia.
Qed.

Lemma pass_loop (s s' : Sched DB) l evs now : sched_inv s -> pass_spec s s' l evs now -> loop_spec s s' evs.
Proof.
  intros Hs [P1 P2 P3 P4 P5 P6 P7]. constructor; auto.
  - intros k. destruct (P4 k) as [[U _]|(j & j' & H & H' & _)]; [by rewrite U|].
    rewrite H, H'. by split.
  - intros k H. destruct (P4 k) as [[_ U]|(j & j' & H0 & _)]; [done|congruence].
  - intros k j j' H H'. destruct (P4 k) as [[U1 U2]|(a & b & H0 & H1 & _ & Hadv & Hr)].
    + assert (j' = j) as -> by congruence. rewrite U2. lia.
    + assert (a = j) as -> by congruence. assert (b = j') as -> by congruence.
      destruct Hadv as (_ & _ & E1 & E2 & _ & E3). rewrite Hr.
      destruct (inv_job _ _ _ Hs H) as (_ & Hv & _). pose proof (vj_interval _ Hv).
      split; [done|]. split; [done|]. destruct (s_handlers s k); lia.
Qed.

Lemma loop_step_spec s evs s' : loop_step s evs s' -> sched_inv s -> loop_spec s s' evs.
Proof.
  intros Hstep Hs. destruct Hstep as [s now s' evs _ Hu H|s|s].
  - eapply pass_loop; [done|]. by apply runDue_spec.
  - by apply loop_spec_refl.
  - pose proof (loop_spec_refl s Hs) as [[I1 I2 I3] A2 A3 A4 A5 A6].
    constructor; cbn; auto. by constructor.
Qed.

Lemma loop_steps_spec s evs s' : loop_steps s evs s' -> sched_inv s -> loop_spec s s' evs.
Proof.
  induction 1 as [s|s evs s' evs' s'' H _ IH]; intros Hs; [by apply loop_spec_refl|].
  apply loop_step_spec in H; [|done]. eapply loop_spec_trans; [exact H|]. apply IH, H.
Qed.
End loop.
