(* ===== verification/SchedulerOpen.v ===== *)
(** * Opening and closing schedulers ([scheduler.go] [Open], [Close]; [job.go] [canonicalPath])

    The file system and the SQLite driver are an interface; opening is split
    where the process can be preempted, so that concurrent opens, failures and
    closes are steps on one set of owned paths. *)

From S2P Require Import Prelude.
From S2P Require Import GoStrings.
From S2P Require Import GoTime.
From S2P Require Import SchedJob.
From S2P Require Import PickleReader.
From S2P Require Import PickleWriter.
From S2P Require Import JobState.
From S2P Require Import PickleSafety.
From S2P Require Import Scheduler.
From S2P Require Import ReconcileFacts.
From S2P Require Import DispatchFacts.

(** ** Unix paths ([path/filepath]) *)

Definition slash : ascii := "/"%char.

(** The pieces of a string between slashes. *)
Fixpoint split_slash (s : bytes) : list bytes :=
  match s with
  | [] => [[]]
  | c :: r =>
      if bool_decide (c = slash) then [] :: split_slash r
      else match split_slash r with
           | piece :: more => (c :: piece) :: more
           | [] => [[c]]
           end
  end.

(** The elements of a cleaned path, last first. *)
Definition clean_step (rooted : bool) (acc : list bytes) (piece : bytes) : list bytes :=
  if bool_decide (piece = [] \/ piece = bytes_of ".") then acc
  else if bool_decide (piece = bytes_of "..") then
    match acc with
    | top :: below => if bool_decide (top = bytes_of "..") then piece :: acc else below
    | [] => if rooted then [] else [piece]
    end
  else piece :: acc.

Definition join_slash (pieces : list bytes) : bytes :=
  match pieces with
  | [] => []
  | p :: more => p ++ concat (map (fun q => slash :: q) more)
  end.

Definition Clean (path : string) : string :=
  let rooted := is_abs path in
  let body := join_slash (rev (fold_left (clean_step rooted) (split_slash (bytes_of path)) [])) in
  if rooted then String slash (string_of body)
  else match body with [] => "."%string | _ => string_of body end.

(** [filepath.Join] of two elements: empty ones are ignored. *)
Definition Join (a b : string) : string :=
  if String.eqb a "" then (if String.eqb b "" then "" else Clean b)
  else if String.eqb b "" then Clean a
  else Clean (a +:+ String slash b).

(** The text before and after the last slash. *)
Definition last_piece (path : bytes) : bytes := default [] (last (split_slash path)).

Definition Dir (path : string) : string :=
  let bs := bytes_of path in
  Clean (string_of (take (length bs - length (last_piece bs)) bs)).

Fixpoint strip_slashes (rev_path : bytes) : bytes :=
  match rev_path with
  | c :: r => if bool_decide (c = slash) then strip_slashes r else rev_path
  | [] => []
  end.

Definition Base (path : string) : string :=
  if String.eqb path "" then "."%string
  else
    let stripped := rev (strip_slashes (rev (bytes_of path))) in
    match last_piece stripped with
    | [] => "/"%string
    | b => string_of b
    end.

Example clean_examples :
  map Clean ["/a/../b//c/."; "a/../../b"; "/.."; ""; "./x/"]%string = ["/b/c"; "../b"; "/"; "."; "x"]%string.
Proof. reflexivity. Qed.
Example dir_base : (Dir "/a/b.db", Base "/a/b.db", Dir "/a", Base "/a/")%string = ("/a", "b.db", "/", "a")%string.
Proof. reflexivity. Qed.

(** ** The environment *)

Class Env (DB : Type) := {
  getwd : res string;
  EvalSymlinks : string -> res string;
  MkdirAll : string -> option sched_error;
  (** [sql.Open], [PingContext] and [ensureSchema]: the opened database *)
  open_db : string -> res DB;
  ping : DB -> option sched_error;
  ensureSchema : DB -> res DB
}.

Section open.
Context {DB : Type} {S : JobStore DB} {E : Env DB}.

(** [filepath.Abs] *)
Definition Abs (path : string) : res string :=
  if is_abs path then Ok (Clean path) else let* wd := getwd in Ok (Join wd path).

Definition canonicalPath (path : string) : res string :=
  if String.eqb path "" || String.eqb path ":memory:" then Err (EConfiguration "scheduler_path")
  else
    let* absolute := Abs path in
    match EvalSymlinks absolute with
    | Ok resolved => Ok resolved
    | Err _ =>
        match EvalSymlinks (Dir absolute) with
        | Ok parent => Ok (Join parent (Base absolute))
        | Err _ => Ok (Clean absolute)
        end
    end.

(** [Open] up to [claimOwner]. *)
Definition open_claim (c : Config) (live : owners) : res (string * owners) :=
  match canonicalPath (Path c) with
  | Err _ => Err (EConfiguration "scheduler_path")
  | Ok path =>
      let* _ := validateConfig c in
      let* live' := claimOwner path live in
      Ok (path, live')
  end.

(** The rest of [Open], at clock reading [now]. *)
Definition open_rest (c : Config) (path : string) (now : time) : res (Sched DB) :=
  let* _ := match MkdirAll (Dir path) with Some e => Err e | None => Ok tt end in
  let* db := open_db path in
  let* _ := match ping db with Some e => Err e | None => Ok tt end in
  let* db' := ensureSchema db in
  let ' (db'', r) := reconcile db' path (truncate_micro now) c in
  let* jobs := r in
  Ok (MkSched path db'' (handler_of c) jobs false false).

(** The whole of [Open]: the deferred release runs when it fails after the claim. *)
Definition Open (c : Config) (now : time) (live : owners) : owners * res (Sched DB) :=
  match open_claim c live with
  | Err e => (live, Err e)
  | Ok (path, live') =>
      match open_rest c path now with
      | Err e => (releaseOwner path live', Err e)
      | Ok s => (live', Ok s)
      end
  end.

(** ** Ownership under interleaving *)

(** The process: the owned paths, the opens in progress, and the schedulers
    that [Open] returned. *)
Record World := MkWorld {
  w_live : owners;
  w_opening : list (Config * string);
  w_scheds : list (Sched DB)
}.

Inductive world_step : World -> World -> Prop :=
| ws_claim c path live live' opening scheds :
    open_claim c live = Ok (path, live') ->
    world_step (MkWorld live opening scheds) (MkWorld live' ((c, path) :: opening) scheds)
| ws_fail c path now e live a b scheds :
    open_rest c path now = Err e ->
    world_step (MkWorld live (a ++ (c, path) :: b) scheds)
               (MkWorld (releaseOwner path live) (a ++ b) scheds)
| ws_open c path now s live a b scheds :
    open_rest c path now = Ok s ->
    world_step (MkWorld live (a ++ (c, path) :: b) scheds)
               (MkWorld live (a ++ b) (s :: scheds))
| ws_run s evs s' live opening a b :
    loop_step s evs s' ->
    world_step (MkWorld live opening (a ++ s :: b)) (MkWorld live opening (a ++ s' :: b))
| ws_close s s' live live' drained err r opening a b :
    Close s live drained err = (s', live', r) ->
    world_step (MkWorld live opening (a ++ s :: b)) (MkWorld live' opening (a ++ s' :: b)).

Definition world_init : World := MkWorld ∅ [] [].

(** The paths in use: opens in progress, and schedulers not yet closed. *)
Definition in_use (w : World) : list string :=
  map snd (w_opening w) ++ map s_path (List.filter (fun s => negb (s_closed s)) (w_scheds w)).

Definition ownership (w : World) : Prop :=
  NoDup (in_use w) /\ forall p, p ∈ w_live w <-> p ∈ in_use w.

Lemma open_claim_fresh c live path live' :
  open_claim c live = Ok (path, live') -> (path ∉ live) /\ live' = ({[path]} ∪ live).
Proof.
  unfold open_claim. destruct (canonicalPath _); [|done]. intros H. bind_inv H. injection H as -> ->.
  unfold claimOwner in Ha0. case_bool_decide; [done|]. by injection Ha0 as <-.
Qed.

Lemma open_rest_sched c path now s :
  open_rest c path now = Ok s -> s_path s = path /\ s_closed s = false.
Proof.
  unfold open_rest. intros H. bind_inv H. destruct (reconcile _ _ _ _) as [db r]. bind_inv H.
  by injection H as <-.
Qed.

Lemma run_list_closed l : forall (s s' : Sched DB) now evs,
  run_list s l now = (s', evs) -> s_path s' = s_path s /\ s_closed s' = s_closed s.
Proof.
  induction l as [|j l IH]; intros s s' now evs; cbn; [by intros [= <- _]|].
  destruct (now <? next j); [by intros [= <- _]|].
  destruct (dispatch s j now) as [[s1 e1]|] eqn:Hd; [|by intros [= <- _]].
  destruct (run_list s1 l now) as [s2 e2] eqn:Hr. intros [= <- _].
  apply IH in Hr as [-> ->]. unfold dispatch in Hd. bind_inv Hd. by injection Hd as <- _.
Qed.

Lemma loop_step_closed (s s' : Sched DB) evs :
  loop_step s evs s' -> s_path s' = s_path s /\ s_closed s' = s_closed s.
Proof. intros []; [by eapply run_list_closed|done|done]. Qed.

(** The paths in use only depend on each scheduler's path and closed flag. *)
Lemma in_use_sched live opening a s s' b :
  s_path s' = s_path s -> s_closed s' = s_closed s ->
  in_use (MkWorld live opening (a ++ s' :: b)) = in_use (MkWorld live opening (a ++ s :: b)).
Proof.
  intros Hp Hc. unfold in_use; cbn. rewrite !List.filter_app. cbn. rewrite Hc.
  destruct (negb (s_closed s)); rewrite !map_app; cbn; by rewrite ?Hp.
Qed.

Lemma ownership_perm w w' : w_live w' = w_live w -> in_use w' ≡ₚ in_use w -> ownership w -> ownership w'.
Proof. intros HE P [H1 H2]. split; [by rewrite P|]. intros p. by rewrite HE, P. Qed.

Lemma ownership_release w w' path :
  in_use w ≡ₚ (path :: in_use w') -> w_live w' = releaseOwner path (w_live w) ->
  ownership w -> ownership w'.
Proof.
  intros P HE [H1 H2]. rewrite P in H1. inversion H1; subst. split; [done|].
  intros p. rewrite HE. unfold releaseOwner. rewrite elem_of_difference, elem_of_singleton, H2, P, elem_of_cons.
  split; [intros [[->|?] ?]; done|]. intros Hp. split; [auto|]. intros ->. done.
Qed.

Lemma world_step_ownership w w' : world_step w w' -> ownership w -> ownership w'.
Proof.
  intros Hstep Hw. destruct Hstep as
    [c path live live' opening scheds H|c path now e live a b scheds H|c path now s live a b scheds H
    |s evs s' live opening a b H|s s' live live' drained err r opening a b H].
  - apply open_claim_fresh in H as [Hn ->]. destruct Hw as [H1 H2]. cbn in *. split; cbn.
    + constructor; [|done]. by rewrite <- H2.
    + intros p. rewrite elem_of_union, elem_of_singleton, elem_of_cons, H2. done.
  - refine (ownership_release _ _ path _ _ Hw); [|reflexivity].
    unfold in_use; cbn. rewrite !map_app. cbn. solve_Permutation.
  - apply open_rest_sched in H as [Hp Hc]. refine (ownership_perm _ _ _ _ Hw); [done|].
    unfold in_use; cbn. rewrite Hc, !map_app. cbn. rewrite Hp.
    solve_Permutation.
  - apply loop_step_closed in H as [Hp Hc]. refine (ownership_perm _ _ _ _ Hw); [done|].
    by rewrite (in_use_sched live opening a s s' b).
  - unfold Close in H. destruct (s_closed s) eqn:Hcl; [by injection H as <- <- _|].
    destruct (negb drained).
    { injection H as <- <- _. refine (ownership_perm _ _ _ _ Hw); [done|]. by rewrite (in_use_sched live opening a s). }
    destruct err.
    { injection H as <- <- _. refine (ownership_perm _ _ _ _ Hw); [done|]. by rewrite (in_use_sched live opening a s). }
    injection H as <- <- _. refine (ownership_release _ _ (s_path s) _ _ Hw); [|reflexivity].
    unfold in_use; cbn. rewrite !List.filter_app. cbn. rewrite Hcl. cbn.
    rewrite !map_app. cbn. solve_Permutation.
Qed.

Lemma world_steps_ownership w : rtc world_step world_init w -> ownership w.
Proof.
  assert (H0 : ownership world_init).
  { split; cbn; [constructor|]. intros p. rewrite elem_of_nil. set_solver. }
  revert H0. generalize world_init. intros w0 H0 H. induction H; [done|].
  apply IHrtc. by eapply world_step_ownership.
Qed.
End open.
#[global] Arguments World DB : clear implicits.
