(* ===== verification/SchedulerProps.v ===== *)
(** * The scheduler: properties

    The theorems about jobs, their stored states, reconciliation, dispatch and
    ownership, with an in-memory store on which they are evaluated. *)

From S2P Require Import Prelude.
From S2P Require Import GoStrings.
From S2P Require Import GoTime.
From S2P Require Import SchedJob.
From S2P Require Import PickleReader.
From S2P Require Import PickleWriter.
From S2P Require Import JobState.
From S2P Require Import PickleSafety.
From S2P Require Import Scheduler.
From S2P Require Import ReconcileFacts.
From S2P Require Import DispatchFacts.
From S2P Require Import SchedulerOpen.

(** ** An in-memory job store *)

(** The table is the database. *)
Abbreviation MemDB := (gmap string columns).

Section memory_store.

Definition mem_rows (t : MemDB) : list row :=
  map (fun p => Row (fst p) (fst (snd p)) (snd (snd p)))
    (merge_sort (fun a b : string * columns => str_le (fst a) (fst b)) (map_to_list t)).

Definition mem_cas (id : string) (old new : float64) (blob : bytes) (t : MemDB) : res (Z * MemDB) :=
  match t !! id with
  | Some (c, _) => if sql_eq c old then Ok (1, <[id := (AFloat64 new, ABytes blob)]> t) else Ok (0, t)
  | None => Ok (0, t)
  end.

#[export] Instance mem_store : JobStore MemDB := {
  begin_tx t := Ok t;
  rollback_tx _ := None;
  commit_tx t := Ok t;
  select_jobs t := Ok (mem_rows t);
  rows_err _ := None;
  rows_close _ := None;
  delete_job id t := Ok (delete id t);
  upsert_job id f b t := Ok (<[id := (AFloat64 f, ABytes b)]> t);
  cas_job := mem_cas
}.

#[local] Instance fst_le_total : Total (fun a b : string * columns => str_le (fst a) (fst b)).
Proof. intros a b. apply (total str_le). Qed.

Lemma mem_rows_sorted (t : MemDB) : sorted_rows t (mem_rows t).
Proof.
  unfold sorted_rows, mem_rows. rewrite !map_map. split.
  - etrans; [|apply (merge_sort_Permutation (fun a b : string * columns => str_le (fst a) (fst b)))].
    erewrite map_ext; [by rewrite map_id|]. by intros [? [? ?]].
  - cbn. apply StronglySorted_Sorted.
    pose proof (Sorted_merge_sort (fun a b : string * columns => str_le (fst a) (fst b)) (map_to_list t)) as H.
    apply Sorted_StronglySorted in H; [|intros a b c; apply (transitivity (R := str_le))].
    induction H as [|p l _ IH H]; cbn; constructor; [done|].
    apply Forall_map. exact H.
Qed.

#[export] Instance mem_laws : JobStoreLaws MemDB.
Proof.
  refine {| table := fun t : MemDB => t |}; cbn.
  - by intros db tx [= ->].
  - by intros db tx [= ->].
  - intros db l [= <-] _. apply mem_rows_sorted.
  - by intros id db db' [= <-].
  - by intros id f b db db' [= <-].
  - intros id old new b db n db'. unfold mem_cas.
    destruct (db !! id) as [[c s]|]; [destruct (sql_eq c old)|]; by intros H; injection H as <- <-.
Defined.
End memory_store.

(** A job of 2026, every ten minutes, due at its start. *)
Definition ten_minutes : duration := 600 * giga.
Definition day_start : time := go_date 2026 3 1 8 0 0 0.
Definition sample_path : string := "/var/lib/powercontext/scheduler.db".
Definition sample_job : Job := MkJob SourceWindow sample_path ten_minutes day_start day_start.

Definition sample_config : Config :=
  MkConfig sample_path (Some ten_minutes) None (Some (fun _ => HOk)) None.

Lemma sample_job_valid : valid_job sample_job.
Proof.
  assert (H : NewJob SourceWindow sample_path ten_minutes day_start day_start = Ok sample_job)
    by (vm_compute; reflexivity).
  apply NewJob_valid in H. apply H.
Defined.

(** The first reconciliation, on an empty table. *)
Definition first_run : MemDB * res (gmap JobKind Job) :=
  Eval vm_compute in reconcile (∅ : MemDB) sample_path day_start sample_config.
Definition sample_db : MemDB := Eval cbv in fst first_run.
Definition sample_jobs : gmap JobKind Job :=
  Eval cbv in match snd first_run with Ok js => js | Err _ => ∅ end.

Lemma sample_reconcile :
  reconcile (∅ : MemDB) sample_path day_start sample_config = (sample_db, Ok sample_jobs).
Proof. vm_compute. reflexivity. Qed.

Definition sample_sched : Sched MemDB :=
  MkSched sample_path sample_db (handler_of sample_config) sample_jobs false false.

(** Three slots and a little later. *)
Definition later : time := day_start + 3 * ten_minutes + 5.
Definition pass : Sched MemDB * list event := runDue sample_sched later.

(** ** Jobs *)

(** [NewJob] succeeds exactly on valid jobs (a known kind, an absolute file
    path, a positive whole number of microseconds, UTC microsecond times in
    Python's years, and a run time a whole number of intervals after the start)
    and returns its arguments unchanged. *)
Theorem new_job_characterized kd path i s n j :
  NewJob kd path i s n = Ok j <-> j = MkJob kd path i s n /\ valid_job j.
Proof. apply NewJob_valid. Qed.

(** A due job advances to the earliest slot of its schedule that is after
    [now], missed slots coalescing into one; the result is a valid job with the
    same identity, interval and start. *)
Theorem with_next_earliest_slot (j : Job) (now : time) :
  valid_job j -> interval j <= max_int64 -> next j <= now ->
  unix (now + interval j) <= 253402300799 ->
  exists j', withNext j now = Ok j' /\ valid_job j' /\
    kind j' = kind j /\ runtimePath j' = runtimePath j /\ interval j' = interval j /\ start j' = start j /\
    now < next j' /\
    forall t, now < t -> (t - start j) mod interval j = 0 -> next j' <= t.
Proof.
  intros Hv Hi Hd Hu. pose proof (next_slot_after j now Hv Hd) as (A & B & C).
  pose proof (vj_interval _ Hv) as Hpos.
  assert (Hs : unix (next_slot j now) <= 253402300799 /\ unix now <= 253402300799)
    by (unfold unix, giga in *; Z.to_euclidean_division_equations; lia).
  eexists. rewrite withNext_slot by tauto. split; [apply NewJob_valid; split; [reflexivity|]|].
  { apply slot_valid; tauto. }
  cbn. split; [apply slot_valid; tauto|]. repeat split; auto.
  intros t Ht Hm. apply Z.div_exact in C, Hm; [|lia..].
  assert ((next_slot j now - start j) / interval j - 1 < (t - start j) / interval j); nia.
Qed.

Lemma with_next_earliest_slot_witness :
  exists j', withNext sample_job (day_start + 3 * ten_minutes + 5) = Ok j' /\
             next j' = day_start + 4 * ten_minutes.
Proof.
  destruct (with_next_earliest_slot sample_job (day_start + 3 * ten_minutes + 5)) as (j' & H & _).
  - exact sample_job_valid.
  - vm_compute. discriminate.
  - vm_compute. discriminate.
  - vm_compute. discriminate.
  - exists j'. split; [exact H|]. vm_compute in H. injection H as <-. vm_compute. reflexivity.
Defined.

(** ** Stored job states *)

(** C24: the state that [encodeJobState] writes for a valid job is read back by
    [decodeJobState] as the same job. *)
Theorem job_state_roundtrip (j : Job) (blob : bytes) :
  valid_job j -> interval j <= max_int64 ->
  utf8_valid (bytes_of (runtimePath j)) = true -> no_nul (runtimePath j) ->
  encodeJobState j = Ok blob ->
  decodeJobState blob (job_id j) (runtimePath j) (unixTimestamp (next j)) = Ok j.
Proof. apply decode_encode_job. Qed.

Lemma job_state_roundtrip_witness :
  exists blob, encodeJobState sample_job = Ok blob /\
    decodeJobState blob (job_id sample_job) sample_path (unixTimestamp day_start) = Ok sample_job.
Proof.
  destruct (encodeJobState sample_job) as [blob|] eqn:E; [|vm_compute in E; discriminate].
  exists blob. split; [reflexivity|]. apply (job_state_roundtrip sample_job blob).
  - exact sample_job_valid.
  - vm_compute. discriminate.
  - vm_compute. reflexivity.
  - vm_compute. reflexivity.
  - exact E.
Defined.

(** writing never exceeds the size limit: every valid job whose path leaves
    room (64000 bytes) is encoded. *)
Theorem encode_job_state_total (j : Job) :
  valid_job j -> Z.of_nat (String.length (runtimePath j)) <= max_path_length ->
  exists blob, encodeJobState j = Ok blob /\ Z.of_nat (length blob) <= maxPickleBytes.
Proof.
  intros Hv Hp. destruct (encodeJobState_total j Hv Hp) as [blob H]. exists blob. split; [done|].
  unfold encodeJobState in H. bind_inv H. ok_inv. boolify. subst blob. by apply Z.ltb_ge.
Qed.

Lemma encode_job_state_total_witness :
  exists blob, encodeJobState sample_job = Ok blob /\ Z.of_nat (length blob) <= maxPickleBytes.
Proof.
  apply (encode_job_state_total sample_job); [exact sample_job_valid|vm_compute; discriminate].
Defined.

(** C29: the reader always answers: a well-formed value (allowlisted globals,
    valid UTF-8, 64-bit integers, references to allocated objects of the right
    kind), or an invalid-state error; it never runs out of fuel. *)
Theorem parse_pickle_total (blob : bytes) :
  (exists v h, parsePickle blob = Ok (v, h) /\ well_formed (v, h)) \/
  (exists detail, parsePickle blob = Err (EInvalidJobState detail)).
Proof.
  pose proof (parsePickle_sound blob) as H. destruct (parsePickle blob) as [[v h]|e]; cbn in H.
  - left. eauto.
  - right. destruct H as [d ->]. eauto.
Qed.

(** Whatever the bytes, a job that [decodeJobState] returns is valid, has the
    row's id and the scheduler's path, and its run time is the indexed column. *)
Theorem decode_job_state_valid blob id path column j :
  decodeJobState blob id path column = Ok j -> decoded_job id path column j.
Proof. apply decodeJobState_decoded. Qed.

Lemma decode_job_state_valid_witness :
  exists blob, encodeJobState sample_job = Ok blob /\
    decoded_job (job_id sample_job) sample_path (unixTimestamp day_start) sample_job.
Proof.
  destruct (encodeJobState sample_job) as [blob|] eqn:E; [|vm_compute in E; discriminate].
  exists blob. split; [reflexivity|]. apply (decode_job_state_valid blob).
  vm_compute in E. injection E as <-. vm_compute. reflexivity.
Defined.

(** The microseconds that a timedelta denotes. *)
Definition td_total (d : pickleTimedelta) : Z :=
  td_days d * 86400000000 + td_seconds d * 1000000 + td_micros d.
Definition td_fields_ok (d : pickleTimedelta) : Prop :=
  0 <= td_days d /\ 0 <= td_seconds d < 86400 /\ 0 <= td_micros d < 1000000.

(** a timedelta whose microseconds fit in an [int64] converts exactly, and is
    refused exactly when the duration would not fit. *)
Theorem td_duration_exact (d : pickleTimedelta) :
  td_fields_ok d -> td_total d <= max_int64 ->
  td_duration d = if td_total d * 1000 <=? max_int64 then Some (td_total d * 1000) else None.
Proof.
  destruct d as [days secs mic]. unfold td_fields_ok, td_total, td_duration. cbn [td_days td_seconds td_micros].
  intros (H1 & H2 & H3) H4. unfold max_int64 in *.
  assert (E : (days <? 0) || (secs <? 0) || (86400 <=? secs) || (mic <? 0) || (1000000 <=? mic) = false).
  { repeat (apply orb_false_iff; split); first [apply Z.ltb_ge|apply Z.leb_gt]; lia. }
  rewrite E. clear E. change (9223372036854775807 / (86400 * 1000000)) with 106751991.
  destruct (Z.ltb_spec 106751991 days); [lia|].
  assert (R : forall z, 0 <= z <= 9223372036854775807 -> wrap64 z = z).
  { intros z Hz. apply wrap64_id. unfold in_int64, min_int64, max_int64. lia. }
  rewrite (R (days * 86400)), (R (_ * 1000000)), (R (secs * 1000000)), (R (_ + secs * 1000000)) by lia.
  replace (days * 86400 * 1000000) with (days * 86400000000) by lia.
  rewrite (R (_ + mic)) by lia. change (9223372036854775807 / 1000) with 9223372036854775.
  set (m := days * 86400000000 + secs * 1000000 + mic) in *.
  destruct (Z.ltb_spec 9223372036854775 m); destruct (Z.leb_spec (m * 1000) 9223372036854775807); try lia; [done|].
  by rewrite R by lia.
Qed.

Lemma td_duration_exact_witness :
  td_duration (Timedelta 106751 85636 854775) = Some 9223372036854775000.
Proof.
  rewrite (td_duration_exact (Timedelta 106751 85636 854775)).
  - vm_compute. reflexivity.
  - unfold td_fields_ok. cbn. lia.
  - vm_compute. discriminate.
Defined.

(** The day bound leaves room for the sum to wrap: timedeltas of more than
    292000 years are read as short positive intervals instead of being refused. *)
Lemma td_duration_wraps :
  exists d, td_fields_ok d /\ max_int64 < td_total d /\ td_duration d = Some 224192000.
Proof. exists (Timedelta 106751991 14455 0). repeat split; vm_compute; done. Qed.

(** ** Reconciliation *)

Section reconcile_props.
Context {DB : Type} {St : JobStore DB} {La : JobStoreLaws DB}.

(** The stored intervals are [time.Duration]s. *)
Definition durations (c : Config) : Prop :=
  itv_ok (SourceWindowInterval c) /\ itv_ok (ExperienceIncubationInterval c).

(** C27: a successful reconciliation keeps the stored job of an unchanged interval,
    replaces the others by jobs starting one interval from now, drops the jobs
    that are no longer configured, and leaves in the table exactly the returned jobs. *)
Theorem reconcile_correct (db db' : DB) path now c jobs :
  utf8_valid (bytes_of path) = true -> no_nul path -> durations c ->
  reconcile db path now c = (db', Ok jobs) ->
  exists existing, represents path (table db) existing /\
    reconciled path c now existing jobs /\ represents path (table db') jobs.
Proof. intros Hu Hn [H1 H2]. by apply reconcile_spec. Qed.

(** restarting with the same configuration, at any later time, finds the same
    jobs: neither the run times nor the table's jobs change. *)
Theorem reconcile_restart (db db1 db2 : DB) path now now' c jobs jobs' :
  utf8_valid (bytes_of path) = true -> no_nul path -> durations c ->
  reconcile db path now c = (db1, Ok jobs) ->
  reconcile db1 path now' c = (db2, Ok jobs') ->
  jobs' = jobs /\ represents path (table db2) jobs.
Proof.
  intros Hu Hn [H1 H2] R1 R2.
  apply reconcile_spec in R1 as (ex & _ & A1 & B1); [|done..].
  apply reconcile_spec in R2 as (ex' & E2 & A2 & B2); [|done..].
  assert (ex' = jobs) as -> by by eapply represents_functional.
  assert (jobs' = jobs) as ->; [|done].
  apply map_eq. intros k. rewrite A2, A1. unfold desired. destruct (interval_of c k) as [i|]; [|done].
  destruct (ex !! k) as [j|]; cbn; [destruct (Z.eqb_spec (interval j) i) as [->|Hne]|];
    cbn; by rewrite ?Z.eqb_refl.
Qed.

End reconcile_props.

Lemma sample_durations : durations sample_config.
Proof. split; vm_compute; [discriminate|exact I]. Defined.

Lemma reconcile_correct_witness :
  represents sample_path (table sample_db) sample_jobs /\
  map snd (map_to_list sample_jobs) =
    [MkJob SourceWindow sample_path ten_minutes (day_start + ten_minutes) (day_start + ten_minutes)].
Proof.
  split; [|vm_compute; reflexivity].
  destruct (reconcile_correct (∅ : MemDB) sample_db sample_path day_start sample_config sample_jobs)
    as (ex & _ & _ & H); [vm_compute; reflexivity|vm_compute; reflexivity|exact sample_durations
    |exact sample_reconcile|exact H].
Defined.

Lemma sample_restart :
  reconcile sample_db sample_path (day_start + 12345000) sample_config = (sample_db, Ok sample_jobs).
Proof. vm_compute. reflexivity. Qed.

Lemma reconcile_restart_witness :
  sample_jobs = sample_jobs /\ represents sample_path (table sample_db) sample_jobs.
Proof.
  exact (reconcile_restart (∅ : MemDB) sample_db sample_db sample_path day_start (day_start + 12345000)
    sample_config sample_jobs sample_jobs eq_refl eq_refl sample_durations sample_reconcile sample_restart).
Defined.

(** ** Dispatch *)

Section dispatch_props.
Context {DB : Type} {St : JobStore DB} {La : JobStoreLaws DB}.

(** C1: over any run of the loop, with pauses, failures and any clock, the table
    holds exactly the scheduler's jobs, none is lost or added, and every call of a
    processor is paid by a whole interval of its job: no slot runs twice. *)
Theorem loop_at_most_once (s s' : Sched DB) evs :
  sched_inv s -> loop_steps s evs s' ->
  represents (s_path s) (table (s_db s')) (s_jobs s') /\
  (forall k, is_Some (s_jobs s' !! k) <-> is_Some (s_jobs s !! k)) /\
  (forall k, s_jobs s !! k = None -> runs k evs = 0) /\
  (forall k j j', s_jobs s !! k = Some j -> s_jobs s' !! k = Some j' ->
     runs k evs * interval j <= next j' - next j /\ interval j' = interval j).
Proof.
  intros Hs H. apply loop_steps_spec in H as [I P D R Paid _]; [|done].
  split; [rewrite <- P; apply I|]. split; [done|]. split; [done|].
  intros k j j' Hj Hj'. destruct (Paid k j j' Hj Hj') as (E & _ & L). lia.
Qed.

(** C35: when the store accepts updates and there is room before year 10000, a pass
    of an active scheduler runs every due processor exactly once, in one pass, leaves
    the jobs that are not due alone, does not cancel, and leaves no job due. *)
Theorem run_due_complete (s s' : Sched DB) now evs :
  sched_inv s -> s_cancelled s = false ->
  Z.of_nat (String.length (s_path s)) <= max_path_length ->
  (forall k j, s_jobs s !! k = Some j -> unix (now + interval j) <= 253402300799 /\ is_Some (s_handlers s k)) ->
  unix now <= 253402300799 ->
  (forall id old new b (db : DB), exists n db', cas_job id old new b db = Ok (n, db')) ->
  runDue s now = (s', evs) ->
  s_cancelled s' = false /\ represents (s_path s) (table (s_db s')) (s_jobs s') /\
  forall k j, s_jobs s !! k = Some j ->
    if next j <=? now
    then runs k evs = 1 /\ exists j', s_jobs s' !! k = Some j' /\ now < next j' <= now + interval j
    else runs k evs = 0 /\ s_jobs s' !! k = Some j.
Proof.
  intros Hs Hc Hlen Hroom Hu Htotal H.
  assert (Hsnap : forall j, j ∈ snapshot s -> s_jobs s !! kind j = Some j) by (intros; by apply snapshot_lookup).
  assert (Hok : s_cancelled s' = false).
  { eapply run_list_total; eauto using snapshot_nodup. intros j Hj. by eapply (Hroom (kind j)), Hsnap. }
  pose proof (runDue_spec s s' now evs Hs Hu H) as P. split; [done|].
  split; [rewrite <- (ps_path _ _ _ _ _ P); apply P|]. intros k j Hj.
  destruct (inv_job _ _ _ Hs Hj) as [Hk _].
  destruct (Z.leb_spec (next j) now) as [Hdue|Hlate].
  - destruct (ps_all _ _ _ _ _ P Hok j) as (a & b & A & B & _ & Hadv & Hr);
      [apply elem_of_snapshot; eauto|done|].
    rewrite Hk in *. assert (a = j) as -> by congruence.
    destruct (Hroom k j Hj) as [_ [f Hf]]. rewrite Hf in Hr. split; [done|].
    exists b. split; [done|]. apply Hadv.
  - destruct (ps_each _ _ _ _ _ P k) as [[U1 U2]|(a & b & A & _ & Hd & _)]; [by rewrite U1|].
    assert (a = j) as -> by congruence. lia.
Qed.
End dispatch_props.

Lemma sample_sched_inv : sched_inv sample_sched.
Proof.
  constructor; [|vm_compute; reflexivity|vm_compute; reflexivity].
  destruct (reconcile_spec sample_path eq_refl eq_refl ∅ day_start sample_config sample_db sample_jobs
    (proj1 sample_durations) (proj2 sample_durations) sample_reconcile) as (ex & _ & _ & H). exact H.
Qed.

Lemma pass_runs : runs SourceWindow (snd pass) = 1.
Proof. vm_compute. reflexivity. Qed.

Lemma pass_step : loop_steps sample_sched (snd pass ++ []) (fst pass).
Proof.
  eapply loop_more; [|apply loop_refl].
  apply (step_timer sample_sched later); [| |unfold pass; by destruct (runDue sample_sched later)].
  - eexists _, _. split; [vm_compute; reflexivity|]. apply Z.leb_le. vm_compute. reflexivity.
  - apply Z.leb_le. vm_compute. reflexivity.
Qed.

Lemma loop_at_most_once_witness :
  runs SourceWindow (snd pass) = 1 /\
  forall k j j', s_jobs sample_sched !! k = Some j -> s_jobs (fst pass) !! k = Some j' ->
    runs k (snd pass ++ []) * interval j <= next j' - next j /\ interval j' = interval j.
Proof.
  split; [exact pass_runs|].
  exact (proj2 (proj2 (proj2 (loop_at_most_once sample_sched (fst pass) (snd pass ++ [])
    sample_sched_inv pass_step)))).
Defined.

Lemma mem_cas_total id old new b (db : MemDB) : exists n db', cas_job id old new b db = Ok (n, db').
Proof.
  cbn. unfold mem_cas. destruct (db !! id) as [[c st]|]; [destruct (sql_eq c old)|]; eauto.
Qed.

Lemma sample_room k j :
  s_jobs sample_sched !! k = Some j ->
  unix (later + interval j) <= 253402300799 /\ is_Some (s_handlers sample_sched k).
Proof.
  intros Hj. destruct k as [| |name].
  - assert (E : s_jobs sample_sched !! SourceWindow = Some j -> interval j = ten_minutes).
    { vm_compute. by intros [= <-]. }
    rewrite (E Hj). split; [apply Z.leb_le; vm_compute; reflexivity|]. eexists. reflexivity.
  - exfalso. revert Hj. vm_compute. discriminate.
  - exfalso. destruct (inv_job _ _ _ sample_sched_inv Hj) as (Hk & Hv & _).
    pose proof (vj_kind _ Hv) as Hb. by rewrite Hk in Hb.
Qed.

Lemma run_due_complete_witness : s_cancelled (fst pass) = false.
Proof.
  refine (proj1 (run_due_complete sample_sched (fst pass) later (snd pass) sample_sched_inv
    eq_refl _ sample_room _ mem_cas_total _)).
  - apply Z.leb_le. vm_compute. reflexivity.
  - apply Z.leb_le. vm_compute. reflexivity.
  - unfold pass. destruct (runDue sample_sched later). reflexivity.
Defined.

(** ** Ownership *)

(** C36: whatever the interleaving of opens, failures, runs and (repeated) closes in
    one process, no two opens in progress or open schedulers share a path, and the
    set of owned paths is exactly the set of the paths in use. *)
Theorem ownership_exclusive {DB : Type} {St : JobStore DB} {Ev : Env DB} (w : World DB) :
  rtc world_step world_init w ->
  NoDup (in_use w) /\ forall p, p ∈ w_live w <-> p ∈ in_use w.
Proof. apply world_steps_ownership. Qed.

(** A process on the in-memory store, with no symbolic links. *)
#[local] Instance mem_env : Env MemDB := {
  getwd := Ok "/root"%string;
  EvalSymlinks p := Err (EDatabase "no such file");
  MkdirAll _ := None;
  open_db _ := Ok ∅;
  ping _ := None;
  ensureSchema t := Ok t
}.

Lemma ownership_exclusive_witness :
  exists w : World MemDB, rtc world_step world_init w /\ in_use w = [sample_path] /\ NoDup (in_use w).
Proof.
  assert (H : rtc world_step world_init
    (MkWorld {[sample_path]} [(sample_config, sample_path)] [] : World MemDB)).
  { eapply rtc_l; [|apply rtc_refl].
    apply (ws_claim sample_config sample_path ∅ {[sample_path]} [] []). vm_compute. reflexivity. }
  eexists. split; [exact H|]. split; [reflexivity|].
  exact (proj1 (ownership_exclusive _ H)).
Defined.

(** The failed second open of a path that is in use. *)
Lemma open_twice :
  snd (Open sample_config later {[sample_path]} : owners * res (Sched MemDB)) =
  Err (EState "duplicate" sample_path).
Proof. vm_compute. reflexivity. Qed.

(** ** Pickle data *)

(** The bytes between a protocol header and STOP. *)
Definition framed (body : bytes) : bytes := [Zbyte 128; Zbyte 5] ++ body ++ [Zbyte 46].

Lemma parse_framed n enc v :
  writes n enc [v] -> (n < 4000)%nat -> Z.of_nat (length enc) <= 65000 ->
  exists h, parsePickle (framed enc) = Ok (v, h).
Proof.
  intros Hw Hn Hlen. apply writes_emits in Hw.
  pose proof (Hw [Zbyte 46] 2 1%nat [] [] [] ltac:(cbn; lia) ltac:(lia)) as Hs.
  pose proof (step_proto (enc ++ [Zbyte 46])) as Hproto.
  pose proof (steps_trans 1 n _ _ _ Hproto Hs) as Hall.
  unfold parsePickle.
  destruct (Z.ltb_spec maxPickleBytes (Z.of_nat (length (framed enc)))) as [Hb|Hb].
  { unfold framed in Hb. rewrite !length_app in Hb. unfold maxPickleBytes in Hb. cbn [length] in Hb. lia. }
  assert (E : (length (framed enc) =? 0)%nat = false) by reflexivity. rewrite E. cbn [orb].
  change (framed enc) with (Zbyte 128 :: Zbyte 5 :: enc ++ [Zbyte 46]).
  assert (Hf : exists m, parse_fuel = (1 + n + S m)%nat).
  { exists (4095 - n)%nat. unfold parse_fuel, maxPickleOpcodes. lia. }
  destruct Hf as [m ->]. rewrite Hall. eexists. eapply run_stop. apply stop_at. lia.
Qed.

(** every 64-bit integer is read back unchanged from the opcode (one byte, two
    bytes, 32 bits or a minimal two's complement) that the writer chooses for it. *)
Theorem integer_roundtrip (v : Z) :
  in_int64 v -> exists h, parsePickle (framed (w_integer v)) = Ok (VInt v, h).
Proof.
  intros H. apply (parse_framed 1); [by apply writes_integer|lia|].
  pose proof (sz_integer v). unfold sz in *. lia.
Qed.

Lemma integer_roundtrip_witness :
  exists h, parsePickle (framed (w_integer (-129))) = Ok (VInt (-129), h).
Proof. apply (integer_roundtrip (-129)). unfold in_int64, min_int64, max_int64. lia. Defined.

(** A UTC microsecond time in Python's years is read back unchanged from the
    packed [datetime] that the writer emits. *)
Theorem datetime_roundtrip (t : time) :
  micro_time t -> exists h, parsePickle (framed (w_datetime t)) = Ok (VTime t, h).
Proof.
  intros H. apply (parse_framed 19); [by apply writes_datetime|lia|].
  pose proof (sz_datetime t). unfold sz in *. lia.
Qed.

Lemma datetime_roundtrip_witness :
  exists h, parsePickle (framed (w_datetime day_start)) = Ok (VTime day_start, h).
Proof. apply (datetime_roundtrip day_start). apply (vj_start _ sample_job_valid). Defined.
