(* ===== verification/MemoryModel.v ===== *)
(** * The Memory data model ([artifact/memory/model.go], [errors.go], [canonical.go],
    [internal/jcs/canonical.go])

    Entries, manifests, changes and hits with their validation, and the
    canonical form of texts and identities.  Unicode normalization
    ([golang.org/x/text]) and the RFC 8785 transform ([gowebpki/jcs]) are
    third-party code: the class [Text]. *)

From Stdlib Require Import SpecFloat.
From S2P Require Import Prelude.
From S2P Require Import GoStrings.
From S2P Require Import GoTime.
From S2P Require Import Refs.
From S2P Require Import Json.
From S2P Require Import Sha256.

(** ** Errors *)

Inductive mem_error :=
| ECanonical (code detail : string)
| EInvalidOperation (code : string)
| EInvalidCandidate (code detail : string)
| EInvalidEvidence (code : string)
| EEntryNotFound (id : string)
| EEntryInactive (id : string)
| EInvalidEmbedding (code : string)
| ECapability (capability detail : string)
| EInvalidCitation (code : string)
| EBackendConfiguration (detail : string)
| ERef (e : ref_error)
| EFamilyMismatch (artifact_family draft_family : string)
| ERevisionConflict (requested current : Ref)
| ENotFound (ref : Ref)
| EKeyCollision (key : string)
| ECandidateCause (code : string) (cause : mem_error)  (** [InvalidCandidateError] with the cause's text *)
| EUnacceptedObservation                  (** [source.UnacceptedObservationError] *)
| EInvalidOutput (operation detail : string)  (** [inference.InvalidOutputError] *)
| EEvidenceProjection (kind : string)
| EFormat (what : string)                 (** [fmt.Errorf] *)
| EExternal (what : string).              (** an error of a backend or provider *)

#[export] Instance mem_error_eq_dec : EqDecision mem_error.
Proof. solve_decision. Defined.

Abbreviation mres := (result mem_error).

Definition canonical {A} (code : string) : mres A := Err (ECanonical code "").
Definition lift_ref {A} : result ref_error A -> mres A := map_err ERef.

(** ** Third-party text functions *)

Class Text := {
  (** [norm.NFC.String] *)
  NFC : string -> string;
  (** [jcs.Transform] of [gowebpki/jcs] *)
  Transform : bytes -> option bytes
}.

(** ** Canonical JSON *)

Section canonical_json.
Context {T : Text}.

(** [normalize] on the values the package builds: maps as lists of their
    entries; equal normalized keys collide. *)
Fixpoint normalize (value : json) : mres json :=
  match value with
  | JStr s => Ok (JStr (NFC s))
  | JArr xs => let* ys := map_res normalize xs in Ok (JArr ys)
  | JObj fs =>
      let* gs :=
        (fix fields (fs : list (string * json)) (seen : list string) : mres (list (string * json)) :=
           match fs with
           | [] => Ok []
           | (key, v) :: more =>
               let key' := NFC key in
               require negb (existsb (String.eqb key') seen) else EKeyCollision key' in
               let* v' := normalize v in
               let* rest := fields more (key' :: seen) in
               Ok ((key', v') :: rest)
           end) fs [] in
      Ok (JObj gs)
  | other => Ok other
  end.

(** A map is encoded with its keys sorted. *)
Definition key_le (a b : string * json) : Prop := str_le (fst a) (fst b).
#[local] Instance key_le_dec a b : Decision (key_le a b).
Proof. unfold key_le. apply _. Defined.

Fixpoint sort_keys (value : json) : json :=
  match value with
  | JArr xs => JArr (map sort_keys xs)
  | JObj fs => JObj (merge_sort key_le (map (fun f => (fst f, sort_keys (snd f))) fs))
  | other => other
  end.

(** [internaljcs.Marshal]; [json.Marshal] escapes HTML and does not fail here. *)
Definition CanonicalJSON (value : json) : mres bytes :=
  let* normalized := normalize value in
  of_option (Transform (json_bytes true true (sort_keys normalized))) (EFormat "canonicalize JSON").
End canonical_json.

(** ** Text *)

Section canonical_text.
Context {T : Text}.

Definition trimPythonWhitespace : string -> string := trim_func isPythonWhitespace.

Definition normalizeNonEmpty (value label : string) : mres string :=
  let normalized := trimPythonWhitespace (NFC value) in
  require negb (String.eqb normalized "") else ECanonical "string-empty" label in
  Ok normalized.

Definition NormalizeText (value : string) : mres string :=
  let* normalized := normalizeNonEmpty value "memory entry text" in
  require Z.of_nat (String.length normalized) <=? 8192 else ECanonical "text-too-long" "" in
  Ok normalized.

Definition NormalizeKind (value : string) : mres string := normalizeNonEmpty value "memory entry kind".

Definition NormalizeReason (value : option string) : mres (option string) :=
  match value with
  | None => Ok None
  | Some v =>
      let normalized := trimPythonWhitespace (NFC v) in
      if String.eqb normalized "" then Ok None
      else
        require rune_count normalized <=? 512 else ECanonical "reason-too-long" "" in
        Ok (Some normalized)
  end.
End canonical_text.

Definition isASCII (value : string) : bool := forallb (fun c => byteZ c <=? 127) (bytes_of value).

Definition ValidateIdentifier (value : string) : mres string :=
  require negb (String.eqb value "") else ECanonical "identifier-empty" "" in
  require isASCII value else ECanonical "identifier-ascii" "" in
  require Z.of_nat (String.length value) <=? 128 else ECanonical "identifier-too-long" "" in
  Ok value.

Definition ValidateContentHash (value : string) : mres string :=
  require lowerHex64 value else ECanonical "hash" "" in
  Ok value.

Definition valid_identifier (value : string) : Prop :=
  value <> ""%string /\ isASCII value = true /\ Z.of_nat (String.length value) <= 128.

Lemma ValidateIdentifier_ok v w : ValidateIdentifier v = Ok w <-> w = v /\ valid_identifier v.
Proof.
  unfold ValidateIdentifier, valid_identifier. split.
  - intros H. bind_inv H. ok_inv. boolify. apply String.eqb_neq in Ha. apply Z.leb_le in Ha1. auto.
  - intros (-> & H1 & H2 & H3). apply String.eqb_neq in H1. apply Z.leb_le in H3.
    by rewrite H1, H2, H3.
Qed.

(** ** Entry states, operations, modes *)

(** Each is a Go string type: its constants, and any other text. *)
Inductive EntryState := Active | Inactive | OtherState (s : string).
Inductive ChangeOp := Add | Revise | Deactivate | Reactivate | OtherOp (s : string).
Inductive SearchMode := SearchFTS | SearchVector | SearchHybrid | SearchAuto | OtherMode (s : string).
Inductive MatchedBy := MatchedFTS | MatchedVector.

#[export] Instance entry_state_eq_dec : EqDecision EntryState.
Proof. solve_decision. Defined.
#[export] Instance change_op_eq_dec : EqDecision ChangeOp.
Proof. solve_decision. Defined.
#[export] Instance search_mode_eq_dec : EqDecision SearchMode.
Proof. solve_decision. Defined.
#[export] Instance matched_by_eq_dec : EqDecision MatchedBy.
Proof. solve_decision. Defined.

Definition state_string (s : EntryState) : string :=
  match s with Active => "active" | Inactive => "inactive" | OtherState o => o end.
Definition op_string (o : ChangeOp) : string :=
  match o with
  | Add => "add" | Revise => "revise" | Deactivate => "deactivate" | Reactivate => "reactivate"
  | OtherOp s => s
  end.

(** ** Embedding profiles and vectors *)

Record EmbeddingProfile := MkProfile {
  ProfileID : string; Model : string; Dimension : Z; Distance : string; Normalization : string
}.

#[export] Instance profile_eq_dec : EqDecision EmbeddingProfile.
Proof. solve_decision. Defined.

Definition NewEmbeddingProfile (id model : string) (dimension : Z) (normalization : string)
  : mres EmbeddingProfile :=
  require negb (String.eqb id "" || String.eqb model "") else EFormat "embedding profile identifiers" in
  require 1 <=? dimension else ECanonical "dimension-positive" "" in
  require String.eqb normalization "none" || String.eqb normalization "unit"
    else EFormat "unsupported embedding normalization" in
  Ok (MkProfile id model dimension "l2" normalization).

Record Capabilities := MkCapabilities {
  cap_FTS : bool; cap_Vector : bool; cap_Hybrid : bool; cap_profile : option EmbeddingProfile
}.

Definition f64_abs (f : float64) : float64 := SFabs f.
Definition f64_sqrt : float64 -> float64 := SFsqrt 53 1024.
Definition f64_zero : float64 := S754_zero false.

(** Go's builtin [max] on floats: NaN if either is, and +0 over -0. *)
Definition f64_max (a b : float64) : float64 :=
  if is_nan a || is_nan b then S754_nan
  else if f64_lt a b then b
  else if f64_lt b a then a
  else match a, b with
       | S754_zero true, _ => b
       | _, _ => a
       end.

Definition ValidateEmbedding (values : list float64) (dimension : Z) : mres (list float64) :=
  require 1 <=? dimension else ECanonical "dimension-positive" "" in
  require Z.of_nat (length values) =? dimension else ECanonical "vector-dimension" "" in
  require forallb is_finite values else ECanonical "vector-finite" "" in
  Ok values.

Definition NormalizeEmbedding (values : list float64) (dimension : Z) : mres (list float64) :=
  let* vector := ValidateEmbedding values dimension in
  let scale := fold_left (fun acc v => f64_max acc (f64_abs v)) vector f64_zero in
  require negb (f64_eq scale f64_zero) else ECanonical "vector-zero" "" in
  let scaled := map (fun v => f64_div v scale) vector in
  let normSquared := fold_left (fun acc v => f64_add acc (f64_mul v v)) scaled f64_zero in
  let normValue := f64_sqrt normSquared in
  Ok (map (fun v => f64_div v normValue) scaled).

Definition CanonicalEmbedding (values : list float64) (dimension : Z) (normalization : string)
  : mres (list float64) :=
  if String.eqb normalization "unit" then NormalizeEmbedding values dimension
  else ValidateEmbedding values dimension.

(** ** Manifests *)

Record ManifestEntry := MkEntry {
  entryID : string; entryVersionID : string; entryContentHash : string; state : EntryState
}.

#[export] Instance manifest_entry_eq_dec : EqDecision ManifestEntry.
Proof. solve_decision. Defined.

Definition NewManifestEntry (id version hash : string) (st : EntryState) : mres ManifestEntry :=
  let* _ := ValidateIdentifier id in
  let* _ := ValidateIdentifier version in
  let* _ := ValidateContentHash hash in
  require match st with Active | Inactive => true | OtherState _ => false end
    else EFormat "invalid memory entry state" in
  Ok (MkEntry id version hash st).

Definition valid_entry (e : ManifestEntry) : Prop :=
  valid_identifier (entryID e) /\ valid_identifier (entryVersionID e) /\
  lowerHex64 (entryContentHash e) = true /\ (state e = Active \/ state e = Inactive).

Lemma NewManifestEntry_ok id version hash st e :
  NewManifestEntry id version hash st = Ok e <-> e = MkEntry id version hash st /\ valid_entry e.
Proof.
  unfold NewManifestEntry, valid_entry. split.
  - intros H. bind_inv H. ok_inv. apply ValidateIdentifier_ok in Ha as [_ Ha], Ha0 as [_ Ha0].
    unfold ValidateContentHash in Ha1. bind_inv Ha1. ok_inv. subst e. cbn.
    repeat split; auto; try apply Ha; try apply Ha0. destruct st; auto; done.
  - intros (-> & H1 & H2 & H3 & H4). cbn in *.
    rewrite (proj2 (ValidateIdentifier_ok id id)) by done. cbn.
    rewrite (proj2 (ValidateIdentifier_ok version version)) by done. cbn.
    unfold ValidateContentHash. rewrite H3. cbn. by destruct H4 as [-> | ->].
Qed.

Abbreviation Manifest := (list ManifestEntry).

Record Change := MkChange {
  op : ChangeOp; c_entryID : string;
  fromEntryVersionID : option string; toEntryVersionID : option string; reason : option string
}.

#[export] Instance change_eq_dec : EqDecision Change.
Proof. solve_decision. Defined.

Definition validate_optional (value : option string) : mres unit :=
  match value with
  | Some v => let* _ := ValidateIdentifier v in Ok tt
  | None => Ok tt
  end.

Definition NewChange `{Text} (o : ChangeOp) (id : string) (from to why : option string) : mres Change :=
  require match o with OtherOp _ => false | _ => true end else EFormat "invalid memory change operation" in
  let* _ := ValidateIdentifier id in
  let* _ := validate_optional from in
  let* _ := validate_optional to in
  let* normalized := NormalizeReason why in
  Ok (MkChange o id from to normalized).

Record Content := MkContent { manifest : Manifest; changes : list Change }.

#[export] Instance content_eq_dec : EqDecision Content.
Proof. solve_decision. Defined.

Definition Family : string := "memory".
Definition Schema : string := "powercontext.memory.v1".
Definition Format : string := "flat-v1".

Abbreviation Memory := (Artifact Content).

(** ** Entry versions, hits and citations *)

Record EntryVersion := MkVersion {
  ev_MemoryArtifactID : string; ev_EntryID : string; ev_EntryVersionID : string;
  ev_Version : Z; ev_PreviousVersionID : option string;
  ev_Kind : string; ev_Text : string; ev_EntryContentHash : string; ev_CreatedInRevision : Z;
  ev_Sources : list Source.Ref; ev_Artifacts : list Ref
}.

#[export] Instance entry_version_eq_dec : EqDecision EntryVersion.
Proof. solve_decision. Defined.

Record ChannelHit := MkChannelHit {
  ch_MemoryRef : Ref; ch_EntryID : string; ch_EntryVersionID : string; ch_Text : string;
  ch_Distance : option float64
}.

(** A distance is finite and not below zero. *)
Definition distance_ok (d : option float64) : bool :=
  match d with
  | None => true
  | Some f => negb (f64_lt f f64_zero || is_nan f || is_inf f)
  end.

Definition NewChannelHit (ref : Ref) (id version text : string) (distance : option float64)
  : mres ChannelHit :=
  let* _ := lift_ref (Validate ref) in
  let* _ := ValidateIdentifier id in
  let* _ := ValidateIdentifier version in
  require distance_ok distance else EFormat "memory channel distance must be finite and non-negative" in
  Ok (MkChannelHit ref id version text distance).

Record Hit := MkHit {
  h_MemoryRef : Ref; h_EntryID : string; h_EntryVersionID : string; h_Text : string;
  h_Score : float64; h_MatchedBy : list MatchedBy
}.

Record Citation := MkCitation { ci_MemoryRef : Ref; ci_EntryID : string; ci_EntryVersionID : string }.

#[export] Instance citation_eq_dec : EqDecision Citation.
Proof. solve_decision. Defined.

(** ** Content hashes *)

Section hashes.
Context {T : Text}.

Definition domainHash (domain contents : bytes) : string := hex_encode (sha256 (domain ++ contents)).

(** A domain string and its NUL terminator. *)
Definition entryHashDomain : bytes := bytes_of "powercontext:entry-content:v1" ++ [Zbyte 0].
Definition embeddingHashDomain : bytes := bytes_of "powercontext:embedding-content:v1" ++ [Zbyte 0].

Definition source_ref_json (r : Source.Ref) : json :=
  JObj [("source_type", JStr (Source.sourceType r)); ("source_id", JStr (Source.sourceID r))]%string.
Definition artifact_ref_json (r : Ref) : json :=
  JObj [("family", JStr (family r)); ("artifact_id", JStr (artifactID r)); ("revision", JInt (revision r))]%string.

(** The values in the order of their encodings, equal encodings once (the last
    value wins, as in the Go map). *)
Definition item_le {A} (a b : string * A) : Prop := str_le (fst a) (fst b).
#[export] Instance item_le_dec {A} (a b : string * A) : Decision (item_le a b).
Proof. unfold item_le. apply _. Defined.

Fixpoint put_item {A} (key : string) (v : A) (items : list (string * A)) : list (string * A) :=
  match items with
  | [] => [(key, v)]
  | (k, w) :: more => if String.eqb k key then (key, v) :: more else (k, w) :: put_item key v more
  end.

Definition normalizeRefValues (values : list json) : mres (list json) :=
  let* byEncoded :=
    fold_res (fun acc v => let* encoded := CanonicalJSON v in Ok (put_item (string_of encoded) v acc))
      [] values in
  Ok (map snd (merge_sort item_le byEncoded)).

Definition normalizeSourceRefs (refs : list Source.Ref) : mres (list json) :=
  let* values := map_res (fun r => let* _ := lift_ref (check_source r) in Ok (source_ref_json r)) refs in
  normalizeRefValues values.

Definition normalizeArtifactRefs (refs : list Ref) : mres (list json) :=
  let* values := map_res (fun r => let* _ := lift_ref (Validate r) in Ok (artifact_ref_json r)) refs in
  normalizeRefValues values.

Definition EntryContentBytes (kind text : string) (srcs : list Source.Ref) (arts : list Ref) : mres bytes :=
  let* normalizedKind := NormalizeKind kind in
  let* normalizedText := NormalizeText text in
  let* sources := normalizeSourceRefs srcs in
  let* artifacts := normalizeArtifactRefs arts in
  CanonicalJSON (JObj [("kind", JStr normalizedKind); ("text", JStr normalizedText);
                       ("source_refs", JArr sources); ("artifact_refs", JArr artifacts)])%string.

Definition EntryContentHash (kind text : string) (srcs : list Source.Ref) (arts : list Ref) : mres string :=
  let* contents := EntryContentBytes kind text srcs arts in
  Ok (domainHash entryHashDomain contents).

Definition optional_json (o : option string) : json := match o with Some s => JStr s | None => JNull end.

Definition entry_json (e : ManifestEntry) : mres json :=
  let* _ := ValidateIdentifier (entryID e) in
  let* _ := ValidateIdentifier (entryVersionID e) in
  let* _ := ValidateContentHash (entryContentHash e) in
  Ok (JObj [("entry_id", JStr (entryID e)); ("entry_version_id", JStr (entryVersionID e));
            ("entry_content_hash", JStr (entryContentHash e)); ("state", JStr (state_string (state e)))])%string.

Definition change_json (c : Change) : mres json :=
  let* _ := ValidateIdentifier (c_entryID c) in
  let* _ := validate_optional (fromEntryVersionID c) in
  let* _ := validate_optional (toEntryVersionID c) in
  let* why := NormalizeReason (reason c) in
  Ok (JObj [("op", JStr (op_string (op c))); ("entry_id", JStr (c_entryID c));
            ("from_entry_version_id", optional_json (fromEntryVersionID c));
            ("to_entry_version_id", optional_json (toEntryVersionID c)); ("reason", optional_json why)])%string.

Definition ContentBytes (c : Content) : mres bytes :=
  let* entries := map_res entry_json (manifest c) in
  let* changes := map_res change_json (changes c) in
  CanonicalJSON (JObj [("schema", JStr Schema);
                       ("manifest", JObj [("format", JStr Format); ("entries", JArr entries)]);
                       ("changes", JArr changes)])%string.

Definition ContentHash (c : Content) : mres string :=
  let* encoded := ContentBytes c in
  Ok (hex_encode (sha256 encoded)).

Definition EmbeddingContentHash (p : EmbeddingProfile) (hash : string) : mres string :=
  require 1 <=? Dimension p else ECanonical "dimension-positive" "" in
  let* _ := ValidateContentHash hash in
  let* profileID := normalizeNonEmpty (ProfileID p) "embedding profile ID" in
  let* model := normalizeNonEmpty (Model p) "embedding model" in
  let* distance := normalizeNonEmpty (Distance p) "embedding distance" in
  let* normalization := normalizeNonEmpty (Normalization p) "embedding normalization" in
  let* encoded := CanonicalJSON
    (JObj [("profile", JObj [("profile_id", JStr profileID); ("model", JStr model);
                             ("dimension", JInt (Dimension p)); ("distance", JStr distance);
                             ("normalization", JStr normalization)]);
           ("entry_content_hash", JStr hash)])%string in
  Ok (domainHash embeddingHashDomain encoded).

(** A content hash always has the format that the model validates. *)
Lemma EntryContentHash_valid kind text srcs arts h :
  EntryContentHash kind text srcs arts = Ok h -> lowerHex64 h = true.
Proof. unfold EntryContentHash. intros H. bind_inv H. ok_inv. subst h. apply sha256_hex. Qed.
End hashes.

(** Trimming is stable under a stable normalization. *)
Class TextLaws `{Text} := {
  (** ASCII text is in every normalization form *)
  NFC_ascii s : isASCII s = true -> NFC s = s;
  NFC_idem s : NFC (NFC s) = NFC s;
  (** cutting whitespace from the ends of a normalized text leaves it normalized *)
  NFC_trim s : NFC (trimPythonWhitespace (NFC s)) = trimPythonWhitespace (NFC s)
}.

Section text_facts.
Context {T : Text} {L : TextLaws}.

Lemma normalizeNonEmpty_idem v label w :
  normalizeNonEmpty v label = Ok w -> normalizeNonEmpty w label = Ok w /\ w <> ""%string.
Proof.
  unfold normalizeNonEmpty. intros H. bind_inv H. ok_inv. subst w. boolify.
  apply String.eqb_neq in Ha. split; [|done].
  unfold trimPythonWhitespace in *. rewrite NFC_trim.
  unfold trimPythonWhitespace. rewrite trim_func_idem. by apply String.eqb_neq in Ha as ->.
Qed.

Lemma NormalizeText_idem v w :
  NormalizeText v = Ok w -> NormalizeText w = Ok w /\ w <> ""%string /\ Z.of_nat (String.length w) <= 8192.
Proof.
  unfold NormalizeText. intros H. bind_inv H. ok_inv. subst a.
  apply normalizeNonEmpty_idem in Ha as [E Hne]. apply Z.leb_le in Ha0.
  rewrite E. cbn. split; [|done]. apply Z.leb_le in Ha0. by rewrite Ha0.
Qed.

Lemma NormalizeReason_idem v w : NormalizeReason v = Ok w -> NormalizeReason w = Ok w.
Proof.
  unfold NormalizeReason. destruct v as [v|]; [|by intros [= <-]].
  destruct (String.eqb_spec (trimPythonWhitespace (NFC v)) ""); [by intros [= <-]|].
  intros H. bind_inv H. ok_inv. subst w.
  assert (E : trimPythonWhitespace (NFC (trimPythonWhitespace (NFC v))) = trimPythonWhitespace (NFC v)).
  { rewrite NFC_trim. unfold trimPythonWhitespace. apply trim_func_idem. }
  rewrite E. apply String.eqb_neq in n. by rewrite n, Ha.
Qed.
End text_facts.
