(* ===== verification/Review.v ===== *)
(** * Candidates ([internal/review] model.go, errors.go)

    A Candidate is one version of a proposal with the state of its review.  Its
    constructor accepts exactly the values of [valid_candidate]. *)

From S2P Require Import Prelude.
From S2P Require Import GoStrings.
From S2P Require Import Refs.

Definition MaxEvidence : Z := 32.
Definition MaxPageSize : Z := 100.
Definition DefaultPageSize : Z := 50.
Definition MaxReasonLength : Z := 2000.
Definition MaxCandidateID : Z := 128.

Inductive Status := Pending | Approved | Rejected | OtherStatus (s : string).

#[export] Instance status_eq_dec : EqDecision Status.
Proof. solve_decision. Defined.

Inductive review_error :=
| RNotFound (candidate : string)                         (** [CandidateNotFoundError] *)
| RConflict (candidate : string) (expected current : Z)  (** [CandidateConflictError] *)
| RTerminal (candidate : string) (status : Status)       (** [CandidateTerminalError] *)
| RInvalid (field : string)                              (** [InvalidCandidateError] *)
| RTarget (target current : Ref)                         (** [ArtifactTargetConflictError] *)
| RUnavailable (family : string)                         (** [GenerationCapabilityUnavailableError] *)
| RReference (e : ref_error).                            (** of [artifact] or [source] *)

#[export] Instance review_error_eq_dec : EqDecision review_error.
Proof. solve_decision. Defined.

Abbreviation rres := (result review_error).

(** A Candidate over proposals [T]. *)
Record Candidate (T : Type) := MkCandidate {
  cn_ID : string; cn_Version : Z; cn_Family : string; cn_Status : Status; cn_Proposal : T;
  cn_Sources : list Source.Ref; cn_Artifacts : list Ref; cn_Target : option Ref; cn_Reason : option string;
  cn_Result : option Ref; cn_Decision : option string
}.
Arguments MkCandidate {T}. Arguments cn_ID {T}. Arguments cn_Version {T}. Arguments cn_Family {T}.
Arguments cn_Status {T}. Arguments cn_Proposal {T}. Arguments cn_Sources {T}. Arguments cn_Artifacts {T}.
Arguments cn_Target {T}. Arguments cn_Reason {T}. Arguments cn_Result {T}. Arguments cn_Decision {T}.

Record Page (T : Type) := MkPage { pg_Candidates : list (Candidate T); pg_NextCursor : option string }.
Arguments MkPage {T}. Arguments pg_Candidates {T}. Arguments pg_NextCursor {T}.

(** A maximum of 0 is none. *)
Definition candidateText (field value : string) (maximum : Z) : rres unit :=
  require utf8_valid (bytes_of value) && negb (blank value) && String.eqb (trim_space value) value else RInvalid field in
  require negb ((0 <? maximum) && (maximum <? rune_count value)) else RInvalid field in
  Ok tt.

Definition optional_text (field : string) (value : option string) : rres unit :=
  match value with Some v => candidateText field v MaxReasonLength | None => Ok tt end.

Definition validateReason : option string -> rres unit := optional_text "reason".

Definition check_target (family_ : string) (target : option Ref) : rres unit :=
  match target with
  | Some r =>
      let* _ := map_err RReference (Validate r) in
      require String.eqb (family r) family_ else RInvalid "target" in Ok tt
  | None => Ok tt
  end.

(** [NewCandidate] on the record of its arguments.  The code looks at the two
    reasons in the order of a map, on which only the field named by the error
    depends. *)
Definition NewCandidate {T} (c : Candidate T) : rres (Candidate T) :=
  let* _ := candidateText "candidate_id" (cn_ID c) MaxCandidateID in
  let* _ := candidateText "family" (cn_Family c) 0 in
  require negb (cn_Version c <? 1) else RInvalid "version" in
  require match cn_Status c with OtherStatus _ => false | _ => true end else RInvalid "status" in
  let evidence := Z.of_nat (length (cn_Sources c)) + Z.of_nat (length (cn_Artifacts c)) in
  require negb (evidence <? 1) else RInvalid "evidence" in
  require negb (MaxEvidence <? evidence) else RInvalid "evidence" in
  let* _ := map_err RReference (map_res check_source (cn_Sources c)) in
  let* _ := map_err RReference (map_res Validate (cn_Artifacts c)) in
  let* _ := check_target (cn_Family c) (cn_Target c) in
  let* _ := optional_text "reason" (cn_Reason c) in
  let* _ := optional_text "decision_reason" (cn_Decision c) in
  require (if bool_decide (cn_Status c = Approved) then negb (bool_decide (cn_Result c = None))
           else bool_decide (cn_Result c = None)) else RInvalid "result_artifact" in
  let* _ := match cn_Result c with Some r => map_err RReference (Validate r) | None => Ok tt end in
  require (if bool_decide (cn_Status c = Rejected) then negb (bool_decide (cn_Decision c = None))
           else bool_decide (cn_Decision c = None)) else RInvalid "decision_reason" in
  Ok c.

(** The first of each value. *)
Fixpoint unique {A} `{EqDecision A} (seen values : list A) : list A :=
  match values with
  | [] => []
  | v :: more => if bool_decide (v ∈ seen) then unique seen more else v :: unique (v :: seen) more
  end.
Definition uniqueSources : list Source.Ref -> list Source.Ref := unique [].
Definition uniqueArtifacts : list Ref -> list Ref := unique [].

(** ** What a Candidate is *)

(** Only an approved Candidate has a result, and only a rejected one a decision. *)
Definition decided (s : Status) (result : option Ref) (decision : option string) : Prop :=
  match s with
  | Pending => result = None /\ decision = None
  | Approved => is_Some result /\ decision = None
  | Rejected => result = None /\ is_Some decision
  | OtherStatus _ => False
  end.

Record valid_candidate {T} (c : Candidate T) : Prop := {
  vc_id : candidateText "candidate_id" (cn_ID c) MaxCandidateID = Ok tt;
  vc_family : candidateText "family" (cn_Family c) 0 = Ok tt;
  vc_version : 1 <= cn_Version c;
  vc_evidence : 1 <= Z.of_nat (length (cn_Sources c)) + Z.of_nat (length (cn_Artifacts c)) <= MaxEvidence;
  vc_lineage : valid_lineage (MkLineage (cn_Sources c) (cn_Artifacts c));
  vc_target : match cn_Target c with Some r => valid_ref r /\ family r = cn_Family c | None => True end;
  vc_reason : optional_text "reason" (cn_Reason c) = Ok tt;
  vc_decision : optional_text "decision_reason" (cn_Decision c) = Ok tt;
  vc_decided : decided (cn_Status c) (cn_Result c) (cn_Decision c);
  vc_result : match cn_Result c with Some r => valid_ref r | None => True end
}.

Lemma check_target_ok fam target u :
  check_target fam target = Ok u <-> match target with Some r => valid_ref r /\ family r = fam | None => True end.
Proof.
  destruct u, target as [r|]; [|done]. cbn. split.
  - intros H. bind_inv H. apply check_ok_inv, String.eqb_eq in Ha0. destruct (Validate r) eqn:E; [|done].
    by apply Validate_ok in E.
  - intros [H <-]. rewrite (proj2 (Validate_ok r tt) H). cbn. by rewrite String.eqb_refl.
Qed.

Lemma decided_spec s r d :
  decided s r d <->
  (match s with OtherStatus _ => false | _ => true end = true) /\
  ((if bool_decide (s = Approved) then negb (bool_decide (r = None)) else bool_decide (r = None)) = true) /\
  ((if bool_decide (s = Rejected) then negb (bool_decide (d = None)) else bool_decide (d = None)) = true).
Proof. destruct s, r, d; cbn; unfold is_Some; naive_solver. Qed.

Lemma NewCandidate_ok {T} (c c' : Candidate T) : NewCandidate c = Ok c' <-> c' = c /\ valid_candidate c.
Proof.
  unfold NewCandidate. split.
  - intros H. bind_inv H. injection H as <-. split; [done|].
    repeat match goal with E : map_err _ _ = Ok _ |- _ => rewrite map_err_ok in E
                         | E : check _ _ = Ok _ |- _ => apply check_ok_inv in E end.
    rewrite check_target_ok in Ha7. apply negb_true_iff, Z.ltb_ge in Ha1, Ha3, Ha4.
    assert (Hl : valid_lineage (MkLineage (cn_Sources c) (cn_Artifacts c))).
    { split; cbn; eapply map_res_check; eauto using check_source_ok, Validate_ok. }
    assert (Hr : match cn_Result c with Some r => valid_ref r | None => True end).
    { destruct (cn_Result c); [|done]. rewrite map_err_ok in Ha11. by apply Validate_ok in Ha11. }
    split; try done; try (repeat match goal with u : unit |- _ => destruct u end; done). by apply decided_spec.
  - intros [-> []]. rewrite vc_id0, vc_family0. cbn. rewrite (proj2 (Z.ltb_ge _ _)) by done. cbn.
    apply decided_spec in vc_decided0 as (E1 & E2 & E3). rewrite E1, E2, E3. cbn.
    rewrite !(proj2 (Z.ltb_ge _ _)) by lia. cbn. destruct vc_lineage0 as [H1 H2]. cbn in H1, H2.
    destruct (map_res_check_ok check_source _ _ check_source_ok H1) as [u1 ->].
    destruct (map_res_check_ok Validate _ _ Validate_ok H2) as [u2 ->]. cbn.
    rewrite (proj2 (check_target_ok _ _ tt)) by done. rewrite vc_reason0, vc_decision0. cbn.
    destruct (cn_Result c) as [r|]; [|done]. by rewrite (proj2 (Validate_ok r tt)).
Qed.

Lemma unique_spec {A} `{EqDecision A} (values : list A) : forall seen,
  NoDup (unique seen values) /\ forall x, x ∈ unique seen values <-> x ∈ values /\ x ∉ seen.
Proof.
  induction values as [|v values IH]; intros seen; cbn; [split; [constructor|set_solver]|].
  case_bool_decide as Hv.
  - destruct (IH seen) as [Hn Hi]. split; [done|]. set_solver.
  - destruct (IH (v :: seen)) as [Hn Hi]. split; [constructor; [set_solver|done]|]. intros x.
    destruct (decide (x = v)) as [->|Hne]; set_solver.
Qed.
