(* ===== verification/Contents.v ===== *)
(** * The contents of Experiences and of Skills ([artifact/experience/model.go],
    [artifact/skill/model.go])

    What each holds, its checks, and the texts of an Experience that are shown and
    searched. *)

From S2P Require Import Prelude.
From S2P Require Import GoStrings.
From S2P Require Import Refs.

Module Experience.

Definition Family : string := "experience".
Definition MaxFieldLength : Z := 8000.

Record Content := MkContent { situation : string; action : string; outcome : string; lesson : string }.

Inductive error := Blank (field : string) | TooLong (field : string).

Definition check_field (field value : string) : result error unit :=
  require negb (String.eqb (trim_python value) "") else Blank field in
  require rune_count value <=? MaxFieldLength else TooLong field in
  Ok tt.

(** [NewContent]; the fields are visited in the order of a Go map, [order]. *)
Definition NewContent (order : list (string * string)) (c : Content) : result error Content :=
  let* _ := map_res (fun fv => check_field (fst fv) (snd fv)) order in
  Ok c.

Definition fields (c : Content) : list (string * string) :=
  [("situation", situation c); ("action", action c); ("outcome", outcome c); ("lesson", lesson c)]%string.

Record SearchHit := MkSearchHit { sh_ref : Ref; sh_content : Content }.

Definition newline : string := String (ascii_of_nat 10) "".

Definition Render (c : Content) : string :=
  "Situation: " +:+ situation c +:+ newline +:+ "Action: " +:+ action c +:+ newline
  +:+ "Outcome: " +:+ outcome c +:+ newline +:+ "Lesson: " +:+ lesson c.

Definition SearchText (c : Content) : string :=
  situation c +:+ newline +:+ action c +:+ newline +:+ outcome c +:+ newline +:+ lesson c.

(** A text that is not blank and not too long. *)
Definition valid_field (value : string) : Prop := trim_python value <> ""%string /\ rune_count value <= MaxFieldLength.

Definition valid (c : Content) : Prop :=
  valid_field (situation c) /\ valid_field (action c) /\ valid_field (outcome c) /\ valid_field (lesson c).

Lemma check_field_ok field value u : check_field field value = Ok u <-> valid_field value.
Proof.
  destruct u. unfold check_field, valid_field. split.
  - intros H. bind_inv H. apply check_ok_inv, negb_true_iff, String.eqb_neq in Ha. by apply check_ok_inv, Z.leb_le in Ha0.
  - intros [H1 H2]. apply String.eqb_neq in H1. apply Z.leb_le in H2. by rewrite H1, H2.
Qed.

Lemma experience_content_ok c c' : NewContent (fields c) c = Ok c' <-> c' = c /\ valid c.
Proof.
  unfold NewContent, fields, valid. cbn [map_res fst snd]. split.
  - intros H. bind_inv H. injection H as <-. repeat match goal with E : bind _ _ = Ok _ |- _ => bind_inv E end.
    repeat match goal with E : check_field _ _ = Ok _ |- _ => apply check_field_ok in E end. done.
  - intros [-> (H1 & H2 & H3 & H4)].
    apply (check_field_ok "situation" _ tt) in H1. apply (check_field_ok "action" _ tt) in H2.
    apply (check_field_ok "outcome" _ tt) in H3. apply (check_field_ok "lesson" _ tt) in H4. by rewrite H1, H2, H3, H4.
Qed.

End Experience.

(** ** Managed Skills ([artifact/skill/model.go])

    The first representation of a Skill: a name, a description, instructions and
    the checks that validate it.  A Skill that a package backs is a value of
    another component. *)
Module Skill.

Definition Family : string := "skill".
Definition MaxNameLength : Z := 128.
Definition MaxDescriptionLength : Z := 2000.
Definition MaxInstructionsLength : Z := 32000.
Definition MaxValidationItems : Z := 32.
Definition MaxValidationItemLength : Z := 2000.

Record Content := MkContent { name : string; description : string; instructions : string; validation : list string }.

(** What a message names. *)
Inductive error := Untrimmed (label : string) | TooLong (label : string) | Items.

Definition trimmedBounded (label value : string) (maximum : Z) : result error unit :=
  let trimmed := trim_python value in
  require negb (String.eqb trimmed "") && String.eqb value trimmed else Untrimmed label in
  require rune_count value <=? maximum else TooLong label in
  Ok tt.

Definition NewContent (c : Content) : result error Content :=
  let* _ := trimmedBounded "Skill name" (name c) MaxNameLength in
  let* _ := trimmedBounded "Skill description" (description c) MaxDescriptionLength in
  require negb (String.eqb (trim_python (instructions c)) "") && (rune_count (instructions c) <=? MaxInstructionsLength)
    else TooLong "Skill instructions" in
  let items := Z.of_nat (length (validation c)) in
  require (1 <=? items) && (items <=? MaxValidationItems) else Items in
  let* _ := map_res (fun item => trimmedBounded "Skill validation item" item MaxValidationItemLength) (validation c) in
  Ok c.

(** A short text without surrounding white space. *)
Definition valid_text (value : string) (maximum : Z) : Prop :=
  trim_python value <> ""%string /\ trim_python value = value /\ rune_count value <= maximum.

Record valid (c : Content) : Prop := {
  v_name : valid_text (name c) MaxNameLength;
  v_description : valid_text (description c) MaxDescriptionLength;
  v_instructions : trim_python (instructions c) <> ""%string /\ rune_count (instructions c) <= MaxInstructionsLength;
  v_count : 1 <= Z.of_nat (length (validation c)) <= MaxValidationItems;
  v_items : Forall (fun item => valid_text item MaxValidationItemLength) (validation c)
}.

Lemma trimmedBounded_ok label value maximum u : trimmedBounded label value maximum = Ok u <-> valid_text value maximum.
Proof.
  destruct u. unfold trimmedBounded, valid_text. split.
  - intros H. bind_inv H. apply check_ok_inv, andb_true_iff in Ha as [Ha Ha'].
    apply negb_true_iff, String.eqb_neq in Ha. apply String.eqb_eq in Ha'. by apply check_ok_inv, Z.leb_le in Ha0.
  - intros (H1 & H2 & H3). apply String.eqb_neq in H1. apply Z.leb_le in H3. by rewrite H1, H2, String.eqb_refl, H3.
Qed.

Lemma skill_content_ok c c' : NewContent c = Ok c' <-> c' = c /\ valid c.
Proof.
  unfold NewContent. split.
  - intros H. bind_inv H. injection H as <-. rewrite !trimmedBounded_ok in *.
    apply check_ok_inv, andb_true_iff in Ha1 as [H1 H2], Ha2 as [H3 H4].
    apply negb_true_iff, String.eqb_neq in H1. apply Z.leb_le in H2, H3, H4. split; [done|]. split; try done.
    apply map_res_Forall2 in Ha3. clear -Ha3. induction Ha3 as [|x u l us Hx _ IH]; constructor; [by eapply trimmedBounded_ok|done].
  - intros [-> [H1 H2 [H3 H4] [H5 H6] H7]].
    apply (trimmedBounded_ok "Skill name" _ _ tt) in H1. apply (trimmedBounded_ok "Skill description" _ _ tt) in H2.
    rewrite H1, H2. cbn [bind].
    apply String.eqb_neq in H3. apply Z.leb_le in H4, H5, H6. rewrite H3, H4, H5, H6. cbn [negb andb check bind].
    assert (E : map_res (fun item => trimmedBounded "Skill validation item" item MaxValidationItemLength) (validation c)
                = Ok (map (fun _ => tt) (validation c))).
    { apply map_res_Forall2. clear -H7. induction H7; constructor; [by apply trimmedBounded_ok|done]. }
    by rewrite E.
Qed.

End Skill.
