(* ===== verification/Scope.v ===== *)
(** * Scopes ([internal/scope/models.go])

    The identity, the metadata and the organization of scopes, and the selections of
    scopes that a reader asks for. *)

From S2P Require Import Prelude.
From S2P Require Import GoStrings.

Definition MaxIDLength : Z := 256.
Definition MaxTitleLength : Z := 256.
Definition MaxSummaryLength : Z := 2000.
Definition MaxExternalReferenceKindLength : Z := 128.
Definition MaxExternalReferenceValueLength : Z := 2000.
Definition MaxIdempotencyKeyLength : Z := 256.
Definition MaxBindingIntegrationLength : Z := 128.
Definition MaxBindingKindLength : Z := 64.
Definition MaxBindingExternalIDLength : Z := 256.

(** [ScInvalid] is an error of a constructor, [ScNoRows] is [sql.ErrNoRows]. *)
Inductive scope_error :=
| ScNotFound | ScBindingNotFound | ScRelationship | ScValidation | ScIdempotency
| ScVersion (expected actual : Z)
| ScInvalid (what : string)
| ScNoRows.
Abbreviation scres := (result scope_error).

#[export] Instance scope_error_eq_dec : EqDecision scope_error.
Proof. solve_decision. Defined.

Definition validateID (value : string) : scres unit :=
  require utf8_valid (bytes_of value) && negb (blank value) else ScInvalid "scope ID must not be empty" in
  require rune_count value <=? MaxIDLength else ScInvalid "scope ID must not exceed 256 characters" in
  Ok tt.

Definition requiredText (name value : string) (maximum : Z) : scres unit :=
  let trimmed := trim_func isPythonWhitespace value in
  require negb (String.eqb trimmed "") && String.eqb value trimmed else ScInvalid name in
  require rune_count value <=? maximum else ScInvalid name in
  Ok tt.

(** ** References of a scope *)

Record ExternalReference := MkExternal { xr_kind : string; xr_value : string }.
#[export] Instance external_eq_dec : EqDecision ExternalReference.
Proof. solve_decision. Defined.

Definition NewExternalReference (kind value : string) : scres ExternalReference :=
  let* _ := requiredText "external reference kind" kind MaxExternalReferenceKindLength in
  let* _ := requiredText "external reference value" value MaxExternalReferenceValueLength in
  Ok (MkExternal kind value).

(** [slices.Sort]; it has no repetition exactly when [slices.Compact] drops nothing. *)
Definition canonicalScopeIDs (values : list string) (requireNonEmpty : bool) : scres (list string) :=
  require negb (requireNonEmpty && bool_decide (values = [])) else ScInvalid "exact Scope selection requires scope IDs" in
  let* _ := map_res validateID values in
  let result := merge_sort str_le values in
  require bool_decide (NoDup result) else ScInvalid "Scope references must be unique" in
  Ok result.

Definition hasDuplicateExternalReference (values : list ExternalReference) : bool := negb (bool_decide (NoDup values)).

Record metadata := MkMetadata {
  md_title : string; md_summary : string; md_parentScopeID : string;
  md_contextReferences : list string; md_externalReferences : list ExternalReference
}.

Definition newMetadata (title summary parentScopeID : string) (contextReferences : list string)
  (externalReferences : list ExternalReference) : scres metadata :=
  let* _ := requiredText "title" title MaxTitleLength in
  let* _ := requiredText "summary" summary MaxSummaryLength in
  let* _ := (if String.eqb parentScopeID "" then Ok tt else validateID parentScopeID) in
  let* references := canonicalScopeIDs contextReferences false in
  require negb (existsb (fun r => String.eqb (xr_kind r) "" || String.eqb (xr_value r) "") externalReferences)
    else ScInvalid "Scope external references must be constructed values" in
  require negb (hasDuplicateExternalReference externalReferences) else ScInvalid "Scope external references must be unique" in
  Ok (MkMetadata title summary parentScopeID references externalReferences).

(** ** Drafts, descriptors, mutations *)

Record Draft := MkDraft { dr_metadata : metadata; dr_idempotencyKey : string }.

Definition NewDraft (title summary parentScopeID : string) (contextReferences : list string)
  (externalReferences : list ExternalReference) (idempotencyKey : string) : scres Draft :=
  let* m := newMetadata title summary parentScopeID contextReferences externalReferences in
  let* _ := requiredText "idempotency key" idempotencyKey MaxIdempotencyKeyLength in
  Ok (MkDraft m idempotencyKey).

Record Descriptor := MkDescriptor { de_id : string; de_metadata : metadata; de_version : Z }.

Definition NewDescriptor (id title summary parentScopeID : string) (contextReferences : list string)
  (externalReferences : list ExternalReference) (version : Z) : scres Descriptor :=
  let* _ := validateID id in
  let* m := newMetadata title summary parentScopeID contextReferences externalReferences in
  require negb (version <? 1) else ScInvalid "Scope version must be positive" in
  Ok (MkDescriptor id m version).

Record Mutation := MkMutation { mu_expectedVersion : Z; mu_metadata : metadata }.

Definition NewMutation (expectedVersion : Z) (title summary parentScopeID : string) (contextReferences : list string)
  (externalReferences : list ExternalReference) : scres Mutation :=
  require negb (expectedVersion <? 1) else ScInvalid "expected Scope version must be positive" in
  let* m := newMetadata title summary parentScopeID contextReferences externalReferences in
  Ok (MkMutation expectedVersion m).

Definition ParentScopeID (d : Descriptor) : string := md_parentScopeID (de_metadata d).
Definition ContextReferences (d : Descriptor) : list string := md_contextReferences (de_metadata d).

(** The constructors again, on what a value holds. *)
Definition check_draft (d : Draft) : scres Draft :=
  let m := dr_metadata d in
  NewDraft (md_title m) (md_summary m) (md_parentScopeID m) (md_contextReferences m) (md_externalReferences m) (dr_idempotencyKey d).
Definition check_mutation (mu : Mutation) : scres Mutation :=
  let m := mu_metadata mu in
  NewMutation (mu_expectedVersion mu) (md_title m) (md_summary m) (md_parentScopeID m) (md_contextReferences m) (md_externalReferences m).
Definition describe (id : string) (m : metadata) (version : Z) : scres Descriptor :=
  NewDescriptor id (md_title m) (md_summary m) (md_parentScopeID m) (md_contextReferences m) (md_externalReferences m) version.

(** ** Bindings *)

Record BindingKey := MkBindingKey { bk_integration : string; bk_kind : string; bk_externalID : string }.

Definition NewBindingKey (integration kind externalID : string) : scres BindingKey :=
  let* _ := requiredText "binding integration" integration MaxBindingIntegrationLength in
  let* _ := requiredText "binding kind" kind MaxBindingKindLength in
  let* _ := requiredText "binding external ID" externalID MaxBindingExternalIDLength in
  Ok (MkBindingKey integration kind externalID).

Record Binding := MkBinding { bi_key : BindingKey; bi_scopeID : string }.

Definition NewBinding (key : BindingKey) (scopeID : string) : scres Binding :=
  require negb (String.eqb (bk_integration key) "" || String.eqb (bk_kind key) "" || String.eqb (bk_externalID key) "")
    else ScInvalid "Scope binding key must be constructed" in
  let* _ := validateID scopeID in
  Ok (MkBinding key scopeID).

(** ** Selections *)

Inductive Selection :=
| SelectionAll | SelectionExact (scopeIDs : list string) | SelectionSubtree (rootScopeID : string) | OtherSelection (mode : string).

Definition AllSelection : Selection := SelectionAll.
Definition NewExactSelection (scopeIDs : list string) : scres Selection :=
  let* ids := canonicalScopeIDs scopeIDs true in
  Ok (SelectionExact ids).
Definition NewSubtreeSelection (rootScopeID : string) : scres Selection :=
  let* _ := validateID rootScopeID in
  Ok (SelectionSubtree rootScopeID).

(** ** The hierarchy ([internal/runtime/scope_application.go]) *)

Definition index_scope (byID : gmap string Descriptor) (d : Descriptor) : gmap string Descriptor := <[de_id d := d]> byID.
Definition scopeIndex (scopes : list Descriptor) : gmap string Descriptor :=
  fold_left index_scope scopes ∅.

(** The walk from a parent to its root; a walk of more scopes than there are would
    visit one twice. *)
Fixpoint walk_parents (fuel : nat) (byID : gmap string Descriptor) (visited : gset string) (parentID : string) : scres unit :=
  if String.eqb parentID "" then Ok tt
  else
    match fuel with
    | O => Err (ScInvalid "walk")
    | S fuel =>
        require negb (bool_decide (parentID ∈ visited)) else ScRelationship in
        let* parent := of_option (byID !! parentID) ScNotFound in
        walk_parents fuel byID ({[parentID]} ∪ visited) (ParentScopeID parent)
    end.

Definition validateScopeRelationships (scopes : list Descriptor) (id parentID : string) (references : list string) : scres unit :=
  let byID := scopeIndex scopes in
  let* _ := walk_parents (S (size byID)) byID {[id]} parentID in
  let* _ := map_res (fun reference =>
              require negb (String.eqb reference id) else ScRelationship in
              of_option (byID !! reference) ScNotFound) references in
  Ok tt.

Definition children (scopes : list Descriptor) (id : string) : list Descriptor :=
  List.filter (fun d => String.eqb (ParentScopeID d) id) scopes.

Definition visit_child (acc : list Descriptor * gset string) (child : Descriptor) : list Descriptor * gset string :=
  let (result, visited) := acc in
  if bool_decide (de_id child ∈ visited) then acc else (result ++ [child], {[de_id child]} ∪ visited).

(** The loop over the scopes that were found, to which it appends their children. *)
Fixpoint subtree_from (fuel index : nat) (scopes result : list Descriptor) (visited : gset string) : list Descriptor :=
  match fuel, result !! index with
  | S fuel, Some d =>
      let (result, visited) := fold_left visit_child (children scopes (de_id d)) (result, visited) in
      subtree_from fuel (S index) scopes result visited
  | _, _ => result
  end.

Definition by_id (scopes : list Descriptor) : list Descriptor := merge_sort (fun a b => str_le (de_id a) (de_id b)) scopes.

(** [ResolveSelection] of what was listed. *)
Definition select (selection : Selection) (listed : list Descriptor) : scres (list Descriptor) :=
  let scopes := by_id listed in
  let byID := scopeIndex scopes in
  match selection with
  | SelectionAll => Ok scopes
  | SelectionExact ids => map_res (fun id => of_option (byID !! id) ScNotFound) ids
  | SelectionSubtree rootID =>
      let* root := of_option (byID !! rootID) ScNotFound in
      Ok (subtree_from (S (length scopes)) 0 scopes [root] {[de_id root]})
  | OtherSelection _ => Err ScValidation
  end.

(** ** Facts of the hierarchy *)

Lemma scopeIndex_some scopes : forall acc id d,
  fold_left index_scope scopes acc !! id = Some d -> (d ∈ scopes /\ de_id d = id) \/ acc !! id = Some d.
Proof.
  induction scopes as [|x scopes IH]; intros acc id d H; [by right|]. cbn [fold_left index_scope] in H. unfold index_scope in H at 2. apply IH in H as [[H ?]|H].
  - left. split; [by right|done].
  - destruct (decide (de_id x = id)) as [<-|Hne].
    + rewrite lookup_insert_eq in H. injection H as <-. left. split; [left|done].
    + rewrite lookup_insert_ne in H by done. by right.
Qed.

Lemma scopeIndex_inv scopes id d : scopeIndex scopes !! id = Some d -> d ∈ scopes /\ de_id d = id.
Proof. intros [H|H]%scopeIndex_some; [done|by rewrite lookup_empty in H]. Qed.

Lemma scopeIndex_keeps scopes : forall acc id, id ∉ map de_id scopes ->
  fold_left index_scope scopes acc !! id = acc !! id.
Proof.
  induction scopes as [|x scopes IH]; intros acc id H; [done|]. cbn [map fold_left] in *. apply not_elem_of_cons in H as [Hne H].
  rewrite IH by done. unfold index_scope. by rewrite lookup_insert_ne.
Qed.

Lemma scopeIndex_in scopes : NoDup (map de_id scopes) -> forall acc d, d ∈ scopes ->
  fold_left index_scope scopes acc !! de_id d = Some d.
Proof.
  induction scopes as [|x scopes IH]; intros Hnd acc d Hd; [by apply elem_of_nil in Hd|]. cbn in *.
  apply NoDup_cons in Hnd as [Hx Hnd]. apply elem_of_cons in Hd as [->|Hd]; [|by apply IH].
  rewrite scopeIndex_keeps by done. unfold index_scope. by rewrite lookup_insert_eq.
Qed.

Lemma scopeIndex_iff scopes id d : NoDup (map de_id scopes) -> scopeIndex scopes !! id = Some d <-> d ∈ scopes /\ de_id d = id.
Proof. intros Hnd. split; [apply scopeIndex_inv|]. intros [Hd <-]. by apply scopeIndex_in. Qed.

(** [p] is the parent of [c]. *)
Definition parent_in (byID : gmap string Descriptor) (p c : string) : Prop :=
  p <> ""%string /\ exists d, byID !! c = Some d /\ ParentScopeID d = p.

(** A walk that ends meets no scope that was visited. *)
Lemma walk_avoids byID : forall fuel visited p v,
  walk_parents fuel byID visited p = Ok tt -> v ∈ visited -> p <> ""%string -> ~ rtc (parent_in byID) v p.
Proof.
  induction fuel as [|fuel IH]; intros visited p v H Hv Hp; cbn in H; destruct (String.eqb_spec p ""); try done.
  bind_inv H. ok_inv. boolify. rename Ha into Hn, Ha0 into E, a0 into d0.
  intros [->|(q & Hvq & Hq & d & Hd & <-)]%rtc_inv_r; [done|]. rewrite E in Hd. injection Hd as <-.
  revert Hvq. eapply IH; [exact H|set_solver|done].
Qed.

Lemma walk_terminates byID : forall fuel visited p,
  (size (dom byID ∖ visited) < fuel)%nat -> walk_parents fuel byID visited p <> Err (ScInvalid "walk").
Proof.
  induction fuel as [|fuel IH]; intros visited p Hf; [lia|]. cbn. destruct (String.eqb_spec p ""); [done|].
  destruct (bool_decide_reflect (p ∈ visited)) as [|Hn]; [done|]. cbn. destruct (byID !! p) as [d|] eqn:E; [|done]. cbn.
  apply IH. assert (p ∈ dom byID) by by eapply elem_of_dom_2.
  assert (size (dom byID ∖ ({[p]} ∪ visited)) < size (dom byID ∖ visited))%nat; [|lia].
  apply subset_size. set_solver.
Qed.

(** A new parent that does not descend from a node leaves the parents well founded. *)
Lemma wf_mutate {A} `{EqDecision A} (R R' : relation A) (id : A) :
  well_founded R -> (forall x y, R' x y -> y <> id -> R x y) -> (forall x, R' x id -> ~ rtc R id x) -> well_founded R'.
Proof.
  intros Hwf Hother Hid.
  assert (Hfree : forall y, ~ rtc R id y -> Acc R' y).
  { intros y. induction (Hwf y) as [y _ IH]. intros Hy. constructor. intros x Hxy.
    assert (Hne : y <> id) by (intros ->; by apply Hy).
    apply (Hother _ _ Hxy) in Hne as Hr. apply IH; [done|]. intros Hx. apply Hy. by eapply rtc_r. }
  assert (Hself : Acc R' id) by (constructor; intros x Hx; apply Hfree; by apply Hid).
  intros y. induction (Hwf y) as [y _ IH]. constructor. intros x Hxy.
  destruct (decide (y = id)) as [->|Hne]; [by apply (Acc_inv Hself)|]. apply IH. by eapply Hother.
Qed.

Lemma wf_no_cycle {A} (R : relation A) x y : well_founded R -> R x y -> ~ rtc R y x.
Proof.
  intros Hwf. revert x. induction (Hwf y) as [y _ IH]. intros x Hxy Hyx.
  apply rtc_inv_r in Hyx as [->|(z & Hyz & Hz)]; [by apply (IH x Hxy x)|].
  apply (IH x Hxy z Hz). by eapply rtc_l.
Qed.

(** Every parent is stored. *)
Definition parents_in (byID : gmap string Descriptor) : Prop :=
  forall id d, byID !! id = Some d -> ParentScopeID d <> ""%string -> is_Some (byID !! ParentScopeID d).

(** A walk refuses only what it has to. *)
Lemma walk_passes byID : well_founded (parent_in byID) -> parents_in byID ->
  forall fuel p visited,
  (p <> ""%string -> is_Some (byID !! p) /\ forall v, v ∈ visited -> ~ rtc (parent_in byID) v p) ->
  walk_parents fuel byID visited p = Ok tt \/ walk_parents fuel byID visited p = Err (ScInvalid "walk").
Proof.
  intros Hwf Hin. induction fuel as [|fuel IH]; intros p visited Hp; cbn; destruct (String.eqb_spec p "") as [->|Hne]; auto.
  destruct (Hp Hne) as [[d Hd] Hv].
  destruct (bool_decide_reflect (p ∈ visited)) as [Hc|_]; [by apply Hv in Hc|]. cbn. rewrite Hd. cbn.
  apply IH. intros Hq. split; [by eapply Hin|].
  assert (Hr : parent_in byID (ParentScopeID d) p) by (split; [done|by exists d]).
  intros v [->%elem_of_singleton|Hs]%elem_of_union Hrtc.
  - by eapply (wf_no_cycle _ _ _ Hwf Hr).
  - apply (Hv v Hs). by eapply rtc_r.
Qed.

(** ** Subtrees *)

Lemma visit_children kids : forall result visited,
  (forall x, x ∈ visited <-> x ∈ map de_id result) -> NoDup (map de_id result) ->
  exists more visited', fold_left visit_child kids (result, visited) = (result ++ more, visited') /\
    (forall d, d ∈ more -> d ∈ kids) /\ (forall x, x ∈ visited' <-> x ∈ map de_id (result ++ more)) /\
    NoDup (map de_id (result ++ more)) /\ forall k, k ∈ kids -> de_id k ∈ map de_id (result ++ more).
Proof.
  induction kids as [|k kids IH]; intros result visited Hv Hnd.
  { exists [], visited. rewrite app_nil_r. set_solver. }
  cbn [fold_left visit_child]. case_bool_decide as Hk.
  - destruct (IH result visited Hv Hnd) as (more & v' & -> & Hm & Hv' & Hnd' & Hall).
    exists more, v'. split_and!; [done|set_solver|done|done|]. intros k' [->|Hk']%elem_of_cons; [|by apply Hall].
    apply Hv in Hk. rewrite map_app. set_solver.
  - destruct (IH (result ++ [k]) ({[de_id k]} ∪ visited)) as (more & v' & -> & Hm & Hv' & Hnd' & Hall).
    { intros x. rewrite map_app. set_solver. }
    { rewrite map_app. apply NoDup_app. split_and!; [done| |apply NoDup_singleton].
      intros x Hx Hxk. apply list_elem_of_singleton in Hxk as ->. by apply Hk, Hv. }
    exists (k :: more), v'. rewrite <- app_assoc in *. split_and!; [done|set_solver|done|done|].
    intros k' [->|Hk']%elem_of_cons; [|by apply Hall]. rewrite map_app. set_solver.
Qed.

Section subtree.
Context (scopes : list Descriptor) (root : Descriptor).
Hypothesis ids_once : NoDup (map de_id scopes).
Hypothesis ids_named : ""%string ∉ map de_id scopes.

Abbreviation parent := (parent_in (scopeIndex scopes)).

(** What the search found when it comes to the scope at [index]. *)
Record searching (index : nat) (result : list Descriptor) (visited : gset string) : Prop := {
  seen_found x : x ∈ visited <-> x ∈ map de_id result;
  found_once : NoDup (map de_id result);
  found_below d : d ∈ result -> d ∈ scopes /\ rtc parent (de_id root) (de_id d);
  found_root : head result = Some root;
  children_found j d c : (j < index)%nat -> result !! j = Some d -> c ∈ scopes -> ParentScopeID c = de_id d -> c ∈ result;
  after_parent i d : result !! S i = Some d -> exists j d', (j <= i)%nat /\ result !! j = Some d' /\ ParentScopeID d = de_id d'
}.

Lemma same_id d d' : d ∈ scopes -> d' ∈ scopes -> de_id d = de_id d' -> d = d'.
Proof.
  intros Hd Hd' E. assert (H : scopeIndex scopes !! de_id d = Some d) by by apply scopeIndex_iff.
  assert (H' : scopeIndex scopes !! de_id d = Some d') by by apply scopeIndex_iff. congruence.
Qed.

Lemma found_in result d : (forall x, x ∈ result -> x ∈ scopes) -> d ∈ scopes -> de_id d ∈ map de_id result -> d ∈ result.
Proof.
  intros Hr Hd (d' & E & Hd')%list_elem_of_fmap. by rewrite (same_id d d' Hd (Hr _ Hd') E).
Qed.

Lemma child_parent d c : d ∈ scopes -> c ∈ scopes -> ParentScopeID c = de_id d -> parent (de_id d) (de_id c).
Proof.
  intros Hd Hc E. split; [|exists c; split; [by apply scopeIndex_iff|done]].
  intros Hn. apply ids_named. rewrite <- Hn. by apply list_elem_of_fmap_2.
Qed.

Lemma searching_start : root ∈ scopes -> searching 0 [root] {[de_id root]}.
Proof.
  intros Hr. split; [set_solver|apply NoDup_singleton| |done|lia|done].
  intros d ->%list_elem_of_singleton. split; [done|apply rtc_refl].
Qed.

Lemma searching_step index result visited d :
  searching index result visited -> result !! index = Some d ->
  let (result', visited') := fold_left visit_child (children scopes (de_id d)) (result, visited) in
  searching (S index) result' visited'.
Proof.
  intros [Hs Hn Hb Hr Hc Ha] Hd. assert (Hin : d ∈ result) by by eapply list_elem_of_lookup_2.
  destruct (Hb _ Hin) as [Hds Hrtc].
  destruct (visit_children (children scopes (de_id d)) result visited Hs Hn) as (more & v' & -> & Hm & Hv' & Hn' & Hall).
  assert (Hk : forall c, c ∈ more -> c ∈ scopes /\ ParentScopeID c = de_id d).
  { intros c Hc'. apply Hm in Hc'. unfold children in Hc'. apply list_elem_of_In, filter_In in Hc' as [? E%String.eqb_eq].
    by rewrite list_elem_of_In. }
  assert (Hb' : forall c, c ∈ result ++ more -> c ∈ scopes /\ rtc parent (de_id root) (de_id c)).
  { intros c [Hc'|Hc']%elem_of_app; [by apply Hb|]. apply Hk in Hc' as [Hcs E]. split; [done|].
    eapply rtc_r; [exact Hrtc|by apply child_parent]. }
  split; [done|done|done|by destruct result| |].
  - intros j d' c Hj Hj' Hcs E. destruct (decide (j = index)) as [->|Hne].
    + rewrite lookup_app_l in Hj' by by eapply lookup_lt_Some. rewrite Hd in Hj'. injection Hj' as <-.
      apply found_in; [intros x Hx; by apply Hb'|done|]. apply Hall. unfold children.
      apply list_elem_of_In, filter_In. split; [by apply list_elem_of_In|by apply String.eqb_eq].
    + assert (Hlt : (j < length result)%nat) by (apply lookup_lt_Some in Hd; lia).
      rewrite lookup_app_l in Hj' by done. apply elem_of_app. left. eapply (Hc j); [lia|done|done|done].
  - intros i c Hi. destruct (decide (S i < length result)%nat) as [Hlt|Hge].
    + rewrite lookup_app_l in Hi by done. destruct (Ha i c Hi) as (j & d' & ? & Hj & E). exists j, d'.
      rewrite lookup_app_l by (by eapply lookup_lt_Some). done.
    + rewrite lookup_app_r in Hi by lia. apply list_elem_of_lookup_2, Hk in Hi as [_ E].
      apply lookup_lt_Some in Hd as Hlt. exists index, d. rewrite lookup_app_l by done. split; [lia|done].
Qed.

Lemma searching_short index result visited : searching index result visited -> (length result <= length scopes)%nat.
Proof.
  intros [_ Hn Hb _ _ _]. rewrite <- (length_map de_id result), <- (length_map de_id scopes). apply submseteq_length.
  apply NoDup_submseteq; [done|]. intros x (d & -> & Hd)%list_elem_of_fmap. apply list_elem_of_fmap_2. by apply Hb.
Qed.

Lemma subtree_found : forall fuel index result visited,
  searching index result visited -> (length scopes < fuel + index)%nat ->
  exists index' visited', searching index' (subtree_from fuel index scopes result visited) visited' /\
    (length (subtree_from fuel index scopes result visited) <= index')%nat.
Proof.
  induction fuel as [|fuel IH]; intros index result visited Hs Hf; cbn.
  { exists index, visited. apply searching_short in Hs as ?. split; [done|lia]. }
  destruct (result !! index) as [d|] eqn:Hd; cbn.
  - pose proof (searching_step _ _ _ d Hs Hd) as Hn. destruct (fold_left _ _ _) as [r' v']. apply IH; [done|lia].
  - exists index, visited. split; [done|by apply lookup_ge_None].
Qed.

(** The subtree has every scope below its root once, each after its parent. *)
Lemma subtree_spec : root ∈ scopes ->
  let result := subtree_from (S (length scopes)) 0 scopes [root] {[de_id root]} in
  head result = Some root /\ NoDup (map de_id result) /\
  (forall d, d ∈ result <-> d ∈ scopes /\ rtc parent (de_id root) (de_id d)) /\
  forall i d, result !! S i = Some d -> exists j d', (j <= i)%nat /\ result !! j = Some d' /\ ParentScopeID d = de_id d'.
Proof.
  intros Hr result. destruct (subtree_found (S (length scopes)) 0 _ _ (searching_start Hr)) as (n & v & [_ Hn Hb Hh Hc Ha] & Hl); [lia|].
  fold result in Hn, Hb, Hh, Hc, Ha, Hl. split_and!; [done|done| |done].
  assert (Hclosed : forall x y, rtc parent x y -> x ∈ map de_id result -> y ∈ map de_id result).
  { clearbody result. induction 1 as [x|x y z [_ (c & Hy & E)] _ IH]; [done|]. intros Hx. apply IH.
    apply scopeIndex_inv in Hy as [Hcs <-]. subst x. apply list_elem_of_fmap in Hx as (d' & E' & Hd').
    apply list_elem_of_lookup in Hd' as (j & Hj). apply list_elem_of_fmap_2.
    apply (Hc j d'); [apply lookup_lt_Some in Hj; lia|done..]. }
  intros d. split; [apply Hb|]. intros [Hd Hrtc]. apply found_in; [intros x Hx; by apply Hb|done|].
  eapply Hclosed; [exact Hrtc|]. apply list_elem_of_fmap_2. by apply head_Some_elem_of.
Qed.
End subtree.
