(* ===== verification/Sql.v ===== *)
(** * Relational transactions ([internal/sqlstore] database.go)

    A transaction is a function on the tables of a database.  A statement keeps
    the keys, foreign keys and checks of its table, and the driver may fail any of
    them, as the oracle [faults] decides.  [Transaction] keeps all the effects of
    its callback, or none.  [Holds] says that some tables are a part of a database,
    so that the statements of one repository run in the transactions of another. *)

From S2P Require Import Prelude.
From S2P Require Import GoStrings.
From S2P Require Import Refs.
From S2P Require Import MemoryModel.
From S2P Require Import Review.
From S2P Require Import Scope.

(** ** Errors *)

Inductive store_error :=
| SRef (e : ref_error)                     (** of [artifact] or [source] *)
| SArgument (field : string)               (** [InvalidRepositoryArgumentError] *)
| SDriver                                  (** a failure of the driver *)
| SIntegrity                               (** a constraint of the schema *)
| SConflict (requested current : Ref)      (** [artifact.RevisionConflictError] *)
| SMissing (kind : string)                 (** [RepositoryNotFoundError] *)
| SNotFound (r : Ref)                      (** [artifact.NotFoundError] *)
| SFamily (artifactFamily draftFamily : string) (** [artifact.FamilyMismatchError] *)
| SPayload (issue : string)                (** [InvalidStoredPayloadError] *)
| SIdentity                                (** [IdentityMismatchError] *)
| SPayloadConflict (kind : string)         (** [StoredPayloadConflictError] *)
| SGeneration (binding : string) (expected actual : option Z) (** [GenerationConflictError] *)
| SColumn (column : string)                (** [InvalidStoredColumnError] *)
| SSource (what : string)                  (** other errors of [source] *)
| SMemory (e : mem_error)                  (** of [memory] *)
| SReview (e : review_error)               (** of [review] *)
| SScope (e : scope_error)                 (** of [scope] *)
| SCodec (what : string).

#[export] Instance store_error_eq_dec : EqDecision store_error.
Proof. solve_decision. Defined.

(** [isIntegrityConstraint] *)
Definition isIntegrityConstraint (e : store_error) : bool := bool_decide (e = SIntegrity).

(** ** Transactions *)

(** The tables inside a transaction, and which of the next statements fail. *)
Record SessionOf (T : Type) := MkSession { tables : T; faults : list bool }.
Arguments MkSession {T}. Arguments tables {T}. Arguments faults {T}.

Definition txn (T A : Type) : Type := SessionOf T -> result store_error A * SessionOf T.

Definition tx_ret {T A} (a : A) : txn T A := fun s => (Ok a, s).
Definition tx_err {T A} (e : store_error) : txn T A := fun s => (Err e, s).
Definition tx_bind {T A B} (m : txn T A) (k : A -> txn T B) : txn T B :=
  fun s => match m s with (Ok a, s') => k a s' | (Err e, s') => (Err e, s') end.
Definition tx_lift {T A} (r : result store_error A) : txn T A := fun s => (r, s).
Definition tx_check {T} (b : bool) (e : store_error) : txn T unit := tx_lift (check b e).

(** [if err != nil { return f(err) }] *)
Definition tx_catch {T A} (m : txn T A) (f : store_error -> txn T A) : txn T A :=
  fun s => match m s with (Ok a, s') => (Ok a, s') | (Err e, s') => f e s' end.

(** The outcome of a call, whose error the caller looks at. *)
Definition tx_try {T A} (m : txn T A) : txn T (result store_error A) := fun s => let (r, s') := m s in (Ok r, s').

Notation "'let!' x ':=' m 'in' k" := (tx_bind m (fun x => k))
  (at level 10, x name, m at level 200, k at level 200) : go_scope.
Notation "'need' b 'else' e 'in' k" := (tx_bind (tx_check b e) (fun _ => k))
  (at level 10, b at level 200, e at level 200, k at level 200) : go_scope.

(** One statement: it has no effect when the driver fails it. *)
Definition statement {T A} (f : T -> result store_error (A * T)) : txn T A :=
  fun s =>
    match faults s with
    | true :: more => (Err SDriver, MkSession (tables s) more)
    | more =>
        match f (tables s) with
        | Ok (a, t) => (Ok a, MkSession t (tail more))
        | Err e => (Err e, MkSession (tables s) (tail more))
        end
    end.

Definition query {T A} (f : T -> A) : txn T A := statement (fun t => Ok (f t, t)).

(** [Database.Transaction]: a transaction that begins, runs its callback and
    commits; a failure of any of them leaves the tables as they were. *)
Definition Transaction {T A} (fn : txn T A) : txn T A :=
  fun s =>
    match (let! _ := query (fun _ => tt) in let! a := fn in let! _ := query (fun _ => tt) in tx_ret a) s with
    | (Ok a, s') => (Ok a, s')
    | (Err e, s') => (Err e, MkSession (tables s) (faults s'))
    end.

(** ** Identifiers *)

(** [requireIdentifier] of cursors.go *)
Definition requireIdentifier (field value : string) (maximum : Z) : result store_error unit :=
  require utf8_valid (bytes_of value) && negb (blank value) && String.eqb (trim_space value) value
    else SArgument field in
  require rune_count value <=? maximum else SArgument field in
  Ok tt.

(** [requireScope] of sources.go *)
Definition requireScope (scope : string) : result store_error unit := requireIdentifier "scope_id" scope 256.

(** ** Parts of a database *)

(** The tables [R] are a part of the database [T]. *)
Class Holds (T R : Type) := {
  rows : T -> R;
  with_rows : R -> T -> T;
  rows_with r t : rows (with_rows r t) = r;
  with_with r r' t : with_rows r (with_rows r' t) = with_rows r t;
  with_same t : with_rows (rows t) t = t
}.

#[export] Instance holds_self (T : Type) : Holds T T :=
  { rows t := t; with_rows r _ := r; rows_with _ _ := eq_refl; with_with _ _ _ := eq_refl; with_same _ := eq_refl }.

(** Two parts that do not overlap. *)
Class Apart (T R R' : Type) `{Holds T R, Holds T R'} := {
  apart_left (r' : R') (t : T) : (rows (with_rows r' t) : R) = rows t;
  apart_right (r : R) (t : T) : (rows (with_rows r t) : R') = rows t
}.

#[export] Instance holds_fst (A B : Type) : Holds (A * B) A :=
  { rows := fst; with_rows a t := (a, snd t); rows_with _ _ := eq_refl; with_with _ _ _ := eq_refl;
    with_same t := eq_sym (surjective_pairing t) }.
#[export] Instance holds_snd (A B : Type) : Holds (A * B) B :=
  { rows := snd; with_rows b t := (fst t, b); rows_with _ _ := eq_refl; with_with _ _ _ := eq_refl;
    with_same t := eq_sym (surjective_pairing t) }.
#[export] Instance apart_pair (A B : Type) : Apart (A * B) A B :=
  { apart_left _ _ := eq_refl; apart_right _ _ := eq_refl }.

(** Nothing but the part [R] of the database changed. *)
Definition changed_only {T} (R : Type) `{Holds T R} (t t' : T) : Prop := t' = with_rows (rows t' : R) t.

(** A statement on a part of the database. *)
Definition on {T R A} `{Holds T R} (f : R -> result store_error (A * R)) : txn T A :=
  statement (fun t => let* ' (a, r) := f (rows t) in Ok (a, with_rows r t)).

Definition read {T R A} `{Holds T R} (f : R -> A) : txn T A := query (fun t => f (rows t)).

(** ** Facts *)

Lemma tx_bind_ok {T A B} (m : txn T A) (k : A -> txn T B) s b s' :
  tx_bind m k s = (Ok b, s') -> exists a s1, m s = (Ok a, s1) /\ k a s1 = (Ok b, s').
Proof. unfold tx_bind. destruct (m s) as [[a|e] s1]; [eauto|done]. Qed.

Lemma tx_lift_ok {T A} (r : result store_error A) (s : SessionOf T) a s' : tx_lift r s = (Ok a, s') -> r = Ok a /\ s' = s.
Proof. by intros [= -> ->]. Qed.

Lemma tx_check_ok {T} b e (s : SessionOf T) a s' : tx_check b e s = (Ok a, s') -> b = true /\ s' = s.
Proof. unfold tx_check. intros H. apply tx_lift_ok in H as [H ->]. by apply check_ok_inv in H. Qed.

Lemma tx_ret_ok {T A} (a : A) (s : SessionOf T) b s' : tx_ret a s = (Ok b, s') -> a = b /\ s' = s.
Proof. by intros [= -> ->]. Qed.

Lemma statement_ok {T A} (f : T -> result store_error (A * T)) s a s' :
  statement f s = (Ok a, s') -> f (tables s) = Ok (a, tables s').
Proof.
  unfold statement. destruct (faults s) as [|[] more]; [|done|].
  all: destruct (f (tables s)) as [[x t]|e]; [|done]; by intros [= -> <-].
Qed.

Lemma query_ok {T A} (f : T -> A) s a s' : query f s = (Ok a, s') -> a = f (tables s) /\ tables s' = tables s.
Proof. unfold query. intros H. apply statement_ok in H. by injection H as <- <-. Qed.

Lemma tx_catch_ok {T A} (m : txn T A) f s a s' :
  (forall e s1 b s2, f e s1 <> (Ok b, s2)) -> tx_catch m f s = (Ok a, s') -> m s = (Ok a, s').
Proof. intros Hf. unfold tx_catch. destruct (m s) as [[b|e] s1]; [done|]. intros H. by apply Hf in H. Qed.

Lemma tx_bind_err {T A B} (m : txn T A) (k : A -> txn T B) st e st' :
  tx_bind m k st = (Err e, st') -> m st = (Err e, st') \/ exists a st1, m st = (Ok a, st1) /\ k a st1 = (Err e, st').
Proof. unfold tx_bind. destruct (m st) as [[a|e'] st1]; [eauto|intros [= -> ->]; auto]. Qed.

(** Where a missing row cannot come from. *)
Lemma query_not_missing {T A} (f : T -> A) st k st' : query f st <> (Err (SMissing k), st').
Proof. unfold query, statement. by destruct (faults st) as [|[]]. Qed.

Lemma read_not_missing {T R A} `{Holds T R} (f : R -> A) st k st' : read f st <> (Err (SMissing k), st').
Proof. apply (query_not_missing (fun t => f (rows t))). Qed.

Lemma ref_not_missing {T A} (r : result ref_error A) (st : SessionOf T) k st' :
  tx_lift (map_err SRef r) st <> (Err (SMissing k), st').
Proof. unfold tx_lift. by destruct r. Qed.

Lemma identifier_not_missing {T} field value maximum (st : SessionOf T) k st' :
  tx_lift (requireIdentifier field value maximum) st <> (Err (SMissing k), st').
Proof.
  unfold tx_lift, requireIdentifier. intros [= H _].
  apply bind_err_inv in H as [H|(? & _ & H)]; [by apply check_err_inv in H as [_ H]|].
  apply bind_err_inv in H as [H|(? & _ & H)]; [by apply check_err_inv in H as [_ H]|done].
Qed.

Lemma scope_not_missing {T} scope (st : SessionOf T) k st' : tx_lift (requireScope scope) st <> (Err (SMissing k), st').
Proof. apply identifier_not_missing. Qed.

Lemma of_option_missing {T A} (o : option A) what (st : SessionOf T) k st' :
  tx_lift (of_option o (SMissing what)) st = (Err (SMissing k), st') -> o = None.
Proof. by destruct o. Qed.

Lemma tx_try_ok {T A} (m : txn T A) s r s' : tx_try m s = (Ok r, s') -> m s = (r, s').
Proof. unfold tx_try. destruct (m s). by intros [= -> ->]. Qed.

Lemma on_ok {T R A} `{Holds T R} (f : R -> result store_error (A * R)) s a s' :
  on f s = (Ok a, s') -> exists r, f (rows (tables s)) = Ok (a, r) /\ tables s' = with_rows r (tables s).
Proof.
  unfold on. intros E. apply statement_ok in E. destruct (f (rows (tables s))) as [[b r]|]; [|done].
  injection E as <- E. by exists r.
Qed.

Lemma read_ok {T R A} `{Holds T R} (f : R -> A) s a s' :
  read f s = (Ok a, s') -> a = f (rows (tables s)) /\ tables s' = tables s.
Proof. apply (query_ok (fun t => f (rows t))). Qed.

#[export] Instance changed_only_preorder {T R} `{Holds T R} : PreOrder (changed_only (T := T) R).
Proof.
  split; unfold changed_only.
  - intros t. by rewrite with_same.
  - intros t1 t2 t3 E1 E2. rewrite E2 at 1. rewrite E1. apply with_with.
Qed.

Lemma changed_with {T R} `{Holds T R} (r : R) (t : T) : changed_only R t (with_rows r t).
Proof. unfold changed_only. by rewrite rows_with. Qed.

Lemma changed_same {T R} `{Holds T R} (t t' : T) : t' = t -> changed_only R t t'.
Proof. intros ->. reflexivity. Qed.

Lemma changed_apart {T R R'} `{Apart T R R'} (t t' : T) : changed_only R t t' -> (rows t' : R') = rows t.
Proof. intros ->. apply apart_right. Qed.

Lemma changed_apart_left {T R R'} `{Apart T R R'} (t t' : T) : changed_only R' t t' -> (rows t' : R) = rows t.
Proof. intros ->. apply apart_left. Qed.

(** A statement that fails changes nothing. *)
Lemma statement_err {T A} (f : T -> result store_error (A * T)) s e s' : statement f s = (Err e, s') -> tables s' = tables s.
Proof.
  unfold statement. destruct (faults s) as [|[] more]; [|by intros [= _ <-]|].
  all: destruct (f (tables s)) as [[x t]|e']; [done|]; by intros [= _ <-].
Qed.

Lemma on_err {T R A} `{Holds T R} (f : R -> result store_error (A * R)) s e s' : on f s = (Err e, s') -> tables s' = tables s.
Proof. apply statement_err. Qed.

(** Peels the successful binds of a transaction. *)
Ltac tx_inv H :=
  repeat first
    [ progress cbn beta iota in H
    | match type of H with
      | tx_bind _ _ _ = (Ok _, _) =>
          let a := fresh "a" in let s := fresh "st" in let Ha := fresh "Ha" in
          apply tx_bind_ok in H as (a & s & Ha & H)
      end ].

(** Reads the steps that only compute. *)
Ltac tx_pure :=
  repeat match goal with
  | H : tx_lift _ _ = (Ok _, _) |- _ => apply tx_lift_ok in H as [H ->]
  | H : tx_check _ _ _ = (Ok _, _) |- _ => apply tx_check_ok in H as [H ->]
  | H : tx_ret _ _ = (Ok _, _) |- _ => apply tx_ret_ok in H as [<- ->]
  | H : map_err _ ?r = Ok _ |- _ => destruct r eqn:?; [injection H as <-|discriminate H]
  end.

Lemma transaction_ok {T A} (fn : txn T A) s a s' :
  Transaction fn s = (Ok a, s') -> exists s1 s2, tables s1 = tables s /\ fn s1 = (Ok a, s2) /\ tables s' = tables s2.
Proof.
  unfold Transaction. destruct (tx_bind _ _ s) as [[b|e] s1] eqn:E; [|done]. intros [= -> ->].
  tx_inv E. tx_pure. apply query_ok in Ha as [_ H1], Ha1 as [_ H2]. eauto.
Qed.

(** A failed transaction changes no table. *)
Lemma transaction_err {T A} (fn : txn T A) s e s' : Transaction fn s = (Err e, s') -> tables s' = tables s.
Proof. unfold Transaction. destruct (tx_bind _ _ s) as [[b|e'] s1]; [done|]. by intros [= _ <-]. Qed.

(** The error of a failed transaction: of its callback, or of the driver. *)
Lemma transaction_error {T A} (fn : txn T A) s e s' :
  Transaction fn s = (Err e, s') ->
  e = SDriver \/ exists s1 s2, tables s1 = tables s /\ fn s1 = (Err e, s2).
Proof.
  unfold Transaction, tx_bind. destruct (query _ s) as [[u|e0] s0] eqn:E0.
  2:{ intros [= <- _]. left. unfold query, statement in E0. destruct (faults s) as [|[]]; by injection E0. }
  apply query_ok in E0 as [_ E0]. destruct (fn s0) as [[a|e1] s1] eqn:E1; [|intros [= <- _]; right; by exists s0, s1].
  destruct (query (fun _ => tt) s1) as [[v|e2] s2] eqn:E2; [done|]. intros [= <- _]. left.
  unfold query, statement in E2. destruct (faults s1) as [|[]]; by injection E2.
Qed.

(** ** Readers *)

(** Whatever it returns, the tables stay. *)
Definition keeps {T A} (m : txn T A) : Prop := forall s r s', m s = (r, s') -> tables s' = tables s.

Section keeps.
Context {T : Type}.

Lemma keeps_lift {A} (r : result store_error A) : keeps (T := T) (tx_lift r).
Proof. by intros s x s' [= _ <-]. Qed.
Lemma keeps_ret {A} (a : A) : keeps (T := T) (tx_ret a).
Proof. by intros s x s' [= _ <-]. Qed.
Lemma keeps_err {A} e : keeps (T := T) (A := A) (tx_err e).
Proof. by intros s x s' [= _ <-]. Qed.
Lemma keeps_check b e : keeps (T := T) (tx_check b e).
Proof. apply keeps_lift. Qed.
Lemma keeps_query {A} (f : T -> A) : keeps (query f).
Proof. intros s [a|e] s' H; [by apply query_ok in H as [_ H]|unfold query in H; by apply statement_err in H]. Qed.
Lemma keeps_read {R A} `{Holds T R} (f : R -> A) : keeps (T := T) (read f).
Proof. apply keeps_query. Qed.

Lemma keeps_bind {A B} (m : txn T A) (k : A -> txn T B) : keeps m -> (forall a, keeps (k a)) -> keeps (tx_bind m k).
Proof.
  intros Hm Hk s r s'. unfold tx_bind. destruct (m s) as [[a|e] s1] eqn:E; apply Hm in E.
  - intros H. apply Hk in H. congruence.
  - by intros [= _ <-].
Qed.

Lemma keeps_bind_lift {A B} (r : result store_error A) (k : A -> txn T B) :
  (forall a, r = Ok a -> keeps (k a)) -> keeps (tx_bind (tx_lift r) k).
Proof. intros Hk. destruct r as [a|e]; [exact (Hk a eq_refl)|]. by intros s x s' [= _ <-]. Qed.

Lemma keeps_catch {A} (m : txn T A) f : keeps m -> (forall e, keeps (f e)) -> keeps (tx_catch m f).
Proof.
  intros Hm Hf s r s'. unfold tx_catch. destruct (m s) as [[a|e] s1] eqn:E; apply Hm in E.
  - by intros [= _ <-].
  - intros H. apply Hf in H. congruence.
Qed.

Lemma keeps_try {A} (m : txn T A) : keeps m -> keeps (tx_try m).
Proof. intros Hm s r s'. unfold tx_try. destruct (m s) as [x s1] eqn:E. intros [= _ <-]. by eapply Hm. Qed.

Lemma keeps_ok {A} (m : txn T A) s a s' : keeps m -> m s = (Ok a, s') -> tables s' = tables s.
Proof. intros Hm. apply Hm. Qed.
End keeps.

(** Shows that a transaction is a reader, from those of its parts. *)
Create HintDb readers.
#[export] Hint Resolve keeps_lift keeps_ret keeps_err keeps_check keeps_query keeps_read : readers.

Ltac keeps :=
  repeat lazymatch goal with
  | |- keeps (tx_bind (tx_lift _) _) => apply keeps_bind_lift; intros ? ?
  | |- keeps (tx_bind _ _) => apply keeps_bind; [|intros ?]
  | |- keeps (tx_catch _ _) => apply keeps_catch; [|intros ?]
  | |- keeps (tx_try _) => apply keeps_try
  | |- keeps (match ?x with _ => _ end) => destruct x
  end; auto with readers.

(** ** Sessions without faults *)

(** A transaction that only reads, on a driver that does not fail. *)
Definition reads {T A} (m : txn T A) (t : T) (r : result store_error A) : Prop :=
  m (MkSession t []) = (r, MkSession t []).

Lemma reads_bind {T A B} (m : txn T A) (k : A -> txn T B) t a r : reads m t (Ok a) -> reads (k a) t r -> reads (tx_bind m k) t r.
Proof. unfold reads, tx_bind. by intros -> ->. Qed.

Lemma reads_lift {T A} (r : result store_error A) (t : T) : reads (tx_lift r) t r.
Proof. done. Qed.

Lemma reads_ret {T A} (a : A) (t : T) : reads (tx_ret a) t (Ok a).
Proof. done. Qed.

Lemma reads_check {T} b e (t : T) : b = true -> reads (tx_check b e) t (Ok tt).
Proof. by intros ->. Qed.

Lemma reads_query {T A} (f : T -> A) t : reads (query f) t (Ok (f t)).
Proof. done. Qed.

Lemma reads_read {T R A} `{Holds T R} (f : R -> A) t : reads (read f) t (Ok (f (rows t))).
Proof. done. Qed.

Lemma reads_catch {T A} (m : txn T A) f t a : reads m t (Ok a) -> reads (tx_catch m f) t (Ok a).
Proof. unfold reads, tx_catch. by intros ->. Qed.

Lemma reads_transaction {T A} (m : txn T A) t a : reads m t (Ok a) -> reads (Transaction m) t (Ok a).
Proof. unfold reads, Transaction, tx_bind. intros H. cbn. by rewrite H. Qed.

(** Two databases in which a transaction reads the same. *)
Definition agree {T A} (m m' : txn T A) (t t' : T) : Prop := exists r, reads m t r /\ reads m' t' r.

Section agreement.
Context {T : Type} (t t' : T).

Lemma agree_bind {A B} (m m' : txn T A) (k k' : A -> txn T B) :
  agree m m' t t' -> (forall a, agree (k a) (k' a) t t') -> agree (tx_bind m k) (tx_bind m' k') t t'.
Proof.
  unfold agree, reads, tx_bind. intros ([a|e] & -> & ->) Hk; [apply Hk|by exists (Err e)].
Qed.

Lemma agree_lift {A} (r : result store_error A) : agree (tx_lift r) (tx_lift r) t t'.
Proof. by exists r. Qed.

Lemma agree_bind_lift {A B} (r : result store_error A) (k k' : A -> txn T B) :
  (forall a, r = Ok a -> agree (k a) (k' a) t t') -> agree (tx_bind (tx_lift r) k) (tx_bind (tx_lift r) k') t t'.
Proof. intros Hk. destruct r as [a|e]; [exact (Hk a eq_refl)|by exists (Err e)]. Qed.

Lemma agree_ret {A} (a : A) : agree (tx_ret a) (tx_ret a) t t'.
Proof. by exists (Ok a). Qed.

Lemma agree_err {A} e : agree (A := A) (tx_err e) (tx_err e) t t'.
Proof. by exists (Err e). Qed.

Lemma agree_check b e : agree (tx_check b e) (tx_check b e) t t'.
Proof. by exists (check b e). Qed.

Lemma agree_read {R A} `{Holds T R} (f : R -> A) : f (rows t') = f (rows t) -> agree (read f) (read f) t t'.
Proof. intros E. exists (Ok (f (rows t))). split; [done|]. unfold reads. cbn. by rewrite E. Qed.

Lemma agree_catch {A} (m m' : txn T A) f f' :
  agree m m' t t' -> (forall e, agree (f e) (f' e) t t') -> agree (tx_catch m f) (tx_catch m' f') t t'.
Proof.
  unfold agree, reads, tx_catch. intros ([a|e] & -> & ->) Hf; [by exists (Ok a)|apply Hf].
Qed.

Lemma agree_transaction {A} (m m' : txn T A) : agree m m' t t' -> agree (Transaction m) (Transaction m') t t'.
Proof. unfold agree, reads, Transaction, tx_bind. intros ([a|e] & H & H'); [exists (Ok a)|exists (Err e)]; cbn; by rewrite H, H'. Qed.

Lemma agree_fst {A} (m m' : txn T A) : agree m m' t t' -> fst (m' (MkSession t' [])) = fst (m (MkSession t [])).
Proof. unfold agree, reads. by intros (r & -> & ->). Qed.
End agreement.

(** Compares two readings step by step. *)
Ltac agree :=
  repeat lazymatch goal with
  | |- agree (tx_lift _) _ _ _ => apply agree_lift
  | |- agree (tx_ret _) _ _ _ => apply agree_ret
  | |- agree (tx_err _) _ _ _ => apply agree_err
  | |- agree (tx_check _ _) _ _ _ => apply agree_check
  | |- agree (read _) _ _ _ => apply agree_read
  | |- agree (tx_bind (tx_lift _) _) _ _ _ => apply agree_bind_lift; intros ? ?
  | |- agree (tx_bind _ _) _ _ _ => apply agree_bind; [|intros ?]
  | |- agree (tx_catch _ _) _ _ _ => apply agree_catch; [|intros ?]
  | |- agree (Transaction _) _ _ _ => apply agree_transaction
  end; try reflexivity.
