(* ===== verification/ArtifactStore.v ===== *)
(** * The artifact repository ([internal/sqlstore] artifacts.go,
    artifact_codec.go, and the artifact tables of schema.go)

    Immutable revisions with their ordered lineage in relational tables.  A
    statement is an operation on the tables that keeps the keys, foreign keys and
    checks of the schema. *)

From S2P Require Import Prelude.
From S2P Require Import GoStrings.
From S2P Require Import Refs.
From S2P Require Import Sql.

(** ** Tables *)

#[export] Instance source_ref_countable : Countable Source.Ref.
Proof.
  refine (inj_countable' (fun r => (Source.sourceType r, Source.sourceID r))
            (fun p => Source.MkRef (fst p) (snd p)) _).
  by intros [].
Defined.

(** A row of [pc_artifacts] is found by its scope and reference, a head by its
    scope, family and identifier, a row of lineage by its artifact and ordinal. *)
Record Tables := MkTables {
  t_sources : gset (string * Source.Ref);
  t_artifacts : gmap (string * Ref) bytes;
  t_heads : gmap (string * string * string) Z;
  t_lineage_sources : gmap (string * Ref * nat) Source.Ref;
  t_lineage_artifacts : gmap (string * Ref * nat) Ref
}.

(** A session over these tables only. *)
Notation Session := (SessionOf Tables) (only parsing).

Definition head_key (scope : string) (r : Ref) : string * string * string := (scope, family r, artifactID r).

(** ** Statements *)

Section statements.
Context {T : Type} {HT : Holds T Tables}.

Definition insert_artifact (scope : string) (r : Ref) (payload : bytes) : txn T unit :=
  on (fun t : Tables =>
    require bool_decide (t_artifacts t !! (scope, r) = None) else SIntegrity in
    Ok (tt, MkTables (t_sources t) (<[(scope, r) := payload]> (t_artifacts t)) (t_heads t)
                     (t_lineage_sources t) (t_lineage_artifacts t))).

Definition insert_head (scope : string) (r : Ref) : txn T unit :=
  on (fun t : Tables =>
    require bool_decide (t_heads t !! head_key scope r = None) else SIntegrity in
    require negb (bool_decide (t_artifacts t !! (scope, r) = None)) && (0 <? revision r) else SIntegrity in
    Ok (tt, MkTables (t_sources t) (t_artifacts t) (<[head_key scope r := revision r]> (t_heads t))
                     (t_lineage_sources t) (t_lineage_artifacts t))).

Definition insert_lineage_source (scope : string) (r : Ref) (ordinal : nat) (src : Source.Ref) : txn T unit :=
  on (fun t : Tables =>
    require bool_decide (t_lineage_sources t !! (scope, r, ordinal) = None) else SIntegrity in
    require negb (bool_decide (t_artifacts t !! (scope, r) = None)) &&
            bool_decide ((scope, src) ∈ t_sources t) else SIntegrity in
    Ok (tt, MkTables (t_sources t) (t_artifacts t) (t_heads t)
                     (<[(scope, r, ordinal) := src]> (t_lineage_sources t)) (t_lineage_artifacts t))).

Definition insert_lineage_artifact (scope : string) (r : Ref) (ordinal : nat) (up : Ref) : txn T unit :=
  on (fun t : Tables =>
    require bool_decide (t_lineage_artifacts t !! (scope, r, ordinal) = None) else SIntegrity in
    require negb (bool_decide (t_artifacts t !! (scope, r) = None)) &&
            negb (bool_decide (t_artifacts t !! (scope, up) = None)) else SIntegrity in
    Ok (tt, MkTables (t_sources t) (t_artifacts t) (t_heads t)
                     (t_lineage_sources t) (<[(scope, r, ordinal) := up]> (t_lineage_artifacts t)))).

(** [UPDATE pc_artifact_heads SET revision = revision ...]: it only takes locks. *)
Definition lock_head (scope : string) (r : Ref) : txn T unit := read (fun _ : Tables => tt).

(** [UPDATE pc_artifact_heads SET revision = ? ... AND revision = ?]: the rows it
    changed. *)
Definition update_head (scope : string) (next : Ref) (expected : Z) : txn T Z :=
  on (fun t : Tables =>
    if bool_decide (t_heads t !! head_key scope next = Some expected) then
      require negb (bool_decide (t_artifacts t !! (scope, next) = None)) && (0 <? revision next) else SIntegrity in
      Ok (1, MkTables (t_sources t) (t_artifacts t) (<[head_key scope next := revision next]> (t_heads t))
                      (t_lineage_sources t) (t_lineage_artifacts t))
    else Ok (0, t)).
End statements.

(** The values at the ordinals of an artifact, [ORDER BY ordinal]. *)
Definition ordinals {A} (m : gmap (string * Ref * nat) A) (scope : string) (r : Ref) : list nat :=
  omap (fun p => if bool_decide (fst (fst p) = (scope, r)) then Some (snd (fst p)) else None) (map_to_list m).
Definition ordered {A} (m : gmap (string * Ref * nat) A) (scope : string) (r : Ref) : list A :=
  omap (fun i => m !! (scope, r, i)) (merge_sort le (ordinals m scope r)).

(** The revisions of an artifact that have a row, [ORDER BY revision]. *)
Definition revisions_of (t : Tables) (scope fam id : string) : list Z :=
  merge_sort Z.le
    (omap (fun p => if bool_decide (fst (fst p) = scope /\ family (snd (fst p)) = fam /\ artifactID (snd (fst p)) = id)
                    then Some (revision (snd (fst p))) else None) (map_to_list (t_artifacts t))).

(** ** Codecs *)

(** [reflect.TypeOf] of a content, as its name. *)
Class Dynamic (C : Type) := type_of : C -> string.

Record ArtifactCodec (T C : Type) := MkCodec {
  c_family : string;
  contentTypes : list string;
  c_encode : C -> option bytes;
  c_decodeScoped : string -> bytes -> txn T C;
  c_decode : string -> Ref -> Lineage -> bytes -> txn T (Artifact C)
}.
Arguments MkCodec {T C}. Arguments c_family {T C}. Arguments contentTypes {T C}. Arguments c_encode {T C}.
Arguments c_decodeScoped {T C}. Arguments c_decode {T C}.

Definition supportsContent {T C} `{Dynamic C} (codec : ArtifactCodec T C) (value : C) : bool :=
  bool_decide (type_of value ∈ contentTypes codec).

(** The codec of one concrete type [X], which is the type name [name] of the
    dynamic contents: [inject] makes a dynamic value and [project] is the type
    assertion. *)
Definition NewArtifactCodec {T C X} `{Dynamic C} (fam name : string) (inject : X -> C) (project : C -> option X)
  (encode : X -> option bytes) (decode : bytes -> option X) : result store_error (ArtifactCodec T C) :=
  let* _ := map_err SRef (NewRef fam "codec-validation" 1) in
  Ok (MkCodec fam [name]
        (fun value => if String.eqb (type_of value) name then project value ≫= encode else None)
        (fun _ payload => match decode payload with
                          | None => tx_err (SPayload "content")
                          | Some c => tx_ret (inject c)
                          end)
        (fun _ r lineage payload =>
           match decode payload with
           | None => tx_err (SPayload "content")
           | Some c => tx_lift (map_err SRef (Restore r (inject c) lineage))
           end)).

(** ** The repository *)

Section repository.
Context {T C : Type} {HT : Holds T Tables} `{Dynamic C}.

Definition ArtifactRepository := gmap string (ArtifactCodec T C).

Definition NewArtifactRepository (codecs : list (ArtifactCodec T C)) : result store_error ArtifactRepository :=
  fold_res (fun repo codec =>
              require bool_decide (repo !! c_family codec = None) else SCodec "artifact family" in
              Ok (<[c_family codec := codec]> repo)) ∅ codecs.

Definition codecForDraft (repo : ArtifactRepository) (draft : Draft C) : result store_error (ArtifactCodec T C) :=
  let* codec := of_option (repo !! d_family draft) (SMissing "artifact-family") in
  require supportsContent codec (d_content draft) else SFamily (c_family codec) (d_family draft) in
  Ok codec.

Definition findHead (scope fam id : string) : txn T (option Z) := read (fun t : Tables => t_heads t !! (scope, fam, id)).

(** A loop of statements over values and their ordinals. *)
Fixpoint each {A} (f : nat -> A -> txn T unit) (ordinal : nat) (values : list A) : txn T unit :=
  match values with
  | [] => tx_ret tt
  | v :: more => let! _ := f ordinal v in each f (S ordinal) more
  end.

Definition insertRevision (scope : string) (codec : ArtifactCodec T C) (r : Ref) (content : C) (lineage : Lineage)
  : txn T (Artifact C) :=
  let! payload := tx_lift (of_option (c_encode codec content) (SPayload "value is not JSON serializable")) in
  let! _ := insert_artifact scope r payload in
  let! _ := each (insert_lineage_source scope r) 0 (sources lineage) in
  let! _ := each (insert_lineage_artifact scope r) 0 (artifacts lineage) in
  let! created := tx_catch (c_decode codec scope r lineage payload)
                    (fun _ => tx_err (SPayload "payload does not match the model")) in
  need bool_decide (a_ref created = r) else SIdentity in
  tx_ret created.

(** Only a head that is now committed makes a conflict of a constraint. *)
Definition normalizeCreateIntegrity (scope : string) (requested : Ref) (cause : store_error) : txn T (Artifact C) :=
  if negb (isIntegrityConstraint cause) then tx_err cause
  else
    let! found := findHead scope (family requested) (artifactID requested) in
    match found with
    | None => tx_err cause
    | Some rev =>
        let! current := tx_lift (map_err SRef (NewRef (family requested) (artifactID requested) rev)) in
        tx_err (SConflict requested current)
    end.

Definition Create (repo : ArtifactRepository) (scope id : string) (draft : Draft C) : txn T (Artifact C) :=
  let! _ := tx_lift (requireScope scope) in
  let! codec := tx_lift (codecForDraft repo draft) in
  let! r := tx_lift (map_err SRef (NewRef (d_family draft) id 1)) in
  let! created := tx_catch (insertRevision scope codec r (d_content draft) (d_lineage draft))
                    (normalizeCreateIntegrity scope r) in
  tx_catch (let! _ := insert_head scope r in tx_ret created) (normalizeCreateIntegrity scope r).

Definition Revise (repo : ArtifactRepository) (scope : string) (current : Artifact C) (draft : Draft C)
  : txn T (Artifact C) :=
  let ref := a_ref current in
  let! _ := tx_lift (requireScope scope) in
  need String.eqb (family ref) (d_family draft) else SFamily (family ref) (d_family draft) in
  let! codec := tx_lift (codecForDraft repo draft) in
  need supportsContent codec (a_content current) && supportsContent codec (d_content draft) &&
       String.eqb (type_of (a_content current)) (type_of (d_content draft))
    else SFamily (family ref) (d_family draft) in
  let! _ := tx_lift (map_err SRef (Validate ref)) in
  let! _ := lock_head scope ref in
  let! found := findHead scope (family ref) (artifactID ref) in
  let! locked := tx_lift (of_option found (SMissing "artifact")) in
  if negb (locked =? revision ref) then
    let! latest := tx_lift (map_err SRef (NewRef (family ref) (artifactID ref) locked)) in
    tx_err (SConflict ref latest)
  else
    let! next := tx_lift (map_err SRef (NewRef (family ref) (artifactID ref) (wrap64 (revision ref + 1)))) in
    let! revised := insertRevision scope codec next (d_content draft) (d_lineage draft) in
    let! affected := update_head scope next (revision ref) in
    need affected =? 1 else SConflict ref next in
    tx_ret revised.

Definition loadLineage (scope : string) (r : Ref) : txn T Lineage :=
  let! srcs := read (fun t : Tables => ordered (t_lineage_sources t) scope r) in
  let! _ := tx_lift (map_err SRef (map_res check_source srcs)) in
  let! arts := read (fun t : Tables => ordered (t_lineage_artifacts t) scope r) in
  let! _ := tx_lift (map_err SRef (map_res Validate arts)) in
  tx_lift (map_err SRef (NewLineage srcs arts)).

(** The private [decode] of a row. *)
Definition decode_row (repo : ArtifactRepository) (scope fam id : string) (rev : Z) (payload : bytes)
  : txn T (Artifact C) :=
  let! codec := tx_lift (of_option (repo !! fam) (SMissing "artifact-family")) in
  let! r := tx_lift (map_err SRef (NewRef fam id rev)) in
  let! lineage := loadLineage scope r in
  let! decoded := tx_catch (c_decode codec scope r lineage payload)
                    (fun _ => tx_err (SPayload "payload does not match the model")) in
  need bool_decide (a_ref decoded = r) else SIdentity in
  tx_ret decoded.

Definition Get (repo : ArtifactRepository) (scope : string) (r : Ref) : txn T (Artifact C) :=
  let! _ := tx_lift (requireScope scope) in
  let! _ := tx_lift (map_err SRef (Validate r)) in
  let! row := read (fun t : Tables => t_artifacts t !! (scope, r)) in
  let! payload := tx_lift (of_option row (SMissing "artifact")) in
  decode_row repo scope (family r) (artifactID r) (revision r) payload.

Definition Latest (repo : ArtifactRepository) (scope fam id : string) : txn T (Artifact C) :=
  let! _ := tx_lift (requireScope scope) in
  let! _ := tx_lift (map_err SRef (NewRef fam id 1)) in
  let! found := findHead scope fam id in
  let! rev := tx_lift (of_option found (SMissing "artifact")) in
  let! r := tx_lift (map_err SRef (NewRef fam id rev)) in
  Get repo scope r.

(** The rows are read one by one, and decoded. *)
Fixpoint decode_rows (repo : ArtifactRepository) (scope fam id : string) (rows : list (Z * bytes))
  : txn T (list (Artifact C)) :=
  match rows with
  | [] => tx_ret []
  | (rev, payload) :: more =>
      let! decoded := decode_row repo scope fam id rev payload in
      let! later := decode_rows repo scope fam id more in
      tx_ret (decoded :: later)
  end.

Definition Revisions (repo : ArtifactRepository) (scope fam id : string) : txn T (list (Artifact C)) :=
  let! _ := tx_lift (requireScope scope) in
  let! _ := tx_lift (map_err SRef (NewRef fam id 1)) in
  let! rows := read (fun t : Tables => omap (fun rev => match t_artifacts t !! (scope, MkRef fam id rev) with
                                              | Some payload => Some (rev, payload) | None => None end)
                                    (revisions_of t scope fam id)) in
  decode_rows repo scope fam id rows.
End repository.
Arguments ArtifactRepository : clear implicits.
