(* ===== verification/ArtifactStoreFacts.v ===== *)
(** * Lemmas on the artifact repository

    What a successful transaction did to the tables, and what the ordered rows of
    an artifact are. *)

From S2P Require Import Prelude.
From S2P Require Import GoStrings.
From S2P Require Import Refs.
From S2P Require Import Sql.
From S2P Require Import ArtifactStore.

(** ** Ordered rows *)

Lemma Sorted_seq_le n : forall j, Sorted le (seq j n).
Proof.
  induction n as [|n IH]; intros j; [constructor|]. cbn. constructor; [apply IH|].
  destruct n; cbn; [constructor|]. constructor. lia.
Qed.

Lemma omap_ext_in {A B} (f g : A -> option B) (l : list A) : (forall x, x ∈ l -> f x = g x) -> omap f l = omap g l.
Proof.
  induction l as [|x l IH]; intros H; [done|]. cbn. rewrite (H x) by (by left). rewrite IH; [done|].
  intros y Hy. apply H. by right.
Qed.

Section ordered.
Context {A : Type}.
Implicit Types m : gmap (string * Ref * nat) A.

Lemma ordinals_spec m scope r i : i ∈ ordinals m scope r <-> is_Some (m !! (scope, r, i)).
Proof.
  unfold ordinals. rewrite list_elem_of_omap. split.
  - intros ([[[sc r'] j] v] & Hin & H). cbn in H. case_bool_decide as E; [|done]. injection E as -> ->. injection H as ->.
    apply elem_of_map_to_list in Hin. by exists v.
  - intros [v Hv]. exists ((scope, r, i), v). split; [by apply elem_of_map_to_list|]. cbn. by rewrite bool_decide_eq_true_2.
Qed.

Lemma ordinals_NoDup m scope r : NoDup (ordinals m scope r).
Proof.
  unfold ordinals. assert (H : NoDup (map fst (map_to_list m))) by apply NoDup_fst_map_to_list.
  induction (map_to_list m) as [|[[[sc r'] j] v] l IH]; [constructor|]. cbn in *. inversion_clear H as [|? ? H1 H2].
  case_bool_decide as E; [|by apply IH]. injection E as -> ->. constructor; [|by apply IH].
  intros Hin. apply H1. apply list_elem_of_omap in Hin as ([[[sc' r''] j'] v'] & Hin & E'). cbn in E'.
  case_bool_decide as E2; [|done]. injection E2 as -> ->. injection E' as ->.
  apply list_elem_of_fmap. by exists ((scope, r, j), v').
Qed.

(** Two sorted lists with the same elements, each once, are equal. *)
Lemma sorted_ordinals m scope r l :
  NoDup l -> Sorted le l -> (forall i, i ∈ l <-> is_Some (m !! (scope, r, i))) -> merge_sort le (ordinals m scope r) = l.
Proof.
  intros Hn Hs He. apply (Sorted_unique le); [apply Sorted_merge_sort; typeclasses eauto|done|].
  - rewrite merge_sort_Permutation. apply NoDup_Permutation; [apply ordinals_NoDup|done|].
    intros i. by rewrite ordinals_spec, He.
Qed.

Lemma ordered_ext m m' scope r : (forall i, m !! (scope, r, i) = m' !! (scope, r, i)) -> ordered m scope r = ordered m' scope r.
Proof.
  intros H. unfold ordered. assert (E : merge_sort le (ordinals m scope r) = merge_sort le (ordinals m' scope r)).
  { apply sorted_ordinals.
    - rewrite merge_sort_Permutation. apply ordinals_NoDup.
    - apply Sorted_merge_sort. typeclasses eauto.
    - intros i. rewrite merge_sort_Permutation, ordinals_spec, H. done. }
  rewrite E. apply omap_ext_in. intros i _. apply H.
Qed.

Lemma omap_lookup_seq (l : list A) : omap (fun i => l !! i) (seq 0 (length l)) = l.
Proof.
  induction l as [|x l IH] using rev_ind; [done|]. rewrite length_app, Nat.add_1_r, seq_S, omap_app.
  cbn. rewrite lookup_app_r, Nat.sub_diag by lia. cbn. f_equal. rewrite <- IH at 2.
  apply omap_ext_in. intros i Hi. apply elem_of_seq in Hi. by rewrite lookup_app_l by lia.
Qed.

(** Rows numbered from zero come back in order. *)
Lemma ordered_list m scope r (l : list A) : (forall i, m !! (scope, r, i) = l !! i) -> ordered m scope r = l.
Proof.
  intros H. unfold ordered. rewrite (sorted_ordinals m scope r (seq 0 (length l))).
  - rewrite <- (omap_lookup_seq l) at 2. apply omap_ext_in. intros i _. apply H.
  - apply NoDup_seq.
  - apply Sorted_seq_le.
  - intros i. rewrite H, elem_of_seq, lookup_lt_is_Some. lia.
Qed.
End ordered.

(** ** Inserting the rows of a revision *)

Section each_rows.
Context {T A : Type} {HT : Holds T Tables} (scope : string) (r : Ref) (get : Tables -> gmap (string * Ref * nat) A)
        (put : gmap (string * Ref * nat) A -> Tables -> Tables) (ins : nat -> A -> txn T unit).
Context (get_put : forall m t, get (put m t) = m) (put_put : forall m m' t, put m (put m' t) = put m t)
        (put_get : forall t, put (get t) t = t)
        (ins_ok : forall i v s u s', ins i v s = (Ok u, s') ->
           tables s' = with_rows (put (<[(scope, r, i) := v]> (get (rows (tables s)))) (rows (tables s))) (tables s)).

Lemma each_ok l : forall k s u s', each ins k l s = (Ok u, s') ->
  exists m, tables s' = with_rows (put m (rows (tables s))) (tables s) /\
    (forall i, m !! (scope, r, i) = if decide (k <= i < k + length l)%nat then l !! (i - k)%nat
                                    else get (rows (tables s)) !! (scope, r, i)) /\
    (forall sc r' i, (sc, r') <> (scope, r) -> m !! (sc, r', i) = get (rows (tables s)) !! (sc, r', i)).
Proof.
  induction l as [|v l IH]; intros k s u s' H; cbn [each length] in *.
  - apply tx_ret_ok in H as [_ ->]. exists (get (rows (tables s))). split; [by rewrite put_get, with_same|]. split; [|done].
    intros i. by rewrite decide_False by lia.
  - tx_inv H. apply ins_ok in Ha. apply IH in H as (m & E & Hm & Ho). exists m.
    rewrite Ha, rows_with, with_with, put_put in E. rewrite Ha, rows_with, get_put in Hm, Ho. split; [done|]. split.
    + intros i. rewrite Hm. destruct (decide (i = k)) as [->|Hne].
      * rewrite (decide_False (P := (S k <= k < S k + length l)%nat)) by lia.
        rewrite decide_True by lia. rewrite lookup_insert_eq, Nat.sub_diag. done.
      * rewrite lookup_insert_ne by congruence.
        destruct (decide (S k <= i < S k + length l)%nat).
        { rewrite decide_True by lia. replace (i - k)%nat with (S (i - S k)) by lia. done. }
        rewrite decide_False by lia. done.
    + intros sc r' i Hr. rewrite Ho by done. apply lookup_insert_ne. congruence.
Qed.
End each_rows.

Section statement_facts.
Context {T : Type} {HT : Holds T Tables}.
Implicit Types (s : SessionOf T).
Notation artifact_rows s := (rows (tables s) : Tables).

Lemma insert_artifact_ok scope r payload s u s' :
  insert_artifact scope r payload s = (Ok u, s') ->
  let t := artifact_rows s in
  t_artifacts t !! (scope, r) = None /\
  tables s' = with_rows (MkTables (t_sources t) (<[(scope, r) := payload]> (t_artifacts t)) (t_heads t)
                                  (t_lineage_sources t) (t_lineage_artifacts t)) (tables s).
Proof.
  intros H. apply on_ok in H as (t & H & E). bind_inv H. injection H as _ <-. apply check_ok_inv, bool_decide_eq_true in Ha. done.
Qed.

Lemma insert_source_ok scope r i v s u s' :
  insert_lineage_source scope r i v s = (Ok u, s') ->
  let t := artifact_rows s in
  tables s' = with_rows (MkTables (t_sources t) (t_artifacts t) (t_heads t)
                (<[(scope, r, i) := v]> (t_lineage_sources t)) (t_lineage_artifacts t)) (tables s).
Proof. intros H. apply on_ok in H as (t & H & E). bind_inv H. by injection H as _ <-. Qed.

Lemma insert_upstream_ok scope r i v s u s' :
  insert_lineage_artifact scope r i v s = (Ok u, s') ->
  let t := artifact_rows s in
  tables s' = with_rows (MkTables (t_sources t) (t_artifacts t) (t_heads t)
                (t_lineage_sources t) (<[(scope, r, i) := v]> (t_lineage_artifacts t))) (tables s).
Proof. intros H. apply on_ok in H as (t & H & E). bind_inv H. by injection H as _ <-. Qed.
End statement_facts.

(** Rows of lineage belong to a row of [pc_artifacts]. *)
Definition lineage_keys (t : Tables) : Prop :=
  (forall scope r i, is_Some (t_lineage_sources t !! (scope, r, i)) -> is_Some (t_artifacts t !! (scope, r))) /\
  (forall scope r i, is_Some (t_lineage_artifacts t !! (scope, r, i)) -> is_Some (t_artifacts t !! (scope, r))).

Definition lineage_of (t : Tables) (scope : string) (r : Ref) : Lineage :=
  MkLineage (ordered (t_lineage_sources t) scope r) (ordered (t_lineage_artifacts t) scope r).

(** [t'] is [t] with one more revision. *)
Record inserted (scope : string) (r : Ref) (payload : bytes) (lineage : Lineage) (t t' : Tables) : Prop := {
  ins_fresh : t_artifacts t !! (scope, r) = None;
  ins_artifacts : t_artifacts t' = <[(scope, r) := payload]> (t_artifacts t);
  ins_heads : t_heads t' = t_heads t;
  ins_sources : t_sources t' = t_sources t;
  ins_lineage : lineage_of t' scope r = lineage;
  ins_others sc r' : (sc, r') <> (scope, r) -> lineage_of t' sc r' = lineage_of t sc r';
  ins_keys : lineage_keys t'
}.

(** A codec that only computes, and one that may read the database. *)
Definition pure_codec {T C} (codec : ArtifactCodec T C) : Prop :=
  forall scope r lineage payload, exists res, c_decode codec scope r lineage payload = tx_lift res.
Definition reading_codec {T C} (codec : ArtifactCodec T C) : Prop :=
  forall scope r lineage payload s res s', c_decode codec scope r lineage payload s = (res, s') -> tables s' = tables s.

Lemma pure_reading {T C} (codec : ArtifactCodec T C) : pure_codec codec -> reading_codec codec.
Proof. intros Hp scope r lineage payload s res s'. destruct (Hp scope r lineage payload) as [x ->]. by intros [= _ <-]. Qed.

(** A payload that was read as [a]. *)
Definition decoded_as {T C} (codec : ArtifactCodec T C) scope (r : Ref) lineage payload (a : Artifact C) : Prop :=
  exists s s', c_decode codec scope r lineage payload s = (Ok a, s').

Lemma pure_decoded {T C} (codec : ArtifactCodec T C) scope r lineage payload a :
  pure_codec codec -> decoded_as codec scope r lineage payload a -> c_decode codec scope r lineage payload = tx_lift (Ok a).
Proof. intros Hp (s & s' & H). destruct (Hp scope r lineage payload) as [x E]. rewrite E in *. by injection H as ->. Qed.

Lemma insertRevision_ok {T C} {HT : Holds T Tables} (codec : ArtifactCodec T C) scope r content lineage s a s' :
  reading_codec codec -> lineage_keys (rows (tables s)) -> insertRevision scope codec r content lineage s = (Ok a, s') ->
  changed_only Tables (tables s) (tables s') /\
  exists payload, c_encode codec content = Some payload /\ a_ref a = r /\
    decoded_as codec scope r lineage payload a /\
    inserted scope r payload lineage (rows (tables s)) (rows (tables s')).
Proof.
  intros Hp [K1 K2] H. pose (t := (rows (tables s) : Tables)). fold t in K1, K2. unfold insertRevision in H. tx_inv H. tx_pure. apply of_option_ok_inv in Ha. rename a0 into payload.
  apply tx_catch_ok in Ha3; [|done]. pose proof (Hp _ _ _ _ _ _ _ Ha3) as Eread. apply bool_decide_eq_true in Ha4.
  apply insert_artifact_ok in Ha0 as [Hfresh E0]. fold t in Hfresh, E0.
  assert (F1 : forall i, t_lineage_sources t !! (scope, r, i) = None).
  { intros i. apply eq_None_not_Some. intros HS. apply K1 in HS. rewrite Hfresh in HS. by destruct HS. }
  assert (F2 : forall i, t_lineage_artifacts t !! (scope, r, i) = None).
  { intros i. apply eq_None_not_Some. intros HS. apply K2 in HS. rewrite Hfresh in HS. by destruct HS. }
  apply (each_ok scope r t_lineage_sources
           (fun m t => MkTables (t_sources t) (t_artifacts t) (t_heads t) m (t_lineage_artifacts t)))
    in Ha1 as (m1 & E1 & M1 & O1); [|done|done|by intros []|by intros; apply insert_source_ok in H].
  apply (each_ok scope r t_lineage_artifacts
           (fun m t => MkTables (t_sources t) (t_artifacts t) (t_heads t) (t_lineage_sources t) m))
    in Ha2 as (m2 & E2 & M2 & O2); [|done|done|by intros []|by intros; apply insert_upstream_ok in H].
  rewrite E0, ?rows_with in E1, M1, O1. rewrite E1, ?rows_with in E2, M2, O2. rewrite !with_with in E2. cbn in *.
  rewrite <- Eread in E2. split; [rewrite E2; apply changed_with|].
  exists payload. split; [done|]. split; [done|]. split; [by eexists _, _|]. rewrite E2, rows_with.
  assert (L1 : forall i, m1 !! (scope, r, i) = sources lineage !! i).
  { intros i. rewrite M1, F1. case_decide as Hd; [by rewrite Nat.sub_0_r|]. symmetry. apply lookup_ge_None. lia. }
  assert (L2 : forall i, m2 !! (scope, r, i) = artifacts lineage !! i).
  { intros i. rewrite M2, F2. case_decide as Hd; [by rewrite Nat.sub_0_r|]. symmetry. apply lookup_ge_None. lia. }
  split; cbn; try done.
  - unfold lineage_of. cbn. rewrite (ordered_list m1 scope r _ L1), (ordered_list m2 scope r _ L2). by destruct lineage.
  - intros sc r' Hr. unfold lineage_of. cbn. f_equal; apply ordered_ext; intros i; [by apply O1|by apply O2].
  - split; cbn; intros sc r' i Hi; (destruct (decide ((sc, r') = (scope, r))) as [E|Hne];
      [rewrite E; rewrite lookup_insert_eq; by eexists|rewrite lookup_insert_ne by congruence]).
    + apply (K1 sc r' i). by rewrite <- O1.
    + apply (K2 sc r' i). by rewrite <- O2.
Qed.

(** ** Creating and revising *)

(** A head is the last of the revisions from 1, which all have a row. *)
Record rows_ok (t : Tables) : Prop := {
  rows_keys : lineage_keys t;
  rows_heads scope fam id :
    match t_heads t !! (scope, fam, id) with
    | None => forall rev, t_artifacts t !! (scope, MkRef fam id rev) = None
    | Some n => 1 <= n <= max_int64 /\ forall rev, is_Some (t_artifacts t !! (scope, MkRef fam id rev)) <-> 1 <= rev <= n
    end
}.

(** [t'] is [t] with revision [r] added, at the end of its artifact. *)
Record grown (scope : string) (r : Ref) (payload : bytes) (lineage : Lineage) (t t' : Tables) : Prop := {
  g_before : t_heads t !! head_key scope r = (if decide (revision r = 1) then None else Some (revision r - 1));
  g_positive : 1 <= revision r <= max_int64;
  g_artifacts : t_artifacts t' = <[(scope, r) := payload]> (t_artifacts t);
  g_heads : t_heads t' = <[head_key scope r := revision r]> (t_heads t);
  g_sources : t_sources t' = t_sources t;
  g_lineage : lineage_of t' scope r = lineage;
  g_others sc r' : (sc, r') <> (scope, r) -> lineage_of t' sc r' = lineage_of t sc r';
  g_keys : lineage_keys t'
}.

Lemma grown_of scope r payload lineage t t1 :
  inserted scope r payload lineage t t1 ->
  t_heads t !! head_key scope r = (if decide (revision r = 1) then None else Some (revision r - 1)) ->
  1 <= revision r <= max_int64 ->
  grown scope r payload lineage t
    (MkTables (t_sources t1) (t_artifacts t1) (<[head_key scope r := revision r]> (t_heads t1))
              (t_lineage_sources t1) (t_lineage_artifacts t1)).
Proof.
  intros [H1 H2 H3 H4 H5 H6 H7] Hb Hr. split; try done; cbn; try congruence.
Qed.

Lemma grown_rows scope r payload lineage t t' : rows_ok t -> grown scope r payload lineage t t' -> rows_ok t'.
Proof.
  intros [_ Hh] [H1 H2 H3 H4 _ _ _ H8]. split; [done|]. intros sc fam id. rewrite H3, H4.
  destruct r as [rf ri rv]. unfold head_key in *. cbn [family artifactID revision] in *.
  destruct (decide ((scope, rf, ri) = (sc, fam, id))) as [E|Hne].
  - injection E as <- <- <-. rewrite lookup_insert_eq. split; [done|]. intros rev.
    specialize (Hh scope rf ri). rewrite H1 in Hh.
    destruct (decide (rev = rv)) as [->|Hne]; [rewrite lookup_insert_eq; split; [lia|by eexists]|].
    rewrite lookup_insert_ne by congruence. destruct (decide (rv = 1)) as [->|].
    + rewrite Hh. split; [by intros []|lia].
    + destruct Hh as [_ Hh]. rewrite Hh. lia.
  - rewrite lookup_insert_ne by done. specialize (Hh sc fam id).
    assert (Hl : forall rev, <[(scope, MkRef rf ri rv) := payload]> (t_artifacts t) !! (sc, MkRef fam id rev)
                             = t_artifacts t !! (sc, MkRef fam id rev)).
    { intros rev. apply lookup_insert_ne. intros [= -> -> -> ->]. done. }
    destruct (t_heads t !! (sc, fam, id)) as [n|].
    + destruct Hh as [Hn Hh]. split; [done|]. intros rev. by rewrite Hl.
    + intros rev. by rewrite Hl.
Qed.

(** The revision was not there. *)
Lemma grown_fresh scope r payload lineage t t' :
  rows_ok t -> grown scope r payload lineage t t' -> t_artifacts t !! (scope, r) = None.
Proof.
  intros [_ Hh] [H1 H2 _ _ _ _ _ _]. specialize (Hh scope (family r) (artifactID r)). unfold head_key in H1. rewrite H1 in Hh.
  destruct r as [fam id n]. cbn in *. case_decide; [apply Hh|]. destruct Hh as [_ Hh].
  apply eq_None_not_Some. rewrite Hh. lia.
Qed.

Lemma normalize_fails {T C} {HT : Holds T Tables} scope r e (s : SessionOf T) (a : Artifact C) s' : normalizeCreateIntegrity scope r e s <> (Ok a, s').
Proof.
  unfold normalizeCreateIntegrity. destruct (negb _); [done|]. intros H. tx_inv H. destruct a0; [|done]. tx_inv H. done.
Qed.

Section repository.
Context {T C : Type} {HT : Holds T Tables} `{Dynamic C} (repo : ArtifactRepository T C).
Notation artifact_rows s := (rows (tables s) : Tables).

(** What a write did: [a] is the revision that it stored. *)
Definition wrote (scope : string) (draft : Draft C) (a : Artifact C) (t t' : Tables) : Prop :=
  exists codec payload,
    repo !! d_family draft = Some codec /\ c_encode codec (d_content draft) = Some payload /\
    decoded_as codec scope (a_ref a) (d_lineage draft) payload a /\ valid_ref (a_ref a) /\
    grown scope (a_ref a) payload (d_lineage draft) t t'.

Lemma Create_ok scope id draft s a s' :
  (forall codec, repo !! d_family draft = Some codec -> reading_codec codec) ->
  rows_ok (artifact_rows s) -> Create repo scope id draft s = (Ok a, s') ->
  changed_only Tables (tables s) (tables s') /\
  a_ref a = MkRef (d_family draft) id 1 /\ wrote scope draft a (artifact_rows s) (artifact_rows s').
Proof.
  intros Hpure Hw Hc. unfold Create in Hc. tx_inv Hc. tx_pure. apply tx_catch_ok in Hc; [|intros; apply normalize_fails].
  tx_inv Hc. tx_pure. apply tx_catch_ok in Ha2; [|intros; apply normalize_fails].
  unfold codecForDraft in Ha0. bind_inv Ha0. ok_inv. subst. apply NewRef_ok in Heqr as [-> Hv].
  apply insertRevision_ok in Ha2 as (Hc & payload & Ee & Er & Ed & Hi); [|by apply Hpure|apply Hw].
  apply on_ok in Ha1 as (t1 & Ha1 & Et). bind_inv Ha1. injection Ha1 as _ Ht.
  apply check_ok_inv, bool_decide_eq_true in Ha0. split; [etransitivity; [exact Hc|]; rewrite Et; apply changed_with|].
  split; [done|]. exists a1, payload. rewrite Er.
  split; [done|]. split; [done|]. split; [done|]. split; [done|]. rewrite Et, rows_with, <- Ht.
  apply grown_of; [done| |by cbn; unfold max_int64; lia]. rewrite <- (ins_heads _ _ _ _ _ _ Hi). done.
Qed.

Lemma Revise_ok scope base draft s a s' :
  (forall codec, repo !! d_family draft = Some codec -> reading_codec codec) ->
  rows_ok (artifact_rows s) -> Revise repo scope base draft s = (Ok a, s') ->
  changed_only Tables (tables s) (tables s') /\
  family (a_ref base) = d_family draft /\
  t_heads (artifact_rows s) !! head_key scope (a_ref base) = Some (revision (a_ref base)) /\
  a_ref a = MkRef (d_family draft) (artifactID (a_ref base)) (revision (a_ref base) + 1) /\
  wrote scope draft a (artifact_rows s) (artifact_rows s').
Proof.
  intros Hpure Hw Hr. unfold Revise in Hr. tx_inv Hr. tx_pure.
  destruct (negb _) eqn:El; [tx_inv Hr; done|]. apply negb_false_iff, Z.eqb_eq in El.
  tx_inv Hr. tx_pure. rename a2 into codec, a9 into stored. apply String.eqb_eq in Ha0.
  unfold codecForDraft in Ha1. bind_inv Ha1. ok_inv. subst.
  apply read_ok in Ha5 as [Ha5 E5], Ha4 as [_ E4].
  apply NewRef_ok in Heqr0 as [-> Hv]. apply Validate_ok in Heqr as (_ & _ & Hrev).
  rewrite E4 in Ha5. symmetry in Ha5. pose proof (rows_heads _ Hw scope (family (a_ref base)) (artifactID (a_ref base))) as Hh.
  rewrite Ha5 in Hh. destruct Hh as [Hmax _].
  assert (Hnext : wrap64 (revision (a_ref base) + 1) = revision (a_ref base) + 1).
  { apply wrap64_id. unfold in_int64, min_int64, max_int64 in *. destruct Hv as (_ & _ & Hv). cbn in Hv.
    destruct (decide (revision (a_ref base) = 2 ^ 63 - 1)) as [E|]; [|lia]. rewrite E in Hv. by vm_compute in Hv. }
  rewrite Hnext in *. rewrite Ha0 in *.
  apply insertRevision_ok in Ha7 as (Hc & payload & Ee & Er & Ed & Hi);
    [|by apply Hpure|rewrite E5, E4; apply Hw].
  rewrite E5, E4 in Hi, Hc. cbn [a_ref family artifactID revision] in *.
  apply on_ok in Ha8 as (t1 & Ha8 & Et). case_bool_decide as Eh; [|injection Ha8 as <- _; done].
  bind_inv Ha8. injection Ha8 as _ Ht. split; [etransitivity; [exact Hc|]; rewrite Et; apply changed_with|]. split; [done|]. split; [unfold head_key; by rewrite Ha0|]. split; [done|].
  exists codec, payload. rewrite Er. split; [done|]. split; [done|]. split; [done|]. split; [done|].
  rewrite Et, rows_with, <- Ht. apply grown_of; [done| |].
  - unfold head_key in *. cbn in *. rewrite <- (ins_heads _ _ _ _ _ _ Hi), Eh. rewrite decide_False by lia. f_equal. lia.
  - destruct Hv as (_ & _ & Hv). cbn in *. pose proof (wrap64_range (revision (a_ref base) + 1)) as Hw64.
    rewrite Hnext in Hw64. unfold in_int64 in Hw64. lia.
Qed.
End repository.

(** Codecs that read leave the tables alone, and so do the reads of artifacts. *)
Definition reading_repo {T C} (repo : ArtifactRepository T C) : Prop :=
  forall fam codec, repo !! fam = Some codec -> reading_codec codec.

Section readers.
Context {T C : Type} {HT : Holds T Tables} `{Dynamic C} (repo : ArtifactRepository T C) (Hrepo : reading_repo repo).

Lemma decode_row_keeps scope fam id rev payload : keeps (T := T) (decode_row repo scope fam id rev payload).
Proof.
  unfold decode_row, loadLineage. keeps. intros s r s' Hd.
  match goal with E : of_option _ _ = Ok _ |- _ => apply of_option_ok_inv in E; by apply (Hrepo _ _ E) in Hd end.
Qed.

Lemma Get_keeps scope r : keeps (T := T) (Get repo scope r).
Proof. unfold Get. keeps. apply decode_row_keeps. Qed.

Lemma Latest_keeps scope fam id : keeps (T := T) (Latest repo scope fam id).
Proof. unfold Latest, findHead. keeps. apply Get_keeps. Qed.

Lemma Get_ref scope r s a s' : Get repo scope r s = (Ok a, s') -> a_ref a = r /\ valid_ref r /\ is_Some (t_artifacts (rows (tables s)) !! (scope, r)).
Proof.
  unfold Get, decode_row. intros E. tx_inv E. tx_pure. apply read_ok in Ha1 as [-> E1]. apply of_option_ok_inv in Ha2.
  apply Validate_ok in Heqr1. apply NewRef_ok in Heqr0 as [-> _]. apply bool_decide_eq_true in Ha7.
  rewrite Ha7. split; [by destruct r|]. split; [done|]. by eexists.
Qed.

Lemma Latest_ref scope fam id s a s' :
  Latest repo scope fam id s = (Ok a, s') ->
  family (a_ref a) = fam /\ artifactID (a_ref a) = id /\
  t_heads (rows (tables s)) !! (scope, fam, id) = Some (revision (a_ref a)) /\
  is_Some (t_artifacts (rows (tables s)) !! (scope, a_ref a)).
Proof.
  unfold Latest, findHead. intros HL. tx_inv HL. tx_pure. apply read_ok in Ha1 as [-> E]. apply of_option_ok_inv in Ha2.
  apply Get_ref in HL as (Hr & _ & Ht). rewrite E in *. rewrite Hr in *.
  match goal with Hn : NewRef _ _ _ = Ok _ |- _ => apply NewRef_ok in Hn as [-> _] end. done.
Qed.
End readers.

(** ** All the revisions *)

Lemma revisions_elem t scope fam id rev :
  rev ∈ revisions_of t scope fam id <-> is_Some (t_artifacts t !! (scope, MkRef fam id rev)).
Proof.
  unfold revisions_of. rewrite merge_sort_Permutation, list_elem_of_omap. split.
  - intros ([[sc r] v] & Hin & H). cbn in H. case_bool_decide as E; [|done]. destruct E as (-> & <- & <-). injection H as <-.
    apply elem_of_map_to_list in Hin. exists v. by destruct r.
  - intros [v Hv]. exists ((scope, MkRef fam id rev), v). split; [by apply elem_of_map_to_list|]. cbn. by rewrite bool_decide_eq_true_2.
Qed.

Lemma revisions_NoDup t scope fam id : NoDup (revisions_of t scope fam id).
Proof.
  unfold revisions_of. rewrite merge_sort_Permutation.
  assert (H : NoDup (map fst (map_to_list (t_artifacts t)))) by apply NoDup_fst_map_to_list.
  induction (map_to_list (t_artifacts t)) as [|[[sc r] v] l IH]; [constructor|]. cbn in *. inversion_clear H as [|? ? H1 H2].
  case_bool_decide as E; [|by apply IH]. destruct E as (-> & Ef & Ei). constructor; [|by apply IH].
  intros Hin. apply H1. apply list_elem_of_omap in Hin as ([[sc' r'] v'] & Hin & E'). cbn in E'.
  case_bool_decide as E2; [|done]. destruct E2 as (-> & Ef' & Ei'). injection E' as E'.
  apply list_elem_of_fmap. exists ((scope, r'), v'). split; [|done]. cbn. f_equal. destruct r, r'; cbn in *; congruence.
Qed.

Lemma sorted_revisions_from n k : Sorted Z.le (map (fun i => Z.of_nat i + 1) (seq k n)).
Proof.
  revert k. induction n as [|n IH]; intros k; [constructor|]. cbn. constructor; [apply IH|]. destruct n; cbn; constructor. lia.
Qed.

(** Without gaps from 1 to the head. *)
Lemma revisions_list t scope fam id n :
  rows_ok t -> t_heads t !! (scope, fam, id) = Some n ->
  revisions_of t scope fam id = map (fun i => Z.of_nat i + 1) (seq 0 (Z.to_nat n)).
Proof.
  intros [_ Hh] Hn. specialize (Hh scope fam id). rewrite Hn in Hh. destruct Hh as [Hpos Hh].
  apply (Sorted_unique Z.le); [apply Sorted_merge_sort; typeclasses eauto|apply sorted_revisions_from|].
  apply NoDup_Permutation; [apply revisions_NoDup| |].
  - apply (NoDup_fmap_2_strong (fun i => Z.of_nat i + 1)); [intros x y _ _ E; lia|apply NoDup_seq].
  - intros rev. rewrite revisions_elem, Hh. rewrite list_elem_of_fmap. split.
    + intros Hr. exists (Z.to_nat (rev - 1)). rewrite elem_of_seq. lia.
    + intros (i & -> & Hi). apply elem_of_seq in Hi. lia.
Qed.

Lemma revisions_none t scope fam id :
  rows_ok t -> t_heads t !! (scope, fam, id) = None -> revisions_of t scope fam id = [].
Proof.
  intros [_ Hh] Hn. specialize (Hh scope fam id). rewrite Hn in Hh.
  destruct (revisions_of t scope fam id) as [|rev l] eqn:E; [done|].
  assert (Hin : rev ∈ revisions_of t scope fam id) by (rewrite E; by left).
  apply revisions_elem in Hin as [v Hv]. by rewrite Hh in Hv.
Qed.

(** ** Codecs of one type *)

Section one_type.
Context {T C X : Type} `{Dynamic C} (fam name : string) (inject : X -> C) (project : C -> option X)
        (encode : X -> option bytes) (decode : bytes -> option X) (codec : ArtifactCodec T C)
        (Hcodec : NewArtifactCodec fam name inject project encode decode = Ok codec).

Lemma codec_decode scope r lineage payload :
  c_decode codec scope r lineage payload =
    match decode payload with
    | None => tx_err (SPayload "content")
    | Some c => tx_lift (map_err SRef (Restore r (inject c) lineage))
    end.
Proof. unfold NewArtifactCodec in Hcodec. destruct (map_err _ _); [|done]. injection Hcodec as <-. done. Qed.

Lemma codec_pure : pure_codec codec.
Proof.
  intros scope r lineage payload. rewrite codec_decode. destruct (decode payload); [by eexists|by exists (Err (SPayload "content"))].
Qed.

Lemma codec_encode x :
  type_of (inject x) = name -> project (inject x) = Some x -> c_encode codec (inject x) = encode x.
Proof.
  intros Hn Hp. unfold NewArtifactCodec in Hcodec. destruct (map_err _ _); [|done]. injection Hcodec as <-. cbn.
  by rewrite Hn, String.eqb_refl, Hp.
Qed.

Lemma codec_decoded scope r lineage payload s a s' :
  c_decode codec scope r lineage payload s = (Ok a, s') ->
  exists x, decode payload = Some x /\ a = MkArtifact r (inject x) lineage /\ s' = s.
Proof.
  rewrite codec_decode. destruct (decode payload) as [x|]; [|done]. intros E. apply tx_lift_ok in E as [E ->]. exists x.
  split; [done|]. destruct (Restore r (inject x) lineage) as [a'|] eqn:Er; [|done]. injection E as <-. by apply Restore_ok in Er as [-> _].
Qed.

Lemma codec_supports x : type_of (inject x) = name -> supportsContent codec (inject x) = true.
Proof.
  intros Hn. unfold NewArtifactCodec in Hcodec. destruct (map_err _ _); [|done]. injection Hcodec as <-. unfold supportsContent. cbn.
  rewrite Hn. apply bool_decide_eq_true_2. by left.
Qed.
End one_type.

(** ** Reads *)

Section reading.
Context {T C : Type} {HT : Holds T Tables} `{Dynamic C} (repo : ArtifactRepository T C) (codec : ArtifactCodec T C)
        (scope fam : string) (Hrepo : repo !! fam = Some codec) (Hpure : pure_codec codec).
Notation artifact_rows s := (rows (tables s) : Tables).
Implicit Types (s : SessionOf T).

Lemma loadLineage_ok r s lineage s' :
  loadLineage scope r s = (Ok lineage, s') -> lineage = lineage_of (artifact_rows s) scope r /\ tables s' = tables s.
Proof.
  unfold loadLineage. intros E. tx_inv E. tx_pure. apply read_ok in Ha as [-> E1], Ha1 as [-> E2].
  apply NewLineage_ok in Heqr0 as [-> _]. rewrite E1 in E2. split; [|congruence]. unfold lineage_of. by rewrite E1.
Qed.

Lemma decode_row_ok id rev payload s a s' :
  decode_row repo scope fam id rev payload s = (Ok a, s') ->
  let r := MkRef fam id rev in
  valid_ref r /\ a_ref a = r /\ tables s' = tables s /\
  exists s1 s2, tables s1 = tables s /\ c_decode codec scope r (lineage_of (artifact_rows s) scope r) payload s1 = (Ok a, s2).
Proof.
  unfold decode_row. intros E. tx_inv E. tx_pure. apply of_option_ok_inv in Ha. rewrite Hrepo in Ha. injection Ha as <-.
  apply loadLineage_ok in Ha1 as [-> E1]. apply tx_catch_ok in Ha2; [|done]. apply NewRef_ok in Heqr as [-> Hv].
  destruct (Hpure scope (MkRef fam id rev) (lineage_of (artifact_rows s) scope (MkRef fam id rev)) payload) as [res Eres].
  pose proof Ha2 as Hd. rewrite Eres in Ha2. apply tx_lift_ok in Ha2 as [_ ->]. apply bool_decide_eq_true in Ha3. split; [done|]. split; [done|].
  split; [done|]. by exists st1, st1.
Qed.

Lemma Get_ok r s a s' :
  family r = fam -> Get repo scope r s = (Ok a, s') ->
  valid_ref r /\ a_ref a = r /\ tables s' = tables s /\
  exists payload s1 s2, t_artifacts (artifact_rows s) !! (scope, r) = Some payload /\
    c_decode codec scope r (lineage_of (artifact_rows s) scope r) payload s1 = (Ok a, s2).
Proof.
  unfold Get. intros Hf E. tx_inv E. tx_pure. apply read_ok in Ha1 as [-> E1]. apply of_option_ok_inv in Ha2.
  rewrite Hf in E. apply decode_row_ok in E as (H1 & H2 & H3 & s1 & s2 & _ & H4). rewrite E1 in H3, H4.
  destruct r as [rf ri rn]. cbn in Hf. subst rf. cbn [family artifactID revision] in *. split; [done|]. split; [done|]. split; [done|]. by exists a3, s1, s2.
Qed.

Lemma Latest_ok id s a s' :
  Latest repo scope fam id s = (Ok a, s') ->
  exists n s1, t_heads (artifact_rows s) !! (scope, fam, id) = Some n /\ tables s1 = tables s /\
    Get repo scope (MkRef fam id n) s1 = (Ok a, s').
Proof.
  unfold Latest, findHead. intros E. tx_inv E. tx_pure. apply read_ok in Ha1 as [-> E1]. apply of_option_ok_inv in Ha2.
  apply NewRef_ok in Heqr as [-> _]. by eexists _, st1.
Qed.

(** The values of a row, on a driver that does not fail. *)
Lemma Get_reads t r payload a :
  requireScope scope = Ok tt -> valid_ref r -> family r = fam -> t_artifacts (rows t) !! (scope, r) = Some payload ->
  valid_lineage (lineage_of (rows t) scope r) -> c_decode codec scope r (lineage_of (rows t) scope r) payload = tx_lift (Ok a) ->
  a_ref a = r -> reads (Get repo scope r) t (Ok a).
Proof.
  intros Hs Hv Hf Hp Hl Hd Ha. unfold Get. eapply reads_bind; [rewrite Hs; apply reads_lift|].
  eapply reads_bind; [rewrite (proj2 (Validate_ok r tt) Hv); apply reads_lift|].
  eapply reads_bind; [apply reads_read|]. cbn beta. rewrite Hp. eapply reads_bind; [apply reads_lift|].
  unfold decode_row. rewrite Hf, Hrepo. eapply reads_bind; [apply reads_lift|].
  assert (Er : MkRef fam (artifactID r) (revision r) = r) by (destruct r; cbn in *; congruence).
  eapply reads_bind; [rewrite (proj2 (NewRef_ok _ _ _ r)); [apply reads_lift|done]|].
  eapply reads_bind.
  { unfold loadLineage. eapply reads_bind; [apply reads_read|]. cbn beta. destruct Hl as [H1 H2].
    assert (E : NewLineage (ordered (t_lineage_sources (rows t)) scope r) (ordered (t_lineage_artifacts (rows t)) scope r) = Ok (lineage_of (rows t) scope r))
      by (by apply NewLineage_ok).
    unfold NewLineage in E. bind_inv E. rewrite Ha0. eapply reads_bind; [apply reads_lift|].
    eapply reads_bind; [apply reads_read|]. cbn beta. rewrite Ha1. eapply reads_bind; [apply reads_lift|].
    unfold NewLineage. rewrite Ha0, Ha1. apply reads_lift. }
  eapply reads_bind; [apply reads_catch; unfold lineage_of in Hd; rewrite Hd; apply reads_lift|].
  eapply reads_bind; [apply reads_check, bool_decide_eq_true_2, Ha|]. apply reads_ret.
Qed.

Lemma Latest_reads t id n a :
  requireScope scope = Ok tt -> t_heads (rows t) !! (scope, fam, id) = Some n -> valid_ref (MkRef fam id n) ->
  reads (Get repo scope (MkRef fam id n)) t (Ok a) -> reads (Latest repo scope fam id) t (Ok a).
Proof.
  intros Hs Hh Hv Hg. unfold Latest. eapply reads_bind; [rewrite Hs; apply reads_lift|].
  assert (H1 : valid_ref (MkRef fam id 1)) by (destruct Hv as (H1 & H2 & _); split; [done|split; [done|cbn; lia]]).
  eapply reads_bind; [rewrite (proj2 (NewRef_ok fam id 1 _) (conj eq_refl H1)); apply reads_lift|].
  eapply reads_bind; [apply reads_read|]. cbn beta. rewrite Hh. eapply reads_bind; [apply reads_lift|].
  eapply reads_bind; [rewrite (proj2 (NewRef_ok fam id n _) (conj eq_refl Hv)); apply reads_lift|]. exact Hg.
Qed.

(** What is read depends on the row and its lineage only. *)
Lemma Get_agrees (t t' : T) r :
  family r = fam -> t_artifacts (rows t') !! (scope, r) = t_artifacts (rows t) !! (scope, r) ->
  lineage_of (rows t') scope r = lineage_of (rows t) scope r ->
  agree (Get repo scope r) (Get repo scope r) t t'.
Proof.
  intros Hf Hp Hl. injection Hl as Hs Ha. unfold Get, decode_row, loadLineage. agree; [by rewrite Hp|..].
  all: match goal with E : map_err SRef (NewRef _ _ _) = Ok ?x |- _ =>
    assert (Ex : x = MkRef (family r) (artifactID r) (revision r)) by
      (destruct (NewRef _ _ _) eqn:En; [injection E as <-; by apply NewRef_ok in En as [-> _]|done]); rewrite Ex; clear E Ex end.
  all: replace (MkRef (family r) (artifactID r) (revision r)) with r by (by destruct r); try done.
  match goal with E : of_option (repo !! _) _ = Ok _ |- _ => rewrite Hf, Hrepo in E; injection E as <- end.
  destruct (Hpure scope r a5 a2) as [res ->]. agree.
Qed.

(** A row is missing only when its head is. *)
Lemma loadLineage_not_missing r (st : SessionOf T) k st' : loadLineage scope r st <> (Err (SMissing k), st').
Proof.
  unfold loadLineage. intros Hm.
  repeat (apply tx_bind_err in Hm as [Hm|(? & ? & _ & Hm)]; [first [by eapply read_not_missing|by eapply ref_not_missing]|]).
  by eapply ref_not_missing.
Qed.

Lemma decode_row_not_missing id rev payload (st : SessionOf T) k st' :
  decode_row repo scope fam id rev payload st <> (Err (SMissing k), st').
Proof.
  unfold decode_row. intros Hm.
  apply tx_bind_err in Hm as [Hm|(? & ? & _ & Hm)]; [by rewrite Hrepo in Hm|].
  apply tx_bind_err in Hm as [Hm|(? & ? & _ & Hm)]; [by eapply ref_not_missing|].
  apply tx_bind_err in Hm as [Hm|(? & ? & _ & Hm)]; [by eapply loadLineage_not_missing|].
  apply tx_bind_err in Hm as [Hm|(? & ? & _ & Hm)].
  - unfold tx_catch in Hm. by destruct (c_decode _ _ _ _ _ _) as [[?|?] ?].
  - apply tx_bind_err in Hm as [Hm|(? & ? & _ & Hm)]; [|done]. unfold tx_check, tx_lift in Hm. injection Hm as Hm _.
    by apply check_err_inv in Hm as [_ Hm].
Qed.

Lemma Latest_missing id (st : SessionOf T) k st' :
  rows_ok (rows (tables st)) -> Latest repo scope fam id st = (Err (SMissing k), st') ->
  t_heads (rows (tables st)) !! (scope, fam, id) = None.
Proof.
  unfold Latest. intros [_ Hh] Hm.
  apply tx_bind_err in Hm as [Hm|(? & ? & E1 & Hm)]; [by apply scope_not_missing in Hm|]. apply tx_lift_ok in E1 as [_ ->].
  apply tx_bind_err in Hm as [Hm|(? & ? & E1 & Hm)]; [by apply ref_not_missing in Hm|]. apply tx_lift_ok in E1 as [_ ->].
  apply tx_bind_err in Hm as [Hm|(? & ? & E1 & Hm)]; [by apply read_not_missing in Hm|]. apply read_ok in E1 as [-> E].
  apply tx_bind_err in Hm as [Hm|(n & ? & E1 & Hm)]; [by apply of_option_missing in Hm|]. exfalso.
  apply tx_lift_ok in E1 as [E1 ->]. apply of_option_ok_inv in E1.
  specialize (Hh scope fam id). rewrite E1 in Hh. destruct Hh as [Hn Hh].
  apply tx_bind_err in Hm as [Hm|(? & ? & E2 & Hm)]; [by apply ref_not_missing in Hm|]. apply tx_lift_ok in E2 as [E2 ->].
  destruct (NewRef fam id n) as [r|] eqn:Er; [|done]. injection E2 as <-. apply NewRef_ok in Er as [-> _].
  unfold Get in Hm.
  apply tx_bind_err in Hm as [Hm|(? & ? & E2 & Hm)]; [by apply scope_not_missing in Hm|]. apply tx_lift_ok in E2 as [_ ->].
  apply tx_bind_err in Hm as [Hm|(? & ? & E2 & Hm)]; [by apply ref_not_missing in Hm|]. apply tx_lift_ok in E2 as [_ ->].
  apply tx_bind_err in Hm as [Hm|(? & ? & E2 & Hm)]; [by apply read_not_missing in Hm|]. apply read_ok in E2 as [-> E'].
  apply tx_bind_err in Hm as [Hm|(? & ? & _ & Hm)]; [|by apply decode_row_not_missing in Hm].
  apply of_option_missing in Hm. rewrite E in Hm. destruct (proj2 (Hh n) ltac:(lia)) as [v Hv]. congruence.
Qed.
End reading.
