(* ===== verification/ScopeStore.v ===== *)
(** * Scopes in the relational store ([internal/sqlstore/scopes.go],
    [internal/sqlstore/runtime_scopes.go], [internal/runtime/scope_application.go])

    Scopes with their parents and references, the requests that created them, the
    default and the bindings; the transactions that change them; and the commands of
    the application. *)

From S2P Require Import Prelude.
From S2P Require Import GoStrings.
From S2P Require Import Json.
From S2P Require Import JsonWriter.
From S2P Require Import Sha256.
From S2P Require Import Refs.
From S2P Require Import Sql.
From S2P Require Import ArtifactStore.
From S2P Require Import Scope.

(** ** Tables ([schema.go]) *)

Record ScopeRow := MkScopeRow { sr_title : string; sr_summary : string; sr_parent : option string; sr_version : Z }.
Record ExternalRow := MkExternalRow { ex_kind : string; ex_value : string; ex_digest : string }.

Record ScopeTables := MkScopeTables {
  st_scopes : gmap string ScopeRow;
  st_contexts : gset (string * string);
  st_externals : gmap (string * Z) ExternalRow;
  st_requests : gmap string (string * string);
  st_settings : gmap string string;
  st_bindings : gmap (string * string * string) string
}.

Definition with_scopes m t := MkScopeTables m (st_contexts t) (st_externals t) (st_requests t) (st_settings t) (st_bindings t).
Definition with_contexts m t := MkScopeTables (st_scopes t) m (st_externals t) (st_requests t) (st_settings t) (st_bindings t).
Definition with_externals m t := MkScopeTables (st_scopes t) (st_contexts t) m (st_requests t) (st_settings t) (st_bindings t).
Definition with_requests m t := MkScopeTables (st_scopes t) (st_contexts t) (st_externals t) m (st_settings t) (st_bindings t).
Definition with_settings m t := MkScopeTables (st_scopes t) (st_contexts t) (st_externals t) (st_requests t) m (st_bindings t).
Definition with_bindings m t := MkScopeTables (st_scopes t) (st_contexts t) (st_externals t) (st_requests t) (st_settings t) m.

Definition there (t : ScopeTables) (id : string) : bool := bool_decide (is_Some (st_scopes t !! id)).

(** The foreign key of a parent. *)
Definition parent_there (m : gmap string ScopeRow) (parent : option string) : bool :=
  match parent with None => true | Some p => bool_decide (is_Some (m !! p)) end.

Definition null_if_empty (parent : string) : option string := if String.eqb parent "" then None else Some parent.

Definition value_digest (value : string) : string := hex_encode (sha256 (bytes_of value)).

Definition binding_row (key : BindingKey) : string * string * string := (bk_integration key, bk_kind key, bk_externalID key).

Definition ordinal_le (a b : Z * ExternalRow) : Prop := (fst a <= fst b)%Z.
#[export] Instance ordinal_le_dec a b : Decision (ordinal_le a b).
Proof. unfold ordinal_le. apply _. Defined.

(** The columns of the external references of a scope, by their ordinals. *)
Definition external_of (id : string) (e : string * Z * ExternalRow) : option (Z * ExternalRow) :=
  if String.eqb (fst (fst e)) id then Some (snd (fst e), snd e) else None.
Definition external_rows (t : ScopeTables) (id : string) : list ExternalRow :=
  map snd (merge_sort ordinal_le (omap (external_of id) (map_to_list (st_externals t)))).

(** The scopes that a scope refers to, in their order. *)
Definition context_ids (t : ScopeTables) (id : string) : list string :=
  merge_sort str_le (map snd (List.filter (fun r => String.eqb (fst r) id) (elements (st_contexts t)))).

Section scopes.
Context {T : Type} {H : Holds T ScopeTables}.

(** ** Statements *)

Definition insert_scope (id : string) (row : ScopeRow) : txn T unit :=
  on (fun t : ScopeTables =>
    let scopes := <[id := row]> (st_scopes t) in
    require negb (there t id) && parent_there scopes (sr_parent row) && (0 <? sr_version row) else SIntegrity in
    Ok (tt, with_scopes scopes t)).

(** The rows that [UPDATE pc_scopes ... AND version = ?] changed. *)
Definition update_scope (id : string) (row : ScopeRow) (expected : Z) : txn T Z :=
  on (fun t : ScopeTables =>
    match st_scopes t !! id with
    | Some old =>
        if sr_version old =? expected then
          require parent_there (st_scopes t) (sr_parent row) && (0 <? sr_version row) else SIntegrity in
          Ok (1, with_scopes (<[id := row]> (st_scopes t)) t)
        else Ok (0, t)
    | None => Ok (0, t)
    end).

Definition insert_context (id referenced : string) : txn T unit :=
  on (fun t : ScopeTables =>
    require bool_decide ((id, referenced) ∉ st_contexts t) && there t id && there t referenced && negb (String.eqb id referenced)
      else SIntegrity in
    Ok (tt, with_contexts ({[(id, referenced)]} ∪ st_contexts t) t)).

Definition insert_external (id : string) (ordinal : nat) (r : ExternalReference) : txn T unit :=
  on (fun t : ScopeTables =>
    let row := MkExternalRow (xr_kind r) (xr_value r) (value_digest (xr_value r)) in
    let same (entry : string * Z * ExternalRow) :=
      String.eqb (fst (fst entry)) id && String.eqb (ex_kind (snd entry)) (ex_kind row) && String.eqb (ex_digest (snd entry)) (ex_digest row) in
    require bool_decide (st_externals t !! (id, Z.of_nat ordinal) = None) && negb (existsb same (map_to_list (st_externals t))) && there t id
      else SIntegrity in
    Ok (tt, with_externals (<[(id, Z.of_nat ordinal) := row]> (st_externals t)) t)).

Definition delete_contexts (id : string) : txn T unit :=
  on (fun t : ScopeTables => Ok (tt, with_contexts (filter (fun r => fst r <> id) (st_contexts t)) t)).
Definition delete_externals (id : string) : txn T unit :=
  on (fun t : ScopeTables => Ok (tt, with_externals (filter (fun e => fst (fst e) <> id) (st_externals t)) t)).

Definition insert_request (key digest id : string) : txn T unit :=
  on (fun t : ScopeTables =>
    require bool_decide (st_requests t !! key = None) && there t id else SIntegrity in
    Ok (tt, with_requests (<[key := (digest, id)]> (st_requests t)) t)).

Definition update_setting (name id : string) : txn T Z :=
  on (fun t : ScopeTables =>
    match st_settings t !! name with
    | Some _ => require there t id else SIntegrity in Ok (1, with_settings (<[name := id]> (st_settings t)) t)
    | None => Ok (0, t)
    end).
Definition insert_setting (name id : string) : txn T unit :=
  on (fun t : ScopeTables =>
    require bool_decide (st_settings t !! name = None) && there t id else SIntegrity in
    Ok (tt, with_settings (<[name := id]> (st_settings t)) t)).

Definition update_binding (key : BindingKey) (id : string) : txn T Z :=
  on (fun t : ScopeTables =>
    match st_bindings t !! binding_row key with
    | Some _ => require there t id else SIntegrity in Ok (1, with_bindings (<[binding_row key := id]> (st_bindings t)) t)
    | None => Ok (0, t)
    end).
Definition insert_binding (key : BindingKey) (id : string) : txn T unit :=
  on (fun t : ScopeTables =>
    require bool_decide (st_bindings t !! binding_row key = None) && there t id else SIntegrity in
    Ok (tt, with_bindings (<[binding_row key := id]> (st_bindings t)) t)).
Definition delete_binding (key : BindingKey) : txn T Z :=
  on (fun t : ScopeTables =>
    Ok (match st_bindings t !! binding_row key with Some _ => 1 | None => 0 end, with_bindings (delete (binding_row key) (st_bindings t)) t)).

(** ** The repository *)

Definition sc {A} (r : scres A) : txn T A := tx_lift (map_err SScope r).

(** An update of no row, which takes the write lock. *)
Definition LockHierarchy : txn T unit := on (fun t : ScopeTables => Ok (tt, t)).

Definition loadScopeContextReferences (id : string) : txn T (list string) := read (fun t : ScopeTables => context_ids t id).

Definition loadScopeExternalReferences (id : string) : txn T (list ExternalReference) :=
  let! found := read (fun t : ScopeTables => external_rows t id) in
  sc (map_res (fun row => NewExternalReference (ex_kind row) (ex_value row)) found).

Definition loadScope (id : string) (row : ScopeRow) : txn T Descriptor :=
  let! contexts := loadScopeContextReferences id in
  let! externals := loadScopeExternalReferences id in
  sc (NewDescriptor id (sr_title row) (sr_summary row) (default "" (sr_parent row)) contexts externals (sr_version row)).

Definition GetScope (id : string) : txn T Descriptor :=
  let! row := read (fun t : ScopeTables => st_scopes t !! id) in
  match row with
  | None => sc (Err ScNoRows)
  | Some row => loadScope id row
  end.

Fixpoint load_all (found : list (string * ScopeRow)) : txn T (list Descriptor) :=
  match found with
  | [] => tx_ret []
  | (id, row) :: more =>
      let! d := loadScope id row in
      let! later := load_all more in
      tx_ret (d :: later)
  end.

Definition ListScopes : txn T (list Descriptor) :=
  let! found := read (fun t : ScopeTables => merge_sort (fun a b => str_le (fst a) (fst b)) (map_to_list (st_scopes t))) in
  load_all found.

Definition writeScopeRelationships (id : string) (m : metadata) : txn T unit :=
  let! _ := each (fun _ referenced => insert_context id referenced) 0 (md_contextReferences m) in
  each (fun ordinal r => insert_external id ordinal r) 0 (md_externalReferences m).

(** The JSON v2 text of a draft, which refuses invalid UTF-8. *)
Definition draft_json (m : metadata) : json :=
  JObj [("title", JStr (md_title m)); ("summary", JStr (md_summary m)); ("parent_scope_id", JStr (md_parentScopeID m));
        ("context_references", JArr (map JStr (md_contextReferences m)));
        ("external_references", JArr (map (fun r => JObj [("kind", JStr (xr_kind r)); ("value", JStr (xr_value r))]) (md_externalReferences m)))]%string.
Definition valid_text (s : string) : bool := utf8_valid (bytes_of s).
Definition draftDigest (d : Draft) : result store_error string :=
  let m := dr_metadata d in
  require forallb valid_text ([md_title m; md_summary m; md_parentScopeID m] ++ md_contextReferences m) &&
          forallb (fun r => valid_text (xr_kind r) && valid_text (xr_value r)) (md_externalReferences m) else SCodec "draft" in
  Ok (hex_encode (sha256 (json_bytes false false (draft_json m)))).

Definition findScopeCreation (key digest : string) : txn T (option Descriptor) :=
  let! request := read (fun t : ScopeTables => st_requests t !! key) in
  match request with
  | None => tx_ret None
  | Some (existingDigest, existingID) =>
      need String.eqb existingDigest digest else SScope ScIdempotency in
      let! value := GetScope existingID in
      tx_ret (Some value)
  end.

Definition row_of (m : metadata) (version : Z) : ScopeRow :=
  MkScopeRow (md_title m) (md_summary m) (null_if_empty (md_parentScopeID m)) version.

Definition CreateScope (id : string) (draft : Draft) : txn T Descriptor :=
  let m := dr_metadata draft in
  let! _ := sc (describe id m 1) in
  let! _ := sc (map_err (fun _ => ScValidation) (check_draft draft)) in
  let! digest := tx_lift (draftDigest draft) in
  let! existing := findScopeCreation (dr_idempotencyKey draft) digest in
  match existing with
  | Some existing => tx_ret existing
  | None =>
      let! _ := insert_scope id (row_of m 1) in
      let! _ := writeScopeRelationships id m in
      let! _ := insert_request (dr_idempotencyKey draft) digest id in
      GetScope id
  end.

Definition UpdateScope (id : string) (mutation : Mutation) : txn T Descriptor :=
  let m := mu_metadata mutation in
  let! affected := update_scope id (row_of m (wrap64 (mu_expectedVersion mutation + 1))) (mu_expectedVersion mutation) in
  if negb (affected =? 1) then
    let! current := GetScope id in
    sc (Err (ScVersion (mu_expectedVersion mutation) (de_version current)))
  else
    let! _ := delete_contexts id in
    let! _ := delete_externals id in
    let! _ := writeScopeRelationships id m in
    GetScope id.

Definition SetDefaultScope (id : string) : txn T unit :=
  let! affected := update_setting "default" id in
  if affected =? 0 then insert_setting "default" id else tx_ret tt.

Definition DefaultScope : txn T (option Descriptor) :=
  let! id := read (fun t : ScopeTables => st_settings t !! "default"%string) in
  match id with
  | None => tx_ret None
  | Some id => let! d := GetScope id in tx_ret (Some d)
  end.

Definition SetScopeBinding (key : BindingKey) (id : string) : txn T Binding :=
  let! _ := sc (NewBinding key id) in
  let! affected := update_binding key id in
  let! _ := (if affected =? 0 then insert_binding key id else tx_ret tt) in
  sc (NewBinding key id).

Definition ClearScopeBinding (key : BindingKey) : txn T bool :=
  let! count := delete_binding key in
  tx_ret (0 <? count).

Definition ScopeBinding (key : BindingKey) : txn T (option Binding) :=
  let! id := read (fun t : ScopeTables => st_bindings t !! binding_row key) in
  match id with
  | None => tx_ret None
  | Some id => let! b := sc (NewBinding key id) in tx_ret (Some b)
  end.

(** ** Transactions ([runtime_scopes.go]) *)

Definition requiredScopeError (e : store_error) : store_error := if bool_decide (e = SScope ScNoRows) then SScope ScNotFound else e.
(** A scope that has to be there. *)
Definition required {A} (m : txn T A) : txn T A := tx_catch m (fun e => tx_err (requiredScopeError e)).

Definition store_Create (id : string) (draft : Draft) (validate : list Descriptor -> scres unit) : txn T Descriptor :=
  Transaction (
    let! _ := LockHierarchy in
    let! digest := tx_lift (draftDigest draft) in
    let! existing := findScopeCreation (dr_idempotencyKey draft) digest in
    match existing with
    | Some existing => tx_ret existing
    | None =>
        let! scopes := ListScopes in
        let! _ := sc (validate scopes) in
        CreateScope id draft
    end).

Definition store_Update (id : string) (mutation : Mutation) (validate : list Descriptor -> scres unit) : txn T Descriptor :=
  Transaction (
    let! _ := LockHierarchy in
    let! current := required (GetScope id) in
    need de_version current =? mu_expectedVersion mutation else SScope (ScVersion (mu_expectedVersion mutation) (de_version current)) in
    let! scopes := ListScopes in
    let! _ := sc (validate scopes) in
    UpdateScope id mutation).

Definition store_BootstrapDefault (id : string) (draft : Draft) : txn T Descriptor :=
  Transaction (
    let! _ := LockHierarchy in
    let! existing := required DefaultScope in
    match existing with
    | Some existing => tx_ret existing
    | None =>
        let! created := CreateScope id draft in
        let! _ := SetDefaultScope (de_id created) in
        tx_ret created
    end).

Definition store_List : txn T (list Descriptor) := Transaction ListScopes.

(** None when there is no such scope. *)
Definition store_Get (id : string) : txn T (option Descriptor) :=
  tx_catch (let! d := Transaction (GetScope id) in tx_ret (Some d))
    (fun e => if bool_decide (e = SScope ScNoRows) then tx_ret None else tx_err e).

Definition store_SetDefault (id : string) : txn T Descriptor :=
  Transaction (
    let! _ := LockHierarchy in
    let! value := required (GetScope id) in
    let! _ := SetDefaultScope id in
    tx_ret value).

Definition store_Default : txn T (option Descriptor) := Transaction (required DefaultScope).

Definition store_SetBinding (key : BindingKey) (id : string) : txn T Binding :=
  Transaction (
    let! _ := LockHierarchy in
    let! _ := required (GetScope id) in
    SetScopeBinding key id).

Definition store_ClearBinding (key : BindingKey) : txn T bool :=
  Transaction (
    let! _ := LockHierarchy in
    ClearScopeBinding key).

Definition store_Binding (key : BindingKey) : txn T (option Binding) := Transaction (ScopeBinding key).

(** ** The application ([scope_application.go]), once an operation was admitted *)

Definition app_Create (newID : string) (draft : Draft) : txn T Descriptor :=
  let! _ := sc (map_err (fun _ => ScValidation) (check_draft draft)) in
  store_Create newID draft (fun scopes =>
    validateScopeRelationships scopes newID (md_parentScopeID (dr_metadata draft)) (md_contextReferences (dr_metadata draft))).

Definition app_Update (id : string) (mutation : Mutation) : txn T Descriptor :=
  let! _ := sc (map_err (fun _ => ScValidation) (check_mutation mutation)) in
  store_Update id mutation (fun scopes =>
    validateScopeRelationships scopes id (md_parentScopeID (mu_metadata mutation)) (md_contextReferences (mu_metadata mutation))).

Definition app_BootstrapDefault (newID : string) : txn T Descriptor :=
  let! draft := sc (NewDraft "Default" "Default context" "" [] [] "powercontext.default-scope.v1") in
  store_BootstrapDefault newID draft.

Definition found_scope (o : option Descriptor) (e : scope_error) : txn T Descriptor := sc (of_option o e).

Definition app_Get (id : string) : txn T Descriptor := let! value := store_Get id in found_scope value ScNotFound.
Definition app_List : txn T (list Descriptor) := let! values := store_List in tx_ret (by_id values).
Definition app_Default : txn T Descriptor := let! value := store_Default in found_scope value ScNotFound.
Definition app_SetDefault (id : string) : txn T Descriptor := store_SetDefault id.
Definition app_Bind (key : BindingKey) (id : string) : txn T Binding := store_SetBinding key id.
Definition app_ClearBinding (key : BindingKey) : txn T bool := store_ClearBinding key.

(** The scope of the first key that is bound, or the default. *)
Fixpoint resolve_keys (keys : list BindingKey) : txn T Descriptor :=
  match keys with
  | [] => let! value := store_Default in found_scope value ScBindingNotFound
  | key :: more =>
      let! binding := store_Binding key in
      match binding with
      | None => resolve_keys more
      | Some b => let! value := store_Get (bi_scopeID b) in found_scope value ScNotFound
      end
  end.

Definition app_Resolve (explicitID : option string) (keys : list BindingKey) : txn T Descriptor :=
  match explicitID with
  | Some id => let! value := store_Get id in found_scope value ScNotFound
  | None => resolve_keys keys
  end.

Definition app_ResolveSelection (selection : Selection) : txn T (list Descriptor) :=
  need match selection with OtherSelection _ => false | _ => true end else SScope ScValidation in
  let! scopes := store_List in
  sc (select selection scopes).
End scopes.

(** ** What the tables describe *)

(** The descriptor of a row, as [loadScope] reads it. *)
Definition load (t : ScopeTables) (id : string) (row : ScopeRow) : scres Descriptor :=
  let* externals := map_res (fun row => NewExternalReference (ex_kind row) (ex_value row)) (external_rows t id) in
  NewDescriptor id (sr_title row) (sr_summary row) (default ""%string (sr_parent row)) (context_ids t id) externals (sr_version row).

Definition described (t : ScopeTables) (id : string) : option Descriptor :=
  row ← st_scopes t !! id; match load t id row with Ok d => Some d | Err _ => None end.

Section reading.
Context {T : Type} {H : Holds T ScopeTables}.
Implicit Types s : SessionOf T.
Notation stored s := (rows (tables s) : ScopeTables).

Lemma loadScope_keeps id row : keeps (T := T) (loadScope id row).
Proof. unfold loadScope, loadScopeContextReferences, loadScopeExternalReferences, sc. keeps. Qed.

Lemma GetScope_keeps id : keeps (T := T) (GetScope id).
Proof. unfold GetScope, sc. apply keeps_bind; [apply keeps_read|]. intros [row|]; [apply loadScope_keeps|apply keeps_lift]. Qed.

Lemma load_all_keeps found : keeps (T := T) (load_all found).
Proof.
  induction found as [|[id row] found IH]; cbn; [apply keeps_ret|].
  apply keeps_bind; [apply loadScope_keeps|]. intros d. apply keeps_bind; [done|]. intros. apply keeps_ret.
Qed.

Lemma ListScopes_keeps : keeps (T := T) ListScopes.
Proof. apply keeps_bind; [apply keeps_read|]. intros. apply load_all_keeps. Qed.

Lemma findScopeCreation_keeps key digest : keeps (T := T) (findScopeCreation key digest).
Proof.
  unfold findScopeCreation. apply keeps_bind; [apply keeps_read|]. intros [[d i]|]; [|apply keeps_ret].
  apply keeps_bind; [apply keeps_check|]. intros _. apply keeps_bind; [apply GetScope_keeps|]. intros. apply keeps_ret.
Qed.

Lemma DefaultScope_keeps : keeps (T := T) DefaultScope.
Proof.
  unfold DefaultScope. apply keeps_bind; [apply keeps_read|]. intros [id|]; [|apply keeps_ret].
  apply keeps_bind; [apply GetScope_keeps|]. intros. apply keeps_ret.
Qed.

Lemma required_keeps {A} (m : txn T A) : keeps m -> keeps (required m).
Proof. intros Hm. apply keeps_catch; [done|]. intros. apply keeps_err. Qed.

Lemma loadScope_ok id row s d s' : loadScope id row s = (Ok d, s') -> load (stored s) id row = Ok d.
Proof.
  unfold loadScope, loadScopeContextReferences, loadScopeExternalReferences, sc. intros E. tx_inv E. tx_pure.
  tx_inv Ha0. tx_pure. apply read_ok in Ha as [-> E1]. apply read_ok in Ha1 as [-> E2]. rewrite E1 in *.
  unfold load. by rewrite Heqr0.
Qed.

Lemma loadScope_reads id row (t : T) : reads (loadScope id row) t (map_err SScope (load (rows t) id row)).
Proof.
  unfold loadScope, loadScopeContextReferences, loadScopeExternalReferences, sc, load.
  eapply reads_bind; [apply reads_read|]. destruct (map_res _ _) as [xs|e] eqn:E.
  - eapply reads_bind; [|apply reads_lift]. eapply reads_bind; [apply reads_read|]. rewrite E. apply reads_lift.
  - unfold reads, tx_bind, read, query, statement. cbn. by rewrite E.
Qed.

Lemma load_id t id row d : load t id row = Ok d -> de_id d = id /\ de_version d = sr_version row /\
  ParentScopeID d = default ""%string (sr_parent row) /\ 1 <= sr_version row.
Proof.
  unfold load, NewDescriptor, newMetadata. intros E. bind_inv E. bind_inv Ha1. ok_inv. boolify. subst. cbn. split_and!; [done..|lia].
Qed.

Lemma described_some t id d : described t id = Some d <-> exists row, st_scopes t !! id = Some row /\ load t id row = Ok d.
Proof.
  unfold described. destruct (st_scopes t !! id) as [row|]; cbn; [|split; [done|by intros (? & [=] & _)]]. split.
  - destruct (load t id row) as [d'|e] eqn:E; [|done]. intros [= ->]. by exists row.
  - intros (? & [= <-] & ->). done.
Qed.

Lemma GetScope_ok id s d s' : GetScope id s = (Ok d, s') -> described (stored s) id = Some d.
Proof.
  unfold GetScope, sc. intros E. tx_inv E. apply read_ok in Ha as [-> E1].
  destruct (st_scopes _ !! id) as [row|] eqn:Er; [|tx_pure; done].
  apply loadScope_ok in E. rewrite E1 in E. apply described_some. eauto.
Qed.

Lemma GetScope_reads id (t : T) d : described (rows t) id = Some d -> reads (GetScope id) t (Ok d).
Proof.
  intros (row & Er & E)%described_some. unfold GetScope. eapply reads_bind; [apply reads_read|]. rewrite Er.
  pose proof (loadScope_reads id row t) as Hl. by rewrite E in Hl.
Qed.

Lemma load_all_ok found : forall s ds s', load_all found s = (Ok ds, s') ->
  Forall2 (fun entry d => load (stored s) (fst entry) (snd entry) = Ok d) found ds.
Proof.
  induction found as [|[id row] found IH]; intros s ds s' E; cbn in E; [tx_pure; constructor|].
  tx_inv E. tx_pure. apply loadScope_keeps in Ha as E1. constructor; [by eapply loadScope_ok|].
  apply IH in Ha0. by rewrite E1 in Ha0.
Qed.

Lemma ListScopes_ok s ds s' : ListScopes s = (Ok ds, s') ->
  NoDup (map de_id ds) /\ (forall d, d ∈ ds <-> described (stored s) (de_id d) = Some d) /\
  forall id row, st_scopes (stored s) !! id = Some row -> is_Some (described (stored s) id).
Proof.
  unfold ListScopes. intros E. tx_inv E. apply read_ok in Ha as [-> E1]. apply load_all_ok in E. rewrite E1 in E.
  set (found := merge_sort _ _) in E. set (t := stored s) in *.
  assert (Hf : forall id row, (id, row) ∈ found <-> st_scopes t !! id = Some row).
  { intros id row. unfold found. rewrite merge_sort_Permutation. apply elem_of_map_to_list. }
  assert (Hnd : NoDup (map fst found)).
  { unfold found. rewrite merge_sort_Permutation. apply NoDup_fst_map_to_list. }
  assert (Hids : map de_id ds = map fst found).
  { clear Hf Hnd. induction E as [|[id row] d found' ds' Hd _ IH]; [done|]. cbn. apply load_id in Hd as (-> & _). by rewrite IH. }
  assert (Hd : forall d, d ∈ ds <-> exists row, (de_id d, row) ∈ found /\ load t (de_id d) row = Ok d).
  { clear Hf Hnd Hids. induction E as [|[id row] d found' ds' Hd _ IH]; intros x.
    - split; [by intros ?%elem_of_nil|by intros (? & ?%elem_of_nil & _)].
    - apply load_id in Hd as Hi. destruct Hi as [Hi _]. cbn in *. subst id. rewrite elem_of_cons, IH. split.
      + intros [->|(r & ? & ?)]; [exists row; split; [left|done]|exists r; split; [by right|done]].
      + intros (r & [[= Ei <-]|Hr]%elem_of_cons & Hx); [left|right; eauto]. rewrite Ei in Hx. congruence. }
  split_and!; [by rewrite Hids| |].
  - intros d. rewrite Hd, described_some. split; intros (row & H1 & H2); exists row; (split; [by apply Hf|done]).
  - intros id row Hr. apply Hf, list_elem_of_lookup in Hr as [k Hk].
    destruct (Forall2_lookup_l _ _ _ _ _ E Hk) as (d & _ & Hl). exists d. apply described_some. exists row.
    split; [|done]. by apply Hf, (list_elem_of_lookup_2 _ k).
Qed.
End reading.

(** ** The references of a scope *)

Lemma elem_of_context_ids t id r : r ∈ context_ids t id <-> (id, r) ∈ st_contexts t.
Proof.
  unfold context_ids. rewrite merge_sort_Permutation, list_elem_of_fmap. split.
  - intros ([a b] & -> & Hx). apply list_elem_of_In, filter_In in Hx as [Hx E%String.eqb_eq]. cbn in *. subst a.
    by apply list_elem_of_In, elem_of_elements in Hx.
  - intros Hx. exists (id, r). split; [done|]. apply list_elem_of_In, filter_In. split; [|apply String.eqb_refl].
    by apply list_elem_of_In, elem_of_elements.
Qed.

Lemma context_ids_once t id : NoDup (context_ids t id).
Proof.
  unfold context_ids. rewrite merge_sort_Permutation. apply NoDup_fmap_2_strong.
  - intros [a b] [a' b'] Ha Hb. apply list_elem_of_In, filter_In in Ha as [_ Ea%String.eqb_eq], Hb as [_ Eb%String.eqb_eq].
    cbn in *. congruence.
  - apply NoDup_ListNoDup, List.NoDup_filter, NoDup_ListNoDup, NoDup_elements.
Qed.

Lemma context_ids_sorted t id : Sorted str_le (context_ids t id).
Proof. apply Sorted_merge_sort; apply _. Qed.

Lemma context_ids_unique t id l : NoDup l -> Sorted str_le l -> (forall r, r ∈ l <-> (id, r) ∈ st_contexts t) -> context_ids t id = l.
Proof.
  intros Hn Hs Hl. apply (Sorted_unique str_le); [apply context_ids_sorted|done|].
  apply NoDup_Permutation; [apply context_ids_once|done|]. intros r. by rewrite elem_of_context_ids, Hl.
Qed.

#[export] Instance ordinal_le_total : Total ordinal_le.
Proof. intros [a ?] [b ?]. unfold ordinal_le. cbn. lia. Qed.
#[export] Instance ordinal_le_trans : Transitive ordinal_le.
Proof. intros [a ?] [b ?] [c ?]. unfold ordinal_le. cbn. lia. Qed.

Definition entries (t : ScopeTables) (id : string) : list (Z * ExternalRow) := omap (external_of id) (map_to_list (st_externals t)).

Lemma elem_of_entries t id o row : (o, row) ∈ entries t id <-> st_externals t !! (id, o) = Some row.
Proof.
  unfold entries. rewrite list_elem_of_omap. split.
  - intros ([[i o'] r] & Hx & E). unfold external_of in E. cbn in E. destruct (String.eqb_spec i id) as [->|]; [|done].
    injection E as -> ->. by apply elem_of_map_to_list in Hx.
  - intros E. exists (id, o, row). split; [by apply elem_of_map_to_list|]. unfold external_of. cbn. by rewrite String.eqb_refl.
Qed.

Lemma entries_once t id : NoDup (map fst (entries t id)).
Proof.
  unfold entries. pose proof (NoDup_fst_map_to_list (st_externals t)) as Hn.
  induction (map_to_list (st_externals t)) as [|[[i o] r] l IH]; [constructor|]. cbn in Hn |- *.
  apply NoDup_cons in Hn as [Hx Hn]. specialize (IH Hn). unfold external_of at 1. cbn.
  destruct (String.eqb_spec i id) as [->|]; [|done]. cbn. constructor; [|done]. intros Ho. apply Hx.
  apply list_elem_of_fmap in Ho as ([o' r'] & E & Hy). cbn in E. subst o'.
  apply list_elem_of_omap in Hy as ([[i' o''] r''] & Hy & E). unfold external_of in E. cbn in E.
  destruct (String.eqb_spec i' id) as [->|]; [|done]. injection E as -> ->. apply list_elem_of_fmap. by exists (id, o, r').
Qed.

Lemma external_rows_unique t id l :
  NoDup (map fst l) -> Sorted ordinal_le l -> (forall o row, (o, row) ∈ l <-> st_externals t !! (id, o) = Some row) ->
  external_rows t id = map snd l.
Proof.
  intros Hn Hs Hl. unfold external_rows. f_equal. fold (entries t id).
  apply (Sorted_unique_strong ordinal_le).
  - intros [o1 r1] [o2 r2] H1 H2 L1 L2. unfold ordinal_le in *. cbn in *. assert (o1 = o2) as -> by lia.
    rewrite merge_sort_Permutation, elem_of_entries in H1. apply Hl in H2. congruence.
  - apply Sorted_merge_sort; apply _.
  - done.
  - rewrite merge_sort_Permutation. apply NoDup_Permutation.
    + by eapply NoDup_fmap_1, entries_once.
    + by eapply NoDup_fmap_1.
    + intros [o r]. by rewrite elem_of_entries, Hl.
Qed.

(** A scope reads the same where its row and its references are the same. *)
Lemma context_ids_same t t' id : (forall r, (id, r) ∈ st_contexts t' <-> (id, r) ∈ st_contexts t) -> context_ids t' id = context_ids t id.
Proof.
  intros E. apply context_ids_unique; [apply context_ids_once|apply context_ids_sorted|]. intros r. by rewrite elem_of_context_ids.
Qed.

Lemma external_rows_same t t' id : (forall o, st_externals t' !! (id, o) = st_externals t !! (id, o)) -> external_rows t' id = external_rows t id.
Proof.
  intros E. unfold external_rows at 2. fold (entries t id). apply external_rows_unique.
  - rewrite merge_sort_Permutation. apply entries_once.
  - apply Sorted_merge_sort; apply _.
  - intros o row. by rewrite merge_sort_Permutation, elem_of_entries, E.
Qed.

Lemma described_same t t' id :
  st_scopes t' !! id = st_scopes t !! id -> (forall r, (id, r) ∈ st_contexts t' <-> (id, r) ∈ st_contexts t) ->
  (forall o, st_externals t' !! (id, o) = st_externals t !! (id, o)) -> described t' id = described t id.
Proof.
  intros E1 E2 E3. unfold described, load. by rewrite E1, (context_ids_same t t' id E2), (external_rows_same t t' id E3).
Qed.

(** ** What is written *)

Definition external_row (r : ExternalReference) : ExternalRow := MkExternalRow (xr_kind r) (xr_value r) (value_digest (xr_value r)).

Fixpoint put_externals (id : string) (ordinal : nat) (rs : list ExternalReference) (m : gmap (string * Z) ExternalRow) : gmap (string * Z) ExternalRow :=
  match rs with
  | [] => m
  | r :: more => put_externals id (S ordinal) more (<[(id, Z.of_nat ordinal) := external_row r]> m)
  end.

Definition put_references (id : string) (m : metadata) (t : ScopeTables) : ScopeTables :=
  with_externals (put_externals id 0 (md_externalReferences m) (st_externals t))
    (with_contexts (list_to_set (map (pair id) (md_contextReferences m)) ∪ st_contexts t) t).

Definition clear_references (id : string) (t : ScopeTables) : ScopeTables :=
  with_externals (filter (fun e => fst (fst e) <> id) (st_externals t)) (with_contexts (filter (fun r => fst r <> id) (st_contexts t)) t).

(** What a scope holds once it was stored: its references in order. *)
Definition canonical (m : metadata) : metadata :=
  MkMetadata (md_title m) (md_summary m) (md_parentScopeID m) (merge_sort str_le (md_contextReferences m)) (md_externalReferences m).

Lemma put_externals_lookup id rs : forall ordinal m i o,
  put_externals id ordinal rs m !! (i, o) =
  if bool_decide (i = id) && (Z.of_nat ordinal <=? o) && (o <? Z.of_nat (ordinal + length rs))
  then external_row <$> rs !! Z.to_nat (o - Z.of_nat ordinal) else m !! (i, o).
Proof.
  induction rs as [|r rs IH]; intros ordinal m i o; cbn [put_externals length].
  { rewrite Nat.add_0_r. destruct (bool_decide _); cbn; [|done]. destruct (Z.leb_spec (Z.of_nat ordinal) o), (Z.ltb_spec o (Z.of_nat ordinal)); try done; lia. }
  rewrite IH. case_bool_decide as Hi; cbn [andb]; [subst i|by rewrite lookup_insert_ne by congruence].
  destruct (Z.leb_spec (Z.of_nat (S ordinal)) o), (Z.ltb_spec o (Z.of_nat (S ordinal + length rs))),
    (Z.leb_spec (Z.of_nat ordinal) o), (Z.ltb_spec o (Z.of_nat (ordinal + S (length rs)))); cbn [andb]; try lia;
    try (rewrite lookup_insert_ne by (intros [=]; lia); done).
  - replace (Z.to_nat (o - Z.of_nat ordinal)) with (S (Z.to_nat (o - Z.of_nat (S ordinal)))) by lia. done.
  - assert (o = Z.of_nat ordinal) as -> by lia. rewrite lookup_insert_eq, Z.sub_diag. done.
Qed.

(** The rows of external references, from an ordinal on. *)
Fixpoint numbered (ordinal : nat) (rs : list ExternalReference) : list (Z * ExternalRow) :=
  match rs with
  | [] => []
  | r :: more => (Z.of_nat ordinal, external_row r) :: numbered (S ordinal) more
  end.

Lemma elem_of_numbered rs : forall n o row,
  (o, row) ∈ numbered n rs <-> exists k, o = Z.of_nat (n + k) /\ exists r, rs !! k = Some r /\ row = external_row r.
Proof.
  induction rs as [|r rs IH]; intros n o row; cbn [numbered].
  - split; [by intros ?%elem_of_nil|by intros (k & _ & r & Hr & _)].
  - rewrite elem_of_cons, IH. split.
    + intros [[= -> ->]|(k & -> & Hk)]; [exists 0%nat; split; [lia|by exists r]|exists (S k); split; [lia|done]].
    + intros ([|k] & -> & r' & Hr & ->); [left; injection Hr as ->; f_equal; lia|right; exists k; split; [lia|by exists r']].
Qed.

Lemma numbered_once rs n : NoDup (map fst (numbered n rs)).
Proof.
  revert n. induction rs as [|r rs IH]; intros n; cbn; constructor; [|done].
  intros ([o row] & E & Hx)%list_elem_of_fmap. apply elem_of_numbered in Hx as (k & -> & _). cbn in E. lia.
Qed.

Lemma numbered_sorted rs n : Sorted ordinal_le (numbered n rs).
Proof.
  apply StronglySorted_Sorted. revert n. induction rs as [|r rs IH]; intros n; cbn; constructor; [done|].
  apply Forall_forall. intros [o row] Hx. apply elem_of_numbered in Hx as (k & -> & _). unfold ordinal_le. cbn. lia.
Qed.

Lemma numbered_rows rs n : map snd (numbered n rs) = map external_row rs.
Proof. revert n. induction rs as [|r rs IH]; intros n; [done|]. cbn. by rewrite IH. Qed.

Section written.
Context (t : ScopeTables) (id : string) (m : metadata).
Hypothesis no_contexts : forall r, (id, r) ∉ st_contexts t.
Hypothesis no_externals : forall o, st_externals t !! (id, o) = None.
Hypothesis refs_once : NoDup (md_contextReferences m).

Lemma context_ids_written : context_ids (put_references id m t) id = merge_sort str_le (md_contextReferences m).
Proof.
  apply context_ids_unique; [by rewrite merge_sort_Permutation|apply Sorted_merge_sort; apply _|].
  intros r. rewrite merge_sort_Permutation. cbn. rewrite elem_of_union, elem_of_list_to_set, list_elem_of_fmap. split.
  - intros Hr. left. by exists r.
  - intros [(r' & [= <-] & Hr)|Hr]; [done|by apply no_contexts in Hr].
Qed.

Lemma external_rows_written : external_rows (put_references id m t) id = map external_row (md_externalReferences m).
Proof.
  assert (Hl : forall o row, (o, row) ∈ numbered 0 (md_externalReferences m) <-> st_externals (put_references id m t) !! (id, o) = Some row).
  { intros o row. cbn. rewrite elem_of_numbered, put_externals_lookup, no_externals, bool_decide_true by done. cbn [andb].
    destruct (Z.leb_spec (Z.of_nat 0) o); cbn [andb]; [|split; [intros (k & -> & _); lia|done]]. split.
    - intros (k & -> & r & Hr & ->). apply lookup_lt_Some in Hr as Hk.
      destruct (Z.ltb_spec (Z.of_nat (0 + k)) (Z.of_nat (0 + length (md_externalReferences m)))); [|lia].
      replace (Z.to_nat _) with k by lia. by rewrite Hr.
    - destruct (Z.ltb_spec o (Z.of_nat (0 + length (md_externalReferences m)))); [|done].
      intros (r & Hr & ->)%fmap_Some. exists (Z.to_nat (o - Z.of_nat 0)). split; [lia|eauto]. }
  rewrite (external_rows_unique _ _ _ (numbered_once _ 0) (numbered_sorted _ 0) Hl). apply numbered_rows.
Qed.
End written.

(** ** The statements *)

Section statements.
Context {T : Type} {H : Holds T ScopeTables}.
Implicit Types s : SessionOf T.
Notation stored s := (rows (tables s) : ScopeTables).

Lemma on_stored {A} (f : ScopeTables -> result store_error (A * ScopeTables)) s a s' :
  on f s = (Ok a, s') -> f (stored s) = Ok (a, stored s').
Proof. intros (r & E & E')%on_ok. by rewrite E', rows_with. Qed.

(** Reads a statement that succeeded. *)
Ltac on_inv E :=
  apply on_stored in E; cbv zeta in E; bind_inv E; ok_inv; boolify;
  repeat match goal with
  | H : (_, _) = (_, _) |- _ => injection H as ? H
  end.

Ltac restore := repeat match goal with Hs : _ = rows (tables _) |- _ => rewrite <- Hs in *; clear Hs end.

Lemma insert_contexts_ok id rs : forall n s u s', each (fun _ r => insert_context id r) n rs s = (Ok u, s') ->
  stored s' = with_contexts (list_to_set (map (pair id) rs) ∪ st_contexts (stored s)) (stored s) /\
  NoDup rs /\ forall r, r ∈ rs -> (id, r) ∉ st_contexts (stored s) /\ there (stored s) r = true /\ id <> r.
Proof.
  induction rs as [|r rs IH]; intros n s u s' E; cbn [each] in E.
  { tx_pure. split_and!; [|constructor|by intros ? ?%elem_of_nil]. destruct (stored s). unfold with_contexts. cbn. f_equal. set_solver. }
  tx_inv E. on_inv Ha. apply IH in E as (E & Hn & Hall). 
  restore. cbn in E, Hall. split_and!.
  - rewrite E. unfold with_contexts. cbn. f_equal. set_solver.
  - constructor; [|done]. intros Hr. apply Hall in Hr as [Hr _]. set_solver.
  - apply String.eqb_neq in H2. intros x [->|Hx]%elem_of_cons; [done|]. apply Hall in Hx as (Hx & ? & ?). split; [set_solver|done].
Qed.

Lemma insert_externals_ok id rs : forall n s u s', each (insert_external id) n rs s = (Ok u, s') ->
  stored s' = with_externals (put_externals id n rs (st_externals (stored s))) (stored s).
Proof.
  induction rs as [|r rs IH]; intros n s u s' E; cbn [each] in E.
  { tx_pure. by destruct (stored s). }
  tx_inv E. on_inv Ha. apply IH in E. restore. rewrite E. done.
Qed.

Lemma writeScopeRelationships_ok id m s u s' : writeScopeRelationships id m s = (Ok u, s') ->
  stored s' = put_references id m (stored s) /\ NoDup (md_contextReferences m) /\
  forall r, r ∈ md_contextReferences m -> there (stored s) r = true /\ id <> r.
Proof.
  unfold writeScopeRelationships. intros E. tx_inv E. apply insert_contexts_ok in Ha as (E1 & Hn & Hall).
  apply insert_externals_ok in E. rewrite E1 in E. split_and!; [by rewrite E|done|]. intros r Hr. by apply Hall.
Qed.

Lemma insert_scope_ok id row s u s' : insert_scope id row s = (Ok u, s') ->
  stored s' = with_scopes (<[id := row]> (st_scopes (stored s))) (stored s) /\ st_scopes (stored s) !! id = None /\
  parent_there (<[id := row]> (st_scopes (stored s))) (sr_parent row) = true /\ 0 < sr_version row.
Proof.
  intros E. on_inv E. unfold there in *. boolify. split_and!; [done|by apply eq_None_not_Some|done|lia].
Qed.

Lemma update_scope_ok id row expected s n s' : update_scope id row expected s = (Ok n, s') ->
  (n = 1 /\ stored s' = with_scopes (<[id := row]> (st_scopes (stored s))) (stored s) /\
   (exists old, st_scopes (stored s) !! id = Some old /\ sr_version old = expected) /\
   parent_there (st_scopes (stored s)) (sr_parent row) = true /\ 0 < sr_version row) \/
  (n = 0 /\ stored s' = stored s).
Proof.
  unfold update_scope. intros E. apply on_stored in E. destruct (st_scopes (stored s) !! id) as [old|]; [|right; by injection E as <- <-].
  destruct (Z.eqb_spec (sr_version old) expected) as [Hv|]; [|right; by injection E as <- <-].
  left. bind_inv E. ok_inv. boolify. subst n. restore. split_and!; [done|done|by exists old|done|lia].
Qed.

Lemma clear_references_ok id s u s1 u' s' : delete_contexts id s = (Ok u, s1) -> delete_externals id s1 = (Ok u', s') ->
  stored s' = clear_references id (stored s).
Proof. intros E1 E2. on_inv E1. on_inv E2. restore. done. Qed.

Lemma insert_request_ok key digest id s u s' : insert_request key digest id s = (Ok u, s') ->
  stored s' = with_requests (<[key := (digest, id)]> (st_requests (stored s))) (stored s) /\
  st_requests (stored s) !! key = None /\ there (stored s) id = true.
Proof. intros E. on_inv E. done. Qed.

Lemma NewBinding_ok key id b : NewBinding key id = Ok b -> b = MkBinding key id.
Proof. unfold NewBinding. intros E. bind_inv E. by ok_inv. Qed.

(** An update that falls back to an insertion. *)
Lemma SetDefaultScope_ok id s u s' : SetDefaultScope id s = (Ok u, s') ->
  stored s' = with_settings (<["default"%string := id]> (st_settings (stored s))) (stored s) /\ there (stored s) id = true.
Proof.
  unfold SetDefaultScope. intros E. tx_inv E. apply on_stored in Ha. destruct (st_settings (stored s) !! "default"%string) eqn:Hs.
  - bind_inv Ha. ok_inv. boolify. subst a. cbn in E. tx_pure. restore. done.
  - injection Ha as <- Ha. cbn in E. on_inv E. rewrite <- Ha in *. done.
Qed.

Lemma SetScopeBinding_ok key id s b s' : SetScopeBinding key id s = (Ok b, s') ->
  stored s' = with_bindings (<[binding_row key := id]> (st_bindings (stored s))) (stored s) /\ there (stored s) id = true /\
  b = MkBinding key id.
Proof.
  unfold SetScopeBinding, sc. intros E. tx_inv E. tx_pure. apply NewBinding_ok in Heqr. ok_inv. subst a3 a2.
  apply on_stored in Ha0. destruct (st_bindings (stored s) !! binding_row key) eqn:Hs.
  - bind_inv Ha0. ok_inv. boolify. subst a0. cbn in Ha1. tx_pure. restore. done.
  - injection Ha0 as <- Ha0. cbn in Ha1. on_inv Ha1. rewrite <- Ha0 in *. done.
Qed.

Lemma ClearScopeBinding_ok key s b s' : ClearScopeBinding key s = (Ok b, s') ->
  stored s' = with_bindings (delete (binding_row key) (st_bindings (stored s))) (stored s) /\
  b = bool_decide (is_Some (st_bindings (stored s) !! binding_row key)).
Proof.
  unfold ClearScopeBinding. intros E. tx_inv E. tx_pure. on_inv Ha. restore. subst a. split; [done|].
  by destruct (st_bindings (stored s) !! binding_row key).
Qed.
End statements.

(** ** The shape of the tables *)

(** [p] is the parent of [c] in the rows. *)
Definition parent_row (m : gmap string ScopeRow) (p c : string) : Prop :=
  exists row, m !! c = Some row /\ sr_parent row = Some p.

Record organized (t : ScopeTables) : Prop := {
  scopes_read id row : st_scopes t !! id = Some row -> is_Some (described t id);
  scopes_named id : is_Some (st_scopes t !! id) -> id <> ""%string;
  versions_fit id row : st_scopes t !! id = Some row -> sr_version row <= max_int64;
  parents_stored id row : st_scopes t !! id = Some row -> parent_there (st_scopes t) (sr_parent row) = true;
  parents_end : well_founded (parent_row (st_scopes t));
  contexts_stored a b : (a, b) ∈ st_contexts t -> there t a = true /\ there t b = true /\ a <> b;
  externals_stored a o : is_Some (st_externals t !! (a, o)) -> there t a = true;
  requests_stored key digest id : st_requests t !! key = Some (digest, id) -> there t id = true;
  settings_stored name id : st_settings t !! name = Some id -> there t id = true;
  bindings_stored key id : st_bindings t !! key = Some id -> there t id = true
}.

Lemma there_iff t id : there t id = true <-> is_Some (st_scopes t !! id).
Proof. apply bool_decide_eq_true. Qed.

(** The tables with the row and the references of one scope replaced. *)
Definition store_scope (id : string) (m : metadata) (version : Z) (t : ScopeTables) : ScopeTables :=
  put_references id m (clear_references id (with_scopes (<[id := row_of m version]> (st_scopes t)) t)).

(** Where a scope may be put: its parent is stored and not below it, and it refers to
    other scopes that are stored. *)
Definition placed (t : ScopeTables) (id : string) (m : metadata) : Prop :=
  (md_parentScopeID m <> ""%string ->
     there t (md_parentScopeID m) = true /\ ~ rtc (parent_row (st_scopes t)) id (md_parentScopeID m)) /\
  (forall r, r ∈ md_contextReferences m -> there t r = true /\ r <> id).

Lemma null_if_empty_default parent : default ""%string (null_if_empty parent) = parent.
Proof. unfold null_if_empty. by destruct (String.eqb_spec parent "") as [->|]. Qed.

Lemma canonical_sorted l l' : canonicalScopeIDs (merge_sort str_le l) false = Ok l' -> l' = merge_sort str_le l.
Proof.
  unfold canonicalScopeIDs. intros E. bind_inv E. ok_inv. subst l'.
  apply (Sorted_unique str_le); [apply Sorted_merge_sort; apply _..|apply merge_sort_Permutation].
Qed.

Section store_scope.
Context (t : ScopeTables) (id : string) (m : metadata) (version : Z).
Notation t' := (store_scope id m version t).

Lemma there_store x : there t' x = true <-> x = id \/ there t x = true.
Proof.
  rewrite !there_iff. cbn. destruct (decide (x = id)) as [->|Hne].
  - rewrite lookup_insert_eq. split; eauto.
  - rewrite lookup_insert_ne by done. naive_solver.
Qed.

Lemma contexts_store a b : (a, b) ∈ st_contexts t' <-> if decide (a = id) then b ∈ md_contextReferences m else (a, b) ∈ st_contexts t.
Proof.
  cbn. rewrite elem_of_union, elem_of_list_to_set, list_elem_of_fmap, elem_of_filter. cbn. destruct (decide (a = id)) as [->|Hne].
  - split; [intros [(r & [= ->] & Hr)|[Hr _]]; done|]. intros Hb. left. by exists b.
  - split; [intros [(r & [= ->] & Hr)|[_ Hr]]; done|]. intros Hb. by right.
Qed.

Lemma externals_store a o : a <> id -> st_externals t' !! (a, o) = st_externals t !! (a, o).
Proof.
  intros Hne. cbn. rewrite put_externals_lookup, bool_decide_false by done. cbn. 
  destruct (st_externals t !! (a, o)) as [row|] eqn:E.
  - apply map_lookup_filter_Some. done.
  - apply map_lookup_filter_None. by left.
Qed.

Lemma described_others a : a <> id -> described t' a = described t a.
Proof.
  intros Hne. apply described_same.
  - cbn. by rewrite lookup_insert_ne.
  - intros r. rewrite contexts_store. by destruct (decide (a = id)).
  - intros o. by apply externals_store.
Qed.

(** A scope that was stored reads as what was written. *)
Lemma described_stored d : NoDup (md_contextReferences m) -> described t' id = Some d -> d = MkDescriptor id (canonical m) version.
Proof.
  intros Hn (row & Hr & E)%described_some. cbn in Hr. rewrite lookup_insert_eq in Hr. injection Hr as <-.
  unfold load in E. unfold store_scope in E.
  rewrite context_ids_written, external_rows_written in E; [|..|done].
  2:{ intros o. cbn. apply map_lookup_filter_None. right. cbn. intros x _ Hx. done. }
  2:{ intros r. cbn. rewrite elem_of_filter. cbn. naive_solver. }
  unfold NewDescriptor, newMetadata in E. bind_inv E. bind_inv Ha1. ok_inv. subst. unfold canonical. f_equal.
  f_equal; [apply null_if_empty_default|by apply canonical_sorted|].
  clear -Ha. revert a Ha. induction (md_externalReferences m) as [|[k v] rs IH]; intros a E; cbn in E; bind_inv E; ok_inv; [done|].
  subst a. unfold NewExternalReference in Ha. bind_inv Ha. ok_inv. subst a0. f_equal. by apply IH.
Qed.
End store_scope.

(** ** The shape is kept *)

Lemma described_named t id d : described t id = Some d -> de_id d = id.
Proof. intros (row & _ & E)%described_some. by apply load_id in E as (? & _). Qed.

Lemma parent_there_some m p : parent_there m (Some p) = true <-> is_Some (m !! p).
Proof. apply bool_decide_eq_true. Qed.

Lemma store_scope_organized t id m version d :
  organized t -> placed t id m -> id <> ""%string -> version <= max_int64 ->
  described (store_scope id m version t) id = Some d -> organized (store_scope id m version t).
Proof.
  intros [Hr Hnm Hv Hp Hw Hc He Hq Hs Hb] [Hpl Hrefs] Hid Hver Hd.
  assert (Hkeep : forall x, there t x = true -> there (store_scope id m version t) x = true).
  { intros x Hx. apply there_store. by right. }
  split.
  - intros x row Hx. destruct (decide (x = id)) as [->|Hne]; [by exists d|]. rewrite described_others by done.
    cbn in Hx. rewrite lookup_insert_ne in Hx by done. by eapply Hr.
  - intros x Hx. apply there_iff, there_store in Hx as [->|Hx]; [done|]. by apply Hnm, there_iff.
  - cbn. intros x row Hx. apply lookup_insert_Some in Hx as [[<- <-]|[Hne Hx]]; [done|by eapply Hv].
  - intros x row Hx. destruct (sr_parent row) as [p|] eqn:Ep; [|done]. apply parent_there_some, there_iff, there_store.
    cbn in Hx. apply lookup_insert_Some in Hx as [[<- <-]|[Hne Hx]].
    + cbn in Ep. unfold null_if_empty in Ep. destruct (String.eqb_spec (md_parentScopeID m) ""); [done|].
      injection Ep as <-. right. by apply Hpl.
    + apply Hp in Hx. rewrite Ep in Hx. right. by apply there_iff, parent_there_some.
  - apply (wf_mutate (parent_row (st_scopes t)) _ id); [done| |]; cbn.
    + intros p c (row & Hx & Ep) Hne. rewrite lookup_insert_ne in Hx by done. by exists row.
    + intros p (row & Hx & Ep). rewrite lookup_insert_eq in Hx. injection Hx as <-. cbn in Ep. unfold null_if_empty in Ep.
      destruct (String.eqb_spec (md_parentScopeID m) ""); [done|]. injection Ep as <-. by apply Hpl.
  - intros a b Hab. apply contexts_store in Hab. destruct (decide (a = id)) as [->|Hne].
    + apply Hrefs in Hab as [Hb' Hne]. split_and!; [apply there_store; by left|by apply Hkeep|done].
    + apply Hc in Hab as (? & ? & ?). auto.
  - intros a o Ho. destruct (decide (a = id)) as [->|Hne]; [apply there_store; by left|].
    rewrite externals_store in Ho by done. apply Hkeep. by eapply He.
  - intros key digest x Hx. apply Hkeep. by eapply Hq.
  - intros name x Hx. apply Hkeep. by eapply Hs.
  - intros key x Hx. apply Hkeep. by eapply Hb.
Qed.

(** A new scope has no references to clear. *)
Lemma clear_fresh t id : organized t -> st_scopes t !! id = None -> clear_references id t = t.
Proof.
  intros Ho Hn. assert (Hth : there t id <> true) by (rewrite there_iff, Hn; by intros []).
  destruct t as [sc co ex rq st bd]. unfold clear_references, with_externals, with_contexts. cbn. f_equal.
  - apply set_eq. intros [a b]. rewrite elem_of_filter. cbn. split; [naive_solver|]. intros Hab. split; [|done].
    intros ->. by apply (contexts_stored _ Ho) in Hab as [? _].
  - apply map_filter_id. intros [a o] row Hx. cbn. intros ->. apply Hth. by eapply (externals_stored _ Ho); eexists.
Qed.

Section keys.
Context (t : ScopeTables) (Ho : organized t).

Lemma with_requests_organized key digest id : there t id = true -> organized (with_requests (<[key := (digest, id)]> (st_requests t)) t).
Proof.
  intros Hid. destruct Ho as [Hr Hnm Hv Hp Hw Hc He Hq Hs Hb]. split; try done. cbn.
  intros k d i [[_ [= <- <-]]|[_ Hx]]%lookup_insert_Some; [done|by eapply Hq].
Qed.

Lemma with_settings_organized name id : there t id = true -> organized (with_settings (<[name := id]> (st_settings t)) t).
Proof.
  intros Hid. destruct Ho as [Hr Hnm Hv Hp Hw Hc He Hq Hs Hb]. split; try done. cbn.
  intros n i [[_ <-]|[_ Hx]]%lookup_insert_Some; [done|by eapply Hs].
Qed.

Lemma with_binding_organized key id : there t id = true -> organized (with_bindings (<[key := id]> (st_bindings t)) t).
Proof.
  intros Hid. destruct Ho as [Hr Hnm Hv Hp Hw Hc He Hq Hs Hb]. split; try done. cbn.
  intros k i [[_ <-]|[_ Hx]]%lookup_insert_Some; [done|by eapply Hb].
Qed.

Lemma without_binding_organized key : organized (with_bindings (delete key (st_bindings t)) t).
Proof.
  destruct Ho as [Hr Hnm Hv Hp Hw Hc He Hq Hs Hb]. split; try done. cbn.
  intros k i [_ Hx]%lookup_delete_Some. by eapply Hb.
Qed.
End keys.

(** ** What the validation sees *)

Lemma described_there t id : organized t -> is_Some (described t id) <-> there t id = true.
Proof.
  intros Ho. rewrite there_iff. split.
  - intros [d (row & Hr & _)%described_some]. by exists row.
  - intros [row Hr]. by eapply (scopes_read _ Ho).
Qed.

Lemma described_parent t id row d : st_scopes t !! id = Some row -> described t id = Some d -> ParentScopeID d = default ""%string (sr_parent row).
Proof. intros Hr (row' & Hr' & E)%described_some. rewrite Hr in Hr'. injection Hr' as <-. by apply load_id in E as (_ & _ & ? & _). Qed.

(** Parents are the same in the rows and in what they describe. *)
Lemma parent_described t byID : organized t -> (forall id, byID !! id = described t id) ->
  forall p c, parent_in byID p c <-> parent_row (st_scopes t) p c.
Proof.
  intros Ho Hby p c. unfold parent_in. rewrite Hby. split.
  - intros (Hp & d & Hd & E). pose proof Hd as (row & Hr & _)%described_some.
    rewrite (described_parent _ _ _ _ Hr Hd) in E. exists row. split; [done|]. destruct (sr_parent row); cbn in E; congruence.
  - intros (row & Hr & E). pose proof (parents_stored _ Ho _ _ Hr) as Hp. rewrite E in Hp.
    apply parent_there_some in Hp. split; [by apply (scopes_named _ Ho)|].
    destruct (scopes_read _ Ho _ _ Hr) as [d Hd]. exists d. split; [done|]. by rewrite (described_parent _ _ _ _ Hr Hd), E.
Qed.

(** The scopes as a listing has them. *)
Definition lists (t : ScopeTables) (ds : list Descriptor) : Prop :=
  NoDup (map de_id ds) /\ forall d, d ∈ ds <-> described t (de_id d) = Some d.

Section listed.
Context (t : ScopeTables) (ds : list Descriptor).
Hypothesis Ho : organized t.
Hypothesis Hl : lists t ds.

Lemma index_listed id : scopeIndex ds !! id = described t id.
Proof.
  destruct Hl as [Hn Hd]. destruct (described t id) as [d|] eqn:E.
  - apply described_named in E as Hi. subst id. apply scopeIndex_in; [done|by apply Hd].
  - destruct (scopeIndex ds !! id) as [d|] eqn:Ei; [|done]. apply scopeIndex_inv in Ei as [Hin <-]. apply Hd in Hin. congruence.
Qed.

Lemma parent_listed p c : parent_in (scopeIndex ds) p c <-> parent_row (st_scopes t) p c.
Proof. apply (parent_described t _ Ho index_listed). Qed.

Lemma parents_listed p c : rtc (parent_in (scopeIndex ds)) p c <-> rtc (parent_row (st_scopes t)) p c.
Proof. split; apply rtc_subrel; intros ? ?; apply parent_listed. Qed.

Lemma index_none_empty : scopeIndex ds !! ""%string = None.
Proof.
  rewrite index_listed. destruct (described t "") as [d|] eqn:E; [|done].
  assert (H : there t "" = true) by (apply described_there; [done|by exists d]). by apply there_iff, (scopes_named _ Ho) in H.
Qed.

(** The walk's first scope is stored. *)
Lemma walk_first fuel visited p : walk_parents fuel (scopeIndex ds) visited p = Ok tt -> p <> ""%string -> is_Some (scopeIndex ds !! p).
Proof.
  destruct fuel as [|fuel]; cbn; destruct (String.eqb_spec p ""); try done. intros E _. bind_inv E. ok_inv. by eexists.
Qed.

Lemma listed_end : well_founded (parent_in (scopeIndex ds)).
Proof.
  intros c. induction (parents_end _ Ho c) as [c _ IH]. constructor. intros p Hp. by apply IH, parent_listed.
Qed.

Lemma listed_parents : parents_in (scopeIndex ds).
Proof.
  intros id d Hd Hp. rewrite index_listed in *. apply described_there; [done|].
  pose proof Hd as (row & Hr & _)%described_some. rewrite (described_parent _ _ _ _ Hr Hd) in *.
  pose proof (parents_stored _ Ho _ _ Hr) as Hs. destruct (sr_parent row) as [p|]; [|done]. by apply there_iff, parent_there_some.
Qed.

(** The validation accepts exactly the places that keep the organization. *)
Lemma validate_placed id m :
  validateScopeRelationships ds id (md_parentScopeID m) (md_contextReferences m) = Ok tt <-> placed t id m.
Proof.
  unfold validateScopeRelationships, placed. split.
  - intros E. bind_inv E. rename Ha into Hw, Ha0 into Hm. destruct a. split.
    + intros Hp. split.
      * rewrite <- described_there, <- index_listed by done. by eapply walk_first.
      * rewrite <- parents_listed. by eapply walk_avoids; [exact Hw|set_solver|].
    + intros r Hr. apply map_res_Forall2 in Hm. apply list_elem_of_lookup in Hr as [k Hk].
      destruct (Forall2_lookup_l _ _ _ _ _ Hm Hk) as (d & _ & Hd). bind_inv Hd. ok_inv. boolify. apply String.eqb_neq in Ha.
      split; [|done]. apply described_there; [done|]. rewrite <- index_listed. by exists d.
  - intros [Hp Hr].
    assert (Hw : walk_parents (S (size (scopeIndex ds))) (scopeIndex ds) {[id]} (md_parentScopeID m) = Ok tt).
    { destruct (walk_passes (scopeIndex ds) listed_end listed_parents (S (size (scopeIndex ds))) (md_parentScopeID m) {[id]}) as [Hok|Herr]; [|done|].
      - intros Hne. destruct (Hp Hne) as [Hth Hrt]. split; [by rewrite index_listed, described_there|].
        intros v ->%elem_of_singleton. by rewrite parents_listed.
      - exfalso. revert Herr. apply walk_terminates. rewrite <- size_dom. apply Nat.lt_succ_r, subseteq_size. set_solver. }
    rewrite Hw. cbn. destruct (map_res _ _) eqn:E; [done|]. exfalso. clear -E Hr Ho Hl.
    induction (md_contextReferences m) as [|r rs IH]; [done|]. cbn in E. destruct (Hr r) as [Hth Hne]; [left|].
    rewrite (proj2 (String.eqb_neq _ _) Hne) in E. apply (described_there _ _ Ho) in Hth as [d Hd].
    rewrite index_listed, Hd in E. cbn in E. apply bind_err_inv in E as [E|(? & _ & ?)]; [|done].
    by apply IH in E; [|intros r' Hr'; apply Hr; right].
Qed.
End listed.
