(* ===== verification/MemoryService.v ===== *)
(** * The Memory service ([artifact/memory/service.go], [service_plan.go],
    [service_transition.go], [service_values.go], [service_projection.go],
    [storage.go], [AnalyzeText] of [search.go])

    Planning and committing revisions: remember, forget, reactivate and organize.
    The backend is the class [Backend], with the contract that its Go interface
    documents in [BackendLaws]; resolvers, extraction and embedding models are the
    optional fields of [Service].  Identifiers come from a factory whose state is
    threaded.  Go interface values of Sources and Artifacts are the class
    [Values]; [reflect.DeepEqual] is equality, nil and empty slices being
    identified. *)

From S2P Require Import Prelude.
From S2P Require Import GoStrings.
From S2P Require Import GoTime.
From S2P Require Import Refs.
From S2P Require Import Json.
From S2P Require Import MemoryModel.

(** ** Search text *)

(** [cases.Fold] and the Unicode tables of letters and numbers. *)
Class Analysis := {
  Fold : string -> string;
  IsLetter : Z -> bool;
  IsNumber : Z -> bool
}.

Definition isCJK (c : Z) : bool :=
  ((13312 <=? c) && (c <=? 19903)) || ((19968 <=? c) && (c <=? 40959)) ||
  ((63744 <=? c) && (c <=? 64255)) || ((131072 <=? c) && (c <=? 195103)).

(** [%x] of a rune, which is never negative. *)
Fixpoint hex_digits (fuel : nat) (n : Z) (acc : string) : string :=
  match fuel with
  | O => acc
  | S f =>
      let acc' := String (hex_digit (n mod 16)) acc in
      if n <? 16 then acc' else hex_digits f (n / 16) acc'
  end.
Definition hex_rune (n : Z) : string := hex_digits 8 n "".

Fixpoint bigrams (cjk : list Z) : list string :=
  match cjk with
  | a :: (b :: _) as more => ("b_" +:+ hex_rune a +:+ "_" +:+ hex_rune b) :: bigrams more
  | _ => []
  end.

Definition flushCJK (cjk : list Z) : list string := map (fun c => "u_" +:+ hex_rune c) cjk ++ bigrams cjk.
Definition flushWord (word : bytes) : list string :=
  match word with [] => [] | _ => [string_of word] end.

(** The loop of [AnalyzeText]: at most one of [word] and [cjk] is not empty. *)
Fixpoint analyze `{Analysis} (rs : list rune) (word : bytes) (cjk : list Z) : list string :=
  match rs with
  | [] => flushWord word ++ flushCJK cjk
  | r :: more =>
      let c := rune_value r in
      if isCJK c then flushWord word ++ analyze more [] (cjk ++ [c])
      else if IsLetter c || IsNumber c || (c =? 95) then flushCJK cjk ++ analyze more (word ++ rune_bytes r) []
      else flushWord word ++ flushCJK cjk ++ analyze more [] []
  end.

Definition AnalyzeText `{Text} `{Analysis} (value : string) : string :=
  String.concat " " (analyze (runes (bytes_of (Fold (NFC value)))) [] []).

(** ** Data *)

#[export] Instance memory_eq_dec : EqDecision Memory.
Proof. solve_decision. Defined.

Inductive RememberMode := RememberAppend | RememberExtract | RememberAuto | OtherRemember (s : string).
Inductive OrganizeMode := OrganizeDefault | OrganizeDedupe | OrganizeNormalize | OtherOrganize (s : string).

#[export] Instance organize_mode_eq_dec : EqDecision OrganizeMode.
Proof. solve_decision. Defined.

Record Projection := MkProjection {
  pr_entryVersion : EntryVersion; pr_searchableText : string;
  pr_embedding : option (list float64); pr_embeddingContentHash : option string
}.

Record Commit := MkCommit {
  cm_base : option Memory; cm_memory : Memory; cm_contentHash : string;
  cm_entryVersions : list EntryVersion; cm_projections : list Projection
}.

Record WritePlan := MkWritePlan { wp_result : option Memory; wp_commit : option Commit }.

Record RevisionChanges := MkRevisionChanges { rc_MemoryRef : Ref; rc_Changes : list Change }.

(** The dynamic type of a Source interface value; for an accepted observation,
    the outcome of its own validation and text evidence. *)
Inductive SourceClass :=
| ContentSource | SnapshotSource | AcceptedObservation (checked : mres unit) | OtherAdapter.

Class Values (V S : Type) := {
  class_of : V -> SourceClass;
  source_value : V -> Source.Value;
  value_eq_dec :: EqDecision V;
  snapshot_ref : S -> Ref;
  snapshot_eq_dec :: EqDecision S
}.

(** [sourceevidence.Require] *)
Definition Require_ {V S} `{Values V S} (value : V) : mres unit :=
  match class_of value with
  | ContentSource | SnapshotSource => Ok tt
  | AcceptedObservation checked => checked
  | OtherAdapter => Err EUnacceptedObservation
  end.

Record EntryInput (V S : Type) := MkInput {
  in_entry : option EntryVersion; in_kind : string; in_text : string;
  in_sources : list V; in_artifacts : list S; in_reason : option string
}.
Arguments MkInput {V S}. Arguments in_entry {V S}. Arguments in_kind {V S}. Arguments in_text {V S}.
Arguments in_sources {V S}. Arguments in_artifacts {V S}. Arguments in_reason {V S}.

Record operationEvidence (V S : Type) := MkEvidence { oe_sources : list V; oe_artifacts : list S }.
Arguments MkEvidence {V S}. Arguments oe_sources {V S}. Arguments oe_artifacts {V S}.

Record CandidateRequest (V S : Type) := MkRequest_ {
  cr_sources : list V; cr_artifacts : list S; cr_currentEntries : list EntryVersion
}.
Arguments MkRequest_ {V S}.

Record entryMaterial := MkMaterial {
  m_kind : string; m_text : string; m_sources : list Source.Ref; m_artifacts : list Ref;
  m_contentBytes : bytes; m_contentHash : string
}.

Record SourceResolver (V : Type) := MkSourceResolver { sr_Get : V -> mres V; sr_Ref : V -> mres Source.Ref }.
Arguments MkSourceResolver {V}. Arguments sr_Get {V}. Arguments sr_Ref {V}.

Inductive embed_error := EUnavailable | ETimeout | EEmbed (e : mem_error).

(** A nil profile matches nothing; the provider's profile has no distance. *)
Record EmbeddingModel := MkEmbeddingModel {
  em_Profile : option EmbeddingProfile;
  em_Embed : list string -> result embed_error (list (list float64))
}.

Record Service (V S I : Type) := MkService {
  candidatePipeline : option (CandidateRequest V S -> mres (list (EntryInput V S)));
  embeddingModel : option EmbeddingModel;
  sourceResolver : option (SourceResolver V);
  artifactResolver : option (S -> mres S);
  idFactory : I -> string -> mres (string * I)
}.
Arguments candidatePipeline {V S I}. Arguments embeddingModel {V S I}. Arguments sourceResolver {V S I}.
Arguments artifactResolver {V S I}. Arguments idFactory {V S I}.

(** The [Backend] interface over the state [DB] of the store. *)
Class Backend (DB : Type) := {
  b_Capabilities : DB -> Capabilities;
  b_Get : DB -> Ref -> mres Memory;
  b_Latest : DB -> string -> mres Memory;
  b_Entries : DB -> Ref -> mres (list EntryVersion);
  b_Projections : DB -> Ref -> mres (list Projection);
  b_Commit : DB -> Commit -> mres (Memory * DB);
  b_Changes : DB -> Ref -> option Z -> mres (list RevisionChanges)
}.

(** What the interface requires of [Commit]: it stores the revision under the
    compare-and-swap of its artifact's head, which is by reference, atomically. *)
Class BackendLaws (DB : Type) `{Backend DB} := {
  commit_stores db c m db' :
    b_Commit db c = Ok (m, db') ->
    m = cm_memory c /\ b_Get db' (a_ref m) = Ok m /\ b_Latest db' (artifactID (a_ref m)) = Ok m;
  commit_cas db c m db' base :
    b_Commit db c = Ok (m, db') -> cm_base c = Some base ->
    exists current, b_Latest db (artifactID (a_ref base)) = Ok current /\ a_ref current = a_ref base;
  commit_frame db c m db' r :
    b_Commit db c = Ok (m, db') -> r <> a_ref m -> b_Get db' r = b_Get db r
}.

(** ** Values ([service_values.go]) *)

Section values.
Context {T : Text}.

(** The references in the order of their canonical encodings, equal ones once. *)
Definition canonical_refs {A} (check : A -> mres unit) (to_json : A -> json) (values : list A)
  : mres (list A) :=
  let* byKey :=
    fold_res (fun acc ref =>
      let* _ := check ref in
      let* encoded := CanonicalJSON (to_json ref) in
      Ok (put_item (string_of encoded) ref acc)) [] values in
  Ok (map snd (merge_sort item_le byKey)).

Definition canonicalSourceRefs : list Source.Ref -> mres (list Source.Ref) :=
  canonical_refs (fun r => lift_ref (check_source r)) source_ref_json.
Definition canonicalArtifactRefs : list Ref -> mres (list Ref) :=
  canonical_refs (fun r => lift_ref (let* _ := Validate r in Ok tt)) artifact_ref_json.

Definition newEntryMaterial (kind text : string) (srcs : list Source.Ref) (arts : list Ref)
  : mres entryMaterial :=
  let* normalizedKind := NormalizeKind kind in
  let* normalizedText := NormalizeText text in
  let* canonicalSources := canonicalSourceRefs srcs in
  let* canonicalArtifacts := canonicalArtifactRefs arts in
  let* contentBytes := EntryContentBytes normalizedKind normalizedText canonicalSources canonicalArtifacts in
  let* contentHash := EntryContentHash normalizedKind normalizedText canonicalSources canonicalArtifacts in
  Ok (MkMaterial normalizedKind normalizedText canonicalSources canonicalArtifacts contentBytes contentHash).

Definition materialFromVersion (v : EntryVersion) : mres entryMaterial :=
  newEntryMaterial (ev_Kind v) (ev_Text v) (ev_Sources v) (ev_Artifacts v).

Definition isCanonicalVersion (v : EntryVersion) (m : entryMaterial) : bool :=
  String.eqb (ev_Kind v) (m_kind m) && String.eqb (ev_Text v) (m_text m) &&
  bool_decide (ev_Sources v = m_sources m) && bool_decide (ev_Artifacts v = m_artifacts m).
End values.

Definition manifestMap (values : list ManifestEntry) : gmap string ManifestEntry :=
  fold_left (fun m e => <[entryID e := e]> m) values ∅.
Definition entryMap (values : list EntryVersion) : gmap string EntryVersion :=
  fold_left (fun m v => <[ev_EntryID v := v]> m) values ∅.

Definition entry_le (a b : ManifestEntry) : Prop := str_le (entryID a) (entryID b).
#[export] Instance entry_le_dec a b : Decision (entry_le a b).
Proof. unfold entry_le. apply _. Defined.
Definition change_le (a b : Change) : Prop := str_le (c_entryID a) (c_entryID b).
#[export] Instance change_le_dec a b : Decision (change_le a b).
Proof. unfold change_le. apply _. Defined.

Definition sortedManifest (m : gmap string ManifestEntry) : list ManifestEntry :=
  merge_sort entry_le (map snd (map_to_list m)).
Definition sortedChanges (values : list Change) : list Change := merge_sort change_le values.

(** [updated, _ := NewManifestEntry(...)]: the zero entry on an error. *)
Definition entry_or_zero (r : mres ManifestEntry) : ManifestEntry :=
  match r with Ok e => e | Err _ => MkEntry "" "" "" (OtherState "") end.

Definition appendUnique {A} `{EqDecision A} (values : list A) (value : A) : list A :=
  if decide (value ∈ values) then values else values ++ [value].

Definition embeddingProfileMatches (value : option EmbeddingProfile) (profile : EmbeddingProfile) : bool :=
  match value with
  | None => false
  | Some v =>
      String.eqb (ProfileID v) (ProfileID profile) && String.eqb (Model v) (Model profile) &&
      (Dimension v =? Dimension profile) && String.eqb (Normalization v) (Normalization profile)
  end.

Definition selectRememberMode (mode : RememberMode) (hasEntries hasEvidence : bool) : mres RememberMode :=
  match mode with
  | RememberAppend =>
      require hasEntries else EInvalidOperation "append-entries" in Ok RememberAppend
  | RememberExtract =>
      require negb (hasEntries || negb hasEvidence) else EInvalidOperation "extract-evidence" in Ok RememberExtract
  | RememberAuto =>
      if hasEntries then Ok RememberAppend
      else if hasEvidence then Ok RememberExtract
      else Err (EInvalidOperation "no-work")
  | OtherRemember s => Err (EInvalidCandidate "remember-mode" s)
  end.

(** ** The operations *)

Section service.
Context {T : Text} {A : Analysis} {V S : Type} {VS : Values V S}.
Context {DB : Type} {B : Backend DB} {I : Type} (svc : Service V S I).

(** *** Reading the base *)

Definition canonical_head (db : DB) (value : Memory) : mres Memory :=
  let* exact := b_Get db (a_ref value) in
  require bool_decide (exact = value) else EInvalidCitation "base-mismatch" in
  let* latest := b_Latest db (artifactID (a_ref value)) in
  require bool_decide (latest = exact) else ERevisionConflict (a_ref value) (a_ref latest) in
  Ok exact.

Definition canonicalBase (db : DB) (value : option Memory) : mres (option Memory) :=
  match value with
  | None => Ok None
  | Some value => let* exact := canonical_head db value in Ok (Some exact)
  end.

Definition canonicalMemory (db : DB) (value : Memory) : mres Memory :=
  let* exact := b_Get db (a_ref value) in
  require bool_decide (exact = value) else EInvalidCitation "memory-mismatch" in
  Ok exact.

(** The first loop of [validatedEntries]. *)
Definition index_versions (versions : list EntryVersion) : mres (gmap string EntryVersion) :=
  fold_res (fun byID version =>
    match byID !! ev_EntryVersionID version with
    | Some _ => Err (EInvalidCitation "duplicate-versions")
    | None => Ok (<[ev_EntryVersionID version := version]> byID)
    end) ∅ versions.

Definition validated_entry (value : Memory) (byID : gmap string EntryVersion) (item : ManifestEntry)
  : mres EntryVersion :=
  match byID !! entryVersionID item with
  | None => Err (EInvalidCitation "missing-version")
  | Some version =>
      require String.eqb (ev_MemoryArtifactID version) (artifactID (a_ref value)) &&
              String.eqb (ev_EntryID version) (entryID item)
        else EInvalidCitation "cross-identity" in
      let* material := materialFromVersion version in
      require String.eqb (m_contentHash material) (entryContentHash item)
        else EInvalidCitation "hash-mismatch" in
      Ok version
  end.

Definition validatedEntries (db : DB) (value : Memory) : mres (list EntryVersion) :=
  let* versions := b_Entries db (a_ref value) in
  let* byID := index_versions versions in
  map_res (validated_entry value byID) (manifest (a_content value)).

(** *** Evidence *)

Definition resolve_source (acc : list V) (value : V) : mres (list V) :=
  let* _ := Require_ value in
  let* resolver := of_option (sourceResolver svc) (EInvalidEvidence "source-resolver") in
  let* canonical := sr_Get resolver value in
  Ok (appendUnique acc canonical).
Definition resolve_artifact (acc : list S) (value : S) : mres (list S) :=
  let* resolver := of_option (artifactResolver svc) (EInvalidEvidence "artifact-resolver") in
  let* canonical := resolver value in
  Ok (appendUnique acc canonical).

Definition canonicalOperationEvidence (sources : list V) (artifacts : list S) : mres (operationEvidence V S) :=
  let* srcs := fold_res resolve_source [] sources in
  let* arts := fold_res resolve_artifact [] artifacts in
  Ok (MkEvidence srcs arts).

(** The Source references of values: an adapter's error is reported as such. *)
Definition sourceRefs (values : list V) : mres (list Source.Ref) :=
  match values with
  | [] => Ok []
  | _ =>
      let* resolver := of_option (sourceResolver svc) (EInvalidEvidence "source-adapter") in
      let* refs := map_res (fun v => map_err (fun _ => EInvalidEvidence "source-adapter") (sr_Ref resolver v))
                     values in
      canonicalSourceRefs refs
  end.

Definition canonicalCandidateSources (values allowed : list V) : mres (list V) :=
  fold_res (fun acc value =>
    let* canonical := match sourceResolver svc with Some r => sr_Get r value | None => Ok value end in
    require bool_decide (canonical ∈ allowed) else EInvalidEvidence "source-outside" in
    Ok (appendUnique acc canonical)) [] values.

Definition canonicalCandidateArtifacts (values allowed : list S) (previous : list Ref) : mres (list Ref) :=
  fold_res (fun acc value =>
    let* canonical := match artifactResolver svc with Some r => r value | None => Ok value end in
    let ref := snapshot_ref canonical in
    require bool_decide (ref ∈ map snapshot_ref allowed ++ previous) else EInvalidEvidence "artifact-outside" in
    Ok (appendUnique acc ref)) [] values.

Definition materialFromCandidate (candidate : EntryInput V S) (allowedSources : list V)
    (allowedArtifacts : list S) (previous : option EntryVersion) : mres entryMaterial :=
  let* canonicalSources := canonicalCandidateSources (in_sources candidate) allowedSources in
  let* candidateSourceRefs := sourceRefs canonicalSources in
  let previousArtifacts := match previous with Some p => ev_Artifacts p | None => [] end in
  let previousSources := match previous with Some p => ev_Sources p | None => [] end in
  let* candidateArtifactRefs :=
    canonicalCandidateArtifacts (in_artifacts candidate) allowedArtifacts previousArtifacts in
  map_err (ECandidateCause "canonical")
    (newEntryMaterial (in_kind candidate) (in_text candidate)
       (previousSources ++ candidateSourceRefs) (previousArtifacts ++ candidateArtifactRefs)).

(** *** Candidates *)

Definition check_request_source (value : V) : mres unit :=
  let* _ := Require_ value in
  let* _ := lift_ref (let* _ := Source.NewRef "source" (Source.SourceName (source_value value)) in Ok tt) in
  match Source.SourceMaterialization (source_value value) with
  | Source.Captured | Source.Referenced => Ok tt
  | Source.OtherMaterialization s => Err (EFormat "invalid Source materialization")
  end.

Definition NewCandidateRequest (sources : list V) (artifacts : list S) (currentEntries : list EntryVersion)
  : mres (CandidateRequest V S) :=
  let* _ := map_res check_request_source sources in
  let* _ := map_res (fun s => lift_ref (let* _ := Validate (snapshot_ref s) in Ok tt)) artifacts in
  Ok (MkRequest_ sources artifacts currentEntries).

(** The current entries that are active in the base. *)
Definition active_entries (base : option Memory) (currentEntries : list EntryVersion) : list EntryVersion :=
  let items := match base with Some b => manifest (a_content b) | None => [] end in
  let active := map entryVersionID (List.filter (fun i => bool_decide (state i = Active)) items) in
  List.filter (fun v => bool_decide (ev_EntryVersionID v ∈ active)) currentEntries.

Definition candidates (mode : RememberMode) (entries : list (EntryInput V S))
    (evidence : operationEvidence V S) (base : option Memory) (currentEntries : list EntryVersion)
  : mres (list (EntryInput V S)) :=
  match mode with
  | RememberAppend => Ok entries
  | _ =>
      let* pipeline := of_option (candidatePipeline svc) (ECapability "extract" "") in
      let* request := NewCandidateRequest (oe_sources evidence) (oe_artifacts evidence)
                        (active_entries base currentEntries) in
      pipeline request
  end.

(** *** Identities and versions *)

Definition newID (ids : I) (kind : string) : mres (string * I) :=
  let* ' (value, ids') := idFactory svc ids kind in
  let* _ := ValidateIdentifier value in
  Ok (value, ids').

Definition newEntryVersion (ids : I) (memoryID entryID : string) (previous : option EntryVersion)
    (material : entryMaterial) (createdInRevision : Z) : mres (EntryVersion * I) :=
  let* ' (versionID, ids') := newID ids "version" in
  let version := match previous with Some p => wrap64 (ev_Version p + 1) | None => 1 end in
  let previousID := match previous with Some p => Some (ev_EntryVersionID p) | None => None end in
  Ok (MkVersion memoryID entryID versionID version previousID (m_kind material) (m_text material)
        (m_contentHash material) createdInRevision (m_sources material) (m_artifacts material), ids').

(** *** Projections ([service_projection.go]) *)

Definition reusable (changed : gset string) (version : EntryVersion) (searchable : string)
    (old : Projection) : bool :=
  bool_decide (ev_EntryVersionID version ∉ changed) &&
  String.eqb (ev_EntryVersionID (pr_entryVersion old)) (ev_EntryVersionID version) &&
  String.eqb (ev_EntryContentHash (pr_entryVersion old)) (ev_EntryContentHash version) &&
  String.eqb (pr_searchableText old) searchable.

(** One iteration of the loop of [prepareProjections]: whether the projection is
    new, and so to be embedded, comes with it. *)
Definition prepare_projection (previous : gmap string Projection) (versions : gmap string EntryVersion)
    (changed : gset string) (item : ManifestEntry) : mres (list (Projection * bool)) :=
  if negb (bool_decide (state item = Active)) then Ok []
  else
    match versions !! entryID item with
    | Some version =>
        require String.eqb (ev_EntryVersionID version) (entryVersionID item)
          else EInvalidCitation "projection-version" in
        let searchable := AnalyzeText (ev_Text version) in
        match previous !! ev_EntryVersionID version with
        | Some old =>
            if reusable changed version searchable old
            then Ok [(MkProjection version searchable (pr_embedding old) (pr_embeddingContentHash old), false)]
            else Ok [(MkProjection version searchable None None, true)]
        | None => Ok [(MkProjection version searchable None None, true)]
        end
    | None => Err (EInvalidCitation "projection-version")
    end.

Definition embedTexts (model : EmbeddingModel) (texts : list string) (profile : EmbeddingProfile)
  : result embed_error (list (list float64)) :=
  require embeddingProfileMatches (em_Profile model) profile
    else EEmbed (ECapability "embedding-profile" "") in
  let* vectors := em_Embed model texts in
  require (length vectors =? length texts)%nat else EEmbed (EInvalidEmbedding "count") in
  map_res (fun v => map_err EEmbed (CanonicalEmbedding v (Dimension profile) (Normalization profile))) vectors.

(** The new projections take the vectors in order. *)
Fixpoint put_vectors (profile : EmbeddingProfile) (prepared : list (Projection * bool))
    (vectors : list (list float64)) : mres (list Projection) :=
  match prepared, vectors with
  | [], _ => Ok []
  | (p, false) :: more, _ => let* rest := put_vectors profile more vectors in Ok (p :: rest)
  | (p, true) :: more, v :: vs =>
      let* hash := EmbeddingContentHash profile (ev_EntryContentHash (pr_entryVersion p)) in
      let* rest := put_vectors profile more vs in
      Ok (MkProjection (pr_entryVersion p) (pr_searchableText p) (Some v) (Some hash) :: rest)
  | (p, true) :: more, [] => let* rest := put_vectors profile more [] in Ok (p :: rest)
  end.

Definition attachEmbeddings (db : DB) (prepared : list (Projection * bool)) : mres (list Projection) :=
  let unchanged := map fst prepared in
  let texts := map (fun p => ev_Text (pr_entryVersion (fst p))) (List.filter snd prepared) in
  match texts, embeddingModel svc, cap_profile (b_Capabilities db) with
  | _ :: _, Some model, Some profile =>
      if negb (cap_Vector (b_Capabilities db)) || negb (embeddingProfileMatches (em_Profile model) profile)
      then Ok unchanged
      else
        match embedTexts model texts profile with
        | Err (EUnavailable | ETimeout) => Ok unchanged
        | Err (EEmbed e) => Err e
        | Ok vectors => put_vectors profile prepared vectors
        end
  | _, _, _ => Ok unchanged
  end.

Definition projectionMap (values : list Projection) : gmap string Projection :=
  fold_left (fun m p => <[ev_EntryVersionID (pr_entryVersion p) := p]> m) values ∅.

Definition prepareProjections (db : DB) (base : option Memory) (items : list ManifestEntry)
    (versions : gmap string EntryVersion) (changed : gset string) : mres (list Projection) :=
  let* previous :=
    match base with
    | Some b => let* values := b_Projections db (a_ref b) in Ok (projectionMap values)
    | None => Ok ∅
    end in
  let* prepared := map_res (prepare_projection previous versions changed) items in
  attachEmbeddings db (concat prepared).

Definition version_ids (versions : list EntryVersion) : gset string :=
  list_to_set (map ev_EntryVersionID versions).

(** *** Planning a revision: [prepareCommit] *)

Record PlanState := MkPlan {
  ps_manifest : gmap string ManifestEntry; ps_current : gmap string EntryVersion;
  ps_newVersions : list EntryVersion; ps_changes : list Change;
  ps_targeted : gset string; ps_newContent : gset string; ps_ids : I
}.

Definition claimRevisionTarget (candidate : EntryInput V S) (current : gmap string EntryVersion)
    (targeted : gset string) : mres (string * EntryVersion * gset string) :=
  match in_entry candidate with
  | None => Err (EInvalidCitation "entry-missing")
  | Some requested =>
      let* entryID := ValidateIdentifier (ev_EntryID requested) in
      require negb (bool_decide (entryID ∈ targeted)) else EInvalidOperation "duplicate-target" in
      match current !! entryID with
      | None => Err (EEntryNotFound entryID)
      | Some previous =>
          require bool_decide (requested = previous) else EInvalidCitation "entry-mismatch" in
          Ok (entryID, previous, {[entryID]} ∪ targeted)
      end
  end.

(** What both kinds of candidate do last. *)
Definition record_version (entryID : string) (version : EntryVersion) (change : Change) (ids : I)
    (st : PlanState) : PlanState :=
  let item := entry_or_zero
    (NewManifestEntry entryID (ev_EntryVersionID version) (ev_EntryContentHash version) Active) in
  MkPlan (<[entryID := item]> (ps_manifest st)) (<[entryID := version]> (ps_current st))
    (ps_newVersions st ++ [version]) (ps_changes st ++ [change]) (ps_targeted st) (ps_newContent st) ids.

Definition claim_content (key : string) (st : PlanState) : PlanState :=
  MkPlan (ps_manifest st) (ps_current st) (ps_newVersions st) (ps_changes st) (ps_targeted st)
    ({[key]} ∪ ps_newContent st) (ps_ids st).
Definition claim_target (targeted : gset string) (st : PlanState) : PlanState :=
  MkPlan (ps_manifest st) (ps_current st) (ps_newVersions st) (ps_changes st) targeted
    (ps_newContent st) (ps_ids st).

Definition content_key (material : entryMaterial) : string := string_of (m_contentBytes material).

Definition add_candidate (memoryID : string) (revision : Z) (evidence : operationEvidence V S)
    (st : PlanState) (candidate : EntryInput V S) : mres PlanState :=
  let* material := materialFromCandidate candidate (oe_sources evidence) (oe_artifacts evidence) None in
  if bool_decide (content_key material ∈ ps_newContent st) then Ok st
  else
    let* ' (entryID, ids) := newID (ps_ids st) "entry" in
    require negb (bool_decide (is_Some (ps_manifest st !! entryID))) else EInvalidOperation "id-collision" in
    let* ' (version, ids') := newEntryVersion ids memoryID entryID None material revision in
    let* change := NewChange Add entryID None (Some (ev_EntryVersionID version)) (in_reason candidate) in
    Ok (record_version entryID version change ids' (claim_content (content_key material) st)).

Definition revise_candidate (memoryID : string) (revision : Z) (evidence : operationEvidence V S)
    (st : PlanState) (candidate : EntryInput V S) : mres PlanState :=
  let* ' (entryID, previous, targeted) :=
    claimRevisionTarget candidate (ps_current st) (ps_targeted st) in
  let* item := of_option (ps_manifest st !! entryID) (EEntryNotFound entryID) in
  require negb (bool_decide (state item = Inactive)) else EEntryInactive entryID in
  let* material :=
    materialFromCandidate candidate (oe_sources evidence) (oe_artifacts evidence) (Some previous) in
  let* previousMaterial := materialFromVersion previous in
  if String.eqb (m_contentHash material) (m_contentHash previousMaterial) &&
     bool_decide (m_contentBytes material = m_contentBytes previousMaterial)
  then Ok (claim_target targeted st)
  else
    let* ' (version, ids') := newEntryVersion (ps_ids st) memoryID entryID (Some previous) material revision in
    let* change := NewChange Revise entryID (Some (ev_EntryVersionID previous))
                     (Some (ev_EntryVersionID version)) (in_reason candidate) in
    Ok (record_version entryID version change ids' (claim_target targeted st)).

Definition plan_candidate (memoryID : string) (revision : Z) (evidence : operationEvidence V S)
    (st : PlanState) (candidate : EntryInput V S) : mres PlanState :=
  match in_entry candidate with
  | None => add_candidate memoryID revision evidence st candidate
  | Some _ => revise_candidate memoryID revision evidence st candidate
  end.

(** The contents of the base's active entries. *)
Definition active_contents (items : gmap string ManifestEntry) (currentEntries : list EntryVersion)
  : mres (gset string) :=
  fold_res (fun contents version =>
    match items !! ev_EntryID version with
    | Some item =>
        if bool_decide (state item = Active) then
          let* material := materialFromVersion version in
          Ok ({[content_key material]} ∪ contents)
        else Ok contents
    | None => Ok contents
    end) ∅ currentEntries.

(** The tail shared by [prepareCommit] and [commitExistingTransition]. *)
Definition build_commit (db : DB) (base : option Memory) (memoryID : string) (revision : Z)
    (items : gmap string ManifestEntry) (changes : list Change) (current : gmap string EntryVersion)
    (newVersions : list EntryVersion) (srcs : list Source.Ref) (arts : list Ref) : mres Commit :=
  let manifestEntries := sortedManifest items in
  let content := MkContent manifestEntries (sortedChanges changes) in
  let* draft := lift_ref (NewDraft Family content srcs arts) in
  let* next := lift_ref (New memoryID revision draft) in
  let* projections := prepareProjections db base manifestEntries current (version_ids newVersions) in
  let* hash := ContentHash content in
  Ok (MkCommit base next hash newVersions projections).

Definition prepareCommit (db : DB) (base : option Memory) (inputs : list (EntryInput V S))
    (evidence : operationEvidence V S) (currentEntries : list EntryVersion) (ids : I)
  : mres (option Commit * I) :=
  let* ' (memoryID, ids0) :=
    match base with
    | None => newID ids "memory"
    | Some b => Ok (artifactID (a_ref b), ids)
    end in
  let nextRevision := match base with None => 1 | Some b => wrap64 (revision (a_ref b) + 1) end in
  let items := match base with None => ∅ | Some b => manifestMap (manifest (a_content b)) end in
  let* contents := active_contents items currentEntries in
  let* st := fold_res (plan_candidate memoryID nextRevision evidence)
    (MkPlan items (entryMap currentEntries) [] [] ∅ contents ids0) inputs in
  match ps_changes st with
  | [] => Ok (None, ps_ids st)
  | _ =>
      let* srcs := sourceRefs (oe_sources evidence) in
      let* commit := build_commit db base memoryID nextRevision (ps_manifest st) (ps_changes st)
        (ps_current st) (ps_newVersions st) srcs (map snapshot_ref (oe_artifacts evidence)) in
      Ok (Some commit, ps_ids st)
  end.

Definition PlanRemember (db : DB) (base : option Memory) (sources : list V) (artifacts : list S)
    (entries : list (EntryInput V S)) (mode : RememberMode) (ids : I) : mres (WritePlan * I) :=
  let* selectedMode := selectRememberMode mode (0 <? length entries)%nat
                         (0 <? length sources + length artifacts)%nat in
  let* base' := canonicalBase db base in
  let* evidence := canonicalOperationEvidence sources artifacts in
  let* currentEntries := match base' with Some b => validatedEntries db b | None => Ok [] end in
  let* inputs := candidates selectedMode entries evidence base' currentEntries in
  match inputs with
  | [] => Ok (MkWritePlan base' None, ids)
  | _ =>
      let* ' (commit, ids') := prepareCommit db base' inputs evidence currentEntries ids in
      match commit with
      | None => Ok (MkWritePlan base' None, ids')
      | Some c => Ok (MkWritePlan (Some (cm_memory c)) (Some c), ids')
      end
  end.

(** The store may have changed although [Apply] reports an error. *)
Definition Apply (db : DB) (plan : WritePlan) : DB * mres (option Memory) :=
  match wp_commit plan with
  | None => (db, Ok (wp_result plan))
  | Some commit =>
      match b_Commit db commit with
      | Err e => (db, Err e)
      | Ok (committed, db') =>
          (db', if bool_decide (wp_result plan = Some committed) then Ok (Some committed)
                else Err (EInvalidCitation "memory-mismatch"))
      end
  end.

Definition Remember (db : DB) (base : option Memory) (sources : list V) (artifacts : list S)
    (entries : list (EntryInput V S)) (mode : RememberMode) (ids : I) : DB * mres (option Memory) :=
  match PlanRemember db base sources artifacts entries mode ids with
  | Err e => (db, Err e)
  | Ok (plan, _) => Apply db plan
  end.

(** *** Transitions of an existing Memory ([service_transition.go]) *)

(** [change, _ := NewChange(...)]: the zero change on an error. *)
Definition change_or_zero (r : mres Change) : Change :=
  match r with Ok c => c | Err _ => MkChange (OtherOp "") "" None None None end.

Definition set_state (item : ManifestEntry) (target : EntryState) : ManifestEntry :=
  entry_or_zero (NewManifestEntry (entryID item) (entryVersionID item) (entryContentHash item) target).

Definition commitExistingTransition (db : DB) (base : Memory) (items : gmap string ManifestEntry)
    (changes : list Change) (current : gmap string EntryVersion) (newVersions : list EntryVersion)
  : DB * mres Memory :=
  match build_commit db (Some base) (artifactID (a_ref base)) (wrap64 (revision (a_ref base) + 1))
          items changes current newVersions [] [] with
  | Err e => (db, Err e)
  | Ok commit =>
      match b_Commit db commit with
      | Err e => (db, Err e)
      | Ok (committed, db') => (db', Ok committed)
      end
  end.

Record StateLoop := MkStateLoop {
  sl_manifest : gmap string ManifestEntry; sl_changes : list Change; sl_seen : gset string
}.

Definition requested_identity (v : EntryVersion) : string :=
  ev_EntryID v +:+ String (ascii_of_nat 0) (ev_EntryVersionID v).

(** The loop of [setEntryState]. *)
Definition set_one (current : gmap string EntryVersion) (target : EntryState)
    (normalizedReason : option string) (st : StateLoop) (requested : EntryVersion) : mres StateLoop :=
  if bool_decide (requested_identity requested ∈ sl_seen st) then Ok st
  else
    let seen := {[requested_identity requested]} ∪ sl_seen st in
    let* entryID := ValidateIdentifier (ev_EntryID requested) in
    let* item := of_option (sl_manifest st !! entryID) (EEntryNotFound entryID) in
    let* currentEntry := of_option (current !! entryID) (EEntryNotFound entryID) in
    require bool_decide (requested = currentEntry) else EInvalidCitation "entry-mismatch" in
    if bool_decide (state item = target) then Ok (MkStateLoop (sl_manifest st) (sl_changes st) seen)
    else
      let* change :=
        match target with
        | Active => NewChange Reactivate entryID None (Some (entryVersionID item)) normalizedReason
        | _ => NewChange Deactivate entryID (Some (entryVersionID item)) None normalizedReason
        end in
      Ok (MkStateLoop (<[entryID := set_state item target]> (sl_manifest st)) (sl_changes st ++ [change]) seen).

(** The reads of a transition: the canonical base and its entries. *)
Definition transition_base (db : DB) (value : Memory) : mres (Memory * list EntryVersion) :=
  let* base := canonical_head db value in
  let* currentEntries := validatedEntries db base in
  Ok (base, currentEntries).

Definition plan_states (db : DB) (value : Memory) (entries : list EntryVersion) (target : EntryState)
    (reason : option string) : mres (Memory * gmap string EntryVersion * StateLoop) :=
  let* ' (base, currentEntries) := transition_base db value in
  let* normalizedReason := NormalizeReason reason in
  let current := entryMap currentEntries in
  let* st := fold_res (set_one current target normalizedReason)
    (MkStateLoop (manifestMap (manifest (a_content base))) [] ∅) entries in
  Ok (base, current, st).

Definition setEntryState (db : DB) (value : Memory) (entries : list EntryVersion) (target : EntryState)
    (reason : option string) : DB * mres Memory :=
  match plan_states db value entries target reason with
  | Err e => (db, Err e)
  | Ok (base, current, st) =>
      match sl_changes st with
      | [] => (db, Ok base)
      | _ => commitExistingTransition db base (sl_manifest st) (sl_changes st) current []
      end
  end.

Definition Forget db value entries reason := setEntryState db value entries Inactive reason.
Definition Reactivate_ db value entries reason := setEntryState db value entries Active reason.

(** The groups of active entries with one content; a Go map, filled in an
    unspecified order and then sorted. *)
Definition group_item (current : gmap string EntryVersion) (groups : gmap string (list string))
    (item : ManifestEntry) : mres (gmap string (list string)) :=
  if negb (bool_decide (state item = Active)) then Ok groups
  else
    let* version := of_option (current !! entryID item) (EInvalidCitation "missing-version") in
    let* material := materialFromVersion version in
    Ok (<[content_key material := default [] (groups !! content_key material) ++ [entryID item]]> groups).

Record DedupeState := MkDedupe {
  dd_manifest : gmap string ManifestEntry; dd_changes : list Change; dd_changed : gset string
}.

Definition dedupe_one (st : DedupeState) (entryID : string) : DedupeState :=
  let item := default (MkEntry "" "" "" (OtherState "")) (dd_manifest st !! entryID) in
  let change := change_or_zero
    (NewChange Deactivate entryID (Some (entryVersionID item)) None (Some "dedupe"%string)) in
  MkDedupe (<[entryID := set_state item Inactive]> (dd_manifest st)) (dd_changes st ++ [change])
    ({[entryID]} ∪ dd_changed st).

(** All the identifiers of a group but the smallest. *)
Definition duplicates (ids : list string) : list string := tail (merge_sort str_le ids).

Definition deduplicateManifest (items : gmap string ManifestEntry) (current : gmap string EntryVersion)
  : mres DedupeState :=
  let* groups := fold_res (group_item current) ∅ (map snd (map_to_list items)) in
  Ok (fold_left (fun st ids => fold_left dedupe_one (duplicates ids) st)
        (map snd (map_to_list groups)) (MkDedupe items [] ∅)).

Record NormalizeState := MkNormalize {
  nz_manifest : gmap string ManifestEntry; nz_current : gmap string EntryVersion;
  nz_changes : list Change; nz_versions : list EntryVersion; nz_ids : I
}.

Definition normalize_one (base : Memory) (skip : gset string) (st : NormalizeState) (entryID : string)
  : mres NormalizeState :=
  if bool_decide (entryID ∈ skip) then Ok st
  else
    match nz_current st !! entryID with
    | None => Ok st
    | Some previous =>
        let* material := materialFromVersion previous in
        if isCanonicalVersion previous material then Ok st
        else
          let* ' (version, ids) := newEntryVersion (nz_ids st) (artifactID (a_ref base)) entryID
            (Some previous) material (wrap64 (revision (a_ref base) + 1)) in
          let item := default (MkEntry "" "" "" (OtherState "")) (nz_manifest st !! entryID) in
          let item' := entry_or_zero (NewManifestEntry entryID (ev_EntryVersionID version)
                                        (ev_EntryContentHash version) (state item)) in
          let change := change_or_zero (NewChange Revise entryID (Some (ev_EntryVersionID previous))
                                          (Some (ev_EntryVersionID version)) (Some "normalize"%string)) in
          Ok (MkNormalize (<[entryID := item']> (nz_manifest st)) (<[entryID := version]> (nz_current st))
                (nz_changes st ++ [change]) (nz_versions st ++ [version]) ids)
    end.

Definition normalizeManifestEntries (base : Memory) (items : gmap string ManifestEntry)
    (current : gmap string EntryVersion) (skip : gset string) (ids : I) : mres NormalizeState :=
  fold_res (normalize_one base skip) (MkNormalize items current [] [] ids)
    (merge_sort str_le (map fst (map_to_list current))).

Definition plan_organize (db : DB) (value : Memory) (mode : OrganizeMode) (ids : I)
  : mres (Memory * DedupeState * NormalizeState) :=
  require match mode with OtherOrganize _ => false | _ => true end else EInvalidOperation "organize-mode" in
  let* ' (base, currentEntries) := transition_base db value in
  let items := manifestMap (manifest (a_content base)) in
  let current := entryMap currentEntries in
  let* dd := if bool_decide (mode = OrganizeNormalize) then Ok (MkDedupe items [] ∅)
             else deduplicateManifest items current in
  let* nz := if bool_decide (mode = OrganizeDedupe) then Ok (MkNormalize (dd_manifest dd) current [] [] ids)
             else normalizeManifestEntries base (dd_manifest dd) current (dd_changed dd) ids in
  Ok (base, dd, nz).

Definition Organize (db : DB) (value : Memory) (mode : OrganizeMode) (ids : I) : DB * mres Memory :=
  match plan_organize db value mode ids with
  | Err e => (db, Err e)
  | Ok (base, dd, nz) =>
      match dd_changes dd ++ nz_changes nz with
      | [] => (db, Ok base)
      | changes => commitExistingTransition db base (nz_manifest nz) changes (nz_current nz) (nz_versions nz)
      end
  end.

(** *** Reads *)

Definition Latest (db : DB) (value : Memory) : mres Memory :=
  let* canonical := canonicalMemory db value in
  b_Latest db (artifactID (a_ref canonical)).

Definition Revisions (db : DB) (value : Memory) : mres (list Memory) :=
  let* canonical := canonicalMemory db value in
  let* latest := b_Latest db (artifactID (a_ref canonical)) in
  map_res (fun n => b_Get db (MkRef Family (artifactID (a_ref canonical)) (Z.of_nat n)))
    (seq 1 (Z.to_nat (revision (a_ref latest)))).

Definition Changes (db : DB) (value : Memory) (sinceRevision : option Z) : mres (list RevisionChanges) :=
  let* target := canonicalMemory db value in
  match sinceRevision with
  | None => b_Changes db (a_ref target) None
  | Some since =>
      require negb (since <? 0) else EInvalidOperation "since-negative" in
      require negb (revision (a_ref target) <? since) else EInvalidOperation "since-greater" in
      if since =? revision (a_ref target) then Ok []
      else
        let* _ := if 0 <? since
                  then let* _ := b_Get db (MkRef Family (artifactID (a_ref target)) since) in Ok tt
                  else Ok tt in
        b_Changes db (a_ref target) (Some since)
  end.

(** *** Citations ([service_search.go]) *)

Definition validateAnchor (db : DB) (memoryRef : Ref) (id versionID : string) (version : EntryVersion)
  : mres unit :=
  let* value := b_Get db memoryRef in
  match List.find (fun i => String.eqb (entryID i) id) (manifest (a_content value)) with
  | None => Err (EInvalidCitation "expand-anchor")
  | Some item =>
      require String.eqb (entryVersionID item) versionID &&
              String.eqb (ev_MemoryArtifactID version) (artifactID memoryRef) &&
              String.eqb (ev_EntryID version) id && String.eqb (ev_EntryVersionID version) versionID
        else EInvalidCitation "expand-anchor" in
      let* material := materialFromVersion version in
      require String.eqb (m_contentHash material) (entryContentHash item) &&
              String.eqb (ev_EntryContentHash version) (entryContentHash item)
        else EInvalidCitation "hash-mismatch" in
      Ok tt
  end.
End service.
