(* ===== verification/MemoryServiceFacts.v ===== *)
(** * Facts on the Memory service: manifests as maps, the plan's invariant,
    state changes and deduplication *)

From stdpp Require Import sorting.
From S2P Require Import Prelude.
From S2P Require Import GoStrings.
From S2P Require Import GoTime.
From S2P Require Import Refs.
From S2P Require Import Json.
From S2P Require Import Sha256.
From S2P Require Import MemoryModel.
From S2P Require Import MemoryService.

(** ** Manifests and their maps *)

Definition keyed (m : gmap string ManifestEntry) : Prop := forall k e, m !! k = Some e -> entryID e = k.

(** A manifest as the service writes it: by identifier, each once. *)
Definition canonical_manifest (l : Manifest) : Prop := Sorted entry_le l /\ NoDup (map entryID l).

#[export] Instance entry_le_total : Total entry_le.
Proof. intros a b. apply (total str_le). Qed.
#[export] Instance entry_le_trans : Transitive entry_le.
Proof. intros a b c. apply (transitivity (R := str_le)). Qed.
#[export] Instance change_le_total : Total change_le.
Proof. intros a b. apply (total str_le). Qed.

Lemma keyed_insert m e : keyed m -> keyed (<[entryID e := e]> m).
Proof. intros Hm k x [[<- <-]|[_ H]]%lookup_insert_Some; [done|by apply Hm]. Qed.

Lemma manifestMap_nil k : manifestMap [] !! k = None.
Proof. apply lookup_empty. Qed.

Lemma manifestMap_app l e : manifestMap (l ++ [e]) = <[entryID e := e]> (manifestMap l).
Proof. unfold manifestMap. by rewrite fold_left_app. Qed.

Lemma manifestMap_keyed l : keyed (manifestMap l).
Proof.
  induction l as [|e l IH] using rev_ind; [intros k e H; by rewrite manifestMap_nil in H|].
  rewrite manifestMap_app. by apply keyed_insert.
Qed.

Lemma manifestMap_elem l k e : manifestMap l !! k = Some e -> e ∈ l.
Proof.
  induction l as [|x l IH] using rev_ind; [by rewrite manifestMap_nil|].
  rewrite manifestMap_app, elem_of_app, list_elem_of_singleton.
  intros [[_ <-]|[_ H]]%lookup_insert_Some; auto.
Qed.

Lemma manifestMap_lookup l e : NoDup (map entryID l) -> e ∈ l -> manifestMap l !! entryID e = Some e.
Proof.
  induction l as [|x l IH] using rev_ind; [by intros _ ?%not_elem_of_nil|].
  rewrite manifestMap_app, map_app, NoDup_app, elem_of_app, list_elem_of_singleton. cbn.
  intros (Hl & Hx & _) [He| ->]; [|by rewrite lookup_insert_eq].
  rewrite lookup_insert_ne; [by apply IH|]. intros E. apply (Hx (entryID e)).
  - apply list_elem_of_fmap. eauto.
  - rewrite <- E. constructor.
Qed.

Lemma sortedManifest_perm m : sortedManifest m ≡ₚ map snd (map_to_list m).
Proof. apply merge_sort_Permutation. Qed.

Lemma elem_of_sortedManifest m e : keyed m -> e ∈ sortedManifest m <-> m !! entryID e = Some e.
Proof.
  intros Hm. rewrite sortedManifest_perm, list_elem_of_fmap. split.
  - intros ([k x] & -> & H%elem_of_map_to_list). cbn. by rewrite (Hm _ _ H).
  - intros H. exists (entryID e, e). split; [done|]. by apply elem_of_map_to_list.
Qed.

Lemma map_keys_values m : keyed m -> map entryID (map snd (map_to_list m)) = map fst (map_to_list m).
Proof.
  intros Hm. rewrite map_map. apply map_ext_in. intros [k e] H%list_elem_of_In%elem_of_map_to_list.
  by apply Hm.
Qed.

Lemma sortedManifest_canonical m : keyed m -> canonical_manifest (sortedManifest m).
Proof.
  intros Hm. split; [apply (Sorted_merge_sort _)|].
  rewrite sortedManifest_perm, map_keys_values by done. apply (NoDup_fst_map_to_list m).
Qed.

(** Two lists in the order of their distinct keys with the same elements are equal. *)
Lemma sorted_keys_ext {X} (key : X -> string) (l1 l2 : list X) :
  StronglySorted (fun a b => str_le (key a) (key b)) l1 ->
  StronglySorted (fun a b => str_le (key a) (key b)) l2 ->
  NoDup (map key l1) -> l1 ≡ₚ l2 -> l1 = l2.
Proof.
  intros S1 S2 N1 HP. revert l2 S2 HP. induction S1 as [|a l1 S1 IH F1]; intros l2 S2 HP.
  { by apply Permutation_nil_l in HP. }
  destruct S2 as [|b l2 S2 F2]; [by apply Permutation_nil_r in HP|].
  assert (a = b) as ->.
  { assert (Ha : a ∈ b :: l2) by (rewrite <- HP; left). assert (Hb : b ∈ a :: l1) by (rewrite HP; left).
    apply elem_of_cons in Ha as [Ha|Ha]; [done|]. apply elem_of_cons in Hb as [Hb|Hb]; [done|].
    rewrite Forall_forall in F1, F2. specialize (F1 _ Hb). specialize (F2 _ Ha).
    pose proof (str_le_antisym _ _ F1 F2) as E. cbn in N1. apply NoDup_cons in N1 as [N1 _].
    exfalso. apply N1. rewrite E. by apply list_elem_of_fmap_2. }
  f_equal. apply Permutation_cons_inv in HP. cbn in N1. apply NoDup_cons in N1 as [_ N1]. by apply IH.
Qed.

(** Two canonical manifests with the same entries are equal. *)
Lemma canonical_manifest_ext l1 l2 :
  canonical_manifest l1 -> canonical_manifest l2 -> (forall e, e ∈ l1 <-> e ∈ l2) -> l1 = l2.
Proof.
  intros [S1 N1] [S2 N2] Heq. apply Sorted_StronglySorted in S1, S2; [|apply _..].
  apply (sorted_keys_ext entryID); [done..|]. apply NoDup_Permutation; eauto using NoDup_fmap_1.
Qed.

Lemma sorted_of_canonical l : canonical_manifest l -> sortedManifest (manifestMap l) = l.
Proof.
  intros Hl. apply canonical_manifest_ext; [apply sortedManifest_canonical, manifestMap_keyed|done|].
  intros e. rewrite elem_of_sortedManifest by apply manifestMap_keyed. split.
  - apply manifestMap_elem.
  - apply manifestMap_lookup, Hl.
Qed.

Lemma sortedChanges_perm l : sortedChanges l ≡ₚ l.
Proof. apply merge_sort_Permutation. Qed.
Lemma sortedChanges_sorted l : Sorted change_le (sortedChanges l).
Proof. apply (Sorted_merge_sort _). Qed.

(** ** The plan of a revision *)

Section plan.
Context {T : Text} {A : Analysis} {V S : Type} {VS : Values V S}.
Context {DB : Type} {B : Backend DB} {I : Type} (svc : Service V S I).

Lemma newID_ok ids kind v ids' : newID svc ids kind = Ok (v, ids') -> valid_identifier v.
Proof.
  unfold newID. intros H. bind_inv H. destruct a as [w i]. bind_inv H.
  injection H as <- <-. by apply ValidateIdentifier_ok in Ha0 as [_ Ha0].
Qed.

Lemma material_hash kind text srcs arts m :
  newEntryMaterial kind text srcs arts = Ok m -> lowerHex64 (m_contentHash m) = true.
Proof.
  unfold newEntryMaterial. intros H. bind_inv H. ok_inv. subst m. cbn. by eapply EntryContentHash_valid.
Qed.

Lemma materialFromCandidate_hash c srcs arts prev m :
  materialFromCandidate svc c srcs arts prev = Ok m -> lowerHex64 (m_contentHash m) = true.
Proof.
  unfold materialFromCandidate. intros H. bind_inv H.
  destruct (newEntryMaterial _ _ _ _) as [m'|] eqn:E; [|done]. cbn in H. ok_inv. subst m'.
  by eapply material_hash.
Qed.

(** What a new version records. *)
Record made_version (memoryID entryID : string) (revision : Z) (m : entryMaterial) (v : EntryVersion) : Prop := {
  mv_memory : ev_MemoryArtifactID v = memoryID;
  mv_entry : ev_EntryID v = entryID;
  mv_id : valid_identifier (ev_EntryVersionID v);
  mv_hash : ev_EntryContentHash v = m_contentHash m;
  mv_revision : ev_CreatedInRevision v = revision
}.

Lemma newEntryVersion_made ids memoryID id prev m rev v ids' :
  newEntryVersion svc ids memoryID id prev m rev = Ok (v, ids') -> made_version memoryID id rev m v.
Proof.
  unfold newEntryVersion. intros H. bind_inv H. destruct a as [w i]. bind_inv H.
  injection H as <- <-. split; try done. by eapply newID_ok.
Qed.

Lemma NewChange_fields o id from to why c :
  NewChange o id from to why = Ok c ->
  op c = o /\ c_entryID c = id /\ fromEntryVersionID c = from /\ toEntryVersionID c = to /\
  NormalizeReason why = Ok (reason c).
Proof. unfold NewChange. intros H. bind_inv H. ok_inv. by subst c. Qed.

Lemma claimRevisionTarget_ok (candidate : EntryInput V S) current targeted id previous targeted' :
  claimRevisionTarget candidate current targeted = Ok (id, previous, targeted') ->
  valid_identifier id /\ in_entry candidate = Some previous /\ current !! id = Some previous.
Proof.
  unfold claimRevisionTarget. destruct (in_entry candidate) as [requested|]; [|done]. intros H. bind_inv H.
  destruct (current !! a) as [p|] eqn:E; [|done]. bind_inv H.
  injection H as -> -> <-. ok_inv. boolify. subst requested. apply ValidateIdentifier_ok in Ha as [-> Ha].
  split; [exact Ha|]. by split.
Qed.

(** The invariant of the loop of [prepareCommit], from the base's entries. *)
Record plan_inv (memoryID : string) (rev : Z) (items : gmap string ManifestEntry) (st : @PlanState I) : Prop := {
  pi_keyed : keyed (ps_manifest st);
  pi_valid : forall k e, ps_manifest st !! k = Some e -> valid_entry e;
  pi_current : forall k e, ps_manifest st !! k = Some e ->
    exists v, ps_current st !! k = Some v /\ ev_EntryVersionID v = entryVersionID e;
  pi_changes : forall c, c ∈ ps_changes st ->
    exists e, ps_manifest st !! c_entryID c = Some e /\ state e = Active;
  pi_frame : forall k, k ∉ map c_entryID (ps_changes st) -> ps_manifest st !! k = items !! k;
  pi_grows : forall k, is_Some (items !! k) -> is_Some (ps_manifest st !! k);
  pi_versions : forall v, v ∈ ps_newVersions st ->
    ev_MemoryArtifactID v = memoryID /\ ev_CreatedInRevision v = rev
}.

Lemma record_version_inv memoryID rev items st id v m c ids :
  plan_inv memoryID rev items st -> valid_identifier id -> lowerHex64 (m_contentHash m) = true ->
  made_version memoryID id rev m v -> c_entryID c = id ->
  plan_inv memoryID rev items (record_version id v c ids st).
Proof.
  intros [K Hv Hc Hch Hf Hg Hn] Hid Hm [V1 V2 V3 V4 V5] Ec. unfold record_version.
  set (e := MkEntry id (ev_EntryVersionID v) (ev_EntryContentHash v) Active).
  assert (He : valid_entry e) by (split; [exact Hid|split; [exact V3|split; [cbn; by rewrite V4|by left]]]).
  rewrite (proj2 (NewManifestEntry_ok _ _ _ _ e) (conj eq_refl He)). cbn [entry_or_zero].
  split; cbn.
  - by apply (keyed_insert _ e).
  - intros k x [[<- <-]|[_ H]]%lookup_insert_Some; eauto.
  - intros k x [[<- <-]|[Hk H]]%lookup_insert_Some.
    + exists v. by rewrite lookup_insert_eq.
    + destruct (Hc _ _ H) as (w & Hw & Ew). exists w. by rewrite lookup_insert_ne.
  - intros c' [H|H%list_elem_of_singleton]%elem_of_app.
    + destruct (Hch _ H) as (x & Hx & Sx). destruct (decide (id = c_entryID c')) as [E|E].
      * exists e. by rewrite E, lookup_insert_eq.
      * exists x. by rewrite lookup_insert_ne.
    + subst c'. exists e. by rewrite Ec, lookup_insert_eq.
  - intros k Hk. rewrite map_app, not_elem_of_app in Hk. destruct Hk as [Hk1 Hk2].
    rewrite lookup_insert_ne; [by apply Hf|]. intros <-. apply Hk2. cbn. rewrite Ec. constructor.
  - intros k H%Hg. destruct (decide (id = k)) as [->|E]; [rewrite lookup_insert_eq; eauto|].
    by rewrite lookup_insert_ne.
  - intros w [H|H%list_elem_of_singleton]%elem_of_app; [by apply Hn|]. by subst w.
Qed.

Lemma claim_content_inv memoryID rev items st key :
  plan_inv memoryID rev items st -> plan_inv memoryID rev items (claim_content key st).
Proof. by intros [K Hv Hc Hch Hf Hg Hn]. Qed.
Lemma claim_target_inv memoryID rev items st ids :
  plan_inv memoryID rev items st -> plan_inv memoryID rev items (claim_target ids st).
Proof. by intros [K Hv Hc Hch Hf Hg Hn]. Qed.

Lemma plan_candidate_inv memoryID rev items evidence st c st' :
  plan_inv memoryID rev items st -> plan_candidate svc memoryID rev evidence st c = Ok st' ->
  plan_inv memoryID rev items st'.
Proof.
  intros HI H. unfold plan_candidate in H. destruct (in_entry c) as [requested|].
  - unfold revise_candidate in H. bind_inv H. destruct a as [[id previous] targeted]. bind_inv H. ok_inv.
    apply claimRevisionTarget_ok in Ha as (Hid & _ & _).
    destruct (_ && _); [ok_inv; subst st'; by apply claim_target_inv|].
    bind_inv H. destruct a3 as [v ids]. bind_inv H. ok_inv. subst st'.
    eapply record_version_inv; [by apply claim_target_inv|done|by eapply materialFromCandidate_hash| |].
    + by eapply newEntryVersion_made.
    + by apply NewChange_fields in Ha4 as (_ & Ha4 & _).
  - unfold add_candidate in H. bind_inv H. destruct (bool_decide _); [ok_inv; by subst st'|].
    bind_inv H. destruct a0 as [id ids]. bind_inv H. destruct a1 as [v ids']. bind_inv H. ok_inv. subst st'.
    eapply record_version_inv; [by apply claim_content_inv|by eapply newID_ok|by eapply materialFromCandidate_hash| |].
    + by eapply newEntryVersion_made.
    + by apply NewChange_fields in Ha3 as (_ & Ha3 & _).
Qed.
End plan.

(** ** Commits *)

Definition is_active (e : ManifestEntry) : bool := bool_decide (state e = Active).

Section commits.
Context {T : Text} {A : Analysis} {V S : Type} {VS : Values V S}.
Context {DB : Type} {B : Backend DB} {I : Type} (svc : Service V S I).

Lemma prepare_projection_version previous versions changed item ps :
  prepare_projection previous versions changed item = Ok ps ->
  map (fun p => ev_EntryVersionID (pr_entryVersion (fst p))) ps
  = map entryVersionID (List.filter is_active [item]).
Proof.
  unfold prepare_projection, is_active. cbn [List.filter].
  destruct (bool_decide (state item = Active)); cbn [negb]; [|by intros [= <-]].
  destruct (versions !! entryID item) as [v|]; [|done]. intros H. bind_inv H. ok_inv.
  apply String.eqb_eq in Ha. cbn [map]. rewrite <- Ha.
  destruct (previous !! ev_EntryVersionID v); [destruct (reusable _ _ _ _)|]; ok_inv; by subst ps.
Qed.

Lemma put_vectors_versions profile prepared vectors ps :
  put_vectors profile prepared vectors = Ok ps ->
  map pr_entryVersion ps = map (fun p => pr_entryVersion (fst p)) prepared.
Proof.
  revert vectors ps. induction prepared as [|[p []] prepared IH]; intros [|v vectors] ps H; cbn in H;
    bind_inv H; ok_inv; subst ps; try done; cbn; f_equal; by eapply IH.
Qed.

Lemma attachEmbeddings_versions db prepared ps :
  attachEmbeddings svc db prepared = Ok ps ->
  map pr_entryVersion ps = map (fun p => pr_entryVersion (fst p)) prepared.
Proof.
  assert (H0 : map pr_entryVersion (map fst prepared) = map (fun p => pr_entryVersion (fst p)) prepared)
    by (by rewrite map_map).
  unfold attachEmbeddings. cbv zeta.
  destruct (map _ (List.filter snd prepared)) as [|t ts]; [by intros [= <-]|].
  destruct (embeddingModel svc) as [model|]; [|by intros [= <-]].
  destruct (cap_profile _) as [profile|]; [|by intros [= <-]].
  destruct (_ || _); [by intros [= <-]|].
  destruct (embedTexts _ _ _) as [vectors|[]]; [apply put_vectors_versions|by intros [= <-]..|done].
Qed.

Lemma prepareProjections_active db base items versions changed ps :
  prepareProjections svc db base items versions changed = Ok ps ->
  map (fun p => ev_EntryVersionID (pr_entryVersion p)) ps = map entryVersionID (List.filter is_active items).
Proof.
  unfold prepareProjections. intros H. bind_inv H. clear Ha.
  apply attachEmbeddings_versions in H. apply map_res_Forall2 in Ha0.
  rewrite <- (map_map pr_entryVersion), H, map_map. clear H ps.
  induction Ha0 as [|item p items pss Hp Hps IH]; [done|].
  apply prepare_projection_version in Hp. cbn [concat]. rewrite map_app, Hp, IH, <- map_app.
  change (item :: items) with ([item] ++ items). by rewrite List.filter_app.
Qed.

(** A commit of the entries [items] and the changes [changes] as a revision. *)
Record commits (base : option Memory) (id : string) (rev : Z) (items : gmap string ManifestEntry)
    (changes : list Change) (newVersions : list EntryVersion) (c : Commit) : Prop := {
  co_base : cm_base c = base;
  co_ref : a_ref (cm_memory c) = MkRef Family id rev;
  co_revision : 1 <= rev;
  co_manifest : manifest (a_content (cm_memory c)) = sortedManifest items;
  co_changes : MemoryModel.changes (a_content (cm_memory c)) = sortedChanges changes;
  co_hash : ContentHash (a_content (cm_memory c)) = Ok (cm_contentHash c);
  co_versions : cm_entryVersions c = newVersions;
  co_projections : map (fun p => ev_EntryVersionID (pr_entryVersion p)) (cm_projections c)
    = map entryVersionID (List.filter is_active (sortedManifest items))
}.

Lemma build_commit_commits db base id rev items changes current versions srcs arts c :
  build_commit svc db base id rev items changes current versions srcs arts = Ok c ->
  commits base id rev items changes versions c.
Proof.
  unfold build_commit. intros H. bind_inv H. ok_inv. subst c.
  apply prepareProjections_active in Ha1.
  unfold lift_ref in Ha, Ha0. destruct (NewDraft _ _ _ _) as [draft|] eqn:E1 in Ha; [|done].
  destruct (New _ _ _) as [next|] eqn:E2 in Ha0; [|done]. cbn in Ha, Ha0. ok_inv. subst a a0.
  unfold NewDraft in E1. bind_inv E1. ok_inv. subst draft. unfold New in E2. bind_inv E2. ok_inv. subst next.
  match goal with H : NewRef _ _ _ = Ok _ |- _ => apply NewRef_ok in H as [-> Hr] end.
  cbn in *. split; try done. apply Hr.
Qed.

(** The entry versions that a manifest names. *)
Definition versions_of (items : Manifest) (versions : list EntryVersion) : Prop :=
  Forall2 (fun e v => ev_EntryID v = entryID e /\ ev_EntryVersionID v = entryVersionID e) items versions.

Lemma index_versions_ok versions byID k v :
  index_versions versions = Ok byID -> byID !! k = Some v -> ev_EntryVersionID v = k /\ v ∈ versions.
Proof.
  intros H. revert k v. revert H. unfold index_versions.
  apply (fold_res_ind (fun m : gmap string EntryVersion =>
    forall k v, m !! k = Some v -> ev_EntryVersionID v = k /\ v ∈ versions)).
  - intros m x m' Hx IH H. destruct (m !! ev_EntryVersionID x); [done|]. injection H as <-.
    intros k v [[<- <-]|[_ Hk]]%lookup_insert_Some; [by split|by apply IH].
  - intros k v H. by rewrite lookup_empty in H.
Qed.

Lemma validatedEntries_versions db value entries :
  validatedEntries db value = Ok entries -> versions_of (manifest (a_content value)) entries.
Proof.
  unfold validatedEntries. intros H. bind_inv H. apply map_res_Forall2 in H.
  eapply Forall2_impl; [exact H|]. intros e v Hv. unfold validated_entry in Hv.
  destruct (a0 !! entryVersionID e) as [w|] eqn:E; [|done].
  bind_inv Hv. ok_inv. boolify. subst w. split; [by apply String.eqb_eq|].
  by apply (index_versions_ok _ _ _ _ Ha0 E).
Qed.

Lemma versions_of_maps items versions k e :
  versions_of items versions -> manifestMap items !! k = Some e ->
  exists v, entryMap versions !! k = Some v /\ ev_EntryVersionID v = entryVersionID e.
Proof.
  intros H. unfold manifestMap, entryMap. generalize (∅ : gmap string EntryVersion).
  assert (H0 : forall k e, (∅ : gmap string ManifestEntry) !! k = Some e ->
    forall n : gmap string EntryVersion, exists v, n !! k = Some v /\ ev_EntryVersionID v = entryVersionID e)
    by (intros ? ? E; by rewrite lookup_empty in E).
  intros n. specialize (fun k e E => H0 k e E n). revert n H0. generalize (∅ : gmap string ManifestEntry).
  induction H as [|x v items versions [E1 E2] _ IH]; intros m n Hmn; cbn; [by apply Hmn|].
  apply IH. rewrite E1. intros k' e' [[<- <-]|[Hk Hm]]%lookup_insert_Some.
  - exists v. by rewrite lookup_insert_eq.
  - destruct (Hmn _ _ Hm) as (w & Hw & Ew). exists w. by rewrite lookup_insert_ne.
Qed.

Definition base_manifest (base : option Memory) : Manifest :=
  match base with Some b => manifest (a_content b) | None => [] end.

Lemma plan_start id rev base entries contents (ids : I) :
  Forall valid_entry (base_manifest base) -> versions_of (base_manifest base) entries ->
  plan_inv id rev (manifestMap (base_manifest base))
    (MkPlan (manifestMap (base_manifest base)) (entryMap entries) [] [] ∅ contents ids).
Proof.
  intros HF HV. split; cbn; try done.
  - apply manifestMap_keyed.
  - intros k e H%manifestMap_elem. by eapply Forall_forall.
  - intros k e. by apply versions_of_maps.
  - by intros c ?%not_elem_of_nil.
  - by intros v ?%not_elem_of_nil.
Qed.

Lemma prepareCommit_commits db base inputs evidence entries ids c ids' :
  prepareCommit svc db base inputs evidence entries ids = Ok (Some c, ids') ->
  Forall valid_entry (base_manifest base) -> versions_of (base_manifest base) entries ->
  exists id rev (st : @PlanState I),
    match base with
    | Some b => id = artifactID (a_ref b) /\ rev = wrap64 (revision (a_ref b) + 1)
    | None => valid_identifier id /\ rev = 1
    end /\
    plan_inv id rev (manifestMap (base_manifest base)) st /\ ps_changes st <> [] /\
    commits base id rev (ps_manifest st) (ps_changes st) (ps_newVersions st) c.
Proof.
  intros H HF HV. unfold prepareCommit in H. apply bind_ok_inv in H as ([id ids0] & Ha & H).
  apply bind_ok_inv in H as (contents & _ & H). apply bind_ok_inv in H as (st & Hst & H).
  set (rev := match base with None => 1 | Some b => _ end) in *.
  replace (match base with None => ∅ | Some b => manifestMap (manifest (a_content b)) end)
    with (manifestMap (base_manifest base)) in * by (by destruct base).
  exists id, rev, st.
  assert (HI : plan_inv id rev (manifestMap (base_manifest base)) st).
  { refine (fold_res_ind _ _ _ _ _ _ _ Hst); [|by apply plan_start].
    intros. by eapply plan_candidate_inv. }
  destruct (ps_changes st) as [|ch chs] eqn:Ec; [done|]. rewrite <- Ec in *.
  bind_inv H. injection H as <- <-. split; [|split; [exact HI|split; [by rewrite Ec|]]].
  - destruct base; [by injection Ha as <- <-|]. by apply newID_ok in Ha.
  - by eapply build_commit_commits.
Qed.
End commits.

(** ** State changes *)

Definition with_state (e : ManifestEntry) (target : EntryState) : ManifestEntry :=
  MkEntry (entryID e) (entryVersionID e) (entryContentHash e) target.

(** The entries named by [ids] take the state [target]. *)
Definition retarget (ids : list string) (target : EntryState) (e : ManifestEntry) : ManifestEntry :=
  if bool_decide (entryID e ∈ ids) then with_state e target else e.

Definition proper_target (target : EntryState) : Prop := target = Active \/ target = Inactive.

(** The requested identities distinguish the requested entries: so they do when
    no identifier holds a NUL. *)
Definition identities_apart (entries : list EntryVersion) : Prop :=
  forall v w, v ∈ entries -> w ∈ entries ->
  requested_identity v = requested_identity w -> ev_EntryID v = ev_EntryID w.

Lemma set_state_valid e target : valid_entry e -> proper_target target -> set_state e target = with_state e target.
Proof.
  intros (H1 & H2 & H3 & _) Ht. unfold set_state.
  by rewrite (proj2 (NewManifestEntry_ok _ _ _ _ (with_state e target)) (conj eq_refl (conj H1 (conj H2 (conj H3 Ht))))).
Qed.

Lemma with_state_same e : with_state e (state e) = e.
Proof. by destruct e. Qed.
Lemma entryID_retarget ids target e : entryID (retarget ids target e) = entryID e.
Proof. unfold retarget. by case_bool_decide. Qed.

Lemma retarget_hash ids target e : entryContentHash (retarget ids target e) = entryContentHash e.
Proof. unfold retarget. by case_bool_decide. Qed.
Lemma retarget_valid ids target e : proper_target target -> valid_entry e -> valid_entry (retarget ids target e).
Proof.
  intros Ht (V1 & V2 & V3 & V4). unfold retarget. case_bool_decide; [|done].
  split; [exact V1|]. split; [exact V2|]. split; [exact V3|exact Ht].
Qed.

Lemma retarget_canonical ids target l :
  canonical_manifest l -> canonical_manifest (map (retarget ids target) l).
Proof.
  assert (E : map entryID (map (retarget ids target) l) = map entryID l)
    by (rewrite map_map; apply map_ext, entryID_retarget).
  intros [HS HN]. split; [|by rewrite E]. clear E HN.
  induction HS as [|e l HS IH HR]; [constructor|]. constructor; [done|].
  destruct HR; constructor. unfold entry_le in *. by rewrite !entryID_retarget.
Qed.

Section states.
Context {T : Text} (items : gmap string ManifestEntry) (current : gmap string EntryVersion).
Context (target : EntryState) (reason : option string).
Hypothesis items_keyed : keyed items.
Hypothesis items_valid : forall k e, items !! k = Some e -> valid_entry e.
Hypothesis target_proper : proper_target target.

(** After the requests [done], in any order and with repetitions. *)
Record states_inv (done : list EntryVersion) (st : StateLoop) : Prop := {
  si_items : forall k, sl_manifest st !! k = retarget (map ev_EntryID done) target <$> items !! k;
  si_current : forall v, v ∈ done -> is_Some (items !! ev_EntryID v) /\
    exists w, current !! ev_EntryID v = Some w /\ requested_identity w = requested_identity v;
  si_seen : forall x, x ∈ sl_seen st -> exists v, v ∈ done /\ requested_identity v = x;
  si_changes : forall k, k ∈ map c_entryID (sl_changes st) <->
    exists e, items !! k = Some e /\ k ∈ map ev_EntryID done /\ state e <> target;
  si_once : NoDup (map c_entryID (sl_changes st))
}.

Lemma states_start : states_inv [] (MkStateLoop items [] ∅).
Proof.
  split; cbn; try done.
  - intros k. destruct (items !! k) as [e|]; [|done]. cbn. unfold retarget.
    rewrite bool_decide_eq_false_2; [done|]. apply not_elem_of_nil.
  - by intros v ?%not_elem_of_nil.
  - intros k. split; [by intros ?%not_elem_of_nil|]. by intros (e & _ & ?%not_elem_of_nil & _).
  - constructor.
Qed.

Lemma retarget_snoc done v e :
  retarget (map ev_EntryID (done ++ [v])) target e
  = if bool_decide (entryID e = ev_EntryID v) then with_state e target
    else retarget (map ev_EntryID done) target e.
Proof.
  unfold retarget. rewrite map_app. cbn.
  case_bool_decide as H1; case_bool_decide as H2; try case_bool_decide as H3; try done; exfalso; set_solver.
Qed.

Lemma retarget_stale done v e : ev_EntryID v ∈ map ev_EntryID done ->
  retarget (map ev_EntryID (done ++ [v])) target e = retarget (map ev_EntryID done) target e.
Proof.
  intros H. rewrite retarget_snoc. case_bool_decide as E; [|done]. unfold retarget.
  by rewrite E, bool_decide_eq_true_2.
Qed.

Lemma ids_snoc done v k : k ∈ map ev_EntryID (done ++ [v]) <-> k ∈ map ev_EntryID done \/ k = ev_EntryID v.
Proof. rewrite map_app. cbn. set_solver. Qed.

(** A request that repeats an identity changes nothing. *)
Lemma states_seen done st v :
  (forall w, w ∈ done -> requested_identity w = requested_identity v -> ev_EntryID w = ev_EntryID v) ->
  requested_identity v ∈ sl_seen st -> states_inv done st -> states_inv (done ++ [v]) st.
Proof.
  intros Hap Hs [I1 I2 I3 I4 I5]. destruct (I3 _ Hs) as (w & Hw & Ew).
  pose proof (Hap _ Hw Ew) as E. assert (Hin : ev_EntryID v ∈ map ev_EntryID done).
  { rewrite <- E. by apply list_elem_of_fmap_2. }
  split; [| | | |done].
  - intros k. rewrite I1. destruct (items !! k); [|done]. cbn. by rewrite retarget_stale.
  - intros x [H|H%list_elem_of_singleton]%elem_of_app; [by apply I2|]. subst x.
    destruct (I2 _ Hw) as (H1 & c & H2 & H3). rewrite <- E. split; [done|]. exists c. by rewrite H3.
  - intros x H. destruct (I3 _ H) as (y & Hy & Ey). exists y. rewrite elem_of_app. auto.
  - intros k. rewrite I4. split; intros (e & H1 & H2 & H3); exists e; repeat split; try done.
    + apply ids_snoc. by left.
    + apply ids_snoc in H2 as [H2| ->]; done.
Qed.

(** The stored entry a request names, as the loop has left it. *)
Lemma states_item done st v item :
  states_inv done st -> sl_manifest st !! ev_EntryID v = Some item ->
  exists e, items !! ev_EntryID v = Some e /\ entryID e = ev_EntryID v /\
    item = retarget (map ev_EntryID done) target e.
Proof.
  intros HI H. rewrite (si_items _ _ HI) in H. destruct (items !! ev_EntryID v) as [e|] eqn:E; [|done].
  cbn in H. injection H as <-. exists e. split; [done|]. split; [by apply items_keyed|done].
Qed.

Lemma set_one_inv done st v st' :
  (forall w, w ∈ done -> requested_identity w = requested_identity v -> ev_EntryID w = ev_EntryID v) ->
  states_inv done st -> set_one current target reason st v = Ok st' -> states_inv (done ++ [v]) st'.
Proof.
  intros Hap HI H. unfold set_one in H. case_bool_decide as Hs.
  { injection H as <-. by apply states_seen. }
  cbv zeta in H. bind_inv H. ok_inv. boolify. apply ValidateIdentifier_ok in Ha as [-> Hid].
  destruct (states_item _ _ _ _ HI Ha0) as (e & He & Ee & Ei).
  destruct HI as [I1 I2 I3 I4 I5].
  assert (J2 : forall x, x ∈ done ++ [v] -> is_Some (items !! ev_EntryID x) /\
    exists w, current !! ev_EntryID x = Some w /\ requested_identity w = requested_identity x).
  { intros x [Hx|Hx%list_elem_of_singleton]%elem_of_app; [by apply I2|]. subst x.
    split; [by rewrite He|]. exists a1. split; [done|]. by subst a1. }
  assert (J3 : forall x, x ∈ {[requested_identity v]} ∪ sl_seen st ->
    exists y, y ∈ done ++ [v] /\ requested_identity y = x).
  { intros x [Hx%elem_of_singleton|Hx]%elem_of_union.
    - exists v. split; [|done]. apply elem_of_app. right. by apply list_elem_of_singleton.
    - destruct (I3 _ Hx) as (y & Hy & Ey). exists y. rewrite elem_of_app. auto. }
  assert (J1 : forall k, k <> ev_EntryID v ->
    sl_manifest st !! k = retarget (map ev_EntryID (done ++ [v])) target <$> items !! k).
  { intros k Hk. rewrite I1. destruct (items !! k) as [x|] eqn:Ex; [|done]. cbn. rewrite retarget_snoc.
    rewrite bool_decide_eq_false_2; [done|]. by rewrite (items_keyed _ _ Ex). }
  assert (J1' : retarget (map ev_EntryID (done ++ [v])) target <$> items !! ev_EntryID v
                = Some (with_state e target)).
  { rewrite He. cbn. rewrite retarget_snoc, bool_decide_eq_true_2; done. }
  case_bool_decide as Hst.
  - injection H as <-. split; cbn; try done.
    + intros k. destruct (decide (k = ev_EntryID v)) as [->|Hk]; [|by apply J1].
      rewrite J1', I1, He. cbn. rewrite <- Ei. f_equal. subst a0. clear -Hst. revert Hst. unfold retarget.
      case_bool_decide; [done|]. intros <-. symmetry. apply with_state_same.
    + intros k. rewrite I4. split; intros (x & H1 & H2 & H3); exists x; repeat split; try done.
      * apply ids_snoc. by left.
      * apply ids_snoc in H2 as [H2| ->]; [done|]. rewrite He in H1. injection H1 as ->.
        revert Hst. rewrite Ei. unfold retarget. case_bool_decide as E; [|done]. intros _.
        by rewrite Ee in E.
  - assert (Hnew : ev_EntryID v ∉ map ev_EntryID done).
    { intros Hin. apply Hst. rewrite Ei. unfold retarget. by rewrite Ee, bool_decide_eq_true_2. }
    assert (Ea : a0 = e).
    { rewrite Ei. unfold retarget. by rewrite Ee, bool_decide_eq_false_2. }
    clear Ei. subst a0. apply bind_ok_inv in H as (c & Hc & H). injection H as <-.
    assert (Ec : c_entryID c = ev_EntryID v).
    { destruct target; apply NewChange_fields in Hc; tauto. }
    assert (Hids : map c_entryID (sl_changes st ++ [c]) = map c_entryID (sl_changes st) ++ [ev_EntryID v])
      by (rewrite map_app; cbn; by rewrite Ec).
    split; cbn; try done.
    + intros k. rewrite set_state_valid by eauto. destruct (decide (k = ev_EntryID v)) as [->|Hk].
      * by rewrite lookup_insert_eq, J1'.
      * rewrite lookup_insert_ne by done. by apply J1.
    + intros k. rewrite Hids, elem_of_app, list_elem_of_singleton, I4. split.
      * intros [(x & H1 & H2 & H3)| ->]; [exists x|exists e]; repeat split; try done; apply ids_snoc; auto.
      * intros (x & H1 & [H2| ->]%ids_snoc & H3); [left; eauto|by right].
    + rewrite Hids. apply NoDup_app. split; [done|]. split; [|apply NoDup_singleton].
      intros k (x & _ & H2 & _)%I4 ->%list_elem_of_singleton. done.
Qed.

Lemma set_loop_inv done st entries st' :
  identities_apart (done ++ entries) -> states_inv done st ->
  fold_res (set_one current target reason) st entries = Ok st' -> states_inv (done ++ entries) st'.
Proof.
  revert done st. induction entries as [|v entries IH]; intros done st Hap HI H.
  { injection H as <-. by rewrite app_nil_r. }
  apply bind_ok_inv in H as (st1 & H1 & H).
  replace (done ++ v :: entries) with ((done ++ [v]) ++ entries) in * by (by rewrite <- app_assoc).
  apply (IH _ st1); [done| |done]. eapply set_one_inv; [|done|done].
  intros w Hw E. apply Hap; [| |done]; rewrite !elem_of_app, ?list_elem_of_singleton; auto.
Qed.
End states.

(** ** Transitions *)

Section transitions.
Context {T : Text} {A : Analysis} {V S : Type} {VS : Values V S}.
Context {DB : Type} {B : Backend DB} {L : BackendLaws DB} {I : Type} (svc : Service V S I).

Lemma canonical_head_ok db value base :
  canonical_head db value = Ok base ->
  base = value /\ b_Get db (a_ref value) = Ok value /\ b_Latest db (artifactID (a_ref value)) = Ok value.
Proof.
  unfold canonical_head. intros H. bind_inv H. ok_inv. boolify. by subst.
Qed.

Lemma transition_base_ok db value base entries :
  transition_base db value = Ok (base, entries) ->
  base = value /\ b_Latest db (artifactID (a_ref value)) = Ok value /\
  versions_of (manifest (a_content value)) entries.
Proof.
  unfold transition_base. intros H. bind_inv H. injection H as -> ->.
  apply canonical_head_ok in Ha as (-> & _ & H). split; [done|]. split; [done|].
  by eapply validatedEntries_versions.
Qed.

(** A stored successor of [value] with the entries [items]. *)
Record successor (db db' : DB) (value m : Memory) (items : Manifest) : Prop := {
  su_ref : a_ref m = MkRef Family (artifactID (a_ref value)) (wrap64 (revision (a_ref value) + 1));
  su_manifest : manifest (a_content m) = items;
  su_get : b_Get db' (a_ref m) = Ok m;
  su_latest : b_Latest db' (artifactID (a_ref value)) = Ok m;
  su_frame : forall r, r <> a_ref m -> b_Get db' r = b_Get db r
}.

Lemma commitExistingTransition_ok db value items changes current versions db' m :
  commitExistingTransition svc db value items changes current versions = (db', Ok m) ->
  successor db db' value m (sortedManifest items) /\
  MemoryModel.changes (a_content m) = sortedChanges changes.
Proof.
  unfold commitExistingTransition. destruct (build_commit _ _ _ _ _ _ _ _ _ _ _) as [c|] eqn:E; [|done].
  apply build_commit_commits in E as [C1 C2 C3 C4 C5 C6 C7 C8].
  destruct (b_Commit db c) as [[m' db1]|] eqn:Eb; [|done]. intros [= <- <-].
  destruct (commit_stores _ _ _ _ Eb) as (-> & H2 & H3). split; [|done].
  rewrite C2 in H3. split; try done. intros r. by apply (commit_frame _ _ _ _ _ Eb).
Qed.

Lemma retarget_id ids target l :
  (forall e, e ∈ l -> entryID e ∈ ids -> state e = target) -> map (retarget ids target) l = l.
Proof.
  intros H. transitivity (map id l); [|by rewrite map_id]. apply map_ext_in.
  intros e He%list_elem_of_In. unfold retarget, id.
  case_bool_decide as E; [|done]. rewrite <- (H _ He E). apply with_state_same.
Qed.

(** The map of a canonical manifest, its entries taking the target state. *)
Lemma sorted_retarget l m ids target :
  canonical_manifest l -> (forall k, m !! k = retarget ids target <$> manifestMap l !! k) ->
  sortedManifest m = map (retarget ids target) l.
Proof.
  intros Hl Hm.
  assert (Hk : keyed m).
  { intros k e H. rewrite Hm in H. destruct (manifestMap l !! k) as [x|] eqn:Ex; [|done].
    cbn in H. injection H as <-. rewrite entryID_retarget. by apply manifestMap_keyed in Ex. }
  apply canonical_manifest_ext; [by apply sortedManifest_canonical|by apply retarget_canonical|].
  intros e. rewrite elem_of_sortedManifest, Hm, list_elem_of_fmap by done. split.
  - destruct (manifestMap l !! entryID e) as [x|] eqn:Ex; [|done]. cbn. intros [= <-].
    exists x. split; [done|]. by eapply manifestMap_elem.
  - intros (x & -> & Hx). rewrite entryID_retarget, manifestMap_lookup; [done|apply Hl|done].
Qed.

Lemma plan_states_ok db value entries target reason base current st :
  plan_states db value entries target reason = Ok (base, current, st) ->
  proper_target target -> Forall valid_entry (manifest (a_content value)) -> identities_apart entries ->
  base = value /\ states_inv (manifestMap (manifest (a_content value))) current target entries st.
Proof.
  unfold plan_states. intros H Ht Hv Hap. apply bind_ok_inv in H as ([b es] & Hb & H).
  apply bind_ok_inv in H as (why & _ & H). apply bind_ok_inv in H as (st' & Hst & H). injection H as <- <- <-.
  apply transition_base_ok in Hb as (-> & _ & _). split; [done|].
  refine (set_loop_inv _ _ _ _ _ _ _ [] _ entries _ Hap _ Hst); [apply manifestMap_keyed| |done|apply states_start].
  intros k e He%manifestMap_elem. by eapply Forall_forall in He.
Qed.

Lemma setEntryState_ok db value entries target reason db' m :
  setEntryState svc db value entries target reason = (db', Ok m) ->
  proper_target target -> Forall valid_entry (manifest (a_content value)) ->
  canonical_manifest (manifest (a_content value)) -> identities_apart entries ->
  let items := map (retarget (map ev_EntryID entries) target) (manifest (a_content value)) in
  manifest (a_content m) = items /\
  (forall v, v ∈ entries -> ev_EntryID v ∈ map entryID (manifest (a_content value))) /\
  (db' = db /\ m = value \/
   successor db db' value m items /\ NoDup (map c_entryID (MemoryModel.changes (a_content m)))).
Proof.
  intros H Ht Hv Hl Hap items. unfold setEntryState in H.
  destruct (plan_states _ _ _ _ _) as [[[base current] st]|] eqn:E; [|done].
  apply plan_states_ok in E as [-> [I1 I2 I3 I4 I5]]; [|done..].
  assert (Hr : forall v, v ∈ entries -> ev_EntryID v ∈ map entryID (manifest (a_content value))).
  { intros v Hin. destruct (I2 _ Hin) as [[e He] _]. pose proof (manifestMap_keyed _ _ _ He) as <-.
    apply list_elem_of_fmap_2. by eapply manifestMap_elem. }
  destruct (sl_changes st) as [|ch chs] eqn:Ec.
  - injection H as <- <-. assert (E : items = manifest (a_content value)).
    { apply retarget_id. intros e He Hid. destruct (decide (state e = target)) as [|Hs]; [done|].
      exfalso. apply (not_elem_of_nil (entryID e)). apply (I4 (entryID e)). exists e.
      split; [apply manifestMap_lookup; [apply Hl|done]|done]. }
    split; [done|]. split; [done|]. by left.
  - rewrite <- Ec in *. apply commitExistingTransition_ok in H as [H Hch].
    rewrite (sorted_retarget _ _ _ _ Hl I1) in H. split; [by apply H|]. split; [done|]. right.
    split; [done|]. by rewrite Hch, sortedChanges_perm.
Qed.
End transitions.
