(* ===== verification/PlanFacts.v ===== *)
(** * Facts on the deduplication and normalization of a Memory, and on the canonical
    material of its entries *)

From stdpp Require Import sorting.
From S2P Require Import Prelude.
From S2P Require Import GoStrings.
From S2P Require Import GoTime.
From S2P Require Import Refs.
From S2P Require Import MemoryModel.
From S2P Require Import MemoryService.
From S2P Require Import MemoryServiceFacts.
From S2P Require Import Json.
From S2P Require Import Sha256.

(** ** The identifiers that a group gives up *)

Lemma elem_of_duplicates ids k :
  NoDup ids -> k ∈ duplicates ids <-> k ∈ ids /\ exists k', k' ∈ ids /\ k' <> k /\ str_le k' k.
Proof.
  intros Hn. unfold duplicates. pose proof (merge_sort_Permutation str_le ids) as HP.
  pose proof (StronglySorted_merge_sort str_le ids) as HS.
  revert HP HS. generalize (merge_sort str_le ids). intros l HP HS. rewrite <- HP in Hn.
  assert (Hl : forall x, x ∈ ids <-> x ∈ l) by (intros x; by rewrite HP).
  setoid_rewrite Hl. clear HP Hl ids. destruct l as [|x l]; cbn.
  { split; [by intros ?%not_elem_of_nil|by intros [?%not_elem_of_nil _]]. }
  inversion HS as [|? ? _ HF]; subst. rewrite Forall_forall in HF. apply NoDup_cons in Hn as [Hx Hn]. split.
  - intros Hk. split; [by right|]. exists x. split; [left|]. split; [by intros ->|by apply HF].
  - intros [Hk (k' & Hk' & Hne & Hle)]. apply elem_of_cons in Hk as [->|Hk]; [|done].
    apply elem_of_cons in Hk' as [->|Hk']; [done|]. exfalso. apply Hne.
    apply (anti_symm str_le); [done|by apply HF].
Qed.

Lemma NoDup_duplicates ids : NoDup ids -> NoDup (duplicates ids).
Proof.
  intros Hn. unfold duplicates. rewrite <- (merge_sort_Permutation str_le ids) in Hn.
  destruct (merge_sort str_le ids); [done|]. by apply NoDup_cons in Hn as [_ ?].
Qed.

Lemma duplicates_incl ids k : k ∈ duplicates ids -> k ∈ ids.
Proof.
  unfold duplicates. intros H. rewrite <- (merge_sort_Permutation str_le ids).
  destruct (merge_sort str_le ids); [done|]. by right.
Qed.

(** ** Grouping by content *)

Section groups.
Context {T : Text} (current : gmap string EntryVersion).

(** The canonical content of an entry's stored version. *)
Definition content_of (id : string) : option string :=
  v ← current !! id;
  match materialFromVersion v with Ok m => Some (content_key m) | Err _ => None end.

Definition in_group (done : list ManifestEntry) (key id : string) : Prop :=
  exists e, e ∈ done /\ entryID e = id /\ state e = Active /\ content_of id = Some key.

Record groups_inv (done : list ManifestEntry) (groups : gmap string (list string)) : Prop := {
  gi_group : forall key id, id ∈ default [] (groups !! key) <-> in_group done key id;
  gi_once : forall key, NoDup (default [] (groups !! key));
  gi_known : forall e, e ∈ done -> state e = Active -> is_Some (content_of (entryID e))
}.

Lemma group_item_inv done groups item groups' :
  NoDup (map entryID (done ++ [item])) -> groups_inv done groups ->
  group_item current groups item = Ok groups' -> groups_inv (done ++ [item]) groups'.
Proof.
  intros Hn [G1 G2 G3] H. unfold group_item in H. rewrite map_app, NoDup_app in Hn. destruct Hn as (_ & Hn & _).
  case_bool_decide as Hs; cbn [negb] in H.
  - apply bind_ok_inv in H as (v & Hv & H). apply bind_ok_inv in H as (m & Hm & H). injection H as <-.
    apply of_option_ok_inv in Hv.
    assert (Hc : content_of (entryID item) = Some (content_key m)).
    { unfold content_of. rewrite Hv. cbn. by rewrite Hm. }
    assert (Hnew : entryID item ∉ default [] (groups !! content_key m)).
    { intros (e & He & Ee & _)%G1. apply (Hn (entryID e)); [by apply list_elem_of_fmap_2|].
      rewrite Ee. apply list_elem_of_singleton. done. }
    split.
    + intros key id. destruct (decide (content_key m = key)) as [<-|Hk].
      * rewrite lookup_insert_eq. cbn. rewrite elem_of_app, list_elem_of_singleton, G1. unfold in_group. split.
        -- intros [(e & He & H)| ->]; [exists e|exists item]; rewrite elem_of_app, list_elem_of_singleton; auto.
        -- intros (e & He & E & S & C). apply elem_of_app in He as [He|He%list_elem_of_singleton].
           ++ left. by exists e.
           ++ right. by subst.
      * rewrite lookup_insert_ne, G1 by done. unfold in_group.
        split; intros (e & He & E & S & C); exists e; rewrite ?elem_of_app in *; repeat split; auto.
        destruct He as [He|He%list_elem_of_singleton]; [done|]. subst. congruence.
    + intros key. destruct (decide (content_key m = key)) as [<-|Hk]; [|by rewrite lookup_insert_ne].
      rewrite lookup_insert_eq. cbn. apply NoDup_app. split; [by apply G2|].
      split; [|apply NoDup_singleton]. by intros x Hx ->%list_elem_of_singleton.
    + intros e [He|He%list_elem_of_singleton]%elem_of_app; [by apply G3|]. intros _. subst. by rewrite Hc.
  - injection H as <-. split; [|done|].
    + intros key id. rewrite G1. unfold in_group. split; intros (e & He & E & S & C); exists e; repeat split; auto.
      * apply elem_of_app. by left.
      * apply elem_of_app in He as [He|He%list_elem_of_singleton]; [done|]. by subst.
    + intros e [He|He%list_elem_of_singleton]%elem_of_app; [by apply G3|]. by subst.
Qed.

Lemma group_loop done groups more groups' :
  NoDup (map entryID (done ++ more)) -> groups_inv done groups ->
  fold_res (group_item current) groups more = Ok groups' -> groups_inv (done ++ more) groups'.
Proof.
  revert done groups. induction more as [|e more IH]; intros done groups Hn HI H.
  { injection H as <-. by rewrite app_nil_r. }
  apply bind_ok_inv in H as (g1 & H1 & H).
  replace (done ++ e :: more) with ((done ++ [e]) ++ more) in * by (by rewrite <- app_assoc).
  apply (IH _ g1); [done| |done]. eapply group_item_inv; [|done|done].
  rewrite map_app in Hn. by apply NoDup_app in Hn as [Hn _].
Qed.
End groups.

(** ** Deactivating the duplicates *)

Section dedupe.
Context {T : Text} {TL : TextLaws} (items : gmap string ManifestEntry) (current : gmap string EntryVersion).
Hypothesis items_keyed : keyed items.
Hypothesis items_valid : forall k e, items !! k = Some e -> valid_entry e.

Record dedupe_inv (dropped : list string) (st : DedupeState) : Prop := {
  di_items : forall k, dd_manifest st !! k = retarget dropped Inactive <$> items !! k;
  di_changes : map c_entryID (dd_changes st) = dropped;
  di_changed : forall k, k ∈ dd_changed st <-> k ∈ dropped
}.

Lemma retarget_app_one dropped id e :
  retarget (dropped ++ [id]) Inactive e
  = if bool_decide (entryID e = id) then with_state e Inactive else retarget dropped Inactive e.
Proof.
  unfold retarget. case_bool_decide as H1; case_bool_decide as H2; try case_bool_decide as H3; try done;
    exfalso; set_solver.
Qed.


Lemma dedupe_change id version : valid_identifier id -> valid_identifier version ->
  NewChange Deactivate id (Some version) None (Some "dedupe"%string)
  = Ok (MkChange Deactivate id (Some version) None (Some "dedupe"%string)).
Proof.
  intros Hi Hv. unfold NewChange, NormalizeReason, validate_optional, trimPythonWhitespace.
  rewrite (proj2 (ValidateIdentifier_ok id id) (conj eq_refl Hi)).
  rewrite (proj2 (ValidateIdentifier_ok version version) (conj eq_refl Hv)).
  by rewrite (NFC_ascii "dedupe").
Qed.

Lemma dedupe_one_inv dropped st id :
  is_Some (items !! id) -> dedupe_inv dropped st -> dedupe_inv (dropped ++ [id]) (dedupe_one st id).
Proof.
  intros [e He] [D1 D2 D3]. pose proof (items_keyed _ _ He) as Ee. pose proof (items_valid _ _ He) as Hv.
  set (item := retarget dropped Inactive e).
  assert (E0 : default (MkEntry "" "" "" (OtherState "")) (dd_manifest st !! id) = item) by (by rewrite D1, He).
  unfold dedupe_one. rewrite E0. clear E0.
  assert (Hi : valid_entry item) by (apply retarget_valid; [by right|done]).
  assert (Ei : entryID item = id) by (unfold item; by rewrite entryID_retarget).
  assert (Ew : with_state item Inactive = with_state e Inactive) by (unfold item, retarget; by case_bool_decide).
 rewrite set_state_valid by (try done; by right). rewrite Ew.
  rewrite dedupe_change; [|rewrite <- Ei; apply Hi|apply Hi]. split; cbn.
  - intros k. destruct (decide (id = k)) as [<-|Hk].
    + rewrite lookup_insert_eq, He. cbn. rewrite retarget_app_one, bool_decide_eq_true_2; done.
    + rewrite lookup_insert_ne, D1 by done. destruct (items !! k) as [x|] eqn:Ex; [|done]. cbn.
      rewrite retarget_app_one, bool_decide_eq_false_2; [done|]. rewrite (items_keyed _ _ Ex). by intros ->.
  - rewrite map_app, D2. done.
  - intros k. rewrite elem_of_union, elem_of_singleton, D3, elem_of_app, list_elem_of_singleton. tauto.
Qed.

Lemma dedupe_list_inv ids dropped st :
  (forall k, k ∈ ids -> is_Some (items !! k)) -> dedupe_inv dropped st ->
  dedupe_inv (dropped ++ ids) (fold_left dedupe_one ids st).
Proof.
  revert dropped st. induction ids as [|id ids IH]; intros dropped st Hk HI; cbn; [by rewrite app_nil_r|].
  replace (dropped ++ id :: ids) with ((dropped ++ [id]) ++ ids) by (by rewrite <- app_assoc).
  apply IH; [intros k Hin; apply Hk; by right|]. apply dedupe_one_inv; [apply Hk; left|done].
Qed.

Lemma dedupe_groups_inv groups dropped st :
  (forall ids k, ids ∈ groups -> k ∈ ids -> is_Some (items !! k)) -> dedupe_inv dropped st ->
  dedupe_inv (dropped ++ concat (map duplicates groups))
    (fold_left (fun st ids => fold_left dedupe_one (duplicates ids) st) groups st).
Proof.
  revert dropped st. induction groups as [|g groups IH]; intros dropped st Hk HI; cbn; [by rewrite app_nil_r|].
  rewrite app_assoc. apply IH; [intros ids k Hin; apply Hk; by right|].
  apply dedupe_list_inv; [|done]. intros k Hin. apply (Hk g); [left|by apply duplicates_incl].
Qed.

(** An active entry is dropped when another active entry with the same content
    has a smaller identifier. *)
Definition superseded (id : string) : Prop :=
  exists key, content_of current id = Some key /\
    exists e e', items !! id = Some e /\ state e = Active /\
      items !! entryID e' = Some e' /\ state e' = Active /\ content_of current (entryID e') = Some key /\
      entryID e' <> id /\ str_le (entryID e') id.

Lemma deduplicateManifest_spec dd :
  deduplicateManifest items current = Ok dd ->
  exists dropped, dedupe_inv dropped dd /\ (forall k, k ∈ dropped <-> superseded k) /\
    forall e, items !! entryID e = Some e -> state e = Active -> is_Some (content_of current (entryID e)).
Proof.
  unfold deduplicateManifest. intros H. apply bind_ok_inv in H as (groups & Hg & H). injection H as <-.
  set (entries := map snd (map_to_list items)) in *.
  assert (Hin : forall e, e ∈ entries <-> items !! entryID e = Some e).
  { intros e. rewrite <- (elem_of_sortedManifest items e items_keyed). by rewrite sortedManifest_perm. }
  assert (HG : groups_inv current entries groups).
  { refine (group_loop current [] ∅ entries groups _ _ Hg).
    - cbn. unfold entries. rewrite map_keys_values by done. apply (NoDup_fst_map_to_list items).
    - split; [|by intros key; rewrite lookup_empty; constructor|by intros e ?%not_elem_of_nil].
      intros key id. rewrite lookup_empty. split; [by intros ?%not_elem_of_nil|].
      by intros (e & ?%not_elem_of_nil & _). }
  destruct HG as [G1 G2 G3].
  assert (Hids : forall ids, ids ∈ map snd (map_to_list groups) -> exists key, groups !! key = Some ids).
  { intros ids ([key ids'] & -> & Hk%elem_of_map_to_list)%list_elem_of_fmap. by exists key. }
  exists (concat (map duplicates (map snd (map_to_list groups)))). split; [|split].
  - apply (dedupe_groups_inv _ []).
    + intros ids k Hi Hk. destruct (Hids _ Hi) as [key Hkey]. specialize (G1 key k). rewrite Hkey in G1.
      apply G1 in Hk as (e & He & <- & _). exists e. by apply Hin.
    + split; cbn; [|done|intros k; set_solver]. intros k. destruct (items !! k) as [e|]; [|done]. cbn.
      unfold retarget. rewrite bool_decide_eq_false_2; [done|apply not_elem_of_nil].
  - intros k. rewrite list_elem_of_In, in_concat. split.
    + intros (l & Hl & Hk). apply list_elem_of_In, list_elem_of_fmap in Hl as (ids & -> & Hi).
      apply list_elem_of_In in Hk. destruct (Hids _ Hi) as [key Hkey].
      pose proof (G2 key) as Hn. pose proof (G1 key) as Hm. rewrite Hkey in Hn, Hm. cbn in Hn, Hm.
      apply elem_of_duplicates in Hk as (H1 & k' & H2 & H3 & H4); [|done].
      apply Hm in H1 as (e & E1 & <- & E3 & E4). apply Hm in H2 as (e' & E1' & <- & E3' & E4').
      exists key. split; [done|]. exists e, e'. by rewrite <- !Hin.
    + intros (key & C & e & e' & I1 & S1 & I2 & S2 & C2 & Hne & Hle).
      assert (Hk : k ∈ default [] (groups !! key)).
      { apply G1. exists e. pose proof (items_keyed _ _ I1) as <-. by rewrite Hin. }
      destruct (groups !! key) as [ids|] eqn:Hkey; [|by apply not_elem_of_nil in Hk]. cbn in Hk.
      exists (duplicates ids). split.
      * apply list_elem_of_In, list_elem_of_fmap_2, list_elem_of_fmap. exists (key, ids).
        split; [done|]. by apply elem_of_map_to_list.
      * apply list_elem_of_In, elem_of_duplicates; [specialize (G2 key); by rewrite Hkey in G2|].
        split; [done|]. exists (entryID e'). split; [|done]. specialize (G1 key (entryID e')).
        rewrite Hkey in G1. apply G1. exists e'. by rewrite Hin.
  - intros e He Hs. apply G3; [by apply Hin|done].
Qed.
End dedupe.

(** ** Normalizing the stored versions *)

(** The same entry, up to the version that stores its content. *)
Definition same_content (e e' : ManifestEntry) : Prop :=
  entryID e' = entryID e /\ entryContentHash e' = entryContentHash e /\ state e' = state e.

Section normalize.
Context {T : Text} {V S I : Type} (svc : Service V S I) (base : Memory) (skip : gset string).
Context (items : gmap string ManifestEntry) (current : gmap string EntryVersion).
Hypothesis items_keyed : keyed items.
Hypothesis items_valid : forall k e, items !! k = Some e -> valid_entry e.
(** every current version has an entry with its canonical hash *)
Hypothesis current_hash : forall k v, current !! k = Some v -> exists e, items !! k = Some e /\
  forall m, materialFromVersion v = Ok m -> m_contentHash m = entryContentHash e.

Record normalize_inv (pending : list string) (st : @NormalizeState I) : Prop := {
  ni_items : forall k, option_Forall2 same_content (items !! k) (nz_manifest st !! k);
  ni_valid : forall k e, nz_manifest st !! k = Some e -> valid_entry e;
  ni_pending : forall k, k ∈ pending -> nz_current st !! k = current !! k /\ nz_manifest st !! k = items !! k
}.

Lemma normalize_one_inv k pending st st' :
  NoDup (k :: pending) -> normalize_inv (k :: pending) st -> normalize_one svc base skip st k = Ok st' ->
  normalize_inv pending st'.
Proof.
  intros Hn [N1 N2 N3] H.
  assert (HI : normalize_inv pending st) by (split; auto; intros; apply N3; by right).
  apply NoDup_cons in Hn as [Hk _]. unfold normalize_one in H.
  case_bool_decide; [by injection H as <-|]. destruct (nz_current st !! k) as [prev|] eqn:Ec; [|by injection H as <-].
  destruct (N3 k) as [Hc Hm]; [left|]. rewrite Ec in Hc. symmetry in Hc.
  apply bind_ok_inv in H as (m & Em & H). destruct (isCanonicalVersion prev m); [by injection H as <-|].
  apply bind_ok_inv in H as ([v ids] & Ev & H). injection H as <-.
  destruct (current_hash _ _ Hc) as (e & He & Hh). specialize (Hh _ Em).
  pose proof (items_keyed _ _ He) as Ee. destruct (items_valid _ _ He) as (V1 & V2 & V3 & V4).
  apply newEntryVersion_made in Ev as [M1 M2 M3 M4 M5]. rewrite Hm, He. cbn [from_option id].
  set (e' := MkEntry k (ev_EntryVersionID v) (ev_EntryContentHash v) (state e)).
  assert (Hv' : valid_entry e').
  { split; [unfold e'; cbn; by rewrite <- Ee|]. split; [exact M3|]. split; [cbn; by rewrite M4, Hh|exact V4]. }
  rewrite (proj2 (NewManifestEntry_ok _ _ _ _ e') (conj eq_refl Hv')). cbn [entry_or_zero]. split; cbn.
  - intros j. destruct (decide (k = j)) as [<-|Hj].
    + rewrite lookup_insert_eq, He. constructor. unfold same_content, e'. cbn. by rewrite M4, Hh.
    + rewrite lookup_insert_ne by done. apply N1.
  - intros j x [[<- <-]|[_ Hx]]%lookup_insert_Some; [done|by eapply N2].
  - intros j Hj. assert (k <> j) by (by intros ->). rewrite !lookup_insert_ne by done. apply N3. by right.
Qed.

Lemma normalize_loop pending st st' :
  NoDup pending -> normalize_inv pending st -> fold_res (normalize_one svc base skip) st pending = Ok st' ->
  normalize_inv [] st'.
Proof.
  revert st. induction pending as [|k pending IH]; intros st Hn HI H; [by injection H as <-|].
  apply bind_ok_inv in H as (st1 & H1 & H). apply (IH st1); [by inversion Hn| |done].
  by eapply normalize_one_inv.
Qed.

Lemma normalizeManifestEntries_spec ids st :
  normalizeManifestEntries svc base items current skip ids = Ok st -> normalize_inv [] st.
Proof.
  unfold normalizeManifestEntries. apply normalize_loop.
  - rewrite merge_sort_Permutation. apply (NoDup_fst_map_to_list current).
  - split; cbn; try done. intros k. destruct (items !! k); constructor. by repeat split.
Qed.
End normalize.

(** ** Organizing *)

Lemma entryMap_elem l k v : entryMap l !! k = Some v -> v ∈ l /\ ev_EntryID v = k.
Proof.
  induction l as [|x l IH] using rev_ind; [unfold entryMap; cbn; by rewrite lookup_empty|].
  unfold entryMap in *. rewrite fold_left_app, elem_of_app, list_elem_of_singleton. cbn.
  intros [[<- <-]|[_ H]]%lookup_insert_Some; [by split; [right|]|]. destruct (IH H). auto.
Qed.

(** A map related to a canonical manifest, entry by entry, is written in its order. *)
Lemma sorted_pointwise (R : ManifestEntry -> ManifestEntry -> Prop) l m :
  canonical_manifest l -> (forall e e', R e e' -> entryID e' = entryID e) ->
  (forall k, option_Forall2 R (manifestMap l !! k) (m !! k)) -> Forall2 R l (sortedManifest m).
Proof.
  intros Hl HR Hm. set (f e := default e (m !! entryID e)).
  assert (Hf : forall e, e ∈ l -> m !! entryID e = Some (f e) /\ R e (f e)).
  { intros e He. specialize (Hm (entryID e)). rewrite manifestMap_lookup in Hm by (done || apply Hl).
    unfold f. inversion Hm as [? e' HRe E1 E2|]. by cbn. }
  assert (Hk : keyed m).
  { intros k e' H. specialize (Hm k). rewrite H in Hm. inversion Hm as [e ? HRe E1 E2|]; subst.
    rewrite (HR _ _ HRe). symmetry in E1. by apply manifestMap_keyed in E1. }
  assert (Eids : map entryID (map f l) = map entryID l).
  { rewrite map_map. apply map_ext_in. intros e He%list_elem_of_In. by apply HR, Hf. }
  assert (E : sortedManifest m = map f l).
  { apply canonical_manifest_ext; [by apply sortedManifest_canonical| |].
    - split; [|rewrite Eids; apply Hl]. destruct Hl as [HS _]. clear Hm Hk.
      induction HS as [|e l HS IH Hr]; [constructor|]. constructor.
      + apply IH; [|cbn in Eids; by injection Eids]. intros x Hx. apply Hf. by right.
      + destruct Hr as [|b l Hb]; constructor. unfold entry_le in *. cbn in Eids. injection Eids as -> -> _. done.
    - intros e'. rewrite elem_of_sortedManifest, list_elem_of_fmap by done. split.
      + intros H. specialize (Hm (entryID e')). rewrite H in Hm. inversion Hm as [e ? HRe E1 E2|]; subst.
        symmetry in E1. pose proof (manifestMap_elem _ _ _ E1) as Hin. exists e. split; [|done].
        destruct (Hf _ Hin) as [H' _]. rewrite (HR _ _ HRe) in H. congruence.
      + intros (e & -> & He). destruct (Hf _ He) as [H HRe]. by rewrite (HR _ _ HRe). }
  rewrite E. clear -Hf. induction l as [|e l IH]; [constructor|]. cbn. constructor; [apply Hf; left|].
  apply IH. intros x Hx. apply Hf. by right.
Qed.

Section organize.
Context {T : Text} {TL : TextLaws} {A : Analysis} {V S : Type} {VS : Values V S}.
Context {DB : Type} {B : Backend DB} {L : BackendLaws DB} {I : Type} (svc : Service V S I).

Lemma validated_hash db value entries k v :
  validatedEntries db value = Ok entries -> NoDup (map entryID (manifest (a_content value))) ->
  entryMap entries !! k = Some v ->
  exists e, manifestMap (manifest (a_content value)) !! k = Some e /\
    forall m, materialFromVersion v = Ok m -> m_contentHash m = entryContentHash e.
Proof.
  intros H Hn [Hv <-]%entryMap_elem. unfold validatedEntries in H. bind_inv H. apply map_res_Forall2 in H.
  apply list_elem_of_lookup in Hv as [i Hv]. destruct (Forall2_lookup_r _ _ _ _ _ H Hv) as (e & He & Hev).
  apply list_elem_of_lookup_2 in He. exists e.
  unfold validated_entry in Hev. destruct (a0 !! entryVersionID e) as [w|]; [|done].
  bind_inv Hev. ok_inv. boolify. subst w.
  repeat match goal with E : String.eqb _ _ = true |- _ => apply String.eqb_eq in E end.
  split; [|by intros m; congruence].
  match goal with E : ev_EntryID v = _ |- _ => rewrite E end. by apply manifestMap_lookup.
Qed.

(** What organizing may do to one entry. *)
Definition organized (e e' : ManifestEntry) : Prop :=
  entryID e' = entryID e /\ entryContentHash e' = entryContentHash e /\
  (state e' = state e \/ state e = Active /\ state e' = Inactive).

Lemma plan_organize_spec db value mode ids base dd nz :
  plan_organize svc db value mode ids = Ok (base, dd, nz) ->
  Forall valid_entry (manifest (a_content value)) -> canonical_manifest (manifest (a_content value)) ->
  base = value /\
  exists entries dropped,
    validatedEntries db value = Ok entries /\
    dedupe_inv (manifestMap (manifest (a_content value))) dropped dd /\
    (mode = OrganizeNormalize \/
     (forall k, k ∈ dropped <-> superseded (manifestMap (manifest (a_content value))) (entryMap entries) k) /\
     forall e, e ∈ manifest (a_content value) -> state e = Active ->
       is_Some (content_of (entryMap entries) (entryID e))) /\
    (forall k, option_Forall2 same_content (dd_manifest dd !! k) (nz_manifest nz !! k)) /\
    (mode = OrganizeDedupe -> nz_manifest nz = dd_manifest dd /\ nz_changes nz = []).
Proof.
  intros H Hv Hl. unfold plan_organize in H. bind_inv H. destruct a0 as [b entries]. cbv zeta in H.
  apply bind_ok_inv in H as (dd' & Hdd & H). apply bind_ok_inv in H as (nz' & Hnz & H). injection H as <- <- <-.
  unfold transition_base in Ha0. apply bind_ok_inv in Ha0 as (b' & Hb & Ha0).
  apply bind_ok_inv in Ha0 as (es & He & Ha0). injection Ha0 as -> ->.
  apply canonical_head_ok in Hb as (-> & _ & _). split; [done|].
  set (items := manifestMap (manifest (a_content value))) in *.
  assert (Hk : keyed items) by apply manifestMap_keyed.
  assert (Hi : forall k e, items !! k = Some e -> valid_entry e).
  { intros k e E%manifestMap_elem. by eapply Forall_forall in E. }
  assert (Hstart : dedupe_inv items [] (MkDedupe items [] ∅)).
  { split; cbn; [|done|intros k; set_solver]. intros k. destruct (items !! k) as [e|]; [|done]. cbn.
    unfold retarget. by rewrite bool_decide_eq_false_2 by apply not_elem_of_nil. }
  assert (Hdd' : exists dropped, dedupe_inv items dropped dd' /\
    (mode = OrganizeNormalize \/ (forall k, k ∈ dropped <-> superseded items (entryMap entries) k) /\
     forall e, e ∈ manifest (a_content value) -> state e = Active ->
       is_Some (content_of (entryMap entries) (entryID e)))).
  { clear Hnz. case_bool_decide as E; [injection Hdd as <-; exists []; auto|].
    apply (deduplicateManifest_spec items (entryMap entries) Hk Hi) in Hdd as (dropped & D1 & D2 & D3).
    exists dropped. split; [done|]. right. split; [done|]. intros e Hin. apply D3.
    apply manifestMap_lookup; [apply Hl|done]. }
  destruct Hdd' as (dropped & D1 & D2). exists entries, dropped. split; [done|]. split; [done|]. split; [done|].
  case_bool_decide as E.
  - injection Hnz as <-. cbn. split; [|done]. intros k. destruct (dd_manifest dd' !! k); constructor. by repeat split.
  - split; [|by intros ->]. refine (ni_items _ _ _ _ (normalizeManifestEntries_spec _ _ _ _ _ _ _ _ _ _ Hnz)).
    + intros k e. rewrite (di_items _ _ _ D1). destruct (items !! k) as [x|] eqn:Ex; [|done]. cbn. intros [= <-].
      rewrite entryID_retarget. by apply Hk.
    + intros k e. rewrite (di_items _ _ _ D1). destruct (items !! k) as [x|] eqn:Ex; [|done]. cbn. intros [= <-].
      apply retarget_valid; [by right|by eapply Hi].
    + intros k v Hkv. destruct (validated_hash _ _ _ _ _ He (proj2 Hl) Hkv) as (e & E1 & E2).
      exists (retarget dropped Inactive e). fold items in E1. rewrite (di_items _ _ _ D1), E1. split; [done|].
      intros m Hm. rewrite retarget_hash. by apply E2.
Qed.
End organize.

(** ** Canonical material: insertion by key *)

Lemma put_item_keys {X} key (v : X) items k : k ∈ map fst (put_item key v items) <-> k = key \/ k ∈ map fst items.
Proof.
  induction items as [|[k' w] items IH]; cbn.
  { rewrite list_elem_of_singleton. split; [auto|]. by intros [?|?%not_elem_of_nil]. }
  destruct (String.eqb_spec k' key) as [->|]; cbn; rewrite !elem_of_cons; [tauto|]. rewrite IH. tauto.
Qed.

Lemma put_item_nodup {X} key (v : X) items : NoDup (map fst items) -> NoDup (map fst (put_item key v items)).
Proof.
  induction items as [|[k' w] items IH]; cbn; intros H; [apply NoDup_singleton|].
  apply NoDup_cons in H as [H1 H2]. destruct (String.eqb_spec k' key) as [->|Hne]; cbn; constructor; auto.
  rewrite put_item_keys. by intros [?|?].
Qed.

Lemma put_item_new {X} key (v : X) items : key ∉ map fst items -> put_item key v items = items ++ [(key, v)].
Proof.
  induction items as [|[k' w] items IH]; cbn; [done|]. rewrite not_elem_of_cons. intros [H1 H2].
  destruct (String.eqb_spec k' key); [congruence|]. by rewrite IH.
Qed.

Lemma put_item_elem {X} key (v : X) items x : x ∈ put_item key v items -> x = (key, v) \/ x ∈ items.
Proof.
  induction items as [|[k' w] items IH]; cbn; [rewrite list_elem_of_singleton; auto|].
  destruct (String.eqb k' key); rewrite !elem_of_cons; [tauto|]. intros [?|?%IH]; tauto.
Qed.

#[export] Instance item_le_total {X} : Total (@item_le X).
Proof. intros a b. apply (total str_le). Qed.
#[export] Instance item_le_trans {X} : Transitive (@item_le X).
Proof. intros a b c. apply (transitivity (R := str_le)). Qed.

(** ** Canonical references *)

Section refs.
Context {T : Text} {X : Type} (check : X -> mres unit) (to_json : X -> json).

Definition keyed_ref (item : string * X) : Prop :=
  is_ok (check (snd item)) = true /\ exists e, CanonicalJSON (to_json (snd item)) = Ok e /\ fst item = string_of e.

Definition ref_step (acc : list (string * X)) (ref : X) : mres (list (string * X)) :=
  let* _ := check ref in
  let* encoded := CanonicalJSON (to_json ref) in
  Ok (put_item (string_of encoded) ref acc).

Lemma ref_loop values items :
  fold_res ref_step [] values = Ok items -> NoDup (map fst items) /\ Forall keyed_ref items.
Proof.
  apply (fold_res_ind (fun items => NoDup (map fst items) /\ Forall keyed_ref items)); [|by repeat constructor].
  intros acc ref acc' _ [H1 H2] H. unfold ref_step in H. bind_inv H. ok_inv. subst acc'. split.
  - by apply put_item_nodup.
  - apply Forall_forall. intros x Hx. apply put_item_elem in Hx as [->|Hx]; [|by eapply Forall_forall].
    split; [cbn; by rewrite Ha|by exists a0].
Qed.

Lemma ref_reloop items acc :
  NoDup (map fst (acc ++ items)) -> Forall keyed_ref items ->
  fold_res ref_step acc (map snd items) = Ok (acc ++ items).
Proof.
  revert acc. induction items as [|[k r] items IH]; intros acc Hn HF; [by rewrite app_nil_r|].
  inversion HF as [|? ? [Hc (e & He & Ek)] HF']; subst. cbn in *. unfold ref_step at 1.
  destruct (check r); [|done]. cbn. rewrite He. cbn. rewrite Ek in *.
  rewrite put_item_new.
  - rewrite IH; [by rewrite <- app_assoc| |done]. by rewrite <- app_assoc.
  - rewrite map_app in Hn. apply NoDup_app in Hn as (_ & Hn & _). intros H. apply (Hn _ H). cbn. left.
Qed.

Lemma canonical_refs_idem values out :
  canonical_refs check to_json values = Ok out -> canonical_refs check to_json out = Ok out.
Proof.
  unfold canonical_refs. fold ref_step. intros H. apply bind_ok_inv in H as (items & H & Ho). injection Ho as <-.
  apply ref_loop in H as [Hn HF].
  pose proof (merge_sort_Permutation item_le items) as HP.
  assert (Hn' : NoDup (map fst (merge_sort item_le items))) by (by rewrite HP).
  rewrite (ref_reloop (merge_sort item_le items) []); [|done|by rewrite HP]. cbn. do 2 f_equal.
  apply (sorted_keys_ext fst); [apply (StronglySorted_merge_sort item_le)..| |].
  - by rewrite (merge_sort_Permutation item_le (merge_sort item_le items)).
  - apply merge_sort_Permutation.
Qed.
End refs.

(** Canonical material is a fixed point of canonicalization. *)
Lemma newEntryMaterial_idem `{TextLaws} kind text srcs arts m :
  newEntryMaterial kind text srcs arts = Ok m ->
  newEntryMaterial (m_kind m) (m_text m) (m_sources m) (m_artifacts m) = Ok m.
Proof.
  unfold newEntryMaterial. intros Hm. bind_inv Hm. ok_inv. subst m. cbn.
  unfold NormalizeKind in *. rewrite (proj1 (normalizeNonEmpty_idem _ _ _ Ha)). cbn.
  rewrite (proj1 (NormalizeText_idem _ _ Ha0)). cbn.
  unfold canonicalSourceRefs, canonicalArtifactRefs in *.
  rewrite (canonical_refs_idem _ _ _ _ Ha1). cbn. rewrite (canonical_refs_idem _ _ _ _ Ha2). cbn.
  by rewrite Ha3, Ha4.
Qed.
