(* ===== verification/MemoryStore.v ===== *)
(** * A Memory backend in memory

    An instance of [Backend] that meets [BackendLaws], with plain text functions
    and a counter for identifiers: the concrete parameters at which the
    properties of the service are evaluated. *)

From S2P Require Import Prelude.
From S2P Require Import GoStrings.
From S2P Require Import GoTime.
From S2P Require Import Refs.
From S2P Require Import Json.
From S2P Require Import Sha256.
From S2P Require Import MemoryModel.
From S2P Require Import MemoryService.

Record MemStore := MkStore {
  ms_memories : gmap Ref Memory;
  ms_heads : gmap string Memory;
  ms_versions : gmap string EntryVersion;
  ms_projections : gmap Ref (list Projection)
}.

Definition empty_store : MemStore := MkStore ∅ ∅ ∅ ∅.

Definition store_entries (db : MemStore) (ref : Ref) : mres (list EntryVersion) :=
  let* value := of_option (ms_memories db !! ref) (ENotFound ref) in
  map_res (fun e => of_option (ms_versions db !! entryVersionID e) (EInvalidCitation "missing-version"))
    (manifest (a_content value)).

(** Compare-and-swap of the head, then all the rows at once. *)
Definition store_commit (db : MemStore) (c : Commit) : mres (Memory * MemStore) :=
  let id := artifactID (a_ref (cm_memory c)) in
  require match cm_base c with
          | Some b => bool_decide (ms_heads db !! artifactID (a_ref b) = Some b)
          | None => bool_decide (ms_heads db !! id = None)
          end else ERevisionConflict (a_ref (cm_memory c)) (a_ref (cm_memory c)) in
  require forallb (fun v => bool_decide (ms_versions db !! ev_EntryVersionID v = None)) (cm_entryVersions c)
    else EInvalidOperation "id-collision" in
  Ok (cm_memory c,
      MkStore (<[a_ref (cm_memory c) := cm_memory c]> (ms_memories db))
        (<[id := cm_memory c]> (ms_heads db))
        (fold_left (fun m v => <[ev_EntryVersionID v := v]> m) (cm_entryVersions c) (ms_versions db))
        (<[a_ref (cm_memory c) := cm_projections c]> (ms_projections db))).

#[export] Instance store_backend : Backend MemStore := {
  b_Capabilities db := MkCapabilities true false false None;
  b_Get db ref := of_option (ms_memories db !! ref) (ENotFound ref);
  b_Latest db id := of_option (ms_heads db !! id) (ENotFound (MkRef Family id 0));
  b_Entries := store_entries;
  b_Projections db ref := of_option (ms_projections db !! ref) (ENotFound ref);
  b_Commit := store_commit;
  b_Changes db ref since := Ok []
}.

Lemma of_option_some {E X} (x : X) (e : E) : of_option (Some x) e = Ok x.
Proof. done. Qed.

#[export] Instance store_laws : BackendLaws MemStore.
Proof.
  split.
  - intros db c m db' H. cbn in H. unfold store_commit in H. bind_inv H. injection H as <- <-. cbn.
    by rewrite !lookup_insert_eq.
  - intros db c m db' base H Hb. cbn in H. unfold store_commit in H. bind_inv H. ok_inv.
    rewrite Hb in Ha. boolify. exists base. cbn. by rewrite Ha.
  - intros db c m db' r H Hr. cbn in H. unfold store_commit in H. bind_inv H. injection H as <- <-. cbn.
    by rewrite lookup_insert_ne.
Qed.

(** ** Concrete text functions *)

#[export] Instance plain_text : Text := { NFC s := s; Transform b := Some b }.

#[export] Instance plain_text_laws : TextLaws.
Proof. split; intros; reflexivity. Qed.

Definition ascii_letter (c : Z) : bool := ((65 <=? c) && (c <=? 90)) || ((97 <=? c) && (c <=? 122)).

#[export] Instance ascii_analysis : Analysis := {
  Fold s := s;
  IsLetter := ascii_letter;
  IsNumber c := (48 <=? c) && (c <=? 57)
}.

(** Source values known by their names, Artifacts by their references. *)
#[export] Instance named_values : Values string Ref := {
  class_of _ := ContentSource;
  source_value name := Source.MkValue name Source.Captured None;
  snapshot_ref r := r
}.

(** Identifiers of a counter. *)
Definition counted_id (n : nat) (kind : string) : mres (string * nat) :=
  Ok (kind +:+ "-" +:+ pretty n, Datatypes.S n).

Definition plain_service : Service string Ref nat :=
  MkService string Ref nat None None None None counted_id.

Definition note (text : string) : EntryInput string Ref := MkInput None "fact" text [] [] None.
Definition revised (v : EntryVersion) (text : string) : EntryInput string Ref :=
  MkInput (Some v) "fact" text [] [] None.

(** ** A Memory of three entries *)

Definition first_plan : mres (WritePlan * nat) :=
  PlanRemember plain_service empty_store None [] [] [note "ship on friday"; note "use go 1.25"; note "ship on friday"; note "no force push"]
    RememberAuto 0%nat.

Example first_plan_dedupes :
  match first_plan with
  | Ok (plan, _) => match wp_commit plan with
                    | Some c => map ev_Text (cm_entryVersions c) | None => [] end
  | Err _ => []
  end = ["ship on friday"; "use go 1.25"; "no force push"]%string.
Proof. vm_compute. reflexivity. Qed.

Definition plan_of (r : mres (WritePlan * nat)) : WritePlan :=
  match r with Ok (p, _) => p | Err _ => MkWritePlan None None end.
Definition memory_of (r : MemStore * mres Memory) : Memory :=
  match snd r with Ok m => m | Err _ => MkArtifact (MkRef "" "" 0) (MkContent [] []) (MkLineage [] []) end.

Definition first_store : MemStore := Eval vm_compute in fst (Apply empty_store (plan_of first_plan)).
Definition first_memory : Memory := Eval vm_compute in
  memory_of (first_store, match snd (Apply empty_store (plan_of first_plan)) with
                          | Ok (Some m) => Ok m | _ => Err (EFormat "no memory") end).
Definition first_entries : list EntryVersion := Eval vm_compute in
  match validatedEntries first_store first_memory with Ok vs => vs | Err _ => [] end.

Lemma first_applied : Apply empty_store (plan_of first_plan) = (first_store, Ok (Some first_memory)).
Proof. vm_compute. reflexivity. Qed.

(** The entry about fridays, and its revision to a text that another entry has. *)
Definition friday : EntryVersion := Eval vm_compute in
  default (MkVersion "" "" "" 0 None "" "" "" 0 [] []) (head first_entries).

Definition second_plan : mres (WritePlan * nat) := Eval vm_compute in
  PlanRemember plain_service first_store (Some first_memory) [] []
    [revised friday "use go 1.25"; note "sign the tags"] RememberAppend 10%nat.
Definition second_commit : Commit := Eval vm_compute in
  default (MkCommit None first_memory "" [] []) (wp_commit (plan_of second_plan)).
Definition second_store : MemStore := Eval vm_compute in fst (Apply first_store (plan_of second_plan)).
Definition second_memory : Memory := Eval vm_compute in cm_memory second_commit.

Lemma second_planned :
  PlanRemember plain_service first_store (Some first_memory) [] []
    [revised friday "use go 1.25"; note "sign the tags"] RememberAppend 10%nat
  = Ok (plan_of second_plan, 13%nat).
Proof. vm_compute. reflexivity. Qed.
Lemma second_applied : Apply first_store (plan_of second_plan) = (second_store, Ok (Some second_memory)).
Proof. vm_compute. reflexivity. Qed.

(** Forgetting and reactivating in the first store. *)
Definition forgotten : MemStore * mres Memory := Eval vm_compute in
  Forget plain_service first_store first_memory [friday] (Some "obsolete"%string).
Lemma forgotten_eq :
  Forget plain_service first_store first_memory [friday] (Some "obsolete"%string)
  = (fst forgotten, Ok (memory_of forgotten)).
Proof. vm_compute. reflexivity. Qed.

Definition reactivated : MemStore * mres Memory := Eval vm_compute in
  Reactivate_ plain_service (fst forgotten) (memory_of forgotten) [friday] None.
Lemma reactivated_eq :
  Reactivate_ plain_service (fst forgotten) (memory_of forgotten) [friday] None
  = (fst reactivated, Ok (memory_of reactivated)).
Proof. vm_compute. reflexivity. Qed.

(** Deduplicating the second store. *)
Definition deduplicated : MemStore * mres Memory := Eval vm_compute in
  Organize plain_service second_store second_memory OrganizeDedupe 20%nat.
Lemma deduplicated_eq :
  Organize plain_service second_store second_memory OrganizeDedupe 20%nat
  = (fst deduplicated, Ok (memory_of deduplicated)).
Proof. vm_compute. reflexivity. Qed.
