(* ===== verification/MemorySearch.v ===== *)
(** * Memory search ([artifact/memory/search.go], [service_search.go], [reranking.go])

    Full-text matching, admission of a backend's candidates, reciprocal rank
    fusion, the choice of the search mode, reranking and expansion of hits.
    The search operations of the backend are the class [SearchBackend].  Go
    visits a map in no fixed order: the fusion takes the order as an argument. *)

From Stdlib Require Import SpecFloat.
From S2P Require Import Prelude.
From S2P Require Import GoStrings.
From S2P Require Import GoTime.
From S2P Require Import Refs.
From S2P Require Import Json.
From S2P Require Import MemoryModel.
From S2P Require Import MemoryService.

(** ** Terms *)

(** [strings.Fields] *)
Fixpoint fields (rs : list rune) (word : bytes) : list string :=
  match rs with
  | [] => flushWord word
  | r :: more =>
      if is_space (rune_value r) then flushWord word ++ fields more []
      else fields more (word ++ rune_bytes r)
  end.
Definition Fields (value : string) : list string := fields (runes (bytes_of value)) [].

Definition termSet (value : string) : gset string := list_to_set (Fields value).

(** The double quote, and a term with its quotes doubled. *)
Definition quote : string := string_of [ascii_of_nat 34].
Definition double_quotes (term : string) : string :=
  String.concat "" (map (fun c => if Ascii.eqb c (ascii_of_nat 34) then quote +:+ quote else string_of [c])
                      (bytes_of term)).

(** [int(math.Ceil(f))] for a finite [f]. *)
Definition f64_ceil (f : float64) : Z :=
  match f with
  | S754_finite s m e =>
      let v := if s then Zneg m else Zpos m in
      if 0 <=? e then v * 2 ^ e else - ((- v) / 2 ^ (- e))
  | _ => 0
  end.

Definition f64_one : float64 := Eval vm_compute in f64_of_int 1.
Definition f64_two : float64 := Eval vm_compute in f64_of_int 2.
Definition f64_quarter : float64 := Eval vm_compute in f64_div (f64_of_int 1) (f64_of_int 4).
Definition f64_sub : float64 -> float64 -> float64 := SFsub 53 1024.

(** Go's builtin [min] on floats: NaN if either is, and -0 under +0. *)
Definition f64_min (a b : float64) : float64 :=
  if is_nan a || is_nan b then S754_nan
  else if f64_lt b a then b
  else if f64_lt a b then a
  else match a, b with
       | S754_zero false, _ => b
       | _, _ => a
       end.

Section terms.
Context {T : Text} {A : Analysis}.

Definition FTSMatchQuery (value : string) : option string :=
  let analyzed := AnalyzeText value in
  if String.eqb analyzed "" then None
  else Some (String.concat " OR " (map (fun t => quote +:+ double_quotes t +:+ quote) (Fields analyzed))).

(** How many of the query's terms a text must have. *)
Definition required_terms (n : nat) : Z :=
  if (2 <? n)%nat then Z.max 2 (f64_ceil (f64_mul (f64_of_int (Z.of_nat n)) f64_quarter)) else 1.

Definition AdmitsFTSText (query text : string) : bool :=
  let queryTerms := termSet (AnalyzeText query) in
  if (size queryTerms =? 0)%nat then false
  else
    let textTerms := termSet (AnalyzeText text) in
    required_terms (size queryTerms) <=? Z.of_nat (size (queryTerms ∩ textTerms)).

Definition AdmitFTSCandidates (query : string) (candidates : list ChannelHit) : list ChannelHit :=
  List.filter (fun c => AdmitsFTSText query (ch_Text c)) candidates.
End terms.

(** ** Vector admission *)

Definition unitL2CosineSimilarity (distance : float64) : float64 :=
  f64_max (SFopp f64_one) (f64_min f64_one (f64_sub f64_one (f64_div (f64_mul distance distance) f64_two))).

(** The constant 0.3, rounded to binary64. *)
Definition minSemanticSimilarity : float64 := Eval vm_compute in f64_div (f64_of_int 3) (f64_of_int 10).

(** Go's [>=]: false on NaN. *)
Definition f64_ge (a b : float64) : bool := SFleb b a.

Definition admit_vector (candidate : ChannelHit) : bool :=
  match ch_Distance candidate with
  | Some d => f64_ge (unitL2CosineSimilarity d) minSemanticSimilarity
  | None => false
  end.
Definition AdmitVectorCandidates (candidates : list ChannelHit) : list ChannelHit :=
  List.filter admit_vector candidates.

(** ** Reciprocal rank fusion *)

Record hitIdentity := MkIdentity {
  hi_artifactID : string; hi_revision : Z; hi_entryID : string; hi_entryVersionID : string
}.

#[export] Instance hit_identity_eq_dec : EqDecision hitIdentity.
Proof. solve_decision. Defined.
#[export] Instance hit_identity_countable : Countable hitIdentity.
Proof.
  refine (inj_countable' (fun i => (hi_artifactID i, hi_revision i, hi_entryID i, hi_entryVersionID i))
            (fun p => match p with (a, r, e, v) => MkIdentity a r e v end) _).
  by intros [].
Defined.

#[export] Instance matched_by_countable : Countable MatchedBy.
Proof.
  refine (inj_countable' (fun m => bool_decide (m = MatchedFTS))
            (fun b : bool => if b then MatchedFTS else MatchedVector) _).
  by intros [].
Defined.

Definition identity (hit : ChannelHit) : hitIdentity :=
  MkIdentity (artifactID (ch_MemoryRef hit)) (revision (ch_MemoryRef hit)) (ch_EntryID hit)
    (ch_EntryVersionID hit).

Definition rrfConstant : Z := 60.

(** What rank [index] in a channel adds to a score; no slice is long enough for
    the sum to overflow. *)
Definition rrf (index : nat) : float64 :=
  f64_div f64_one (f64_of_int (rrfConstant + Z.of_nat index + 1)).

Record Fusion := MkFusion {
  fu_candidates : gmap hitIdentity ChannelHit;
  fu_scores : gmap hitIdentity float64;
  fu_channels : gmap hitIdentity (gset MatchedBy)
}.

(** The body of the inner loop for a hit not seen in its channel. *)
Definition fuse_hit (channel : MatchedBy) (index : nat) (candidate : ChannelHit) (st : Fusion) : Fusion :=
  let id := identity candidate in
  MkFusion
    (match fu_candidates st !! id with
     | Some _ => fu_candidates st
     | None => <[id := candidate]> (fu_candidates st)
     end)
    (<[id := f64_add (default f64_zero (fu_scores st !! id)) (rrf index)]> (fu_scores st))
    (<[id := {[channel]} ∪ default ∅ (fu_channels st !! id)]> (fu_channels st)).

Fixpoint fuse_ranking (channel : MatchedBy) (index : nat) (hits : list ChannelHit)
    (seen : gset hitIdentity) (st : Fusion) : Fusion :=
  match hits with
  | [] => st
  | candidate :: more =>
      if bool_decide (identity candidate ∈ seen) then fuse_ranking channel (S index) more seen st
      else fuse_ranking channel (S index) more ({[identity candidate]} ∪ seen)
             (fuse_hit channel index candidate st)
  end.

Definition fuse (fts vector : list ChannelHit) : Fusion :=
  fuse_ranking MatchedVector 0 vector ∅ (fuse_ranking MatchedFTS 0 fts ∅ (MkFusion ∅ ∅ ∅)).

Definition score_of (scores : gmap hitIdentity float64) (id : hitIdentity) : float64 :=
  default f64_zero (scores !! id).

(** The comparison that [slices.SortFunc] is given. *)
Definition compare_identities (scores : gmap hitIdentity float64) (left right : hitIdentity) : comparison :=
  if f64_lt (score_of scores right) (score_of scores left) then Lt
  else if f64_lt (score_of scores left) (score_of scores right) then Gt
  else match String.compare (hi_artifactID left) (hi_artifactID right) with
       | Eq => match String.compare (hi_entryID left) (hi_entryID right) with
               | Eq => String.compare (hi_entryVersionID left) (hi_entryVersionID right)
               | other => other
               end
       | other => other
       end.

Definition id_le (scores : gmap hitIdentity float64) (left right : hitIdentity) : Prop :=
  compare_identities scores left right <> Gt.
#[export] Instance id_le_dec scores l r : Decision (id_le scores l r).
Proof. unfold id_le. apply _. Defined.

Definition fused_hit (st : Fusion) (id : hitIdentity) : list Hit :=
  match fu_candidates st !! id with
  | Some candidate =>
      [MkHit (ch_MemoryRef candidate) (ch_EntryID candidate) (ch_EntryVersionID candidate) (ch_Text candidate)
         (score_of (fu_scores st) id)
         (List.filter (fun channel => bool_decide (channel ∈ default ∅ (fu_channels st !! id)))
            [MatchedFTS; MatchedVector])]
  | None => []
  end.

(** [iterate] is the order in which the map of candidates is visited; it also
    stands for the order that the unstable sort leaves equal elements in. *)
Definition FuseRankings (iterate : gmap hitIdentity ChannelHit -> list hitIdentity)
    (fts vector : list ChannelHit) (limit : Z) : mres (list Hit) :=
  require 1 <=? limit else EFormat "memory search limit must be positive" in
  let st := fuse fts vector in
  let identities := merge_sort (id_le (fu_scores st)) (iterate (fu_candidates st)) in
  Ok (flat_map (fused_hit st) (take (Z.to_nat limit) identities)).

(** ** Reranking *)

Record Usage := MkUsage { us_Requests : Z; us_InputTokens : option Z; us_OutputTokens : option Z }.

Record RerankDecision := MkDecision {
  rd_selectedRanks : list Z; rd_usage : Usage;
  rd_discardedRankCount : Z; rd_usedFallback : bool
}.

Record RerankCandidate := MkRerankCandidate { rc_rank : Z; rc_text : string }.
Record RerankInput := MkRerankInput {
  ri_query : string; ri_maxResults : Z; ri_candidates : list RerankCandidate
}.

(** The result of a generator: its output and the tokens used. *)
Record Generated (O : Type) := MkGenerated { g_Output : O; g_Usage : Usage }.
Arguments MkGenerated {O}. Arguments g_Output {O}. Arguments g_Usage {O}.

(** The loop of [normalizeRanks], from the ranks already selected. *)
Fixpoint normalize_loop (values : list Z) (candidateCount limit : Z) (selected : list Z) (discarded : Z)
  : list Z * Z :=
  match values with
  | [] => (selected, discarded)
  | rank :: more =>
      if (rank <? 1) || (candidateCount <? rank) then normalize_loop more candidateCount limit selected (discarded + 1)
      else if bool_decide (rank ∈ selected) then normalize_loop more candidateCount limit selected (discarded + 1)
      else
        let selected' := selected ++ [rank] in
        if Z.of_nat (length selected') =? limit then (selected', discarded)
        else normalize_loop more candidateCount limit selected' discarded
  end.

Definition normalizeRanks (values : list Z) (candidateCount limit : Z) : list Z * Z :=
  normalize_loop values candidateCount limit [] 0.

(** The ranks [first, first+1, ...]. *)
Definition ranks_from (first : nat) (n : nat) : list Z := map Z.of_nat (seq first n).

Definition rerank_candidates (candidates : list Hit) : mres (list RerankCandidate) :=
  map_res (fun p => require negb (String.eqb (h_Text (snd p)) "") else EFormat "rerank candidate text must not be empty" in
                    Ok (MkRerankCandidate (fst p) (h_Text (snd p))))
    (combine (ranks_from 1 (length candidates)) candidates).

(** [LLMReranker.Rerank]; the generator returns the ranks that the model chose. *)
Definition LLMRerank (generate : RerankInput -> mres (Generated (list Z))) (query : string)
    (candidates : list Hit) (limit : Z) : mres RerankDecision :=
  let count := Z.of_nat (length candidates) in
  require 1 <=? count else EFormat "rerank requires at least one candidate" in
  require (1 <=? limit) && (limit <=? count)
    else EFormat "rerank limit must be between one and the candidate count" in
  require negb (String.eqb query "") else EFormat "rerank query must not be empty" in
  let* projected := rerank_candidates candidates in
  let* result := generate (MkRerankInput query limit projected) in
  let (selected, discarded) := normalizeRanks (g_Output result) count limit in
  match selected with
  | [] => Ok (MkDecision (ranks_from 1 (Z.to_nat limit)) (g_Usage result) discarded true)
  | _ => Ok (MkDecision selected (g_Usage result) discarded false)
  end.

Record Reranker := MkReranker {
  rr_PolicyID : string;
  rr_Rerank : string -> list Hit -> Z -> mres RerankDecision
}.

Definition NewLLMReranker (version : string) (generate : RerankInput -> mres (Generated (list Z))) : Reranker :=
  MkReranker version (LLMRerank generate).

(** ** Searching *)

Record SearchRequest := MkSearchRequest {
  sq_Query : string; sq_AnalyzedQuery : string; sq_Memories : list Ref; sq_CandidateLimit : Z;
  sq_Mode : SearchMode; sq_QueryVector : list float64; sq_Profile : option EmbeddingProfile
}.
Record SearchChannels := MkChannels { sc_FTS : list ChannelHit; sc_Vector : list ChannelHit }.

Record RerankTrace := MkTrace {
  rt_PolicyID : string; rt_CandidateHits : list Hit; rt_SelectedRanks : list Z;
  rt_DiscardedRankCount : Z; rt_UsedFallback : bool; rt_LatencyMS : float64;
  rt_Usage : Usage
}.
Record SearchResult := MkSearchResult { sr_Mode : SearchMode; sr_Hits : list Hit; sr_Rerank : option RerankTrace }.

(** The rest of the [Backend] interface. *)
Class SearchBackend (DB : Type) := {
  b_VectorComplete : DB -> list Ref -> EmbeddingProfile -> mres bool;
  b_Search : DB -> SearchRequest -> mres SearchChannels;
  b_Expand : DB -> list Hit -> mres (list EntryVersion)
}.

(** [dedupeMemories]: the first value of each exact reference. *)
Fixpoint dedupe_from (seen : list Ref) (values : list Memory) : list Memory :=
  match values with
  | [] => []
  | value :: more =>
      if bool_decide (a_ref value ∈ seen) then dedupe_from seen more
      else value :: dedupe_from (a_ref value :: seen) more
  end.
Definition dedupeMemories (values : list Memory) : list Memory := dedupe_from [] values.

(** [Duration.Seconds] times 1000; negative and non-finite latencies are zero. *)
Definition latency_ms (elapsed : Z) : float64 :=
  let seconds := f64_add (f64_of_int (go_div elapsed 1000000000))
                   (f64_div (f64_of_int (go_mod elapsed 1000000000)) (f64_of_int 1000000000)) in
  let latency := f64_mul seconds (f64_of_int 1000) in
  if f64_lt latency f64_zero || is_nan latency || is_inf latency then f64_zero else latency.

(** [NewService]: 0 asks for the default. *)
Definition rerank_candidate_limit (option : Z) : mres Z :=
  let rerankLimit := if option =? 0 then 30 else option in
  require 1 <=? rerankLimit else EInvalidOperation "search-limit" in
  Ok rerankLimit.

Section search.
Context {T : Text} {A : Analysis} {V S : Type} {DB : Type} {B : Backend DB} {SB : SearchBackend DB}.
Context {I : Type} (svc : Service V S I).
Context (reranker : option Reranker) (rerankCandidateLimit : Z).
Context (iterate : gmap hitIdentity ChannelHit -> list hitIdentity).

Definition validate_head (db : DB) (value : Memory) : mres unit :=
  let* exact := b_Get db (a_ref value) in
  let* latest := b_Latest db (artifactID (a_ref value)) in
  require bool_decide (exact = value) && bool_decide (a_ref exact = a_ref latest)
    else ECapability "head" "" in
  Ok tt.
Definition validateSearchHeads (db : DB) (memories : list Memory) : mres unit :=
  let* _ := map_res (validate_head db) memories in Ok tt.

Definition selectSearchMode (db : DB) (requested : SearchMode) (memories : list Ref) (caps : Capabilities)
  : mres SearchMode :=
  match requested with
  | SearchFTS =>
      require cap_FTS caps else ECapability "fts" "" in Ok SearchFTS
  | _ =>
      let matching :=
        match cap_profile caps, embeddingModel svc with
        | Some profile, Some model => if embeddingProfileMatches (em_Profile model) profile then Some profile else None
        | _, _ => None
        end in
      let* vectorComplete :=
        match matching with
        | Some profile => if cap_Vector caps then b_VectorComplete db memories profile else Ok false
        | None => Ok false
        end in
      let vectorAvailable := cap_Vector caps && bool_decide (is_Some matching) && vectorComplete in
      let hybridAvailable := cap_Hybrid caps && vectorAvailable in
      match requested with
      | SearchVector => require vectorAvailable else ECapability "vector" "" in Ok SearchVector
      | SearchHybrid => require hybridAvailable else ECapability "hybrid" "" in Ok SearchHybrid
      | SearchAuto =>
          if hybridAvailable then Ok SearchHybrid
          else if cap_FTS caps then Ok SearchFTS
          else Err (ECapability "fts" "")
      | _ => Err (EInvalidOperation "search-mode")
      end
  end.

Definition mode_string (mode : SearchMode) : string :=
  match mode with
  | SearchFTS => "fts" | SearchVector => "vector" | SearchHybrid => "hybrid" | SearchAuto => "auto"
  | OtherMode s => s
  end.

Definition uses_vectors (mode : SearchMode) : bool :=
  match mode with SearchVector | SearchHybrid => true | _ => false end.

Definition embed_query (query : string) (profile : EmbeddingProfile) : result embed_error (list (list float64)) :=
  match embeddingModel svc with
  | Some model => embedTexts model [query] profile
  | None => Err (EEmbed (ECapability "embedding-profile" ""))
  end.

(** The query's vector; in automatic mode an unavailable model falls back to
    full-text search. *)
Definition query_vector (mode selected : SearchMode) (caps : Capabilities) (query : string)
  : mres (SearchMode * list float64 * option EmbeddingProfile) :=
  if negb (uses_vectors selected) then Ok (selected, [], None)
  else
    let* profile := of_option (cap_profile caps) (ECapability (mode_string selected) "") in
    require String.eqb (Distance profile) "l2" && String.eqb (Normalization profile) "unit"
      else ECapability (mode_string selected) "cosine admission requires a unit-normalized L2 embedding profile" in
    match embed_query query profile with
    | Ok vectors => Ok (selected, default [] (head vectors), Some profile)
    | Err (EUnavailable | ETimeout) =>
        if bool_decide (mode = SearchAuto) && cap_FTS caps then Ok (SearchFTS, [], None)
        else Err (ECapability (mode_string selected) "embedding model is temporarily unavailable")
    | Err (EEmbed e) => Err e
    end.

Definition coarse_limit (limit : Z) : Z :=
  match reranker with Some _ => Z.max limit rerankCandidateLimit | None => limit end.
Definition candidate_limit (coarse : Z) : Z :=
  if coarse <=? go_div max_int64 4 then Z.max (coarse * 4) 32 else max_int64.

(** [clock] gives the time that a call of the reranker took. *)
Definition rerankedSearchResult (clock : Z) (mode : SearchMode) (query : string) (hits : list Hit) (limit : Z)
  : mres SearchResult :=
  let count := Z.of_nat (length hits) in
  match reranker, hits with
  | None, _ | _, [] => Ok (MkSearchResult mode (take (Z.to_nat (Z.min limit count)) hits) None)
  | Some r, _ =>
      let* decision := rr_Rerank r query hits (Z.min limit count) in
      let ranks := rd_selectedRanks decision in
      let* selected :=
        map_res (fun rank =>
          require negb ((rank <? 1) || (count <? rank))
            else EInvalidOutput "memory-rerank" "normalized rank is outside the candidate pool" in
          of_option (hits !! Z.to_nat (rank - 1)) (EFormat "index out of range")) ranks in
      Ok (MkSearchResult mode selected
            (Some (MkTrace (rr_PolicyID r) hits ranks (rd_discardedRankCount decision)
                     (rd_usedFallback decision) (latency_ms clock) (rd_usage decision))))
  end.

Definition Search (db : DB) (query : string) (memories : list Memory) (limit : Z) (mode : SearchMode)
    (clock : Z) : mres SearchResult :=
  require (0 <? length memories)%nat else EInvalidOperation "search-memories" in
  require 1 <=? limit else EInvalidOperation "search-limit" in
  require match mode with OtherMode _ => false | _ => true end else EInvalidOperation "search-mode" in
  let selected := dedupeMemories memories in
  let refs := map a_ref selected in
  let* _ := validateSearchHeads db selected in
  let caps := b_Capabilities db in
  let* selectedMode := selectSearchMode db mode refs caps in
  let* normalizedQuery := NormalizeText query in
  let* ' (finalMode, queryVector, profile) := query_vector mode selectedMode caps normalizedQuery in
  let coarseLimit := coarse_limit limit in
  let* channels := b_Search db
    (MkSearchRequest normalizedQuery (AnalyzeText normalizedQuery) refs (candidate_limit coarseLimit)
       finalMode queryVector profile) in
  let fts := if bool_decide (finalMode = SearchVector) then []
             else AdmitFTSCandidates normalizedQuery (sc_FTS channels) in
  let vector := if bool_decide (finalMode = SearchFTS) then []
                else AdmitVectorCandidates (sc_Vector channels) in
  let* hits := FuseRankings iterate fts vector coarseLimit in
  rerankedSearchResult clock finalMode normalizedQuery hits limit.

Definition Expand (db : DB) (hits : list Hit) : mres (list EntryVersion) :=
  let* versions := b_Expand db hits in
  require (length versions =? length hits)%nat else EInvalidCitation "expand-count" in
  let* _ := map_res (fun p => validateAnchor db (h_MemoryRef (fst p)) (h_EntryID (fst p))
                                (h_EntryVersionID (fst p)) (snd p)) (combine hits versions) in
  Ok versions.

Definition Entries (db : DB) (value : Memory) : mres (list EntryVersion) :=
  let* canonical := canonicalMemory db value in
  validatedEntries db canonical.

Definition ValidateCitation (db : DB) (citation : Citation) : mres EntryVersion :=
  let hit := MkHit (ci_MemoryRef citation) (ci_EntryID citation) (ci_EntryVersionID citation) "" f64_zero [] in
  let* values := Expand db [hit] in
  of_option (head values) (EFormat "index out of range").
End search.
