(* ===== verification/MemoryExtract.v ===== *)
(** * Model-backed extraction ([artifact/memory/extraction.go])

    The evidence that a request offers a model, and the checks that turn the
    model's proposals into entry inputs.  The generator is a function; the
    decoding of its answer is not modelled.  What the projections read of a
    concrete Source or Artifact type is the class [Projected]. *)

From S2P Require Import Prelude.
From S2P Require Import GoStrings.
From S2P Require Import Refs.
From S2P Require Import Json.
From S2P Require Import MemoryModel.
From S2P Require Import MemoryService.
From S2P Require Import MemorySearch.

(** ** Data *)

Inductive EvidenceKind := SourceEvidence | ArtifactEvidence.

Record ExtractionEvidence := MkExtractionEvidence {
  xe_evidenceID : string; xe_evidenceType : EvidenceKind; xe_content : bytes
}.
Record ExtractionCurrentEntry := MkCurrentEntry { xc_entryID : string; xc_kind : string; xc_text : string }.
Record ExtractionInput := MkExtractionInput {
  xi_evidence : list ExtractionEvidence; xi_currentEntries : list ExtractionCurrentEntry
}.

Inductive ExtractionIntent := ExtractionAdd | ExtractionRevise | OtherIntent (s : string).

Record ExtractionCandidate := MkCandidate {
  cd_intent : ExtractionIntent; cd_kind : string; cd_text : string;
  cd_evidenceIDs : list string; cd_entryID : option string; cd_reason : option string
}.

Definition knownExtractionKind (value : string) : bool :=
  existsb (String.eqb value) ["fact"; "preference"; "decision"; "constraint"; "working_note"]%string.

Definition NewExtractionCandidate (intent : ExtractionIntent) (kind text : string)
    (evidenceIDs : list string) (entryID reason : option string) : mres ExtractionCandidate :=
  require match intent with OtherIntent _ => false | _ => true end
    else EFormat "unsupported Memory extraction intent" in
  require knownExtractionKind kind else EFormat "unsupported Memory extraction kind" in
  Ok (MkCandidate intent kind text evidenceIDs entryID reason).

(** ** Projections of evidence *)

Class Projected (V S : Type) := {
  (** [ContentSource.Content] and [Metadata] *)
  content_text : V -> string;
  content_metadata : V -> json;
  (** [AcceptedObservation.TextEvidence] *)
  text_evidence : V -> mres json;
  (** [Snapshot.ContentValue] *)
  content_value : S -> json
}.

Record EvidenceProjector (V S : Type) := MkProjector {
  ProjectSource : V -> mres json;
  ProjectArtifact : S -> mres json
}.
Arguments MkProjector {V S}. Arguments ProjectSource {V S}. Arguments ProjectArtifact {V S}.

Definition ContentType : string := "content".

Definition materialization_string (m : Source.Materialization) : string :=
  match m with
  | Source.Captured => "captured" | Source.Referenced => "referenced" | Source.OtherMaterialization s => s
  end.

Section extraction.
Context {V S : Type} {VS : Values V S} {PR : Projected V S}.

Definition default_project_source (value : V) : mres json :=
  let* _ := Require_ value in
  let v := source_value value in
  Ok (JObj [("name", JStr (Source.SourceName v));
            ("materialization", JStr (materialization_string (Source.SourceMaterialization v)));
            ("description", optional_json (Source.SourceDescription v))])%string.

Definition default_project_artifact (value : S) : mres json :=
  let ref := snapshot_ref value in
  Ok (JObj [("artifact_id", JStr (artifactID ref)); ("revision", JInt (revision ref));
            ("family", JStr (family ref)); ("content", content_value value)])%string.

Definition DefaultEvidenceProjector : EvidenceProjector V S :=
  MkProjector default_project_source default_project_artifact.

Definition content_project_source (fallback : EvidenceProjector V S) (value : V) : mres json :=
  let* _ := Require_ value in
  match class_of value with
  | AcceptedObservation _ => text_evidence value
  | ContentSource =>
      Ok (JObj [("source_type", JStr ContentType); ("source_id", JStr (Source.SourceName (source_value value)));
                ("content", JStr (content_text value)); ("metadata", sort_keys (content_metadata value))])%string
  | _ => ProjectSource fallback value
  end.

Definition ContentEvidenceProjector (fallback : option (EvidenceProjector V S)) : EvidenceProjector V S :=
  let fallback := default DefaultEvidenceProjector fallback in
  MkProjector (content_project_source fallback) (ProjectArtifact fallback).

(** Encoding does not fail on a JSON value. *)
Definition marshalExtractionJSON (value : json) : bytes := json_bytes false true value.

(** ** The request *)

Definition source_id (index : nat) : string := "source:" +:+ pretty index.
Definition artifact_id (index : nat) : string := "artifact:" +:+ pretty index.

Definition project_values {X} (id : nat -> string) (kind : EvidenceKind) (label : string)
    (project : X -> mres json) (values : list X) : mres (list ExtractionEvidence) :=
  map_res (fun p =>
      let* projected := map_err (fun _ => EEvidenceProjection label) (project (snd p)) in
      Ok (MkExtractionEvidence (id (fst p)) kind (marshalExtractionJSON projected)))
    (combine (seq 0 (length values)) values).

Definition put_values {X Y} (id : nat -> string) (tag : X -> Y) (values : list X) (m : gmap string Y)
  : gmap string Y :=
  fold_left (fun m p => <[id (fst p) := tag (snd p)]> m) (combine (seq 0 (length values)) values) m.

(** What the identifiers offered to the model stand for. *)
Definition evidence_map (request : CandidateRequest V S) : gmap string (V + S) :=
  put_values artifact_id inr (cr_artifacts V S request)
    (put_values source_id inl (cr_sources V S request) ∅).

Definition extractionInput (projector : EvidenceProjector V S) (request : CandidateRequest V S)
  : mres (ExtractionInput * gmap string (V + S)) :=
  let* sources := project_values source_id SourceEvidence "source" (ProjectSource projector)
                    (cr_sources V S request) in
  let* artifacts := project_values artifact_id ArtifactEvidence "artifact" (ProjectArtifact projector)
                      (cr_artifacts V S request) in
  let entries := map (fun e => MkCurrentEntry (ev_EntryID e) (ev_Kind e) (ev_Text e))
                   (cr_currentEntries V S request) in
  Ok (MkExtractionInput (sources ++ artifacts) entries, evidence_map request).

(** ** The answer *)

Definition invalid_output {X} (detail : string) : mres X := Err (EInvalidOutput "memory-extract" detail).

Record Selection := MkSelection { se_sources : list V; se_artifacts : list S; se_seen : gset string }.

Definition select_one (evidence : gmap string (V + S)) (st : Selection) (id : string) : mres Selection :=
  if bool_decide (id ∈ se_seen st) then Ok st
  else
    let seen := {[id]} ∪ se_seen st in
    match evidence !! id with
    | None => invalid_output "candidate cites evidence outside the request"
    | Some (inl source) => Ok (MkSelection (se_sources st ++ [source]) (se_artifacts st) seen)
    | Some (inr artifact) => Ok (MkSelection (se_sources st) (se_artifacts st ++ [artifact]) seen)
    end.

Definition selectedExtractionEvidence (proposal : ExtractionCandidate) (evidence : gmap string (V + S))
  : mres (list V * list S) :=
  match cd_evidenceIDs proposal with
  | [] => invalid_output "candidate does not cite evidence"
  | ids =>
      let* st := fold_res (select_one evidence) (MkSelection [] [] ∅) ids in
      Ok (se_sources st, se_artifacts st)
  end.

(** The target and the entries revised so far. *)
Definition extractionRevisionTarget (proposal : ExtractionCandidate) (current : gmap string EntryVersion)
    (revised : gset string) : mres (option EntryVersion * gset string) :=
  match cd_intent proposal, cd_entryID proposal with
  | ExtractionAdd, Some _ => invalid_output "add candidate must not identify an existing entry"
  | ExtractionAdd, None => Ok (None, revised)
  | OtherIntent _, _ => invalid_output "candidate has an unsupported intent"
  | ExtractionRevise, None => invalid_output "revise candidate must identify an active entry"
  | ExtractionRevise, Some id =>
      match current !! id with
      | None => invalid_output "revise candidate does not identify an active entry"
      | Some entry =>
          require negb (bool_decide (id ∈ revised))
            else EInvalidOutput "memory-extract" "an active entry can only be revised once per extraction" in
          Ok (Some entry, {[id]} ∪ revised)
      end
  end.

Definition extract_one (evidence : gmap string (V + S)) (current : gmap string EntryVersion)
    (st : list (EntryInput V S) * gset string) (proposal : ExtractionCandidate)
  : mres (list (EntryInput V S) * gset string) :=
  let* ' (sources, artifacts) := selectedExtractionEvidence proposal evidence in
  let* ' (entry, revised) := extractionRevisionTarget proposal current (snd st) in
  Ok (fst st ++ [MkInput entry (cd_kind proposal) (cd_text proposal) sources artifacts (cd_reason proposal)],
      revised).

(** [LLMCandidatePipeline.Extract] *)
Definition Extract (projector : EvidenceProjector V S)
    (generate : ExtractionInput -> mres (Generated (list ExtractionCandidate)))
    (request : CandidateRequest V S) : mres (list (EntryInput V S)) :=
  let* ' (input, evidence) := extractionInput projector request in
  let* result := generate input in
  let current := entryMap (cr_currentEntries V S request) in
  let* ' (inputs, _) := fold_res (extract_one evidence current) ([], ∅) (g_Output result) in
  Ok inputs.
End extraction.
