(* ===== verification/MemorySearchFacts.v ===== *)
(** * Facts about fusion and reranking

    The order of float scores, the maps that the fusion builds, compared with a
    direct definition of reciprocal rank fusion, and the normalization of the
    ranks a model answers. *)

From Stdlib Require Import SpecFloat.
From S2P Require Import Prelude.
From S2P Require Import GoStrings.
From S2P Require Import GoTime.
From S2P Require Import Refs.
From S2P Require Import MemoryModel.
From S2P Require Import MemoryService.
From S2P Require Import MemorySearch.

(** ** The order of floats *)

(** A number as its place in the order: class, exponent, mantissa. *)
Definition float_key (f : float64) : Z * Z * Z :=
  match f with
  | S754_infinity true => (-2, 0, 0)
  | S754_finite true m e => (-1, - e, Zneg m)
  | S754_finite false m e => (1, e, Zpos m)
  | S754_infinity false => (2, 0, 0)
  | _ => (0, 0, 0)
  end.

Definition key_lt (a b : Z * Z * Z) : Prop :=
  let '(a1, a2, a3) := a in let '(b1, b2, b3) := b in
  a1 < b1 \/ (a1 = b1 /\ (a2 < b2 \/ (a2 = b2 /\ a3 < b3))).

Lemma f64_lt_key a b :
  is_nan a = false -> is_nan b = false -> f64_lt a b = true <-> key_lt (float_key a) (float_key b).
Proof.
  intros Ha Hb. unfold f64_lt, SFltb.
  destruct a as [[]|[]| |[] ma ea], b as [[]|[]| |[] mb eb]; try done; cbn;
    try (split; [done|lia]); try (split; [lia|done]).
  - destruct (Z.compare_spec ea eb) as [->|H|H].
    + change (Pos.compare_cont Eq ma mb) with (Pos.compare ma mb).
      destruct (Pos.compare_spec ma mb); cbn; split; try done; lia.
    + split; [done|lia].
    + split; [lia|done].
  - destruct (Z.compare_spec ea eb) as [->|H|H].
    + change (Pos.compare_cont Eq ma mb) with (Pos.compare ma mb).
      destruct (Pos.compare_spec ma mb); cbn; split; try done; lia.
    + split; [lia|done].
    + split; [done|lia].
Qed.

(** Not below zero and not NaN. *)
Definition nonneg_float (f : float64) : Prop :=
  match f with
  | S754_zero false | S754_infinity false | S754_finite false _ _ => True
  | _ => False
  end.

Lemma nonneg_not_nan f : nonneg_float f -> is_nan f = false.
Proof. by destruct f. Qed.

Lemma shr_fexp_nonneg m e l r e' :
  0 <= m -> shr_fexp 53 1024 m e l = (r, e') -> 0 <= shr_m r.
Proof.
  intros Hm. unfold shr_fexp, shr.
  destruct (_ - e) as [|p|p]; intros [= <- <-]; rewrite ?iter_pos_nat, ?shr_iter;
    rewrite ?shr_m_of_loc by lia; try lia.
  apply Z.div_pos; lia.
Qed.

Lemma binary_round_aux_nonneg m e l : 0 <= m -> nonneg_float (binary_round_aux 53 1024 false m e l).
Proof.
  intros Hm. unfold binary_round_aux.
  destruct (shr_fexp 53 1024 m e l) as [r e1] eqn:E1. apply shr_fexp_nonneg in E1; [|done].
  pose proof (round_nearest_even_le (shr_m r) (loc_of_shr_record r)) as Hr.
  destruct (shr_fexp 53 1024 _ e1 loc_Exact) as [r2 e2] eqn:E2.
  apply shr_fexp_nonneg in E2; [|lia].
  destruct (shr_m r2); [done| |lia]. by destruct (_ <=? _).
Qed.

Lemma f64_of_int_nonneg z : 0 <= z -> nonneg_float (f64_of_int z).
Proof.
  intros Hz. unfold f64_of_int, binary_normalize, binary_round. destruct z as [|p|p]; [done| |lia].
  destruct (shl_align _ _ _). by apply binary_round_aux_nonneg.
Qed.

Lemma rrf_nonneg index : nonneg_float (rrf index).
Proof.
  unfold rrf, f64_div. pose proof (f64_of_int_nonneg (rrfConstant + Z.of_nat index + 1)) as H.
  assert (0 <= rrfConstant + Z.of_nat index + 1) as Hz by (unfold rrfConstant; lia). specialize (H Hz).
  destruct (f64_of_int _) as [[]|[]| |[] m e]; try done.
  unfold f64_one, SFdiv. unfold SFdiv_core_binary.
  set (e' := Z.min _ _). set (m' := match _ with 0 => _ | Zpos _ => _ | Zneg _ => _ end).
  assert (0 <= m') as Hm'.
  { unfold m'. destruct (_ - e'); [lia| |lia]. apply Z.shiftl_nonneg. lia. }
  clearbody m'. destruct (Z.div_eucl m' (Zpos m)) as [q r] eqn:Eq.
  assert (q = m' / Zpos m) as -> by (unfold Z.div; by rewrite Eq).
  apply binary_round_aux_nonneg. apply Z.div_pos; lia.
Qed.

Lemma f64_add_nonneg x y : nonneg_float x -> nonneg_float y -> nonneg_float (f64_add x y).
Proof.
  unfold f64_add, SFadd. destruct x as [[]|[]| |[] mx ex], y as [[]|[]| |[] my ey]; try done.
  intros _ _. destruct (shl_align mx ex (Z.min ex ey)) as [a ea].
  destruct (shl_align my ey (Z.min ex ey)) as [b eb]. cbn [fst cond_Zopp].
  change (Zpos a + Zpos b) with (Zpos (a + b)). unfold binary_normalize, binary_round.
  destruct (shl_align (a + b) _ _). by apply binary_round_aux_nonneg.
Qed.

(** ** The order of identities *)

Section identity_order.
Context (scores : gmap hitIdentity float64).
Context (Hscores : forall id, is_nan (score_of scores id) = false).

Notation key id := (float_key (score_of scores id)).

Lemma id_le_spec l r :
  id_le scores l r <->
  key_lt (key r) (key l) \/
  (~ key_lt (key l) (key r) /\
   (hi_artifactID l <> hi_artifactID r /\ str_le (hi_artifactID l) (hi_artifactID r) \/
    hi_artifactID l = hi_artifactID r /\
    (hi_entryID l <> hi_entryID r /\ str_le (hi_entryID l) (hi_entryID r) \/
     hi_entryID l = hi_entryID r /\ str_le (hi_entryVersionID l) (hi_entryVersionID r)))).
Proof.
  assert (Hcmp : forall a b, match String.compare a b with
                             | Eq => a = b | Lt => a <> b /\ str_le a b | Gt => a <> b /\ ~ str_le a b end).
  { intros a b. unfold str_le, String.leb. destruct (String.compare a b) eqn:E; [|split; [|done]..].
    - by apply String.compare_eq_iff.
    - intros ->. pose proof (String.compare_antisym b b) as H. by rewrite E in H.
    - intros ->. pose proof (String.compare_antisym b b) as H. by rewrite E in H. }
  assert (Hle : forall a b, str_le a b <-> String.compare a b <> Gt).
  { intros a b. unfold str_le, String.leb. by destruct (String.compare a b). }
  unfold id_le, compare_identities.
  pose proof (f64_lt_key _ _ (Hscores r) (Hscores l)) as H1.
  pose proof (f64_lt_key _ _ (Hscores l) (Hscores r)) as H2.
  destruct (f64_lt (score_of scores r) (score_of scores l)); [split; [left; by apply H1|done]|].
  destruct (f64_lt (score_of scores l) (score_of scores r)).
  { split; [done|]. intros [H%H1|[H _]]; [done|]. destruct H. by apply H2. }
  assert (N1 : ~ key_lt (key r) (key l)) by (intros H%H1; done).
  assert (N2 : ~ key_lt (key l) (key r)) by (intros H%H2; done). clear H1 H2.
  pose proof (Hcmp (hi_artifactID l) (hi_artifactID r)) as Ca.
  pose proof (Hcmp (hi_entryID l) (hi_entryID r)) as Ce.
  pose proof (Hle (hi_entryVersionID l) (hi_entryVersionID r)) as Cv.
  assert (NL : Lt <> Gt) by done.
  destruct (String.compare (hi_artifactID l) _); [|tauto..].
  destruct (String.compare (hi_entryID l) _); tauto.
Qed.

Lemma id_le_trans : Transitive (id_le scores).
Proof.
  intros a b c. rewrite !id_le_spec.
  assert (T : forall x y z : string, str_le x y -> str_le y z -> str_le x z) by apply (@transitivity _ str_le _).
  assert (S : forall x y : string, str_le x y -> str_le y x -> x = y) by apply (@anti_symm _ _ str_le _).
  destruct (key a) as [[a1 a2] a3], (key b) as [[b1 b2] b3], (key c) as [[c1 c2] c3]. unfold key_lt.
  intros [Hab|[Kab Hab]] [Hbc|[Kbc Hbc]]; [left; lia|left; lia|left; lia|].
  right. split; [lia|].
  destruct Hab as [[Na Ha]|[Ea Hab]], Hbc as [[Nb Hb]|[Eb Hbc]]; [left..|right].
  - split; [|by eapply T]. intros E. rewrite E in Ha. apply Nb. by apply S.
  - rewrite <- Eb. done.
  - rewrite Ea. done.
  - split; [congruence|].
    destruct Hab as [[Ne Ha]|[Ee Ha]], Hbc as [[Ne' Hb]|[Ee' Hb]]; [left..|right].
    + split; [|by eapply T]. intros E. rewrite E in Ha. apply Ne'. by apply S.
    + rewrite <- Ee'. done.
    + rewrite Ee. done.
    + split; [congruence|by eapply T].
Qed.

Lemma id_le_total : Total (id_le scores).
Proof.
  intros a b. rewrite !id_le_spec.
  destruct (key a) as [[a1 a2] a3], (key b) as [[b1 b2] b3]. unfold key_lt.
  assert (a1 < b1 \/ a1 = b1 /\ (a2 < b2 \/ a2 = b2 /\ a3 < b3) \/
          b1 < a1 \/ b1 = a1 /\ (b2 < a2 \/ b2 = a2 /\ b3 < a3) \/
          (a1 = b1 /\ a2 = b2 /\ a3 = b3)) as [H|[H|[H|[H|H]]]] by lia; [tauto..|].
  destruct (decide (hi_artifactID a = hi_artifactID b)) as [Ea|Na].
  - destruct (decide (hi_entryID a = hi_entryID b)) as [Ee|Ne].
    + destruct (total str_le (hi_entryVersionID a) (hi_entryVersionID b)); [left|right]; right;
        (split; [lia|]); right; (split; [done|]); right; done.
    + destruct (total str_le (hi_entryID a) (hi_entryID b)); [left|right]; right;
        (split; [lia|]); right; (split; [done|]); left; (split; [congruence|done]).
  - destruct (total str_le (hi_artifactID a) (hi_artifactID b)); [left|right]; right;
      (split; [lia|]); left; (split; [congruence|done]).
Qed.

(** Identities that compare equal agree but for the revision. *)
Lemma id_le_antisym l r :
  id_le scores l r -> id_le scores r l ->
  hi_artifactID l = hi_artifactID r /\ hi_entryID l = hi_entryID r /\ hi_entryVersionID l = hi_entryVersionID r.
Proof.
  rewrite !id_le_spec. destruct (key l) as [[a1 a2] a3], (key r) as [[b1 b2] b3]. unfold key_lt.
  intros [H|[K H]] [H'|[K' H']]; [lia..|].
  assert (S : forall x y : string, str_le x y -> str_le y x -> x = y) by apply (@anti_symm _ _ str_le _).
  destruct H as [[N H]|[E [[N H]|[E' H]]]], H' as [[N' H']|[F [[N' H']|[F' H']]]]; try congruence;
    try (by destruct N; apply S); auto.
Qed.
End identity_order.

(** ** Reciprocal rank fusion, defined directly *)

(** The first hit of an identity in a channel, with its rank. *)
Definition first_hit (id : hitIdentity) (hits : list ChannelHit) : option (nat * ChannelHit) :=
  list_find (fun h => identity h = id) hits.

Definition channel_score (id : hitIdentity) (hits : list ChannelHit) (acc : float64) : float64 :=
  match first_hit id hits with Some (i, _) => f64_add acc (rrf i) | None => acc end.
Definition rrf_score (fts vector : list ChannelHit) (id : hitIdentity) : float64 :=
  channel_score id vector (channel_score id fts f64_zero).

Definition rrf_channels (fts vector : list ChannelHit) (id : hitIdentity) : list MatchedBy :=
  (if first_hit id fts then [MatchedFTS] else []) ++ (if first_hit id vector then [MatchedVector] else []).

Definition rrf_hit (fts vector : list ChannelHit) (id : hitIdentity) : option Hit :=
  match first_hit id (fts ++ vector) with
  | Some (_, c) =>
      Some (MkHit (ch_MemoryRef c) (ch_EntryID c) (ch_EntryVersionID c) (ch_Text c)
              (rrf_score fts vector id) (rrf_channels fts vector id))
  | None => None
  end.

(** The identity of a fused hit. *)
Definition hit_id (h : Hit) : hitIdentity :=
  MkIdentity (artifactID (h_MemoryRef h)) (revision (h_MemoryRef h)) (h_EntryID h) (h_EntryVersionID h).

Section fusion.
Context (channel : MatchedBy).

Lemma first_hit_cons id c more :
  first_hit id (c :: more) =
  if decide (identity c = id) then Some (0%nat, c)
  else match first_hit id more with Some (i, h) => Some (S i, h) | None => None end.
Proof.
  unfold first_hit. cbn. destruct (decide _); [done|].
  by destruct (list_find _ more) as [[]|].
Qed.

Lemma fuse_candidates k hits seen st id :
  fu_candidates (fuse_ranking channel k hits seen st) !! id =
  match fu_candidates st !! id with
  | Some c => Some c
  | None => if decide (id ∈ seen) then None else snd <$> first_hit id hits
  end.
Proof.
  revert k seen st. induction hits as [|c more IH]; intros k seen st.
  { cbn. destruct (_ !! id); [done|]. by destruct (decide _). }
  cbn [fuse_ranking]. rewrite first_hit_cons. case_bool_decide as Hc.
  - rewrite IH. destruct (_ !! id); [done|]. destruct (decide (id ∈ seen)); [done|].
    destruct (decide (identity c = id)) as [<-|]; [done|]. by destruct (first_hit id more) as [[]|].
  - rewrite IH. unfold fuse_hit. cbn [fu_candidates].
    destruct (decide (identity c = id)) as [<-|Hne].
    + rewrite decide_True by set_solver. rewrite (decide_False (P := _ ∈ seen)) by done.
      destruct (fu_candidates st !! identity c) eqn:E; [by rewrite E|]. by rewrite lookup_insert_eq.
    + replace (match fu_candidates st !! identity c with Some _ => _ | None => _ end !! id)
        with (fu_candidates st !! id).
      2: { destruct (fu_candidates st !! identity c); [done|]. by rewrite lookup_insert_ne. }
      destruct (_ !! id); [done|].
      destruct (decide (id ∈ seen)); [by rewrite decide_True by set_solver|].
      rewrite decide_False by set_solver. by destruct (first_hit id more) as [[]|].
Qed.

Lemma fuse_scores k hits seen st id :
  fu_scores (fuse_ranking channel k hits seen st) !! id =
  if decide (id ∈ seen) then fu_scores st !! id
  else match first_hit id hits with
       | Some (i, _) => Some (f64_add (default f64_zero (fu_scores st !! id)) (rrf (k + i)))
       | None => fu_scores st !! id
       end.
Proof.
  revert k seen st. induction hits as [|c more IH]; intros k seen st.
  { cbn. by destruct (decide _). }
  cbn [fuse_ranking]. rewrite first_hit_cons. case_bool_decide as Hc.
  - rewrite IH. destruct (decide (id ∈ seen)); [done|].
    destruct (decide (identity c = id)) as [<-|]; [done|].
    destruct (first_hit id more) as [[]|]; [|done]. do 3 f_equal. lia.
  - rewrite IH. unfold fuse_hit. cbn [fu_scores].
    destruct (decide (identity c = id)) as [<-|Hne].
    + rewrite decide_True by set_solver. rewrite (decide_False (P := _ ∈ seen)) by done.
      rewrite lookup_insert_eq. do 3 f_equal. lia.
    + rewrite lookup_insert_ne by done.
      destruct (decide (id ∈ seen)); [by rewrite decide_True by set_solver|].
      rewrite decide_False by set_solver.
      destruct (first_hit id more) as [[]|]; [|done]. do 3 f_equal. lia.
Qed.

Lemma fuse_channels k hits seen st id :
  fu_channels (fuse_ranking channel k hits seen st) !! id =
  if decide (id ∈ seen) then fu_channels st !! id
  else match first_hit id hits with
       | Some _ => Some ({[channel]} ∪ default ∅ (fu_channels st !! id))
       | None => fu_channels st !! id
       end.
Proof.
  revert k seen st. induction hits as [|c more IH]; intros k seen st.
  { cbn. by destruct (decide _). }
  cbn [fuse_ranking]. rewrite first_hit_cons. case_bool_decide as Hc.
  - rewrite IH. destruct (decide (id ∈ seen)); [done|].
    destruct (decide (identity c = id)) as [<-|]; [done|]. by destruct (first_hit id more) as [[]|].
  - rewrite IH. unfold fuse_hit. cbn [fu_channels].
    destruct (decide (identity c = id)) as [<-|Hne].
    + rewrite decide_True by set_solver. rewrite (decide_False (P := _ ∈ seen)) by done.
      by rewrite lookup_insert_eq.
    + rewrite lookup_insert_ne by done.
      destruct (decide (id ∈ seen)); [by rewrite decide_True by set_solver|].
      rewrite decide_False by set_solver. by destruct (first_hit id more) as [[]|].
Qed.
End fusion.

Lemma first_hit_app id fts vector :
  snd <$> first_hit id (fts ++ vector) =
  match snd <$> first_hit id fts with Some c => Some c | None => snd <$> first_hit id vector end.
Proof.
  induction fts as [|c more IH]; [done|]. cbn [app]. rewrite !first_hit_cons.
  destruct (decide _); [done|].
  destruct (first_hit id (more ++ vector)) as [[]|], (first_hit id more) as [[]|]; cbn in *; congruence.
Qed.

Lemma fused_candidate fts vector id :
  fu_candidates (fuse fts vector) !! id = snd <$> first_hit id (fts ++ vector).
Proof.
  unfold fuse. rewrite !fuse_candidates, first_hit_app. cbn [fu_candidates].
  rewrite lookup_empty, !decide_False by set_solver. done.
Qed.

Lemma fused_score fts vector id : score_of (fu_scores (fuse fts vector)) id = rrf_score fts vector id.
Proof.
  unfold fuse, score_of, rrf_score, channel_score. rewrite !fuse_scores. cbn [fu_scores].
  rewrite lookup_empty, !decide_False by set_solver.
  by destruct (first_hit id vector) as [[]|], (first_hit id fts) as [[]|].
Qed.

Lemma fused_channels fts vector id :
  List.filter (fun ch => bool_decide (ch ∈ default ∅ (fu_channels (fuse fts vector) !! id)))
    [MatchedFTS; MatchedVector] = rrf_channels fts vector id.
Proof.
  unfold fuse, rrf_channels. rewrite !fuse_channels. cbn [fu_channels].
  rewrite lookup_empty, !decide_False by set_solver.
  destruct (first_hit id vector) as [[]|], (first_hit id fts) as [[]|]; vm_compute; reflexivity.
Qed.

(** Each fused hit is the direct one. *)
Lemma fused_hit_direct fts vector id :
  fused_hit (fuse fts vector) id = match rrf_hit fts vector id with Some h => [h] | None => [] end.
Proof.
  unfold fused_hit, rrf_hit. rewrite fused_candidate, fused_score, fused_channels.
  by destruct (first_hit id (fts ++ vector)) as [[]|].
Qed.

Lemma first_hit_some id hits i c : first_hit id hits = Some (i, c) -> c ∈ hits /\ identity c = id.
Proof. unfold first_hit. intros H. apply list_find_Some in H as (H & E & _). split; [|done]. by eapply list_elem_of_lookup_2. Qed.

Lemma first_hit_none id hits : first_hit id hits = None <-> forall c, c ∈ hits -> identity c <> id.
Proof. unfold first_hit. rewrite list_find_None, Forall_forall. done. Qed.

Lemma rrf_hit_id fts vector id h : rrf_hit fts vector id = Some h -> hit_id h = id.
Proof.
  unfold rrf_hit. destruct (first_hit id (fts ++ vector)) as [[i c]|] eqn:E; [|done].
  intros [= <-]. by apply first_hit_some in E as [_ <-].
Qed.

Lemma rrf_score_nonneg fts vector id : nonneg_float (rrf_score fts vector id).
Proof.
  assert (H : forall hits acc, nonneg_float acc -> nonneg_float (channel_score id hits acc)).
  { intros hits acc Ha. unfold channel_score. destruct (first_hit id hits) as [[]|]; [|done].
    apply f64_add_nonneg; [done|apply rrf_nonneg]. }
  by apply H, H.
Qed.

(** The order of the sort, on the identities of a fusion. *)
Definition rrf_le (fts vector : list ChannelHit) : hitIdentity -> hitIdentity -> Prop :=
  id_le (fu_scores (fuse fts vector)).

Lemma rrf_scores_ok fts vector id : is_nan (score_of (fu_scores (fuse fts vector)) id) = false.
Proof. rewrite fused_score. apply nonneg_not_nan, rrf_score_nonneg. Qed.

(** What a range over a map gives: its keys, once each, in some order. *)
Definition map_order (iterate : gmap hitIdentity ChannelHit -> list hitIdentity) : Prop :=
  forall m, iterate m ≡ₚ map fst (map_to_list m).

Definition sorted_identities (iterate : gmap hitIdentity ChannelHit -> list hitIdentity)
    (fts vector : list ChannelHit) : list hitIdentity :=
  merge_sort (id_le (fu_scores (fuse fts vector))) (iterate (fu_candidates (fuse fts vector))).

Section sorted_identities.
Context (iterate : gmap hitIdentity ChannelHit -> list hitIdentity) (Hiter : map_order iterate).
Context (fts vector : list ChannelHit).

Lemma sorted_identities_perm :
  sorted_identities iterate fts vector ≡ₚ map fst (map_to_list (fu_candidates (fuse fts vector))).
Proof. unfold sorted_identities. rewrite merge_sort_Permutation. apply Hiter. Qed.

Lemma sorted_identities_sorted : StronglySorted (rrf_le fts vector) (sorted_identities iterate fts vector).
Proof.
  apply StronglySorted_merge_sort.
  - apply id_le_trans, rrf_scores_ok.
  - apply id_le_total, rrf_scores_ok.
Qed.

Lemma sorted_identities_nodup : NoDup (sorted_identities iterate fts vector).
Proof. rewrite sorted_identities_perm. apply NoDup_fst_map_to_list. Qed.

Lemma sorted_identities_elem id :
  id ∈ sorted_identities iterate fts vector <-> is_Some (rrf_hit fts vector id).
Proof.
  rewrite sorted_identities_perm. unfold rrf_hit. pose proof (fused_candidate fts vector id) as Hc.
  etransitivity; [apply list_elem_of_fmap|]. destruct (first_hit id (fts ++ vector)) as [[i c]|]; cbn in Hc; split.
  - intros _. by eexists.
  - intros _. exists (id, c). split; [done|]. by apply elem_of_map_to_list.
  - intros ([k c] & -> & Hk). apply elem_of_map_to_list in Hk. cbn in Hc. congruence.
  - by intros [].
Qed.

(** The hits of a list of fused identities. *)
Lemma fused_hits ids :
  (forall id, id ∈ ids -> is_Some (rrf_hit fts vector id)) ->
  Forall2 (fun id h => rrf_hit fts vector id = Some h) ids (flat_map (fused_hit (fuse fts vector)) ids).
Proof.
  induction ids as [|id ids IH]; intros H; [constructor|].
  cbn [flat_map]. rewrite fused_hit_direct. destruct (H id) as [h Hh]; [left|]. rewrite Hh.
  cbn. constructor; [done|]. apply IH. intros. apply H. by right.
Qed.

Lemma fuse_rankings_inv limit hits :
  FuseRankings iterate fts vector limit = Ok hits ->
  1 <= limit /\
  Forall2 (fun id h => rrf_hit fts vector id = Some h)
    (take (Z.to_nat limit) (sorted_identities iterate fts vector)) hits.
Proof.
  unfold FuseRankings. intros H. bind_inv H. ok_inv. apply Z.leb_le in Ha. split; [done|]. subst hits.
  apply fused_hits. intros id Hid. apply sorted_identities_elem.
  rewrite <- (take_drop (Z.to_nat limit) (sorted_identities iterate fts vector)).
  apply elem_of_app. by left.
Qed.

Lemma rrf_hits_ids ids hits :
  Forall2 (fun id h => rrf_hit fts vector id = Some h) ids hits -> map hit_id hits = ids.
Proof. induction 1 as [|id h ids hits H _ IH]; [done|]. cbn. by rewrite IH, (rrf_hit_id _ _ _ _ H). Qed.

Lemma rrf_hit_score id h : rrf_hit fts vector id = Some h -> h_Score h = rrf_score fts vector id.
Proof. unfold rrf_hit. destruct (first_hit _ _) as [[]|]; [|done]. by intros [= <-]. Qed.

(** A hit before another does not have the lower score. *)
Lemma rrf_le_score a b ha hb :
  rrf_le fts vector a b -> rrf_hit fts vector a = Some ha -> rrf_hit fts vector b = Some hb ->
  f64_lt (h_Score ha) (h_Score hb) = false.
Proof.
  intros Hle Ha%rrf_hit_score Hb%rrf_hit_score. rewrite Ha, Hb, <- !fused_score.
  apply (id_le_spec _ (rrf_scores_ok fts vector)) in Hle. apply not_true_is_false.
  rewrite f64_lt_key by apply rrf_scores_ok.
  destruct (float_key _) as [[a1 a2] a3], (float_key _) as [[b1 b2] b3]. unfold key_lt in *. lia.
Qed.

Lemma fuse_rankings_nodup limit hits : FuseRankings iterate fts vector limit = Ok hits -> NoDup (map hit_id hits).
Proof.
  intros H. apply fuse_rankings_inv in H as [_ HF]. rewrite (rrf_hits_ids _ _ HF).
  pose proof sorted_identities_nodup as Hn.
  rewrite <- (take_drop (Z.to_nat limit) (sorted_identities iterate fts vector)), NoDup_app in Hn. by destruct Hn.
Qed.
End sorted_identities.

(** ** Ranks *)

(** The first occurrences of the values of a list. *)
Fixpoint first_occurrences (seen values : list Z) : list Z :=
  match values with
  | [] => []
  | v :: more => if decide (v ∈ seen) then first_occurrences seen more
                 else v :: first_occurrences (seen ++ [v]) more
  end.

Definition in_pool (count rank : Z) : bool := (1 <=? rank) && (rank <=? count).

Lemma normalize_loop_spec values count limit selected discarded :
  Z.of_nat (length selected) < limit ->
  fst (normalize_loop values count limit selected discarded) =
  selected ++ take (Z.to_nat limit - length selected)
                (first_occurrences selected (List.filter (in_pool count) values)).
Proof.
  revert selected discarded. induction values as [|v more IH]; intros selected discarded Hl.
  { cbn. by rewrite take_nil, app_nil_r. }
  cbn [normalize_loop List.filter]. unfold in_pool at 1.
  replace ((1 <=? v) && (v <=? count)) with (negb ((v <? 1) || (count <? v))) by lia.
  destruct ((v <? 1) || (count <? v)); cbn [negb]; [by apply IH|].
  cbn [first_occurrences]. case_bool_decide as Hv.
  - rewrite decide_True by done. by apply IH.
  - rewrite decide_False by done.
    destruct (Z.to_nat limit - length selected)%nat as [|n] eqn:En; [lia|]. rewrite firstn_cons.
    rewrite length_app. cbn [length]. destruct (Z.eqb_spec (Z.of_nat (length selected + 1)) limit) as [E|E].
    + cbn [fst]. assert (n = 0%nat) as -> by lia. done.
    + rewrite IH by (rewrite length_app; cbn; lia). rewrite length_app, <- app_assoc. cbn [app length].
      do 3 f_equal. lia.
Qed.

Lemma first_occurrences_nodup seen values :
  NoDup (first_occurrences seen values) /\ forall v, v ∈ first_occurrences seen values <-> v ∈ values /\ v ∉ seen.
Proof.
  revert seen. induction values as [|v more IH]; intros seen; cbn.
  { split; [constructor|]. intros v. rewrite elem_of_nil. tauto. }
  destruct (decide (v ∈ seen)) as [Hv|Hv].
  - destruct (IH seen) as [H1 H2]. split; [done|]. intros w. rewrite H2, elem_of_cons.
    split; [tauto|]. intros [[->|] ?]; tauto.
  - destruct (IH (seen ++ [v])) as [H1 H2]. split.
    + constructor; [|done]. rewrite H2, elem_of_app, list_elem_of_singleton. tauto.
    + intros w. rewrite !elem_of_cons, H2, elem_of_app, list_elem_of_singleton.
      destruct (decide (w = v)) as [->|]; tauto.
Qed.

Lemma normalizeRanks_spec values count limit :
  1 <= limit ->
  fst (normalizeRanks values count limit) =
  take (Z.to_nat limit) (first_occurrences [] (List.filter (in_pool count) values)).
Proof. intros H. unfold normalizeRanks. rewrite normalize_loop_spec by (cbn; lia). cbn. by rewrite Nat.sub_0_r. Qed.

Lemma NoDup_take {X} (l : list X) n : NoDup l -> NoDup (take n l).
Proof. intros H. rewrite <- (take_drop n l) in H. by apply NoDup_app in H as [H _]. Qed.

Lemma elem_of_take_in {X} (l : list X) n x : x ∈ take n l -> x ∈ l.
Proof. intros H. rewrite <- (take_drop n l). apply elem_of_app. by left. Qed.

Lemma ranks_from_spec first n r : r ∈ ranks_from first n <-> Z.of_nat first <= r < Z.of_nat (first + n).
Proof.
  unfold ranks_from. rewrite list_elem_of_fmap. split.
  - intros (k & -> & Hk). apply elem_of_seq in Hk. lia.
  - intros H. exists (Z.to_nat r). split; [lia|]. apply elem_of_seq. lia.
Qed.

Lemma ranks_from_nodup first n : NoDup (ranks_from first n).
Proof. unfold ranks_from. apply NoDup_fmap_2; [apply _|apply NoDup_seq]. Qed.

(** The ranks that the LLM reranker decides on. *)
Lemma llm_rerank_inv generate query candidates limit d :
  LLMRerank generate query candidates limit = Ok d ->
  1 <= limit <= Z.of_nat (length candidates) /\ query <> ""%string /\
  exists projected g,
    rerank_candidates candidates = Ok projected /\
    generate (MkRerankInput query limit projected) = Ok g /\
    let ranks := take (Z.to_nat limit) (first_occurrences []
                   (List.filter (in_pool (Z.of_nat (length candidates))) (g_Output g))) in
    rd_usedFallback d = bool_decide (ranks = []) /\
    rd_selectedRanks d = if decide (ranks = []) then ranks_from 1 (Z.to_nat limit) else ranks.
Proof.
  unfold LLMRerank. intros H. bind_inv H. ok_inv. boolify.
  rename Ha2 into Hproj, Ha3 into Hgen. apply String.eqb_neq in Ha1.
  destruct (normalizeRanks _ _ _) as [selected discarded] eqn:E.
  assert (Hs := normalizeRanks_spec (g_Output a3) (Z.of_nat (length candidates)) limit ltac:(lia)).
  rewrite E in Hs. cbn [fst] in Hs. split; [lia|]. split; [done|]. exists a2, a3. split; [done|]. split; [done|].
  rewrite <- Hs. destruct selected; ok_inv; subst d; done.
Qed.

Lemma llm_rerank_ranks generate query candidates limit d :
  LLMRerank generate query candidates limit = Ok d ->
  NoDup (rd_selectedRanks d) /\ rd_selectedRanks d <> [] /\
  Z.of_nat (length (rd_selectedRanks d)) <= limit /\
  forall r, r ∈ rd_selectedRanks d -> 1 <= r <= Z.of_nat (length candidates).
Proof.
  intros H. apply llm_rerank_inv in H as (Hl & _ & _ & g & _ & _ & H).
  set (ranks := take _ _) in H. destruct H as [_ ->].
  destruct (decide (ranks = [])) as [|Hne].
  - split; [apply ranks_from_nodup|]. split.
    { destruct (Z.to_nat limit) eqn:E; [lia|done]. }
    split; [unfold ranks_from; rewrite length_map, length_seq; lia|].
    intros r Hr%ranks_from_spec. lia.
  - split; [apply NoDup_take, first_occurrences_nodup|]. split; [done|].
    split; [unfold ranks; rewrite length_take; lia|].
    intros r Hr. apply elem_of_take_in, first_occurrences_nodup in Hr as [Hr _].
    apply list_elem_of_In, filter_In in Hr as [_ Hr]. unfold in_pool in Hr. lia.
Qed.
