(* ===== verification/ExtractFacts.v ===== *)
(** * Facts about extraction: evidence maps, selections and targets *)

From S2P Require Import Prelude.
From S2P Require Import GoStrings.
From S2P Require Import Refs.
From S2P Require Import Json.
From S2P Require Import MemoryModel.
From S2P Require Import MemoryService.
From S2P Require Import MemoryServiceFacts.
From S2P Require Import PlanFacts.
From S2P Require Import MemorySearch.
From S2P Require Import MemoryExtract.

Lemma combine_seq_lookup {X} (values : list X) n i v :
  (i, v) ∈ combine (seq n (length values)) values <-> (n <= i)%nat /\ values !! (i - n)%nat = Some v.
Proof.
  revert n. induction values as [|x values IH]; intros n; cbn.
  { rewrite elem_of_nil. split; [done|]. by intros [_ ?]. }
  rewrite elem_of_cons, IH. split.
  - intros [[= -> ->]|[Hi Hv]]; [split; [lia|by rewrite Nat.sub_diag]|]. split; [lia|].
    by replace (i - n)%nat with (S (i - S n)) by lia.
  - intros [Hi Hv]. destruct (decide (i = n)) as [->|].
    + rewrite Nat.sub_diag in Hv. injection Hv as ->. by left.
    + right. split; [lia|]. by replace (i - n)%nat with (S (i - S n)) in Hv by lia.
Qed.

Section put_values.
Context {X Y : Type} (id : nat -> string) (tag : X -> Y).

Lemma put_values_inv values m k y :
  put_values id tag values m !! k = Some y ->
  m !! k = Some y \/ exists i v, values !! i = Some v /\ k = id i /\ y = tag v.
Proof.
  unfold put_values.
  assert (H : forall i v, (i, v) ∈ combine (seq 0 (length values)) values -> values !! i = Some v).
  { intros i v Hi. apply combine_seq_lookup in Hi as [_ Hi]. by rewrite Nat.sub_0_r in Hi. }
  revert m H. generalize (combine (seq 0 (length values)) values). intros ps.
  induction ps as [|[i v] ps IH]; intros m H; cbn [fold_left]; [auto|].
  intros Hk. apply IH in Hk as [Hk|Hk]; [|auto|intros; apply H; by right].
  apply lookup_insert_Some in Hk as [[<- <-]|[_ Hk]]; [|auto].
  right. exists i, v. split; [|done]. apply H. left.
Qed.
End put_values.

Section extract_facts.
Context {V S : Type} {VS : Values V S} {PR : Projected V S}.
Context (request : CandidateRequest V S).

Notation sources := (cr_sources V S request).
Notation artifacts := (cr_artifacts V S request).
Notation entries := (cr_currentEntries V S request).

Lemma evidence_map_inv k y :
  evidence_map request !! k = Some y ->
  match y with inl v => v ∈ sources | inr s => s ∈ artifacts end.
Proof.
  unfold evidence_map. intros H.
  apply put_values_inv in H as [H|(i & v & Hv & _ & ->)]; [|by eapply list_elem_of_lookup_2].
  apply put_values_inv in H as [H|(i & v & Hv & _ & ->)]; [|by eapply list_elem_of_lookup_2].
  by rewrite lookup_empty in H.
Qed.

(** What a loop over cited identifiers selects. *)
Record selection_inv (evidence : gmap string (V + S)) (done : list string) (st : Selection (V := V) (S := S)) : Prop := {
  si_seen : forall id, id ∈ se_seen st <-> id ∈ done;
  si_known : forall id, id ∈ done -> is_Some (evidence !! id);
  si_sources : forall v, v ∈ se_sources st <-> exists id, id ∈ done /\ evidence !! id = Some (inl v);
  si_artifacts : forall s, s ∈ se_artifacts st <-> exists id, id ∈ done /\ evidence !! id = Some (inr s)
}.

Lemma select_one_inv evidence done st id st' :
  selection_inv evidence done st -> select_one evidence st id = Ok st' ->
  selection_inv evidence (done ++ [id]) st'.
Proof.
  intros [H1 H2 H3 H4] H. unfold select_one in H.
  assert (Hd : forall k, k ∈ done ++ [id] <-> k ∈ done \/ k = id).
  { intros k. by rewrite elem_of_app, list_elem_of_singleton. }
  case_bool_decide as Hseen.
  - ok_inv. subst st'. apply H1 in Hseen. split.
    + intros k. rewrite Hd, H1. split; [auto|]. by intros [| ->].
    + intros k [Hk| ->]%Hd; auto.
    + intros v. rewrite H3. split; intros (k & Hk & E); exists k; (split; [|done]); rewrite ?Hd in *; [auto|].
      by destruct Hk as [| ->].
    + intros v. rewrite H4. split; intros (k & Hk & E); exists k; (split; [|done]); rewrite ?Hd in *; [auto|].
      by destruct Hk as [| ->].
  - destruct (evidence !! id) as [[v|s]|] eqn:E; [| |discriminate]; ok_inv; subst st'; split; cbn.
    1, 5: intros k; rewrite elem_of_union, elem_of_singleton, Hd, H1; tauto.
    1, 4: intros k [Hk| ->]%Hd; [auto|by rewrite E].
    all: intros w; rewrite ?elem_of_app, ?list_elem_of_singleton, ?H3, ?H4; setoid_rewrite Hd.
    + split; [intros [(k & Hk & Ek)| ->]; eauto|]. intros (k & [Hk| ->] & Ek); [eauto|]. right. congruence.
    + split; [intros (k & Hk & Ek); eauto|]. intros (k & [Hk| ->] & Ek); [eauto|congruence].
    + split; [intros (k & Hk & Ek); eauto|]. intros (k & [Hk| ->] & Ek); [eauto|congruence].
    + split; [intros [(k & Hk & Ek)| ->]; eauto|]. intros (k & [Hk| ->] & Ek); [eauto|]. right. congruence.
Qed.

Lemma select_loop_inv evidence done st more st' :
  selection_inv evidence done st -> fold_res (select_one evidence) st more = Ok st' ->
  selection_inv evidence (done ++ more) st'.
Proof.
  revert done st. induction more as [|id more IH]; intros done st Hi H; cbn in H.
  - ok_inv. subst. by rewrite app_nil_r.
  - apply bind_ok_inv in H as (st1 & H1 & H). eapply select_one_inv in H1; [|done].
    rewrite cons_middle, app_assoc. by eapply IH.
Qed.

(** The evidence of a proposal is exactly what its identifiers name. *)
Lemma selected_evidence_spec proposal evidence srcs arts :
  selectedExtractionEvidence proposal evidence = Ok (srcs, arts) ->
  cd_evidenceIDs proposal <> [] /\ selection_inv evidence (cd_evidenceIDs proposal) (MkSelection srcs arts (list_to_set (cd_evidenceIDs proposal))).
Proof.
  unfold selectedExtractionEvidence. destruct (cd_evidenceIDs proposal) as [|id ids] eqn:E; [done|].
  intros H. split; [done|]. apply bind_ok_inv in H as (st & Hst & H).
  assert (H0 : selection_inv evidence [] (MkSelection [] [] ∅)).
  { split; cbn; try set_solver; intros ?; split; try (by intros (? & ?%not_elem_of_nil & _)); by intros ?%not_elem_of_nil. }
  eapply select_loop_inv in Hst; [|exact H0]. cbn in H. injection H as <- <-.
  destruct Hst as [H1 H2 H3 H4]. split; cbn in *; try done. intros k.
  by rewrite elem_of_union, elem_of_singleton, elem_of_list_to_set, elem_of_cons.
Qed.

(** The targets of the inputs made so far. *)
Definition targets (inputs : list (EntryInput V S)) : list string :=
  omap (fun c => ev_EntryID <$> in_entry c) inputs.

(** An input that its proposal and the request justify. *)
Record grounded (proposal : ExtractionCandidate) (c : EntryInput V S) : Prop := {
  gr_text : in_kind c = cd_kind proposal /\ in_text c = cd_text proposal /\ in_reason c = cd_reason proposal;
  gr_sources : forall v, v ∈ in_sources c ->
    v ∈ sources /\ exists id, id ∈ cd_evidenceIDs proposal /\ evidence_map request !! id = Some (inl v);
  gr_artifacts : forall s, s ∈ in_artifacts c ->
    s ∈ artifacts /\ exists id, id ∈ cd_evidenceIDs proposal /\ evidence_map request !! id = Some (inr s);
  gr_cited : in_sources c <> [] \/ in_artifacts c <> [];
  gr_target : match in_entry c with
              | None => cd_intent proposal = ExtractionAdd
              | Some e => cd_intent proposal = ExtractionRevise /\
                          cd_entryID proposal = Some (ev_EntryID e) /\ e ∈ entries
              end
}.

Lemma extract_one_grounded inputs revised proposal inputs' revised' :
  extract_one (evidence_map request) (entryMap entries) (inputs, revised) proposal = Ok (inputs', revised') ->
  exists c, inputs' = inputs ++ [c] /\ grounded proposal c /\
    match in_entry c with
    | None => revised' = revised
    | Some e => ev_EntryID e ∉ revised /\ revised' = {[ev_EntryID e]} ∪ revised
    end.
Proof.
  unfold extract_one. intros H. apply bind_ok_inv in H as ([srcs arts] & Hs & H).
  apply bind_ok_inv in H as ([entry rev'] & Ht & H). cbn in Ht, H. injection H as <- <-.
  apply selected_evidence_spec in Hs as [Hne [_ H2 H3 H4]]. cbn in H3, H4.
  eexists. split; [done|]. cbn.
  assert (Hc : srcs <> [] \/ arts <> []).
  { destruct (cd_evidenceIDs proposal) as [|id ids]; [done|].
    destruct (H2 id) as [[v|s] Hv]; [left| |].
    - left. assert (v ∈ srcs) by (apply H3; exists id; split; [left|done]). by destruct srcs; [set_solver|].
    - right. assert (s ∈ arts) by (apply H4; exists id; split; [left|done]). by destruct arts; [set_solver|]. }
  unfold extractionRevisionTarget in Ht.
  destruct (cd_intent proposal) eqn:Ei; [| |discriminate]; destruct (cd_entryID proposal) as [id|] eqn:Ee;
    try discriminate.
  - injection Ht as <- <-. split; [|done]. split; cbn; try done.
    + intros v Hv%H3. split; [|done]. destruct Hv as (k & _ & Hk). by apply evidence_map_inv in Hk.
    + intros v Hv%H4. split; [|done]. destruct Hv as (k & _ & Hk). by apply evidence_map_inv in Hk.
  - destruct (entryMap entries !! id) as [e|] eqn:Em; [|discriminate].
    apply entryMap_elem in Em as [Hin <-]. bind_inv Ht. injection Ht as <- <-. ok_inv. boolify.
    split; [|done]. split; cbn; try done.
    + intros v Hv%H3. split; [|done]. destruct Hv as (k & _ & Hk). by apply evidence_map_inv in Hk.
    + intros v Hv%H4. split; [|done]. destruct Hv as (k & _ & Hk). by apply evidence_map_inv in Hk.
Qed.

Lemma extract_loop_grounded proposals done inputs revised inputs' revised' :
  Forall2 grounded done inputs -> NoDup (targets inputs) -> (forall id, id ∈ revised <-> id ∈ targets inputs) ->
  fold_res (extract_one (evidence_map request) (entryMap entries)) (inputs, revised) proposals = Ok (inputs', revised') ->
  Forall2 grounded (done ++ proposals) inputs' /\ NoDup (targets inputs').
Proof.
  revert done inputs revised. induction proposals as [|p ps IH]; intros done inputs revised Hg Hn Hr H; cbn in H.
  { injection H as <- <-. by rewrite app_nil_r. }
  apply bind_ok_inv in H as ([inputs1 revised1] & H1 & H).
  apply extract_one_grounded in H1 as (c & -> & Hc & Ht).
  assert (Et : targets (inputs ++ [c]) = targets inputs ++ match in_entry c with Some e => [ev_EntryID e] | None => [] end).
  { unfold targets. rewrite omap_app. cbn. by destruct (in_entry c). }
  rewrite cons_middle, app_assoc. eapply IH; [| | |exact H].
  - apply Forall2_app; [done|]. by constructor.
  - rewrite Et. destruct (in_entry c) as [e|]; [|by rewrite app_nil_r].
    apply NoDup_app. split; [done|]. split; [|apply NoDup_singleton].
    intros k Hk ->%list_elem_of_singleton. apply Hr in Hk. by destruct Ht.
  - intros id. rewrite Et, elem_of_app, <- Hr.
    destruct (in_entry c) as [e|]; [destruct Ht as [_ ->]|subst revised1].
    + rewrite elem_of_union, elem_of_singleton, list_elem_of_singleton. tauto.
    + rewrite elem_of_nil. tauto.
Qed.

Lemma extract_facts projector generate inputs :
  Extract projector generate request = Ok inputs ->
  exists input g, extractionInput projector request = Ok (input, evidence_map request) /\
    generate input = Ok g /\ Forall2 grounded (g_Output g) inputs /\ NoDup (targets inputs).
Proof.
  unfold Extract. intros H. apply bind_ok_inv in H as ([input evidence] & Hi & H).
  apply bind_ok_inv in H as (g & Hg & H). apply bind_ok_inv in H as ([inputs' revised] & Hf & H).
  injection H as <-.
  assert (evidence = evidence_map request) as ->.
  { unfold extractionInput in Hi. bind_inv Hi. by injection Hi as _ <-. }
  exists input, g. split; [done|]. split; [done|].
  eapply (extract_loop_grounded _ []); [constructor|constructor| |exact Hf].
  intros id. cbn. split; [set_solver|by intros ?%not_elem_of_nil].
Qed.
End extract_facts.

(** ** Extraction feeding the planner

    The inputs of an extraction name distinct active entries of the base; the
    planner, which changes the entries of its state as it goes, finds each of them
    as it was. *)
Section planning.
Context {T : Text} {A : Analysis} {V S : Type} {VS : Values V S}.
Context {DB : Type} {B : Backend DB} {I : Type} (svc : Service V S I).

Lemma validatedEntries_same_version db value entries v w :
  validatedEntries db value = Ok entries -> v ∈ entries -> w ∈ entries ->
  ev_EntryVersionID v = ev_EntryVersionID w -> v = w.
Proof.
  unfold validatedEntries. intros H. bind_inv H. apply map_res_Forall2 in H.
  assert (Hv : forall v, v ∈ entries -> a0 !! ev_EntryVersionID v = Some v).
  { intros x (i & Hi)%list_elem_of_lookup. destruct (Forall2_lookup_r _ _ _ _ _ H Hi) as (e & _ & E).
    unfold validated_entry in E. destruct (a0 !! entryVersionID e) as [y|] eqn:Ey; [|done].
    bind_inv E. ok_inv. subst y. destruct (index_versions_ok _ _ _ _ Ha0 Ey) as [-> _]. done. }
  intros Hx%Hv Hy%Hv E. rewrite E in Hx. congruence.
Qed.

(** The entries that the model is shown are active in the manifest. *)
Lemma active_entry_item db base entries e :
  Forall valid_entry (manifest (a_content base)) -> NoDup (map entryID (manifest (a_content base))) ->
  validatedEntries db base = Ok entries -> e ∈ active_entries (Some base) entries ->
  entryMap entries !! ev_EntryID e = Some e /\
  exists item, manifestMap (manifest (a_content base)) !! ev_EntryID e = Some item /\
    state item = Active /\ valid_entry item /\ entryID item = ev_EntryID e.
Proof.
  intros Hval Hnd Hent He. pose proof (validatedEntries_versions _ _ _ Hent) as HV.
  unfold active_entries in He. apply list_elem_of_In, filter_In in He as [Hin Hact].
  rewrite <- list_elem_of_In in Hin. apply bool_decide_eq_true in Hact.
  apply list_elem_of_fmap in Hact as (item & Ei & Hitem).
  apply list_elem_of_In, filter_In in Hitem as [Hitem Hst]. rewrite <- list_elem_of_In in Hitem.
  apply bool_decide_eq_true in Hst.
  pose proof Hitem as (i & Hi)%list_elem_of_lookup.
  destruct (Forall2_lookup_l _ _ _ _ _ HV Hi) as (w & Hw & Ew1 & Ew2).
  assert (w = e) as ->.
  { eapply validatedEntries_same_version; [done|by eapply list_elem_of_lookup_2|done|congruence]. }
  pose proof (manifestMap_lookup _ _ Hnd Hitem) as Hm. rewrite <- Ew1 in Hm.
  split.
  - destruct (versions_of_maps _ _ _ _ HV Hm) as (x & Hx & Ex). rewrite Hx.
    apply entryMap_elem in Hx as [Hx _]. f_equal.
    eapply validatedEntries_same_version; [done|done|done|congruence].
  - exists item. rewrite Forall_forall in Hval. auto.
Qed.

(** The planner's state has not touched the entries that are not yet targeted. *)
Record untouched (items : gmap string ManifestEntry) (current : gmap string EntryVersion)
    (done : list (EntryInput V S)) (st : @PlanState I) : Prop := {
  un_targeted : forall id, id ∈ ps_targeted st -> id ∈ targets done;
  un_present : forall id, is_Some (items !! id) -> is_Some (ps_manifest st !! id);
  un_items : forall id, is_Some (items !! id) -> id ∉ targets done -> ps_manifest st !! id = items !! id;
  un_current : forall id, is_Some (items !! id) -> id ∉ targets done -> ps_current st !! id = current !! id
}.

Lemma targets_snoc (done : list (EntryInput V S)) c :
  targets (done ++ [c]) = targets done ++ match in_entry c with Some e => [ev_EntryID e] | None => [] end.
Proof. unfold targets. rewrite omap_app. cbn. by destruct (in_entry c). Qed.

Lemma plan_candidate_untouched memoryID rev items current evidence done st c st' :
  untouched items current done st -> plan_candidate svc memoryID rev evidence st c = Ok st' ->
  untouched items current (done ++ [c]) st'.
Proof.
  intros [U1 U2 U3 U4] H. unfold plan_candidate in H. pose proof (targets_snoc done c) as Et.
  destruct (in_entry c) as [requested|] eqn:Ec.
  - assert (Ht : forall id, id ∈ targets (done ++ [c]) <-> id ∈ targets done \/ id = ev_EntryID requested)
      by (intros id; by rewrite Et, elem_of_app, list_elem_of_singleton).
    unfold revise_candidate in H. bind_inv H. destruct a as [[id previous] targeted].
    assert (id = ev_EntryID requested /\ targeted = {[id]} ∪ ps_targeted st) as [-> ->].
    { unfold claimRevisionTarget in Ha. rewrite Ec in Ha. bind_inv Ha. destruct (_ !! a) eqn:El; [|done].
      bind_inv Ha. injection Ha as <- <- <-. apply ValidateIdentifier_ok in Ha0 as [-> _]. done. }
    bind_inv H. ok_inv. destruct (String.eqb _ _ && _).
    + ok_inv. subst st'. split; cbn.
      * intros id. rewrite elem_of_union, elem_of_singleton, Ht. intros [->|Hid]; auto.
      * done.
      * intros id Hid Hnot. apply U3; [done|]. rewrite Ht in Hnot. tauto.
      * intros id Hid Hnot. apply U4; [done|]. rewrite Ht in Hnot. tauto.
    + bind_inv H. destruct a3 as [v ids]. bind_inv H. ok_inv. subst st'. split; cbn.
      * intros id. rewrite elem_of_union, elem_of_singleton, Ht. intros [->|Hid]; auto.
      * intros id Hid. apply lookup_insert_is_Some'. auto.
      * intros id Hid Hnot. rewrite Ht in Hnot. rewrite lookup_insert_ne by (intros <-; tauto). apply U3; tauto.
      * intros id Hid Hnot. rewrite Ht in Hnot. rewrite lookup_insert_ne by (intros <-; tauto). apply U4; tauto.
  - rewrite app_nil_r in Et. rewrite <- Et in *.
    unfold add_candidate in H. bind_inv H. destruct (bool_decide _); [ok_inv; subst st'; by split|].
    bind_inv H. destruct a0 as [id ids]. bind_inv H. destruct a1 as [v ids']. bind_inv H. ok_inv. subst st'.
    boolify. split; cbn; [done| | |].
    + intros k Hk. apply lookup_insert_is_Some'. auto.
    + intros k Hk Hnot. rewrite lookup_insert_ne; [by apply U3|]. intros ->. by apply Ha1, U2.
    + intros k Hk Hnot. rewrite lookup_insert_ne; [by apply U4|]. intros ->. by apply Ha1, U2.
Qed.
End planning.
