(* ===== verification/MemoryProps.v ===== *)
(** * Properties of the Memory service: planned revisions, state changes,
    deduplication, and writers that race *)

From stdpp Require Import sorting.
From S2P Require Import Prelude.
From S2P Require Import GoStrings.
From S2P Require Import GoTime.
From S2P Require Import Refs.
From S2P Require Import Json.
From S2P Require Import Sha256.
From S2P Require Import MemoryModel.
From S2P Require Import MemoryService.
From S2P Require Import MemoryServiceFacts.
From S2P Require Import PlanFacts.
From S2P Require Import MemoryStore.

(** ** Planned revisions *)

(** What a planned revision of [base] is. *)
Record next_revision `{Text} (base : option Memory) (c : Commit) : Prop := {
  nr_base : cm_base c = base;
  nr_ref : match base with
    | Some b => a_ref (cm_memory c) = MkRef Family (artifactID (a_ref b)) (wrap64 (revision (a_ref b) + 1))
    | None => exists id, valid_identifier id /\ a_ref (cm_memory c) = MkRef Family id 1
    end;
  nr_positive : 1 <= revision (a_ref (cm_memory c));
  nr_canonical : canonical_manifest (manifest (a_content (cm_memory c)));
  nr_valid : Forall valid_entry (manifest (a_content (cm_memory c)));
  (** no entry is lost, and only the entries that a change names differ *)
  nr_grows : forall e, e ∈ base_manifest base -> entryID e ∈ map entryID (manifest (a_content (cm_memory c)));
  nr_frame : forall e, e ∈ manifest (a_content (cm_memory c)) ->
    entryID e ∉ map c_entryID (changes (a_content (cm_memory c))) -> e ∈ base_manifest base;
  nr_changes : changes (a_content (cm_memory c)) <> [] /\ Sorted change_le (changes (a_content (cm_memory c)));
  nr_changed : forall ch, ch ∈ changes (a_content (cm_memory c)) ->
    exists e, e ∈ manifest (a_content (cm_memory c)) /\ entryID e = c_entryID ch /\ state e = Active;
  nr_versions : forall v, v ∈ cm_entryVersions c ->
    ev_MemoryArtifactID v = artifactID (a_ref (cm_memory c)) /\
    ev_CreatedInRevision v = revision (a_ref (cm_memory c));
  nr_projections : map (fun p => ev_EntryVersionID (pr_entryVersion p)) (cm_projections c)
    = map entryVersionID (List.filter is_active (manifest (a_content (cm_memory c))));
  nr_hash : ContentHash (a_content (cm_memory c)) = Ok (cm_contentHash c)
}.

Section plans.
Context {T : Text} {A : Analysis} {V S : Type} {VS : Values V S}.
Context {DB : Type} {B : Backend DB} {I : Type} (svc : Service V S I).

Lemma commits_next_revision base id rev (st : @PlanState I) c :
  match base with
  | Some b => id = artifactID (a_ref b) /\ rev = wrap64 (revision (a_ref b) + 1)
  | None => valid_identifier id /\ rev = 1
  end ->
  plan_inv id rev (manifestMap (base_manifest base)) st -> ps_changes st <> [] ->
  canonical_manifest (base_manifest base) ->
  commits base id rev (ps_manifest st) (ps_changes st) (ps_newVersions st) c -> next_revision base c.
Proof.
  intros Hid [P1 P2 P3 P4 P5 P6 P7] Hne Hl [C1 C2 C3 C4 C5 C6 C7 C8].
  split; rewrite ?C4, ?C5, ?C2, ?C7; cbn; try done.
  - destruct base as [b|]; [by destruct Hid as [-> ->]|]. destruct Hid as [Hv ->]. by exists id.
  - by apply sortedManifest_canonical.
  - apply Forall_forall. intros e He%elem_of_sortedManifest; [|done]. by eapply P2.
  - intros e He. destruct (P6 (entryID e)) as [e' He'].
    { exists e. apply manifestMap_lookup; [apply Hl|done]. }
    apply list_elem_of_fmap. exists e'. pose proof (P1 _ _ He') as E. split; [done|].
    apply elem_of_sortedManifest; [done|]. by rewrite E.
  - intros e He Hn. apply elem_of_sortedManifest in He; [|done]. rewrite sortedChanges_perm in Hn.
    rewrite (P5 _ Hn) in He. by eapply manifestMap_elem.
  - split; [|apply sortedChanges_sorted]. intros E. apply Hne.
    apply Permutation_nil_r. rewrite <- E. symmetry. apply sortedChanges_perm.
  - intros ch. rewrite sortedChanges_perm. intros (e & He & Hs)%P4. pose proof (P1 _ _ He) as E.
    exists e. split; [|done]. apply elem_of_sortedManifest; [done|]. by rewrite E.
Qed.

Lemma plan_remember_facts db base sources artifacts entries mode ids plan ids' c :
  Forall valid_entry (base_manifest base) -> canonical_manifest (base_manifest base) ->
  PlanRemember svc db base sources artifacts entries mode ids = Ok (plan, ids') ->
  wp_commit plan = Some c ->
  wp_result plan = Some (cm_memory c) /\ next_revision base c /\
  forall b, base = Some b -> b_Latest db (artifactID (a_ref b)) = Ok b.
Proof.
  intros HF Hl H Hc. unfold PlanRemember in H.
  apply bind_ok_inv in H as (m & _ & H). apply bind_ok_inv in H as (base' & Hb & H).
  apply bind_ok_inv in H as (ev & _ & H). apply bind_ok_inv in H as (cur & Hcur & H).
  apply bind_ok_inv in H as (inputs & _ & H).
  assert (E : base' = base /\ forall b, base = Some b -> b_Latest db (artifactID (a_ref b)) = Ok b).
  { destruct base as [b|]; cbn in Hb; [|by injection Hb as <-].
    apply bind_ok_inv in Hb as (x & Hx & Hb). injection Hb as <-.
    apply canonical_head_ok in Hx as (-> & _ & Hx). split; [done|]. by intros ? [= <-]. }
  destruct E as [-> Hlat].
  destruct inputs as [|i inputs]; [injection H as <- <-; done|].
  apply bind_ok_inv in H as ([c' ids2] & Hp & H).
  destruct c' as [c'|]; injection H as <- <-; [|done]. cbn in Hc. injection Hc as ->.
  assert (HV : versions_of (base_manifest base) cur).
  { destruct base as [b|]; [by eapply validatedEntries_versions|]. injection Hcur as <-. constructor. }
  apply prepareCommit_commits in Hp as (id & rev & st & Hid & HI & Hne & HC); [|done..].
  split; [done|]. split; [|done]. by eapply commits_next_revision.
Qed.

(** C30: when a call to remember changes something, it plans the successor of its
    base: the revision after it, with a canonical manifest of valid entries that
    loses none and differs from the base only where a change says so, one
    projection for each active entry, and the hash of its content. *)
Theorem plan_remember_next db base sources artifacts entries mode ids plan ids' c :
  Forall valid_entry (base_manifest base) -> canonical_manifest (base_manifest base) ->
  PlanRemember svc db base sources artifacts entries mode ids = Ok (plan, ids') ->
  wp_commit plan = Some c ->
  wp_result plan = Some (cm_memory c) /\ next_revision base c /\
  forall b, base = Some b -> b_Latest db (artifactID (a_ref b)) = Ok b.
Proof. apply plan_remember_facts. Qed.
End plans.

(** ** Changing states *)

Section changes.
Context {T : Text} {TL : TextLaws} {A : Analysis} {V S : Type} {VS : Values V S}.
Context {DB : Type} {B : Backend DB} {L : BackendLaws DB} {I : Type} (svc : Service V S I).

(** A well-formed stored Memory. *)
Definition well_kept (value : Memory) : Prop :=
  Forall valid_entry (manifest (a_content value)) /\ canonical_manifest (manifest (a_content value)).

(** Forgetting deactivates exactly the requested entries, all of which the
    Memory knows, and changes nothing else: either all were inactive and nothing is
    stored, or the successor becomes the head, with one change for each entry that
    was active, and the earlier revisions stay readable. *)
Theorem forget_exact db value entries why db' m :
  well_kept value -> identities_apart entries ->
  Forget svc db value entries why = (db', Ok m) ->
  let items := map (retarget (map ev_EntryID entries) Inactive) (manifest (a_content value)) in
  manifest (a_content m) = items /\
  (forall v, v ∈ entries -> ev_EntryID v ∈ map entryID (manifest (a_content value))) /\
  (db' = db /\ m = value \/
   successor db db' value m items /\ NoDup (map c_entryID (changes (a_content m)))).
Proof. intros [Hv Hl] Hap H. eapply setEntryState_ok; eauto. by right. Qed.

Lemma retarget_well_kept ids target l :
  proper_target target -> Forall valid_entry l -> Forall valid_entry (map (retarget ids target) l).
Proof. intros Ht H. apply Forall_map. eapply Forall_impl; [exact H|]. intros e. by apply retarget_valid. Qed.

(** reactivating the forgotten entries restores the manifest, two revisions
    later. *)
Theorem forget_reactivate_restores db value entries why db1 m1 entries' why' db2 m2 :
  well_kept value -> identities_apart entries -> identities_apart entries' ->
  (forall k, k ∈ map ev_EntryID entries' <-> k ∈ map ev_EntryID entries) ->
  (forall e, e ∈ manifest (a_content value) -> entryID e ∈ map ev_EntryID entries -> state e = Active) ->
  Forget svc db value entries why = (db1, Ok m1) ->
  Reactivate_ svc db1 m1 entries' why' = (db2, Ok m2) ->
  manifest (a_content m2) = manifest (a_content value).
Proof.
  intros [Hv Hl] Ha Ha' Hids Hact H1 H2.
  apply setEntryState_ok in H1 as [E1 _]; [|by right|done..].
  apply setEntryState_ok in H2 as [E2 _]; [|by left|..|done].
  - rewrite E2, E1, map_map. transitivity (map id (manifest (a_content value))); [|by rewrite map_id].
    apply map_ext_in. intros e He%list_elem_of_In. unfold retarget at 1. rewrite entryID_retarget.
    unfold retarget, id. destruct (decide (entryID e ∈ map ev_EntryID entries)) as [Hin|Hin].
    + rewrite !bool_decide_eq_true_2; [|done|by apply Hids]. specialize (Hact _ He Hin). destruct e. cbn in *.
      by subst.
    + rewrite !bool_decide_eq_false_2; [done|done|by rewrite Hids].
  - rewrite E1. apply retarget_well_kept; [by right|done].
  - rewrite E1. by apply retarget_canonical.
Qed.

(** ** Writers that race *)

Lemma wrap64_succ r : wrap64 (r + 1) <> r.
Proof.
  unfold wrap64, two63, two64. intros E.
  assert (H : (r + 1 + 9223372036854775808) mod 18446744073709551616 = r + 9223372036854775808) by lia.
  Z.to_euclidean_division_equations. lia.
Qed.

(** The store has another revision, or none, as the head. *)
Definition stale (db : DB) (b : Memory) : Prop :=
  forall current, b_Latest db (artifactID (a_ref b)) = Ok current -> a_ref current <> a_ref b.

Lemma canonical_head_stale db b :
  stale db b -> exists e, canonical_head db b = Err e.
Proof.
  intros H. destruct (canonical_head db b) as [x|e] eqn:E; [|by exists e].
  apply canonical_head_ok in E as (_ & _ & E). by apply H in E.
Qed.

(** No operation writes a Memory that is not the head of the store. *)
Definition refused (db : DB) (b : Memory) : Prop :=
  (forall sources artifacts entries mode ids,
     exists e, Remember svc db (Some b) sources artifacts entries mode ids = (db, Err e)) /\
  (forall entries why, exists e, Forget svc db b entries why = (db, Err e)) /\
  (forall entries why, exists e, Reactivate_ svc db b entries why = (db, Err e)) /\
  (forall mode ids, exists e, Organize svc db b mode ids = (db, Err e)) /\
  (forall plan c, wp_commit plan = Some c -> cm_base c = Some b -> exists e, Apply db plan = (db, Err e)).

Lemma stale_refused db b : stale db b -> refused db b.
Proof.
  intros Hs. destruct (canonical_head_stale _ _ Hs) as [e He]. split; [|split; [|split; [|split]]].
  - intros sources artifacts entries mode ids. unfold Remember, PlanRemember. cbn.
    destruct (selectRememberMode _ _ _) as [m|e']; cbn; [|by exists e']. rewrite He. by exists e.
  - intros entries why. unfold Forget, setEntryState, plan_states, transition_base. rewrite He. by exists e.
  - intros entries why. unfold Reactivate_, setEntryState, plan_states, transition_base. rewrite He. by exists e.
  - intros mode ids. unfold Organize, plan_organize, transition_base. destruct (check _ _) as [u|e']; cbn; [|by exists e'].
    rewrite He. by exists e.
  - intros plan c Hc Hb. unfold Apply. rewrite Hc. destruct (b_Commit db c) as [[m db']|e'] eqn:E; [|by exists e'].
    exfalso. destruct (commit_cas _ _ _ _ _ E Hb) as (current & Hl & Hr). by apply Hs in Hl.
Qed.

(** Of two plans made from one base, the second to be applied is refused, and
    so is any other operation on the old base: no update is lost. *)
Theorem no_lost_update db b sources artifacts entries mode ids plan ids' c db1 r :
  well_kept b -> PlanRemember svc db (Some b) sources artifacts entries mode ids = Ok (plan, ids') ->
  wp_commit plan = Some c -> Apply db plan = (db1, Ok r) ->
  r = Some (cm_memory c) /\ b_Latest db1 (artifactID (a_ref b)) = Ok (cm_memory c) /\ refused db1 b.
Proof.
  intros [Hv Hl] Hp Hc Ha. destruct (plan_remember_facts svc db (Some b) _ _ _ _ _ _ _ _ Hv Hl Hp Hc) as (Hr & HN & _).
  unfold Apply in Ha. rewrite Hc in Ha. destruct (b_Commit db c) as [[m db']|] eqn:E; [|done].
  apply commit_stores in E as (-> & _ & Hlat). rewrite Hr, bool_decide_eq_true_2 in Ha by done.
  injection Ha as <- <-. pose proof (nr_ref _ _ HN) as Eref. cbn in Eref. rewrite Eref in Hlat.
  split; [done|]. split; [done|]. apply stale_refused. intros current. cbn in Hlat. rewrite Hlat. intros [= <-] E.
  rewrite E in Eref. destruct (a_ref b) as [f i rev]. cbn in Eref. injection Eref as _ Erev.
  by apply (wrap64_succ rev).
Qed.

End changes.

(** ** Organizing *)

Section organizing.
Context {T : Text} {TL : TextLaws} {A : Analysis} {V S : Type} {VS : Values V S}.
Context {DB : Type} {B : Backend DB} {L : BackendLaws DB} {I : Type} (svc : Service V S I).

(** Entry by entry: the dropped ones become inactive. *)
Definition organized_by (dropped : list string) (e e' : ManifestEntry) : Prop :=
  same_content (retarget dropped Inactive e) e'.

Lemma organize_pointwise db value mode ids db' m :
  well_kept value -> Organize svc db value mode ids = (db', Ok m) ->
  exists entries dropped, validatedEntries db value = Ok entries /\
    (mode = OrganizeNormalize \/
     (forall k, k ∈ dropped <-> superseded (manifestMap (manifest (a_content value))) (entryMap entries) k) /\
     forall e, e ∈ manifest (a_content value) -> state e = Active ->
       is_Some (content_of (entryMap entries) (entryID e))) /\
    Forall2 (organized_by dropped) (manifest (a_content value)) (manifest (a_content m)).
Proof.
  intros [Hv Hl] H. unfold Organize in H.
  destruct (plan_organize _ _ _ _ _) as [[[base dd] nz]|] eqn:E; [|done].
  apply plan_organize_spec in E as (-> & entries & dropped & He & [D1 D2 D3] & Hd & Hn & _); [|done..].
  exists entries, dropped. split; [done|]. split; [done|].
  destruct (dd_changes dd ++ nz_changes nz) as [|ch chs] eqn:Ec.
  - injection H as <- <-. apply app_eq_nil in Ec as [E1 _]. rewrite E1 in D2. cbn in D2. subst dropped.
    apply Forall_Forall2_diag, Forall_forall. intros e _. unfold organized_by, retarget.
    rewrite bool_decide_eq_false_2 by apply not_elem_of_nil. by repeat split.
  - apply commitExistingTransition_ok in H as [[_ Hm _ _ _] _]. rewrite Hm.
    apply sorted_pointwise; [done| |].
    + intros e e' (E & _). by rewrite E, entryID_retarget.
    + intros k. specialize (Hn k). rewrite D1 in Hn. destruct (manifestMap _ !! k); inversion Hn; subst; by constructor.
Qed.

(** in any mode organizing keeps every entry with its content hash, reactivates
    nothing, and keeps their order. *)
Theorem organize_keeps_content db value mode ids db' m :
  well_kept value -> Organize svc db value mode ids = (db', Ok m) ->
  Forall2 organized (manifest (a_content value)) (manifest (a_content m)).
Proof.
  intros Hk H. destruct (organize_pointwise _ _ _ _ _ _ Hk H) as (entries & dropped & _ & _ & HF).
  destruct Hk as [Hv _]. rewrite Forall_forall in Hv.
  eapply Forall2_in; [exact HF|]. intros e e' He _ (E1 & E2 & E3).
  rewrite entryID_retarget in E1. rewrite retarget_hash in E2. split; [done|]. split; [done|].
  revert E3. unfold retarget. case_bool_decide; cbn; [|auto]. intros ->.
  destruct (Hv _ He) as (_ & _ & _ & [-> | ->]); auto.
Qed.

Lemma exists_least (l : Manifest) e : e ∈ l -> exists e0, e0 ∈ l /\ forall x, x ∈ l -> str_le (entryID e0) (entryID x).
Proof.
  revert e. induction l as [|a l IH]; intros e He; [by apply not_elem_of_nil in He|].
  destruct l as [|b l].
  { exists a. split; [left|]. intros x ->%list_elem_of_singleton. apply (reflexivity (R := str_le)). }
  destruct (IH b) as (e0 & H0 & Hmin); [left|]. destruct (total str_le (entryID a) (entryID e0)) as [Hle|Hle].
  - exists a. split; [left|]. intros x [->|Hx]%elem_of_cons; [apply (reflexivity (R := str_le))|].
    etrans; [exact Hle|by apply Hmin].
  - exists e0. split; [by right|]. intros x [->|Hx]%elem_of_cons; [done|by apply Hmin].
Qed.

(** Deduplication leaves active exactly one entry of each content, the one with
    the smallest identifier: active entries have different contents, and every
    content that was active still is. *)
Theorem organize_dedupes db value mode ids db' m :
  well_kept value -> mode <> OrganizeNormalize ->
  Organize svc db value mode ids = (db', Ok m) ->
  exists entries, validatedEntries db value = Ok entries /\
    let content := content_of (entryMap entries) in
    (forall e1 e2, e1 ∈ manifest (a_content m) -> e2 ∈ manifest (a_content m) ->
       state e1 = Active -> state e2 = Active -> content (entryID e1) = content (entryID e2) ->
       entryID e1 = entryID e2) /\
    (forall e, e ∈ manifest (a_content value) -> state e = Active ->
       exists e', e' ∈ manifest (a_content m) /\ state e' = Active /\
         content (entryID e') = content (entryID e) /\ str_le (entryID e') (entryID e)).
Proof.
  intros Hk Hm H. destruct (organize_pointwise _ _ _ _ _ _ Hk H) as (entries & dropped & He & Hd & HF).
  destruct Hd as [Hd|[Hd Hc]]; [done|]. destruct Hk as [Hv Hl]. set (items := manifest (a_content value)) in *.
  exists entries. split; [done|]. cbv zeta.
  assert (Hback : forall e', e' ∈ manifest (a_content m) -> state e' = Active ->
    exists e, e ∈ items /\ entryID e = entryID e' /\ state e = Active /\ entryID e ∉ dropped).
  { intros e' He' Hs. apply list_elem_of_lookup in He' as [i Hi].
    destruct (Forall2_lookup_r _ _ _ _ _ HF Hi) as (e & Hei & (E1 & _ & E3)).
    apply list_elem_of_lookup_2 in Hei. exists e. rewrite entryID_retarget in E1. split; [done|]. split; [done|].
    rewrite E3 in Hs. revert Hs. unfold retarget. case_bool_decide; done. }
  assert (Hlook : forall e, e ∈ items -> manifestMap items !! entryID e = Some e).
  { intros e Hin. apply manifestMap_lookup; [apply Hl|done]. }
  split.
  - intros e1 e2 H1 H2 S1 S2 E. destruct (Hback _ H1 S1) as (a & A1 & A2 & A3 & A4).
    destruct (Hback _ H2 S2) as (b & B1 & B2 & B3 & B4). rewrite <- A2, <- B2 in *.
    destruct (Hc _ A1 A3) as [key Hka]. pose proof Hka as Hkb. rewrite E in Hkb.
    destruct (decide (entryID a = entryID b)) as [|Hne]; [done|]. exfalso.
    destruct (total str_le (entryID a) (entryID b)) as [Hle|Hle]; [apply B4|apply A4]; apply Hd; exists key.
    + split; [done|]. exists b, a. repeat split; auto.
    + split; [done|]. exists a, b. repeat split; auto.
  - intros e Hin Hs. destruct (Hc _ Hin Hs) as [key Hkey].
    set (same x := bool_decide (state x = Active /\ content_of (entryMap entries) (entryID x) = Some key)).
    assert (Hsame : forall x, x ∈ List.filter same items <->
      x ∈ items /\ state x = Active /\ content_of (entryMap entries) (entryID x) = Some key).
    { intros x. rewrite !list_elem_of_In, filter_In. unfold same. by rewrite bool_decide_eq_true. }
    destruct (exists_least (List.filter same items) e) as (a & Ha & Hmin); [by apply Hsame|].
    apply Hsame in Ha as (A1 & A2 & A3).
    assert (A4 : entryID a ∉ dropped).
    { intros Hin'%Hd. destruct Hin' as (key' & K1 & x & y & X1 & X2 & Y1 & Y2 & Y3 & Y4 & Y5). apply Y4.
      apply (anti_symm str_le); [done|]. apply Hmin, Hsame. split; [by eapply manifestMap_elem|].
      split; [done|]. congruence. }
    apply list_elem_of_lookup in A1 as [i Hi]. destruct (Forall2_lookup_l _ _ _ _ _ HF Hi) as (a' & Ha' & (E1 & _ & E3)).
    apply list_elem_of_lookup_2 in Ha'. rewrite entryID_retarget in E1. exists a'. split; [done|].
    split; [rewrite E3; unfold retarget; by rewrite bool_decide_eq_false_2|].
    rewrite E1. split; [congruence|]. by apply Hmin, Hsame.
Qed.

(** canonical entry material is a fixed point: canonicalizing what a version
    stores gives the same kind, text, references, bytes and hash. *)
Theorem material_fixed_point kind text srcs arts mat :
  newEntryMaterial kind text srcs arts = Ok mat ->
  newEntryMaterial (m_kind mat) (m_text mat) (m_sources mat) (m_artifacts mat) = Ok mat.
Proof. apply newEntryMaterial_idem. Qed.
End organizing.

(** ** Evaluated on the store of [MemoryStore] *)

(** A decision of [well_kept]. *)
Definition well_kept_check (l : Manifest) : bool :=
  forallb (fun e => bool_decide (NewManifestEntry (entryID e) (entryVersionID e) (entryContentHash e) (state e) = Ok e)) l
  && bool_decide (sortedManifest (manifestMap l) = l).

Lemma well_kept_ok value : well_kept_check (manifest (a_content value)) = true -> well_kept value.
Proof.
  intros H. unfold well_kept_check in H. boolify. split.
  - apply Forall_forall. intros e He. rewrite forallb_forall in H. apply list_elem_of_In, H in He.
    apply bool_decide_eq_true in He. by apply NewManifestEntry_ok in He as [_ He].
  - rewrite <- H0. apply sortedManifest_canonical, manifestMap_keyed.
Qed.

Lemma apart_one v : identities_apart [v].
Proof. by intros x y ->%list_elem_of_singleton ->%list_elem_of_singleton. Qed.

Lemma first_kept : well_kept first_memory.
Proof. apply well_kept_ok. vm_compute. reflexivity. Qed.
Lemma second_kept : well_kept second_memory.
Proof. apply well_kept_ok. vm_compute. reflexivity. Qed.

Lemma plan_remember_next_witness :
  wp_commit (plan_of second_plan) = Some second_commit /\ next_revision (Some first_memory) second_commit.
Proof.
  assert (Hc : wp_commit (plan_of second_plan) = Some second_commit) by (vm_compute; reflexivity).
  split; [exact Hc|].
  apply (plan_remember_next plain_service first_store (Some first_memory) [] []
    [revised friday "use go 1.25"; note "sign the tags"] RememberAppend 10%nat (plan_of second_plan) 13%nat);
    [apply first_kept|apply first_kept|apply second_planned|exact Hc].
Defined.

Lemma forget_exact_witness :
  manifest (a_content (memory_of forgotten))
  = map (retarget [ev_EntryID friday] Inactive) (manifest (a_content first_memory)).
Proof.
  apply (forget_exact plain_service first_store first_memory [friday] (Some "obsolete"%string) (fst forgotten));
    [apply first_kept|apply apart_one|apply forgotten_eq].
Defined.

Lemma forget_reactivate_restores_witness :
  manifest (a_content (memory_of forgotten)) <> manifest (a_content first_memory) /\
  manifest (a_content (memory_of reactivated)) = manifest (a_content first_memory).
Proof.
  split; [apply (bool_decide_unpack _); vm_compute; reflexivity|].
  apply (forget_reactivate_restores plain_service first_store first_memory [friday] (Some "obsolete"%string)
    (fst forgotten) (memory_of forgotten) [friday] None (fst reactivated));
    [apply first_kept|apply apart_one|apply apart_one|reflexivity| |apply forgotten_eq|apply reactivated_eq].
  intros e He _. revert e He. apply Forall_forall. apply (bool_decide_unpack _). vm_compute. reflexivity.
Defined.

Lemma no_lost_update_witness :
  b_Latest second_store (artifactID (a_ref first_memory)) = Ok second_memory /\
  refused plain_service second_store first_memory.
Proof.
  apply (no_lost_update plain_service first_store first_memory [] []
    [revised friday "use go 1.25"; note "sign the tags"] RememberAppend 10%nat (plan_of second_plan) 13%nat
    second_commit second_store (Some second_memory));
    [apply first_kept|apply second_planned|vm_compute; reflexivity|apply second_applied].
Defined.

Lemma organize_keeps_content_witness :
  Forall2 organized (manifest (a_content second_memory)) (manifest (a_content (memory_of deduplicated))).
Proof.
  apply (organize_keeps_content plain_service second_store second_memory OrganizeDedupe 20%nat (fst deduplicated));
    [apply second_kept|apply deduplicated_eq].
Defined.

Lemma organize_dedupes_witness :
  manifest (a_content (memory_of deduplicated)) <> manifest (a_content second_memory) /\
  exists entries, validatedEntries second_store second_memory = Ok entries /\
    forall e1 e2, e1 ∈ manifest (a_content (memory_of deduplicated)) ->
      e2 ∈ manifest (a_content (memory_of deduplicated)) -> state e1 = Active -> state e2 = Active ->
      content_of (entryMap entries) (entryID e1) = content_of (entryMap entries) (entryID e2) ->
      entryID e1 = entryID e2.
Proof.
  split; [apply (bool_decide_unpack _); vm_compute; reflexivity|].
  destruct (organize_dedupes plain_service second_store second_memory OrganizeDedupe 20%nat (fst deduplicated)
    (memory_of deduplicated) second_kept) as (entries & He & H & _);
    [discriminate|apply deduplicated_eq|]. exists entries. split; [exact He|exact H].
Defined.

Definition friday_material : entryMaterial := Eval vm_compute in
  match materialFromVersion friday with Ok m => m | Err _ => MkMaterial "" "" [] [] [] "" end.

Lemma material_fixed_point_witness : newEntryMaterial "fact" "ship on friday" [] [] = Ok friday_material.
Proof. refine (material_fixed_point " fact" "ship on friday " [] [] friday_material _). vm_compute. reflexivity. Defined.

Definition third_plan : WritePlan := Eval vm_compute in plan_of
  (PlanRemember plain_service first_store (Some first_memory) [] []
    [revised friday "ship on monday"; note "ship on friday"] RememberAppend 10%nat).

(** a call that revises the only entry with some content and also adds that
    content loses it: the addition is taken for a duplicate of the text that the
    same call replaces. *)
Theorem remember_drops_replaced_content :
  PlanRemember plain_service first_store (Some first_memory) [] []
    [revised friday "ship on monday"; note "ship on friday"] RememberAppend 10%nat = Ok (third_plan, 11%nat) /\
  exists c, wp_commit third_plan = Some c /\
    map (fun p => ev_Text (pr_entryVersion p)) (cm_projections c)
    = ["ship on monday"; "use go 1.25"; "no force push"]%string.
Proof. split; [vm_compute; reflexivity|]. eexists. split; reflexivity. Qed.
