(* ===== verification/SearchProps.v ===== *)
(** * Properties of Memory search, reranking and extraction *)

From S2P Require Import Prelude.
From S2P Require Import GoStrings.
From S2P Require Import GoTime.
From S2P Require Import Refs.
From S2P Require Import Json.
From S2P Require Import MemoryModel.
From S2P Require Import MemoryService.
From S2P Require Import MemoryServiceFacts.
From S2P Require Import PlanFacts.
From S2P Require Import MemoryStore.
From S2P Require Import MemoryProps.
From S2P Require Import MemorySearch.
From S2P Require Import MemoryExtract.
From S2P Require Import MemorySearchFacts.
From S2P Require Import ExtractFacts.

(** ** Fusion *)

(** How many identities two channels offer. *)
Definition distinct_hits (fts vector : list ChannelHit) : nat :=
  size (list_to_set (map identity (fts ++ vector)) : gset hitIdentity).

Lemma sorted_identities_length iterate fts vector :
  map_order iterate -> length (sorted_identities iterate fts vector) = distinct_hits fts vector.
Proof.
  intros H. unfold distinct_hits. rewrite <- (size_list_to_set (C := gset hitIdentity) (sorted_identities iterate fts vector))
    by by apply sorted_identities_nodup.
  f_equal. apply leibniz_equiv. intros id. rewrite !elem_of_list_to_set, sorted_identities_elem by done.
  unfold rrf_hit. split.
  - destruct (first_hit id (fts ++ vector)) as [[i c]|] eqn:E; [|by intros []].
    intros _. apply first_hit_some in E as [Hc <-]. apply list_elem_of_fmap. eauto.
  - intros (c & -> & Hc)%list_elem_of_fmap. destruct (first_hit _ _) as [[i d]|] eqn:E; [by eexists|].
    rewrite first_hit_none in E. by destruct (E c).
Qed.

(** C40: What FuseRankings returns is reciprocal rank fusion as directly defined:
    every hit carries the text of the first candidate with its identity, the sum of
    1/(60+rank) over the channels' first ranks and the channels it was found in;
    identities are distinct, as many as the limit allows, scores never increase, and
    what is left out does not have a higher score than what is returned. *)
Theorem fuse_rankings_rrf iterate fts vector limit hits :
  map_order iterate ->
  FuseRankings iterate fts vector limit = Ok hits ->
  (forall h, h ∈ hits -> rrf_hit fts vector (hit_id h) = Some h) /\
  NoDup (map hit_id hits) /\
  Z.of_nat (length hits) = Z.min limit (Z.of_nat (distinct_hits fts vector)) /\
  StronglySorted (fun a b => f64_lt (h_Score a) (h_Score b) = false) hits /\
  (forall id out, rrf_hit fts vector id = Some out -> id ∉ map hit_id hits ->
     forall h, h ∈ hits -> f64_lt (h_Score h) (h_Score out) = false).
Proof.
  intros Hiter H. pose proof (fuse_rankings_nodup _ Hiter _ _ _ _ H) as Hn.
  apply fuse_rankings_inv in H as [Hl HF]; [|done].
  pose proof (rrf_hits_ids _ _ _ _ HF) as Hids.
  pose proof (sorted_identities_sorted iterate fts vector) as Hs.
  split; [|split; [done|split; [|split]]].
  - intros h Hh. apply list_elem_of_lookup in Hh as [i Hi].
    destruct (Forall2_lookup_r _ _ _ _ _ HF Hi) as (id & _ & E). by rewrite (rrf_hit_id _ _ _ _ E).
  - apply Forall2_length in HF. rewrite <- HF, length_take, sorted_identities_length by done. lia.
  - rewrite <- (take_drop (Z.to_nat limit) (sorted_identities _ _ _)) in Hs.
    apply StronglySorted_app_1_l in Hs. clear Hids Hn. revert Hs HF. generalize (take (Z.to_nat limit) (sorted_identities iterate fts vector)).
    intros ids Hs HF. induction HF as [|id h ids hits E HF IH]; [constructor|].
    apply StronglySorted_inv in Hs as [Hs Hle]. constructor; [by apply IH|].
    apply Forall_forall. intros h' (i & Hi)%list_elem_of_lookup.
    destruct (Forall2_lookup_r _ _ _ _ _ HF Hi) as (id' & Hid' & E').
    eapply rrf_le_score; [|done..]. rewrite Forall_forall in Hle. apply Hle. by eapply list_elem_of_lookup_2.
  - intros id out Hout Hnot h (i & Hi)%list_elem_of_lookup.
    destruct (Forall2_lookup_r _ _ _ _ _ HF Hi) as (id' & Hid' & E').
    eapply rrf_le_score; [|done..].
    rewrite <- (take_drop (Z.to_nat limit) (sorted_identities _ _ _)) in Hs.
    eapply StronglySorted_app_1_elem_of; [exact Hs|by eapply list_elem_of_lookup_2|].
    assert (Hin : id ∈ sorted_identities iterate fts vector) by (apply sorted_identities_elem; [done|by eexists]).
    rewrite <- (take_drop (Z.to_nat limit) (sorted_identities _ _ _)), elem_of_app, <- Hids in Hin. tauto.
Qed.

(** The order in which Go visits the candidate map does not show in the result,
    as long as no two candidates are the same entry version of one artifact in
    different revisions. *)
Theorem fuse_deterministic iterate1 iterate2 fts vector limit :
  map_order iterate1 -> map_order iterate2 ->
  (forall a b, a ∈ fts ++ vector -> b ∈ fts ++ vector ->
     artifactID (ch_MemoryRef a) = artifactID (ch_MemoryRef b) -> ch_EntryID a = ch_EntryID b ->
     ch_EntryVersionID a = ch_EntryVersionID b -> revision (ch_MemoryRef a) = revision (ch_MemoryRef b)) ->
  FuseRankings iterate1 fts vector limit = FuseRankings iterate2 fts vector limit.
Proof.
  intros H1 H2 Hrev. unfold FuseRankings. destruct (check _ _) as [u|]; [|done]. cbn [bind]. do 3 f_equal.
  apply (StronglySorted_unique_strong (rrf_le fts vector)).
  - assert (Hin : forall id, id ∈ sorted_identities iterate1 fts vector \/ id ∈ sorted_identities iterate2 fts vector ->
      exists c, c ∈ fts ++ vector /\ identity c = id).
    { intros id Hid. assert (is_Some (rrf_hit fts vector id)) as [h Hh]
        by (destruct Hid as [Hid|Hid]; by apply sorted_identities_elem in Hid).
      unfold rrf_hit in Hh. destruct (first_hit _ _) as [[i c]|] eqn:E; [|done]. apply first_hit_some in E. eauto. }
    intros x y Hx Hy Hxy Hyx.
    destruct (Hin x) as (a & Ha & <-); [by left|]. destruct (Hin y) as (b & Hb & <-); [by right|].
    destruct (id_le_antisym _ (rrf_scores_ok fts vector) _ _ Hxy Hyx) as (Ea & Ee & Ev). cbn in Ea, Ee, Ev.
    unfold identity. by rewrite Ea, Ee, Ev, (Hrev a b).
  - by apply sorted_identities_sorted.
  - by apply sorted_identities_sorted.
  - change (sorted_identities iterate1 fts vector ≡ₚ sorted_identities iterate2 fts vector).
    by rewrite !sorted_identities_perm.
Qed.

(** ** Reranking *)

(** The LLM reranker selects, in the model's order, the first occurrences of the
    ranks that the model answers and that are in the pool, up to the limit; if none
    is, it falls back to the first candidates.  Whatever the model answers, the
    selection is not empty, within the limit and without repetition. *)
Theorem llm_rerank_selects generate query candidates limit d :
  LLMRerank generate query candidates limit = Ok d ->
  NoDup (rd_selectedRanks d) /\ rd_selectedRanks d <> [] /\
  Z.of_nat (length (rd_selectedRanks d)) <= limit /\
  (forall r, r ∈ rd_selectedRanks d -> 1 <= r <= Z.of_nat (length candidates)) /\
  exists input g, generate input = Ok g /\
    let ranks := take (Z.to_nat limit) (first_occurrences []
                   (List.filter (in_pool (Z.of_nat (length candidates))) (g_Output g))) in
    rd_usedFallback d = bool_decide (ranks = []) /\
    rd_selectedRanks d = if decide (ranks = []) then ranks_from 1 (Z.to_nat limit) else ranks.
Proof.
  intros H. destruct (llm_rerank_ranks _ _ _ _ _ H) as (H1 & H2 & H3 & H4).
  apply llm_rerank_inv in H as (_ & _ & projected & g & _ & Hg & Hr). repeat (split; [done|]). eauto.
Qed.

(** ** Searching *)

Section search.
Context {T : Text} {A : Analysis} {V S : Type} {DB : Type} {B : Backend DB} {SB : SearchBackend DB}.
Context {I : Type} (svc : Service V S I).

(** A hit that a candidate of a channel accounts for, which the query admits. *)
Definition drawn_from (query : string) (channels : SearchChannels) (h : Hit) : Prop :=
  exists c, hit_id h = identity c /\ h_Text h = ch_Text c /\
    (c ∈ sc_FTS channels /\ AdmitsFTSText query (ch_Text c) = true \/
     c ∈ sc_Vector channels /\ admit_vector c = true).

(** A mode that the capabilities support and the request allows. *)
Definition mode_granted (caps : Capabilities) (requested final : SearchMode) : Prop :=
  match final with
  | SearchFTS => cap_FTS caps = true /\ (requested = SearchFTS \/ requested = SearchAuto)
  | SearchVector => cap_Vector caps = true /\ requested = SearchVector
  | SearchHybrid =>
      cap_Hybrid caps = true /\ cap_Vector caps = true /\ (requested = SearchHybrid \/ requested = SearchAuto)
  | _ => False
  end.

Lemma selectSearchMode_granted db requested memories caps mode :
  selectSearchMode svc db requested memories caps = Ok mode -> mode_granted caps requested mode.
Proof.
  assert (HV : forall complete (m : option EmbeddingProfile),
             cap_Vector caps && bool_decide (is_Some m) && complete = true -> cap_Vector caps = true).
  { intros ? ? H. by boolify. }
  unfold selectSearchMode. intros H. destruct requested; bind_inv H; ok_inv; subst; cbn; eauto.
  - boolify. eauto.
  - destruct (cap_Hybrid caps && _) eqn:E; [|destruct (cap_FTS caps) eqn:Ef]; ok_inv; subst; cbn; auto.
    apply andb_true_iff in E as [E1 E2]. eauto.
Qed.

Lemma query_vector_granted mode selected caps query final v p :
  query_vector svc mode selected caps query = Ok (final, v, p) ->
  mode_granted caps mode selected -> mode_granted caps mode final.
Proof.
  unfold query_vector. intros H Hg. destruct (uses_vectors selected); cbn in H; [|by injection H as <- _ _].
  bind_inv H. destruct (embed_query _ _ _) as [vectors|[| |e]]; try done.
  - by injection H as <- _ _.
  - destruct (bool_decide (mode = SearchAuto) && cap_FTS caps) eqn:E; [|done]. injection H as <- _ _.
    boolify. cbn. auto.
  - destruct (bool_decide (mode = SearchAuto) && cap_FTS caps) eqn:E; [|done]. injection H as <- _ _.
    boolify. cbn. auto.
Qed.

(** Choosing distinct positions keeps identities distinct. *)
Lemma chosen_distinct (hits selected : list Hit) (ranks : list Z) :
  NoDup (map hit_id hits) -> NoDup ranks ->
  Forall2 (fun rank h => 1 <= rank /\ hits !! Z.to_nat (rank - 1) = Some h) ranks selected ->
  NoDup (map hit_id selected) /\ forall h, h ∈ selected -> h ∈ hits.
Proof.
  intros Hn Hr HF. induction HF as [|rank h ranks selected [H1 Hh] HF IH]; [split; [constructor|set_solver]|].
  apply NoDup_cons in Hr as [Hnot Hr]. destruct (IH Hr) as [IH1 IH2]. split.
  - cbn. constructor; [|done]. intros (h' & E & (i & Hi)%list_elem_of_lookup)%list_elem_of_fmap.
    destruct (Forall2_lookup_r _ _ _ _ _ HF Hi) as (rank' & Hr' & H1' & Hh').
    assert (Z.to_nat (rank - 1) = Z.to_nat (rank' - 1)) as E'.
    { apply (NoDup_lookup (map hit_id hits) _ _ (hit_id h) Hn); change (map hit_id hits) with (hit_id <$> hits);
        rewrite list_lookup_fmap; [by rewrite Hh|]. by rewrite Hh', E. }
    destruct Hnot. replace rank with rank' by lia. by eapply list_elem_of_lookup_2.
  - intros x [->|Hx]%elem_of_cons; [by eapply list_elem_of_lookup_2|auto].
Qed.

Lemma take_distinct (hits : list Hit) n :
  NoDup (map hit_id hits) -> NoDup (map hit_id (take n hits)) /\ forall h, h ∈ take n hits -> h ∈ hits.
Proof.
  intros H. split; [|apply elem_of_take_in]. rewrite <- firstn_map. by apply NoDup_take.
Qed.

(** The reranker is absent, or the model-backed one with any generator. *)
Definition llm_or_none (reranker : option Reranker) : Prop :=
  reranker = None \/ exists version generate, reranker = Some (NewLLMReranker version generate).

Lemma reranked_distinct reranker clock mode query hits limit r :
  llm_or_none reranker -> 1 <= limit -> NoDup (map hit_id hits) ->
  rerankedSearchResult reranker clock mode query hits limit = Ok r ->
  sr_Mode r = mode /\ NoDup (map hit_id (sr_Hits r)) /\ Z.of_nat (length (sr_Hits r)) <= limit /\
  (forall h, h ∈ sr_Hits r -> h ∈ hits) /\ (hits <> [] -> sr_Hits r <> []).
Proof.
  intros Hllm Hl Hn H.
  assert (Hplain : forall r' : SearchResult, @Ok mem_error _ (MkSearchResult mode (take (Z.to_nat (Z.min limit (Z.of_nat (length hits)))) hits) None) = Ok r' ->
    sr_Mode r' = mode /\ NoDup (map hit_id (sr_Hits r')) /\ Z.of_nat (length (sr_Hits r')) <= limit /\
    (forall h, h ∈ sr_Hits r' -> h ∈ hits) /\ (hits <> [] -> sr_Hits r' <> [])) .
  { intros r' [= <-]. destruct (take_distinct hits (Z.to_nat (Z.min limit (Z.of_nat (length hits)))) Hn) as [H1 H2].
    repeat (split; [done|]). cbn. rewrite length_take. repeat split; [lia|done|].
    intros Hne E. apply (f_equal length) in E. rewrite length_take in E. destruct hits; [done|cbn in E; lia]. }
  unfold rerankedSearchResult in H. destruct Hllm as [->|(version & generate & ->)]; [by apply Hplain|].
  destruct hits as [|h0 more] eqn:Eh; [by apply Hplain|]. rewrite <- Eh in *. clear Hplain.
  bind_inv H. ok_inv. subst r. cbn in *. apply llm_rerank_ranks in Ha as (H1 & H2 & H3 & H4).
  apply map_res_Forall2 in Ha0. rename a0 into selected.
  pose proof (Forall2_length _ _ _ Ha0) as Hlen.
  destruct (chosen_distinct hits selected (rd_selectedRanks a) Hn H1) as [H5 H6].
  { eapply Forall2_in; [exact Ha0|]. intros rank h Hin _ E. cbn beta in E. bind_inv E. ok_inv. split; [|done].
    apply H4 in Hin. lia. }
  repeat (split; [done|]). split; [lia|]. split; [done|]. intros _ ->. by destruct (rd_selectedRanks a).
Qed.

Lemma fused_drawn iterate query fts vector limit hits channels :
  map_order iterate -> FuseRankings iterate fts vector limit = Ok hits ->
  (forall c, c ∈ fts -> c ∈ sc_FTS channels /\ AdmitsFTSText query (ch_Text c) = true) ->
  (forall c, c ∈ vector -> c ∈ sc_Vector channels /\ admit_vector c = true) ->
  forall h, h ∈ hits -> drawn_from query channels h.
Proof.
  intros Hiter H Hf Hv h (i & Hi)%list_elem_of_lookup.
  apply fuse_rankings_inv in H as [_ HF]; [|done].
  destruct (Forall2_lookup_r _ _ _ _ _ HF Hi) as (id & _ & E). unfold rrf_hit in E.
  destruct (first_hit id (fts ++ vector)) as [[k c]|] eqn:Ec; [|done]. injection E as <-.
  apply first_hit_some in Ec as [[Hc|Hc]%elem_of_app _]; exists c; (split; [done|]); (split; [done|]); auto.
Qed.

Lemma elem_of_filter_In {X} (p : X -> bool) l x : x ∈ List.filter p l <-> x ∈ l /\ p x = true.
Proof. by rewrite !list_elem_of_In, filter_In. Qed.

(** C33: A search answers with hits of distinct entry versions, at most as many as
    asked for, each of them a candidate of the store that the query admits; the mode
    is one that was asked for or automatic mode allows and that the store supports;
    and only heads are searched. *)
Theorem search_sound iterate reranker poolLimit db query memories limit mode clock r :
  map_order iterate -> llm_or_none reranker ->
  Search svc reranker poolLimit iterate db query memories limit mode clock = Ok r ->
  NoDup (map hit_id (sr_Hits r)) /\ Z.of_nat (length (sr_Hits r)) <= limit /\
  mode_granted (b_Capabilities db) mode (sr_Mode r) /\
  (forall m, m ∈ dedupeMemories memories -> b_Get db (a_ref m) = Ok m /\
     exists latest, b_Latest db (artifactID (a_ref m)) = Ok latest /\ a_ref latest = a_ref m) /\
  exists normalized request channels,
    NormalizeText query = Ok normalized /\ b_Search db request = Ok channels /\
    sq_Query request = normalized /\ sq_Mode request = sr_Mode r /\
    sq_Memories request = map a_ref (dedupeMemories memories) /\
    (forall h, h ∈ sr_Hits r -> drawn_from normalized channels h).
Proof.
  intros Hiter Hllm H. unfold Search in H. bind_inv H. ok_inv.
  rename a3 into selected, a4 into normalized, Ha2 into Hheads, Ha3 into Hsel.
  destruct a5 as [[final v] p]. bind_inv H. rename a3 into channels, a4 into hits.
  apply Z.leb_le in Ha0.
  pose proof (fuse_rankings_nodup _ Hiter _ _ _ _ Ha3) as Hn.
  apply reranked_distinct in H as (<- & H1 & H2 & H3 & _); [|done..].
  split; [done|]. split; [done|].
  split; [eapply query_vector_granted; [done|]; by eapply selectSearchMode_granted|]. split.
  - unfold validateSearchHeads in Hheads. apply bind_ok_inv in Hheads as (us & Hheads%map_res_Forall2 & _).
    intros m (i & Hi)%list_elem_of_lookup.
    destruct (Forall2_lookup_l _ _ _ _ _ Hheads Hi) as (u & _ & E). unfold validate_head in E.
    apply bind_ok_inv in E as (exact & Hg & E). apply bind_ok_inv in E as (latest & Hlat & E).
    bind_inv E. ok_inv. boolify. subst exact. split; [done|]. eauto.
  - eexists _, _, channels. split; [done|]. split; [done|]. repeat (split; [done|]).
    intros h Hh%H3. eapply fused_drawn; [done|done| |intros c Hc|done].
    + intros c. case_bool_decide; [by intros ?%not_elem_of_nil|].
      unfold AdmitFTSCandidates. by rewrite elem_of_filter_In.
    + case_bool_decide; [by apply not_elem_of_nil in Hc|]. by apply elem_of_filter_In in Hc.
Qed.

(** ** Extraction *)

(** C34: Whatever the model answers, an extraction that succeeds gives one input per
    proposal, each citing at least one piece of evidence, only evidence of the request
    that its own identifiers name, and revising, if it revises, the active entry that
    it names; no entry is revised twice. *)
Theorem extract_grounded `{Values V S} `{Projected V S} projector generate (request : CandidateRequest V S) inputs :
  Extract projector generate request = Ok inputs ->
  exists input g, extractionInput projector request = Ok (input, evidence_map request) /\
    generate input = Ok g /\ Forall2 (grounded request) (g_Output g) inputs /\ NoDup (targets inputs).
Proof. apply extract_facts. Qed.

Lemma untouched_loop {VS : Values V S} memoryID rev items current evidence done st more st' :
  untouched items current done st ->
  fold_res (plan_candidate svc memoryID rev evidence) st more = Ok st' ->
  untouched items current (done ++ more) st'.
Proof.
  revert done st. induction more as [|c more IH]; intros done st Hu H; cbn in H.
  - injection H as <-. by rewrite app_nil_r.
  - apply bind_ok_inv in H as (st1 & H1 & H). eapply plan_candidate_untouched in H1; [|done].
    rewrite cons_middle, app_assoc. by eapply IH.
Qed.

(** The planner accepts every entry that an extraction revises: when its turn
    comes, whatever was planned before, the entry is active, is the version that the
    model was shown, and is not yet targeted. *)
Theorem extracted_targets_accepted {VS : Values V S} {PR : Projected V S} projector generate
    db base evidence entries given inputs memoryID rev contents (ids : I) done c more st requested :
  candidatePipeline svc = Some (Extract projector generate) ->
  Forall valid_entry (manifest (a_content base)) -> NoDup (map entryID (manifest (a_content base))) ->
  validatedEntries db base = Ok entries ->
  candidates svc RememberExtract given evidence (Some base) entries = Ok inputs ->
  inputs = done ++ c :: more ->
  fold_res (plan_candidate svc memoryID rev evidence)
    (MkPlan (manifestMap (manifest (a_content base))) (entryMap entries) [] [] ∅ contents ids) done = Ok st ->
  in_entry c = Some requested ->
  claimRevisionTarget c (ps_current st) (ps_targeted st)
    = Ok (ev_EntryID requested, requested, {[ev_EntryID requested]} ∪ ps_targeted st) /\
  exists item, ps_manifest st !! ev_EntryID requested = Some item /\ state item = Active.
Proof.
  intros Hp Hval Hnd Hent Hc -> Hfold Hreq. unfold candidates in Hc. rewrite Hp in Hc. cbn in Hc.
  apply bind_ok_inv in Hc as (request & Hq & Hx).
  assert (cr_currentEntries V S request = active_entries (Some base) entries) as Hcur.
  { unfold NewCandidateRequest in Hq. bind_inv Hq. by injection Hq as <-. }
  apply extract_facts in Hx as (input & g & _ & _ & HF & Hn).
  assert (requested ∈ active_entries (Some base) entries) as Hact.
  { assert (c ∈ done ++ c :: more) as (i & Hi)%list_elem_of_lookup by set_solver.
    destruct (Forall2_lookup_r _ _ _ _ _ HF Hi) as (p & _ & Hg). apply gr_target in Hg.
    rewrite Hreq, Hcur in Hg. tauto. }
  destruct (active_entry_item _ _ _ _ Hval Hnd Hent Hact) as (Hlook & item & Hitem & Hst & Hv & Eid).
  assert (Hnot : ev_EntryID requested ∉ targets done).
  { rewrite cons_middle, app_assoc in Hn. unfold targets in Hn. rewrite !omap_app in Hn. cbn in Hn.
    rewrite Hreq in Hn. cbn in Hn. apply NoDup_app in Hn as (Hn & _ & _). apply NoDup_app in Hn as (_ & Hn & _).
    intros Hin. apply (Hn _ Hin). left. }
  apply (untouched_loop _ _ (manifestMap (manifest (a_content base))) (entryMap entries) _ []) in Hfold
    as [U1 U2 U3 U4]; [|split; cbn; [by intros ? ?%elem_of_empty|done..]]. cbn in *.
  assert (Hsome : is_Some (manifestMap (manifest (a_content base)) !! ev_EntryID requested)) by by eexists.
  split.
  - unfold claimRevisionTarget. rewrite Hreq. destruct Hv as (Hid & _). rewrite Eid in Hid.
    rewrite (proj2 (ValidateIdentifier_ok (ev_EntryID requested) _) (conj eq_refl Hid)). cbn.
    rewrite bool_decide_eq_false_2 by (intros Hin; by apply Hnot, U1). cbn.
    rewrite U4 by done. rewrite Hlook. by rewrite bool_decide_eq_true_2.
  - exists item. by rewrite U3.
Qed.
End search.

(** ** Concrete inputs *)

(** A range over a map in the order of its representation. *)
Definition plain_order (m : gmap hitIdentity ChannelHit) : list hitIdentity := map fst (map_to_list m).
Lemma plain_order_ok : map_order plain_order.
Proof. intros m. done. Qed.
Definition reverse_order (m : gmap hitIdentity ChannelHit) : list hitIdentity := rev (plain_order m).
Lemma reverse_order_ok : map_order reverse_order.
Proof. intros m. unfold reverse_order. symmetry. apply Permutation_rev. Qed.

Definition channel_hit (id version text : string) (distance : option float64) : ChannelHit :=
  MkChannelHit (MkRef Family "memory-1" 2) id version text distance.
Definition demo_fts : list ChannelHit :=
  [channel_hit "a" "v1" "alpha" None; channel_hit "b" "v2" "beta" None; channel_hit "a" "v1" "alpha" None].
Definition demo_vector : list ChannelHit :=
  [channel_hit "b" "v2" "beta" (Some f64_zero); channel_hit "c" "v3" "gamma" (Some f64_one)].
Definition demo_fused : list Hit := Eval vm_compute in
  match FuseRankings plain_order demo_fts demo_vector 2 with Ok hits => hits | Err _ => [] end.

Example demo_fused_entries : map h_EntryID demo_fused = ["b"; "a"]%string.
Proof. reflexivity. Qed.

Lemma fuse_rankings_rrf_witness : NoDup (map hit_id demo_fused).
Proof.
  apply (fuse_rankings_rrf plain_order demo_fts demo_vector 2 demo_fused); [exact plain_order_ok|vm_compute; reflexivity].
Defined.

Lemma fuse_deterministic_witness :
  FuseRankings plain_order demo_fts demo_vector 2 = FuseRankings reverse_order demo_fts demo_vector 2.
Proof.
  apply fuse_deterministic; [exact plain_order_ok|exact reverse_order_ok|].
  intros a b Ha Hb _ _ _. unfold demo_fts, demo_vector in Ha, Hb. cbn in Ha, Hb.
  rewrite !elem_of_cons in Ha, Hb.
  repeat destruct Ha as [->|Ha]; repeat destruct Hb as [->|Hb]; try done; by apply not_elem_of_nil in Ha || apply not_elem_of_nil in Hb.
Defined.

(** A model that answers a rank outside the pool and one rank twice. *)
Definition demo_generate (input : RerankInput) : mres (Generated (list Z)) :=
  Ok (MkGenerated [9; 2; 2; 1] (MkUsage 1 None None)).

Lemma llm_rerank_selects_witness :
  rd_selectedRanks (MkDecision [2; 1] (MkUsage 1 None None) 2 false) <> [].
Proof. apply (llm_rerank_selects demo_generate "q" demo_fused 2). vm_compute. reflexivity. Defined.

(** Full-text candidates of the store: the active entries' projections. *)
Definition projected_hit (ref : Ref) (p : Projection) : ChannelHit :=
  MkChannelHit ref (ev_EntryID (pr_entryVersion p)) (ev_EntryVersionID (pr_entryVersion p))
    (ev_Text (pr_entryVersion p)) None.
#[export] Instance store_search : SearchBackend MemStore := {
  b_VectorComplete db memories profile := Ok false;
  b_Search db request :=
    let* channels := map_res (fun ref => let* ps := b_Projections db ref in Ok (map (projected_hit ref) ps))
                       (sq_Memories request) in
    Ok (MkChannels (concat channels) []);
  b_Expand db hits :=
    map_res (fun h => of_option (ms_versions db !! h_EntryVersionID h) (EInvalidCitation "missing-version")) hits
}.

Definition demo_reranker : option Reranker := Some (NewLLMReranker "v1" demo_generate).
Definition demo_search : mres SearchResult := Eval vm_compute in
  Search plain_service demo_reranker 30 plain_order first_store "the push on friday" [first_memory] 2 SearchAuto 0.

Example demo_search_texts :
  match demo_search with Ok r => map h_Text (sr_Hits r) | Err _ => [] end = ["ship on friday"]%string.
Proof. reflexivity. Qed.

Definition demo_result : SearchResult := Eval vm_compute in
  match demo_search with Ok r => r | Err _ => MkSearchResult SearchFTS [] None end.

Lemma demo_searched :
  Search plain_service demo_reranker 30 plain_order first_store "the push on friday" [first_memory] 2 SearchAuto 0
  = Ok demo_result.
Proof. vm_compute. reflexivity. Qed.

Lemma demo_reranker_llm : llm_or_none demo_reranker.
Proof. right. eexists _, _. reflexivity. Qed.

Lemma search_sound_witness :
  NoDup (map hit_id (sr_Hits demo_result)) /\ Z.of_nat (length (sr_Hits demo_result)) <= 2.
Proof.
  destruct (search_sound plain_service plain_order demo_reranker 30 first_store "the push on friday"
    [first_memory] 2 SearchAuto 0 demo_result plain_order_ok demo_reranker_llm demo_searched) as (H1 & H2 & _).
  split; [exact H1|exact H2].
Defined.

#[export] Instance demo_projected : Projected string Ref := {
  content_text name := name;
  content_metadata _ := JObj [];
  text_evidence _ := Err EUnacceptedObservation;
  content_value _ := JNull
}.

(** A model that adds an entry and revises the one about fridays. *)
Definition demo_proposals (input : ExtractionInput) : mres (Generated (list ExtractionCandidate)) :=
  Ok (MkGenerated
        [MkCandidate ExtractionAdd "fact" "tag every release" ["source:0"; "source:0"] None None;
         MkCandidate ExtractionRevise "fact" "ship on thursday" ["source:0"] (Some (ev_EntryID friday)) None]%string
        (MkUsage 1 None None)).
Definition demo_request : CandidateRequest string Ref := MkRequest_ ["transcript"%string] [] first_entries.
Definition demo_inputs : list (EntryInput string Ref) := Eval vm_compute in
  match Extract (ContentEvidenceProjector None) demo_proposals demo_request with Ok inputs => inputs | Err _ => [] end.

Lemma extract_grounded_witness : NoDup (targets demo_inputs).
Proof.
  destruct (extract_grounded (ContentEvidenceProjector None) demo_proposals demo_request demo_inputs)
    as (_ & _ & _ & _ & _ & H); [vm_compute; reflexivity|exact H].
Defined.

Definition named_resolver : SourceResolver string :=
  MkSourceResolver (fun v => Ok v) (fun v => lift_ref (Source.NewRef ContentType v)).
Definition extracting_service : Service string Ref nat :=
  MkService string Ref nat (Some (Extract (ContentEvidenceProjector None) demo_proposals)) None
    (Some named_resolver) None counted_id.
Definition demo_evidence : operationEvidence string Ref := MkEvidence ["transcript"%string] [].

(** The planner's state once the addition is planned. *)
Definition demo_added : mres (@PlanState nat) := Eval vm_compute in
  fold_res (plan_candidate extracting_service "memory-0" 2 demo_evidence)
    (MkPlan (manifestMap (manifest (a_content first_memory))) (entryMap first_entries) [] [] ∅ ∅ 7%nat)
    (take 1 demo_inputs).
Definition demo_state : @PlanState nat := Eval vm_compute in
  match demo_added with Ok st => st | Err _ => MkPlan ∅ ∅ [] [] ∅ ∅ 0%nat end.
Definition demo_second : EntryInput string Ref := Eval vm_compute in nth 1 demo_inputs (note "").

Lemma extracted_targets_accepted_witness :
  exists item, ps_manifest demo_state !! ev_EntryID friday = Some item /\ state item = Active.
Proof.
  destruct first_kept as [Hval [_ Hnd]].
  refine (proj2 (extracted_targets_accepted extracting_service (ContentEvidenceProjector None) demo_proposals
    first_store first_memory demo_evidence first_entries [] demo_inputs
    "memory-0" 2 ∅ 7%nat (take 1 demo_inputs) demo_second [] demo_state friday
    eq_refl Hval Hnd _ _ eq_refl _ eq_refl)).
  - vm_compute. reflexivity.
  - vm_compute. reflexivity.
  - vm_compute. reflexivity.
Defined.
