(* ===== verification/Checkpoint.v ===== *)
(** * Connector bindings and checkpoints ([source/connector.go], the JSON part of
    [source/connector_lifecycle.go])

    Checkpoints are JSON texts, compared by value: objects without regard to
    order, numbers as decimals of any size. *)

From S2P Require Import Prelude.
From S2P Require Import GoStrings.
From S2P Require Import Refs.
From S2P Require Import Json.
From S2P Require Import JsonText.
(** ** Errors *)

Inductive connector_error :=
| EBinding (field detail : string)                (** [InvalidConnectorBindingError] *)
| EConnector (field detail : string)              (** [InvalidConnectorError] *)
| ERun (field detail : string)                    (** [InvalidConnectorRunError] *)
| ERejected (detail : string)                     (** [ConnectorSubmissionRejectedError] *)
| EObservation (what : string)                    (** an admission or ingestion error *)
| ECanceled                                       (** the context's cause *)
| EStore (what : string).

#[export] Instance connector_error_eq_dec : EqDecision connector_error.
Proof. solve_decision. Defined.

Abbreviation cres := (result connector_error).

Definition connectorRunError {A} (field detail : string) : cres A := Err (ERun field detail).

(** ** Bindings *)

Record ConnectorBinding := MkBinding {
  scopeID : string; bindingID : string; connectorName : string; connectorVersion : string
}.

#[export] Instance binding_eq_dec : EqDecision ConnectorBinding.
Proof. solve_decision. Defined.

Definition connectorIdentity (field value : string) (maximum : Z) : cres unit :=
  require utf8_valid (bytes_of value) else EBinding field "must be valid UTF-8" in
  let trimmed := trim_python value in
  require negb (String.eqb trimmed "") else EBinding field "must be a non-empty string" in
  require String.eqb trimmed value else EBinding field "must not contain leading or trailing whitespace" in
  require rune_count value <=? maximum else EBinding field "must not exceed the characters" in
  Ok tt.

Definition validate_binding (b : ConnectorBinding) : cres unit :=
  let* _ := connectorIdentity "scope_id" (scopeID b) Source.MaxIDLength in
  let* _ := connectorIdentity "binding_id" (bindingID b) Source.MaxIDLength in
  let* _ := connectorIdentity "connector_name" (connectorName b) Source.MaxTypeLength in
  connectorIdentity "connector_version" (connectorVersion b) Source.MaxTypeLength.

Definition NewConnectorBinding (scope binding name version : string) : cres ConnectorBinding :=
  let b := MkBinding scope binding name version in
  let* _ := validate_binding b in
  Ok b.

Definition validateConnectorRunText (field value : string) (maximum : Z) : cres unit :=
  map_err (fun _ => ERun field "must be a non-empty trimmed valid UTF-8 string")
    (connectorIdentity field value maximum).

(** ** Numbers by value *)

(** [bytes.Cut] at the first occurrence of a byte. *)
Fixpoint cut (sep : ascii) (s : bytes) : option (bytes * bytes) :=
  match s with
  | [] => None
  | c :: r =>
      if Ascii.eqb c sep then Some ([], r)
      else match cut sep r with Some (a, b) => Some (c :: a, b) | None => None end
  end.

Definition is_zero_digit (c : ascii) : bool := Ascii.eqb c "0"%char.
Definition trim_left_zeros : bytes -> bytes := drop_while is_zero_digit.
Definition trim_right_zeros (s : bytes) : bytes := rev (drop_while is_zero_digit (rev s)).

Record connectorNumber := MkNumber {
  cn_negative : bool; cn_zero : bool; cn_significand : bytes; cn_exponent : Z
}.

Definition zero_number : connectorNumber := MkNumber false true [] 0.

(** Cutting at the exponent mark, small or capital. *)
Definition cut_exponent (raw : bytes) : bytes * bytes :=
  match cut "e"%char raw with
  | Some p => p
  | None => match cut "E"%char raw with Some p => p | None => (raw, []) end
  end.

(** The digits before and after the point, and how many are after it. *)
Definition join_fraction (mantissa : bytes) : bytes * Z :=
  match cut "."%char mantissa with
  | Some (whole, fraction) => (whole ++ fraction, Z.of_nat (length fraction))
  | None => (mantissa, 0)
  end.

Definition drop_plus (s : bytes) : bytes := match s with "+"%char :: r => r | _ => s end.

Definition exponent_of (exponentText : bytes) (fractionDigits : Z) : cres Z :=
  match exponentText with
  | [] => Ok (- fractionDigits)
  | _ =>
      let* parsed := of_option (parse_big (drop_plus exponentText)) (ERun "checkpoint" "must be valid JSON") in
      Ok (- fractionDigits + parsed)
  end.

(** The argument is a literal without white space around it. *)
Definition parseConnectorNumber (literal : bytes) : cres connectorNumber :=
  require negb (bool_decide (literal = [])) else ERun "checkpoint" "must be valid JSON" in
  let '(negative, raw) := match literal with "-"%char :: r => (true, r) | _ => (false, literal) end in
  let '(mantissa, exponentText) := cut_exponent raw in
  let '(digits, fractionDigits) := join_fraction mantissa in
  let digits := trim_left_zeros digits in
  match digits with
  | [] => Ok zero_number
  | _ =>
      let significand := trim_right_zeros digits in
      let trailingZeros := Z.of_nat (length digits) - Z.of_nat (length significand) in
      let* exponent := exponent_of exponentText fractionDigits in
      Ok (MkNumber negative false significand (exponent + trailingZeros))
  end.

Definition equalConnectorNumbers (left right : bytes) : cres bool :=
  let* l := parseConnectorNumber left in
  let* r := parseConnectorNumber right in
  if cn_zero l || cn_zero r then Ok (Bool.eqb (cn_zero l) (cn_zero r))
  else Ok (Bool.eqb (cn_negative l) (cn_negative r) && bool_decide (cn_significand l = cn_significand r)
           && (cn_exponent l =? cn_exponent r)).

(** ** Values *)

Fixpoint find_member (name : bytes) (members : list (bytes * jvalue)) : option jvalue :=
  match members with
  | [] => None
  | (n, v) :: more => if bool_decide (n = name) then Some v else find_member name more
  end.

(** [equalConnectorJSON] on the values of two valid texts.  The code visits the
    members of the left object in the order of a Go map; an unequal member ends the
    loop, and no order gives an error on valid texts. *)
Fixpoint equal_values (left right : jvalue) : cres bool :=
  match left, right with
  | VMembers ls, VMembers rs =>
      if negb (length ls =? length rs)%nat then Ok false
      else
        (fix members (ls : list (bytes * jvalue)) : cres bool :=
           match ls with
           | [] => Ok true
           | (name, l) :: more =>
               match find_member name rs with
               | None => Ok false
               | Some r => let* equal := equal_values l r in if equal then members more else Ok false
               end
           end) ls
  | VArray ls, VArray rs =>
      if negb (length ls =? length rs)%nat then Ok false
      else
        (fix elements (ls rs : list jvalue) : cres bool :=
           match ls, rs with
           | l :: ls', r :: rs' => let* equal := equal_values l r in if equal then elements ls' rs' else Ok false
           | _, _ => Ok true
           end) ls rs
  | VText l, VText r => Ok (bool_decide (l = r))
  | VNumber l, VNumber r => equalConnectorNumbers l r
  | VNull, VNull | VTrue, VTrue | VFalse, VFalse => Ok true
  | _, _ => Ok false
  end.

Definition equalConnectorJSON (left right : bytes) : cres bool :=
  match parse_json left, parse_json right with
  | Some l, Some r => equal_values l r
  | _, _ => connectorRunError "checkpoint" "must be valid JSON"
  end.

(** ** Checkpoints *)

(** [None] is the absence of a row: [found] is false. *)
Record ConnectorCheckpoint := MkCheckpoint { found : bool; value : bytes }.

#[export] Instance checkpoint_eq_dec : EqDecision ConnectorCheckpoint.
Proof. solve_decision. Defined.

Definition NoConnectorCheckpoint : ConnectorCheckpoint := MkCheckpoint false [].

Definition immutableConnectorCheckpoint (v : bytes) : cres bytes :=
  require negb (bool_decide (v = [])) && IsValid v else ERun "checkpoint" "must be valid JSON" in
  Ok v.

Definition NewConnectorCheckpoint (v : bytes) : cres ConnectorCheckpoint :=
  let* cloned := immutableConnectorCheckpoint v in
  Ok (MkCheckpoint true cloned).

Definition validate_checkpoint (c : ConnectorCheckpoint) : cres unit :=
  if found c then let* _ := immutableConnectorCheckpoint (value c) in Ok tt
  else
    require bool_decide (value c = []) else ERun "checkpoint" "must not carry a value when absent" in
    Ok tt.

Definition EqualConnectorCheckpoints (left right : ConnectorCheckpoint) : cres bool :=
  let* _ := validate_checkpoint left in
  let* _ := validate_checkpoint right in
  if negb (Bool.eqb (found left) (found right)) then Ok false
  else if negb (found left) then Ok true
  else equalConnectorJSON (value left) (value right).

Example equal_1 :
  equalConnectorJSON (json_text "{'n': 1e3, 's': 'A'}") (json_text "{'s':'\u0041','n':1000.0}") = Ok true.
Proof. vm_compute. reflexivity. Qed.
Example equal_2 : equalConnectorJSON (json_text "[-0, 1]") (json_text "[0,10E-1]") = Ok true.
Proof. vm_compute. reflexivity. Qed.
Example equal_3 :
  equalConnectorJSON (json_text "9007199254740993") (json_text "9007199254740992") = Ok false.
Proof. vm_compute. reflexivity. Qed.

(** ** Facts about checkpoints: decimal numbers by value, and JSON values

    A literal has one value, an integer times a power of ten; the normal form that
    the code computes decides its equality. *)
(** ** Number literals *)

(** The parts of a literal; the exponent has its mark and its sign. *)
Record literal := MkLiteral {
  li_negative : bool; li_int : bytes; li_frac : bytes; li_exp : option (ascii * bytes * bytes)
}.

Definition frac_text (l : literal) : bytes := match li_frac l with [] => [] | f => "."%char :: f end.
Definition exp_text (l : literal) : bytes :=
  match li_exp l with Some (mark, sign, ds) => mark :: sign ++ ds | None => [] end.

Definition literal_text (l : literal) : bytes :=
  (if li_negative l then ["-"%char] else []) ++ li_int l ++ frac_text l ++ exp_text l.

Definition all_digits (ds : bytes) : Prop := Forall (fun c => is_digit c = true) ds.

Record literal_ok (l : literal) : Prop := {
  lo_int : all_digits (li_int l) /\ li_int l <> [];
  lo_frac : all_digits (li_frac l);
  lo_exp : match li_exp l with
           | Some (mark, sign, ds) =>
               (mark = "e"%char \/ mark = "E"%char) /\
               (sign = [] \/ sign = ["+"%char] \/ sign = ["-"%char]) /\ all_digits ds /\ ds <> []
           | None => True
           end
}.

Definition exponent_value (l : literal) : Z :=
  match li_exp l with
  | Some (_, sign, ds) => if bool_decide (sign = ["-"%char]) then - digits_value ds else digits_value ds
  | None => 0
  end.

(** The number that a literal denotes: mantissa and exponent of ten. *)
Definition literal_value (l : literal) : Z * Z :=
  let m := digits_value (li_int l ++ li_frac l) in
  (if li_negative l then - m else m, exponent_value l - Z.of_nat (length (li_frac l))).

(** [m1 * 10^e1 = m2 * 10^e2]. *)
Definition same_number (a b : Z * Z) : Prop :=
  let k := Z.min (snd a) (snd b) in fst a * 10 ^ (snd a - k) = fst b * 10 ^ (snd b - k).

(** ** Digits *)

Lemma is_digit_spec c : is_digit c = true <-> 48 <= byteZ c <= 57.
Proof. unfold is_digit, in_range. rewrite andb_true_iff, !Z.leb_le. done. Qed.

Lemma digits_value_app a b : digits_value (a ++ b) = digits_value a * 10 ^ Z.of_nat (length b) + digits_value b.
Proof.
  induction b as [|c b IH] using rev_ind; [rewrite app_nil_r; cbn; lia|].
  unfold digits_value in *. rewrite app_assoc, (fold_left_app _ (a ++ b)), (fold_left_app _ b). cbn [fold_left].
  rewrite IH, length_app.
  cbn [length]. rewrite Nat2Z.inj_add, Z.pow_add_r by lia. change (10 ^ Z.of_nat 1) with 10. lia.
Qed.

Lemma digits_value_bound ds : all_digits ds -> 0 <= digits_value ds < 10 ^ Z.of_nat (length ds).
Proof.
  induction ds as [|c ds IH] using rev_ind; intros H; [done|].
  apply Forall_app in H as [H Hc]. apply Forall_inv in Hc. apply is_digit_spec in Hc.
  specialize (IH H). rewrite digits_value_app, length_app. cbn [length digits_value fold_left].
  rewrite Nat2Z.inj_add, Z.pow_add_r by lia. change (10 ^ Z.of_nat 1) with 10. unfold digit_value. lia.
Qed.

Lemma digits_value_zeros ds : Forall (fun c => is_zero_digit c = true) ds -> digits_value ds = 0.
Proof.
  induction ds as [|c ds IH] using rev_ind; intros H; [done|].
  apply Forall_app in H as [H Hc]. apply Forall_inv in Hc. apply Ascii.eqb_eq in Hc as ->.
  rewrite digits_value_app, IH by done. done.
Qed.

Lemma drop_while_split (f : ascii -> bool) s :
  exists p, s = p ++ drop_while f s /\ Forall (fun c => f c = true) p /\
    match drop_while f s with c :: _ => f c = false | [] => True end.
Proof.
  induction s as [|c s (p & E & Hp & H)]; [by exists []|]. cbn. destruct (f c) eqn:Ec.
  - exists (c :: p). split; [cbn; by rewrite <- E|]. split; [by constructor|done].
  - by exists [].
Qed.

Lemma trim_left_split s :
  exists p, s = p ++ trim_left_zeros s /\ digits_value p = 0 /\
    match trim_left_zeros s with c :: _ => is_zero_digit c = false | [] => True end.
Proof.
  destruct (drop_while_split is_zero_digit s) as (p & E & Hp & H).
  exists p. split; [exact E|]. split; [by apply digits_value_zeros|exact H].
Qed.

Lemma trim_right_split s :
  exists p, s = trim_right_zeros s ++ p /\ digits_value p = 0 /\
    (s <> [] -> trim_right_zeros s = [] \/ exists q c, trim_right_zeros s = q ++ [c] /\ is_zero_digit c = false).
Proof.
  destruct (drop_while_split is_zero_digit (rev s)) as (p & E & Hp & H). unfold trim_right_zeros.
  exists (rev p). split; [by rewrite <- rev_app_distr, <- E, rev_involutive|].
  split; [by apply digits_value_zeros, Forall_rev|].
  intros _. destruct (drop_while is_zero_digit (rev s)) as [|c q]; [by left|]. right. cbn. eauto.
Qed.

Lemma digit_not_zero c : is_digit c = true -> is_zero_digit c = false -> 1 <= digit_value c <= 9.
Proof.
  intros H%is_digit_spec Hz. unfold digit_value. unfold is_zero_digit in Hz. apply Ascii.eqb_neq in Hz.
  assert (byteZ c <> 48); [|lia]. intros E. apply Hz. apply (inj byteZ). by rewrite E.
Qed.

(** A run of digits without a zero at either end. *)
Record normal_digits (s : bytes) : Prop := {
  nd_digits : all_digits s;
  nd_head : match s with c :: _ => is_zero_digit c = false | [] => False end;
  nd_last : exists q c, s = q ++ [c] /\ is_zero_digit c = false
}.

Lemma normal_pos s : normal_digits s -> 10 ^ (Z.of_nat (length s) - 1) <= digits_value s < 10 ^ Z.of_nat (length s).
Proof.
  intros [Hd Hh _]. split; [|by apply digits_value_bound]. destruct s as [|c r]; [done|].
  apply Forall_cons in Hd as [Hc Hr]. pose proof (digit_not_zero c Hc Hh).
  pose proof (digits_value_bound r Hr) as [Hb _].
  change (c :: r) with ([c] ++ r). rewrite digits_value_app. change (digits_value [c]) with (digit_value c).
  rewrite length_app. cbn [length]. replace (Z.of_nat (1 + length r) - 1) with (Z.of_nat (length r)) by lia.
  pose proof (Z.pow_pos_nonneg 10 (Z.of_nat (length r))). nia.
Qed.

Lemma normal_not_ten s : normal_digits s -> digits_value s mod 10 <> 0.
Proof.
  intros [Hd _ (q & c & -> & Hz)]. apply Forall_app in Hd as [Hq Hc]. apply Forall_inv in Hc.
  pose proof (digit_not_zero c Hc Hz). rewrite digits_value_app. cbn [length].
  change (10 ^ Z.of_nat 1) with 10. change (digits_value [c]) with (digit_value c).
  rewrite Z.add_comm, Z.mod_add by lia. rewrite Z.mod_small; lia.
Qed.

(** Equal lengths and values give equal digits. *)
Lemma digits_value_inj a b :
  all_digits a -> all_digits b -> length a = length b -> digits_value a = digits_value b -> a = b.
Proof.
  revert b. induction a as [|x a IH] using rev_ind; intros b Ha Hb Hl Hv.
  { by destruct b. }
  destruct b as [|y b _] using rev_ind; [rewrite length_app in Hl; cbn in Hl; lia|].
  rewrite !length_app in Hl. cbn in Hl.
  apply Forall_app in Ha as [Ha Hx], Hb as [Hb Hy]. apply Forall_inv in Hx, Hy.
  rewrite !digits_value_app in Hv. cbn [length] in Hv. change (10 ^ Z.of_nat 1) with 10 in Hv.
  change (digits_value [x]) with (digit_value x) in Hv. change (digits_value [y]) with (digit_value y) in Hv.
  apply is_digit_spec in Hx, Hy. unfold digit_value in Hv.
  assert (byteZ x = byteZ y) as E by lia. apply (inj byteZ) in E as ->. f_equal. apply IH; [done|done|lia|lia].
Qed.

Lemma normal_inj a b : normal_digits a -> normal_digits b -> digits_value a = digits_value b -> a = b.
Proof.
  intros Ha Hb Hv. apply digits_value_inj; [apply Ha|apply Hb| |done].
  pose proof (normal_pos a Ha) as [H1 H2]. pose proof (normal_pos b Hb) as [H3 H4].
  rewrite Hv in H1, H2.
  assert (Z.of_nat (length a) - 1 < Z.of_nat (length b)) by (apply (Z.pow_lt_mono_r_iff 10); lia).
  assert (Z.of_nat (length b) - 1 < Z.of_nat (length a)) by (apply (Z.pow_lt_mono_r_iff 10); lia).
  lia.
Qed.

(** ** Values up to scaling *)

Lemma same_number_at k a b :
  k <= snd a -> k <= snd b ->
  same_number a b <-> fst a * 10 ^ (snd a - k) = fst b * 10 ^ (snd b - k).
Proof.
  intros Ha Hb. unfold same_number. set (m := Z.min (snd a) (snd b)).
  replace (snd a - k) with ((snd a - m) + (m - k)) by lia.
  replace (snd b - k) with ((snd b - m) + (m - k)) by lia.
  rewrite !Z.pow_add_r by lia. pose proof (Z.pow_pos_nonneg 10 (m - k) ltac:(lia) ltac:(lia)). nia.
Qed.

(** Trailing zeros move into the exponent. *)
Lemma same_number_scale_l m t e b : 0 <= t -> same_number (m * 10 ^ t, e) b <-> same_number (m, e + t) b.
Proof.
  intros Ht. set (k := Z.min e (snd b)).
  rewrite (same_number_at k (m * 10 ^ t, e) b), (same_number_at k (m, e + t) b); cbn; try lia.
  rewrite <- Z.mul_assoc, <- Z.pow_add_r by lia. replace (t + (e - k)) with (e + t - k) by lia. done.
Qed.

Lemma same_number_sym a b : same_number a b <-> same_number b a.
Proof. unfold same_number. rewrite Z.min_comm. split; intros H; symmetry; exact H. Qed.

Lemma same_number_scale_r m t e a : 0 <= t -> same_number a (m * 10 ^ t, e) <-> same_number a (m, e + t).
Proof. intros Ht. rewrite !(same_number_sym a). by apply same_number_scale_l. Qed.

Lemma same_number_zero e b : same_number (0, e) b <-> fst b = 0.
Proof.
  unfold same_number. cbn. pose proof (Z.pow_pos_nonneg 10 (snd b - Z.min e (snd b)) ltac:(lia) ltac:(lia)). nia.
Qed.

(** Normal forms are equal exactly when the numbers are. *)
Lemma normal_same n1 s1 e1 n2 s2 e2 :
  normal_digits s1 -> normal_digits s2 ->
  let signed (n : bool) v := if n then - v else v in
  same_number (signed n1 (digits_value s1), e1) (signed n2 (digits_value s2), e2) <->
  n1 = n2 /\ s1 = s2 /\ e1 = e2.
Proof.
  intros H1 H2 signed. split; [|by intros (-> & -> & ->)].
  pose proof (normal_pos s1 H1) as [P1 _]. pose proof (normal_pos s2 H2) as [P2 _].
  assert (0 < digits_value s1).
  { destruct s1; [by destruct (nd_head _ H1)|]. cbn [length] in P1.
    pose proof (Z.pow_pos_nonneg 10 (Z.of_nat (S (length s1)) - 1)). lia. }
  assert (0 < digits_value s2).
  { destruct s2; [by destruct (nd_head _ H2)|]. cbn [length] in P2.
    pose proof (Z.pow_pos_nonneg 10 (Z.of_nat (S (length s2)) - 1)). lia. }
  pose proof (normal_not_ten s1 H1) as T1. pose proof (normal_not_ten s2 H2) as T2.
  unfold same_number. cbn. set (k := Z.min e1 e2).
  pose proof (Z.pow_pos_nonneg 10 (e1 - k) ltac:(lia) ltac:(lia)) as K1.
  pose proof (Z.pow_pos_nonneg 10 (e2 - k) ltac:(lia) ltac:(lia)) as K2. intros E.
  assert (n1 = n2) as <- by (unfold signed in E; destruct n1, n2; try done; nia).
  assert (E' : digits_value s1 * 10 ^ (e1 - k) = digits_value s2 * 10 ^ (e2 - k)) by (unfold signed in E; destruct n1; lia).
  clear E. assert (Hten : forall x t, 0 < t -> (x * 10 ^ t) mod 10 = 0).
  { intros x t Ht. replace t with (1 + (t - 1)) by lia. rewrite Z.pow_add_r by lia. change (10 ^ 1) with 10.
    replace (x * (10 * 10 ^ (t - 1))) with ((x * 10 ^ (t - 1)) * 10) by lia. by rewrite Z.mod_mul. }
  assert (e1 = e2) as <-.
  { destruct (Z.lt_trichotomy e1 e2) as [Hlt|[He|Hlt]]; [|done|]; exfalso.
    - replace (e1 - k) with 0 in E' by lia. rewrite Z.mul_1_r in E'. apply T1. rewrite E'. apply Hten. lia.
    - replace (e2 - k) with 0 in E' by lia. rewrite Z.mul_1_r in E'. apply T2. rewrite <- E'. apply Hten. lia. }
  split; [done|]. split; [|done]. apply normal_inj; [done|done|]. nia.
Qed.

(** ** The normal form of a literal *)

Lemma cut_app sep a b : cut sep a = None -> cut sep (a ++ sep :: b) = Some (a, b).
Proof.
  induction a as [|c a IH]; cbn; [by rewrite Ascii.eqb_refl|]. destruct (Ascii.eqb c sep); [done|].
  destruct (cut sep a) as [[]|]; [done|]. intros _. by rewrite IH.
Qed.

Lemma cut_none_app sep a b : cut sep a = None -> cut sep b = None -> cut sep (a ++ b) = None.
Proof.
  intros Ha Hb. induction a as [|c a IH]; [done|]. cbn in *. destruct (Ascii.eqb c sep); [done|].
  destruct (cut sep a) as [[]|]; [done|]. by rewrite IH.
Qed.

Lemma cut_digits sep ds : all_digits ds -> is_digit sep = false -> cut sep ds = None.
Proof.
  intros H Hs. induction H as [|c ds Hc _ IH]; [done|]. cbn.
  destruct (Ascii.eqb_spec c sep) as [->|]; [congruence|]. by rewrite IH.
Qed.

Lemma cut_mantissa sep l :
  literal_ok l -> is_digit sep = false -> sep <> "."%char -> cut sep (li_int l ++ frac_text l) = None.
Proof.
  intros [[Hi _] Hf _] Hs Hdot. apply cut_none_app; [by apply cut_digits|]. unfold frac_text.
  destruct (li_frac l) as [|c f]; [done|]. apply (cut_none_app sep ["."%char]); [|by apply cut_digits].
  cbn [cut]. by destruct (Ascii.eqb_spec "."%char sep) as [E|]; [congruence|].
Qed.

Lemma exponent_split l :
  literal_ok l ->
  cut_exponent (li_int l ++ frac_text l ++ exp_text l)
  = (li_int l ++ frac_text l, match li_exp l with Some (_, sign, ds) => sign ++ ds | None => [] end).
Proof.
  intros Hl. unfold cut_exponent, exp_text. rewrite app_assoc.
  assert (He : cut "e"%char (li_int l ++ frac_text l) = None) by by apply cut_mantissa.
  assert (HE : cut "E"%char (li_int l ++ frac_text l) = None) by by apply cut_mantissa.
  destruct (li_exp l) as [[[mark sign] ds]|] eqn:E.
  - pose proof (lo_exp l Hl) as H. rewrite E in H.
    destruct H as ([->| ->] & Hs & Hd & _); [by rewrite cut_app|].
    assert (Hn : cut "e"%char ("E"%char :: sign ++ ds) = None).
    { cbn. rewrite cut_none_app; [done| |by apply cut_digits]. by destruct Hs as [->|[->| ->]]. }
    rewrite (cut_none_app "e"%char _ _ He Hn), cut_app by done. done.
  - rewrite app_nil_r, He, HE. done.
Qed.

Lemma fraction_split l :
  literal_ok l -> join_fraction (li_int l ++ frac_text l) = (li_int l ++ li_frac l, Z.of_nat (length (li_frac l))).
Proof.
  intros [[Hi _] Hf _]. unfold join_fraction, frac_text. destruct (li_frac l) as [|c f].
  - rewrite app_nil_r, cut_digits by done. done.
  - rewrite cut_app; [done|]. by apply cut_digits.
Qed.

Lemma digits_forallb ds : all_digits ds -> forallb is_digit ds = true.
Proof. intros H. apply forallb_forall. intros c Hc. unfold all_digits in H. rewrite Forall_forall in H. apply H. by apply list_elem_of_In. Qed.

Lemma digit_head c ds : all_digits (c :: ds) -> c <> "+"%char /\ c <> "-"%char.
Proof. intros [H _]%Forall_cons. split; intros ->; discriminate. Qed.

Lemma parse_big_digits ds : all_digits ds -> ds <> [] -> parse_big ds = Some (digits_value ds).
Proof.
  intros H Hne. destruct ds as [|c r]; [done|]. pose proof (digit_head c r H) as [H1 H2].
  pose proof (digits_forallb _ H) as Hd. unfold parse_big.
  assert (E : (match c :: r with "-"%char :: r => (true, r) | "+"%char :: r => (false, r) | _ => (false, c :: r) end)
              = (false, c :: r)).
  { destruct c as [[] [] [] [] [] [] [] []]; try done; congruence. }
  rewrite E. by rewrite Hd.
Qed.

Lemma parse_exponent sign ds :
  sign = [] \/ sign = ["+"%char] \/ sign = ["-"%char] -> all_digits ds -> ds <> [] ->
  sign ++ ds <> [] /\
  parse_big (drop_plus (sign ++ ds)) = Some (if bool_decide (sign = ["-"%char]) then - digits_value ds else digits_value ds).
Proof.
  intros Hs Hd Hne. split; [by destruct sign, ds|].
  pose proof (parse_big_digits ds Hd Hne) as Hp. pose proof (digits_forallb _ Hd) as Hf.
  destruct Hs as [->|[->| ->]]; cbn [app].
  - destruct ds as [|c r]; [done|]. destruct (digit_head c r Hd) as [H1 _].
    assert (drop_plus (c :: r) = c :: r) as -> by (destruct c as [[] [] [] [] [] [] [] []]; try done; congruence).
    done.
  - exact Hp.
  - cbn. destruct ds; [done|]. by rewrite Hf.
Qed.

Definition signed (n : bool) (v : Z) : Z := if n then - v else v.

(** What the normal form of a literal is. *)
Definition normal_form_of (l : literal) (n : connectorNumber) : Prop :=
  if cn_zero n then fst (literal_value l) = 0
  else
    normal_digits (cn_significand n) /\ cn_negative n = li_negative l /\
    exists t, 0 <= t /\ literal_value l = (signed (li_negative l) (digits_value (cn_significand n) * 10 ^ t), cn_exponent n - t).

Lemma parse_literal l :
  literal_ok l -> exists n, parseConnectorNumber (literal_text l) = Ok n /\ normal_form_of l n.
Proof.
  intros Hl. unfold parseConnectorNumber.
  assert (Hne : literal_text l <> []).
  { unfold literal_text. destruct (lo_int l Hl) as [_ Hi]. destruct (li_negative l); [done|]. by destruct (li_int l). }
  rewrite bool_decide_eq_false_2 by done. cbn [negb check bind].
  assert (Hneg : (match literal_text l with "-"%char :: r => (true, r) | _ => (false, literal_text l) end)
                 = (li_negative l, li_int l ++ frac_text l ++ exp_text l)).
  { unfold literal_text. destruct (li_negative l); [done|]. destruct (lo_int l Hl) as [Hi Hnil]. cbn [app].
    destruct (li_int l) as [|c r]; [done|]. destruct (digit_head c r Hi) as [_ Hc]. cbn [app].
    destruct c as [[] [] [] [] [] [] [] []]; try done; congruence. }
  rewrite Hneg, exponent_split, fraction_split by done. clear Hneg Hne.
  destruct (trim_left_split (li_int l ++ li_frac l)) as (p & Ep & Vp & Hhead).
  assert (Hdig : all_digits (li_int l ++ li_frac l)) by (apply Forall_app; split; [apply (lo_int l Hl)|apply (lo_frac l Hl)]).
  assert (HV : digits_value (li_int l ++ li_frac l) = digits_value (trim_left_zeros (li_int l ++ li_frac l))).
  { rewrite Ep at 1. rewrite digits_value_app, Vp. lia. }
  assert (HD : all_digits (trim_left_zeros (li_int l ++ li_frac l))).
  { rewrite Ep in Hdig. by apply Forall_app in Hdig as [_ Hdig]. }
  destruct (trim_left_zeros (li_int l ++ li_frac l)) as [|c r] eqn:ED.
  { exists zero_number. split; [done|]. unfold normal_form_of, literal_value. cbn [cn_zero zero_number fst].
    rewrite HV. by destruct (li_negative l). }
  destruct (trim_right_split (c :: r)) as (q & Eq & Vq & Hlast). specialize (Hlast ltac:(done)).
  set (s := trim_right_zeros (c :: r)) in *.
  assert (Hs : normal_digits s).
  { assert (s <> []) as Hsne.
    { intros Es. rewrite Es in Eq. cbn in Eq. subst q. destruct Hlast as [_|(q & c' & E & _)]; [|by rewrite Es in E; destruct q].
      assert (digits_value (c :: r) >= 1); [|lia]. change (c :: r) with ([c] ++ r).
      rewrite digits_value_app. change (digits_value [c]) with (digit_value c).
      apply Forall_cons in HD as [Hc Hr]. pose proof (digit_not_zero c Hc Hhead). pose proof (digits_value_bound r Hr).
      pose proof (Z.pow_pos_nonneg 10 (Z.of_nat (length r))). nia. }
    split.
    - rewrite Eq in HD. by apply Forall_app in HD as [HD _].
    - destruct s as [|c' s']; [done|]. rewrite Eq in ED. injection ED as <- _ || idtac.
      assert (c = c') as <- by (injection Eq; congruence). done.
    - by destruct Hlast. }
  set (t := Z.of_nat (length (c :: r)) - Z.of_nat (length s)).
  assert (Ht : t = Z.of_nat (length q)).
  { unfold t. rewrite Eq at 1. rewrite length_app. lia. }
  assert (HVs : digits_value (li_int l ++ li_frac l) = digits_value s * 10 ^ t).
  { rewrite HV, Eq, digits_value_app, Vq, Ht. lia. }
  assert (Hexp : exponent_of (match li_exp l with Some (_, sign, ds) => sign ++ ds | None => [] end)
                   (Z.of_nat (length (li_frac l))) = Ok (- Z.of_nat (length (li_frac l)) + exponent_value l)).
  { unfold exponent_value. pose proof (lo_exp l Hl) as He. destruct (li_exp l) as [[[mark sign] ds]|].
    - destruct He as (_ & Hsign & Hd & Hdne). destruct (parse_exponent sign ds Hsign Hd Hdne) as [Hne Hp].
      unfold exponent_of.
      destruct (sign ++ ds) as [|c' r'] eqn:E; [done|]. rewrite Hp. reflexivity.
    - cbn. f_equal. lia. }
  rewrite Hexp. cbn [bind]. eexists. split; [reflexivity|].
  unfold normal_form_of. cbn [cn_zero cn_significand cn_negative cn_exponent].
  split; [done|]. split; [done|]. exists t. split; [lia|]. unfold literal_value. rewrite HVs.
  f_equal. lia.
Qed.

(** The comparison of literals decides the equality of the numbers. *)
Lemma equal_literals a b :
  literal_ok a -> literal_ok b ->
  exists eq, equalConnectorNumbers (literal_text a) (literal_text b) = Ok eq /\
    (eq = true <-> same_number (literal_value a) (literal_value b)).
Proof.
  intros Ha Hb. destruct (parse_literal a Ha) as (na & Ea & Na). destruct (parse_literal b Hb) as (nb & Eb & Nb).
  unfold equalConnectorNumbers. rewrite Ea, Eb. cbn [bind]. unfold normal_form_of in Na, Nb.
  assert (Hscale : forall n v t e c, 0 <= t -> same_number (signed n (v * 10 ^ t), e - t) c <-> same_number (signed n v, e) c).
  { intros n v t e c Ht. replace (signed n (v * 10 ^ t)) with (signed n v * 10 ^ t) by (unfold signed; destruct n; lia).
    rewrite same_number_scale_l by done. by replace (e - t + t) with e by lia. }
  assert (Hnz : forall s, normal_digits s -> digits_value s <> 0).
  { intros s Hs E. apply (normal_not_ten s Hs). by rewrite E. }
  assert (Hz : forall v n s e, normal_digits s -> same_number (0, v) (signed n (digits_value s), e) -> False).
  { intros v n s e Hs H. apply same_number_zero in H. cbn in H. apply (Hnz s Hs). unfold signed in H. destruct n; lia. }
  destruct (literal_value a) as [va ea], (literal_value b) as [vb eb]. cbn [fst] in Na, Nb.
  destruct (cn_zero na), (cn_zero nb); cbn [orb].
  - subst. eexists. split; [reflexivity|]. rewrite same_number_zero. done.
  - subst va. destruct Nb as (Hs & _ & t & Ht & [= -> ->]). eexists. split; [reflexivity|].
    split; [done|]. rewrite same_number_sym, Hscale, same_number_sym by done. intros H. by apply Hz in H.
  - subst vb. destruct Na as (Hs & _ & t & Ht & [= -> ->]). eexists. split; [reflexivity|].
    split; [done|]. rewrite Hscale by done. rewrite same_number_sym. intros H. by apply Hz in H.
  - destruct Na as (Hsa & En & t & Ht & [= -> ->]), Nb as (Hsb & En' & t' & Ht' & [= -> ->]).
    eexists. split; [reflexivity|]. rewrite Hscale, same_number_sym, Hscale, same_number_sym by done.
    unfold signed. rewrite normal_same by done. rewrite En, En'.
    rewrite !andb_true_iff, bool_decide_eq_true, Z.eqb_eq, Bool.eqb_true_iff. tauto.
Qed.

(** ** What the reader accepts as a number *)

Lemma span_digits_spec s ds rest : span_digits s = (ds, rest) -> s = ds ++ rest /\ all_digits ds.
Proof.
  revert ds rest. induction s as [|c s IH]; intros ds rest; cbn; [intros [= <- <-]; split; [done|constructor]|].
  destruct (is_digit c) eqn:E; [|intros [= <- <-]; split; [done|constructor]].
  destruct (span_digits s) as [ds' rest']. intros [= <- <-]. destruct (IH _ _ eq_refl) as [-> H].
  split; [done|by constructor].
Qed.

Lemma expect_spec c s r : expect c s = Some r -> s = c :: r.
Proof. destruct s as [|x s]; [done|]. cbn. destruct (Ascii.eqb_spec x c) as [->|]; [|done]. by intros [= <-]. Qed.

Lemma optional_spec cs s a r :
  optional cs s = (a, r) -> s = a ++ r /\ (a = [] \/ exists c, c ∈ cs /\ a = [c]).
Proof.
  induction cs as [|c cs IH]; cbn; [intros [= <- <-]; auto|].
  destruct (expect c s) as [r'|] eqn:E.
  - intros [= <- <-]. apply expect_spec in E as ->. split; [done|]. right. exists c. split; [left|done].
  - intros H. destruct (IH H) as [-> [->|(x & Hx & ->)]]; split; auto. right. exists x. split; [by right|done].
Qed.

Lemma scan_integer_spec s ds rest : scan_integer s = Some (ds, rest) -> s = ds ++ rest /\ all_digits ds /\ ds <> [].
Proof.
  unfold scan_integer. destruct (span_digits s) as [d r] eqn:E. apply span_digits_spec in E as [-> Hd].
  destruct d as [|c d]; [done|]. destruct (_ && _); [done|]. by intros [= <- <-].
Qed.

Lemma scan_fraction_spec s out rest :
  scan_fraction s = Some (out, rest) ->
  s = out ++ rest /\ exists f, all_digits f /\ out = match f with [] => [] | _ => "."%char :: f end.
Proof.
  unfold scan_fraction. destruct (expect "."%char s) as [r|] eqn:Ee.
  - apply expect_spec in Ee as ->. destruct (span_digits r) as [d r'] eqn:E. apply span_digits_spec in E as [-> Hd].
    destruct d as [|x d]; [done|]. intros [= <- <-]. split; [done|]. by exists (x :: d).
  - intros [= <- <-]. split; [done|]. exists []. split; [constructor|done].
Qed.

Lemma scan_exponent_spec s out rest :
  scan_exponent s = Some (out, rest) ->
  s = out ++ rest /\
  (out = [] \/ exists mark sign ds, out = mark :: sign ++ ds /\ (mark = "e"%char \/ mark = "E"%char) /\
     (sign = [] \/ sign = ["+"%char] \/ sign = ["-"%char]) /\ all_digits ds /\ ds <> []).
Proof.
  unfold scan_exponent. destruct (optional ["e"; "E"]%char s) as [mark r] eqn:Em.
  apply optional_spec in Em as [-> [->|(m & Hm & ->)]]; [intros [= <- <-]; auto|].
  destruct (optional ["+"; "-"]%char r) as [sign r'] eqn:Es. apply optional_spec in Es as [-> Hs].
  destruct (span_digits r') as [ds r''] eqn:E. apply span_digits_spec in E as [-> Hd].
  destruct ds as [|x ds]; [done|]. intros [= <- <-]. split; [cbn; by rewrite <- app_assoc|]. right.
  exists m, sign, (x :: ds). split; [done|]. rewrite !elem_of_cons, elem_of_nil in Hm. split; [tauto|].
  split; [|done]. destruct Hs as [->|(c & Hc & ->)]; [auto|]. rewrite !elem_of_cons, elem_of_nil in Hc.
  destruct Hc as [->|[->|[]]]; auto.
Qed.

Lemma scan_number_literal s text rest :
  scan_number s = Some (text, rest) -> s = text ++ rest /\ exists l, literal_ok l /\ text = literal_text l.
Proof.
  unfold scan_number. destruct (optional ["-"%char] s) as [sign s1] eqn:Es. apply optional_spec in Es as [-> Hs].
  assert (exists n : bool, sign = if n then ["-"%char] else []) as [n ->].
  { destruct Hs as [->|(c & Hc & ->)]; [by exists false|]. apply list_elem_of_singleton in Hc as ->. by exists true. }
  destruct (scan_integer s1) as [[int s2]|] eqn:Ei; [|done].
  destruct (scan_fraction s2) as [[frac s3]|] eqn:Ef; [|done].
  destruct (scan_exponent s3) as [[exp s4]|] eqn:Ee; [|done]. intros [= <- <-].
  apply scan_integer_spec in Ei as (-> & Hi & Hne). apply scan_fraction_spec in Ef as (-> & f & Hf & ->).
  apply scan_exponent_spec in Ee as (-> & He). split; [by rewrite <- !app_assoc|].
  destruct He as [->|(mark & sign & ds & -> & Hm & Hsg & Hd & Hdne)].
  - exists (MkLiteral n int f None). split; [by split|]. unfold literal_text, frac_text, exp_text. cbn. by destruct f.
  - exists (MkLiteral n int f (Some (mark, sign, ds))). split; [by split|].
    unfold literal_text, frac_text, exp_text. cbn. by destruct f.
Qed.

(** ** Values *)

Section jvalue_ind.
Variable P : jvalue -> Prop.
Hypotheses (Hnull : P VNull) (Hfalse : P VFalse) (Htrue : P VTrue) (Hnum : forall l, P (VNumber l))
  (Htext : forall t, P (VText t)) (Harr : forall vs, Forall P vs -> P (VArray vs))
  (Hobj : forall ms, Forall (fun m => P (snd m)) ms -> P (VMembers ms)).

Fixpoint jvalue_nested_ind (v : jvalue) : P v :=
  match v with
  | VNull => Hnull | VFalse => Hfalse | VTrue => Htrue
  | VNumber l => Hnum l | VText t => Htext t
  | VArray vs => Harr vs ((fix all vs : Forall P vs :=
      match vs with [] => Forall_nil_2 _ | v :: more => Forall_cons_2 _ _ _ (jvalue_nested_ind v) (all more) end) vs)
  | VMembers ms => Hobj ms ((fix all ms : Forall (fun m => P (snd m)) ms :=
      match ms with [] => Forall_nil_2 _ | m :: more => Forall_cons_2 _ _ _ (jvalue_nested_ind (snd m)) (all more) end) ms)
  end.
End jvalue_ind.

(** A value as the reader gives it: literals of the grammar, unique names. *)
Fixpoint value_ok (v : jvalue) : Prop :=
  match v with
  | VNumber l => exists lit, literal_ok lit /\ l = literal_text lit
  | VArray vs => (fix all vs := match vs with [] => True | v :: more => value_ok v /\ all more end) vs
  | VMembers ms =>
      NoDup (map fst ms) /\
      (fix all ms := match ms with [] => True | m :: more => value_ok (snd m) /\ all more end) ms
  | _ => True
  end.

Lemma value_ok_array vs : value_ok (VArray vs) <-> Forall value_ok vs.
Proof. cbn. induction vs as [|v vs IH]; [by split|]. rewrite Forall_cons, IH. done. Qed.

Lemma value_ok_members ms : value_ok (VMembers ms) <-> NoDup (map fst ms) /\ Forall (fun m => value_ok (snd m)) ms.
Proof.
  cbn. apply and_iff_compat_l. induction ms as [|m ms IH]; [by split|]. rewrite Forall_cons, IH. done.
Qed.

Lemma has_name_spec name ms : has_name name ms = false -> name ∉ map fst ms.
Proof.
  intros H Hin. apply list_elem_of_fmap in Hin as (m & -> & Hm).
  unfold has_name in H. rewrite <- not_true_iff_false in H. apply H. apply existsb_exists.
  exists m. split; [by apply list_elem_of_In|]. by apply bool_decide_eq_true_2.
Qed.

Lemma parse_ok fuel :
  (forall depth s v rest, parse_value true fuel depth s = Some (v, rest) -> value_ok v) /\
  (forall depth s acc vs rest, Forall value_ok acc -> parse_elements true fuel depth s acc = Some (vs, rest) -> Forall value_ok vs) /\
  (forall depth s acc ms rest, value_ok (VMembers acc) -> parse_members true fuel depth s acc = Some (ms, rest) ->
     value_ok (VMembers ms)).
Proof.
  induction fuel as [|n (IHv & IHe & IHm)]; [done|]. split; [|split].
  - intros depth s v rest H. cbn [parse_value] in H. destruct s as [|c r]; [done|].
    destruct (Ascii.eqb c dquote).
    { destruct (scan_text true (c :: r)) as [[t r']|]; [|done]. by injection H as <- _. }
    destruct (Ascii.eqb c "{"%char).
    { destruct depth as [|d]; [done|]. destruct (expect "}"%char (skip_ws r)) as [r'|].
      - injection H as <- _. apply value_ok_members. split; constructor.
      - destruct (parse_members true n d r []) as [[ms r']|] eqn:E; [|done]. injection H as <- _.
        eapply IHm; [|exact E]. apply value_ok_members. split; constructor. }
    destruct (Ascii.eqb c "["%char).
    { destruct depth as [|d]; [done|]. destruct (expect "]"%char (skip_ws r)) as [r'|]; [by injection H as <- _|].
      destruct (parse_elements true n d r []) as [[vs r']|] eqn:E; [|done]. injection H as <- _.
      apply value_ok_array. eapply IHe; [constructor|exact E]. }
    unfold scan_literal in H.
    destruct (Ascii.eqb c "n"%char); [destruct (strip_prefix _ _); [by injection H as <- _|done]|].
    destruct (Ascii.eqb c "t"%char); [destruct (strip_prefix _ _); [by injection H as <- _|done]|].
    destruct (Ascii.eqb c "f"%char); [destruct (strip_prefix _ _); [by injection H as <- _|done]|].
    destruct (scan_number (c :: r)) as [[l r']|] eqn:E; [|done]. injection H as <- _.
    by apply scan_number_literal in E as [_ H].
  - intros depth s acc vs rest Hacc H. cbn [parse_elements] in H.
    destruct (parse_value true n depth (skip_ws s)) as [[v r]|] eqn:E; [|done]. apply IHv in E.
    assert (Hacc' : Forall value_ok (acc ++ [v])) by (apply Forall_app; split; [done|by constructor]).
    destruct (expect "]"%char (skip_ws r)); [by injection H as <- _|].
    destruct (expect ","%char (skip_ws r)); [|done]. by eapply IHe.
  - intros depth s acc ms rest Hacc H. cbn [parse_members] in H.
    destruct (scan_text true (skip_ws s)) as [[name r]|]; [|done]. destruct (expect ":"%char (skip_ws r)) as [r1|]; [|done].
    destruct (true && has_name name acc) eqn:Hn; [done|]. apply has_name_spec in Hn.
    destruct (parse_value true n depth (skip_ws r1)) as [[v r2]|] eqn:E; [|done]. apply IHv in E.
    assert (Hacc' : value_ok (VMembers (acc ++ [(name, v)]))).
    { apply value_ok_members in Hacc as [H1 H2]. apply value_ok_members. rewrite map_app. split.
      - apply NoDup_app. split; [done|]. split; [|apply NoDup_singleton]. by intros x Hx ->%list_elem_of_singleton.
      - apply Forall_app. split; [done|by constructor]. }
    destruct (expect "}"%char (skip_ws r2)); [by injection H as <- _|].
    destruct (expect ","%char (skip_ws r2)); [|done]. by eapply IHm.
Qed.

Lemma parse_json_ok s v : parse_json s = Some v -> value_ok v.
Proof.
  unfold parse_json, read_json. destruct (parse_value _ _ _ _) as [[w rest]|] eqn:E; [|done].
  destruct (skip_ws rest); [|done]. intros [= <-]. by eapply parse_ok in E.
Qed.

(** Equality of JSON values: numbers by value, members without regard to order. *)
Inductive json_same : jvalue -> jvalue -> Prop :=
| same_null : json_same VNull VNull
| same_false : json_same VFalse VFalse
| same_true : json_same VTrue VTrue
| same_num a b : literal_ok a -> literal_ok b -> same_number (literal_value a) (literal_value b) ->
    json_same (VNumber (literal_text a)) (VNumber (literal_text b))
| same_text t : json_same (VText t) (VText t)
| same_array ls rs : Forall2 json_same ls rs -> json_same (VArray ls) (VArray rs)
| same_members ls rs : length ls = length rs ->
    Forall (fun m => exists r, (fst m, r) ∈ rs /\ json_same (snd m) r) ls ->
    json_same (VMembers ls) (VMembers rs).

Lemma find_member_elem name ms v : find_member name ms = Some v -> (name, v) ∈ ms.
Proof.
  induction ms as [|[n w] ms IH]; [done|]. cbn. case_bool_decide as E; [intros [= ->]; subst; left|].
  intros H. right. by apply IH.
Qed.

Lemma find_member_lookup name ms v : NoDup (map fst ms) -> (name, v) ∈ ms -> find_member name ms = Some v.
Proof.
  induction ms as [|[n w] ms IH]; [by intros _ ?%not_elem_of_nil|]. cbn. intros [Hn Hd]%NoDup_cons.
  intros [[= -> ->]|Hin]%elem_of_cons; [by rewrite bool_decide_eq_true_2|].
  rewrite bool_decide_eq_false_2; [by apply IH|]. intros ->. apply Hn. apply list_elem_of_fmap. by exists (name, v).
Qed.

Lemma same_num_inv a b :
  literal_ok a -> literal_ok b ->
  json_same (VNumber (literal_text a)) (VNumber (literal_text b)) <-> same_number (literal_value a) (literal_value b).
Proof.
  intros Ha Hb. split; [|by constructor]. intros H. inversion H as [| | |a' b' Ha' Hb' Hs Ea Eb| | |].
  destruct (equal_literals a b Ha Hb) as (eq & E & Heq). destruct (equal_literals a' b' Ha' Hb') as (eq' & E' & Heq').
  rewrite Ea, Eb, E in E'. injection E' as <-. apply Heq. by apply Heq'.
Qed.

(** The comparison always answers on values that were read, and decides equality. *)
Lemma equal_values_spec l : forall r,
  value_ok l -> value_ok r -> exists eq, equal_values l r = Ok eq /\ (eq = true <-> json_same l r).
Proof.
  assert (Hno : forall l r, equal_values l r = Ok false -> ~ json_same l r ->
            exists eq, equal_values l r = Ok eq /\ (eq = true <-> json_same l r)).
  { intros ? ? E H. exists false. split; [done|]. by split; [|intros ?%H]. }
  assert (Hyes : forall l r, equal_values l r = Ok true -> json_same l r ->
            exists eq, equal_values l r = Ok eq /\ (eq = true <-> json_same l r)) by (intros; by exists true).
  induction l as [| | |l|t|ls IH|ls IH] using jvalue_nested_ind; intros r Hl Hr.
  1-3: destruct r; [by apply Hyes; [done|constructor] || (apply Hno; [done|by inversion 1])..].
  - destruct r; try (apply Hno; [done|by inversion 1]). destruct Hl as (a & Ha & ->), Hr as (b & Hb & ->).
    destruct (equal_literals a b Ha Hb) as (eq & E & Heq). exists eq. split; [exact E|]. by rewrite same_num_inv.
  - destruct r as [| | | |t'| |]; try (apply Hno; [done|by inversion 1]). cbn.
    eexists. split; [reflexivity|]. rewrite bool_decide_eq_true. split; [intros ->; constructor|by inversion 1].
  - destruct r as [| | | | |rs|]; try (apply Hno; [done|by inversion 1]).
    apply value_ok_array in Hl, Hr. cbn [equal_values].
    destruct (Nat.eqb_spec (length ls) (length rs)) as [Hlen|Hlen]; cbn [negb].
    2: { exists false. split; [done|]. split; [done|]. inversion 1 as [| | | | |? ? HF|]. by apply Forall2_length in HF. }
    set (loop := fix elements (ls rs : list jvalue) : cres bool := _).
    assert (Hloop : forall ls rs, Forall (fun l => forall r, value_ok l -> value_ok r ->
        exists eq, equal_values l r = Ok eq /\ (eq = true <-> json_same l r)) ls -> length ls = length rs ->
      Forall value_ok ls -> Forall value_ok rs ->
      exists eq, loop ls rs = Ok eq /\ (eq = true <-> Forall2 json_same ls rs)).
    { clear. induction ls as [|l ls IH]; intros [|r rs] HIH Hlen Hl Hr; try done; [exists true; split; [done|]; by split|].
      apply Forall_cons in HIH as [H1 HIH], Hl as [Hl1 Hl], Hr as [Hr1 Hr]. injection Hlen as Hlen.
      destruct (H1 r Hl1 Hr1) as (eq & E & Heq). cbn. rewrite E. cbn [bind].
      destruct eq; [destruct (IH rs HIH Hlen Hl Hr) as (eq' & E' & Heq')|].
      - exists eq'. split; [exact E'|]. rewrite Heq'. split; [intros HF; constructor; [by apply Heq|done]|by inversion 1].
      - exists false. split; [done|]. split; [done|]. inversion 1; subst. by apply Heq. }
    destruct (Hloop ls rs IH Hlen Hl Hr) as (eq & E & Heq). exists eq. split; [exact E|]. rewrite Heq.
    split; [by constructor|by inversion 1].
  - destruct r as [| | | | | |rs]; try (apply Hno; [done|by inversion 1]).
    apply value_ok_members in Hl as [_ Hl], Hr as [Hnd Hr]. cbn [equal_values].
    destruct (Nat.eqb_spec (length ls) (length rs)) as [Hlen|Hlen]; cbn [negb].
    2: { exists false. split; [done|]. split; [done|]. by inversion 1. }
    set (loop := fix members (ls : list (bytes * jvalue)) : cres bool := _).
    assert (Hloop : exists eq, loop ls = Ok eq /\
      (eq = true <-> Forall (fun m => exists r, (fst m, r) ∈ rs /\ json_same (snd m) r) ls)).
    { clear Hlen. induction ls as [|[name v] ls IHls]; [exists true; split; [done|]; by split|].
      apply Forall_cons in IH as [H1 IH], Hl as [Hl1 Hl]. cbn in H1, Hl1. cbn.
      destruct (find_member name rs) as [r|] eqn:Ef.
      - pose proof (find_member_elem _ _ _ Ef) as Hin. rewrite Forall_forall in Hr. pose proof (Hr _ Hin) as Hr1. cbn in Hr1.
        destruct (H1 r Hl1 Hr1) as (eq & E & Heq). rewrite E. cbn [bind].
        assert (Hhead : (exists r, (name, r) ∈ rs /\ json_same v r) <-> eq = true).
        { rewrite Heq. split; [|by exists r]. intros (r' & Hr' & Hs).
          apply find_member_lookup in Hr'; [|done]. congruence. }
        destruct eq.
        + destruct IHls as (eq' & E' & Heq'); [done|done|]. exists eq'. split; [exact E'|]. rewrite Heq', Forall_cons. cbn [fst snd]. rewrite Hhead. tauto.
        + exists false. split; [done|]. rewrite Forall_cons. cbn [fst snd]. rewrite Hhead. split; [done|]. by intros [? _].
      - exists false. split; [done|]. split; [done|]. intros [(r & Hin & _) _]%Forall_cons. cbn in Hin.
        apply find_member_lookup in Hin; [congruence|done]. }
    destruct Hloop as (eq & E & Heq). exists eq. split; [exact E|]. rewrite Heq.
    split; [by constructor|by inversion 1].
Qed.
