(* ===== verification/Connector.v ===== *)
(** * Connector runs ([source/connector_lifecycle.go],
    [internal/runtime/connector_lifecycle.go], [connector_checkpoint_application.go])

    A run of an external connector: the session that its goroutines share, the
    calls they make on it as sequences of atomic steps (one for each critical
    section and each call of the sink), and what the runtime does when the run
    returns.  Ingestion and the checkpoint store are the classes [Ingestion] and
    [CheckpointStore]; an admitted observation is known by its validation and its
    reference. *)

From S2P Require Import Prelude.
From S2P Require Import GoStrings.
From S2P Require Import Refs.
From S2P Require Import Json.
From S2P Require Import JsonText.
From S2P Require Import Checkpoint.

(** ** Outcomes *)

Inductive SubmissionStatus := SubAccepted | SubRejected | SubFailed | OtherSubmission (s : string).
Inductive RunStatus := RunComplete | RunIncomplete | OtherRun (s : string).

#[export] Instance submission_status_eq_dec : EqDecision SubmissionStatus.
Proof. solve_decision. Defined.
#[export] Instance run_status_eq_dec : EqDecision RunStatus.
Proof. solve_decision. Defined.

Record ItemOutcome := MkOutcome {
  itemID : string; definitionName : string; io_status : SubmissionStatus;
  io_sourceRef : option Source.Ref; io_detail : option string
}.

#[export] Instance item_outcome_eq_dec : EqDecision ItemOutcome.
Proof. solve_decision. Defined.

Definition acceptedConnectorOutcome (item definition : string) (ref : Source.Ref) : ItemOutcome :=
  MkOutcome item definition SubAccepted (Some ref) None.
Definition unsafeConnectorOutcome (item definition : string) (status : SubmissionStatus) (detail : string)
  : ItemOutcome :=
  MkOutcome item definition status None (Some detail).

Definition validate_outcome (o : ItemOutcome) : cres unit :=
  let* _ := validateConnectorRunText "item_id" (itemID o) Source.MaxIDLength in
  let* _ := validateConnectorRunText "definition" (definitionName o) Source.MaxTypeLength in
  match io_status o with
  | SubAccepted =>
      match io_sourceRef o, io_detail o with
      | Some ref, None =>
          require is_ok (Source.NewRef (Source.sourceType ref) (Source.sourceID ref))
            else ERun "source_ref" "must be valid" in
          require String.eqb (Source.sourceType ref) (definitionName o)
            else ERun "source_ref" "must match the declared Source Definition" in
          Ok tt
      | _, _ => connectorRunError "item" "accepted outcomes must contain exactly one Source reference"
      end
  | SubRejected | SubFailed =>
      match io_sourceRef o, io_detail o with
      | None, Some detail => validateConnectorRunText "detail" detail Source.MaxIDLength
      | _, _ => connectorRunError "item" "unsafe outcomes must contain one detail and no Source reference"
      end
  | OtherSubmission _ => connectorRunError "status" "must be accepted, rejected, or failed"
  end.

(** ** Completions and results *)

Definition validConnectorRunStatus (status : RunStatus) : bool :=
  match status with RunComplete | RunIncomplete => true | OtherRun _ => false end.

Record RunCompletion := MkCompletion { cp_status : RunStatus; cp_checkpoint : ConnectorCheckpoint }.

Definition NewConnectorRunCompletion (status : RunStatus) (checkpoint : bytes) : cres RunCompletion :=
  require validConnectorRunStatus status else ERun "status" "must be complete or incomplete" in
  let* value := NewConnectorCheckpoint checkpoint in
  Ok (MkCompletion status value).

Definition validate_completion (c : RunCompletion) : cres unit :=
  require validConnectorRunStatus (cp_status c) else ERun "status" "must be complete or incomplete" in
  require found (cp_checkpoint c) else ERun "checkpoint" "must contain a JSON value" in
  validate_checkpoint (cp_checkpoint c).

Record RunResult := MkResult {
  rr_binding : ConnectorBinding; rr_status : RunStatus;
  rr_previous : ConnectorCheckpoint; rr_proposed : ConnectorCheckpoint; rr_committed : ConnectorCheckpoint;
  rr_items : list ItemOutcome
}.

Definition check_item (seen : gset string) (item : ItemOutcome) : cres (gset string) :=
  let* _ := validate_outcome item in
  require negb (bool_decide (itemID item ∈ seen)) else ERun "items" "must not contain duplicate item identifiers" in
  Ok ({[itemID item]} ∪ seen).

Definition NewConnectorRunResult (binding : ConnectorBinding) (status : RunStatus)
    (previous proposed committed : ConnectorCheckpoint) (items : list ItemOutcome) : cres RunResult :=
  let* _ := validate_binding binding in
  require validConnectorRunStatus status else ERun "status" "must be complete or incomplete" in
  let* _ := validate_checkpoint previous in
  let* _ := validate_checkpoint proposed in
  let* _ := validate_checkpoint committed in
  require found proposed else ERun "proposed_checkpoint" "must contain a JSON value" in
  let* _ := fold_res check_item ∅ items in
  Ok (MkResult binding status previous proposed committed items).

(** ** Declarations *)

Definition declare_one (declared : gset string) (name : string) : cres (gset string) :=
  let* _ := validateConnectorRunText "definition" name Source.MaxTypeLength in
  require negb (bool_decide (name ∈ declared)) else ERun "source_definitions" "must not contain duplicates" in
  Ok ({[name]} ∪ declared).

Definition declaredConnectorDefinitions (values : list string) : cres (gset string) :=
  require negb (bool_decide (values = [])) else ERun "source_definitions" "must not be empty" in
  fold_res declare_one ∅ values.

(** The declaration of a connector. *)
Record Declaration := MkDeclaration { dc_Name : string; dc_Version : string; dc_SourceDefinitions : list string }.

Definition ValidateConnector (connector : option Declaration) (binding : ConnectorBinding) : cres (list string) :=
  let* _ := validate_binding binding in
  let* c := of_option connector (EConnector "connector" "must not be nil") in
  require String.eqb (dc_Name c) (connectorName binding) else EConnector "name" "must match the binding" in
  require String.eqb (dc_Version c) (connectorVersion binding) else EConnector "version" "must match the binding" in
  let* _ := map_err (fun _ => EConnector "source_definitions" "must contain unique, non-empty trimmed names")
              (declaredConnectorDefinitions (dc_SourceDefinitions c)) in
  Ok (dc_SourceDefinitions c).

(** ** The session *)

Record Session := MkSession {
  ss_binding : ConnectorBinding; ss_checkpoint : ConnectorCheckpoint; ss_definitions : gset string;
  ss_outcomes : gmap Z ItemOutcome; ss_itemIDs : gmap string Z; ss_next : Z;
  ss_failure : option connector_error; ss_closed : bool; ss_inFlight : Z; ss_drained : bool
}.

Definition NewConnectorRunSession (binding : ConnectorBinding) (checkpoint : ConnectorCheckpoint)
    (definitions : list string) : cres Session :=
  let* _ := validate_binding binding in
  let* _ := validate_checkpoint checkpoint in
  let* declared := declaredConnectorDefinitions definitions in
  Ok (MkSession binding checkpoint declared ∅ ∅ 0 None false 0 false).

Definition recordFailure (e : connector_error) (s : Session) : Session :=
  match ss_failure s with
  | Some _ => s
  | None => MkSession (ss_binding s) (ss_checkpoint s) (ss_definitions s) (ss_outcomes s) (ss_itemIDs s)
              (ss_next s) (Some e) (ss_closed s) (ss_inFlight s) (ss_drained s)
  end.

Definition recordOutcome (sequence : Z) (o : ItemOutcome) (s : Session) : Session :=
  MkSession (ss_binding s) (ss_checkpoint s) (ss_definitions s) (<[sequence := o]> (ss_outcomes s)) (ss_itemIDs s)
    (ss_next s) (ss_failure s) (ss_closed s) (ss_inFlight s) (ss_drained s).

(** [drained] is closed once the session is closed and nothing is in flight. *)
Definition finishDrainLocked (s : Session) : Session :=
  MkSession (ss_binding s) (ss_checkpoint s) (ss_definitions s) (ss_outcomes s) (ss_itemIDs s)
    (ss_next s) (ss_failure s) (ss_closed s) (ss_inFlight s)
    (ss_drained s || (ss_closed s && (ss_inFlight s =? 0))).

Definition settleSubmission (s : Session) : Session :=
  finishDrainLocked
    (MkSession (ss_binding s) (ss_checkpoint s) (ss_definitions s) (ss_outcomes s) (ss_itemIDs s)
       (ss_next s) (ss_failure s) (ss_closed s) (ss_inFlight s - 1) (ss_drained s)).

(** The critical section of [Finalize]; it then waits for [ss_drained]. *)
Definition close_session (s : Session) : Session :=
  finishDrainLocked
    (MkSession (ss_binding s) (ss_checkpoint s) (ss_definitions s) (ss_outcomes s) (ss_itemIDs s)
       (ss_next s) (ss_failure s) true (ss_inFlight s) (ss_drained s)).

Definition claim (item definition : string) (tracksSettlement : bool) (s : Session) : cres (Z * Session) :=
  let* _ := validateConnectorRunText "item_id" item Source.MaxIDLength in
  require negb (ss_closed s) else ERun "session" "is closed" in
  require negb (bool_decide (is_Some (ss_itemIDs s !! item)))
    else ERun "duplicate_item" "must not be submitted more than once" in
  require bool_decide (definition ∈ ss_definitions s) else ERun "definition" "was not declared by the Connector" in
  Ok (ss_next s,
      MkSession (ss_binding s) (ss_checkpoint s) (ss_definitions s) (ss_outcomes s)
        (<[item := ss_next s]> (ss_itemIDs s)) (ss_next s + 1) (ss_failure s) (ss_closed s)
        (if tracksSettlement then ss_inFlight s + 1 else ss_inFlight s) (ss_drained s)).

Definition seq_le (a b : Z * ItemOutcome) : Prop := fst a <= fst b.
#[export] Instance seq_le_dec a b : Decision (seq_le a b).
Proof. unfold seq_le. apply _. Defined.

(** In claim order. *)
Definition Outcomes (s : Session) : list ItemOutcome :=
  map snd (merge_sort seq_le (map_to_list (ss_outcomes s))).

(** ** The sink *)

(** Errors of durable acceptance, by the types that the runtime tells apart. *)
Inductive ing_error :=
| IngCanceled | IngInvalidObservation | IngDefinitionNotFound | IngDefinitionConflict
| IngObservationConflict | IngUnaccepted | IngOther (what : string).

Class Ingestion (DB O : Type) := {
  obs_Validate : O -> cres unit;
  obs_Ref : O -> Source.Ref;
  (** [SubmitAccepted] gives a receipt's reference *)
  SubmitAccepted : DB -> string -> O -> DB * (ing_error + Source.Ref);
  (** what a store holds *)
  durable : DB -> Source.Ref -> Prop
}.

(** Acceptance is durable, and nothing accepted is lost. *)
Class IngestionLaws (DB O : Type) `{Ingestion DB O} := {
  accepted_durable db scope o db' ref : SubmitAccepted db scope o = (db', inr ref) -> durable db' ref;
  durable_kept db scope o db' r ref : SubmitAccepted db scope o = (db', r) -> durable db ref -> durable db' ref
}.

Definition isConnectorSubmissionRejection (e : ing_error) : bool :=
  match e with IngCanceled | IngOther _ => false | _ => true end.

Definition ing_err (e : ing_error) : connector_error :=
  match e with
  | IngCanceled => ECanceled
  | IngInvalidObservation => EObservation "invalid"
  | IngDefinitionNotFound => EObservation "definition not found"
  | IngDefinitionConflict => EObservation "definition conflict"
  | IngObservationConflict => EObservation "observation conflict"
  | IngUnaccepted => EObservation "unaccepted"
  | IngOther what => EObservation what
  end.

Definition rejection_detail : string := "durable Source acceptance rejected".

Section lifecycle.
Context {DB O : Type} {IG : Ingestion DB O}.

(** [connectorIngestionSink.Submit] *)
Definition sink_submit (db : DB) (binding : ConnectorBinding) (definition : string) (o : O) : DB * cres Source.Ref :=
  match validate_binding binding with
  | Err e => (db, Err e)
  | Ok _ =>
      match obs_Validate o with
      | Err e => (db, Err e)
      | Ok _ =>
          if negb (String.eqb (Source.sourceType (obs_Ref o)) definition)
          then (db, connectorRunError "source_ref" "must match the declared Source Definition")
          else
            match SubmitAccepted db (scopeID binding) o with
            | (db', inl e) =>
                (db', Err (if isConnectorSubmissionRejection e then ERejected rejection_detail else ing_err e))
            | (db', inr ref) =>
                (db', if bool_decide (ref = obs_Ref o) then Ok ref
                      else connectorRunError "source_ref" "durable acceptance returned a different Source reference")
            end
      end
  end.

Definition validateConnectorReturnedRef (actual expected : Source.Ref) (definition : string) : cres unit :=
  require is_ok (Source.NewRef (Source.sourceType actual) (Source.sourceID actual)) &&
          String.eqb (Source.sourceType actual) definition && bool_decide (actual = expected)
    else ERun "source_ref" "must match the accepted observation" in
  Ok tt.

(** ** Calls as threads *)

Inductive call :=
| CSubmit (item definition : string) (o : O)
| CReject (item definition detail : string)
| CFail (item definition detail : string).

(** Where a call is: the local state of its goroutine between critical sections. *)
Inductive phase :=
| PStart
| PClaimed
| PReturned (r : cres Source.Ref)        (** the sink has answered *)
| PFailing (e : connector_error)         (** about to record a failure *)
| PSettling (r : cres ItemOutcome)       (** the deferred settlement *)
| PDone (r : cres ItemOutcome).

Record Thread := MkThread { t_call : call; t_seq : option Z; t_phase : phase }.

Definition call_item (c : call) : string :=
  match c with CSubmit i _ _ | CReject i _ _ | CFail i _ _ => i end.
Definition call_definition (c : call) : string :=
  match c with CSubmit _ d _ | CReject _ d _ | CFail _ d _ => d end.
Definition is_submit (c : call) : bool := match c with CSubmit _ _ _ => true | _ => false end.

Definition to_phase (p : phase) (t : Thread) : Thread := MkThread (t_call t) (t_seq t) p.

(** A failure is recorded; a submission that claimed its item has still to settle. *)
Definition after_failure (t : Thread) (e : connector_error) : phase :=
  if is_submit (t_call t) && bool_decide (is_Some (t_seq t)) then PSettling (Err e) else PDone (Err e).

Definition unsafe_step (s : Session) (db : DB) (t : Thread) (sequence : Z) (status : SubmissionStatus) (detail : string)
  : Session * DB * Thread :=
  match validateConnectorRunText "detail" detail Source.MaxIDLength with
  | Err e => (s, db, to_phase (PFailing e) t)
  | Ok _ =>
      let outcome := unsafeConnectorOutcome (call_item (t_call t)) (call_definition (t_call t)) status detail in
      (recordOutcome sequence outcome s, db, to_phase (PDone (Ok outcome)) t)
  end.

(** The next step of a call: [Submit], and [recordUnsafe] for [Reject] and [Fail]. *)
Definition advance (s : Session) (db : DB) (t : Thread) : option (Session * DB * Thread) :=
  let item := call_item (t_call t) in
  let definition := call_definition (t_call t) in
  match t_phase t, t_seq t with
  | PStart, _ =>
      Some match claim item definition (is_submit (t_call t)) s with
           | Ok (sequence, s') => (s', db, MkThread (t_call t) (Some sequence) PClaimed)
           | Err e => (s, db, to_phase (PFailing e) t)
           end
  | PClaimed, Some sequence =>
      Some match t_call t with
           | CSubmit _ _ o =>
               match obs_Validate o with
               | Err _ => (s, db, to_phase (PFailing (ERun "observation" "must be admitted and valid")) t)
               | Ok _ =>
                   if negb (String.eqb (Source.sourceType (obs_Ref o)) definition)
                   then (s, db, to_phase (PFailing (ERun "source_ref" "must match the declared Source Definition")) t)
                   else let (db', r) := sink_submit db (ss_binding s) definition o in
                        (s, db', to_phase (PReturned r) t)
               end
           | CReject _ _ detail => unsafe_step s db t sequence SubRejected detail
           | CFail _ _ detail => unsafe_step s db t sequence SubFailed detail
           end
  | PReturned r, Some sequence =>
      Some match t_call t, r with
           | CSubmit _ _ o, Ok ref =>
               match validateConnectorReturnedRef ref (obs_Ref o) definition with
               | Err e => (s, db, to_phase (PFailing e) t)
               | Ok _ =>
                   let outcome := acceptedConnectorOutcome item definition ref in
                   (recordOutcome sequence outcome s, db, to_phase (PSettling (Ok outcome)) t)
               end
           | _, Err (ERejected detail) =>
               let outcome := unsafeConnectorOutcome item definition SubRejected detail in
               (recordOutcome sequence outcome s, db, to_phase (PSettling (Ok outcome)) t)
           | _, Err e => (s, db, to_phase (PFailing e) t)
           | _, Ok _ => (s, db, t)
           end
  | PFailing e, _ => Some (recordFailure e s, db, to_phase (after_failure t e) t)
  | PSettling r, _ => Some (settleSubmission s, db, to_phase (PDone r) t)
  | _, _ => None
  end.

(** ** Runs *)

Record World := MkWorld { w_session : Session; w_db : DB; w_threads : list Thread }.

(** Any goroutine may call the session, before and after it is closed; any call
    may take its next step; [Finalize] may close the session. *)
Inductive world_step : World -> World -> Prop :=
| step_call s db ts c : world_step (MkWorld s db ts) (MkWorld s db (ts ++ [MkThread c None PStart]))
| step_advance s db ts i t s' db' t' :
    ts !! i = Some t -> advance s db t = Some (s', db', t') ->
    world_step (MkWorld s db ts) (MkWorld s' db' (<[i := t']> ts))
| step_close s db ts : world_step (MkWorld s db ts) (MkWorld (close_session s) db ts).

Inductive world_steps : World -> World -> Prop :=
| steps_refl w : world_steps w w
| steps_more w1 w2 w3 : world_step w1 w2 -> world_steps w2 w3 -> world_steps w1 w3.

(** ** Concluding a run *)

Class CheckpointStore (CS : Type) := {
  cs_Load : CS -> ConnectorBinding -> cres ConnectorCheckpoint;
  (** next, then expected *)
  cs_Save : CS -> ConnectorBinding -> ConnectorCheckpoint -> ConnectorCheckpoint -> cres CS
}.

Definition is_unsafe (o : ItemOutcome) : bool :=
  match io_status o with SubRejected | SubFailed => true | _ => false end.

(** The rest of [ConnectorLifecycleApplication.Run] once the connector has returned
    [ran]: [finalized] is the answer of [Finalize] and of the context after it, and
    [failure] and [items] are what it then reads from the session. *)
Definition conclude {CS} `{CheckpointStore CS} (cs : CS) (binding : ConnectorBinding)
    (previous : ConnectorCheckpoint) (ran : cres RunCompletion) (finalized : cres unit)
    (failure : option connector_error) (items : list ItemOutcome) : CS * cres RunResult :=
  match (let* completion := ran in
         let* _ := finalized in
         let* _ := match failure with Some e => Err e | None => Ok tt end in
         let* _ := validate_completion completion in
         let* proposed := NewConnectorCheckpoint (value (cp_checkpoint completion)) in
         Ok (completion, proposed)) with
  | Err e => (cs, Err e)
  | Ok (completion, proposed) =>
      if existsb is_unsafe items
      then (cs, NewConnectorRunResult binding RunIncomplete previous proposed previous items)
      else if bool_decide (cp_status completion = RunComplete)
      then
        match EqualConnectorCheckpoints previous proposed with
        | Err e => (cs, Err e)
        | Ok true => (cs, NewConnectorRunResult binding (cp_status completion) previous proposed previous items)
        | Ok false =>
            match cs_Save cs binding proposed previous with
            | Err e => (cs, Err e)
            | Ok cs' => (cs', NewConnectorRunResult binding (cp_status completion) previous proposed proposed items)
            end
        end
      else (cs, NewConnectorRunResult binding (cp_status completion) previous proposed previous items)
  end.

(** What [Run] does before it calls the connector; [resolved] is the answer of the
    runtime's scope resolution. *)
Definition start_run {CS} `{CheckpointStore CS} (cs : CS) (resolved : cres unit) (connector : option Declaration)
    (binding : ConnectorBinding) : cres (ConnectorCheckpoint * Session) :=
  let* _ := validate_binding binding in
  let* _ := resolved in
  let* definitions := ValidateConnector connector binding in
  let* previous := cs_Load cs binding in
  let* session := NewConnectorRunSession binding previous definitions in
  Ok (previous, session).

(** [ConnectorCheckpointApplication.Commit], inside its scoped transaction. *)
Definition null_text : bytes := bytes_of "null".

Definition CommitCheckpoint {CS} `{CheckpointStore CS} (cs : CS) (binding : ConnectorBinding)
    (checkpoint expected : bytes) : CS * cres ConnectorCheckpoint :=
  match (let* _ := validate_binding binding in
         let* next := NewConnectorCheckpoint checkpoint in
         let* comparison := NewConnectorCheckpoint expected in
         let* actual := cs_Load cs binding in
         let* comparable := if found actual then Ok actual else NewConnectorCheckpoint null_text in
         let* equal := EqualConnectorCheckpoints comparable comparison in
         require equal else EStore "checkpoint conflict" in
         let* cs' := cs_Save cs binding next actual in
         Ok (cs', next)) with
  | Err e => (cs, Err e)
  | Ok (cs', next) => (cs', Ok next)
  end.
End lifecycle.
Arguments call : clear implicits.
Arguments Thread : clear implicits.
Arguments World : clear implicits.
