(* ===== verification/ConnectorFacts.v ===== *)
(** * Facts about connector runs: the invariant of a session and its calls *)

From S2P Require Import Prelude.
From S2P Require Import GoStrings.
From S2P Require Import Refs.
From S2P Require Import Json.
From S2P Require Import JsonText.
From S2P Require Import Checkpoint.
From S2P Require Import Connector.

Section invariant.
Context {DB O : Type} {IG : Ingestion DB O} {IL : IngestionLaws DB O}.

Implicit Types (t : Thread O) (s : Session) (w : World DB O).

(** ** Calls in flight *)

(** Submissions that claimed their item and have not settled. *)
Definition inflight t : bool :=
  is_submit (t_call t) &&
  match t_seq t, t_phase t with None, _ | _, PDone _ => false | _, _ => true end.

Definition flight_count (ts : list (Thread O)) : Z := tally inflight ts.

(** ** One call *)

(** An outcome that a call may record: well formed, and durable if accepted. *)
Record outcome_for (db : DB) (c : call O) (o : ItemOutcome) : Prop := {
  of_item : itemID o = call_item c /\ definitionName o = call_definition c;
  of_valid : validate_outcome o = Ok tt;
  of_accepted : io_status o = SubAccepted ->
    exists obs, c = CSubmit (itemID o) (definitionName o) obs /\
      io_sourceRef o = Some (obs_Ref obs) /\ durable db (obs_Ref obs)
}.

Definition claimed_ok s t (q : Z) : Prop :=
  ss_itemIDs s !! call_item (t_call t) = Some q /\ call_definition (t_call t) ∈ ss_definitions s /\
  validateConnectorRunText "item_id" (call_item (t_call t)) Source.MaxIDLength = Ok tt.

(** What holds of a call in each of its phases. *)
Definition phase_ok s (db : DB) t : Prop :=
  match t_phase t with
  | PStart => t_seq t = None
  | PClaimed => is_Some (t_seq t)
  | PReturned r =>
      is_Some (t_seq t) /\ is_submit (t_call t) = true /\
      match r with
      | Ok ref => durable db ref
      | Err (ERejected d) => d = rejection_detail
      | Err _ => True
      end
  | PFailing _ => True
  | PSettling (Ok o) => is_submit (t_call t) = true /\
      exists q, t_seq t = Some q /\ ss_outcomes s !! q = Some o /\ outcome_for db (t_call t) o
  | PSettling (Err _) => is_submit (t_call t) = true /\ is_Some (t_seq t) /\ is_Some (ss_failure s)
  | PDone (Ok o) => exists q, t_seq t = Some q /\ ss_outcomes s !! q = Some o /\ outcome_for db (t_call t) o
  | PDone (Err _) => is_Some (ss_failure s)
  end.

Record thread_ok s (db : DB) t : Prop := {
  th_claimed : forall q, t_seq t = Some q -> claimed_ok s t q;
  th_phase : phase_ok s db t
}.

(** What a step keeps for the calls with the sequence numbers in [keep]. *)
Record extends (keep : Z -> Prop) s (db : DB) s' (db' : DB) : Prop := {
  ex_ids : forall item q, ss_itemIDs s !! item = Some q -> ss_itemIDs s' !! item = Some q;
  ex_definitions : ss_definitions s' = ss_definitions s;
  ex_failure : is_Some (ss_failure s) -> is_Some (ss_failure s');
  ex_outcomes : forall q o, keep q -> ss_outcomes s !! q = Some o -> ss_outcomes s' !! q = Some o;
  ex_durable : forall ref, durable db ref -> durable db' ref
}.

Lemma extends_same keep s db : extends keep s db s db.
Proof. by split. Qed.

Lemma extends_weaken (keep keep' : Z -> Prop) s db s' db' :
  (forall q, keep' q -> keep q) -> extends keep s db s' db' -> extends keep' s db s' db'.
Proof. intros H [H1 H2 H3 H4 H5]. split; auto. Qed.

Lemma outcome_for_ext db db' c o :
  (forall ref, durable db ref -> durable db' ref) -> outcome_for db c o -> outcome_for db' c o.
Proof. intros Hd [H1 H2 H3]. split; try done. intros H. destruct (H3 H) as (obs & ? & ? & ?). eauto. Qed.

Lemma thread_ok_ext s db s' db' t :
  extends (fun q => t_seq t = Some q) s db s' db' -> thread_ok s db t -> thread_ok s' db' t.
Proof.
  intros [E1 E2 E3 E4 E5] [H1 H2]. split.
  - intros q Hq. destruct (H1 q Hq) as (? & ? & ?). unfold claimed_ok. rewrite E2. auto.
  - unfold phase_ok in *. destruct (t_phase t) as [| |[ref|[]]|e|[o|e]|[o|e]]; try done.
    + destruct H2 as (? & ? & ?). auto.
    + destruct H2 as (? & q & ? & ? & ?). split; [done|]. exists q. eauto using outcome_for_ext.
    + destruct H2 as (? & ? & ?). auto.
    + destruct H2 as (q & ? & ? & ?). exists q. eauto using outcome_for_ext.
    + auto.
Qed.

(** Definitions as a session declares them. *)
Definition definitions_ok s : Prop :=
  forall d, d ∈ ss_definitions s -> validateConnectorRunText "definition" d Source.MaxTypeLength = Ok tt.

Lemma claim_inv item definition tracks s q s' :
  claim item definition tracks s = Ok (q, s') ->
  validateConnectorRunText "item_id" item Source.MaxIDLength = Ok tt /\ ss_closed s = false /\
  ss_itemIDs s !! item = None /\ definition ∈ ss_definitions s /\ q = ss_next s /\
  s' = MkSession (ss_binding s) (ss_checkpoint s) (ss_definitions s) (ss_outcomes s)
        (<[item := ss_next s]> (ss_itemIDs s)) (ss_next s + 1) (ss_failure s) (ss_closed s)
        (if tracks then ss_inFlight s + 1 else ss_inFlight s) (ss_drained s).
Proof.
  unfold claim. intros H. bind_inv H. ok_inv. boolify. subst. destruct a.
  apply eq_None_not_Some in Ha1. repeat split; done.
Qed.

Lemma claim_extends keep item definition tracks s db q s' :
  claim item definition tracks s = Ok (q, s') -> extends keep s db s' db.
Proof.
  intros H. apply claim_inv in H as (_ & _ & Hn & _ & _ & ->). split; cbn; try done.
  intros i p Hi. rewrite lookup_insert_ne; [done|]. intros ->. congruence.
Qed.

Lemma recordFailure_extends keep s db e : extends keep s db (recordFailure e s) db.
Proof. unfold recordFailure. destruct (ss_failure s) eqn:E; [apply extends_same|]. split; cbn; try done. Qed.

Lemma recordFailure_some s e : is_Some (ss_failure (recordFailure e s)).
Proof. unfold recordFailure. destruct (ss_failure s) eqn:E; cbn; by eexists. Qed.

Lemma recordOutcome_extends s db q o :
  extends (fun p => p <> q) s db (recordOutcome q o s) db.
Proof. split; cbn; try done. intros p o' Hp H. by rewrite lookup_insert_ne. Qed.

Lemma settle_extends keep s db : extends keep s db (settleSubmission s) db.
Proof. by split. Qed.

(** ** The sink *)

Lemma sink_submit_spec db binding definition o db' r :
  obs_Validate o = Ok tt -> sink_submit db binding definition o = (db', r) ->
  (forall ref, durable db ref -> durable db' ref) /\
  match r with
  | Ok ref => durable db' ref
  | Err (ERejected d) => d = rejection_detail
  | Err _ => True
  end.
Proof.
  intros Hv. unfold sink_submit. rewrite Hv.
  destruct (validate_binding binding) as [[]|e] eqn:Eb.
  - destruct (negb _); [by intros [= <- <-]|].
    destruct (SubmitAccepted db (scopeID binding) o) as [db1 [e|ref]] eqn:Es; intros [= <- <-].
    + split; [intros ref; by eapply durable_kept|].
      destruct (isConnectorSubmissionRejection e); [done|]. by destruct e.
    + split; [intros ref'; by eapply durable_kept|]. case_bool_decide; [by eapply accepted_durable|done].
  - intros [= <- <-]. split; [done|]. unfold validate_binding in Eb.
    assert (Hi : forall f v m u, connectorIdentity f v m = Err u -> exists a b, u = EBinding a b).
    { unfold connectorIdentity. intros f v m u H.
      repeat (apply bind_err_inv in H as [H|(? & _ & H)]; [apply check_err_inv in H as [_ ->]; eauto|]).
      discriminate. }
    repeat (apply bind_err_inv in Eb as [Eb|(? & _ & Eb)]; [apply Hi in Eb as (? & ? & ->); done|]).
    apply Hi in Eb as (? & ? & ->). done.
Qed.

(** ** A step of a call *)

Lemma accepted_outcome_ok db t o definition ref q s :
  definitions_ok s -> claimed_ok s t q -> t_call t = CSubmit (call_item (t_call t)) definition o ->
  durable db ref -> validateConnectorReturnedRef ref (obs_Ref o) definition = Ok tt ->
  outcome_for db (t_call t) (acceptedConnectorOutcome (call_item (t_call t)) definition ref).
Proof.
  intros Hd (_ & Hdef & Hitem) Hc Hdur Hr. unfold validateConnectorReturnedRef in Hr. bind_inv Hr. ok_inv. boolify.
  subst ref. assert (call_definition (t_call t) = definition) as Hcd by (by rewrite Hc).
  rewrite Hcd in Hdef. split; cbn.
  - by rewrite Hcd.
  - unfold validate_outcome. cbn. rewrite Hitem, (Hd _ Hdef). cbn. by rewrite H, H1.
  - intros _. eauto.
Qed.

Lemma unsafe_outcome_ok db t status detail q s :
  definitions_ok s -> claimed_ok s t q -> status = SubRejected \/ status = SubFailed ->
  validateConnectorRunText "detail" detail Source.MaxIDLength = Ok tt ->
  outcome_for db (t_call t) (unsafeConnectorOutcome (call_item (t_call t)) (call_definition (t_call t)) status detail).
Proof.
  intros Hd (_ & Hdef & Hitem) Hs Hdet. split; cbn; [done| |by destruct Hs as [->| ->]].
  unfold validate_outcome. cbn. rewrite Hitem, (Hd _ Hdef). cbn. by destruct Hs as [->| ->].
Qed.

Lemma rejection_detail_ok : validateConnectorRunText "detail" rejection_detail Source.MaxIDLength = Ok tt.
Proof. vm_compute. reflexivity. Qed.

(** The call has settled, or is about to, with an outcome. *)
Definition settled t (o : ItemOutcome) : Prop := t_phase t = PSettling (Ok o) \/ t_phase t = PDone (Ok o).

(** The session's record of drainage is exact. *)
Definition drained_ok s : Prop := ss_drained s = ss_closed s && (ss_inFlight s =? 0).

(** What a step does to the session, to the call, and for the others. *)
Record step_ok s (db : DB) t s' (db' : DB) t' : Prop := {
  so_thread : thread_ok s' db' t';
  so_call : t_call t' = t_call t;
  so_extends : extends (fun q => t_seq t <> Some q) s db s' db';
  so_closed : ss_closed s' = ss_closed s;
  so_flight : ss_inFlight s' = ss_inFlight s - (if inflight t then 1 else 0) + (if inflight t' then 1 else 0);
  so_drained : (inflight t = true -> 1 <= ss_inFlight s) -> drained_ok s -> drained_ok s';
  so_seq : t_seq t' = t_seq t /\ ss_itemIDs s' = ss_itemIDs s /\ ss_next s' = ss_next s \/
    t_seq t = None /\ t_seq t' = Some (ss_next s) /\ ss_next s' = ss_next s + 1 /\ ss_closed s = false /\
    ss_itemIDs s' = <[call_item (t_call t) := ss_next s]> (ss_itemIDs s);
  so_outcomes : ss_outcomes s' = ss_outcomes s /\ (forall o, settled t o -> settled t' o) \/
    exists q o, t_seq t = Some q /\ ss_outcomes s' = <[q := o]> (ss_outcomes s) /\ settled t' o
}.

(** A step that leaves the session alone. *)
Lemma step_same s db t db' p :
  thread_ok s db t -> (forall ref, durable db ref -> durable db' ref) ->
  (forall o, ~ settled t o) -> (forall r, p <> PDone r) -> (forall r, t_phase t <> PDone r) ->
  phase_ok s db' (to_phase p t) -> step_ok s db t s db' (to_phase p t).
Proof.
  intros [Hc _] Hd Hs Hp Ht Hok. split; try done.
  - unfold inflight. cbn. destruct (t_seq t); [|rewrite andb_false_r; lia].
    destruct (t_phase t); try (destruct (Ht r); done); destruct p; try (destruct (Hp r); done); try (by destruct (Hp r0)); lia.
  - by left.
  - left. split; [done|]. by intros o ?%Hs.
Qed.

(** The phases from which a call goes on. *)
Definition running t : Prop :=
  match t_phase t with PSettling _ | PDone _ => False | _ => True end.

Lemma running_step_same s db t db' p :
  thread_ok s db t -> (forall ref, durable db ref -> durable db' ref) -> running t ->
  (forall r, p <> PDone r) -> phase_ok s db' (to_phase p t) -> step_ok s db t s db' (to_phase p t).
Proof.
  intros Ht Hd Hr Hp Hok. apply step_same; try done; unfold running in Hr.
  - intros o [E|E]; by rewrite E in Hr.
  - intros r E. by rewrite E in Hr.
Qed.

Lemma step_failing s db t e : thread_ok s db t -> running t -> step_ok s db t s db (to_phase (PFailing e) t).
Proof. intros. by apply running_step_same. Qed.

Lemma step_claim s db t q s' :
  thread_ok s db t -> t_phase t = PStart ->
  claim (call_item (t_call t)) (call_definition (t_call t)) (is_submit (t_call t)) s = Ok (q, s') ->
  step_ok s db t s' db (MkThread (t_call t) (Some q) PClaimed).
Proof.
  intros [_ Hp] E Hcl. unfold phase_ok in Hp. rewrite E in Hp.
  pose proof (claim_extends (fun q => t_seq t <> Some q) _ _ _ s db q s' Hcl) as Hx.
  apply claim_inv in Hcl as (Hi & Hc & Hn & Hd & -> & ->). split; cbn; try done.
  - split; [|cbn; by eexists]. intros q [= <-]. split_and!; [apply lookup_insert_eq|exact Hd|exact Hi].
  - unfold inflight. cbn. rewrite Hp. destruct (is_submit (t_call t)); cbn; lia.
  - unfold drained_ok. cbn. rewrite Hc. done.
  - right. repeat split; done.
  - left. split; [done|]. intros o [H|H]; by rewrite E in H.
Qed.

Lemma step_record s db t q o p :
  thread_ok s db t -> running t -> t_seq t = Some q -> outcome_for db (t_call t) o ->
  p = (if is_submit (t_call t) then PSettling (Ok o) else PDone (Ok o)) ->
  step_ok s db t (recordOutcome q o s) db (to_phase p t).
Proof.
  intros [Hc _] Hr Hq Ho ->. split; cbn; try done.
  - split; cbn; [exact Hc|]. unfold phase_ok. cbn.
    destruct (is_submit (t_call t)) eqn:E; cbn; [split; [done|]|]; exists q; rewrite lookup_insert_eq; done.
  - eapply extends_weaken; [|apply recordOutcome_extends]. intros p Hp ->. done.
  - unfold inflight, running in *. cbn. rewrite Hq.
    destruct (is_submit (t_call t)), (t_phase t); try done; cbn; lia.
  - by left.
  - right. exists q, o. split; [done|]. split; [done|]. unfold settled. cbn. destruct (is_submit (t_call t)); auto.
Qed.

Lemma step_failed s db t e :
  thread_ok s db t -> t_phase t = PFailing e ->
  step_ok s db t (recordFailure e s) db (to_phase (after_failure t e) t).
Proof.
  intros [Hc _] E. pose proof (recordFailure_extends (fun q => t_seq t <> Some q) s db e) as Hx.
  pose proof (recordFailure_some s e) as Hf.
  assert (Hs : ss_outcomes (recordFailure e s) = ss_outcomes s /\ ss_closed (recordFailure e s) = ss_closed s /\
    ss_inFlight (recordFailure e s) = ss_inFlight s /\ ss_drained (recordFailure e s) = ss_drained s /\
    ss_itemIDs (recordFailure e s) = ss_itemIDs s /\ ss_next (recordFailure e s) = ss_next s /\
    ss_definitions (recordFailure e s) = ss_definitions s)
    by (unfold recordFailure; by destruct (ss_failure s)).
  destruct Hs as (H1 & H2 & H3 & H4 & H5 & H6 & H7). split; try done.
  - split; cbn.
    + intros q Hq. unfold claimed_ok. cbn. rewrite H5, H7. by apply Hc.
    + unfold phase_ok, after_failure. cbn. destruct (is_submit (t_call t)) eqn:Es; cbn; [|done].
      case_bool_decide; cbn; [|done]. auto.
  - rewrite H3. unfold inflight, after_failure. cbn. rewrite E. destruct (is_submit (t_call t)); cbn; [|lia].
    destruct (t_seq t); cbn; lia.
  - unfold drained_ok. by rewrite H2, H3, H4.
  - left. cbn. auto.
  - left. split; [done|]. intros o [H|H]; by rewrite E in H.
Qed.

Lemma step_settled s db t r :
  thread_ok s db t -> t_phase t = PSettling r -> step_ok s db t (settleSubmission s) db (to_phase (PDone r) t).
Proof.
  intros [Hc Hp] E. unfold phase_ok in Hp. rewrite E in Hp.
  assert (Hin : inflight t = true).
  { unfold inflight. rewrite E. destruct r as [o|e]; [destruct Hp as (-> & q & -> & _)|destruct Hp as (-> & [q ->] & _)]; done. }
  split; try done.
  - split; [exact Hc|]. unfold phase_ok. cbn. by destruct r as [o|e]; [|destruct Hp as (_ & _ & ?)]; [destruct Hp|].
  - rewrite Hin. unfold inflight. cbn. destruct (t_seq t); rewrite andb_false_r; lia.
  - intros Hl%(fun f => f Hin). unfold drained_ok. cbn. intros ->.
    replace (ss_inFlight s =? 0) with false by (symmetry; apply Z.eqb_neq; lia). by rewrite andb_false_r.
  - by left.
  - left. split; [done|]. intros o [H|H]; rewrite E in H; [|done]. injection H as ->. by right.
Qed.

Lemma unsafe_step_ok s db t q status detail s' db' t' :
  definitions_ok s -> thread_ok s db t -> running t -> t_seq t = Some q -> is_submit (t_call t) = false ->
  status = SubRejected \/ status = SubFailed ->
  unsafe_step s db t q status detail = (s', db', t') -> step_ok s db t s' db' t'.
Proof.
  intros Hd Ht Hr Hq Hc Hs. unfold unsafe_step.
  destruct (validateConnectorRunText "detail" detail Source.MaxIDLength) as [[]|e] eqn:E; intros [= <- <- <-].
  - apply step_record; try done; [|by rewrite Hc]. eapply unsafe_outcome_ok; eauto. by apply Ht.
  - by apply step_failing.
Qed.

Lemma claimed_step_ok s db t q s' db' t' :
  definitions_ok s -> thread_ok s db t -> t_phase t = PClaimed -> t_seq t = Some q ->
  advance s db t = Some (s', db', t') -> step_ok s db t s' db' t'.
Proof.
  intros Hd Ht E Hq. assert (Hr : running t) by (unfold running; by rewrite E).
  unfold advance. rewrite E, Hq. intros [= H]. destruct (t_call t) as [i d o|i d w|i d w] eqn:Ec.
  - destruct (obs_Validate o) as [[]|e] eqn:Ev; [|injection H as <- <- <-; by apply step_failing].
    destruct (negb _); [injection H as <- <- <-; by apply step_failing|].
    destruct (sink_submit _ _ _ _) as [db1 r] eqn:Es. injection H as <- <- <-.
    destruct (sink_submit_spec _ _ _ _ _ _ Ev Es) as [Hk Hres].
    apply running_step_same; try done. unfold phase_ok. cbn. rewrite Ec, Hq. split; [by eexists|]. by destruct r.
  - apply (unsafe_step_ok _ _ _ _ _ _ _ _ _ Hd Ht Hr Hq) in H; [done|by rewrite Ec|by left].
  - apply (unsafe_step_ok _ _ _ _ _ _ _ _ _ Hd Ht Hr Hq) in H; [done|by rewrite Ec|by right].
Qed.

Lemma returned_step_ok s db t q r s' db' t' :
  definitions_ok s -> thread_ok s db t -> t_phase t = PReturned r -> t_seq t = Some q ->
  advance s db t = Some (s', db', t') -> step_ok s db t s' db' t'.
Proof.
  intros Hd Ht E Hq. assert (Hr : running t) by (unfold running; by rewrite E).
  pose proof (th_phase _ _ _ Ht) as Hp. pose proof (th_claimed _ _ _ Ht q Hq) as Hcl. unfold phase_ok in Hp. rewrite E in Hp.
  destruct Hp as (_ & Hsub & Hres). unfold advance. rewrite E, Hq. intros [= H].
  assert (Hrej : forall d, r = Err (ERejected d) ->
    step_ok s db t (recordOutcome q (unsafeConnectorOutcome (call_item (t_call t)) (call_definition (t_call t)) SubRejected d) s)
      db (to_phase (PSettling (Ok (unsafeConnectorOutcome (call_item (t_call t)) (call_definition (t_call t)) SubRejected d))) t)).
  { intros d ->. subst d. apply step_record; try done; [|by rewrite Hsub].
    eapply unsafe_outcome_ok; eauto using rejection_detail_ok. }
  destruct (t_call t) as [i d o|i d w|i d w] eqn:Ec; [|done|done]. destruct r as [ref|e].
  - destruct (validateConnectorReturnedRef _ _ _) as [[]|e] eqn:Ev; injection H as <- <- <-; [|by apply step_failing].
    apply step_record; try done; [|by rewrite Ec]. rewrite Ec in *. cbn in *.
    pose proof (accepted_outcome_ok db t o d ref q s Hd Hcl) as Ha. rewrite Ec in Ha. by apply Ha.
  - destruct e; injection H as <- <- <-; try (by apply step_failing). by apply Hrej.
Qed.

Lemma advance_ok s db t s' db' t' :
  definitions_ok s -> thread_ok s db t -> advance s db t = Some (s', db', t') -> step_ok s db t s' db' t'.
Proof.
  intros Hd Ht H. destruct (t_phase t) eqn:E.
  - unfold advance in H. rewrite E in H. destruct (claim _ _ _ _) as [[q s1]|e] eqn:Ec; injection H as <- <- <-.
    + by apply step_claim.
    + apply step_failing; [done|]. unfold running. by rewrite E.
  - destruct (t_seq t) as [q|] eqn:Eq; [by eapply claimed_step_ok|]. unfold advance in H. by rewrite E, Eq in H.
  - destruct (t_seq t) as [q|] eqn:Eq; [by eapply returned_step_ok|]. unfold advance in H. by rewrite E, Eq in H.
  - unfold advance in H. rewrite E in H. injection H as <- <- <-. by apply step_failed.
  - unfold advance in H. rewrite E in H. injection H as <- <- <-. by apply step_settled.
  - unfold advance in H. by rewrite E in H.
Qed.

(** ** The whole run *)

Record world_inv w : Prop := {
  wi_threads : forall t, t ∈ w_threads w -> thread_ok (w_session w) (w_db w) t;
  wi_unique : forall i j t u q, w_threads w !! i = Some t -> w_threads w !! j = Some u ->
    t_seq t = Some q -> t_seq u = Some q -> i = j;
  wi_next : forall item q, ss_itemIDs (w_session w) !! item = Some q -> q < ss_next (w_session w);
  wi_flight : ss_inFlight (w_session w) = flight_count (w_threads w);
  wi_drained : drained_ok (w_session w);
  wi_definitions : definitions_ok (w_session w);
  wi_outcomes : forall q o, ss_outcomes (w_session w) !! q = Some o ->
    exists t, t ∈ w_threads w /\ t_seq t = Some q /\ settled t o
}.

Lemma seq_below w t q : world_inv w -> t ∈ w_threads w -> t_seq t = Some q -> q < ss_next (w_session w).
Proof. intros I Ht Hq. destruct (th_claimed _ _ _ (wi_threads w I t Ht) q Hq) as [H _]. by eapply wi_next. Qed.

Lemma elem_insert (ts : list (Thread O)) i t u :
  u ∈ <[i := t]> ts -> u = t \/ exists j, j <> i /\ ts !! j = Some u.
Proof.
  intros H. apply list_elem_of_lookup in H as [j Hj]. destruct (decide (j = i)) as [->|Hne].
  - left. apply list_lookup_insert_Some in Hj as [(_ & -> & _)|[? _]]; done.
  - right. exists j. by rewrite list_lookup_insert_ne in Hj.
Qed.

Lemma elem_insert_new (ts : list (Thread O)) i t t' : ts !! i = Some t -> t' ∈ <[i := t']> ts.
Proof.
  intros H. apply (list_elem_of_lookup_2 _ i). apply list_lookup_insert_eq. by eapply lookup_lt_Some.
Qed.

Lemma elem_insert_other (ts : list (Thread O)) i j t u : ts !! j = Some u -> j <> i -> u ∈ <[i := t]> ts.
Proof. intros H Hne. apply (list_elem_of_lookup_2 _ j). by rewrite list_lookup_insert_ne. Qed.

Lemma unique_advance w i t t' s' db' :
  world_inv w -> w_threads w !! i = Some t -> step_ok (w_session w) (w_db w) t s' db' t' ->
  forall a b x y q, <[i := t']> (w_threads w) !! a = Some x -> <[i := t']> (w_threads w) !! b = Some y ->
  t_seq x = Some q -> t_seq y = Some q -> a = b.
Proof.
  intros I Hi Hs a b x y q Ha Hb Hx Hy.
  assert (Hnew : forall j u p, w_threads w !! j = Some u -> j <> i -> t_seq u = Some p -> t_seq t' = Some p -> False).
  { intros j u p Hj Hne Hu Ht'. destruct (so_seq _ _ _ _ _ _ Hs) as [(E & _)|(_ & E & _)]; rewrite E in Ht'.
    - by apply Hne, (wi_unique w I j i u t p).
    - injection Ht' as <-. apply list_elem_of_lookup_2 in Hj. pose proof (seq_below w u _ I Hj Hu). lia. }
  apply list_lookup_insert_Some in Ha as [(<- & <- & _)|[Hna Ha]];
    apply list_lookup_insert_Some in Hb as [(<- & <- & _)|[Hnb Hb]].
  - done.
  - exfalso. apply (Hnew b y q); auto.
  - exfalso. apply (Hnew a x q); auto.
  - by apply (wi_unique w I a b x y q).
Qed.

Lemma outcomes_advance w i t t' s' db' q o :
  world_inv w -> w_threads w !! i = Some t -> step_ok (w_session w) (w_db w) t s' db' t' ->
  ss_outcomes s' !! q = Some o -> exists u, u ∈ <[i := t']> (w_threads w) /\ t_seq u = Some q /\ settled u o.
Proof.
  intros I Hi Hs Ho.
  assert (Hkeep : forall p, t_seq t = Some p -> t_seq t' = Some p).
  { intros p Hp. destruct (so_seq _ _ _ _ _ _ Hs) as [(-> & _)|(E & _)]; congruence. }
  assert (Hold : ss_outcomes (w_session w) !! q = Some o -> (t_seq t = Some q -> settled t o -> settled t' o) ->
    exists u, u ∈ <[i := t']> (w_threads w) /\ t_seq u = Some q /\ settled u o).
  { intros H Ht. destruct (wi_outcomes w I q o H) as (u & Hu & Hq & Hset).
    apply list_elem_of_lookup in Hu as [j Hj]. destruct (decide (j = i)) as [->|Hne].
    - assert (u = t) as -> by congruence. exists t'. split; [by eapply elem_insert_new|auto].
    - exists u. split; [by eapply elem_insert_other|auto]. }
  destruct (so_outcomes _ _ _ _ _ _ Hs) as [[E Hset]|(p & o' & Hp & E & Hset)]; rewrite E in Ho; [by apply Hold; auto|].
  apply lookup_insert_Some in Ho as [[<- <-]|[Hne Ho]]; [|apply Hold; [done|congruence]].
  exists t'. split; [by eapply elem_insert_new|auto].
Qed.

Lemma advance_inv s db ts i t s' db' t' :
  world_inv (MkWorld s db ts) -> ts !! i = Some t -> advance s db t = Some (s', db', t') ->
  world_inv (MkWorld s' db' (<[i := t']> ts)).
Proof.
  intros I Hi Ha. pose proof (wi_threads _ I t (list_elem_of_lookup_2 _ _ _ Hi)) as Ht.
  pose proof (advance_ok _ _ _ _ _ _ (wi_definitions _ I) Ht Ha) as Hs. pose proof (so_extends _ _ _ _ _ _ Hs) as Hx.
  split; cbn.
  - intros u [->|(j & Hne & Hj)]%elem_insert; [apply Hs|].
    apply (thread_ok_ext s db); [|exact (wi_threads _ I u (list_elem_of_lookup_2 _ _ _ Hj))].
    eapply extends_weaken; [|exact Hx]. intros q Hq E. apply Hne. by apply (wi_unique _ I j i u t q).
  - by eapply (unique_advance (MkWorld s db ts)).
  - intros item q. destruct (so_seq _ _ _ _ _ _ Hs) as [(_ & -> & ->)|(_ & _ & -> & _ & ->)].
    + apply (wi_next _ I).
    + intros [[_ <-]|[_ H]]%lookup_insert_Some; [lia|]. apply (wi_next _ I) in H. cbn in *. lia.
  - unfold flight_count. rewrite (so_flight _ _ _ _ _ _ Hs), (tally_insert inflight _ _ _ _ Hi). pose proof (wi_flight _ I) as H. cbn in *. unfold flight_count in H. lia.
  - apply (so_drained _ _ _ _ _ _ Hs); [|apply (wi_drained _ I)]. intros E. pose proof (wi_flight _ I) as ->. cbn.
    eapply tally_pos; [|done]. by eapply list_elem_of_lookup_2.
  - unfold definitions_ok. rewrite (ex_definitions _ _ _ _ _ Hx). apply (wi_definitions _ I).
  - intros q o. by eapply (outcomes_advance (MkWorld s db ts)).
Qed.

Lemma call_inv s db ts c : world_inv (MkWorld s db ts) -> world_inv (MkWorld s db (ts ++ [MkThread c None PStart])).
Proof.
  intros I. split; cbn.
  - intros t [H| ->%list_elem_of_singleton]%elem_of_app; [by apply (wi_threads _ I)|]. by split.
  - intros i j t u q Hi Hj Ht Hu.
    apply lookup_app_Some in Hi as [Hi|[_ Hi]]; [|apply list_lookup_singleton_Some in Hi as [_ <-]; done].
    apply lookup_app_Some in Hj as [Hj|[_ Hj]]; [|apply list_lookup_singleton_Some in Hj as [_ <-]; done].
    by apply (wi_unique _ I i j t u q).
  - apply (wi_next _ I).
  - pose proof (wi_flight _ I) as H. cbn in H. unfold flight_count in *. rewrite tally_app, tally_cons, H. unfold inflight at 3. cbn [t_call t_seq]. rewrite andb_false_r. unfold tally at 3. cbn. lia.
  - apply (wi_drained _ I).
  - apply (wi_definitions _ I).
  - intros q o H. destruct (wi_outcomes _ I q o H) as (t & Ht & ?). exists t. split; [|done]. apply elem_of_app. by left.
Qed.

Lemma close_inv s db ts : world_inv (MkWorld s db ts) -> world_inv (MkWorld (close_session s) db ts).
Proof.
  intros I. destruct I as [H1 H2 H3 H4 H5 H6 H7]. split; try done.
  { intros t Ht. apply (thread_ok_ext s db); [by split|]. by apply H1. }
  unfold drained_ok in *. cbn in *. rewrite H5. destruct (ss_closed s); cbn; [|done]. by rewrite orb_diag.
Qed.

Lemma world_step_inv w w' : world_step w w' -> world_inv w -> world_inv w'.
Proof. intros [s db ts c|s db ts i t s' db' t' Hi Ha|s db ts] I; [by apply call_inv|by eapply advance_inv|by apply close_inv]. Qed.

Lemma world_steps_inv w w' : world_steps w w' -> world_inv w -> world_inv w'.
Proof. induction 1 as [|w1 w2 w3 H _ IH]; [done|]. intros I. by eapply IH, world_step_inv. Qed.

End invariant.
