(* ===== verification/ConnectorProps.v ===== *)
(** * Properties of connector runs

    What a run promises: the checkpoint moves only past items that were durably
    accepted, [Finalize] returns, the outcomes make a well-formed result, and
    checkpoints are compared by the JSON values they hold. *)

From S2P Require Import Prelude.
From S2P Require Import GoStrings.
From S2P Require Import Refs.
From S2P Require Import Json.
From S2P Require Import JsonText.
From S2P Require Import Checkpoint.
From S2P Require Import Connector.
From S2P Require Import ConnectorFacts.

(** ** Schedules, for the witnesses *)

Inductive event (O : Type) := EvCall (c : call O) | EvAdvance (i : nat) | EvClose.
Arguments EvCall {O} c.
Arguments EvAdvance {O} i.
Arguments EvClose {O}.

Section runs.
Context {DB O : Type} {IG : Ingestion DB O}.

Definition play_one (w : World DB O) (ev : event O) : option (World DB O) :=
  match ev with
  | EvCall c => Some (MkWorld (w_session w) (w_db w) (w_threads w ++ [MkThread c None PStart]))
  | EvClose => Some (MkWorld (close_session (w_session w)) (w_db w) (w_threads w))
  | EvAdvance i =>
      t ← w_threads w !! i;
      '(s', db', t') ← advance (w_session w) (w_db w) t;
      Some (MkWorld s' db' (<[i := t']> (w_threads w)))
  end.

Definition play (evs : list (event O)) (w : World DB O) : option (World DB O) :=
  fold_left (fun ow ev => w ← ow; play_one w ev) evs (Some w).

Lemma play_one_sound w ev w' : play_one w ev = Some w' -> world_step w w'.
Proof.
  destruct w as [s db ts], ev as [c|i|]; cbn; [intros [= <-]; constructor| |intros [= <-]; constructor].
  destruct (ts !! i) as [t|] eqn:Et; [|done]. cbn. destruct (advance s db t) as [[[s' db'] t']|] eqn:Ea; [|done].
  intros [= <-]. by eapply step_advance.
Qed.

Lemma play_none evs : fold_left (fun ow ev => w ← ow; play_one w ev) evs None = None.
Proof. by induction evs. Qed.

Lemma play_sound evs w w' : play evs w = Some w' -> world_steps w w'.
Proof.
  revert w. induction evs as [|ev evs IH]; intros w; [intros [= <-]; constructor|].
  unfold play. cbn [fold_left mbind option_bind]. destruct (play_one w ev) as [w1|] eqn:E; [|by rewrite play_none].
  intros H. econstructor; [by eapply play_one_sound|by apply IH].
Qed.
End runs.

Section promises.
Context {DB O : Type} {IG : Ingestion DB O} {IL : IngestionLaws DB O}.

Implicit Types (w : World DB O) (t : Thread O).

(** ** The start *)

Lemma declare_keeps names acc declared :
  (forall d, d ∈ acc -> validateConnectorRunText "definition" d Source.MaxTypeLength = Ok tt) ->
  fold_res declare_one acc names = Ok declared ->
  forall d, d ∈ declared -> validateConnectorRunText "definition" d Source.MaxTypeLength = Ok tt.
Proof.
  revert acc. induction names as [|n names IH]; intros acc Hacc H; cbn in H; [by injection H as <-|].
  apply bind_ok_inv in H as (acc' & Ha & H). refine (IH acc' _ H). unfold declare_one in Ha.
  bind_inv Ha. ok_inv. boolify. subst acc'. intros d [->%elem_of_singleton|Hd]%elem_of_union; [|auto]. by destruct a.
Qed.

Lemma session_start binding checkpoint definitions s (db : DB) :
  NewConnectorRunSession binding checkpoint definitions = Ok s -> world_inv (MkWorld s db ([] : list (Thread O))).
Proof.
  unfold NewConnectorRunSession. intros H. bind_inv H. ok_inv. subst s. rename a1 into declared, Ha1 into Hd.
  unfold declaredConnectorDefinitions in Hd. apply bind_ok_inv in Hd as (_ & _ & Hd).
  split; cbn; try done.
  - intros t Ht. by apply not_elem_of_nil in Ht.
  - unfold definitions_ok. cbn. eapply declare_keeps; [|exact Hd]. intros d Hin. by apply not_elem_of_empty in Hin.
Qed.

(** A run that has come to [w]. *)
Definition reached (s0 : Session) (db0 : DB) w : Prop := world_steps (MkWorld s0 db0 []) w.

Lemma reached_inv binding checkpoint definitions s0 db0 w :
  NewConnectorRunSession binding checkpoint definitions = Ok s0 -> reached s0 db0 w -> world_inv w.
Proof. intros H Hr. eapply world_steps_inv; [exact Hr|by eapply session_start]. Qed.
(** ** After the session is closed *)

(** Nothing is claimed any more, and a call that is done stays as it is. *)
Definition only_known w w' : Prop :=
  forall i t' q, w_threads w' !! i = Some t' -> t_seq t' = Some q ->
  exists t, w_threads w !! i = Some t /\ t_seq t = Some q /\ is_submit (t_call t') = is_submit (t_call t) /\
    forall r, t_phase t = PDone r -> t' = t.

Lemma closed_step w w' :
  world_inv w -> ss_closed (w_session w) = true -> world_step w w' ->
  ss_closed (w_session w') = true /\ only_known w w'.
Proof.
  intros I Hc H. destruct H as [s db ts c|s db ts i t s' db' t' Hi Ha|s db ts]; cbn in *.
  - split; [done|]. intros i t' q Hi Hq. cbn in *.
    apply lookup_app_Some in Hi as [Hi|[_ Hi]]; [by exists t'|]. apply list_lookup_singleton_Some in Hi as [_ <-]. done.
  - pose proof (wi_threads _ I t (list_elem_of_lookup_2 _ _ _ Hi)) as Ht.
    pose proof (advance_ok _ _ _ _ _ _ (wi_definitions _ I) Ht Ha) as Hs. cbn in Hs.
    split; [by rewrite (so_closed _ _ _ _ _ _ Hs)|]. intros j u q Hj Hq. cbn in Hj.
    apply list_lookup_insert_Some in Hj as [(<- & <- & _)|[_ Hj]]; [|by exists u].
    exists t. destruct (so_seq _ _ _ _ _ _ Hs) as [(E & _)|(_ & _ & _ & E & _)]; [|congruence].
    rewrite E in Hq. split_and!; [done|done|by rewrite (so_call _ _ _ _ _ _ Hs)|].
    intros r Hr. unfold advance in Ha. by rewrite Hr in Ha.
  - split; [done|]. intros i t q Hi Hq. by exists t.
Qed.

Lemma closed_steps w w' :
  world_steps w w' -> world_inv w -> ss_closed (w_session w) = true -> only_known w w'.
Proof.
  induction 1 as [w|w1 w2 w3 H _ IH]; intros I Hc; [by intros i t q Hi Hq; exists t|].
  destruct (closed_step w1 w2 I Hc H) as [Hc2 Hk]. specialize (IH (world_step_inv _ _ H I) Hc2).
  intros i t3 q Hi Hq. destruct (IH i t3 q Hi Hq) as (t2 & Hi2 & Hq2 & E2 & D2).
  destruct (Hk i t2 q Hi2 Hq2) as (t1 & Hi1 & Hq1 & E1 & D1).
  exists t1. split_and!; [done|done|congruence|]. intros r Hr. pose proof (D1 r Hr) as ->. by apply (D2 r).
Qed.

(** Once the session is drained without a failure, every submission that claimed
    an item has recorded its outcome, whatever happens later. *)
Lemma drained_settled w w' t q :
  world_inv w -> world_steps w w' -> ss_drained (w_session w) = true -> ss_failure (w_session w) = None ->
  t ∈ w_threads w' -> is_submit (t_call t) = true -> t_seq t = Some q ->
  exists o, t_phase t = PDone (Ok o) /\ ss_outcomes (w_session w') !! q = Some o /\
    outcome_for (w_db w') (t_call t) o.
Proof.
  intros I Hs Hdr Hf Ht Hsub Hq. pose proof (wi_drained _ I) as Hd. unfold drained_ok in Hd. rewrite Hdr in Hd.
  symmetry in Hd. apply andb_true_iff in Hd as [Hc Hz%Z.eqb_eq].
  pose proof (world_steps_inv _ _ Hs I) as I'. pose proof (wi_threads _ I' t Ht) as [_ Hp].
  apply list_elem_of_lookup in Ht as [i Hi].
  destruct (closed_steps w w' Hs I Hc i t q Hi Hq) as (t0 & Hi0 & Hq0 & Hsub0 & Hdone).
  assert (Hin : inflight t0 = false).
  { apply (tally_zero inflight (w_threads w)); [pose proof (wi_flight _ I) as H; unfold flight_count in H; congruence|by eapply list_elem_of_lookup_2]. }
  unfold inflight in Hin. rewrite <- Hsub0, Hsub, Hq0 in Hin. destruct (t_phase t0) as [| | | | |r] eqn:Er; try done.
  pose proof (Hdone r eq_refl) as ->. pose proof (wi_threads _ I t0 (list_elem_of_lookup_2 _ _ _ Hi0)) as [_ Hp0].
  unfold phase_ok in Hp, Hp0. rewrite Er in Hp, Hp0. destruct r as [o|e]; [|rewrite Hf in Hp0; by destruct Hp0].
  destruct Hp as (q' & Hq' & Ho & Hof). assert (q' = q) as -> by congruence. by exists o.
Qed.

(** ** The outcomes *)

Lemma outcomes_perm s : Outcomes s ≡ₚ map snd (map_to_list (ss_outcomes s)).
Proof. unfold Outcomes. by rewrite merge_sort_Permutation. Qed.

Lemma elem_outcomes s o : o ∈ Outcomes s <-> exists q, ss_outcomes s !! q = Some o.
Proof.
  rewrite outcomes_perm, list_elem_of_fmap. split.
  - intros ([q o'] & -> & H). apply elem_of_map_to_list in H. eauto.
  - intros [q H]. exists (q, o). split; [done|]. by apply elem_of_map_to_list.
Qed.

Lemma outcome_owner w q o :
  world_inv w -> ss_outcomes (w_session w) !! q = Some o ->
  validate_outcome o = Ok tt /\ ss_itemIDs (w_session w) !! itemID o = Some q /\
  (io_status o = SubAccepted -> exists ref, io_sourceRef o = Some ref /\ durable (w_db w) ref).
Proof.
  intros I H. destruct (wi_outcomes _ I q o H) as (t & Ht & Hq & Hset).
  pose proof (wi_threads _ I t Ht) as [Hcl Hp]. destruct (Hcl q Hq) as [Hi _].
  assert (Hof : outcome_for (w_db w) (t_call t) o).
  { unfold phase_ok in Hp. destruct Hset as [E|E]; rewrite E in Hp; [destruct Hp as (_ & ? & _ & _ & ?)|destruct Hp as (? & _ & _ & ?)]; done. }
  destruct Hof as [[Ei _] Hv Ha]. rewrite Ei. split_and!; [done|done|]. intros E. destruct (Ha E) as (obs & _ & ? & ?). eauto.
Qed.

Lemma items_accepted items seen :
  Forall (fun o => validate_outcome o = Ok tt) items -> NoDup (map itemID items) ->
  (forall o, o ∈ items -> itemID o ∉ seen) -> exists seen', fold_res check_item seen items = Ok seen'.
Proof.
  intros Hv. revert seen. induction Hv as [|o items Ho _ IH]; intros seen Hn Hs; [by exists seen|].
  cbn in Hn. apply NoDup_cons in Hn as [Hnin Hn]. cbn. unfold check_item at 1. rewrite Ho. cbn.
  rewrite bool_decide_eq_false_2 by (apply Hs; left). cbn. apply IH; [done|]. intros o' Hin.
  apply not_elem_of_union. split; [|apply Hs; by right]. intros E%elem_of_singleton. apply Hnin.
  apply list_elem_of_fmap. by exists o'.
Qed.

Lemma outcomes_wellformed w :
  world_inv w ->
  Forall (fun o => validate_outcome o = Ok tt) (Outcomes (w_session w)) /\ NoDup (map itemID (Outcomes (w_session w))).
Proof.
  intros I. split.
  - apply Forall_forall. intros o [q Ho]%elem_outcomes. by apply (outcome_owner w q o).
  - rewrite outcomes_perm, map_map. change (NoDup ((fun x => itemID (snd x)) <$> map_to_list (ss_outcomes (w_session w)))).
    apply NoDup_fmap_2_strong; [|apply NoDup_map_to_list].
    intros [p a] [q b] Ha%elem_of_map_to_list Hb%elem_of_map_to_list. cbn. intros E.
    destruct (outcome_owner w p a I Ha) as (_ & H1 & _). destruct (outcome_owner w q b I Hb) as (_ & H2 & _).
    rewrite E in H1. assert (p = q) as <- by congruence. congruence.
Qed.

Lemma result_built w binding status previous proposed committed :
  world_inv w -> validate_binding binding = Ok tt -> validConnectorRunStatus status = true ->
  validate_checkpoint previous = Ok tt -> validate_checkpoint proposed = Ok tt -> validate_checkpoint committed = Ok tt ->
  found proposed = true ->
  NewConnectorRunResult binding status previous proposed committed (Outcomes (w_session w))
  = Ok (MkResult binding status previous proposed committed (Outcomes (w_session w))).
Proof.
  intros I Hb Hs H1 H2 H3 Hf. unfold NewConnectorRunResult. rewrite Hb, Hs, H1, H2, H3, Hf. cbn.
  destruct (outcomes_wellformed w I) as [Hv Hn].
  destruct (items_accepted (Outcomes (w_session w)) ∅ Hv Hn) as [seen ->]; [|done]. intros o _. apply not_elem_of_empty.
Qed.
End promises.

(** ** Checkpoints as values *)

(** Both are absent, or both hold the same JSON value. *)
Definition same_checkpoint (a b : ConnectorCheckpoint) : Prop :=
  match found a, found b with
  | false, false => True
  | true, true => exists v w, parse_json (value a) = Some v /\ parse_json (value b) = Some w /\ json_same v w
  | _, _ => False
  end.

Lemma valid_found c : validate_checkpoint c = Ok tt -> found c = true -> exists v, parse_json (value c) = Some v.
Proof.
  unfold validate_checkpoint, immutableConnectorCheckpoint, IsValid. intros H E. rewrite E in H.
  destruct (parse_json (value c)) as [v|]; [by exists v|]. by rewrite andb_false_r in H.
Qed.

Lemma new_checkpoint_ok text c :
  NewConnectorCheckpoint text = Ok c -> c = MkCheckpoint true text /\ validate_checkpoint c = Ok tt.
Proof.
  unfold NewConnectorCheckpoint. intros H. bind_inv H. ok_inv. subst c. unfold validate_checkpoint. cbn.
  pose proof Ha as Hi. unfold immutableConnectorCheckpoint in Ha. bind_inv Ha. ok_inv. subst a. by rewrite Hi.
Qed.

(** On valid checkpoints the comparison always answers, and it answers yes
    exactly when both are absent or both hold the same JSON value: numbers by
    value, strings by their text, members in any order. *)
Lemma checkpoint_equal a b :
  validate_checkpoint a = Ok tt -> validate_checkpoint b = Ok tt ->
  exists eq, EqualConnectorCheckpoints a b = Ok eq /\ (eq = true <-> same_checkpoint a b).
Proof.
  intros Ha Hb. unfold EqualConnectorCheckpoints, same_checkpoint. rewrite Ha, Hb. cbn [bind].
  destruct (found a) eqn:Ea, (found b) eqn:Eb; cbn; try (exists false; by split); [|exists true; by split].
  destruct (valid_found a Ha Ea) as [v Ev], (valid_found b Hb Eb) as [w Ew].
  unfold equalConnectorJSON. rewrite Ev, Ew.
  destruct (equal_values_spec v w (parse_json_ok _ _ Ev) (parse_json_ok _ _ Ew)) as (eq & E & Heq).
  exists eq. split; [exact E|]. rewrite Heq. split; [by eauto|]. by intros (? & ? & [= <-] & [= <-] & ?).
Qed.

(** C39: On valid checkpoints the comparison always answers, and it answers yes
    exactly when both are absent or both hold the same JSON value: numbers by
    value, strings by their text, members in any order. *)
Theorem checkpoint_equality a b :
  validate_checkpoint a = Ok tt -> validate_checkpoint b = Ok tt ->
  exists eq, EqualConnectorCheckpoints a b = Ok eq /\ (eq = true <-> same_checkpoint a b).
Proof. apply checkpoint_equal. Qed.

Definition checkpoint_a : ConnectorCheckpoint := MkCheckpoint true (json_text "{'n': 1e3, 's': ['A']}").
Definition checkpoint_b : ConnectorCheckpoint := MkCheckpoint true (json_text "{'s':['\u0041'],'n':1000.0}").

Lemma checkpoint_equality_witness :
  validate_checkpoint checkpoint_a = Ok tt /\ validate_checkpoint checkpoint_b = Ok tt /\
  exists eq, EqualConnectorCheckpoints checkpoint_a checkpoint_b = Ok eq /\
    (eq = true <-> same_checkpoint checkpoint_a checkpoint_b).
Proof.
  split; [vm_compute; reflexivity|]. split; [vm_compute; reflexivity|].
  apply checkpoint_equality; vm_compute; reflexivity.
Defined.

(** ** The checkpoint *)

Section conclusions.
Context {DB O CS : Type} {IG : Ingestion DB O} {IL : IngestionLaws DB O} {ST : CheckpointStore CS}.

Implicit Types (w : World DB O) (t : Thread O) (cs : CS).

(** The claimed submissions of a world have all ended with a durable reference. *)
Definition all_durable w : Prop :=
  forall t q, t ∈ w_threads w -> is_submit (t_call t) = true -> t_seq t = Some q ->
  exists o ref, t_phase t = PDone (Ok o) /\ io_status o = SubAccepted /\
    io_sourceRef o = Some ref /\ durable (w_db w) ref.

Lemma no_unsafe_durable w1 w2 :
  world_inv w1 -> world_steps w1 w2 -> ss_drained (w_session w1) = true -> ss_failure (w_session w1) = None ->
  existsb is_unsafe (Outcomes (w_session w2)) = false -> all_durable w2.
Proof.
  intros I Hs Hd Hf Hu t q Ht Hsub Hq.
  destruct (drained_settled w1 w2 t q I Hs Hd Hf Ht Hsub Hq) as (o & Hp & Ho & Hof). exists o.
  assert (Hsafe : is_unsafe o = false).
  { destruct (is_unsafe o) eqn:E; [|done]. rewrite <- Hu. symmetry. apply existsb_exists. exists o.
    split; [|done]. apply list_elem_of_In, elem_outcomes. eauto. }
  pose proof (of_valid _ _ _ Hof) as Hv. pose proof (of_accepted _ _ _ Hof) as Ha.
  unfold is_unsafe in Hsafe. destruct (io_status o) eqn:Es; [|done..|].
  - destruct (Ha eq_refl) as (obs & _ & Hr & Hdur). eauto.
  - unfold validate_outcome in Hv. rewrite Es in Hv. bind_inv Hv. done.
Qed.

Lemma started cs resolved connector binding previous s0 :
  start_run cs resolved connector binding = Ok (previous, s0) ->
  cs_Load cs binding = Ok previous /\ validate_binding binding = Ok tt /\ validate_checkpoint previous = Ok tt /\
  exists definitions, NewConnectorRunSession binding previous definitions = Ok s0.
Proof.
  unfold start_run. intros H. apply bind_ok_inv in H as ([] & Hb & H). apply bind_ok_inv in H as (_ & _ & H).
  apply bind_ok_inv in H as (definitions & _ & H). apply bind_ok_inv in H as (p & Hl & H).
  apply bind_ok_inv in H as (s & Hn & H). injection H as -> ->. split_and!; [done|done| |by exists definitions].
  unfold NewConnectorRunSession in Hn. rewrite Hb in Hn. cbn in Hn. apply bind_ok_inv in Hn as ([] & H & _). done.
Qed.

(** How a run may end, from what the connector returned and what the session held. *)
Inductive ending cs binding previous (ran : cres RunCompletion) (finalized : cres unit)
  (failure : option connector_error) (items : list ItemOutcome) : CS -> cres RunResult -> Prop :=
| end_stopped e :
    ran = Err e \/ (exists completion, ran = Ok completion /\ (finalized = Err e \/ finalized = Ok tt /\
      (failure = Some e \/ failure = None /\ validate_completion completion = Err e))) ->
    ending cs binding previous ran finalized failure items cs (Err e)
| end_conflict completion e :
    ran = Ok completion -> finalized = Ok tt -> failure = None -> existsb is_unsafe items = false ->
    cp_status completion = RunComplete -> cs_Save cs binding (cp_checkpoint completion) previous = Err e ->
    ending cs binding previous ran finalized failure items cs (Err e)
| end_kept completion status :
    ran = Ok completion -> finalized = Ok tt -> failure = None -> validate_completion completion = Ok tt ->
    status = (if existsb is_unsafe items then RunIncomplete else cp_status completion) ->
    status = RunIncomplete \/ same_checkpoint previous (cp_checkpoint completion) ->
    ending cs binding previous ran finalized failure items cs
      (Ok (MkResult binding status previous (cp_checkpoint completion) previous items))
| end_advanced completion cs' :
    ran = Ok completion -> finalized = Ok tt -> failure = None -> validate_completion completion = Ok tt ->
    existsb is_unsafe items = false ->
    cp_status completion = RunComplete -> ~ same_checkpoint previous (cp_checkpoint completion) ->
    cs_Save cs binding (cp_checkpoint completion) previous = Ok cs' ->
    ending cs binding previous ran finalized failure items cs'
      (Ok (MkResult binding RunComplete previous (cp_checkpoint completion) (cp_checkpoint completion) items)).

Lemma valid_completion completion :
  validate_completion completion = Ok tt ->
  validConnectorRunStatus (cp_status completion) = true /\ found (cp_checkpoint completion) = true /\
  validate_checkpoint (cp_checkpoint completion) = Ok tt /\
  NewConnectorCheckpoint (value (cp_checkpoint completion)) = Ok (cp_checkpoint completion).
Proof.
  unfold validate_completion. intros H. bind_inv H. apply check_ok_inv in Ha, Ha0. split_and!; [done|done|done|].
  destruct (cp_checkpoint completion) as [f v]. cbn in *. subst f. unfold validate_checkpoint in H. cbn in H.
  apply bind_ok_inv in H as (v' & Hi & _). unfold NewConnectorCheckpoint. rewrite Hi. cbn.
  unfold immutableConnectorCheckpoint in Hi. by apply bind_ok_inv in Hi as (? & _ & [= <-]).
Qed.

Lemma conclude_ending w cs binding previous ran finalized failure :
  world_inv w -> validate_binding binding = Ok tt -> validate_checkpoint previous = Ok tt ->
  let items := Outcomes (w_session w) in
  ending cs binding previous ran finalized failure items
    (fst (conclude cs binding previous ran finalized failure items))
    (snd (conclude cs binding previous ran finalized failure items)).
Proof.
  intros I Hb Hp items. unfold conclude. destruct ran as [completion|e]; [|apply end_stopped; by left].
  destruct finalized as [[]|e]; [|apply end_stopped; right; exists completion; auto].
  destruct failure as [e|]; [apply end_stopped; right; exists completion; auto|]. cbn [bind].
  destruct (validate_completion completion) as [[]|e] eqn:Ev; [|apply end_stopped; right; exists completion; auto 6].
  destruct (valid_completion completion Ev) as (Hs & Hf & Hc & ->). cbn.
  assert (Hbuilt : forall status committed, validConnectorRunStatus status = true ->
    committed = previous \/ committed = cp_checkpoint completion ->
    NewConnectorRunResult binding status previous (cp_checkpoint completion) committed items
    = Ok (MkResult binding status previous (cp_checkpoint completion) committed items)).
  { intros status committed Hst Hcom. apply result_built; try done. by destruct Hcom as [->| ->]. }
  destruct (existsb is_unsafe items) eqn:Eu.
  { cbn. rewrite Hbuilt by auto. apply end_kept; auto. by rewrite Eu. }
  case_bool_decide as Est.
  2: { cbn. rewrite Hbuilt by auto. apply end_kept; auto; [by rewrite Eu|]. left. by destruct (cp_status completion). }
  destruct (checkpoint_equal previous (cp_checkpoint completion) Hp Hc) as (eq & -> & Heq). destruct eq.
  { cbn. rewrite Hbuilt by auto. apply end_kept; auto; [by rewrite Eu|]. right. by apply Heq. }
  destruct (cs_Save cs binding (cp_checkpoint completion) previous) as [cs'|e] eqn:Esv; cbn.
  - rewrite Hbuilt, Est by auto. apply end_advanced; auto. intros H%Heq. done.
  - by apply (end_conflict _ _ _ _ _ _ _ completion).
Qed.

(** C4: Whatever the connector's goroutines do, before and after the session is
    closed, a run ends in one of the ways of [ending]; and if it moves the
    checkpoint, then the run returned complete and was drained without a failure,
    the store swapped the checkpoint that was loaded at the start, and every
    submission that claimed an item has ended with a reference that the durable
    store holds. *)
Theorem checkpoint_advances_safely cs resolved connector binding previous s0 db0 w1 w2 ran finalized :
  start_run cs resolved connector binding = Ok (previous, s0) ->
  world_steps (MkWorld s0 db0 []) w1 -> (finalized = Ok tt -> ss_drained (w_session w1) = true) -> world_steps w1 w2 ->
  let failure := ss_failure (w_session w1) in
  let items := Outcomes (w_session w2) in
  let '(cs', r) := conclude cs binding previous ran finalized failure items in
  ending cs binding previous ran finalized failure items cs' r /\
  (cs' <> cs \/ (exists res, r = Ok res /\ rr_committed res <> previous) ->
   exists completion, ran = Ok completion /\ cp_status completion = RunComplete /\ failure = None /\
     cs_Load cs binding = Ok previous /\ cs_Save cs binding (cp_checkpoint completion) previous = Ok cs' /\
     all_durable w2).
Proof.
  intros Hst H1 Hd H2 failure items. destruct (started _ _ _ _ _ _ Hst) as (Hl & Hb & Hp & definitions & Hn).
  assert (I1 : world_inv w1) by (by eapply reached_inv).
  assert (I2 : world_inv w2) by (by eapply world_steps_inv).
  pose proof (conclude_ending w2 cs binding previous ran finalized failure I2 Hb Hp) as He.
  cbn in He. fold items in He. destruct (conclude _ _ _ _ _ _ _) as [cs' r]. cbn in He. split; [exact He|].
  intros Hch. inversion He as [| | |completion cs1 Hr Hfin Hf Hv Hu Hs Hns Hsv]; subst;
    try (destruct Hch as [?|(? & [= <-] & ?)]; done).
  exists completion. split_and!; try done. exact (no_unsafe_durable w1 w2 I1 H2 (Hd eq_refl) Hf Hu).
Qed.
End conclusions.

(** ** Finalize returns *)

Section draining.
Context {DB O : Type} {IG : Ingestion DB O} {IL : IngestionLaws DB O}.

Implicit Types (w : World DB O) (t : Thread O).

(** The critical sections and sink calls that a call has at most before it. *)
Definition steps_left t : nat :=
  match t_phase t with
  | PStart => 5 | PClaimed => 4 | PReturned _ => 3 | PFailing _ => 2 | PSettling _ => 1 | PDone _ => 0
  end.

Definition all_left (ts : list (Thread O)) : nat := sum_list_with steps_left ts.

(** Steps of the calls that were made, in any order. *)
Inductive advances : nat -> World DB O -> World DB O -> Prop :=
| advances_none w : advances 0 w w
| advances_more n s db ts i t s' db' t' w' :
    ts !! i = Some t -> advance s db t = Some (s', db', t') ->
    advances n (MkWorld s' db' (<[i := t']> ts)) w' -> advances (S n) (MkWorld s db ts) w'.

Lemma advance_left s db t s' db' t' :
  thread_ok s db t -> advance s db t = Some (s', db', t') -> (steps_left t' < steps_left t)%nat.
Proof.
  intros [_ Hp] H. unfold advance in H. unfold phase_ok in Hp. unfold steps_left at 2.
  destruct (t_phase t) as [| |r|e|r|r] eqn:E.
  - destruct (claim _ _ _ _) as [[q s1]|e]; injection H as <- <- <-; cbn; lia.
  - destruct (t_seq t); [|done]. destruct (t_call t) as [i d o|i d w|i d w].
    + destruct (obs_Validate o); [|injection H as <- <- <-; cbn; lia].
      destruct (negb _); [injection H as <- <- <-; cbn; lia|].
      destruct (sink_submit _ _ _ _). injection H as <- <- <-. cbn. lia.
    + unfold unsafe_step in H. destruct (validateConnectorRunText _ w _); injection H as <- <- <-; cbn; lia.
    + unfold unsafe_step in H. destruct (validateConnectorRunText _ w _); injection H as <- <- <-; cbn; lia.
  - destruct Hp as (_ & Hsub & _). destruct (t_seq t); [|done]. destruct (t_call t) as [i d o|i d w|i d w]; [|done|done].
    destruct r as [ref|[]]; [destruct (validateConnectorReturnedRef _ _ _)|..]; injection H as <- <- <-; cbn; lia.
  - injection H as <- <- <-. unfold steps_left, after_failure, to_phase. cbn. destruct (_ && _); lia.
  - injection H as <- <- <-. cbn. lia.
  - done.
Qed.

Lemma left_insert ts i t t' :
  ts !! i = Some t -> (all_left (<[i := t']> ts) + steps_left t = all_left ts + steps_left t')%nat.
Proof.
  assert (Hcons : forall x ts, all_left (x :: ts) = (steps_left x + all_left ts)%nat) by done.
  revert i. induction ts as [|x ts IH]; intros [|i] H; try done.
  - injection H as ->. change (<[0%nat := t']> (t :: ts)) with (t' :: ts). rewrite !Hcons. lia.
  - change (<[S i := t']> (x :: ts)) with (x :: <[i := t']> ts). rewrite !Hcons. specialize (IH i H). lia.
Qed.

Lemma left_bound ts : (all_left ts <= 5 * length ts)%nat.
Proof.
  induction ts as [|t ts IH]; [done|]. change (all_left (t :: ts)) with (steps_left t + all_left ts)%nat. cbn [length].
  assert (steps_left t <= 5)%nat by (unfold steps_left; destruct (t_phase t); lia). lia.
Qed.

(** A call that is in flight has a next step. *)
Lemma inflight_advances s db t : thread_ok s db t -> inflight t = true -> is_Some (advance s db t).
Proof.
  intros [_ Hp] H. unfold inflight in H. unfold advance. destruct (t_seq t); [|by rewrite andb_false_r in H].
  destruct (t_phase t); try (by eexists). by rewrite andb_false_r in H.
Qed.

Lemma advances_facts n w w' :
  advances n w w' -> world_inv w ->
  world_inv w' /\ ss_closed (w_session w') = ss_closed (w_session w) /\
  (n + all_left (w_threads w') <= all_left (w_threads w))%nat.
Proof.
  induction 1 as [w|n s db ts i t s' db' t' w' Hi Ha _ IH]; intros I; [done|].
  pose proof (wi_threads _ I t (list_elem_of_lookup_2 _ _ _ Hi)) as Ht. cbn in Ht.
  pose proof (advance_ok _ _ _ _ _ _ (wi_definitions _ I) Ht Ha) as Hs.
  destruct (IH (advance_inv _ _ _ _ _ _ _ _ I Hi Ha)) as (I' & Hc & Hl).
  cbn [w_threads w_session] in *.
  pose proof (advance_left _ _ _ _ _ _ Ht Ha). pose proof (left_insert ts i t t' Hi).
  split_and!; [done|by rewrite Hc, (so_closed _ _ _ _ _ _ Hs)|lia].
Qed.

(** C38: [Finalize] waits for a finite time: after the session is closed, at most
    five steps of each call are left, in whatever order they run, and as long as
    the session is not drained some call can take its next step. *)
Theorem finalize_drains binding checkpoint definitions s0 db0 w w' n :
  NewConnectorRunSession binding checkpoint definitions = Ok s0 -> world_steps (MkWorld s0 db0 []) w ->
  ss_closed (w_session w) = true -> advances n w w' ->
  (n <= 5 * length (w_threads w))%nat /\
  (ss_drained (w_session w') = true <-> ss_inFlight (w_session w') = 0) /\
  (ss_drained (w_session w') = true \/
   exists i t, w_threads w' !! i = Some t /\ is_Some (advance (w_session w') (w_db w') t)).
Proof.
  intros Hn Hs Hc Ha. assert (I : world_inv w) by (by eapply reached_inv).
  destruct (advances_facts n w w' Ha I) as (I' & Hc' & Hl). pose proof (left_bound (w_threads w)).
  pose proof (wi_drained _ I') as Hd. unfold drained_ok in Hd. rewrite Hc', Hc in Hd. cbn in Hd.
  split_and!; [lia|by rewrite Hd, Z.eqb_eq|]. destruct (Z.eqb_spec (ss_inFlight (w_session w')) 0) as [Hz|Hz]; [by left|].
  right. rewrite (wi_flight _ I') in Hz. unfold flight_count, tally in Hz.
  destruct (List.filter inflight (w_threads w')) as [|t ts] eqn:Ef; [done|].
  assert (Hin : In t (List.filter inflight (w_threads w'))) by (rewrite Ef; by left).
  apply filter_In in Hin as [Hin Hfl]. apply list_elem_of_In, list_elem_of_lookup in Hin as [i Hi].
  exists i, t. split; [done|]. apply inflight_advances; [|done]. apply (wi_threads _ I'). by eapply list_elem_of_lookup_2.
Qed.
End draining.

(** ** What a run reports *)

Section reports.
Context {DB O : Type} {IG : Ingestion DB O} {IL : IngestionLaws DB O}.

Implicit Types (w : World DB O).

#[local] Instance seq_le_total : Total seq_le.
Proof. intros a b. unfold seq_le. lia. Qed.
#[local] Instance seq_le_trans : Transitive seq_le.
Proof. intros a b c. unfold seq_le. lia. Qed.

Lemma claim_order s :
  StronglySorted (fun a b => exists p q, ss_outcomes s !! p = Some a /\ ss_outcomes s !! q = Some b /\ p < q) (Outcomes s).
Proof.
  unfold Outcomes. set (l := merge_sort seq_le (map_to_list (ss_outcomes s))).
  assert (Hp : l ≡ₚ map_to_list (ss_outcomes s)) by apply merge_sort_Permutation.
  assert (Hs : StronglySorted seq_le l) by (apply StronglySorted_merge_sort; apply _).
  assert (Hn : NoDup (map fst l)) by (rewrite Hp; apply NoDup_fst_map_to_list).
  assert (Hin : forall q o, (q, o) ∈ l -> ss_outcomes s !! q = Some o)
    by (intros q o; rewrite Hp; apply elem_of_map_to_list).
  clearbody l. clear Hp. induction Hs as [|[q o] l _ IH Hle]; [constructor|]. cbn in *. apply NoDup_cons in Hn as [Hnin Hn].
  constructor; [apply IH; [done|]; intros; apply Hin; by right|].
  apply Forall_forall. intros o' ([q' o2] & -> & Hin')%list_elem_of_fmap. cbn.
  exists q, q'. split_and!; [apply Hin; left|apply Hin; by right|].
  rewrite Forall_forall in Hle. specialize (Hle _ Hin'). unfold seq_le in Hle. cbn in Hle.
  assert (q <> q'); [|lia]. intros ->. apply Hnin, list_elem_of_fmap. by exists (q', o2).
Qed.

Lemma strongly_sorted_mono {A} (R S : A -> A -> Prop) l :
  (forall a b, R a b -> S a b) -> StronglySorted R l -> StronglySorted S l.
Proof. intros H. induction 1; constructor; [done|]. eapply Forall_impl; eauto. Qed.

(** At every point of a run the outcomes are well formed and in the order in
    which their items were claimed, no item has two, and the reference of an
    accepted one is in the durable store. *)
Theorem outcomes_reported binding checkpoint definitions s0 db0 w :
  NewConnectorRunSession binding checkpoint definitions = Ok s0 -> world_steps (MkWorld s0 db0 []) w ->
  let ids := ss_itemIDs (w_session w) in
  NoDup (map itemID (Outcomes (w_session w))) /\
  StronglySorted (fun a b => exists p q, ids !! itemID a = Some p /\ ids !! itemID b = Some q /\ p < q)
    (Outcomes (w_session w)) /\
  forall o, o ∈ Outcomes (w_session w) ->
    validate_outcome o = Ok tt /\
    (io_status o = SubAccepted -> exists ref, io_sourceRef o = Some ref /\ durable (w_db w) ref).
Proof.
  intros Hn Hs ids. assert (I : world_inv w) by (by eapply reached_inv). split_and!.
  - by apply outcomes_wellformed.
  - eapply strongly_sorted_mono; [|apply claim_order]. intros a b (p & q & Ha & Hb & Hlt). exists p, q.
    destruct (outcome_owner w p a I Ha) as (_ & ? & _), (outcome_owner w q b I Hb) as (_ & ? & _). done.
  - intros o [q Ho]%elem_outcomes. destruct (outcome_owner w q o I Ho) as (? & _ & ?). done.
Qed.
End reports.

(** ** Committing from outside a run *)

Section commits.
Context {CS : Type} {ST : CheckpointStore CS}.

(** What the wire shows of a stored checkpoint: absence is JSON null. *)
Definition shown (c : ConnectorCheckpoint) : ConnectorCheckpoint :=
  if found c then c else MkCheckpoint true null_text.

Lemma shown_valid c : validate_checkpoint c = Ok tt -> validate_checkpoint (shown c) = Ok tt.
Proof. unfold shown. destruct (found c); [done|]. intros _. vm_compute. reflexivity. Qed.

Lemma comparable_shown c : (if found c then Ok c else NewConnectorCheckpoint null_text) = Ok (shown c).
Proof. unfold shown. destruct (found c); [done|]. vm_compute. reflexivity. Qed.

(** A commit is a compare-and-swap on the JSON value: it saves the new text over
    the checkpoint that it loaded exactly when the expected text is the value that
    is shown for that checkpoint, absence being null; otherwise the store is as it
    was, and the error says which check stopped it. *)
Theorem commit_compares_and_swaps cs binding checkpoint expected actual :
  validate_binding binding = Ok tt -> cs_Load cs binding = Ok actual -> validate_checkpoint actual = Ok tt ->
  let '(cs', r) := CommitCheckpoint cs binding checkpoint expected in
  match r with
  | Ok next =>
      next = MkCheckpoint true checkpoint /\ same_checkpoint (shown actual) (MkCheckpoint true expected) /\
      cs_Save cs binding next actual = Ok cs'
  | Err e =>
      cs' = cs /\
      (NewConnectorCheckpoint checkpoint = Err e \/ NewConnectorCheckpoint expected = Err e \/
       e = EStore "checkpoint conflict" /\ ~ same_checkpoint (shown actual) (MkCheckpoint true expected) \/
       cs_Save cs binding (MkCheckpoint true checkpoint) actual = Err e)
  end.
Proof.
  intros Hb Hl Hv. unfold CommitCheckpoint. rewrite Hb, Hl. cbn.
  destruct (NewConnectorCheckpoint checkpoint) as [next|e] eqn:En; cbn; [|auto].
  destruct (NewConnectorCheckpoint expected) as [comparison|e] eqn:Ex; cbn; [|auto].
  apply new_checkpoint_ok in En as [-> _], Ex as [-> Hx]. rewrite comparable_shown. cbn [bind].
  destruct (checkpoint_equal _ _ (shown_valid _ Hv) Hx) as (eq & -> & Heq). cbn. destruct eq; cbn.
  - destruct (cs_Save cs binding (MkCheckpoint true checkpoint) actual) as [cs'|e] eqn:Es; cbn; [|auto 6].
    split_and!; [done|by apply Heq|done].
  - split; [done|]. right; right; left. split; [done|]. intros H%Heq. done.
Qed.
End commits.

(** ** A concrete run *)

#[local] Instance demo_ingestion : Ingestion (list Source.Ref) Source.Ref := {
  obs_Validate _ := Ok tt;
  obs_Ref o := o;
  SubmitAccepted db _ o :=
    if String.eqb (Source.sourceID o) "refused" then (db, inl IngInvalidObservation) else (o :: db, inr o);
  durable db ref := ref ∈ db
}.

#[local] Instance demo_laws : IngestionLaws (list Source.Ref) Source.Ref.
Proof.
  split; cbn; intros db scope o db' r.
  - destruct (String.eqb _ _); [done|]. intros [= <- <-]. left.
  - intros ref. destruct (String.eqb _ _); intros [= <- <-] H; [done|by right].
Qed.

#[local] Instance demo_store : CheckpointStore ConnectorCheckpoint := {
  cs_Load cs _ := Ok cs;
  cs_Save cs _ next expected := if bool_decide (cs = expected) then Ok next else Err (EStore "checkpoint conflict")
}.

Definition demo_binding : ConnectorBinding := MkBinding "scope" "binding" "mail" "1".
Definition demo_connector : option Declaration := Some (MkDeclaration "mail" "1" ["message"]).
Definition demo_ref : Source.Ref := Source.MkRef "message" "m1".
Definition demo_completion : RunCompletion := MkCompletion RunComplete checkpoint_a.
Definition demo_previous : ConnectorCheckpoint := NoConnectorCheckpoint.

Definition demo_session : Session := MkSession demo_binding demo_previous {["message"]} ∅ ∅ 0 None false 0 false.
Definition demo_start : World (list Source.Ref) Source.Ref := MkWorld demo_session [] [].

(** One submission, closed over while the sink works. *)
Definition demo_events : list (event Source.Ref) :=
  [EvCall (CSubmit "item" "message" demo_ref); EvAdvance 0; EvClose; EvAdvance 0; EvAdvance 0; EvAdvance 0].
Definition demo_end : World (list Source.Ref) Source.Ref :=
  Eval vm_compute in match play demo_events demo_start with Some w => w | None => demo_start end.

Lemma demo_steps : world_steps demo_start demo_end.
Proof. apply (play_sound demo_events). vm_compute. reflexivity. Qed.

Lemma demo_started : start_run demo_previous (Ok tt) demo_connector demo_binding = Ok (demo_previous, demo_session).
Proof. vm_compute. reflexivity. Qed.

Definition demo_items : list ItemOutcome := Outcomes (w_session demo_end).

Lemma demo_concludes :
  conclude demo_previous demo_binding demo_previous (Ok demo_completion) (Ok tt) (ss_failure (w_session demo_end)) demo_items
  = (checkpoint_a, Ok (MkResult demo_binding RunComplete demo_previous checkpoint_a checkpoint_a demo_items)).
Proof. vm_compute. reflexivity. Qed.

Lemma checkpoint_advances_safely_witness :
  start_run demo_previous (Ok tt) demo_connector demo_binding = Ok (demo_previous, demo_session) /\
  ss_drained (w_session demo_end) = true /\ demo_items = [acceptedConnectorOutcome "item" "message" demo_ref] /\
  all_durable demo_end.
Proof.
  split; [exact demo_started|]. split; [vm_compute; reflexivity|]. split; [vm_compute; reflexivity|].
  pose proof (checkpoint_advances_safely demo_previous (Ok tt) demo_connector demo_binding demo_previous demo_session []
    demo_end demo_end (Ok demo_completion) (Ok tt) demo_started demo_steps (fun _ => eq_refl) (steps_refl _)) as H.
  cbv zeta in H. fold demo_items in H. rewrite demo_concludes in H. destruct H as [_ H].
  destruct H as (? & _ & _ & _ & _ & _ & H); [left; discriminate|exact H].
Defined.

Lemma demo_session_new :
  NewConnectorRunSession demo_binding demo_previous ["message"%string] = Ok demo_session.
Proof. vm_compute. reflexivity. Qed.

Lemma outcomes_reported_witness :
  Outcomes (w_session demo_end) = [acceptedConnectorOutcome "item" "message" demo_ref] /\
  NoDup (map itemID (Outcomes (w_session demo_end))).
Proof.
  split; [vm_compute; reflexivity|].
  apply (outcomes_reported demo_binding demo_previous ["message"%string] demo_session [] demo_end demo_session_new demo_steps).
Defined.

(** Closed while the submission is in flight; it drains in three steps. *)
Definition demo_closing : World (list Source.Ref) Source.Ref :=
  Eval vm_compute in match play (firstn 3 demo_events) demo_start with Some w => w | None => demo_start end.

Lemma demo_closing_steps : world_steps demo_start demo_closing.
Proof. apply (play_sound (firstn 3 demo_events)). vm_compute. reflexivity. Qed.

Lemma finalize_drains_witness :
  ss_closed (w_session demo_closing) = true /\ ss_drained (w_session demo_closing) = false /\
  (exists i t, w_threads demo_closing !! i = Some t /\ is_Some (advance (w_session demo_closing) (w_db demo_closing) t)).
Proof.
  split; [reflexivity|]. split; [reflexivity|].
  pose proof (finalize_drains demo_binding demo_previous ["message"%string] demo_session [] demo_closing demo_closing 0
    demo_session_new demo_closing_steps eq_refl (advances_none _)) as (_ & _ & [H|H]); [discriminate H|exact H].
Defined.

Lemma commit_compares_and_swaps_witness :
  CommitCheckpoint demo_previous demo_binding (json_text "[1]") (json_text " null")
    = (MkCheckpoint true (json_text "[1]"), Ok (MkCheckpoint true (json_text "[1]"))) /\
  same_checkpoint (shown demo_previous) (MkCheckpoint true (json_text " null")).
Proof.
  pose proof (commit_compares_and_swaps demo_previous demo_binding (json_text "[1]") (json_text " null") demo_previous
    eq_refl eq_refl eq_refl) as H.
  assert (E : CommitCheckpoint demo_previous demo_binding (json_text "[1]") (json_text " null")
    = (MkCheckpoint true (json_text "[1]"), Ok (MkCheckpoint true (json_text "[1]")))) by (vm_compute; reflexivity).
  rewrite E in H. split; [exact E|apply H].
Defined.

(** An item that is rejected as the run ends: the claim of [Reject] is not counted
    in flight, so the session drains and the checkpoint is saved before the outcome
    is recorded. *)
Definition late_events : list (event Source.Ref) :=
  [EvCall (CReject "item" "message" "bad"); EvAdvance 0; EvClose].
Definition late_world (n : nat) : World (list Source.Ref) Source.Ref :=
  match play (late_events ++ repeat (EvAdvance 0) n) demo_start with Some w => w | None => demo_start end.

Lemma reject_after_checkpoint :
  let saved := late_world 0 in let later := late_world 1 in
  world_steps demo_start saved /\ world_steps saved later /\ ss_drained (w_session saved) = true /\
  conclude demo_previous demo_binding demo_previous (Ok demo_completion) (Ok tt) (ss_failure (w_session saved)) (Outcomes (w_session saved))
  = (checkpoint_a, Ok (MkResult demo_binding RunComplete demo_previous checkpoint_a checkpoint_a [])) /\
  existsb is_unsafe (Outcomes (w_session later)) = true.
Proof.
  cbn zeta. split_and!; [apply (play_sound late_events)|apply (play_sound [EvAdvance 0])|..]; vm_compute; reflexivity.
Qed.
