(* ===== verification/ScopeCache.v ===== *)
(** * The scope cache ([internal/runtime/scope_cache.go])

    Entries are heap objects, since a lease keeps a pointer to its entry after the
    cache may have dropped it: an evicted entry and a new one of the same key are
    distinct, with distinct semaphores.  The recency list holds addresses, oldest
    first.  Callbacks are the lists of evicted keys and the counts; their panics are
    recovered by the code. *)

From S2P Require Import Prelude.
Record scopeEntry := MkEntry {
  se_key : string;
  (** the semaphore's token is in its channel *)
  se_free : bool;
  se_leases : Z
}.

Record scopeCache := MkCache {
  sc_capacity : Z; sc_entries : gmap string nat; sc_recency : list nat;
  sc_heap : gmap nat scopeEntry; sc_next : nat
}.

Definition newScopeCache (capacity : Z) : scopeCache := MkCache capacity ∅ [] ∅ 0.

Definition leases_of (c : scopeCache) (a : nat) : Z :=
  match sc_heap c !! a with Some e => se_leases e | None => 0 end.
Definition key_of (c : scopeCache) (a : nat) : string :=
  match sc_heap c !! a with Some e => se_key e | None => "" end.

Definition remove_element (a : nat) (l : list nat) : list nat := List.filter (fun b => negb (Nat.eqb b a)) l.
Definition move_to_back (a : nat) (l : list nat) : list nat := remove_element a l ++ [a].

Definition inactive (c : scopeCache) (a : nat) : bool := leases_of c a =? 0.

Definition oldestInactiveLocked (c : scopeCache) : option nat := List.find (inactive c) (sc_recency c).

Definition evictLocked (a : nat) (c : scopeCache) : scopeCache :=
  MkCache (sc_capacity c) (delete (key_of c a) (sc_entries c)) (remove_element a (sc_recency c)) (sc_heap c) (sc_next c).

(** The loops of [makeRoomLocked] and [trimLocked]: each turn evicts an entry. *)
Fixpoint evict_while (over : Z -> bool) (fuel : nat) (c : scopeCache) : list string * scopeCache :=
  match fuel with
  | 0%nat => ([], c)
  | S n =>
      if over (Z.of_nat (size (sc_entries c))) then
        match oldestInactiveLocked c with
        | None => ([], c)
        | Some a =>
            let '(evicted, c') := evict_while over n (evictLocked a c) in
            (key_of c a :: evicted, c')
        end
      else ([], c)
  end.

Definition makeRoomLocked (c : scopeCache) : list string * scopeCache :=
  evict_while (fun n => sc_capacity c <=? n) (size (sc_entries c)) c.
Definition trimLocked (c : scopeCache) : list string * scopeCache :=
  evict_while (fun n => sc_capacity c <? n) (size (sc_entries c)) c.

Definition countsLocked (c : scopeCache) : Z * Z :=
  let addresses := map snd (map_to_list (sc_entries c)) in
  (Z.of_nat (length (List.filter (inactive c) addresses)),
   Z.of_nat (length (List.filter (fun a => negb (inactive c a)) addresses))).

Definition set_entry (a : nat) (e : scopeEntry) (c : scopeCache) : scopeCache :=
  MkCache (sc_capacity c) (sc_entries c) (sc_recency c) (<[a := e]> (sc_heap c)) (sc_next c).

Definition touch (a : nat) (c : scopeCache) : scopeCache :=
  MkCache (sc_capacity c) (sc_entries c) (move_to_back a (sc_recency c)) (sc_heap c) (sc_next c).

(** [entry.leases += d] *)
Definition add_leases (a : nat) (d : Z) (c : scopeCache) : scopeCache :=
  match sc_heap c !! a with
  | Some e => set_entry a (MkEntry (se_key e) (se_free e) (se_leases e + d)) c
  | None => c
  end.

Definition insert_entry (key : string) (c : scopeCache) : scopeCache :=
  MkCache (sc_capacity c) (<[key := sc_next c]> (sc_entries c)) (sc_recency c ++ [sc_next c])
    (<[sc_next c := MkEntry key true 0]> (sc_heap c)) (S (sc_next c)).

(** [lease]: the leased address, what was evicted, and the counts observed. *)
Definition lease (key : string) (c : scopeCache) : nat * list string * scopeCache :=
  match sc_entries c !! key with
  | Some a => (a, [], touch a (add_leases a 1 c))
  | None =>
      let '(evicted, c1) := makeRoomLocked c in
      let a := sc_next c1 in
      (a, evicted, touch a (add_leases a 1 (insert_entry key c1)))
  end.

(** [release]; [None] is its panic. *)
Definition release_lease (a : nat) (c : scopeCache) : option (list string * scopeCache) :=
  if negb (bool_decide (sc_entries c !! key_of c a = Some a)) || (leases_of c a <? 1) then None
  else Some (trimLocked (touch a (add_leases a (-1) c))).

(** [clear]; [None] is its error. *)
Definition clear (c : scopeCache) : option (list string * scopeCache) :=
  if existsb (fun ka => 0 <? leases_of c (snd ka)) (map_to_list (sc_entries c)) then None
  else Some (map (key_of c) (sc_recency c), MkCache (sc_capacity c) ∅ [] (sc_heap c) (sc_next c)).

(** ** Semaphores *)

(** A channel of capacity one that starts with its token. *)
Definition entry_free (c : scopeCache) (a : nat) : bool :=
  match sc_heap c !! a with Some e => se_free e | None => false end.

Definition contended (c : scopeCache) (a : nat) : bool := negb (entry_free c a).

Definition set_token (a : nat) (free : bool) (c : scopeCache) : scopeCache :=
  match sc_heap c !! a with
  | Some e => set_entry a (MkEntry (se_key e) free (se_leases e)) c
  | None => c
  end.

Example scope_cache_1 :
  let '(a, _, c) := lease "a" (newScopeCache 1) in
  let '(b, evicted, c) := lease "b" c in
  (evicted, countsLocked c,
   match release_lease a c with Some (evicted, c) => Some (evicted, countsLocked c) | None => None end)
  = ([], (0, 2), Some (["a"%string], (0, 1))).
Proof. vm_compute. reflexivity. Qed.

(** ** Facts about the scope cache: its invariant, and what each operation keeps *)
Implicit Types (c : scopeCache) (a b : nat) (k : string).

(** Entries, recency list and heap agree; a leased entry is in the cache. *)
Record cache_wf c : Prop := {
  wf_map : forall k a, sc_entries c !! k = Some a -> exists e, sc_heap c !! a = Some e /\ se_key e = k;
  wf_recency : forall a, a ∈ sc_recency c <-> exists k, sc_entries c !! k = Some a;
  wf_nodup : NoDup (sc_recency c);
  wf_leases : forall a e, sc_heap c !! a = Some e ->
    0 <= se_leases e /\ (0 < se_leases e -> sc_entries c !! se_key e = Some a);
  wf_next : forall a e, sc_heap c !! a = Some e -> (a < sc_next c)%nat
}.

(** Every entry is leased. *)
Definition all_leased c : Prop := forall a, a ∈ sc_recency c -> inactive c a = false.

(** The cache holds no more than its capacity, unless leases force it to. *)
Definition bounded c : Prop := Z.of_nat (size (sc_entries c)) <= sc_capacity c \/ all_leased c.

(** ** Lists of addresses *)

Lemma elem_remove a b l : b ∈ remove_element a l <-> b ∈ l /\ b <> a.
Proof. unfold remove_element. rewrite !list_elem_of_In, filter_In, negb_true_iff, Nat.eqb_neq. done. Qed.

Lemma remove_nodup a l : NoDup l -> NoDup (remove_element a l).
Proof.
  unfold remove_element. induction 1 as [|b l Hb _ IH]; cbn; [constructor|].
  destruct (negb _); [|done]. constructor; [|done]. intros H. by apply elem_remove in H as [? _].
Qed.

Lemma elem_touch a b l : a ∈ l -> b ∈ move_to_back a l <-> b ∈ l.
Proof.
  intros H. unfold move_to_back. rewrite elem_of_app, elem_remove, list_elem_of_singleton.
  destruct (decide (b = a)) as [->|]; naive_solver.
Qed.

Lemma touch_nodup a l : NoDup l -> NoDup (move_to_back a l).
Proof.
  intros H. unfold move_to_back. apply NoDup_app. split; [by apply remove_nodup|]. split; [|apply NoDup_singleton].
  intros b Hb ->%list_elem_of_singleton. by apply elem_remove in Hb as [_ ?].
Qed.

(** ** Eviction *)

Lemma cached_key c k a : cache_wf c -> sc_entries c !! k = Some a -> key_of c a = k.
Proof. intros W H. destruct (wf_map c W k a H) as (e & He & <-). unfold key_of. by rewrite He. Qed.

Lemma oldest_some c a : oldestInactiveLocked c = Some a -> a ∈ sc_recency c /\ inactive c a = true.
Proof. unfold oldestInactiveLocked. intros H. apply find_some in H as [H ?]. by apply list_elem_of_In in H. Qed.

Lemma oldest_none c : oldestInactiveLocked c = None -> all_leased c.
Proof. intros H a Ha. apply list_elem_of_In in Ha. by apply (find_none _ _ H). Qed.

Lemma evict_wf c a k : cache_wf c -> sc_entries c !! k = Some a -> inactive c a = true -> cache_wf (evictLocked a c).
Proof.
  intros W Hk Hi. pose proof (cached_key c k a W Hk) as Ek. destruct W as [H1 H2 H3 H4 H5]. unfold evictLocked. rewrite Ek.
  assert (Hinj : forall j b, sc_entries c !! j = Some b -> j <> k -> b <> a).
  { intros j b Hj Hne ->. apply Hne. destruct (H1 _ _ Hj) as (e & He & <-), (H1 _ _ Hk) as (e' & He' & <-). congruence. }
  split; cbn.
  - intros j b [Hne Hj]%lookup_delete_Some. by apply H1.
  - intros b. rewrite elem_remove, H2. split.
    + intros [[j Hj] Hne]. exists j. apply lookup_delete_Some. split; [|done]. intros ->. congruence.
    + intros [j [Hne Hj]%lookup_delete_Some]. split; [by exists j|]. by eapply Hinj.
  - by apply remove_nodup.
  - intros b e He. destruct (H4 b e He) as [Hp Hl]. split; [done|]. intros Hpos. apply lookup_delete_Some.
    split; [|by apply Hl]. intros ->. specialize (Hl Hpos). assert (a = b) as <- by congruence.
    unfold inactive, leases_of in Hi. rewrite He in Hi. apply Z.eqb_eq in Hi. lia.
  - exact H5.
Qed.

(** What evictions do: leased entries stay, and the heap is not touched. *)
Record evicts over c c' : Prop := {
  ev_heap : sc_heap c' = sc_heap c;
  ev_next : sc_next c' = sc_next c;
  ev_capacity : sc_capacity c' = sc_capacity c;
  ev_sub : forall k a, sc_entries c' !! k = Some a -> sc_entries c !! k = Some a;
  ev_leased : forall k a, sc_entries c !! k = Some a -> inactive c a = false -> sc_entries c' !! k = Some a;
  ev_enough : over (Z.of_nat (size (sc_entries c'))) = false \/ all_leased c'
}.

Lemma evict_while_ok over n c evicted c' :
  (forall m, over m = true -> 0 < m) ->
  cache_wf c -> (size (sc_entries c) <= n)%nat -> evict_while over n c = (evicted, c') -> cache_wf c' /\ evicts over c c'.
Proof.
  intros Hover. revert c evicted. induction n as [|n IH]; intros c evicted W Hn H; cbn in H.
  - injection H as <- <-. split; [done|]. split; try done. left.
    destruct (over _) eqn:E; [|done]. apply Hover in E. lia.
  - destruct (over (Z.of_nat (size (sc_entries c)))) eqn:E; [|injection H as <- <-; split; [done|]; split; auto].
    destruct (oldestInactiveLocked c) as [a|] eqn:Eo.
    2: { injection H as <- <-. split; [done|]. split; try done. right. by apply oldest_none. }
    apply oldest_some in Eo as [Ha Hi]. apply (wf_recency c W) in Ha as [k Hk].
    destruct (evict_while over n (evictLocked a c)) as [ks c1] eqn:E1. injection H as <- <-.
    pose proof (cached_key c k a W Hk) as Ek.
    assert (Hsize : (size (sc_entries (evictLocked a c)) <= n)%nat).
    { unfold evictLocked. cbn. rewrite Ek, map_size_delete, Hk. cbn. lia. }
    destruct (IH _ _ (evict_wf c a k W Hk Hi) Hsize E1) as [W' [G1 G2 G3 G4 G5 G6]]. split; [done|].
    assert (Hinact : forall b, inactive (evictLocked a c) b = inactive c b) by done.
    split; try done.
    + intros j b Hj%G4. cbn in Hj. rewrite Ek in Hj. by apply lookup_delete_Some in Hj as [_ ?].
    + intros j b Hj Hb. apply G5; [|by rewrite Hinact]. cbn. rewrite Ek. apply lookup_delete_Some. split; [|done].
      intros <-. congruence.
Qed.

(** ** Leases *)

Lemma touch_wf c a : cache_wf c -> a ∈ sc_recency c -> cache_wf (touch a c).
Proof.
  intros [H1 H2 H3 H4 H5] Ha. split; cbn; try done; [|by apply touch_nodup].
  intros b. by rewrite elem_touch.
Qed.

Lemma leases_add c a d b :
  leases_of (add_leases a d c) b = if Nat.eqb b a && bool_decide (is_Some (sc_heap c !! a)) then leases_of c b + d else leases_of c b.
Proof.
  unfold add_leases. destruct (sc_heap c !! a) as [e|] eqn:E.
  - rewrite bool_decide_eq_true_2 by by eexists. rewrite andb_true_r. unfold leases_of. cbn [sc_heap set_entry].
    destruct (Nat.eqb_spec b a) as [->|Hne]; [by rewrite lookup_insert_eq, E|by rewrite lookup_insert_ne].
  - rewrite bool_decide_eq_false_2 by by intros [? ?]. by rewrite andb_false_r.
Qed.

Lemma add_leases_wf c k a d :
  cache_wf c -> sc_entries c !! k = Some a -> 0 <= leases_of c a + d -> cache_wf (add_leases a d c).
Proof.
  intros W Hk Hd. pose proof (wf_map c W k a Hk) as (e & He & Hke). unfold add_leases, leases_of in *. rewrite He in *.
  destruct W as [H1 H2 H3 H4 H5]. split; cbn; try done.
  - intros j b Hj. destruct (H1 j b Hj) as (e' & He' & Hkj). destruct (decide (b = a)) as [->|].
    + exists (MkEntry (se_key e) (se_free e) (se_leases e + d)). rewrite lookup_insert_eq. split; [done|]. cbn. congruence.
    + exists e'. by rewrite lookup_insert_ne.
  - intros b e' [[<- <-]|[Hne Hb]]%lookup_insert_Some; [|by apply H4]. cbn. rewrite Hke. done.
  - intros b e' [[<- <-]|[Hne Hb]]%lookup_insert_Some; [by eapply H5|by eapply H5].
Qed.

Lemma insert_wf c k : cache_wf c -> sc_entries c !! k = None -> cache_wf (insert_entry k c).
Proof.
  intros [H1 H2 H3 H4 H5] Hk.
  assert (Hnew : sc_heap c !! sc_next c = None).
  { destruct (sc_heap c !! sc_next c) eqn:E; [|done]. apply H5 in E. lia. }
  assert (Hout : sc_next c ∉ sc_recency c).
  { intros [j Hj]%H2. destruct (H1 _ _ Hj) as (e & He & _). congruence. }
  split; cbn.
  - intros j b [[<- <-]|[Hne Hj]]%lookup_insert_Some.
    + eexists. by rewrite lookup_insert_eq.
    + destruct (H1 j b Hj) as (e & He & Hkj). exists e. rewrite lookup_insert_ne; [done|]. congruence.
  - intros b. rewrite elem_of_app, list_elem_of_singleton, H2. split.
    + intros [[j Hj]| ->]; [|exists k; apply lookup_insert_eq]. exists j. rewrite lookup_insert_ne; [done|]. congruence.
    + intros [j [[_ <-]|[_ Hj]]%lookup_insert_Some]; [by right|left; by exists j].
  - apply NoDup_app. split; [done|]. split; [|apply NoDup_singleton]. intros b Hb ->%list_elem_of_singleton. done.
  - intros b e [[<- <-]|[Hne Hb]]%lookup_insert_Some; cbn; [lia|]. destruct (H4 b e Hb) as [? Hl]. split; [done|].
    intros Hpos. specialize (Hl Hpos). rewrite lookup_insert_ne; [done|]. congruence.
  - intros b e [[<- <-]|[Hne Hb]]%lookup_insert_Some; [lia|]. apply H5 in Hb. lia.
Qed.

(** What an allocated address holds, other than the leases, stays. *)
Record same_objects c c' : Prop := {
  sm_key : forall b, is_Some (sc_heap c !! b) -> key_of c' b = key_of c b;
  sm_free : forall b, is_Some (sc_heap c !! b) -> entry_free c' b = entry_free c b;
  sm_alive : forall b, is_Some (sc_heap c !! b) -> is_Some (sc_heap c' !! b);
  sm_capacity : sc_capacity c' = sc_capacity c
}.

Record leases_to k a c c' : Prop := {
  ld_wf : cache_wf c';
  ld_bounded : bounded c';
  ld_entry : sc_entries c' !! k = Some a;
  ld_leases : forall b, leases_of c' b = leases_of c b + (if Nat.eqb b a then 1 else 0);
  ld_objects : same_objects c c';
  ld_alloc : forall b, is_Some (sc_heap c' !! b) -> is_Some (sc_heap c !! b) \/ b = a /\ entry_free c' a = true
}.

Lemma add_same_objects c a d : same_objects c (add_leases a d c).
Proof.
  unfold add_leases. destruct (sc_heap c !! a) as [e|] eqn:E; [|done].
  split; try done; intros b Hb; unfold key_of, entry_free; cbn; destruct (decide (b = a)) as [->|];
    rewrite ?lookup_insert_eq, ?E by done; try done; by rewrite lookup_insert_ne.
Qed.

Lemma add_alive c a d b : is_Some (sc_heap (add_leases a d c) !! b) -> is_Some (sc_heap c !! b).
Proof.
  unfold add_leases. destruct (sc_heap c !! a) as [e|] eqn:E; [|done]. cbn. intros [e' H].
  apply lookup_insert_Some in H as [[<- _]|[_ H]]; [rewrite E|rewrite H]; by eexists.
Qed.

Lemma all_leased_add c a k d :
  sc_entries c !! k = Some a -> cache_wf c -> 0 < leases_of c a + d ->
  (forall b, b ∈ sc_recency c -> b <> a -> inactive c b = false) -> all_leased (touch a (add_leases a d c)).
Proof.
  intros Hk W Hd H b Hb. unfold inactive. change (leases_of (touch a (add_leases a d c)) b) with (leases_of (add_leases a d c) b).
  assert (Ha : a ∈ sc_recency c) by (apply (wf_recency c W); by exists k).
  assert (Hr : sc_recency (add_leases a d c) = sc_recency c) by (unfold add_leases; by destruct (sc_heap c !! a)).
  cbn in Hb. rewrite Hr, elem_touch in Hb by done. rewrite leases_add.
  destruct (wf_map c W k a Hk) as (e & He & _). rewrite bool_decide_eq_true_2, andb_true_r by (rewrite He; by eexists).
  destruct (Nat.eqb_spec b a) as [->|Hne]; [apply Z.eqb_neq; lia|by apply H].
Qed.

Lemma add_entries c a d : sc_entries (add_leases a d c) = sc_entries c.
Proof. unfold add_leases. by destruct (sc_heap c !! a). Qed.
Lemma add_recency c a d : sc_recency (add_leases a d c) = sc_recency c.
Proof. unfold add_leases. by destruct (sc_heap c !! a). Qed.
Lemma add_capacity c a d : sc_capacity (add_leases a d c) = sc_capacity c.
Proof. unfold add_leases. by destruct (sc_heap c !! a). Qed.

(** Adding a lease to a cached entry. *)
Lemma lease_cached k a c :
  cache_wf c -> sc_entries c !! k = Some a ->
  Z.of_nat (size (sc_entries c)) <= sc_capacity c \/ (forall b, b ∈ sc_recency c -> b <> a -> inactive c b = false) ->
  leases_to k a c (touch a (add_leases a 1 c)).
Proof.
  intros W Hk Hb. pose proof (wf_map c W k a Hk) as (e & He & Hke).
  assert (Hl : 0 <= leases_of c a) by (unfold leases_of; rewrite He; apply (wf_leases c W a e He)).
  split.
  - apply touch_wf; [apply (add_leases_wf c k); [done|done|lia]|].
    rewrite add_recency. apply (wf_recency c W). by exists k.
  - destruct Hb as [Hb|Hb]; [left; cbn; by rewrite add_entries, add_capacity|]. right.
    apply (all_leased_add c a k); [done|done|lia|done].
  - cbn. by rewrite add_entries.
  - intros b. change (leases_of (touch a (add_leases a 1 c)) b) with (leases_of (add_leases a 1 c) b). rewrite leases_add.
    rewrite bool_decide_eq_true_2, andb_true_r by (rewrite He; by eexists). destruct (Nat.eqb b a); lia.
  - destruct (add_same_objects c a 1) as [G1 G2 G3 G4]. by split.
  - intros b Hal. left. by apply add_alive in Hal.
Qed.

Lemma evicts_objects over c c' : evicts over c c' -> same_objects c c' /\ forall b, leases_of c' b = leases_of c b.
Proof.
  intros [G1 G2 G3 _ _ _]. unfold leases_of. split; [|intros b; by rewrite G1].
  split; try done; intros b Hb; unfold key_of, entry_free; by rewrite G1.
Qed.

Lemma same_objects_trans c1 c2 c3 : same_objects c1 c2 -> same_objects c2 c3 -> same_objects c1 c3.
Proof.
  intros [A1 A2 A3 A4] [B1 B2 B3 B4]. split; [|..].
  - intros b Hb. rewrite B1 by auto. auto.
  - intros b Hb. rewrite B2 by auto. auto.
  - auto.
  - congruence.
Qed.

Lemma fresh_address c : cache_wf c -> sc_heap c !! sc_next c = None.
Proof. intros W. destruct (sc_heap c !! sc_next c) eqn:E; [|done]. apply (wf_next c W) in E. lia. Qed.

Lemma insert_objects c k : cache_wf c -> same_objects c (insert_entry k c).
Proof.
  intros W. pose proof (fresh_address c W) as Hn.
  split; try done; intros b Hb; unfold key_of, entry_free; cbn;
    (destruct (decide (b = sc_next c)) as [->|]; [rewrite Hn in Hb; by destruct Hb|by rewrite lookup_insert_ne]).
Qed.

Lemma lease_ok k a evicted c c' :
  cache_wf c -> bounded c -> 1 <= sc_capacity c -> lease k c = (a, evicted, c') -> leases_to k a c c'.
Proof.
  intros W B Hcap. unfold lease. destruct (sc_entries c !! k) as [a0|] eqn:Ek.
  - intros [= <- <- <-]. apply lease_cached; [done|done|]. destruct B as [B|B]; [by left|right; auto].
  - destruct (makeRoomLocked c) as [evs c1] eqn:Em. intros [= <- <- <-]. unfold makeRoomLocked in Em.
    destruct (evict_while_ok (fun n => sc_capacity c <=? n) (size (sc_entries c)) c evs c1) as [W1 E1];
      [intros m Hm%Z.leb_le; lia|done|done|done|].
    destruct (evicts_objects _ _ _ E1) as [S1 L1]. destruct E1 as [G1 G2 G3 G4 G5 G6].
    assert (Hk1 : sc_entries c1 !! k = None).
    { destruct (sc_entries c1 !! k) as [b|] eqn:E; [|done]. apply G4 in E. congruence. }
    pose proof (fresh_address c1 W1) as Hfresh.
    assert (Hin : sc_entries (insert_entry k c1) !! k = Some (sc_next c1)) by apply lookup_insert_eq.
    assert (Hold : forall b, leases_of (insert_entry k c1) b = leases_of c1 b).
    { intros b. unfold leases_of. cbn. destruct (decide (b = sc_next c1)) as [->|].
      - by rewrite lookup_insert_eq, Hfresh.
      - by rewrite lookup_insert_ne. }
    destruct (lease_cached k (sc_next c1) (insert_entry k c1) (insert_wf c1 k W1 Hk1) Hin) as [D1 D2 D3 D4 D5 D6].
    { destruct G6 as [G6|G6]; [left|right].
      - apply Z.leb_gt in G6. cbn. rewrite map_size_insert, Hk1. cbn. lia.
      - intros b Hb Hne. unfold inactive. rewrite Hold. apply G6. cbn in Hb.
        apply elem_of_app in Hb as [Hb|Hb%list_elem_of_singleton]; done. }
    split; try done.
    + intros b. rewrite D4, Hold, L1. done.
    + apply (same_objects_trans _ c1); [done|]. apply (same_objects_trans _ (insert_entry k c1)); [by apply insert_objects|done].
    + intros b Hb. destruct (D6 b Hb) as [[e He]|[-> ?]]; [|by right]. cbn in He.
      apply lookup_insert_Some in He as [[<- _]|[_ He]]; [right|left; rewrite <- G1, He; by eexists]. split; [done|].
      rewrite (sm_free _ _ D5); [|cbn; rewrite lookup_insert_eq; by eexists]. unfold entry_free. cbn. by rewrite lookup_insert_eq.
Qed.

Record releases a c c' : Prop := {
  rl_wf : cache_wf c';
  rl_bounded : bounded c';
  rl_leases : forall b, leases_of c' b = leases_of c b - (if Nat.eqb b a then 1 else 0);
  rl_objects : same_objects c c';
  rl_alloc : forall b, is_Some (sc_heap c' !! b) -> is_Some (sc_heap c !! b)
}.

(** A lease that is held can be released: the panic is never reached. *)
Lemma release_ok a c :
  cache_wf c -> bounded c -> 1 <= sc_capacity c -> 0 < leases_of c a ->
  exists evicted c', release_lease a c = Some (evicted, c') /\ releases a c c'.
Proof.
  intros W B Hcap Hl. unfold leases_of in Hl. destruct (sc_heap c !! a) as [e|] eqn:He; [|lia].
  destruct (wf_leases c W a e He) as [_ Hk]. specialize (Hk Hl).
  assert (Ek : key_of c a = se_key e) by (unfold key_of; by rewrite He).
  assert (El : leases_of c a = se_leases e) by (unfold leases_of; by rewrite He).
  unfold release_lease. rewrite Ek, Hk, bool_decide_eq_true_2, El by done.
  replace (se_leases e <? 1) with false by (symmetry; apply Z.ltb_ge; lia). cbn.
  set (c1 := touch a (add_leases a (-1) c)).
  assert (W1 : cache_wf c1).
  { apply touch_wf; [apply (add_leases_wf c (se_key e)); [done|done|lia]|]. rewrite add_recency.
    apply (wf_recency c W). by eexists. }
  destruct (trimLocked c1) as [evs c'] eqn:Et. exists evs, c'. split; [done|]. unfold trimLocked in Et.
  assert (L1 : forall b, leases_of c1 b = leases_of c b - (if Nat.eqb b a then 1 else 0)).
  { intros b. change (leases_of c1 b) with (leases_of (add_leases a (-1) c) b).
    rewrite leases_add, He, bool_decide_eq_true_2, andb_true_r by by eexists. destruct (Nat.eqb b a); lia. }
  assert (S1 : same_objects c c1) by (destruct (add_same_objects c a (-1)) as [G1 G2 G3 G4]; by split).
  destruct (evict_while_ok (fun n => sc_capacity c1 <? n) (size (sc_entries c1)) c1 evs c') as [W2 E2];
    [intros m Hm%Z.ltb_lt; rewrite (sm_capacity _ _ S1) in Hm; lia|done|done|done|].
  destruct (evicts_objects _ _ _ E2) as [S2 L2]. split; try done.
  - destruct (ev_enough _ _ _ E2) as [H|H]; [left|by right]. apply Z.ltb_ge in H. by rewrite (ev_capacity _ _ _ E2).
  - intros b. by rewrite L2, L1.
  - by apply (same_objects_trans _ c1).
  - intros b. rewrite (ev_heap _ _ _ E2). apply add_alive.
Qed.

Lemma clear_some c evicted c' :
  cache_wf c -> clear c = Some (evicted, c') ->
  evicted = map (key_of c) (sc_recency c) /\ cache_wf c' /\ bounded c' /\ sc_heap c' = sc_heap c /\
  sc_capacity c' = sc_capacity c /\ sc_entries c' = ∅ /\ forall a, leases_of c a = 0.
Proof.
  intros W. unfold clear. destruct (existsb _ _) eqn:E; [done|]. intros [= <- <-].
  assert (Hz : forall a, leases_of c a = 0).
  { intros a. unfold leases_of. destruct (sc_heap c !! a) as [e|] eqn:He; [|done].
    destruct (wf_leases c W a e He) as [Hp Hl]. destruct (Z.eq_dec (se_leases e) 0) as [|Hne]; [done|].
    assert (Hk : sc_entries c !! se_key e = Some a) by (apply Hl; lia).
    apply not_true_iff_false in E. exfalso. apply E. apply existsb_exists. exists (se_key e, a).
    split; [by apply list_elem_of_In, elem_of_map_to_list|]. cbn. unfold leases_of. rewrite He. apply Z.ltb_lt. lia. }
  split_and!; try done.
  - destruct W as [H1 H2 H3 H4 H5]. split; cbn; try done.
    + intros a. rewrite elem_of_nil. split; [done|]. intros [k Hk]. by rewrite lookup_empty in Hk.
    + constructor.
    + intros a e He. destruct (H4 a e He) as [Hp _]. split; [done|]. specialize (Hz a). unfold leases_of in Hz. rewrite He in Hz. lia.
  - right. intros a Ha. by apply elem_of_nil in Ha.
Qed.

Lemma clear_none c : cache_wf c -> clear c = None -> exists a, 0 < leases_of c a.
Proof.
  unfold clear. intros W. destruct (existsb _ _) eqn:E; [|done]. intros _.
  apply existsb_exists in E as ([k b] & _ & H). exists b. by apply Z.ltb_lt.
Qed.

(** ** Semaphores *)

Lemma set_token_facts a free c :
  cache_wf c -> bounded c -> is_Some (sc_heap c !! a) ->
  let c' := set_token a free c in
  cache_wf c' /\ bounded c' /\ (forall b, leases_of c' b = leases_of c b) /\ (forall b, key_of c' b = key_of c b) /\
  (forall b, is_Some (sc_heap c !! b) <-> is_Some (sc_heap c' !! b)) /\ sc_capacity c' = sc_capacity c /\
  sc_entries c' = sc_entries c /\
  entry_free c' a = free /\ forall b, b <> a -> entry_free c' b = entry_free c b.
Proof.
  intros W B [e He] c'. subst c'. unfold set_token. rewrite He. cbn.
  assert (Hl : forall b, leases_of (set_entry a (MkEntry (se_key e) free (se_leases e)) c) b = leases_of c b).
  { intros b. unfold leases_of. cbn. destruct (decide (b = a)) as [->|]; [by rewrite lookup_insert_eq, He|by rewrite lookup_insert_ne]. }
  split_and!; try done.
  - destruct W as [H1 H2 H3 H4 H5]. split; cbn; try done.
    + intros k b Hk. destruct (H1 k b Hk) as (e' & He' & Hke). destruct (decide (b = a)) as [->|].
      * exists (MkEntry (se_key e) free (se_leases e)). rewrite lookup_insert_eq. split; [done|]. cbn. congruence.
      * exists e'. by rewrite lookup_insert_ne.
    + intros b e' [[<- <-]|[Hne Hb]]%lookup_insert_Some; [|by apply H4]. cbn. apply (H4 a e He).
    + intros b e' [[<- <-]|[Hne Hb]]%lookup_insert_Some; by eapply H5.
  - destruct B as [B|B]; [by left|right]. intros b Hb. unfold inactive. rewrite Hl. by apply B.
  - intros b. unfold key_of. cbn. destruct (decide (b = a)) as [->|]; [by rewrite lookup_insert_eq, He|by rewrite lookup_insert_ne].
  - intros b. destruct (decide (b = a)) as [->|]; [rewrite lookup_insert_eq, He; by split|by rewrite lookup_insert_ne].
  - unfold entry_free. cbn. by rewrite lookup_insert_eq.
  - intros b Hne. unfold entry_free. cbn. by rewrite lookup_insert_ne.
Qed.
