(* ===== verification/Runtime.v ===== *)
(** * The runtime ([internal/runtime/lifecycle.go], [scheduled_processor.go])

    Admission of operations, the lock of each scope, scheduled processing and
    shutdown.  An operation is a goroutine that moves through the program points
    [pc]; between them it is outside the runtime's critical sections, so that the
    operations and the closer interleave in any way ([world_step]).  What callers,
    scope readers, contexts and resources answer is left to the steps to choose. *)

From S2P Require Import Prelude.
From S2P Require Import GoStrings.
From S2P Require Import ScopeCache.

Definition MaxScopeIDLength : Z := 256.
Definition DefaultScopeCacheSize : Z := 128.

Inductive rt_error :=
| EInvalidScope (detail : string)
| EState (code : string)
| ECanceled
| EConfig (detail : string).

#[export] Instance rt_error_eq_dec : EqDecision rt_error.
Proof. solve_decision. Defined.

Definition ValidateScopeID (scopeID : string) : result rt_error string :=
  require utf8_valid (bytes_of scopeID) && negb (String.eqb (trim_space scopeID) "")
    else EInvalidScope "must not be empty" in
  require rune_count scopeID <=? MaxScopeIDLength else EInvalidScope "must not exceed 256 characters" in
  Ok scopeID.

Record Runtime := MkRuntime {
  r_closing : bool; r_closed : bool; r_active : Z;
  (** the channel, and whether it is closed *)
  r_drained : option bool;
  r_scopes : scopeCache;
  (** the background semaphore's token is in its channel *)
  r_background : bool;
  r_scheduler : bool
}.

Definition NewConfigured (scopeCacheSize : Z) : result rt_error Runtime :=
  let capacity := if scopeCacheSize =? 0 then DefaultScopeCacheSize else scopeCacheSize in
  require negb (capacity <? 1) else EConfig "scope_cache_size must be positive" in
  Ok (MkRuntime false false 0 None (newScopeCache capacity) true false).

Definition AttachScheduler (r : Runtime) : result rt_error Runtime :=
  require negb (r_closing r || r_closed r) else EState "closed" in
  require negb (r_scheduler r) else EState "scheduler" in
  Ok (MkRuntime (r_closing r) (r_closed r) (r_active r) (r_drained r) (r_scopes r) (r_background r) true).

(** ** Critical sections *)

Definition admit_ (canceled : bool) (r : Runtime) : result rt_error Runtime :=
  require negb canceled else ECanceled in
  require negb (r_closing r || r_closed r) else EState "closed" in
  Ok (MkRuntime (r_closing r) (r_closed r) (r_active r + 1) (r_drained r) (r_scopes r) (r_background r) (r_scheduler r)).

(** [None] is the panic of closing a closed channel. *)
Definition release (r : Runtime) : option Runtime :=
  let active := r_active r - 1 in
  let with_drained d :=
    MkRuntime (r_closing r) (r_closed r) active d (r_scopes r) (r_background r) (r_scheduler r) in
  if (active =? 0) && r_closing r then
    match r_drained r with
    | None => Some (with_drained None)
    | Some false => Some (with_drained (Some true))
    | Some true => None
    end
  else Some (with_drained (r_drained r)).

Definition begin_close (r : Runtime) : Runtime :=
  if r_closing r then r
  else MkRuntime true (r_closed r) (r_active r) (Some (r_active r =? 0)) (r_scopes r) (r_background r) (r_scheduler r).

Definition abort_close (r : Runtime) : Runtime :=
  MkRuntime false (r_closed r) (r_active r) None (r_scopes r) (r_background r) (r_scheduler r).

Definition finish_close (r : Runtime) : Runtime :=
  MkRuntime false true (r_active r) None (r_scopes r) (r_background r) (r_scheduler r).

Definition isClosing (r : Runtime) : bool := r_closing r || r_closed r.

Definition with_scopes (c : scopeCache) (r : Runtime) : Runtime :=
  MkRuntime (r_closing r) (r_closed r) (r_active r) (r_drained r) c (r_background r) (r_scheduler r).
Definition with_background (free : bool) (r : Runtime) : Runtime :=
  MkRuntime (r_closing r) (r_closed r) (r_active r) (r_drained r) (r_scopes r) free (r_scheduler r).

(** ** Operations *)

Inductive op :=
| Operation
| ScopedRead (scope : string)
| ScopedWrite (scope : string)
| Background
(** [ScheduledProcessor.process], with the scopes that are listed *)
| Process (scopes : list string).

(** Runs while it holds the background semaphore. *)
Definition serial (o : op) : bool := match o with Background | Process _ => true | _ => false end.
Definition is_process (o : op) : bool := match o with Process _ => true | _ => false end.

(** The scopes that an operation leases in turn, and whether it locks them. *)
Definition visits (o : op) : list (string * bool) :=
  match o with
  | ScopedRead s => [(s, false)]
  | ScopedWrite s => [(s, true)]
  | Process ss => map (fun s => (s, true)) ss
  | _ => []
  end.

(** What is checked before admission. *)
Definition entry_check (o : op) : result rt_error unit :=
  match o with
  | ScopedRead s | ScopedWrite s => let* _ := ValidateScopeID s in Ok tt
  | _ => Ok tt
  end.

Inductive pc :=
| PStart
| PRefused
| PAdmitted
| PBody (todo : list (string * bool))            (** admitted, and serialized if [serial] *)
| PLeased (s : string) (a : nat) (exclusive : bool) (todo : list (string * bool))
| PLocked (s : string) (a : nat) (todo : list (string * bool))      (** its callback runs *)
| PUnlocked (s : string) (a : nat) (todo : list (string * bool))
| PLeaving                                        (** the background semaphore is returned *)
| PEnded
| PCrashing (s : string) (a : nat)                (** a panic unwinds a scheduled scope *)
| PCrashed (s : string) (a : nat).

Inductive op_step (o : op) : Runtime -> pc -> Runtime -> pc -> Prop :=
| step_invalid r e : entry_check o = Err e -> op_step o r PStart r PRefused
| step_refuse r canceled e : admit_ canceled r = Err e -> op_step o r PStart r PRefused
| step_admit r r' : entry_check o = Ok tt -> admit_ false r = Ok r' -> op_step o r PStart r' PAdmitted
(** [Background]: the semaphore, or the context *)
| step_serialize r :
    serial o = true -> r_background r = true -> op_step o r PAdmitted (with_background false r) (PBody (visits o))
| step_serialize_canceled r : serial o = true -> op_step o r PAdmitted r PLeaving
| step_unserialized r : serial o = false -> op_step o r PAdmitted r (PBody (visits o))
(** the scope is not resolved: an error, or the next scope of a scheduled run *)
| step_skip r v todo : is_process o = true -> op_step o r (PBody (v :: todo)) r (PBody todo)
| step_stop r todo : op_step o r (PBody todo) r (PBody [])
| step_lease r s exclusive todo a evicted c :
    is_ok (ValidateScopeID s) = true -> lease s (r_scopes r) = (a, evicted, c) ->
    op_step o r (PBody ((s, exclusive) :: todo)) (with_scopes c r) (PLeased s a exclusive todo)
| step_lock r s a todo :
    entry_free (r_scopes r) a = true ->
    op_step o r (PLeased s a true todo) (with_scopes (set_token a false (r_scopes r)) r) (PLocked s a todo)
| step_lock_canceled r s a todo : op_step o r (PLeased s a true todo) r (PUnlocked s a [])
| step_read r s a todo : op_step o r (PLeased s a false todo) r (PUnlocked s a todo)
(** the callback has returned, or its panic runs the deferred calls *)
| step_unlock r s a todo todo' :
    todo' = todo \/ todo' = [] ->
    op_step o r (PLocked s a todo) (with_scopes (set_token a true (r_scopes r)) r) (PUnlocked s a todo')
(** [process] defers neither the unlock nor the release of the lease; [Background] and
    [Operation] defer theirs *)
| step_panic r s a todo :
    is_process o = true -> op_step o r (PLocked s a todo) (with_background true r) (PCrashing s a)
| step_crash r s a r' : release r = Some r' -> op_step o r (PCrashing s a) r' (PCrashed s a)
| step_unlease r s a todo evicted c :
    release_lease a (r_scopes r) = Some (evicted, c) ->
    op_step o r (PUnlocked s a todo) (with_scopes c r) (PBody todo)
| step_leave_serial r : serial o = true -> op_step o r (PBody []) (with_background true r) PLeaving
| step_leave r : serial o = false -> op_step o r (PBody []) r PLeaving
| step_release r r' : release r = Some r' -> op_step o r PLeaving r' PEnded.

(** ** Shutdown *)

(** Where [Close] is; [closeMu] admits one at a time. *)
Inductive closer :=
| CIdle
| CWaiting
| CScheduler
| CClear
| CResources (left : nat).

Record Thread := MkThread { t_op : op; t_pc : pc }.

(** [w_resources] are owned; [w_released] lists the closes, the last first. *)
Record World := MkWorld {
  w_rt : Runtime; w_threads : list Thread; w_closer : closer; w_resources : nat; w_released : list nat
}.

Inductive close_step (n : nat) : Runtime -> closer -> list nat -> Runtime -> closer -> list nat -> Prop :=
| close_begin r rel : r_closed r = false -> close_step n r CIdle rel (begin_close r) CWaiting rel
| close_canceled r rel : close_step n r CWaiting rel (abort_close r) CIdle rel
| close_drained r rel : r_drained r = Some true -> close_step n r CWaiting rel r CScheduler rel
| close_scheduler r rel : close_step n r CScheduler rel r CClear rel
| close_scheduler_failed r rel : r_scheduler r = true -> close_step n r CScheduler rel r CIdle rel
| close_clear r rel evicted c :
    clear (r_scopes r) = Some (evicted, c) -> close_step n r CClear rel (with_scopes c r) (CResources n) rel
| close_clear_failed r rel : clear (r_scopes r) = None -> close_step n r CClear rel r CIdle rel
| close_resource r rel i : close_step n r (CResources (S i)) rel r (CResources i) (i :: rel)
| close_resource_failed r rel i : close_step n r (CResources (S i)) rel r CIdle rel
| close_done r rel : close_step n r (CResources 0) rel (finish_close r) CIdle rel.

Inductive world_step : World -> World -> Prop :=
| step_call r ts cl n rel o : world_step (MkWorld r ts cl n rel) (MkWorld r (ts ++ [MkThread o PStart]) cl n rel)
| step_op r ts cl n rel i o p r' p' :
    ts !! i = Some (MkThread o p) -> op_step o r p r' p' ->
    world_step (MkWorld r ts cl n rel) (MkWorld r' (<[i := MkThread o p']> ts) cl n rel)
| step_close r ts cl n rel r' cl' rel' :
    close_step n r cl rel r' cl' rel' -> world_step (MkWorld r ts cl n rel) (MkWorld r' ts cl' n rel')
| step_attach r ts cl n rel r' :
    AttachScheduler r = Ok r' -> world_step (MkWorld r ts cl n rel) (MkWorld r' ts cl n rel).

Definition world_steps : World -> World -> Prop := rtc world_step.

Definition start (capacity : Z) (resources : nat) (w : World) : Prop :=
  exists r, NewConfigured capacity = Ok r /\ w = MkWorld r [] CIdle resources [].
