(* ===== verification/RuntimeFacts.v ===== *)
(** * Facts about the runtime: the invariant of its operations and of its closer *)

From S2P Require Import Prelude.
From S2P Require Import GoStrings.
From S2P Require Import ScopeCache.
From S2P Require Import Runtime.

Implicit Types (r : Runtime) (p : pc) (o : op) (ts : list Thread) (w : World).

(** ** What an operation holds, by its program point *)

Definition admitted p : bool :=
  match p with
  | PAdmitted | PBody _ | PLeased _ _ _ _ | PLocked _ _ _ | PUnlocked _ _ _ | PLeaving | PCrashing _ _ => true
  | _ => false
  end.

Definition lease_of p : option (string * nat) :=
  match p with
  | PLeased s a _ _ | PLocked s a _ | PUnlocked s a _ | PCrashing s a | PCrashed s a => Some (s, a)
  | _ => None
  end.

Definition leases_at (a : nat) p : bool :=
  match lease_of p with Some (_, b) => Nat.eqb b a | None => false end.

Definition locks_at (a : nat) p : bool :=
  match p with PLocked _ b _ | PCrashing _ b | PCrashed _ b => Nat.eqb b a | _ => false end.

Definition serialized o p : bool :=
  serial o && match p with PBody _ | PLeased _ _ _ _ | PLocked _ _ _ | PUnlocked _ _ _ => true | _ => false end.

Definition th_admitted (t : Thread) := admitted (t_pc t).
Definition th_leases a (t : Thread) := leases_at a (t_pc t).
Definition th_locks a (t : Thread) := locks_at a (t_pc t).
Definition th_serialized (t : Thread) := serialized (t_op t) (t_pc t).

Definition b2z (b : bool) : Z := if b then 1 else 0.

(** ** The runtime's own consistency *)

Record rt_ok r : Prop := {
  ok_cache : cache_wf (r_scopes r);
  ok_bounded : bounded (r_scopes r);
  ok_capacity : 1 <= sc_capacity (r_scopes r);
  ok_drained : r_drained r = if r_closing r then Some (r_active r =? 0) else None;
  ok_closed : r_closed r = true -> r_closing r = false /\ r_active r = 0
}.

(** The lease of an operation is on an entry of its scope. *)
Definition lease_ok_at (c : scopeCache) p : Prop :=
  forall s a, lease_of p = Some (s, a) -> is_Some (sc_heap c !! a) /\ key_of c a = s.

(** The token of each allocated entry: present, or held by [n] operations. *)
Definition token_is (c : scopeCache) (a : nat) (n : Z) : Prop := is_Some (sc_heap c !! a) -> n = b2z (negb (entry_free c a)).

(** Allocated entries stay, with their keys. *)
Record keeps_keys (c c' : scopeCache) : Prop := {
  kk_key : forall b, is_Some (sc_heap c !! b) -> key_of c' b = key_of c b;
  kk_alive : forall b, is_Some (sc_heap c !! b) -> is_Some (sc_heap c' !! b);
  kk_capacity : sc_capacity c' = sc_capacity c
}.

(** What a step changes: each count by what the operation gains or loses. *)
Record op_effect o r p r' p' : Prop := {
  oe_ok : rt_ok r';
  oe_active : r_active r' = r_active r - b2z (admitted p) + b2z (admitted p');
  oe_leases : forall a, leases_of (r_scopes r') a = leases_of (r_scopes r) a - b2z (leases_at a p) + b2z (leases_at a p');
  oe_token : forall a n, token_is (r_scopes r) a n -> (sc_heap (r_scopes r) !! a = None -> n = 0) ->
    token_is (r_scopes r') a (n - b2z (locks_at a p) + b2z (locks_at a p'));
  oe_background : forall n, n = b2z (negb (r_background r)) ->
    n - b2z (serialized o p) + b2z (serialized o p') = b2z (negb (r_background r'));
  oe_lease : lease_ok_at (r_scopes r') p';
  oe_keys : keeps_keys (r_scopes r) (r_scopes r');
  oe_closing : r_closing r' = r_closing r /\ r_closed r' = r_closed r
}.

Lemma lease_ok_same c c' p : keeps_keys c c' -> lease_ok_at c p -> lease_ok_at c' p.
Proof. intros [S1 S2 _] H s a E. destruct (H s a E) as [Ha Hk]. split; [by apply S2|]. by rewrite S1. Qed.

Lemma same_objects_keys c c' : same_objects c c' -> keeps_keys c c'.
Proof. intros [H1 _ H3 H4]. by split. Qed.

(** A step that keeps the runtime. *)
Lemma idle_step o r p p' :
  rt_ok r -> admitted p = admitted p' -> (forall a, leases_at a p = leases_at a p') ->
  (forall a, locks_at a p = locks_at a p') -> serialized o p = serialized o p' -> lease_ok_at (r_scopes r) p' ->
  op_effect o r p r p'.
Proof.
  intros R Ha Hl Hk Hs Hok. split; try done.
  - rewrite Ha. lia.
  - intros a. rewrite Hl. lia.
  - intros a n Hn _ Hal. rewrite Hk. rewrite <- (Hn Hal). lia.
  - intros n Hn. rewrite Hs. lia.
Qed.

(** A step that changes only the admission of the operation. *)
Lemma admission_step o r p r' p' :
  rt_ok r -> rt_ok r' -> r_scopes r' = r_scopes r -> r_background r' = r_background r ->
  r_closing r' = r_closing r -> r_closed r' = r_closed r ->
  r_active r' = r_active r - b2z (admitted p) + b2z (admitted p') ->
  (forall a, leases_at a p = leases_at a p') -> (forall a, locks_at a p = locks_at a p') ->
  serialized o p = serialized o p' -> lease_ok_at (r_scopes r) p' ->
  op_effect o r p r' p'.
Proof.
  intros R R' Es Eb Ec Ed Ha Hl Hk Hs Hok. split; rewrite ?Es, ?Eb; try done.
  - intros a. rewrite Hl. lia.
  - intros a n Hn _ Hal. rewrite Hk. rewrite <- (Hn Hal). lia.
  - intros n Hn. rewrite Hs. lia.
Qed.

Lemma release_facts r r' :
  rt_ok r -> 1 <= r_active r -> release r = Some r' ->
  rt_ok r' /\ r_scopes r' = r_scopes r /\ r_background r' = r_background r /\ r_closing r' = r_closing r /\
  r_closed r' = r_closed r /\ r_active r' = r_active r - 1.
Proof.
  intros [R1 R2 R3 R4 R5] Hact. unfold release. rewrite R4.
  destruct (Z.eqb_spec (r_active r - 1) 0) as [Hz|Hz], (r_closing r) eqn:Ec; cbn [andb].
  - destruct (Z.eqb_spec (r_active r) 0); [lia|]. intros [= <-]. cbn. split_and!; try done. split; cbn; try done.
    + by rewrite (proj2 (Z.eqb_eq _ _) Hz).
    + intros [Hx _]%R5. done.
  - intros [= <-]. cbn. split_and!; try done.
  - intros [= <-]. cbn. split_and!; try done. split; cbn; try done; [|by intros [Hx _]%R5].
    f_equal. destruct (Z.eqb_spec (r_active r) 0), (Z.eqb_spec (r_active r - 1) 0); try done; lia.
  - intros [= <-]. cbn. split_and!; try done. split; cbn; try done. intros [_ Hx]%R5. lia.
Qed.

(** What the invariant gives for one operation. *)
Record holds o r p : Prop := {
  hd_lease : lease_ok_at (r_scopes r) p;
  hd_active : admitted p = true -> 1 <= r_active r;
  hd_leases : forall a, leases_at a p = true -> 1 <= leases_of (r_scopes r) a;
  hd_locks : forall a, locks_at a p = true -> entry_free (r_scopes r) a = false;
  hd_background : serialized o p = true -> r_background r = false
}.

Lemma leases_at_lease p s a : lease_of p = Some (s, a) -> forall b, leases_at b p = Nat.eqb a b.
Proof. intros E b. unfold leases_at. by rewrite E. Qed.

(** *** Tokens *)

Lemma token_step o r p a free p' :
  rt_ok r -> is_Some (sc_heap (r_scopes r) !! a) -> entry_free (r_scopes r) a = negb free ->
  admitted p = admitted p' -> lease_of p' = lease_of p -> lease_ok_at (r_scopes r) p ->
  (forall b, locks_at b p = Nat.eqb a b && free) -> (forall b, locks_at b p' = Nat.eqb a b && negb free) ->
  (forall b, leases_at b p = Nat.eqb a b) ->
  serialized o p = serialized o p' ->
  op_effect o r p (with_scopes (set_token a free (r_scopes r)) r) p'.
Proof.
  intros [R1 R2 R3 R4 R5] Ha Hf Had Hlease Hlok Hlk Hlk' Hl Hser.
  destruct (set_token_facts a free (r_scopes r) R1 R2 Ha) as (F1 & F2 & F3 & F4 & F5 & F6 & F7 & F8 & F9).
  assert (Hl' : forall b, leases_at b p' = leases_at b p) by (intros b; unfold leases_at; by rewrite Hlease).
  split; cbn; try done.
  - split; cbn; try done. by rewrite F6.
  - rewrite Had. lia.
  - intros b. rewrite F3, Hl'. lia.
  - intros b n Hn _ Hal%F5. specialize (Hn Hal). rewrite Hlk, Hlk'. destruct (Nat.eqb_spec a b) as [<-|Hne].
    + rewrite F8. rewrite Hf in Hn. destruct free; cbn in *; lia.
    + rewrite F9 by done. cbn. lia.
  - intros n Hn. rewrite Hser. lia.
  - intros s b E. rewrite Hlease in E. destruct (Hlok s b E) as [Hal Hk]. split; [by apply F5|by rewrite F4].
  - split; [intros b _; apply F4|intros b; apply F5|exact F6].
Qed.

(** *** Leases *)

Lemma lease_step o r s a exclusive todo evicted c :
  rt_ok r -> lease s (r_scopes r) = (a, evicted, c) ->
  op_effect o r (PBody ((s, exclusive) :: todo)) (with_scopes c r) (PLeased s a exclusive todo).
Proof.
  intros [R1 R2 R3 R4 R5] H. destruct (lease_ok s a evicted (r_scopes r) c R1 R2 R3 H) as [D1 D2 D3 D4 D5 D6].
  destruct (wf_map c D1 s a D3) as (e & He & Hke).
  split; cbn; try done.
  - split; cbn; try done. by rewrite (sm_capacity _ _ D5).
  - lia.
  - intros b. rewrite D4, (Nat.eqb_sym a b). unfold b2z. destruct (Nat.eqb b a); lia.
  - intros b n Hn Hnone Hal. rewrite Z.sub_0_r, Z.add_0_r. destruct (D6 b Hal) as [Hold|[-> Hfree]].
    + rewrite (sm_free _ _ D5) by done. by apply Hn.
    + destruct (sc_heap (r_scopes r) !! a) eqn:Ea.
      * rewrite (sm_free _ _ D5) by (rewrite Ea; by eexists). apply Hn. rewrite Ea. by eexists.
      * by rewrite Hfree, Hnone.
  - intros n Hn. unfold serialized. destruct (serial o); cbn; lia.
  - intros s' b [= <- <-]. split; [rewrite He; by eexists|]. unfold key_of. by rewrite He.
  - by apply same_objects_keys.
Qed.

Lemma unlease_step o r s a todo evicted c :
  rt_ok r -> 1 <= leases_of (r_scopes r) a -> release_lease a (r_scopes r) = Some (evicted, c) ->
  op_effect o r (PUnlocked s a todo) (with_scopes c r) (PBody todo).
Proof.
  intros [R1 R2 R3 R4 R5] Hl H. destruct (release_ok a (r_scopes r) R1 R2 R3 ltac:(lia)) as (evs & c' & E & [D1 D2 D3 D4 D5]).
  rewrite E in H. injection H as -> ->.
  split; cbn; try done.
  - split; cbn; try done. by rewrite (sm_capacity _ _ D4).
  - lia.
  - intros b. rewrite D3, (Nat.eqb_sym a b). unfold b2z. destruct (Nat.eqb b a); lia.
  - intros b n Hn _ Hal%D5. rewrite Z.sub_0_r, Z.add_0_r, (sm_free _ _ D4) by done. by apply Hn.
  - intros n Hn. unfold serialized. destruct (serial o); cbn; lia.
  - by apply same_objects_keys.
Qed.

(** *** The background semaphore *)

Lemma background_step o r p free p' :
  rt_ok r -> r_background r = negb free -> admitted p = admitted p' -> (forall a, leases_at a p = leases_at a p') ->
  (forall a, locks_at a p = locks_at a p') -> serialized o p = free -> serialized o p' = negb free ->
  lease_ok_at (r_scopes r) p' ->
  op_effect o r p (with_background free r) p'.
Proof.
  intros [R1 R2 R3 R4 R5] Hb Ha Hl Hk Hs Hs' Hok. split; try done.
  - cbn. rewrite Ha. lia.
  - intros a. cbn. rewrite Hl. lia.
  - intros a n Hn _ Hal. cbn in *. rewrite Hk. rewrite <- (Hn Hal). lia.
  - intros n Hn. cbn. rewrite Hb in Hn. rewrite Hs, Hs'. unfold b2z in *. destruct free; cbn in *; lia.
Qed.

Lemma op_step_effect o r p r' p' :
  rt_ok r -> holds o r p -> op_step o r p r' p' -> op_effect o r p r' p'.
Proof.
  intros R [H1 H2 H3 H4 H5] Hs.
  destruct Hs as [r e He|r canceled e He|r r' He Ha|r Hs Hb|r Hs|r Hs|r v todo Hp|r todo|r s exclusive todo a evicted c Hv Hl
    |r s a todo Hf|r s a todo|r s a todo|r s a todo todo' Ht|r s a todo Hp|r s a r' Hr|r s a todo evicted c Hr|r Hs|r Hs|r r' Hr].
  - by apply idle_step.
  - by apply idle_step.
  - unfold admit_ in Ha. bind_inv Ha. ok_inv. boolify. destruct R as [R1 R2 R3 R4 R5]. subst r'.
    assert (Hcl : r_closing r = false /\ r_closed r = false) by (by destruct (r_closing r), (r_closed r)).
    destruct Hcl as [Hc1 Hc2]. rewrite Hc1 in R4.
    apply admission_step; cbn; try done; try lia; split; cbn; rewrite ?Hc1; try done; rewrite Hc2; done.
  - apply (background_step o r _ false); try done; unfold serialized; by rewrite Hs.
  - by apply idle_step; unfold serialized; rewrite ?andb_false_r.
  - apply idle_step; try done. unfold serialized. by rewrite Hs.
  - by apply idle_step.
  - by apply idle_step.
  - by eapply lease_step.
  - destruct (H1 s a eq_refl) as [Hal _].
    apply token_step; try done; intros b; cbn; [by rewrite andb_false_r|by rewrite andb_true_r].
  - by apply idle_step.
  - by apply idle_step.
  - destruct (H1 s a eq_refl) as [Hal _]. apply token_step; try done.
    + apply H4. cbn. apply Nat.eqb_refl.
    + intros b. cbn. by rewrite andb_true_r.
    + intros b. cbn. by rewrite andb_false_r.
  - assert (Hser : serialized o (PLocked s a todo) = true) by (unfold serialized; by destruct o).
    apply (background_step o r _ true); try done; [by apply H5|unfold serialized; by rewrite andb_false_r].
  - destruct (release_facts r r' R (H2 eq_refl) Hr) as (R' & E1 & E2 & E3 & E4 & E5).
    apply admission_step; try done; cbn; lia.
  - eapply unlease_step; [done| |done]. apply (H3 a). cbn. apply Nat.eqb_refl.
  - assert (Hser : serialized o (PBody []) = true) by (unfold serialized; by rewrite Hs).
    apply (background_step o r _ true); try done; [by apply H5|unfold serialized; by rewrite andb_false_r].
  - apply idle_step; try done. unfold serialized. by rewrite Hs.
  - destruct (release_facts r r' R (H2 eq_refl) Hr) as (R' & E1 & E2 & E3 & E4 & E5).
    apply admission_step; try done; try (unfold serialized; by rewrite andb_false_r); cbn; lia.
Qed.

(** ** The whole runtime *)

Definition after_drain (cl : closer) : bool := match cl with CIdle | CWaiting => false | _ => true end.

Record rt_inv w : Prop := {
  ri_ok : rt_ok (w_rt w);
  ri_active : r_active (w_rt w) = tally th_admitted (w_threads w);
  ri_leases : forall a, leases_of (r_scopes (w_rt w)) a = tally (th_leases a) (w_threads w);
  ri_token : forall a, token_is (r_scopes (w_rt w)) a (tally (th_locks a) (w_threads w));
  ri_background : tally th_serialized (w_threads w) = b2z (negb (r_background (w_rt w)));
  ri_threads : forall t, t ∈ w_threads w -> lease_ok_at (r_scopes (w_rt w)) (t_pc t);
  ri_closer : (w_closer w <> CIdle -> r_closing (w_rt w) = true) /\
    (after_drain (w_closer w) = true -> r_active (w_rt w) = 0)
}.

Lemma locks_leases a p : locks_at a p = true -> leases_at a p = true.
Proof. by destruct p. Qed.

Lemma lease_of_at a p : leases_at a p = true -> exists s, lease_of p = Some (s, a).
Proof.
  unfold leases_at. destruct (lease_of p) as [[s b]|]; [|done]. intros ->%Nat.eqb_eq. by exists s.
Qed.

Lemma unallocated_unlocked w a :
  rt_inv w -> sc_heap (r_scopes (w_rt w)) !! a = None -> tally (th_locks a) (w_threads w) = 0.
Proof.
  intros I Hn. apply tally_none. intros t Ht. destruct (th_locks a t) eqn:E; [|done].
  apply locks_leases, lease_of_at in E as [s E]. destruct (ri_threads w I t Ht s a E) as [[e He] _]. congruence.
Qed.

Lemma thread_holds w t : rt_inv w -> t ∈ w_threads w -> holds (t_op t) (w_rt w) (t_pc t).
Proof.
  intros I Ht. pose proof (ri_threads w I t Ht) as Hl. split; [done|..].
  - intros E. rewrite (ri_active w I). by apply (tally_pos th_admitted _ t).
  - intros a E. rewrite (ri_leases w I). by apply (tally_pos (th_leases a) _ t).
  - intros a E. pose proof (tally_pos (th_locks a) _ t Ht E) as Hp.
    destruct (lease_of_at a (t_pc t) (locks_leases a _ E)) as [s Es]. destruct (Hl s a Es) as [Hal _].
    pose proof (ri_token w I a Hal) as Htok. destruct (entry_free _ a); [cbn in Htok; lia|done].
  - intros E. pose proof (tally_pos th_serialized _ t Ht E) as Hp. rewrite (ri_background w I) in Hp.
    destruct (r_background (w_rt w)); [cbn in Hp; lia|done].
Qed.

Lemma admission_needs_open o r p r' p' :
  op_step o r p r' p' -> r_closing r = true -> admitted p = false -> admitted p' = false.
Proof.
  intros [] Hc; try done. unfold admit_ in *. rewrite Hc in *. done.
Qed.

Lemma elem_insert_thread ts i t u : u ∈ <[i := t]> ts -> u = t \/ u ∈ ts.
Proof.
  intros H. apply list_elem_of_lookup in H as [j Hj]. apply list_lookup_insert_Some in Hj as [(_ & -> & _)|[_ Hj]]; [by left|].
  right. by eapply list_elem_of_lookup_2.
Qed.

Lemma op_inv r ts cl n rel i o p r' p' :
  rt_inv (MkWorld r ts cl n rel) -> ts !! i = Some (MkThread o p) -> op_step o r p r' p' ->
  rt_inv (MkWorld r' (<[i := MkThread o p']> ts) cl n rel).
Proof.
  intros I Hi Hs. pose proof (thread_holds _ _ I (list_elem_of_lookup_2 _ _ _ Hi)) as Hh. cbn in Hh.
  pose proof (op_step_effect o r p r' p' (ri_ok _ I) Hh Hs) as [E1 E2 E3 E4 E5 E6 E7 [E8 E9]].
  destruct I as [I1 I2 I3 I4 I5 I6 [I7 I8]] eqn:EI. clear EI. cbn in *.
  split; cbn.
  - done.
  - rewrite (tally_insert th_admitted _ _ _ _ Hi), E2, I2. done.
  - intros a. rewrite (tally_insert (th_leases a) _ _ _ _ Hi), E3, I3. done.
  - intros a. rewrite (tally_insert (th_locks a) _ _ _ _ Hi). apply E4; [apply I4|].
    intros Hn. by apply (unallocated_unlocked (MkWorld r ts cl n rel) a I).
  - rewrite (tally_insert th_serialized _ _ _ _ Hi). apply E5. by rewrite I5.
  - intros t [->|Ht]%elem_insert_thread; [done|]. apply (lease_ok_same (r_scopes r)); [done|by apply I6].
  - rewrite E8. split; [done|]. intros Ha. specialize (I8 Ha). rewrite E2, I8.
    assert (Hcl : r_closing r = true) by (apply I7; by destruct cl).
    destruct (admitted p) eqn:Ep; [pose proof (hd_active _ _ _ Hh Ep); lia|].
    rewrite (admission_needs_open o r p r' p' Hs Hcl Ep). done.
Qed.

Lemma rt_call_inv r ts cl n rel o : rt_inv (MkWorld r ts cl n rel) -> rt_inv (MkWorld r (ts ++ [MkThread o PStart]) cl n rel).
Proof.
  intros [I1 I2 I3 I4 I5 I6 I7]. cbn in *.
  assert (Hone : forall f : Thread -> bool, f (MkThread o PStart) = false -> tally f (ts ++ [MkThread o PStart]) = tally f ts).
  { intros f Hf. rewrite tally_app, tally_cons, Hf. unfold tally at 2. cbn. lia. }
  split; cbn; try done.
  - by rewrite Hone.
  - intros a. by rewrite Hone.
  - intros a. rewrite Hone; [apply I4|done].
  - rewrite Hone; [done|]. unfold th_serialized, serialized. cbn. by rewrite andb_false_r.
  - intros t [H| ->%list_elem_of_singleton]%elem_of_app; [by apply I6|done].
Qed.

(** A step of the closer does not touch the operations. *)
Record close_effect r r' (cl' : closer) : Prop := {
  ce_ok : rt_ok r';
  ce_active : r_active r' = r_active r;
  ce_background : r_background r' = r_background r;
  ce_heap : sc_heap (r_scopes r') = sc_heap (r_scopes r);
  ce_capacity : sc_capacity (r_scopes r') = sc_capacity (r_scopes r);
  ce_closer : (cl' <> CIdle -> r_closing r' = true) /\ (after_drain cl' = true -> r_active r' = 0)
}.

Lemma close_step_effect n r cl rel r' cl' rel' :
  rt_ok r -> (cl <> CIdle -> r_closing r = true) -> (after_drain cl = true -> r_active r = 0) ->
  close_step n r cl rel r' cl' rel' -> close_effect r r' cl'.
Proof.
  intros R Hc Ha Hs. pose proof R as [R1 R2 R3 R4 R5].
  destruct Hs as [r rel Hcl|r rel|r rel Hd|r rel|r rel Hsch|r rel evicted c Hclr|r rel Hclr|r rel i|r rel i|r rel];
    cbn in *; try (split; [done|done|done|done|done|]; split; [intros _; by apply Hc|by intros _; apply Ha]);
    try (by split).
  - unfold begin_close. destruct (r_closing r) eqn:E; [by split|]. split; cbn; try done.
    split; cbn; try done. congruence.
  - split; cbn; try done. split; cbn; try done. intros [H _]%R5. rewrite Hc in H; done.
  - split; try done. split; [intros _; by apply Hc|]. intros _. rewrite Hc in R4 by done. rewrite Hd in R4.
    injection R4 as R4. symmetry in R4. by apply Z.eqb_eq in R4.
  - destruct (clear_some (r_scopes r) evicted c R1 Hclr) as (_ & W & B & Hh & Hcap & _).
    split; cbn; try done; [|split; [intros _; by apply Hc|intros _; by apply Ha]].
    split; cbn; try done. by rewrite Hcap.
  - split; cbn; try done. split; cbn; try done. intros _. split; [done|]. by apply Ha.
Qed.

Lemma rt_close_inv r ts cl n rel r' cl' rel' :
  rt_inv (MkWorld r ts cl n rel) -> close_step n r cl rel r' cl' rel' -> rt_inv (MkWorld r' ts cl' n rel').
Proof.
  intros [I1 I2 I3 I4 I5 I6 [I7 I8]] Hs. cbn in *.
  destruct (close_step_effect n r cl rel r' cl' rel' I1 I7 I8 Hs) as [E1 E2 E3 E4 _ E5].
  split; cbn; try done.
  - by rewrite E2.
  - intros a. unfold leases_of. rewrite E4. apply I3.
  - intros a. unfold token_is, entry_free. rewrite E4. apply I4.
  - by rewrite E3.
  - intros t Ht s a E. unfold key_of. rewrite E4. by apply (I6 t Ht).
Qed.

Lemma rt_step_inv w w' : world_step w w' -> rt_inv w -> rt_inv w'.
Proof.
  intros [r ts cl n rel o|r ts cl n rel i o p r' p' Hi Hs|r ts cl n rel r' cl' rel' Hs|r ts cl n rel r' Ha] I.
  - by apply rt_call_inv.
  - by eapply op_inv.
  - by eapply rt_close_inv.
  - unfold AttachScheduler in Ha. bind_inv Ha. ok_inv. subst r'. destruct I as [[R1 R2 R3 R4 R5] I2 I3 I4 I5 I6 I7].
    by split.
Qed.

Lemma world_step_capacity w w' :
  world_step w w' -> rt_inv w -> sc_capacity (r_scopes (w_rt w')) = sc_capacity (r_scopes (w_rt w)).
Proof.
  intros [r ts cl n rel o|r ts cl n rel i o p r' p' Hi Hs|r ts cl n rel r' cl' rel' Hs|r ts cl n rel r' Ha] I; cbn.
  - done.
  - pose proof (thread_holds _ _ I (list_elem_of_lookup_2 _ _ _ Hi)) as Hh.
    apply (kk_capacity _ _ (oe_keys _ _ _ _ _ (op_step_effect o r p r' p' (ri_ok _ I) Hh Hs))).
  - destruct I as [I1 _ _ _ _ _ [I7 I8]]. by apply (close_step_effect n r cl rel r' cl' rel').
  - unfold AttachScheduler in Ha. bind_inv Ha. ok_inv. by subst r'.
Qed.

Lemma rt_steps_inv w w' : world_steps w w' -> rt_inv w -> rt_inv w'.
Proof. induction 1 as [|w1 w2 w3 H _ IH]; [done|]. intros I. by eapply IH, rt_step_inv. Qed.

Lemma start_inv capacity n w : start capacity n w -> rt_inv w.
Proof.
  intros (r & Hr & ->). unfold NewConfigured in Hr. bind_inv Hr. ok_inv. boolify. subst r.
  assert (Hcap : 1 <= if capacity =? 0 then DefaultScopeCacheSize else capacity) by lia.
  split; cbn; try done.
  - split; cbn; try done; [|left; change (0 <= if capacity =? 0 then DefaultScopeCacheSize else capacity); lia].
    split; cbn; try done; [|constructor]. intros b. rewrite elem_of_nil. split; [done|]. intros [k Hk]. by rewrite lookup_empty in Hk.
  - intros b [e He]. cbn in He. by rewrite lookup_empty in He.
  - intros t Ht. by apply elem_of_nil in Ht.
Qed.
