(* ===== verification/Scheduled.v ===== *)
(** * Scheduled processing ([internal/runtime/scheduled_processor.go])

    What one dispatch of a scheduled processor observes and reports, from what each
    scope answers.  The locks that it takes on the way are the [Process] operation of
    [Runtime]. *)

From S2P Require Import Prelude.
From S2P Require Import GoStrings.
From S2P Require Import ScopeCache.
From S2P Require Import Runtime.

Definition ScheduledProcessingSuccess : string := "success".
Definition ScheduledProcessingNoop : string := "noop".
Definition ScheduledProcessingFailure : string := "failure".
Definition ScheduledProcessingCancelled : string := "cancelled".

Record ScheduledObservation := MkObservation {
  so_outcome : string; so_duration : Z; so_sources : Z; so_candidates : option Z; so_err : option rt_error
}.

#[export] Instance observation_eq_dec : EqDecision ScheduledObservation.
Proof. solve_decision. Defined.

(** [context.Canceled] or [context.DeadlineExceeded] *)
Definition is_canceled (e : rt_error) : bool := match e with ECanceled => true | _ => false end.

Definition scheduledOutcome (processed : bool) (err : option rt_error) : string :=
  match err with
  | Some e => if is_canceled e then ScheduledProcessingCancelled else ScheduledProcessingFailure
  | None => if processed then ScheduledProcessingSuccess else ScheduledProcessingNoop
  end.

Definition scheduledOutcomePriority (outcome : string) : Z :=
  if String.eqb outcome ScheduledProcessingCancelled then 4
  else if String.eqb outcome ScheduledProcessingSuccess then 2
  else if String.eqb outcome ScheduledProcessingNoop then 1
  else 3.

Definition scheduledAggregateOutcome (current next : string) : string :=
  if scheduledOutcomePriority current <? scheduledOutcomePriority next then next else current.

(** Instants and durations in nanoseconds. *)
Definition elapsed (now started : Z) : Z := let duration := now - started in if 0 <? duration then duration else 0.

(** What a scope's turn meets: shutdown, scope resolution, the lock, the work. *)
Record ScopeTurn := MkTurn {
  tn_closing : bool; tn_resolve : option rt_error; tn_acquire : option rt_error; tn_process : ScheduledObservation
}.

Definition failed_observation (outcome : string) (e : rt_error) : ScheduledObservation :=
  MkObservation outcome 0 0 None (Some e).

(** The observation of [processScope]: from the result of a flush or an incubation. *)
Definition processed_observation (started finished sources : Z) (candidates : option Z) (processed : bool)
    (err : option rt_error) : ScheduledObservation :=
  MkObservation (scheduledOutcome processed err) (elapsed finished started) sources candidates err.

(** The loop of [process]: the observations that it reports, and what it returns. *)
Fixpoint process_scopes (turns : list (string * ScopeTurn)) (outcome : string)
  : list ScheduledObservation * (string * option rt_error) :=
  match turns with
  | [] => ([], (outcome, None))
  | (rawScope, turn) :: rest =>
      let continue observation :=
        let '(observations, returned) :=
          process_scopes rest (scheduledAggregateOutcome outcome (so_outcome observation)) in
        (observation :: observations, returned) in
      if tn_closing turn then ([], (outcome, None))
      else
        match ValidateScopeID rawScope with
        | Err e => continue (failed_observation ScheduledProcessingFailure e)
        | Ok _ =>
            match tn_resolve turn with
            | Some e => continue (failed_observation ScheduledProcessingFailure e)
            | None =>
                match tn_acquire turn with
                | Some e =>
                    let lockOutcome :=
                      if is_canceled e then ScheduledProcessingCancelled else ScheduledProcessingFailure in
                    ([failed_observation lockOutcome e], (lockOutcome, Some e))
                | None =>
                    let observation := tn_process turn in
                    if String.eqb (so_outcome observation) ScheduledProcessingCancelled then
                      let err := match so_err observation with Some e => e | None => ECanceled end in
                      let observation :=
                        MkObservation (so_outcome observation) (so_duration observation) (so_sources observation)
                          (so_candidates observation) (Some err) in
                      ([observation], (scheduledAggregateOutcome outcome (so_outcome observation), Some err))
                    else continue observation
                end
            end
        end
  end.

(** [process]: the scopes are listed first. *)
Definition process (scopeIDs : rt_error + list (string * ScopeTurn)) : list ScheduledObservation * (string * option rt_error) :=
  match scopeIDs with
  | inl e => ([], (ScheduledProcessingFailure, Some e))
  | inr turns => process_scopes turns ScheduledProcessingNoop
  end.

(** ** Facts *)

Definition worst (outcomes : list string) : Z :=
  foldr (fun o m => Z.max (scheduledOutcomePriority o) m) (scheduledOutcomePriority ScheduledProcessingNoop) outcomes.

Lemma priority_range o : 1 <= scheduledOutcomePriority o <= 4.
Proof. unfold scheduledOutcomePriority. repeat destruct (String.eqb _ _); lia. Qed.

Lemma aggregate_priority a b :
  scheduledOutcomePriority (scheduledAggregateOutcome a b) = Z.max (scheduledOutcomePriority a) (scheduledOutcomePriority b).
Proof. unfold scheduledAggregateOutcome. destruct (Z.ltb_spec (scheduledOutcomePriority a) (scheduledOutcomePriority b)); lia. Qed.

Lemma worst_cons o os : worst (o :: os) = Z.max (scheduledOutcomePriority o) (worst os).
Proof. done. Qed.

(** The turns that are taken: up to a shutdown, or to a turn that ends the run. *)
Definition ends_run (turn : ScopeTurn) (rawScope : string) : bool :=
  is_ok (ValidateScopeID rawScope) && bool_decide (tn_resolve turn = None) &&
  (bool_decide (is_Some (tn_acquire turn)) || String.eqb (so_outcome (tn_process turn)) ScheduledProcessingCancelled).

Fixpoint turns_taken (turns : list (string * ScopeTurn)) : nat :=
  match turns with
  | [] => 0
  | (rawScope, turn) :: rest =>
      if tn_closing turn then 0 else if ends_run turn rawScope then 1 else S (turns_taken rest)
  end.

Definition ended (turns : list (string * ScopeTurn)) : bool :=
  match last (firstn (turns_taken turns) turns) with Some (rawScope, turn) => ends_run turn rawScope | None => false end.

(** The observation of one turn, on its own. *)
Definition turn_observation (t : string * ScopeTurn) : ScheduledObservation :=
  let '(rawScope, turn) := t in
  match ValidateScopeID rawScope, tn_resolve turn, tn_acquire turn with
  | Err e, _, _ | Ok _, Some e, _ => failed_observation ScheduledProcessingFailure e
  | Ok _, None, Some e =>
      failed_observation (if is_canceled e then ScheduledProcessingCancelled else ScheduledProcessingFailure) e
  | Ok _, None, None =>
      let o := tn_process turn in
      if String.eqb (so_outcome o) ScheduledProcessingCancelled
      then MkObservation (so_outcome o) (so_duration o) (so_sources o) (so_candidates o)
             (Some match so_err o with Some e => e | None => ECanceled end)
      else o
  end.

Definition last_error (observations : list ScheduledObservation) : option rt_error :=
  o ← last observations; so_err o.

(** What the loop reports. *)
Record process_spec (turns : list (string * ScopeTurn)) (outcome : string)
    (observations : list ScheduledObservation) (result : string) (err : option rt_error) : Prop := {
  ps_observations : observations = map turn_observation (firstn (turns_taken turns) turns);
  ps_outcome : scheduledOutcomePriority result
    = Z.max (scheduledOutcomePriority outcome) (worst (map so_outcome observations));
  ps_err : err = if ended turns then last_error observations else None
}.

Lemma last_error_cons o os : os <> [] -> last_error (o :: os) = last_error os.
Proof. by destruct os. Qed.

Lemma lock_priority e :
  3 <= scheduledOutcomePriority (if is_canceled e then ScheduledProcessingCancelled else ScheduledProcessingFailure).
Proof. destruct (is_canceled e); vm_compute; discriminate. Qed.

Lemma not_cancelled_priority o : String.eqb o ScheduledProcessingCancelled = false -> scheduledOutcomePriority o <= 3.
Proof. intros H. unfold scheduledOutcomePriority. rewrite H. repeat destruct (String.eqb _ _); lia. Qed.

Lemma ended_cons t turns :
  tn_closing (snd t) = false -> ends_run (snd t) (fst t) = false -> ended (t :: turns) = ended turns.
Proof.
  destruct t as [raw turn]. cbn [fst snd]. intros Hc He. unfold ended. cbn [turns_taken]. rewrite Hc, He. cbn [firstn].
  destruct (firstn (turns_taken turns) turns) as [|u us] eqn:E; [exact He|done].
Qed.

(** A turn that does not end the run. *)
Lemma continue_spec t turns outcome observations result err :
  tn_closing (snd t) = false -> ends_run (snd t) (fst t) = false ->
  process_spec turns (scheduledAggregateOutcome outcome (so_outcome (turn_observation t))) observations result err ->
  process_spec (t :: turns) outcome (turn_observation t :: observations) result err.
Proof.
  intros Hc He [H1 H2 H3]. pose proof (ended_cons t turns Hc He) as Hend. destruct t as [raw turn]. cbn [fst snd] in *.
  assert (Htaken : turns_taken ((raw, turn) :: turns) = S (turns_taken turns)) by (cbn [turns_taken]; by rewrite Hc, He).
  split.
  - rewrite Htaken. cbn [firstn map]. by rewrite H1.
  - rewrite H2, aggregate_priority. cbn [map]. rewrite worst_cons. lia.
  - rewrite Hend, H3. destruct (ended turns) eqn:E; [|done]. rewrite last_error_cons; [done|]. rewrite H1.
    intros Hnil. unfold ended in E. by destruct (firstn (turns_taken turns) turns).
Qed.

(** A turn that ends the run. *)
Lemma stop_spec t turns outcome result err :
  tn_closing (snd t) = false -> ends_run (snd t) (fst t) = true -> so_err (turn_observation t) = Some err ->
  scheduledOutcomePriority result = Z.max (scheduledOutcomePriority outcome) (scheduledOutcomePriority (so_outcome (turn_observation t))) ->
  process_spec (t :: turns) outcome [turn_observation t] result (Some err).
Proof.
  intros Hc He Herr Hr. destruct t as [raw turn]. cbn [fst snd] in *.
  assert (Htaken : turns_taken ((raw, turn) :: turns) = 1%nat) by (cbn [turns_taken]; rewrite Hc; by rewrite He).
  split.
  - by rewrite Htaken.
  - rewrite Hr. cbn. pose proof (priority_range outcome). change (scheduledOutcomePriority ScheduledProcessingNoop) with 1.
    pose proof (priority_range (so_outcome (turn_observation (raw, turn)))) as Hp. cbn in Hp. lia.
  - assert (Hend : ended ((raw, turn) :: turns) = true) by (unfold ended; rewrite Htaken; exact He).
    rewrite Hend. symmetry. exact Herr.
Qed.

Lemma process_scopes_spec turns : forall outcome observations result err,
  scheduledOutcomePriority outcome <= 3 -> process_scopes turns outcome = (observations, (result, err)) ->
  process_spec turns outcome observations result err.
Proof.
  assert (Hnone : forall turns outcome, turns_taken turns = 0%nat -> process_spec turns outcome [] outcome None).
  { intros ts o H. split; [by rewrite H| |unfold ended; by rewrite H]. cbn. pose proof (priority_range o).
    change (scheduledOutcomePriority ScheduledProcessingNoop) with 1. lia. }
  induction turns as [|[raw turn] turns IH]; intros outcome observations result err Hle H.
  { injection H as <- <- <-. by apply Hnone. }
  cbn [process_scopes] in H. destruct (tn_closing turn) eqn:Hc.
  { injection H as <- <- <-. apply Hnone. cbn [turns_taken]. by rewrite Hc. }
  assert (Hgo : forall o, o = turn_observation (raw, turn) -> ends_run turn raw = false ->
    scheduledOutcomePriority (so_outcome o) <= 3 ->
    (let '(observations, returned) := process_scopes turns (scheduledAggregateOutcome outcome (so_outcome o)) in
     (o :: observations, returned)) = (observations, (result, err)) ->
    process_spec ((raw, turn) :: turns) outcome observations result err).
  { intros o -> He Ho Hp. set (next := scheduledAggregateOutcome _ _) in Hp.
    destruct (process_scopes turns next) as [os [res er]] eqn:E. injection Hp as <- <- <-. unfold next in E.
    apply continue_spec; [done|done|]. apply IH; [|done]. rewrite aggregate_priority. lia. }
  unfold turn_observation in Hgo. unfold ends_run in Hgo. destruct (ValidateScopeID raw) as [s|e] eqn:Ev; [|by apply (Hgo _ eq_refl)].
  destruct (tn_resolve turn) as [e|] eqn:Er; [by apply (Hgo _ eq_refl)|].
  destruct (tn_acquire turn) as [e|] eqn:Ea.
  - injection H as <- <- <-. pose proof (lock_priority e) as Hlk.
    assert (Ht : turn_observation (raw, turn) = failed_observation
      (if is_canceled e then ScheduledProcessingCancelled else ScheduledProcessingFailure) e)
      by (unfold turn_observation; by rewrite Ev, Er, Ea).
    rewrite <- Ht. apply stop_spec; rewrite ?Ht; cbn [snd fst so_outcome so_err failed_observation]; try done.
    + unfold ends_run. by rewrite Ev, Er, Ea.
    + lia.
  - destruct (String.eqb (so_outcome (tn_process turn)) ScheduledProcessingCancelled) eqn:Eo.
    + injection H as <- <- <-.
      assert (Ht : turn_observation (raw, turn) = MkObservation (so_outcome (tn_process turn)) (so_duration (tn_process turn))
        (so_sources (tn_process turn)) (so_candidates (tn_process turn))
        (Some match so_err (tn_process turn) with Some e => e | None => ECanceled end))
        by (unfold turn_observation; by rewrite Ev, Er, Ea, Eo).
      rewrite <- Ht. apply stop_spec; rewrite ?Ht; cbn [snd fst so_outcome so_err]; try done.
      * unfold ends_run. by rewrite Ev, Er, Ea, Eo.
      * apply aggregate_priority.
    + apply (Hgo _ eq_refl); [done|by apply not_cancelled_priority|done].
Qed.

(** A turn that does not end the run reports no cancellation of the run. *)
Lemma continuing_outcome t : ends_run (snd t) (fst t) = false -> so_outcome (turn_observation t) <> ScheduledProcessingCancelled.
Proof.
  destruct t as [raw turn]. cbn [fst snd]. unfold ends_run, turn_observation.
  destruct (ValidateScopeID raw), (tn_resolve turn), (tn_acquire turn); try done. cbn.
  destruct (String.eqb_spec (so_outcome (tn_process turn)) ScheduledProcessingCancelled) as [E|E]; [done|]. intros _. exact E.
Qed.

Lemma ending_error t : ends_run (snd t) (fst t) = true -> is_Some (so_err (turn_observation t)).
Proof.
  destruct t as [raw turn]. cbn [fst snd]. unfold ends_run, turn_observation.
  destruct (ValidateScopeID raw), (tn_resolve turn), (tn_acquire turn); try done. cbn. intros ->. by eexists.
Qed.

Lemma last_error_ended turns :
  ended turns = true -> last_error (map turn_observation (firstn (turns_taken turns) turns)) <> None.
Proof.
  unfold ended, last_error. change (map turn_observation) with (fmap (M:=list) turn_observation). rewrite fmap_last.
  destruct (last _) as [[raw turn]|]; [|done]. intros H. destruct (ending_error (raw, turn) H) as [e He]. change (so_err (turn_observation (raw, turn)) <> None). by rewrite He.
Qed.

Lemma taken_continue turns :
  ended turns = false -> Forall (fun t => ends_run (snd t) (fst t) = false) (firstn (turns_taken turns) turns).
Proof.
  induction turns as [|[raw turn] turns IH]; [constructor|]. intros H.
  destruct (tn_closing turn) eqn:Hc; [cbn [turns_taken]; rewrite Hc; constructor|].
  destruct (ends_run turn raw) eqn:He.
  - unfold ended in H. cbn [turns_taken] in H. rewrite Hc, He in H. change (ends_run turn raw = false) in H. congruence.
  - rewrite (ended_cons (raw, turn) turns Hc He) in H. cbn [turns_taken]. rewrite Hc, He. cbn [firstn].
    constructor; [exact He|by apply IH].
Qed.

Lemma uncancelled turns o :
  None = (if ended turns then last_error (map turn_observation (firstn (turns_taken turns) turns)) else None) ->
  o ∈ map turn_observation (firstn (turns_taken turns) turns) -> so_outcome o <> ScheduledProcessingCancelled.
Proof.
  intros He Ho. destruct (ended turns) eqn:E; [by apply last_error_ended in E|].
  apply list_elem_of_fmap in Ho as (t & -> & Ht). apply continuing_outcome.
  pose proof (taken_continue turns E) as Hf. rewrite Forall_forall in Hf. by apply Hf.
Qed.
