(* ===== verification/RuntimeProps.v ===== *)
(** * Properties of the runtime

    Mutual exclusion of scope writers and of background work, freedom from panics
    and deadlocks, the bound and the order of the scope cache, and what a shutdown
    may rely on. *)

From S2P Require Import Prelude.
From S2P Require Import GoStrings.
From S2P Require Import ScopeCache.
From S2P Require Import Runtime.
From S2P Require Import RuntimeFacts.
From S2P Require Import Scheduled.

Implicit Types (r : Runtime) (p : pc) (o : op) (ts : list Thread) (w : World).

(** ** Schedules, for the witnesses *)

Inductive event :=
| EvCall (o : op)
| EvOp (i : nat)
| EvPanic (i : nat)     (** in the callback of a scheduled scope, and its unwinding *)
| EvClose
| EvCloseFails.          (** the context ends the wait, or a resource reports an error *)

(** The main path of an operation: no error, no cancellation. *)
Definition next_op (o : op) (r : Runtime) (p : pc) : option (Runtime * pc) :=
  match p with
  | PStart =>
      match entry_check o, admit_ false r with
      | Ok _, Ok r' => Some (r', PAdmitted)
      | Err _, _ => Some (r, PRefused)
      | _, Err _ => Some (r, PRefused)
      end
  | PAdmitted =>
      if serial o then if r_background r then Some (with_background false r, PBody (visits o)) else None
      else Some (r, PBody (visits o))
  | PBody [] => if serial o then Some (with_background true r, PLeaving) else Some (r, PLeaving)
  | PBody ((s, exclusive) :: todo) =>
      if is_ok (ValidateScopeID s) then
        let '(a, _, c) := lease s (r_scopes r) in Some (with_scopes c r, PLeased s a exclusive todo)
      else Some (r, PBody [])
  | PLeased s a true todo =>
      if entry_free (r_scopes r) a then Some (with_scopes (set_token a false (r_scopes r)) r, PLocked s a todo) else None
  | PLeased s a false todo => Some (r, PUnlocked s a todo)
  | PLocked s a todo => Some (with_scopes (set_token a true (r_scopes r)) r, PUnlocked s a todo)
  | PUnlocked s a todo => '(_, c) ← release_lease a (r_scopes r); Some (with_scopes c r, PBody todo)
  | PLeaving => r' ← release r; Some (r', PEnded)
  | _ => None
  end.

Lemma next_op_sound o r p r' p' : next_op o r p = Some (r', p') -> op_step o r p r' p'.
Proof.
  destruct p as [| | |[|[s e] todo]|s a [] todo|s a todo|s a todo| | |s a|s a]; cbn [next_op]; try done.
  - destruct (entry_check o) as [[]|err] eqn:Ee; [destruct (admit_ false r) as [r1|err] eqn:Ea|]; intros [= <- <-].
    + by constructor.
    + by eapply step_refuse.
    + by eapply step_invalid.
  - destruct (serial o) eqn:Es; [destruct (r_background r) eqn:Eb; [|done]|]; intros [= <- <-]; by constructor.
  - destruct (serial o) eqn:Es; intros [= <- <-]; by constructor.
  - destruct (is_ok (ValidateScopeID s)) eqn:Ev; [|intros [= <- <-]; constructor].
    destruct (lease s (r_scopes r)) as [[a evs] c] eqn:El. intros [= <- <-]. by eapply step_lease.
  - destruct (entry_free _ a) eqn:Ef; [|done]. intros [= <- <-]. by constructor.
  - intros [= <- <-]. constructor.
  - intros [= <- <-]. constructor. by left.
  - destruct (release_lease a (r_scopes r)) as [[evs c]|] eqn:El; [|done]. intros [= <- <-]. by eapply step_unlease.
  - destruct (release r) as [r1|] eqn:Er; [|done]. intros [= <- <-]. by constructor.
Qed.

Definition play_one w (ev : event) : option World :=
  match ev with
  | EvCall o => Some (MkWorld (w_rt w) (w_threads w ++ [MkThread o PStart]) (w_closer w) (w_resources w) (w_released w))
  | EvOp i =>
      t ← w_threads w !! i;
      '(r', p') ← next_op (t_op t) (w_rt w) (t_pc t);
      Some (MkWorld r' (<[i := MkThread (t_op t) p']> (w_threads w)) (w_closer w) (w_resources w) (w_released w))
  | EvPanic i =>
      t ← w_threads w !! i;
      '(r', p') ← match t_pc t with
                  | PLocked s a _ => if is_process (t_op t) then Some (with_background true (w_rt w), PCrashing s a) else None
                  | PCrashing s a => r' ← release (w_rt w); Some (r', PCrashed s a)
                  | _ => None
                  end;
      Some (MkWorld r' (<[i := MkThread (t_op t) p']> (w_threads w)) (w_closer w) (w_resources w) (w_released w))
  | EvCloseFails =>
      let r := w_rt w in
      match w_closer w with
      | CWaiting => Some (MkWorld (abort_close r) (w_threads w) CIdle (w_resources w) (w_released w))
      | CResources (S _) => Some (MkWorld r (w_threads w) CIdle (w_resources w) (w_released w))
      | _ => None
      end
  | EvClose =>
      let r := w_rt w in
      let at_ r cl rel := Some (MkWorld r (w_threads w) cl (w_resources w) rel) in
      match w_closer w with
      | CIdle => if r_closed r then None else at_ (begin_close r) CWaiting (w_released w)
      | CWaiting => if bool_decide (r_drained r = Some true) then at_ r CScheduler (w_released w) else None
      | CScheduler => at_ r CClear (w_released w)
      | CClear => '(_, c) ← clear (r_scopes r); at_ (with_scopes c r) (CResources (w_resources w)) (w_released w)
      | CResources 0 => at_ (finish_close r) CIdle (w_released w)
      | CResources (S i) => at_ r (CResources i) (i :: w_released w)
      end
  end.

Lemma rt_play_one_sound w ev w' : play_one w ev = Some w' -> world_step w w'.
Proof.
  destruct w as [r ts cl n rel], ev as [o|i|i| |]; cbn; [intros [= <-]; constructor|..].
  - destruct (ts !! i) as [[o p]|] eqn:Et; [|done]. cbn. destruct (next_op o r p) as [[r' p']|] eqn:En; [|done].
    intros [= <-]. eapply step_op; [done|]. by apply next_op_sound.
  - destruct (ts !! i) as [[o p]|] eqn:Et; [|done]. cbn. destruct p as [| | | | |s a todo| | | |s a|]; try done.
    + destruct (is_process o) eqn:Ep; [|done]. intros [= <-]. eapply step_op; [done|]. by apply step_panic.
    + destruct (release r) as [r1|] eqn:Er; [|done]. intros [= <-]. eapply step_op; [done|]. by apply step_crash.
  - intros H. destruct cl as [| | | |[|i]]; cbn in H.
    + destruct (r_closed r) eqn:Ec; [done|]. injection H as <-. by do 2 constructor.
    + case_bool_decide; [|done]. injection H as <-. by do 2 constructor.
    + injection H as <-. do 2 constructor.
    + destruct (clear (r_scopes r)) as [[evs c]|] eqn:Ec; [|done]. injection H as <-. constructor. by eapply close_clear.
    + injection H as <-. do 2 constructor.
    + injection H as <-. do 2 constructor.
  - destruct cl as [| | | |[|i]]; try done; intros [= <-]; do 2 constructor.
Qed.

Definition play (evs : list event) w : option World := fold_left (fun ow ev => w ← ow; play_one w ev) evs (Some w).

Lemma rt_play_sound evs w w' : play evs w = Some w' -> world_steps w w'.
Proof.
  assert (Hnone : forall evs, fold_left (fun ow ev => w ← ow; play_one w ev) evs (None : option World) = None) by (by induction evs0).
  revert w. induction evs as [|ev evs IH]; intros w; [intros [= <-]; constructor|].
  unfold play. cbn [fold_left mbind option_bind]. destruct (play_one w ev) as [w1|] eqn:E; [|by rewrite Hnone].
  intros H. econstructor; [by eapply rt_play_one_sound|by apply IH].
Qed.

(** ** Exclusion *)

(** The scope whose lock an operation has: while its callback runs, and for good
    after a scheduled run has crashed. *)
Definition locked_scope p : option string :=
  match p with PLocked s _ _ | PCrashing s _ | PCrashed s _ => Some s | _ => None end.

Lemma locked_lease s p : locked_scope p = Some s -> exists a, lease_of p = Some (s, a) /\ locks_at a p = true.
Proof. destruct p; try done; intros [= <-]; eexists; (split; [done|apply Nat.eqb_refl]). Qed.

Lemma leased_entry w t s a :
  rt_inv w -> t ∈ w_threads w -> lease_of (t_pc t) = Some (s, a) -> sc_entries (r_scopes (w_rt w)) !! s = Some a.
Proof.
  intros I Ht E. destruct (ri_threads w I t Ht s a E) as [[e He] Hk].
  assert (Hl : 1 <= leases_of (r_scopes (w_rt w)) a).
  { apply (hd_leases _ _ _ (thread_holds w t I Ht)). unfold leases_at. by rewrite E, Nat.eqb_refl. }
  unfold leases_of in Hl. unfold key_of in Hk. rewrite He in Hl, Hk.
  destruct (wf_leases _ (ok_cache _ (ri_ok w I)) a e He) as [_ Hin]. rewrite Hk in Hin. apply Hin. lia.
Qed.

Lemma locks_at_most_one w a : rt_inv w -> tally (th_locks a) (w_threads w) <= 1.
Proof.
  intros I. destruct (sc_heap (r_scopes (w_rt w)) !! a) as [e|] eqn:E.
  - rewrite (ri_token w I a) by (rewrite E; by eexists). unfold b2z. destruct (negb _); lia.
  - rewrite (unallocated_unlocked w a I E). lia.
Qed.

(** C7: In every reachable state of a runtime, at most one operation has the lock of
    a scope, although the cache evicts entries, and with them their locks, while
    operations go on; and at most one operation runs in the background. *)
Theorem scope_writers_exclusive capacity n w0 w i j t u :
  start capacity n w0 -> world_steps w0 w -> w_threads w !! i = Some t -> w_threads w !! j = Some u ->
  (exists s, locked_scope (t_pc t) = Some s /\ locked_scope (t_pc u) = Some s) \/
    th_serialized t = true /\ th_serialized u = true ->
  i = j.
Proof.
  intros H0 Hs Hi Hj H. pose proof (rt_steps_inv _ _ Hs (start_inv _ _ _ H0)) as I.
  destruct H as [(s & Ht & Hu)|[Ht Hu]].
  - destruct (locked_lease s _ Ht) as (a & Et & Lt), (locked_lease s _ Hu) as (b & Eu & Lu).
    pose proof (leased_entry w t s a I (list_elem_of_lookup_2 _ _ _ Hi) Et) as Ha.
    pose proof (leased_entry w u s b I (list_elem_of_lookup_2 _ _ _ Hj) Eu) as Hb.
    assert (a = b) as <- by congruence.
    by apply (tally_unique (th_locks a) (w_threads w) i j t u (locks_at_most_one w a I)).
  - apply (tally_unique th_serialized (w_threads w) i j t u); try done.
    rewrite (ri_background w I). unfold b2z. destruct (negb _); lia.
Qed.

(** ** Panics *)

Lemma release_some r : rt_ok r -> 1 <= r_active r -> is_Some (release r).
Proof.
  intros [_ _ _ H _] Ha. unfold release. rewrite H.
  destruct ((r_active r - 1 =? 0) && r_closing r) eqn:E; [|by eexists].
  apply andb_true_iff in E as [_ ->]. destruct (Z.eqb_spec (r_active r) 0); [lia|by eexists].
Qed.

(** No step of the runtime panics or blocks where it must not: a lease that is
    returned is in the cache and counted, the channel of a shutdown is closed only
    once, and a semaphore that is returned has room for its token. *)
Theorem runtime_never_panics capacity n w0 w t :
  start capacity n w0 -> world_steps w0 w -> t ∈ w_threads w ->
  match t_pc t with
  | PUnlocked s a _ => is_Some (release_lease a (r_scopes (w_rt w)))
  | PLeaving => is_Some (release (w_rt w))
  | PCrashing _ _ => is_Some (release (w_rt w))
  | PLocked _ a _ => entry_free (r_scopes (w_rt w)) a = false
  | _ => True
  end /\
  (th_serialized t = true -> r_background (w_rt w) = false).
Proof.
  intros H0 Hs Ht. pose proof (rt_steps_inv _ _ Hs (start_inv _ _ _ H0)) as I.
  destruct (thread_holds w t I Ht) as [H1 H2 H3 H4 H5]. pose proof (ri_ok w I) as R.
  split; [|exact H5]. destruct (t_pc t) eqn:E; try done.
  - apply H4. apply Nat.eqb_refl.
  - destruct R as [R1 R2 R3 R4 R5].
    destruct (release_ok a _ R1 R2 R3) as (evs & c' & -> & _); [|by eexists].
    assert (1 <= leases_of (r_scopes (w_rt w)) a) by (apply H3; apply Nat.eqb_refl). lia.
  - by apply release_some; [|apply H2].
  - by apply release_some; [|apply H2].
Qed.

(** ** Deadlocks *)

(** The operation can go on along its own path, whatever the others do. *)
Definition can_go r (t : Thread) : bool :=
  match t_pc t with
  | PAdmitted => negb (serial (t_op t)) || r_background r
  | PLeased _ a true _ => entry_free (r_scopes r) a
  | _ => admitted (t_pc t)
  end.

(** No scheduled scope has been lost to a panic. *)
Definition uncrashed w : Prop :=
  forall t, t ∈ w_threads w -> match t_pc t with PCrashing _ _ | PCrashed _ _ => False | _ => True end.

Lemma taken_by w a :
  rt_inv w -> is_Some (sc_heap (r_scopes (w_rt w)) !! a) -> entry_free (r_scopes (w_rt w)) a = false ->
  exists t, t ∈ w_threads w /\ th_locks a t = true.
Proof.
  intros I Ha Hf. pose proof (ri_token w I a Ha) as H. rewrite Hf in H. cbn in H.
  unfold tally in H. destruct (List.filter (th_locks a) (w_threads w)) as [|t l] eqn:E; [done|].
  assert (Hin : In t (List.filter (th_locks a) (w_threads w))) by (rewrite E; by left).
  apply filter_In in Hin as [Hin Hl]. exists t. split; [by apply list_elem_of_In|done].
Qed.

Lemma leased_waits w t :
  rt_inv w -> uncrashed w -> t ∈ w_threads w -> (exists s a todo, t_pc t = PLeased s a true todo) ->
  exists u, u ∈ w_threads w /\ can_go (w_rt w) u = true.
Proof.
  intros I Hc Ht (s & a & todo & E). destruct (entry_free (r_scopes (w_rt w)) a) eqn:Ef.
  { exists t. split; [done|]. unfold can_go. by rewrite E. }
  destruct (ri_threads w I t Ht s a) as [Ha _]; [by rewrite E|].
  destruct (taken_by w a I Ha Ef) as (u & Hu & Hl). exists u. split; [done|]. specialize (Hc u Hu).
  unfold th_locks in Hl. unfold can_go. by destruct (t_pc u).
Qed.

Lemma serialized_goes w t :
  rt_inv w -> uncrashed w -> t ∈ w_threads w -> th_serialized t = true ->
  exists u, u ∈ w_threads w /\ can_go (w_rt w) u = true.
Proof.
  intros I Hc Ht Hs. unfold th_serialized, serialized in Hs. apply andb_true_iff in Hs as [_ Hs].
  destruct (t_pc t) as [| | |todo|s a [] todo|s a todo|s a todo| | | |] eqn:E; try done;
    try (exists t; split; [done|]; unfold can_go; by rewrite E).
  apply (leased_waits w t I Hc Ht). eauto.
Qed.

Lemma can_go_next w t :
  rt_inv w -> uncrashed w -> t ∈ w_threads w -> can_go (w_rt w) t = true ->
  th_admitted t = true /\ is_Some (next_op (t_op t) (w_rt w) (t_pc t)).
Proof.
  intros I Hc Ht Hg. destruct (thread_holds w t I Ht) as [H1 H2 H3 H4 H5]. specialize (Hc t Ht).
  pose proof (ri_ok w I) as R. unfold can_go, th_admitted in *.
  destruct (t_pc t) as [| | |[|[s e] todo]|s a [] todo|s a todo|s a todo| | |s a|s a] eqn:E; cbn in Hg |- *; try done;
    (split; [done|]); try (by eexists).
  - destruct (serial (t_op t)); cbn in Hg; [rewrite Hg|]; by eexists.
  - destruct (serial (t_op t)); by eexists.
  - destruct (is_ok (ValidateScopeID s)); [destruct (lease s _) as [[? ?] ?]|]; by eexists.
  - rewrite Hg. by eexists.
  - destruct R as [R1 R2 R3 R4 R5]. assert (1 <= leases_of (r_scopes (w_rt w)) a) by (apply H3; apply Nat.eqb_refl).
    destruct (release_ok a _ R1 R2 R3) as (evs & c' & -> & _); [lia|]. by eexists.
  - destruct (release_some (w_rt w) R (H2 eq_refl)) as [r' ->]. by eexists.
Qed.

Lemma runs_on w t :
  rt_inv w -> uncrashed w -> t ∈ w_threads w -> th_admitted t = true ->
  exists u, u ∈ w_threads w /\ can_go (w_rt w) u = true.
Proof.
  intros I Hc Ht Ha.
  unfold th_admitted in Ha. destruct (t_pc t) as [| | |todo|s a [] todo|s a todo|s a todo| | |s a|s a] eqn:E; try done;
    try (exists t; split; [done|]; unfold can_go; by rewrite E).
  - destruct (negb (serial (t_op t)) || r_background (w_rt w)) eqn:Eb.
    { exists t. split; [done|]. unfold can_go. by rewrite E. }
    apply orb_false_iff in Eb as [_ Eb]. pose proof (ri_background w I) as Hb. rewrite Eb in Hb. cbn in Hb.
    unfold tally in Hb. destruct (List.filter th_serialized (w_threads w)) as [|u l] eqn:El; [done|].
    assert (Hin : In u (List.filter th_serialized (w_threads w))) by (rewrite El; by left).
    apply filter_In in Hin as [Hin Hu]. apply (serialized_goes w u I Hc); [by apply list_elem_of_In|done].
  - apply (leased_waits w t I Hc Ht). eauto.
Qed.
(** C28: The runtime does not deadlock: unless a scheduled run has panicked, as long as
    an operation is admitted, some admitted operation has a next step on its own path,
    without an error or a cancellation; so a shutdown that waits for the operations
    waits for their callbacks alone. *)
Theorem runtime_deadlock_free capacity n w0 w t :
  start capacity n w0 -> world_steps w0 w -> uncrashed w -> t ∈ w_threads w -> th_admitted t = true ->
  exists u r' p', u ∈ w_threads w /\ th_admitted u = true /\ next_op (t_op u) (w_rt w) (t_pc u) = Some (r', p').
Proof.
  intros H0 Hs Hc Ht Ha. pose proof (rt_steps_inv _ _ Hs (start_inv _ _ _ H0)) as I.
  destruct (runs_on w t I Hc Ht Ha) as (u & Hu & Hg).
  destruct (can_go_next w u I Hc Hu Hg) as [Hau [[r' p'] Hn]]. by exists u, r', p'.
Qed.

(** ** The cache *)

Definition leasing (t : Thread) : bool := match lease_of (t_pc t) with Some _ => true | None => false end.

Lemma steps_capacity w w' :
  world_steps w w' -> rt_inv w -> sc_capacity (r_scopes (w_rt w')) = sc_capacity (r_scopes (w_rt w)).
Proof.
  induction 1 as [|w1 w2 w3 H _ IH]; [done|]. intros I.
  rewrite IH by (by eapply rt_step_inv). by apply world_step_capacity.
Qed.

Lemma recency_size c : cache_wf c -> length (sc_recency c) = size (sc_entries c).
Proof.
  intros W. rewrite <- length_map_to_list, <- (length_map snd). apply Permutation_length, NoDup_Permutation.
  - apply (wf_nodup c W).
  - apply NoDup_fmap_2_strong; [|apply NoDup_map_to_list].
    intros [k a] [k' a'] Hk%elem_of_map_to_list Hk'%elem_of_map_to_list E. cbn in E. subst a'.
    rewrite <- (cached_key c k a W Hk), <- (cached_key c k' a W Hk'). done.
  - intros a. rewrite (wf_recency c W), list_elem_of_fmap. split.
    + intros [k Hk]. exists (k, a). by rewrite elem_of_map_to_list.
    + intros ([k b] & -> & Hk%elem_of_map_to_list). by exists k.
Qed.

Lemma leased_count ts l :
  NoDup l -> (forall a, a ∈ l -> exists t, t ∈ ts /\ th_leases a t = true) -> Z.of_nat (length l) <= tally leasing ts.
Proof.
  intros Hn Hl. set (held := omap (fun t => snd <$> lease_of (t_pc t)) ts).
  assert (Hlen : tally leasing ts = Z.of_nat (length held)).
  { unfold held. clear. induction ts as [|t ts IH]; [done|]. rewrite tally_cons, IH. unfold leasing. cbn [omap list_omap].
    destruct (lease_of (t_pc t)) as [[s a]|]; cbn [fmap option_fmap option_map]; cbn [length]; lia. }
  rewrite Hlen. apply inj_le, submseteq_length, NoDup_submseteq; [done|]. intros a Ha.
  destruct (Hl a Ha) as (t & Ht & E). unfold held. apply list_elem_of_omap. exists t. split; [done|].
  destruct (lease_of_at a _ E) as [s Es]. by rewrite Es.
Qed.

(** The scope cache is bounded: in every reachable state it has at most as many
    entries as its capacity, or as there are leases, whichever is more. *)
Theorem scope_cache_bounded capacity n w0 w :
  start capacity n w0 -> world_steps w0 w ->
  let limit := if capacity =? 0 then DefaultScopeCacheSize else capacity in
  Z.of_nat (size (sc_entries (r_scopes (w_rt w)))) <= Z.max limit (tally leasing (w_threads w)).
Proof.
  intros H0 Hs limit. pose proof (start_inv _ _ _ H0) as I0. pose proof (rt_steps_inv _ _ Hs I0) as I.
  assert (Hcap : sc_capacity (r_scopes (w_rt w)) = limit).
  { rewrite (steps_capacity _ _ Hs I0). destruct H0 as (r & Hr & ->). unfold NewConfigured in Hr. bind_inv Hr. ok_inv. by subst r. }
  destruct (ok_bounded _ (ri_ok w I)) as [H|H]; [lia|]. pose proof (ok_cache _ (ri_ok w I)) as W.
  rewrite <- (recency_size _ W). etrans; [apply (leased_count (w_threads w))|lia].
  - apply (wf_nodup _ W).
  - intros a Ha. specialize (H a Ha). unfold inactive in H. rewrite (ri_leases w I) in H. apply Z.eqb_neq in H.
    unfold tally in H. destruct (List.filter (th_leases a) (w_threads w)) as [|t l] eqn:E; [done|].
    assert (Hin : In t (List.filter (th_leases a) (w_threads w))) by (rewrite E; by left).
    apply filter_In in Hin as [Hin Hl]. exists t. split; [by apply list_elem_of_In|done].
Qed.

(** ** Shutdown *)

(** C37: Once a shutdown has drained the runtime, no operation is admitted, whatever was
    called: none of their callbacks runs while the scheduler and the resources are
    closed, and the cache can be cleared unless a scheduled run has panicked. *)
Theorem shutdown_is_safe capacity n w0 w :
  start capacity n w0 -> world_steps w0 w -> after_drain (w_closer w) = true \/ r_closed (w_rt w) = true ->
  (forall t, t ∈ w_threads w ->
     th_admitted t = false /\ (forall canceled r', admit_ canceled (w_rt w) <> Ok r')) /\
  (uncrashed w -> exists evicted c, clear (r_scopes (w_rt w)) = Some (evicted, c) /\ sc_entries c = ∅).
Proof.
  intros H0 Hs Hd. pose proof (rt_steps_inv _ _ Hs (start_inv _ _ _ H0)) as I.
  assert (Hact : r_active (w_rt w) = 0 /\ isClosing (w_rt w) = true).
  { destruct I as [[_ _ _ _ R5] _ _ _ _ _ [I7 I8]]. unfold isClosing. destruct Hd as [Hd|Hd].
    - rewrite (I8 Hd), I7 by (by destruct (w_closer w)). done.
    - destruct (R5 Hd) as [_ ->]. rewrite Hd. by rewrite orb_true_r. }
  destruct Hact as [Hact Hcl]. rewrite (ri_active w I) in Hact. split.
  - intros t Ht. split; [by apply (tally_zero th_admitted (w_threads w))|]. intros canceled r'.
    unfold admit_. unfold isClosing in Hcl. rewrite Hcl. by destruct canceled.
  - intros Hu. destruct (clear (r_scopes (w_rt w))) as [[evs c]|] eqn:E.
    + exists evs, c. split; [done|]. by apply (clear_some _ _ _ (ok_cache _ (ri_ok w I)) E).
    + destruct (clear_none _ (ok_cache _ (ri_ok w I)) E) as [a Ha]. exfalso.
      assert (Hz : tally (th_leases a) (w_threads w) = 0).
      { apply tally_none. intros t Ht. specialize (Hu t Ht). pose proof (tally_zero _ _ Hact t Ht) as Hadm.
        unfold th_admitted, th_leases in *. by destruct (t_pc t). }
      rewrite (ri_leases w I), Hz in Ha. lia.
Qed.

(** *** After a panic in a scheduled scope *)

Lemma crashed_stays w w' i s a :
  world_steps w w' -> (t_pc <$> w_threads w !! i) = Some (PCrashed s a) ->
  (t_pc <$> w_threads w' !! i) = Some (PCrashed s a).
Proof.
  induction 1 as [|w1 w2 w3 H _ IH]; [done|]. intros Hi. apply IH. clear IH.
  destruct H as [r ts cl n rel o|r ts cl n rel j o p r' p' Hj Hs|r ts cl n rel r' cl' rel' Hs|r ts cl n rel r' Ha]; cbn in *; try done.
  - destruct (ts !! i) as [t|] eqn:E; [|done]. pose proof (lookup_app_l_Some ts [MkThread o PStart] i t E) as ->; exact Hi.
  - destruct (decide (i = j)) as [->|Hne]; [|by rewrite list_lookup_insert_ne].
    rewrite Hj in Hi. cbn in Hi. injection Hi as ->. inversion Hs.
Qed.

(** The lock and the lease of the scope are lost: no other operation ever writes to it,
    and every shutdown fails when it clears the cache. *)
Lemma crashed_scope_is_lost capacity n w0 w w' i s a :
  start capacity n w0 -> world_steps w0 w -> (t_pc <$> w_threads w !! i) = Some (PCrashed s a) -> world_steps w w' ->
  clear (r_scopes (w_rt w')) = None /\
  forall j u todo b, w_threads w' !! j = Some u -> t_pc u <> PLocked s b todo.
Proof.
  intros H0 Hs Hi Hs'. pose proof (crashed_stays _ _ _ _ _ Hs' Hi) as Hi'.
  assert (Hw : world_steps w0 w') by (unfold world_steps in *; by etrans).
  pose proof (rt_steps_inv _ _ Hw (start_inv _ _ _ H0)) as I.
  destruct (w_threads w' !! i) as [t|] eqn:Et; [|done]. cbn in Hi'. injection Hi' as Ht. split.
  - destruct (clear (r_scopes (w_rt w'))) as [[evs c]|] eqn:E; [|done].
    destruct (clear_some _ _ _ (ok_cache _ (ri_ok w' I)) E) as (_ & _ & _ & _ & _ & _ & Hz).
    pose proof (hd_leases _ _ _ (thread_holds w' t I (list_elem_of_lookup_2 _ _ _ Et)) a) as Hl.
    rewrite Hz, Ht in Hl. cbn in Hl. rewrite Nat.eqb_refl in Hl. specialize (Hl eq_refl). lia.
  - intros j u todo b Hj Eu.
    assert (i = j) as <-; [|congruence]. apply (scope_writers_exclusive capacity n w0 w' i j t u H0 Hw Et Hj).
    left. exists s. by rewrite Ht, Eu.
Qed.

(** ** The order of evictions *)

Lemma find_head {A} (f : A -> bool) l : List.find f l = head (List.filter f l).
Proof. induction l as [|x l IH]; [done|]. cbn. by destruct (f x). Qed.

Lemma remove_absent a l : a ∉ l -> remove_element a l = l.
Proof.
  unfold remove_element. induction l as [|b l IH]; [done|]. intros [Hne H]%not_elem_of_cons. cbn.
  destruct (Nat.eqb_spec b a); [congruence|]. cbn. by rewrite IH.
Qed.

Lemma remove_head a l : NoDup (a :: l) -> remove_element a (a :: l) = l.
Proof.
  intros [Ha _]%NoDup_cons. unfold remove_element. cbn. rewrite Nat.eqb_refl. cbn. by apply remove_absent.
Qed.

Lemma filter_remove f a l : List.filter f (remove_element a l) = remove_element a (List.filter f l).
Proof.
  unfold remove_element. induction l as [|b l IH]; [done|]. cbn.
  destruct (negb (Nat.eqb b a)) eqn:En, (f b) eqn:Ef; cbn; rewrite ?En, ?Ef, IH; done.
Qed.

Definition without (gone l : list nat) : list nat := List.filter (fun a => negb (existsb (Nat.eqb a) gone)) l.

Lemma without_cons a gone l : without gone (remove_element a l) = without (a :: gone) l.
Proof.
  unfold without, remove_element. induction l as [|b l IH]; [done|]. cbn.
  destruct (Nat.eqb b a); cbn; [done|]. by destruct (negb _); rewrite IH.
Qed.

Lemma evict_order over n c evicted c' :
  (forall m, over m = true -> 0 < m) -> cache_wf c -> (size (sc_entries c) <= n)%nat ->
  evict_while over n c = (evicted, c') ->
  let idle := List.filter (inactive c) (sc_recency c) in
  exists m, evicted = map (key_of c) (firstn m idle) /\ sc_recency c' = without (firstn m idle) (sc_recency c) /\
    (forall j, (j < m)%nat -> over (Z.of_nat (size (sc_entries c)) - Z.of_nat j) = true) /\
    (m = length idle \/ (m < length idle)%nat /\ over (Z.of_nat (size (sc_entries c)) - Z.of_nat m) = false).
Proof.
  intros Hover. assert (Hall : forall l, without [] l = l).
  { intros l. unfold without. cbn. induction l as [|x l IH]; [done|]. cbn. by rewrite IH. }
  assert (Hstop : forall c, over (Z.of_nat (size (sc_entries c))) = false ->
    let idle := List.filter (inactive c) (sc_recency c) in
    exists m, [] = map (key_of c) (firstn m idle) /\ sc_recency c = without (firstn m idle) (sc_recency c) /\
      (forall j, (j < m)%nat -> over (Z.of_nat (size (sc_entries c)) - Z.of_nat j) = true) /\
      (m = length idle \/ (m < length idle)%nat /\ over (Z.of_nat (size (sc_entries c)) - Z.of_nat m) = false)).
  { intros c0 Ho idle. exists 0%nat. cbn [firstn]. rewrite Hall, Z.sub_0_r. split_and!; try done; [lia|].
    destruct idle; [by left|right; cbn; split; [lia|done]]. }
  revert c evicted. induction n as [|n IH]; intros c evicted W Hn H; cbn [evict_while] in H.
  { injection H as <- <-. apply Hstop. destruct (over _) eqn:E; [|done]. apply Hover in E. lia. }
  destruct (over (Z.of_nat (size (sc_entries c)))) eqn:E; [|injection H as <- <-; by apply Hstop].
  unfold oldestInactiveLocked in H. rewrite find_head in H. set (idle := List.filter (inactive c) (sc_recency c)) in *.
  destruct idle as [|a rest] eqn:Ei; cbn [head] in H.
  { injection H as <- <-. exists 0%nat. cbn. rewrite Hall. split_and!; try done; [lia|by left]. }
  assert (Hidle : NoDup (a :: rest)) by (rewrite <- Ei; unfold idle; apply NoDup_ListNoDup, List.NoDup_filter, NoDup_ListNoDup, (wf_nodup c W)).
  destruct (evict_while over n (evictLocked a c)) as [ks c1] eqn:E1. injection H as <- <-.
  assert (Ha : a ∈ sc_recency c /\ inactive c a = true).
  { assert (Hin : In a (a :: rest)) by (by left). rewrite <- Ei in Hin. apply filter_In in Hin as [Hin ?].
    split; [by apply list_elem_of_In|done]. }
  destruct Ha as [Hr Hina]. apply (wf_recency c W) in Hr as [k Hk]. pose proof (cached_key c k a W Hk) as Ek.
  assert (Hsize : size (sc_entries c) = S (size (sc_entries (evictLocked a c)))).
  { unfold evictLocked. cbn. rewrite Ek, map_size_delete, Hk. cbn. pose proof (map_size_ne_0_lookup_2 (sc_entries c) k) as Hne.
    destruct (size (sc_entries c)); [|lia]. exfalso. apply Hne; [rewrite Hk; by eexists|done]. }
  assert (Hrest : List.filter (inactive (evictLocked a c)) (sc_recency (evictLocked a c)) = rest).
  { change (inactive (evictLocked a c)) with (inactive c). cbn. rewrite filter_remove. fold idle. rewrite Ei.
    by apply remove_head. }
  destruct (IH _ _ (evict_wf c a k W Hk Hina) ltac:(lia) E1) as (m & -> & Hrec & Hover1 & Hend). rewrite Hrest in *.
  exists (S m). cbn [firstn map]. split_and!.
  - done.
  - rewrite Hrec. cbn. apply without_cons.
  - intros [|j] Hj; [by rewrite Z.sub_0_r|]. rewrite Hsize. replace (Z.of_nat (S _) - Z.of_nat (S j)) with
      (Z.of_nat (size (sc_entries (evictLocked a c))) - Z.of_nat j) by lia. apply Hover1. lia.
  - cbn [length]. destruct Hend as [->|[Hlt Hend]]; [by left|]. right. split; [lia|]. rewrite Hsize.
    replace (Z.of_nat (S _) - Z.of_nat (S m)) with (Z.of_nat (size (sc_entries (evictLocked a c))) - Z.of_nat m) by lia. done.
Qed.

(** Evictions are least recently used first: the cache drops the oldest of the
    entries that nobody leases, in order, as many as it takes to come down to the
    limit (making room for one more entry, or not), or all of them. *)
Theorem evictions_least_recently_used c room evicted c' :
  cache_wf c -> 1 <= sc_capacity c -> (if room : bool then makeRoomLocked c else trimLocked c) = (evicted, c') ->
  let idle := List.filter (inactive c) (sc_recency c) in
  let limit := if room then sc_capacity c - 1 else sc_capacity c in
  let m := Z.to_nat (Z.min (Z.of_nat (length idle)) (Z.max 0 (Z.of_nat (size (sc_entries c)) - limit))) in
  evicted = map (key_of c) (firstn m idle) /\ sc_recency c' = without (firstn m idle) (sc_recency c).
Proof.
  intros W Hcap H idle limit m. set (over := fun n => limit <? n).
  assert (Hw : evict_while over (size (sc_entries c)) c = (evicted, c')).
  { rewrite <- H. unfold over, limit. destruct room; [|done]. unfold makeRoomLocked.
    assert (Hext : forall f g n c, (forall x, f x = g x) -> evict_while f n c = evict_while g n c).
    { clear. intros f g n. induction n as [|n IH]; intros c Hfg; cbn [evict_while]; [done|]. rewrite Hfg.
      destruct (g _); [|done]. destruct (oldestInactiveLocked c); [|done]. by rewrite IH. }
    apply Hext. intros x. destruct (Z.ltb_spec (sc_capacity c - 1) x), (Z.leb_spec (sc_capacity c) x); lia || done. }
  destruct (evict_order over (size (sc_entries c)) c evicted c') as (k & -> & -> & Hover & Hend);
    [intros x Hx%Z.ltb_lt; unfold limit in Hx; destruct room; lia|done|done|done|].
  fold idle in Hend |- *. replace m with k; [done|]. subst m. apply Nat2Z.inj. rewrite Z2Nat.id by lia.
  assert (Hlast : (0 < k)%nat -> limit < Z.of_nat (size (sc_entries c)) - Z.of_nat k + 1).
  { intros Hk. specialize (Hover (k - 1)%nat ltac:(lia)). apply Z.ltb_lt in Hover. lia. }
  destruct Hend as [->|[Hlt Hend]]; [destruct (length idle); [lia|specialize (Hlast ltac:(lia)); lia]|].
  apply Z.ltb_ge in Hend. destruct (Nat.eq_dec k 0%nat); [lia|specialize (Hlast ltac:(lia)); lia].
Qed.

(** ** Scheduled processing *)

(** A scheduled dispatch isolates its scopes: it reports, in order, what each turn
    gives on its own, up to a shutdown or to the turn that ends the run (a lock that
    is not acquired, or a cancellation); its outcome is the worst that it reported,
    and it returns an error exactly when a turn ended it, the error of that turn. *)
Theorem scheduled_scopes_isolated turns observations result err :
  process (inr turns) = (observations, (result, err)) ->
  observations = map turn_observation (firstn (turns_taken turns) turns) /\
  scheduledOutcomePriority result = worst (map so_outcome observations) /\
  err = (if ended turns then last_error observations else None) /\
  (err = None -> forall o : ScheduledObservation, o ∈ observations -> so_outcome o <> ScheduledProcessingCancelled).
Proof.
  intros H. pose proof (process_scopes_spec turns ScheduledProcessingNoop observations result err) as [H1 H2 H3];
    [vm_compute; discriminate|exact H|].
  assert (Hw : worst (map so_outcome observations) = Z.max 1 (worst (map so_outcome observations))).
  { clear. induction observations as [|ob os IH]; [done|]. cbn [map]. rewrite worst_cons. lia. }
  split_and!; [exact H1|rewrite H2; symmetry; exact Hw|exact H3|]. intros ->. rewrite H1 in *. intros ob. by apply (uncancelled turns).
Qed.

(** ** Concrete runs *)

Definition demo_start : World :=
  MkWorld (MkRuntime false false 0 None (newScopeCache 1) true false) [] CIdle 2 [].

Lemma demo_starts : start 1 2 demo_start.
Proof. eexists. split; [|reflexivity]. reflexivity. Qed.

Definition played (evs : list event) : World := match play evs demo_start with Some w => w | None => demo_start end.

Lemma played_steps evs : is_Some (play evs demo_start) -> world_steps demo_start (played evs).
Proof. intros [w H]. unfold played. rewrite H. by apply (rt_play_sound evs). Qed.

(** Two writers of one scope and a reader of another: the second writer waits. *)
Definition busy_events : list event :=
  [EvCall (ScopedWrite "a"); EvCall (ScopedWrite "a"); EvCall (ScopedRead "b"); EvCall (Process ["a"; "b"]%string)]
  ++ concat (repeat [EvOp 0; EvOp 1; EvOp 2; EvOp 3] 3) ++ [EvOp 0; EvOp 2].
Definition busy : World := Eval vm_compute in played busy_events.

Lemma busy_steps : world_steps demo_start busy.
Proof. apply (played_steps busy_events). vm_compute. by eexists. Qed.

Definition busy_writer : Thread := MkThread (ScopedWrite "a") (PLocked "a" 0 []).

Lemma scope_writers_exclusive_witness :
  w_threads busy !! 0%nat = Some busy_writer /\ locked_scope (t_pc busy_writer) = Some "a"%string /\
  forall j u, w_threads busy !! j = Some u -> locked_scope (t_pc u) = Some "a"%string -> 0%nat = j.
Proof.
  split; [reflexivity|]. split; [reflexivity|]. intros j u Hj Hu.
  apply (scope_writers_exclusive 1 2 demo_start busy 0 j busy_writer u demo_starts busy_steps eq_refl Hj).
  left. exists "a"%string. split; [reflexivity|exact Hu].
Defined.

Lemma runtime_never_panics_witness : entry_free (r_scopes (w_rt busy)) 0 = false.
Proof.
  destruct (runtime_never_panics 1 2 demo_start busy busy_writer demo_starts busy_steps) as [H _]; [|exact H].
  apply (list_elem_of_lookup_2 _ 0). reflexivity.
Defined.

Lemma busy_uncrashed : uncrashed busy.
Proof. intros t Ht. repeat (apply elem_of_cons in Ht as [->|Ht]; [exact I|]). by apply elem_of_nil in Ht. Qed.

Lemma runtime_deadlock_free_witness :
  exists u r' p', u ∈ w_threads busy /\ th_admitted u = true /\ next_op (t_op u) (w_rt busy) (t_pc u) = Some (r', p').
Proof.
  apply (runtime_deadlock_free 1 2 demo_start busy busy_writer demo_starts busy_steps busy_uncrashed);
    [apply (list_elem_of_lookup_2 _ 0); reflexivity|reflexivity].
Defined.

(** More entries than the capacity, all leased. *)
Lemma scope_cache_bounded_witness :
  size (sc_entries (r_scopes (w_rt busy))) = 2%nat /\ tally leasing (w_threads busy) = 4 /\
  Z.of_nat (size (sc_entries (r_scopes (w_rt busy)))) <= Z.max 1 (tally leasing (w_threads busy)).
Proof.
  split; [vm_compute; reflexivity|]. split; [vm_compute; reflexivity|].
  exact (scope_cache_bounded 1 2 demo_start busy demo_starts busy_steps).
Defined.

(** The reader of the other scope returns its lease: the cache is over its capacity,
    and that entry is the one to go. *)
Definition before_trim : scopeCache := touch 1 (add_leases 1 (-1) (r_scopes (w_rt busy))).

Lemma before_trim_wf : cache_wf before_trim.
Proof.
  pose proof (ok_cache _ (ri_ok _ (rt_steps_inv _ _ busy_steps (start_inv _ _ _ demo_starts)))) as W.
  unfold before_trim. apply touch_wf; [apply (add_leases_wf _ "b"); [exact W|reflexivity|vm_compute; discriminate]|].
  rewrite add_recency. apply (list_elem_of_lookup_2 _ 0). vm_compute. reflexivity.
Qed.

Lemma evictions_least_recently_used_witness :
  fst (trimLocked before_trim) = ["b"%string] /\
  fst (trimLocked before_trim)
  = map (key_of before_trim) (firstn 1 (List.filter (inactive before_trim) (sc_recency before_trim))).
Proof.
  split; [vm_compute; reflexivity|].
  destruct (trimLocked before_trim) as [evicted c'] eqn:E.
  apply (evictions_least_recently_used before_trim false evicted c' before_trim_wf ltac:(vm_compute; discriminate) E).
Defined.

(** Everything ends, and the runtime is shut down. *)
Definition quiet_events : list event :=
  [EvCall (ScopedWrite "a"); EvCall Background] ++ concat (repeat [EvOp 0; EvOp 1] 4)
  ++ [EvClose] ++ repeat (EvOp 0) 4 ++ repeat EvClose 3.
Definition quiet : World := Eval vm_compute in played quiet_events.

Lemma quiet_steps : world_steps demo_start quiet.
Proof. apply (played_steps quiet_events). vm_compute. by eexists. Qed.

Lemma quiet_uncrashed : uncrashed quiet.
Proof. intros t Ht. repeat (apply elem_of_cons in Ht as [->|Ht]; [exact I|]). by apply elem_of_nil in Ht. Qed.

Lemma shutdown_is_safe_witness :
  w_closer quiet = CResources 2 /\
  exists evicted c, clear (r_scopes (w_rt quiet)) = Some (evicted, c) /\ sc_entries c = ∅.
Proof.
  split; [vm_compute; reflexivity|].
  apply (shutdown_is_safe 1 2 demo_start quiet demo_starts quiet_steps); [left; reflexivity|exact quiet_uncrashed].
Defined.

(** A shutdown that failed after it had closed a resource, and whose retry is
    cancelled: admission is restored, and an operation runs without the resource. *)
Definition reopened_events : list event :=
  repeat EvClose 5 ++ [EvCloseFails; EvClose; EvCloseFails; EvCall Operation; EvOp 0; EvOp 0].

Lemma reopened_without_resource :
  exists w, world_steps demo_start w /\ w_released w = [1%nat] /\ w_closer w = CIdle /\
    w_threads w = [MkThread Operation (PBody [])].
Proof.
  exists (played reopened_events).
  split; [apply played_steps; vm_compute; by eexists|]. split_and!; vm_compute; reflexivity.
Qed.

(** A panic while a scheduled scope is processed, as [crashed_scope_is_lost] says. *)
Definition crash_events : list event :=
  EvCall (Process ["a"%string]) :: repeat (EvOp 0) 4 ++ [EvPanic 0; EvPanic 0].

Lemma scheduled_scope_crashes :
  exists w, world_steps demo_start w /\ w_threads w = [MkThread (Process ["a"%string]) (PCrashed "a" 0)].
Proof.
  exists (played crash_events). split; [apply played_steps; vm_compute; by eexists|]. vm_compute. reflexivity.
Qed.

Definition demo_turns : list (string * ScopeTurn) :=
  let done_ := processed_observation 0 5 3 None true None in
  [("a", MkTurn false (Some (EState "missing")) None done_); (" ", MkTurn false None None done_);
   ("b", MkTurn false None None done_); ("c", MkTurn true None None done_)]%string.

Lemma scheduled_scopes_isolated_witness :
  fst (snd (process (inr demo_turns))) = ScheduledProcessingFailure /\
  length (fst (process (inr demo_turns))) = 3%nat /\
  fst (process (inr demo_turns)) = map turn_observation (firstn 3 demo_turns).
Proof.
  split; [vm_compute; reflexivity|]. split; [vm_compute; reflexivity|].
  destruct (process (inr demo_turns)) as [observations [result err]] eqn:E.
  apply (scheduled_scopes_isolated demo_turns observations result err E).
Defined.
