(* ===== verification/Handoff.v ===== *)
(** * Handoff values ([artifact/handoff] model.go, citation.go, content.go, request.go,
    activation.go)

    Citations and their identity keys, statements, contents, preparation and
    activation requests, with their validation. *)

From S2P Require Import Prelude.
From S2P Require Import GoStrings.
From S2P Require Import Refs.
From S2P Require Import Json.
From S2P Require Import MemoryModel.

Definition Family : string := "handoff".
Definition ContentSchemaVersion : string := "powercontext.handoff.v1".
Definition MaxBytes : Z := 32768.
Definition MinMaxBytes : Z := 512.
Definition MaxCitations : Z := 32.
Definition MaxOmissions : Z := 64.
Definition MaxStateStatements : Z := 64.
Definition MaxTextLength : Z := 8192.

(** The last two lines are the errors of [errors.go], of the model's output and of
    the store; [HNilCall] is the panic of a method call on a nil interface. *)
Inductive hand_error :=
| HText (field : string) | HBudget | HRef (e : ref_error) | HMemory (e : mem_error)
| HNil | HUnique | HCount (what : string) | HDisposition | HStatus | HPosition (what : string)
| HMismatch (what : string) | HCheck (what : string) | HResolution (what : string) | HAudience
| HConfiguration (what : string) | HNilCall
| HEvidenceUnavailable | HGenerationUnavailable | HInvalidGeneration (code : string)
| HScopeMismatch (expected actual : string) | HInvalidReference
| HInvalidOutput (detail : string)
| HConflict (requested current : Ref) | HNotFound (ref : Ref) | HStore (what : string).

#[export] Instance hand_error_eq_dec : EqDecision hand_error.
Proof. solve_decision. Defined.

Abbreviation hres := (result hand_error).

Definition validateText (field value : string) : hres unit :=
  require negb (blank value) else HText field in
  require rune_count value <=? MaxTextLength else HText field in
  Ok tt.

Definition validateBudget (value : Z) : hres unit :=
  require negb ((value <? MinMaxBytes) || (MaxBytes <? value)) else HBudget in Ok tt.

(** ** Citations *)

(** The three implementations of the [Citation] interface. *)
Inductive Citation :=
| SourceCitation (ref : Source.Ref)
| ArtifactCitation (ref : Ref)
| MemoryCitation (citation : MemoryModel.Citation).

#[export] Instance citation_eq_dec : EqDecision Citation.
Proof. solve_decision. Defined.

Definition Kind (c : Citation) : string :=
  match c with
  | SourceCitation _ => "source" | ArtifactCitation _ => "artifact" | MemoryCitation _ => "memory"
  end.

(** [artifact.Ref.String] *)
Definition ref_string (r : Ref) : string := family r +:+ ":" +:+ artifactID r +:+ "@" +:+ pretty (revision r).

Definition nul : string := String (ascii_of_nat 0) "".

Definition citationKey (c : Citation) : string :=
  match c with
  | SourceCitation r => "source" +:+ nul +:+ Source.sourceType r +:+ nul +:+ Source.sourceID r
  | ArtifactCitation r => "artifact" +:+ nul +:+ ref_string r
  | MemoryCitation m =>
      "memory" +:+ nul +:+ ref_string (ci_MemoryRef m) +:+ nul +:+ ci_EntryID m +:+ nul +:+ ci_EntryVersionID m
  end.

(** The [Validate] methods; a nil interface is [None]. *)
Definition validate_value (c : Citation) : hres unit :=
  match c with
  | SourceCitation r => map_err HRef (check_source r)
  | ArtifactCitation r => map_err HRef (Validate r)
  | MemoryCitation m =>
      let* _ := map_err HRef (Validate (ci_MemoryRef m)) in
      let* _ := map_err HMemory (ValidateIdentifier (ci_EntryID m)) in
      let* _ := map_err HMemory (ValidateIdentifier (ci_EntryVersionID m)) in
      Ok tt
  end.

Definition validateCitation (c : option Citation) : hres unit :=
  match c with None => Err HNil | Some c => validate_value c end.

(** The loop of [validateCitations] with its set of keys. *)
Fixpoint validate_loop (unique : bool) (values : list (option Citation)) (seen : gset string) : hres unit :=
  match values with
  | [] => Ok tt
  | value :: more =>
      let* _ := validateCitation value in
      match value with
      | Some c =>
          if unique then
            if bool_decide (citationKey c ∈ seen) then Err HUnique
            else validate_loop unique more ({[citationKey c]} ∪ seen)
          else validate_loop unique more seen
      | None => Err HNil
      end
  end.

Definition validateCitations (values : list (option Citation)) (unique : bool) : hres unit :=
  validate_loop unique values ∅.

Definition len {A} (l : list A) : Z := Z.of_nat (length l).

(** ** Contents *)

Record Statement := MkStatement { s_text : string; s_citations : list (option Citation) }.

#[export] Instance statement_eq_dec : EqDecision Statement.
Proof. solve_decision. Defined.

Definition validateStatement (s : Statement) : hres unit :=
  let* _ := validateText "statement" (s_text s) in
  require negb ((len (s_citations s) <? 1) || (MaxCitations <? len (s_citations s)))
    else HCount "statement citations" in
  validateCitations (s_citations s) false.

Definition NewStatement (text : string) (citations : list (option Citation)) : hres Statement :=
  let* _ := validateStatement (MkStatement text citations) in Ok (MkStatement text citations).

Record Omission := MkOmission { o_text : string; o_citation : option Citation }.

#[export] Instance omission_eq_dec : EqDecision Omission.
Proof. solve_decision. Defined.

Definition validateOmission (o : Omission) : hres unit :=
  let* _ := validateText "omission" (o_text o) in
  match o_citation o with Some c => validateCitation (Some c) | None => Ok tt end.

Definition NewOmission (text : string) (c : option Citation) : hres Omission :=
  let* _ := validateOmission (MkOmission text c) in Ok (MkOmission text c).

Inductive Disposition := Continuable | Blocked | Complete | OtherDisposition (s : string).

Record Content := MkContent {
  objective : string; hstate : list Statement; disposition : Disposition;
  nextAction : option Statement; omissions : list Omission
}.

#[export] Instance disposition_eq_dec : EqDecision Disposition.
Proof. solve_decision. Defined.
#[export] Instance content_eq_dec : EqDecision Content.
Proof. solve_decision. Defined.

(** [reflect.DeepEqual]; nil and empty slices are identified. *)
Definition EqualContent (c other : Content) : bool := bool_decide (c = other).

Definition ValidateContent (c : Content) : hres unit :=
  let* _ := validateText "objective" (objective c) in
  require negb ((len (hstate c) <? 1) || (MaxStateStatements <? len (hstate c))) else HCount "state" in
  let* _ := map_res validateStatement (hstate c) in
  require match disposition c with OtherDisposition _ => false | _ => true end else HDisposition in
  let* _ := match nextAction c with Some s => validateStatement s | None => Ok tt end in
  require len (omissions c) <=? MaxOmissions else HCount "omissions" in
  let* _ := map_res validateOmission (omissions c) in
  Ok tt.

Definition NewContent (obj : string) (st : list Statement) (d : Disposition) (na : option Statement)
  (os : list Omission) : hres Content :=
  let c := MkContent obj st d na os in
  let* _ := ValidateContent c in Ok c.

(** A draft wraps a content. *)
Definition NewHandoffDraft := NewContent.

(** ** Requests *)

Record Prepare := MkPrepare { p_objective : string; p_evidence : list (option Citation); p_maxBytes : Z }.

Definition ValidatePrepare (p : Prepare) : hres unit :=
  let* _ := validateText "objective" (p_objective p) in
  require negb ((len (p_evidence p) <? 1) || (MaxCitations <? len (p_evidence p)))
    else HCount "preparation evidence" in
  let* _ := validateCitations (p_evidence p) true in
  validateBudget (p_maxBytes p).

Definition NewPrepare (obj : string) (evidence : list (option Citation)) (mb : Z) : hres Prepare :=
  let p := MkPrepare obj evidence mb in
  let* _ := ValidatePrepare p in Ok p.

Record Activate := MkActivate {
  boundarySource : Source.Ref; a_objective : string; a_evidence : list (option Citation); a_maxBytes : Z
}.

(** The boundary first, then the citations that do not repeat it. *)
Definition ActionEvidence (a : Activate) : list (option Citation) :=
  let boundary := SourceCitation (boundarySource a) in
  Some boundary ::
  List.filter (fun c => negb (is_ok (validateCitation c)) ||
                        match c with
                        | Some c => negb (String.eqb (citationKey c) (citationKey boundary))
                        | None => true
                        end) (a_evidence a).

Definition ValidateActivate (a : Activate) : hres unit :=
  let* _ := map_err HRef (check_source (boundarySource a)) in
  let* _ := validateText "objective" (a_objective a) in
  require len (a_evidence a) <=? MaxCitations else HCount "activation evidence" in
  let* _ := validateBudget (a_maxBytes a) in
  let* _ := validateCitations (a_evidence a) false in
  require len (ActionEvidence a) <=? MaxCitations else HCount "activation evidence" in
  map_err (fun _ => HUnique) (validateCitations (ActionEvidence a) true).

Definition NewActivate (b : Source.Ref) (obj : string) (evidence : list (option Citation)) (mb : Z)
  : hres Activate :=
  let a := MkActivate b obj evidence mb in
  let* _ := ValidateActivate a in Ok a.

(** ** Activation results *)

Inductive ActivationStatus := ActivationGenerated | ActivationIgnored | OtherActivation (s : string).

Record Activation := MkActivation {
  ac_status : ActivationStatus; ac_boundary : Source.Ref;
  previousPosition : Z; currentPosition : Z; ac_draft : option Content
}.

Definition ValidateActivation (a : Activation) : hres unit :=
  let* _ := map_err HRef (check_source (ac_boundary a)) in
  require negb ((previousPosition a <? 0) || (currentPosition a <? 0)) else HPosition "negative" in
  require negb (currentPosition a <? previousPosition a) else HPosition "backwards" in
  match ac_status a with
  | ActivationGenerated =>
      match ac_draft a with
      | Some d =>
          require negb (currentPosition a <=? previousPosition a) else HPosition "generated" in
          ValidateContent d
      | None => Err (HPosition "generated")
      end
  | ActivationIgnored =>
      require match ac_draft a with
              | Some _ => false
              | None => currentPosition a =? previousPosition a
              end else HPosition "ignored" in
      Ok tt
  | OtherActivation _ => Err HStatus
  end.

Definition NewActivation (st : ActivationStatus) (b : Source.Ref) (prev cur : Z) (d : option Content)
  : hres Activation :=
  let a := MkActivation st b prev cur d in
  let* _ := ValidateActivation a in Ok a.

(** ** Facts *)

(** A validated activation makes a valid preparation. *)
Lemma validated_activation_prepares (a : Activate) u :
  ValidateActivate a = Ok u ->
  exists p, NewPrepare (a_objective a) (ActionEvidence a) (a_maxBytes a) = Ok p.
Proof.
  unfold ValidateActivate, NewPrepare, ValidatePrepare. intros H. bind_inv H.
  destruct (validateCitations (ActionEvidence a) true) as [[]|] eqn:E; [|done].
  cbn [p_objective p_evidence p_maxBytes]. rewrite Ha0. cbn [bind].
  ok_inv. apply Z.leb_le in Ha4. 
  assert (H1 : (len (ActionEvidence a) <? 1) = false)
    by (apply Z.ltb_ge; unfold len, ActionEvidence; cbn [length]; lia).
  assert (H2 : (MaxCitations <? len (ActionEvidence a)) = false) by (apply Z.ltb_ge; lia).
  rewrite H1, H2. cbn [orb negb check bind]. rewrite E. cbn [bind]. rewrite Ha2. cbn [bind]. eauto.
Qed.

(** Unique citations have pairwise different keys. *)
Lemma validate_loop_keys values seen u :
  validate_loop true values seen = Ok u ->
  exists cs, values = map Some cs /\ NoDup (map citationKey cs) /\
    (forall c, c ∈ cs -> citationKey c ∉ seen) /\ Forall (fun c => validate_value c = Ok tt) cs.
Proof.
  revert seen. induction values as [|v values IH]; intros seen; cbn [validate_loop].
  { intros _. exists []. cbn. split; [done|]. split; [constructor|]. split; [set_solver|constructor]. }
  intros H. bind_inv H. destruct v as [c|]; [|done]. case_bool_decide as Hs; [done|].
  apply IH in H as (cs & -> & H1 & H2 & H3). exists (c :: cs). cbn. split; [done|]. split.
  - constructor; [|done]. intros Hin. apply list_elem_of_fmap in Hin as (c' & Ek & Hc').
    apply (H2 c' Hc'). rewrite <- Ek. set_solver.
  - split.
    + intros c' [->|Hc']%elem_of_cons; [done|]. specialize (H2 c' Hc'). set_solver.
    + constructor; [|done]. cbn in Ha. by destruct a.
Qed.
