(* ===== verification/HandoffResolution.v ===== *)
(** * Handoff evidence and resolutions ([artifact/handoff] evidence.go,
    resolution.go, and the generation request of request.go)

    Resolved evidence, prepared handoffs, evidence checks and resolutions, with
    their validation. *)

From S2P Require Import Prelude.
From S2P Require Import GoStrings.
From S2P Require Import Refs.
From S2P Require Import MemoryModel.
From S2P Require Import MemoryService.
From S2P Require Import Handoff.
From S2P Require Import Json.
From S2P Require Import JsonText.
From S2P Require Import JsonWriter.
(** ** Evidence *)

(** The three implementations of the [Evidence] interface; a nil Source or
    Artifact is [None]. *)
Inductive Evidence (V S : Type) :=
| SourceEvidence (citation : Source.Ref) (value : option V)
| ArtifactEvidence (citation : Ref) (value : option S)
| MemoryEvidence (citation : MemoryModel.Citation) (entry : EntryVersion).
Arguments SourceEvidence {V S}. Arguments ArtifactEvidence {V S}. Arguments MemoryEvidence {V S}.

Definition EvidenceCitation {V S} (e : Evidence V S) : Citation :=
  match e with
  | SourceEvidence r _ => SourceCitation r
  | ArtifactEvidence r _ => ArtifactCitation r
  | MemoryEvidence c _ => MemoryCitation c
  end.

Section evidence.
Context {V S : Type} {VS : Values V S}.

(** The [Validate] methods. *)
Definition ValidateEvidenceValue (e : Evidence V S) : hres unit :=
  let* _ := validate_value (EvidenceCitation e) in
  match e with
  | SourceEvidence r value =>
      let* _ := map_err HMemory (match value with Some v => Require_ v | None => Err EUnacceptedObservation end) in
      require match value with
              | Some v => String.eqb (Source.SourceName (source_value v)) (Source.sourceID r)
              | None => false
              end else HMismatch "Source" in
      Ok tt
  | ArtifactEvidence r value =>
      require match value with Some v => bool_decide (snapshot_ref v = r) | None => false end
        else HMismatch "Artifact" in
      Ok tt
  | MemoryEvidence c entry =>
      require String.eqb (artifactID (ci_MemoryRef c)) (ev_MemoryArtifactID entry) &&
              String.eqb (ci_EntryID c) (ev_EntryID entry) &&
              String.eqb (ci_EntryVersionID c) (ev_EntryVersionID entry) else HMismatch "Memory" in
      Ok tt
  end.

(** The three constructors. *)
Definition NewEvidence (e : Evidence V S) : hres (Evidence V S) :=
  let* _ := ValidateEvidenceValue e in Ok e.

Definition validateEvidence (e : option (Evidence V S)) : hres unit :=
  match e with None => Err HNil | Some e => ValidateEvidenceValue e end.

(** [GenerationRequest] of request.go. *)
Record GenerationRequest := MkGenerationRequest {
  g_objective : string; g_evidence : list (option (Evidence V S)); g_maxBytes : Z
}.

Definition ValidateGenerationRequest (r : GenerationRequest) : hres unit :=
  let* _ := validateText "objective" (g_objective r) in
  require negb ((len (g_evidence r) <? 1) || (MaxCitations <? len (g_evidence r)))
    else HCount "generation evidence" in
  let* _ := map_res validateEvidence (g_evidence r) in
  validateBudget (g_maxBytes r).

Definition NewGenerationRequest (obj : string) (evidence : list (option (Evidence V S))) (mb : Z)
  : hres GenerationRequest :=
  let r := MkGenerationRequest obj evidence mb in
  let* _ := ValidateGenerationRequest r in Ok r.
End evidence.
Arguments GenerationRequest : clear implicits.

(** ** Prepared handoffs *)

Record Prepared := MkPrepared { scopeID : string; base : option Ref; content : Content }.

Definition ValidatePrepared (p : Prepared) : hres unit :=
  require negb (blank (scopeID p)) else HText "scope_id" in
  let* _ := match base p with Some r => map_err HRef (Validate r) | None => Ok tt end in
  ValidateContent (content p).

Definition NewPrepared (scope : string) (b : option Ref) (c : Content) : hres Prepared :=
  let p := MkPrepared scope b c in
  let* _ := ValidatePrepared p in Ok p.

(** ** Evidence checks *)

Inductive EvidenceStatus := EvidenceAvailable | EvidenceUnavailable | OtherEvidenceStatus (s : string).
Inductive Claim := StateClaim | NextActionClaim | OtherClaim (s : string).

#[export] Instance evidence_status_eq_dec : EqDecision EvidenceStatus.
Proof. solve_decision. Defined.
#[export] Instance claim_eq_dec : EqDecision Claim.
Proof. solve_decision. Defined.

Record EvidenceCheck := MkEvidenceCheck {
  claim : Claim; stateIndex : option Z; status : EvidenceStatus; unavailableEvidence : list (option Citation)
}.

Definition ValidateCheck (c : EvidenceCheck) : hres unit :=
  require match claim c with OtherClaim _ => false | _ => true end else HCheck "claim" in
  require negb (bool_decide (claim c = StateClaim) && bool_decide (stateIndex c = None)) else HCheck "state index" in
  require negb (bool_decide (claim c = NextActionClaim) && negb (bool_decide (stateIndex c = None)))
    else HCheck "next action index" in
  require match stateIndex c with Some i => negb (i <? 0) | None => true end else HCheck "negative index" in
  require match status c with OtherEvidenceStatus _ => false | _ => true end else HCheck "status" in
  require len (unavailableEvidence c) <=? MaxCitations else HCount "unavailable evidence" in
  let* _ := validateCitations (unavailableEvidence c) false in
  require negb (bool_decide (status c = EvidenceAvailable) && negb (len (unavailableEvidence c) =? 0))
    else HCheck "available" in
  require negb (bool_decide (status c = EvidenceUnavailable) && (len (unavailableEvidence c) =? 0))
    else HCheck "unavailable" in
  Ok tt.

Definition NewEvidenceCheck (cl : Claim) (index : option Z) (st : EvidenceStatus)
  (unavailable : list (option Citation)) : hres EvidenceCheck :=
  let c := MkEvidenceCheck cl index st unavailable in
  let* _ := ValidateCheck c in Ok c.

(** ** Resolutions *)

Inductive Selection := PreparedSelection | ExactSelection | LatestSelection | OtherSelection (s : string).
Inductive ResolutionStatus := EmptyResolution | ResolvedResolution | OtherResolution (s : string).

#[export] Instance selection_eq_dec : EqDecision Selection.
Proof. solve_decision. Defined.

Record Resolution := MkResolution {
  r_status : ResolutionStatus; r_scopeID : string; r_content : option Content;
  r_selection : option Selection; r_selected : option Ref; r_current : option Ref;
  r_checks : list EvidenceCheck
}.

Definition validate_ref (r : option Ref) : hres unit :=
  match r with Some r => map_err HRef (Validate r) | None => Ok tt end.

Definition validateResolutionSelection (selection : Selection) (selected current : option Ref) : hres unit :=
  require match selection with OtherSelection _ => false | _ => true end else HResolution "selection" in
  let* _ := map_res validate_ref [selected; current] in
  let prepared := bool_decide (selection = PreparedSelection) in
  require negb (prepared && negb (bool_decide (selected = None))) else HResolution "prepared revision" in
  require negb (negb prepared && bool_decide (selected = None)) else HResolution "exact revision" in
  require negb (negb prepared && bool_decide (current = None)) else HResolution "current revision" in
  require negb (bool_decide (selection = LatestSelection) && negb (bool_decide (selected = current)))
    else HResolution "latest" in
  require match selected, current with
          | Some s, Some c => String.eqb (family s) (family c) && String.eqb (artifactID s) (artifactID c)
          | _, _ => true
          end else HResolution "identity" in
  Ok tt.

(** [citation.citationKey()] of an interface that may be nil. *)
Definition citation_key (c : option Citation) : hres string :=
  match c with Some c => Ok (citationKey c) | None => Err HNilCall end.

(** The loop compares keys until one is equal. *)
Fixpoint has_key (key : string) (candidates : list (option Citation)) : hres bool :=
  match candidates with
  | [] => Ok false
  | c :: more =>
      let* k := citation_key c in
      if String.eqb k key then Ok true else has_key key more
  end.

Definition statementHasCitation (s : Statement) (c : option Citation) : hres bool :=
  let* key := citation_key c in has_key key (s_citations s).

(** The statements of a content with the claims that the checks must make of
    them, in order. *)
Definition statement_claims (c : Content) : list (Claim * option Z * Statement) :=
  imap (fun i s => (StateClaim, Some (Z.of_nat i), s)) (hstate c) ++
  match nextAction c with Some s => [(NextActionClaim, None, s)] | None => [] end.

(** One turn of the loop of [validateResolutionEvidence]. *)
Definition validate_check_of (p : (Claim * option Z * Statement) * EvidenceCheck) : hres unit :=
  let '((cl, index, statement), check) := p in
  let* _ := ValidateCheck check in
  require bool_decide (claim check = cl) && bool_decide (stateIndex check = index) else HResolution "order" in
  let* _ := map_res (fun unavailable =>
                       let* found := statementHasCitation statement unavailable in
                       require (found : bool) else HResolution "unavailable evidence" in Ok tt)
              (unavailableEvidence check) in
  Ok tt.

Definition validateResolutionEvidence (c : Content) (checks : list EvidenceCheck) : hres unit :=
  require Nat.eqb (length checks) (length (statement_claims c)) else HResolution "order" in
  let* _ := map_res validate_check_of (combine (statement_claims c) checks) in
  Ok tt.

Definition ValidateResolution (r : Resolution) : hres unit :=
  match r_status r with
  | OtherResolution _ => Err (HResolution "status")
  | EmptyResolution =>
      require bool_decide (r_content r = None) && bool_decide (r_selection r = None) &&
              bool_decide (r_selected r = None) && bool_decide (r_current r = None) && (len (r_checks r) =? 0)
        else HResolution "empty" in
      Ok tt
  | ResolvedResolution =>
      match r_content r, r_selection r with
      | Some c, Some selection =>
          let* _ := ValidateContent c in
          let* _ := validateResolutionSelection selection (r_selected r) (r_current r) in
          validateResolutionEvidence c (r_checks r)
      | _, _ => Err (HResolution "resolved")
      end
  end.

Definition NewResolution (st : ResolutionStatus) (scope : string) (c : option Content)
  (selection : option Selection) (selected current : option Ref) (checks : list EvidenceCheck) : hres Resolution :=
  let r := MkResolution st scope c selection selected current checks in
  let* _ := ValidateResolution r in Ok r.

(** An error here would be a panic. *)
Definition Empty (scope : string) : hres Resolution :=
  NewResolution EmptyResolution scope None None None None [].

Definition NewResolved (scope : string) (c : Content) (selection : Selection) (selected current : option Ref)
  (checks : list EvidenceCheck) : hres Resolution :=
  NewResolution ResolvedResolution scope (Some c) (Some selection) selected current checks.

(** ** Rendering of handoffs ([artifact/handoff/render.go])

    The wire form of a content and its indented JSON text. *)
(** ** The wire form *)

Definition sourceRefWire (r : Source.Ref) : json :=
  JObj [("source_type", JStr (Source.sourceType r)); ("source_id", JStr (Source.sourceID r))]%string.

Definition artifactRefWire (r : Ref) : json :=
  JObj [("family", JStr (family r)); ("artifact_id", JStr (artifactID r)); ("revision", JInt (revision r))]%string.

Definition memoryCitationWire (c : MemoryModel.Citation) : json :=
  JObj [("memory_ref", artifactRefWire (ci_MemoryRef c)); ("entry_id", JStr (ci_EntryID c));
        ("entry_version_id", JStr (ci_EntryVersionID c))]%string.

Definition citationWire (c : option Citation) : json :=
  match c with
  | None => JNull
  | Some c =>
      JObj [("kind", JStr (Kind c));
            match c with
            | SourceCitation r => ("source_ref", sourceRefWire r)
            | ArtifactCitation r => ("artifact_ref", artifactRefWire r)
            | MemoryCitation m => ("memory_citation", memoryCitationWire m)
            end]%string
  end.

Definition statementWire (s : Statement) : json :=
  JObj [("text", JStr (s_text s)); ("citations", JArr (map citationWire (s_citations s)))]%string.

Definition omissionWire (o : Omission) : json :=
  JObj [("text", JStr (o_text o)); ("citation", citationWire (o_citation o))]%string.

Definition disposition_string (d : Disposition) : string :=
  match d with
  | Continuable => "continuable" | Blocked => "blocked" | Complete => "complete" | OtherDisposition s => s
  end.

Definition contentWire (c : Content) : json :=
  JObj [("schema", JStr ContentSchemaVersion); ("objective", JStr (objective c));
        ("state", JArr (map statementWire (hstate c)));
        ("disposition", JStr (disposition_string (disposition c)));
        ("next_action", match nextAction c with Some s => statementWire s | None => JNull end);
        ("omissions", JArr (map omissionWire (omissions c)))]%string.

(** [marshalIndented]: encoding a struct of strings and integers does not fail. *)
Definition RenderContent (c : Content) : hres bytes :=
  let* _ := ValidateContent c in
  Ok (json_indent false 0 (contentWire c)).

(** ** Audiences *)

Inductive Audience := Human | Agent | OtherAudience (s : string).

(** The values that [Render] accepts. *)
Inductive Renderable :=
| RenderDraft (c : Content) | RenderPrepared (p : Prepared) | RenderArtifact (a : Artifact Content).

Definition Render (value : Renderable) (audience : Audience) : hres string :=
  require match audience with OtherAudience _ => false | _ => true end else HAudience in
  let* encoded := RenderContent match value with
                                | RenderDraft c => c
                                | RenderPrepared p => content p
                                | RenderArtifact a => a_content a
                                end in
  Ok (string_of encoded).

(** ** Facts *)

(** The names of a struct are different. *)
Ltac different_names := refine (bool_decide_unpack _ _); vm_compute; exact I.

(** An object of [names_unique] and [nesting] bounds, field by field. *)
Lemma wire_obj fs d :
  NoDup (map (fun f => clean (bytes_of (fst f))) fs) ->
  Forall (fun f => names_unique (snd f) /\ (nesting (snd f) <= d)%nat) fs ->
  names_unique (JObj fs) /\ (nesting (JObj fs) <= S d)%nat.
Proof.
  intros Hn Hf. split.
  - apply names_unique_obj. split; [done|]. eapply Forall_impl; [exact Hf|]. by intros f [H _].
  - cbn [nesting]. apply le_n_S. apply (nesting_le snd). eapply Forall_impl; [exact Hf|]. by intros f [_ H].
Qed.

Lemma wire_arr {A} (f : A -> json) xs d :
  (forall x, x ∈ xs -> names_unique (f x) /\ (nesting (f x) <= d)%nat) ->
  names_unique (JArr (map f xs)) /\ (nesting (JArr (map f xs)) <= S d)%nat.
Proof.
  intros H. split.
  - apply names_unique_arr, List.Forall_map, Forall_forall. intros x Hx. by apply H.
  - cbn [nesting]. apply le_n_S. apply (nesting_le (fun j => j)), List.Forall_map, Forall_forall. intros x Hx. by apply H.
Qed.

Ltac wire :=
  repeat first
    [ apply wire_obj; [different_names|]
    | apply wire_arr; intros ? ?
    | apply Forall_cons; split; cbn [snd]
    | apply Forall_nil; exact I
    | solve [split; cbn; [exact I|lia]] ].

Lemma citationWire_ok c : names_unique (citationWire c) /\ (nesting (citationWire c) <= 3)%nat.
Proof. destruct c as [[r|r|m]|]; cbn [citationWire]; wire. Qed.

Lemma statementWire_ok s : names_unique (statementWire s) /\ (nesting (statementWire s) <= 5)%nat.
Proof. unfold statementWire. wire. apply citationWire_ok. Qed.

Lemma omissionWire_ok o : names_unique (omissionWire o) /\ (nesting (omissionWire o) <= 4)%nat.
Proof. unfold omissionWire. wire. apply citationWire_ok. Qed.

(** The wire form of a content is a tree that a reader can take. *)
Lemma contentWire_ok c : names_unique (contentWire c) /\ (nesting (contentWire c) <= 7)%nat.
Proof.
  apply (wire_obj _ 6); [different_names|]. repeat (apply Forall_cons; split; cbn [snd]); try apply Forall_nil; try exact I.
  all: try solve [split; cbn; [exact I|lia]].
  - apply (wire_arr statementWire _ 5). intros x _. apply statementWire_ok.
  - destruct (nextAction c) as [s|]; [|split; cbn; [exact I|lia]].
    destruct (statementWire_ok s). split; [done|lia].
  - apply (wire_arr omissionWire _ 5). intros x _. destruct (omissionWire_ok x). split; [done|lia].
Qed.
