(* ===== verification/HandoffCodec.v ===== *)
(** * Stored handoffs ([internal/sqlstore] handoff_codec.go, json.go)

    The JSON payload of a handoff content and its decoder, which works on the tree
    of the payload: a raw message is the subtree of its text. *)

From S2P Require Import Prelude.
From S2P Require Import GoStrings.
From S2P Require Import Refs.
From S2P Require Import Json.
From S2P Require Import JsonText.
From S2P Require Import JsonWriter.
From S2P Require Import MemoryModel.
From S2P Require Import Handoff.
From S2P Require Import HandoffResolution.

(** ** Encoding *)

(** [marshalJSON] *)
Definition marshalJSON (j : json) : bytes := json_bytes false true j.

(** The structs of this file have the fields and the names of the wire form of
    render.go; [omitempty] drops the two references that a kind does not have. *)
Definition encodeHandoffCitation (c : option Citation) : hres json :=
  match c with
  | Some c => Ok (citationWire (Some c))
  | None => Err (HCheck "unsupported citation")
  end.

Definition encodeHandoffStatement (s : Statement) : hres json :=
  let* citations := map_res encodeHandoffCitation (s_citations s) in
  Ok (JObj [("text", JStr (s_text s)); ("citations", JArr citations)])%string.

Definition encodeHandoffOmission (o : Omission) : hres json :=
  let* citation := match o_citation o with
                   | Some c => encodeHandoffCitation (Some c)
                   | None => Ok JNull
                   end in
  Ok (JObj [("text", JStr (o_text o)); ("citation", citation)])%string.

Definition encodeHandoff (c : Content) : hres bytes :=
  let* _ := ValidateContent c in
  let* state := map_res encodeHandoffStatement (hstate c) in
  let* next := match nextAction c with
               | Some s => encodeHandoffStatement s
               | None => Ok JNull
               end in
  let* encodedOmissions := map_res encodeHandoffOmission (omissions c) in
  Ok (marshalJSON
        (JObj [("schema", JStr ContentSchemaVersion); ("objective", JStr (objective c)); ("state", JArr state);
               ("disposition", JStr (disposition_string (disposition c)));
               ("next_action", next); ("omissions", JArr encodedOmissions)])%string).

(** ** [encoding/json] on trees *)

Inductive decode_error := DSyntax | DType | DUnknown (field : bytes) | DMissing (field : string) | DInvalid (e : hand_error).
Abbreviation dres := (result decode_error).

(** A [map[string]json.RawMessage]: null makes a nil map. *)
Definition as_fields (v : jvalue) : dres (list (bytes * jvalue)) :=
  match v with VMembers ms => Ok ms | VNull => Ok [] | _ => Err DType end.

(** The last member of a name. *)
Definition field (name : string) (ms : list (bytes * jvalue)) : option jvalue :=
  option_map snd (find (fun m => bool_decide (fst m = bytes_of name)) (rev ms)).

(** A [[]json.RawMessage]. *)
Definition as_array (v : jvalue) : dres (list jvalue) :=
  match v with VArray vs => Ok vs | VNull => Ok [] | _ => Err DType end.

(** A value read into a string that holds [old]. *)
Definition into_string (old : string) (v : jvalue) : dres string :=
  match v with VText t => Ok (string_of t) | VNull => Ok old | _ => Err DType end.

Definition into_int64 (old : Z) (v : jvalue) : dres Z :=
  match v with
  | VNumber l => of_option (parse_int64 l) DType
  | VNull => Ok old
  | _ => Err DType
  end.

(** Names of struct fields are matched without regard to case: the letters of
    ASCII, and the two other runes that fold to one of them. *)
Definition fold_rune (r : rune) : Z :=
  let v := rune_value r in
  if (65 <=? v) && (v <=? 90) then v + 32 else if v =? 383 then 115 else if v =? 8490 then 107 else v.
Definition same_name (name : string) (key : bytes) : bool :=
  bool_decide (map fold_rune (runes (bytes_of name)) = map fold_rune (runes key)).

(** A struct that holds [old]: its members in order, unknown ones ignored. *)
Definition into_struct {A} (set : bytes -> jvalue -> A -> dres A) (old : A) (v : jvalue) : dres A :=
  match v with
  | VMembers ms => fold_res (fun a m => set (fst m) (snd m) a) old ms
  | VNull => Ok old
  | _ => Err DType
  end.

Definition set_source_ref (key : bytes) (v : jvalue) (r : Source.Ref) : dres Source.Ref :=
  if same_name "source_type" key then
    let* t := into_string (Source.sourceType r) v in Ok (Source.MkRef t (Source.sourceID r))
  else if same_name "source_id" key then
    let* i := into_string (Source.sourceID r) v in Ok (Source.MkRef (Source.sourceType r) i)
  else Ok r.

Definition set_artifact_ref (key : bytes) (v : jvalue) (r : Ref) : dres Ref :=
  if same_name "family" key then
    let* f := into_string (family r) v in Ok (MkRef f (artifactID r) (revision r))
  else if same_name "artifact_id" key then
    let* i := into_string (artifactID r) v in Ok (MkRef (family r) i (revision r))
  else if same_name "revision" key then
    let* n := into_int64 (revision r) v in Ok (MkRef (family r) (artifactID r) n)
  else Ok r.

Definition empty_ref : Ref := MkRef "" "" 0.

Definition set_memory_citation (key : bytes) (v : jvalue) (c : MemoryModel.Citation) : dres MemoryModel.Citation :=
  if same_name "memory_ref" key then
    let* r := into_struct set_artifact_ref (ci_MemoryRef c) v in
    Ok (MkCitation r (ci_EntryID c) (ci_EntryVersionID c))
  else if same_name "entry_id" key then
    let* i := into_string (ci_EntryID c) v in Ok (MkCitation (ci_MemoryRef c) i (ci_EntryVersionID c))
  else if same_name "entry_version_id" key then
    let* i := into_string (ci_EntryVersionID c) v in Ok (MkCitation (ci_MemoryRef c) (ci_EntryID c) i)
  else Ok c.

(** ** Decoding *)

Definition requiredStringField (ms : list (bytes * jvalue)) (name : string) : dres string :=
  match field name ms with
  | None | Some VNull => Err (DMissing name)
  | Some v => into_string "" v
  end.

Definition rejectUnknown (ms : list (bytes * jvalue)) (allowed : list string) : dres unit :=
  match find (fun m => negb (bool_decide (fst m ∈ map bytes_of allowed))) ms with
  | Some m => Err (DUnknown (fst m))
  | None => Ok tt
  end.

(** A field that must be there and not null. *)
Definition required (ms : list (bytes * jvalue)) (name : string) : dres jvalue :=
  match field name ms with None | Some VNull => Err (DMissing name) | Some v => Ok v end.

Definition decodeSourceRef (v : jvalue) : dres Source.Ref :=
  let* r := into_struct set_source_ref (Source.MkRef "" "") v in
  map_err (fun e => DInvalid (HRef e)) (Source.NewRef (Source.sourceType r) (Source.sourceID r)).

Definition decodeArtifactRef (v : jvalue) : dres Ref :=
  let* r := into_struct set_artifact_ref empty_ref v in
  map_err (fun e => DInvalid (HRef e)) (NewRef (family r) (artifactID r) (revision r)).

(** The three constructors of citations. *)
Definition new_citation (c : Citation) : dres Citation :=
  let* _ := map_err DInvalid (validate_value c) in Ok c.

Definition decodeHandoffCitation (v : jvalue) : dres Citation :=
  let* fields := as_fields v in
  let* kind := requiredStringField fields "kind" in
  if String.eqb kind "source" then
    let* _ := rejectUnknown fields ["kind"; "source_ref"]%string in
    let* raw := required fields "source_ref" in
    let* r := decodeSourceRef raw in
    new_citation (SourceCitation r)
  else if String.eqb kind "artifact" then
    let* _ := rejectUnknown fields ["kind"; "artifact_ref"]%string in
    let* raw := required fields "artifact_ref" in
    let* r := decodeArtifactRef raw in
    new_citation (ArtifactCitation r)
  else if String.eqb kind "memory" then
    let* _ := rejectUnknown fields ["kind"; "memory_citation"]%string in
    let* raw := required fields "memory_citation" in
    let* encoded := into_struct set_memory_citation (MkCitation empty_ref "" "") raw in
    let* r := map_err (fun e => DInvalid (HRef e))
                (NewRef (family (ci_MemoryRef encoded)) (artifactID (ci_MemoryRef encoded))
                        (revision (ci_MemoryRef encoded))) in
    new_citation (MemoryCitation (MkCitation r (ci_EntryID encoded) (ci_EntryVersionID encoded)))
  else Err (DInvalid (HCheck "citation kind")).

Definition decodeHandoffStatement (v : jvalue) : dres Statement :=
  let* fields := as_fields v in
  let* _ := rejectUnknown fields ["text"; "citations"]%string in
  let* text := requiredStringField fields "text" in
  let* raw := required fields "citations" in
  let* encoded := as_array raw in
  let* citations := map_res decodeHandoffCitation encoded in
  map_err DInvalid (NewStatement text (map Some citations)).

Definition decodeHandoffOmission (v : jvalue) : dres Omission :=
  let* fields := as_fields v in
  let* _ := rejectUnknown fields ["text"; "citation"]%string in
  let* text := requiredStringField fields "text" in
  let* citation := match field "citation" fields with
                   | None | Some VNull => Ok None
                   | Some raw => let* c := decodeHandoffCitation raw in Ok (Some c)
                   end in
  map_err DInvalid (NewOmission text citation).

Definition disposition_of (s : string) : Disposition :=
  if String.eqb s "continuable" then Continuable else if String.eqb s "blocked" then Blocked
  else if String.eqb s "complete" then Complete else OtherDisposition s.

Definition decodeHandoff (payload : bytes) : dres Content :=
  let* v := of_option (read_json false payload) DSyntax in
  let* fields := as_fields v in
  let* _ := rejectUnknown fields ["schema"; "objective"; "state"; "disposition"; "next_action"; "omissions"]%string in
  let* schema := match field "schema" fields with
                 | None => Ok ContentSchemaVersion
                 | Some VNull => Err (DMissing "schema")
                 | Some raw => into_string ContentSchemaVersion raw
                 end in
  require String.eqb schema ContentSchemaVersion else DInvalid (HCheck "schema") in
  let* obj := requiredStringField fields "objective" in
  let* disp := requiredStringField fields "disposition" in
  let* stateRaw := required fields "state" in
  let* encodedState := as_array stateRaw in
  let* state := map_res decodeHandoffStatement encodedState in
  let* next := match field "next_action" fields with
               | None | Some VNull => Ok None
               | Some raw => let* s := decodeHandoffStatement raw in Ok (Some s)
               end in
  let* decodedOmissions := match field "omissions" fields with
                           | None => Ok []
                           | Some VNull => Err (DMissing "omissions")
                           | Some raw => let* encoded := as_array raw in map_res decodeHandoffOmission encoded
                           end in
  map_err DInvalid (NewContent obj state (disposition_of disp) next decodedOmissions).

(** ** What is read back *)

(** A string with its invalid bytes replaced. *)
Definition clean_string (s : string) : string := string_of (clean (bytes_of s)).

Definition clean_source (r : Source.Ref) : Source.Ref :=
  Source.MkRef (clean_string (Source.sourceType r)) (clean_string (Source.sourceID r)).
Definition clean_ref (r : Ref) : Ref := MkRef (clean_string (family r)) (clean_string (artifactID r)) (revision r).
Definition clean_citation (c : Citation) : Citation :=
  match c with
  | SourceCitation r => SourceCitation (clean_source r)
  | ArtifactCitation r => ArtifactCitation (clean_ref r)
  | MemoryCitation m =>
      MemoryCitation (MkCitation (clean_ref (ci_MemoryRef m)) (clean_string (ci_EntryID m)) (clean_string (ci_EntryVersionID m)))
  end.
Definition clean_statement (s : Statement) : Statement :=
  MkStatement (clean_string (s_text s)) (map (option_map clean_citation) (s_citations s)).
Definition clean_omission (o : Omission) : Omission :=
  MkOmission (clean_string (o_text o)) (option_map clean_citation (o_citation o)).
Definition clean_content (c : Content) : Content :=
  MkContent (clean_string (objective c)) (map clean_statement (hstate c)) (disposition c)
            (option_map clean_statement (nextAction c)) (map clean_omission (omissions c)).
