(* ===== verification/HandoffCodecFacts.v ===== *)
(** * The round trip of stored handoffs

    Cleaning a text keeps its runes' values, so it keeps what validation looks at;
    the decoder reads back the clean content. *)

From S2P Require Import Prelude.
From S2P Require Import GoStrings.
From S2P Require Import Refs.
From S2P Require Import Json.
From S2P Require Import JsonText.
From S2P Require Import JsonWriter.
From S2P Require Import MemoryModel.
From S2P Require Import Handoff.
From S2P Require Import HandoffResolution.
From S2P Require Import HandoffCodec.

(** ** Clean strings *)

Lemma good_rune_value s : map rune_value (map good_rune (runes s)) = map rune_value (runes s).
Proof.
  induction s as [|a r1 t rest Ht Hr Hc IH] using runes_ind; [done|]. rewrite Hc. cbn [map]. rewrite IH. f_equal.
  unfold good_rune. destruct (rune_bad (decode_rune a r1)) eqn:E; [|done]. cbn.
  unfold decode_rune in *. destruct (lead_size a) as [|[|[|[|[|k]]]]]; try done;
    repeat (case_match; try done).
Qed.

Lemma runes_clean_string s : runes (bytes_of (clean_string s)) = map good_rune (runes (bytes_of s)).
Proof. unfold clean_string. rewrite list_ascii_of_string_of_list_ascii. apply runes_clean. Qed.

Lemma clean_rune_count s : rune_count (clean_string s) = rune_count s.
Proof. unfold rune_count. by rewrite runes_clean_string, length_map. Qed.

Lemma clean_trim_empty f s : trim_func f (clean_string s) = ""%string <-> trim_func f s = ""%string.
Proof.
  rewrite !trim_func_empty, runes_clean_string. pose proof (good_rune_value (bytes_of s)) as H.
  assert (Hx : forall rs, Forall (fun r => f (rune_value r) = true) rs <-> Forall (fun v => f v = true) (map rune_value rs))
    by (intros rs; symmetry; apply List.Forall_map).
  by rewrite !Hx, H.
Qed.

Lemma clean_blank s : blank (clean_string s) = blank s.
Proof.
  unfold blank, trim_space. pose proof (clean_trim_empty is_space s) as H.
  destruct (String.eqb_spec (trim_func is_space (clean_string s)) ""), (String.eqb_spec (trim_func is_space s) ""); tauto.
Qed.

Lemma drop_while_map {A B} (g : A -> B) (p : A -> bool) (q : B -> bool) l :
  Forall (fun x => q (g x) = p x) l -> drop_while q (map g l) = map g (drop_while p l).
Proof. induction 1 as [|x l Hx _ IH]; [done|]. cbn. rewrite Hx. by destruct (p x). Qed.

Lemma trim_list_map {A B} (g : A -> B) (p : A -> bool) (q : B -> bool) l :
  Forall (fun x => q (g x) = p x) l -> trim_list q (map g l) = map g (trim_list p l).
Proof.
  intros H. unfold trim_list. rewrite (drop_while_map g p q l H), <- map_rev.
  rewrite (drop_while_map g p q); [by rewrite map_rev|].
  apply Forall_forall. intros x Hx. rewrite Forall_forall in H. apply H.
  rewrite elem_of_rev in Hx. destruct (drop_while_suffix p l) as [pre Hp]. rewrite Hp. apply elem_of_app. by right.
Qed.

Lemma clean_trimmed f s : trim_func f s = s -> trim_func f (clean_string s) = clean_string s.
Proof.
  intros H. pose proof (runes_trim f s) as Hr. rewrite H in Hr.
  rewrite trim_func_list, runes_clean_string.
  rewrite (trim_list_map good_rune (fun r => f (rune_value r))).
  - rewrite <- Hr, <- runes_clean_string, runes_flatten. apply string_of_list_ascii_of_string.
  - apply Forall_forall. intros r Hin. f_equal.
    pose proof (good_rune_value (bytes_of s)) as Hv. rewrite map_map in Hv.
    apply list_elem_of_lookup in Hin as [i Hi]. apply (f_equal (fun l => l !! i)) in Hv.
    rewrite !(list_lookup_fmap) in Hv. rewrite Hi in Hv. by injection Hv.
Qed.

Lemma clean_empty s : clean_string s = ""%string <-> s = ""%string.
Proof.
  split; [|by intros ->]. intros H. apply (f_equal (fun s => length (runes (bytes_of s)))) in H.
  rewrite runes_clean_string, length_map in H. destruct s as [|c s]; [done|]. exfalso. cbn [bytes_of] in H.
  change (bytes_of (String c s)) with (c :: bytes_of s) in H.
  destruct (decode_rune_bytes c (bytes_of s)) as (t & _ & _ & E). rewrite E in H. done.
Qed.

Lemma clean_part maximum s : valid_part maximum s -> valid_part maximum (clean_string s).
Proof.
  intros (H1 & H2 & H3). split; [by rewrite clean_empty|]. split; [by apply clean_trimmed|]. by rewrite clean_rune_count.
Qed.

Lemma clean_string_id s : utf8_valid (bytes_of s) = true -> clean_string s = s.
Proof. intros H. unfold clean_string. rewrite clean_id by done. apply string_of_list_ascii_of_string. Qed.

Lemma ascii_valid s : isASCII s = true -> utf8_valid (bytes_of s) = true.
Proof.
  unfold isASCII, utf8_valid. intros H. rewrite forallb_forall in H. rewrite runes_ascii.
  - apply forallb_forall. intros r Hr. apply in_map_iff in Hr as (a & <- & _). done.
  - apply Forall_forall. intros a Ha. apply list_elem_of_In, H in Ha. lia.
Qed.

Lemma clean_identifier s : valid_identifier s -> clean_string s = s.
Proof. intros (_ & H & _). by apply clean_string_id, ascii_valid. Qed.

(** ** Clean contents are valid *)

Lemma clean_valid_ref r : valid_ref r -> valid_ref (clean_ref r).
Proof. intros (H1 & H2 & H3). split; [by apply clean_part|]. split; [by apply clean_part|done]. Qed.

Lemma clean_valid_source r : Source.valid r -> Source.valid (clean_source r).
Proof. intros [H1 H2]. split; by apply clean_part. Qed.

Lemma validate_value_ok c :
  validate_value c = Ok tt <->
  match c with
  | SourceCitation r => Source.valid r
  | ArtifactCitation r => valid_ref r
  | MemoryCitation m => valid_ref (ci_MemoryRef m) /\ valid_identifier (ci_EntryID m) /\ valid_identifier (ci_EntryVersionID m)
  end.
Proof.
  destruct c as [r|r|m]; unfold validate_value.
  - rewrite <- (check_source_ok r tt). destruct (check_source r) as [[]|]; by split.
  - rewrite <- (Validate_ok r tt). destruct (Validate r) as [[]|]; by split.
  - rewrite <- (Validate_ok (ci_MemoryRef m) tt). destruct (Validate (ci_MemoryRef m)) as [[]|]; cbn; [|by split; [|intros [? _]]].
    pose proof (ValidateIdentifier_ok (ci_EntryID m) (ci_EntryID m)) as H1.
    pose proof (ValidateIdentifier_ok (ci_EntryVersionID m) (ci_EntryVersionID m)) as H2. split.
    + intros H. destruct (ValidateIdentifier (ci_EntryID m)) as [w|] eqn:E1; [|done]. cbn in H.
      destruct (ValidateIdentifier (ci_EntryVersionID m)) as [w'|] eqn:E2; [|done].
      apply ValidateIdentifier_ok in E1 as [_ E1], E2 as [_ E2]. done.
    + intros (_ & H3 & H4). rewrite (proj2 H1), (proj2 H2) by done. done.
Qed.

Lemma clean_citation_valid c : validate_value c = Ok tt -> validate_value (clean_citation c) = Ok tt.
Proof.
  rewrite !validate_value_ok. destruct c as [r|r|m]; cbn.
  - apply clean_valid_source.
  - apply clean_valid_ref.
  - intros (H1 & H2 & H3). rewrite !clean_identifier by done. split; [by apply clean_valid_ref|done].
Qed.

Lemma clean_text field s u : validateText field s = Ok u -> validateText field (clean_string s) = Ok u.
Proof. unfold validateText. by rewrite clean_blank, clean_rune_count. Qed.

Lemma clean_citations_valid values :
  validateCitations values false = Ok tt -> validateCitations (map (option_map clean_citation) values) false = Ok tt.
Proof.
  unfold validateCitations. generalize (∅ : gset string) as seen.
  induction values as [|[c|] values IH]; intros seen; [done| |done]. cbn [map validate_loop option_map]. intros H. bind_inv H.
  cbn [validateCitation] in *. destruct a. rewrite (clean_citation_valid c Ha). cbn. by apply IH.
Qed.

Lemma clean_statement_valid s u : validateStatement s = Ok u -> validateStatement (clean_statement s) = Ok u.
Proof.
  unfold validateStatement. intros H. bind_inv H. destruct u. apply clean_text in Ha. cbn. rewrite Ha. cbn [bind].
  unfold len in *. rewrite length_map, Ha0. cbn. by apply clean_citations_valid.
Qed.

Lemma clean_omission_valid o u : validateOmission o = Ok u -> validateOmission (clean_omission o) = Ok u.
Proof.
  unfold validateOmission. intros H. bind_inv H. apply clean_text in Ha. cbn. rewrite Ha. cbn [bind].
  destruct (o_citation o) as [c|]; [|done]. destruct u. cbn in *. by apply clean_citation_valid.
Qed.

Lemma map_res_map {E A B} (f : A -> result E B) (g : A -> A) xs ys :
  (forall x y, f x = Ok y -> f (g x) = Ok y) -> map_res f xs = Ok ys -> map_res f (map g xs) = Ok ys.
Proof.
  intros Hf H. apply map_res_Forall2 in H. apply map_res_Forall2. induction H; constructor; auto.
Qed.

Lemma clean_content_valid c u : ValidateContent c = Ok u -> ValidateContent (clean_content c) = Ok u.
Proof.
  unfold ValidateContent. intros H. bind_inv H. apply clean_text in Ha. cbn. rewrite Ha. cbn [bind].
  unfold len in *. rewrite !length_map, Ha0. cbn [bind]. rewrite (map_res_map _ _ _ _ clean_statement_valid Ha1). cbn [bind].
  rewrite Ha2. cbn [bind].
  destruct (nextAction c) as [s|]; cbn; [rewrite (clean_statement_valid s _ Ha3); cbn|].
  - rewrite Ha4. cbn. rewrite (map_res_map _ _ _ _ clean_omission_valid Ha5). done.
  - rewrite Ha4. cbn. rewrite (map_res_map _ _ _ _ clean_omission_valid Ha5). done.
Qed.

(** ** Decoding the wire form *)

(** A revision of a Go reference is a 64-bit integer. *)
Definition machine_ref (r : Ref) : Prop := revision r <= max_int64.
Definition machine_citation (c : Citation) : Prop :=
  match c with
  | SourceCitation _ => True
  | ArtifactCitation r => machine_ref r
  | MemoryCitation m => machine_ref (ci_MemoryRef m)
  end.
Definition machine_citations (cs : list (option Citation)) : Prop := forall c, Some c ∈ cs -> machine_citation c.

Lemma decode_string s : string_of (clean (bytes_of s)) = clean_string s.
Proof. reflexivity. Qed.

Lemma decode_source_wire r :
  Source.valid r -> decodeSourceRef (value_of (sourceRefWire r)) = Ok (clean_source r).
Proof.
  intros H. transitivity (map_err (fun e => DInvalid (HRef e))
    (Source.NewRef (clean_string (Source.sourceType r)) (clean_string (Source.sourceID r)))); [reflexivity|].
  by rewrite (proj2 (Source.source_ref_ok _ _ (clean_source r)) (conj eq_refl (clean_valid_source r H))).
Qed.

Lemma into_revision (old : Z) r :
  valid_ref r -> machine_ref r -> into_int64 old (VNumber (bytes_of (pretty (revision r)))) = Ok (revision r).
Proof.
  intros (_ & _ & H) Hm. unfold into_int64. rewrite parse_int64_pretty; [done|].
  unfold machine_ref, min_int64, max_int64 in *. lia.
Qed.

Lemma into_ref_wire r :
  valid_ref r -> machine_ref r ->
  into_struct set_artifact_ref empty_ref (value_of (artifactRefWire r)) = Ok (clean_ref r).
Proof.
  intros H Hm. transitivity (let* a := (let* n := into_int64 0 (VNumber (bytes_of (pretty (revision r)))) in
    Ok (MkRef (clean_string (family r)) (clean_string (artifactID r)) n) : dres Ref) in Ok a); [reflexivity|].
  by rewrite into_revision.
Qed.

Lemma new_clean_ref r :
  valid_ref r -> NewRef (family (clean_ref r)) (artifactID (clean_ref r)) (revision (clean_ref r)) = Ok (clean_ref r).
Proof. intros H. apply NewRef_ok. split; [done|]. by apply clean_valid_ref. Qed.

Lemma decode_artifact_wire r :
  valid_ref r -> machine_ref r -> decodeArtifactRef (value_of (artifactRefWire r)) = Ok (clean_ref r).
Proof. intros H Hm. unfold decodeArtifactRef. rewrite into_ref_wire by done. cbn [bind]. by rewrite new_clean_ref. Qed.

Lemma into_citation_wire m :
  valid_ref (ci_MemoryRef m) -> machine_ref (ci_MemoryRef m) ->
  into_struct set_memory_citation (MkCitation empty_ref "" "") (value_of (memoryCitationWire m))
  = Ok (MkCitation (clean_ref (ci_MemoryRef m)) (clean_string (ci_EntryID m)) (clean_string (ci_EntryVersionID m))).
Proof.
  intros H Hm. transitivity (let* r := into_struct set_artifact_ref empty_ref (value_of (artifactRefWire (ci_MemoryRef m))) in
    Ok (MkCitation r (clean_string (ci_EntryID m)) (clean_string (ci_EntryVersionID m))) : dres MemoryModel.Citation).
  { cbn [memoryCitationWire value_of map into_struct fold_res fst snd].
    change (set_memory_citation (clean (bytes_of "memory_ref")) ?v ?c)
      with (let* r := into_struct set_artifact_ref (ci_MemoryRef c) v in
            Ok (MkCitation r (ci_EntryID c) (ci_EntryVersionID c)) : dres MemoryModel.Citation).
    cbn [ci_MemoryRef ci_EntryID ci_EntryVersionID].
    by destruct (into_struct set_artifact_ref empty_ref (value_of (artifactRefWire (ci_MemoryRef m)))). }
  by rewrite into_ref_wire.
Qed.

Lemma decode_citation_wire c :
  validate_value c = Ok tt -> machine_citation c -> decodeHandoffCitation (value_of (citationWire (Some c))) = Ok (clean_citation c).
Proof.
  intros Hv Hm. pose proof (clean_citation_valid c Hv) as Hc. apply validate_value_ok in Hv.
  destruct c as [r|r|m].
  - transitivity (let* r := decodeSourceRef (value_of (sourceRefWire r)) in new_citation (SourceCitation r)); [reflexivity|].
    rewrite decode_source_wire by done. cbn [bind]. unfold new_citation. cbn [clean_citation] in Hc. by rewrite Hc.
  - transitivity (let* r := decodeArtifactRef (value_of (artifactRefWire r)) in new_citation (ArtifactCitation r)); [reflexivity|].
    rewrite decode_artifact_wire by done. cbn [bind]. unfold new_citation. cbn [clean_citation] in Hc. by rewrite Hc.
  - destruct Hv as (H1 & H2 & H3).
    transitivity (let* encoded := into_struct set_memory_citation (MkCitation empty_ref "" "") (value_of (memoryCitationWire m)) in
      let* r := map_err (fun e => DInvalid (HRef e))
                (NewRef (family (ci_MemoryRef encoded)) (artifactID (ci_MemoryRef encoded)) (revision (ci_MemoryRef encoded))) in
      new_citation (MemoryCitation (MkCitation r (ci_EntryID encoded) (ci_EntryVersionID encoded)))); [reflexivity|].
    rewrite into_citation_wire by done. cbn [bind ci_MemoryRef ci_EntryID ci_EntryVersionID]. rewrite new_clean_ref by done.
    cbn [map_err bind]. unfold new_citation. cbn [clean_citation] in Hc. by rewrite Hc.
Qed.

Lemma decode_citations_wire cs :
  Forall (fun c => validate_value c = Ok tt) cs -> machine_citations (map Some cs) ->
  map_res decodeHandoffCitation (map value_of (map citationWire (map Some cs))) = Ok (map clean_citation cs).
Proof.
  intros Hv Hm. apply map_res_Forall2. induction Hv as [|c cs Hc _ IH]; [constructor|]. cbn [map]. constructor.
  - apply decode_citation_wire; [done|]. apply Hm. by left.
  - apply IH. intros x Hx. apply Hm. by right.
Qed.

Lemma statement_some s u : validateStatement s = Ok u ->
  exists cs, s_citations s = map Some cs /\ Forall (fun c => validate_value c = Ok tt) cs.
Proof.
  unfold validateStatement. intros H. bind_inv H. revert H. unfold validateCitations.
  generalize (∅ : gset string) as seen. generalize (s_citations s) as values. clear.
  induction values as [|v values IH]; intros seen; [intros _; by exists []|].
  cbn [validate_loop]. intros H. bind_inv H. destruct v as [c|]; [|done]. apply IH in H as (cs & -> & Hcs).
  exists (c :: cs). split; [done|]. constructor; [|done]. cbn in Ha. by destruct a.
Qed.

Lemma clean_map_some cs : map (option_map clean_citation) (map Some cs) = map Some (map clean_citation cs).
Proof. by rewrite !map_map. Qed.

Lemma decode_statement_wire s u :
  validateStatement s = Ok u -> machine_citations (s_citations s) ->
  decodeHandoffStatement (value_of (statementWire s)) = Ok (clean_statement s).
Proof.
  intros Hv Hm. destruct (statement_some s u Hv) as (cs & Ecs & Hcs). pose proof (clean_statement_valid s u Hv) as Hc.
  unfold clean_statement in *. rewrite Ecs in *.
  transitivity (let* citations := map_res decodeHandoffCitation (map value_of (map citationWire (map Some cs))) in
                map_err DInvalid (NewStatement (clean_string (s_text s)) (map Some citations))).
  { unfold statementWire. by rewrite Ecs. }
  rewrite decode_citations_wire by done. cbn [bind]. rewrite clean_map_some in *.
  unfold NewStatement. by rewrite Hc.
Qed.

Lemma decode_omission_wire o u :
  validateOmission o = Ok u -> machine_citations [o_citation o] ->
  decodeHandoffOmission (value_of (omissionWire o)) = Ok (clean_omission o).
Proof.
  intros Hv Hm. pose proof (clean_omission_valid o u Hv) as Hc. unfold clean_omission in *.
  destruct (o_citation o) as [c|] eqn:Ec.
  - assert (Hcv : validate_value c = Ok tt).
    { unfold validateOmission in Hv. bind_inv Hv. rewrite Ec in Hv. cbn in Hv. by destruct u. }
    transitivity (let* c := (let* c := decodeHandoffCitation (value_of (citationWire (Some c))) in Ok (Some c)) in
                  map_err DInvalid (NewOmission (clean_string (o_text o)) c)).
    { unfold omissionWire. rewrite Ec. destruct c; reflexivity. }
    rewrite decode_citation_wire; [|done|apply Hm; by left]. cbn [bind option_map] in *. unfold NewOmission. by rewrite Hc.
  - transitivity (map_err DInvalid (NewOmission (clean_string (o_text o)) None)).
    { unfold omissionWire. rewrite Ec. reflexivity. }
    cbn [option_map] in *. unfold NewOmission. by rewrite Hc.
Qed.

(** All the citations of a content are machine citations. *)
Definition machine_content (c : Content) : Prop :=
  Forall (fun s => machine_citations (s_citations s)) (hstate c) /\
  match nextAction c with Some s => machine_citations (s_citations s) | None => True end /\
  Forall (fun o => machine_citations [o_citation o]) (omissions c).

Lemma decode_all_wire {A} (check : A -> hres unit) (machine : A -> Prop) (wire : A -> json) (decode : jvalue -> dres A)
  (cleaned : A -> A) xs us :
  (forall x u, check x = Ok u -> machine x -> decode (value_of (wire x)) = Ok (cleaned x)) ->
  map_res check xs = Ok us -> Forall machine xs ->
  map_res decode (map value_of (map wire xs)) = Ok (map cleaned xs).
Proof.
  intros Hd H Hm. apply map_res_Forall2 in H. apply map_res_Forall2. revert Hm.
  induction H as [|x u xs us Hx _ IH]; intros Hm; [constructor|]. inversion_clear Hm as [|? ? H1 H2].
  cbn [map]. constructor; [by eapply Hd|by apply IH].
Qed.

Definition content_tree (c : Content) : list (bytes * jvalue) :=
  [(bytes_of "schema", VText (bytes_of ContentSchemaVersion)); (bytes_of "objective", VText (clean (bytes_of (objective c))));
   (bytes_of "state", VArray (map value_of (map statementWire (hstate c))));
   (bytes_of "disposition", VText (clean (bytes_of (disposition_string (disposition c)))));
   (bytes_of "next_action", value_of match nextAction c with Some s => statementWire s | None => JNull end);
   (bytes_of "omissions", VArray (map value_of (map omissionWire (omissions c))))].

Lemma contentWire_tree c : value_of (contentWire c) = VMembers (content_tree c).
Proof. reflexivity. Qed.

Lemma disposition_back d :
  (match d with OtherDisposition _ => false | _ => true end) = true ->
  disposition_of (clean_string (disposition_string d)) = d.
Proof. by destruct d. Qed.

Lemma decode_content_wire c payload :
  read_json false payload = Some (value_of (contentWire c)) ->
  ValidateContent c = Ok tt -> machine_content c -> decodeHandoff payload = Ok (clean_content c).
Proof.
  intros Hr Hv (Hm1 & Hm2 & Hm3). pose proof (clean_content_valid c tt Hv) as Hc.
  unfold ValidateContent in Hv. bind_inv Hv. ok_inv.
  unfold decodeHandoff. rewrite Hr, contentWire_tree. cbn [of_option bind as_fields].
  transitivity (let* state := map_res decodeHandoffStatement (map value_of (map statementWire (hstate c))) in
    let* next := match nextAction c with
                 | Some s => let* s := decodeHandoffStatement (value_of (statementWire s)) in Ok (Some s)
                 | None => Ok None
                 end in
    let* decodedOmissions := map_res decodeHandoffOmission (map value_of (map omissionWire (omissions c))) in
    map_err DInvalid (NewContent (clean_string (objective c)) state
      (disposition_of (clean_string (disposition_string (disposition c)))) next decodedOmissions)).
  { unfold content_tree. destruct (nextAction c); reflexivity. }
  rewrite (decode_all_wire _ _ _ _ _ _ _ decode_statement_wire Ha1 Hm1). cbn [bind].
  rewrite disposition_back by done.
  rewrite (decode_all_wire _ _ _ _ _ _ _ decode_omission_wire Ha5 Hm3).
  unfold NewContent. unfold clean_content in *.
  destruct (nextAction c) as [s|]; cbn [option_map bind] in *; [|by rewrite Hc].
  rewrite (decode_statement_wire s _ Ha3 Hm2). cbn [bind]. by rewrite Hc.
Qed.

(** ** Encoding *)

Lemma encode_statement_wire s u : validateStatement s = Ok u -> encodeHandoffStatement s = Ok (statementWire s).
Proof.
  intros Hv. destruct (statement_some s u Hv) as (cs & Ecs & _). unfold encodeHandoffStatement, statementWire. rewrite Ecs.
  assert (E : map_res encodeHandoffCitation (map Some cs) = Ok (map citationWire (map Some cs))).
  { clear. apply map_res_Forall2. induction cs; constructor; done. }
  by rewrite E.
Qed.

Lemma encode_all_wire {A} (check : A -> hres unit) (encode : A -> hres json) (wire : A -> json) xs us :
  (forall x u, check x = Ok u -> encode x = Ok (wire x)) -> map_res check xs = Ok us ->
  map_res encode xs = Ok (map wire xs).
Proof.
  intros He H. apply map_res_Forall2 in H. apply map_res_Forall2. induction H; constructor; [by eapply He|done].
Qed.

Lemma encode_omission_wire o u : validateOmission o = Ok u -> encodeHandoffOmission o = Ok (omissionWire o).
Proof. intros _. unfold encodeHandoffOmission, omissionWire. by destruct (o_citation o). Qed.

(** The payload is the compact text of the wire form. *)
Lemma encodeHandoff_wire c :
  ValidateContent c = Ok tt -> encodeHandoff c = Ok (marshalJSON (contentWire c)).
Proof.
  intros Hv. unfold encodeHandoff. rewrite Hv. unfold ValidateContent in Hv. bind_inv Hv. cbn [bind].
  rewrite (encode_all_wire _ _ _ _ _ encode_statement_wire Ha1), (encode_all_wire _ _ _ _ _ encode_omission_wire Ha5).
  unfold contentWire. destruct (nextAction c) as [s|]; cbn [bind]; [|done].
  by rewrite (encode_statement_wire s _ Ha3).
Qed.

Lemma read_contentWire strict c b :
  renders (contentWire c) b -> read_json strict b = Some (value_of (contentWire c)).
Proof.
  intros H. destruct (contentWire_ok c) as [H1 H2]. apply read_renders; [done|done|].
  etransitivity; [exact H2|]. unfold max_depth. apply Nat.leb_le. reflexivity.
Qed.

Lemma decode_encode c payload :
  encodeHandoff c = Ok payload -> machine_content c -> decodeHandoff payload = Ok (clean_content c).
Proof.
  intros He Hm. assert (Hv : ValidateContent c = Ok tt).
  { unfold encodeHandoff in He. bind_inv He. by destruct a. }
  rewrite encodeHandoff_wire in He by done. injection He as <-.
  apply decode_content_wire; [|done|done]. apply read_contentWire, json_bytes_renders.
Qed.
