(* ===== verification/MemoryCodec.v ===== *)
(** * Stored Memories ([internal/sqlstore] artifact_codecs.go)

    The JSON payload of a Memory revision, its manifest and changes, and its
    decoder, which accepts a payload only with constructors that check it. *)

From S2P Require Import Prelude.
From S2P Require Import GoStrings.
From S2P Require Import Refs.
From S2P Require Import Json.
From S2P Require Import Sha256.
From S2P Require Import JsonText.
From S2P Require Import JsonWriter.
From S2P Require Import MemoryModel.
From S2P Require Import Handoff.
From S2P Require Import HandoffResolution.
From S2P Require Import HandoffCodec.
From S2P Require Import HandoffCodecFacts.

(** ** Encoding *)

Definition encode_entry (e : ManifestEntry) : json :=
  JObj [("entry_id", JStr (entryID e)); ("entry_version_id", JStr (entryVersionID e));
        ("entry_content_hash", JStr (entryContentHash e)); ("state", JStr (state_string (MemoryModel.state e)))]%string.

Definition encode_change (c : Change) : json :=
  JObj [("op", JStr (op_string (op c))); ("entry_id", JStr (c_entryID c));
        ("from_entry_version_id", optional_json (fromEntryVersionID c));
        ("to_entry_version_id", optional_json (toEntryVersionID c)); ("reason", optional_json (reason c))]%string.

Definition memory_json (c : MemoryModel.Content) : json :=
  JObj [("manifest", JObj [("entries", JArr (map encode_entry (manifest c))); ("format", JStr Format)]);
        ("changes", JArr (map encode_change (changes c))); ("schema", JStr Schema)]%string.

Definition encodeMemory (c : MemoryModel.Content) : bytes := marshalJSON (memory_json c).

(** ** Decoding *)

Definition memory_error {A} : mres A -> dres A := map_err (fun e => DInvalid (HMemory e)).

(** A text with a default, that null does not stand for. *)
Definition text_or (name fallback : string) (ms : list (bytes * jvalue)) : dres string :=
  match field name ms with
  | None => Ok fallback
  | Some VNull => Err (DMissing name)
  | Some raw => into_string fallback raw
  end.

(** An array, nothing when it is absent, that null does not stand for. *)
Definition array_or_none (name : string) (ms : list (bytes * jvalue)) : dres (list jvalue) :=
  match field name ms with
  | None => Ok []
  | Some VNull => Err (DMissing name)
  | Some raw => as_array raw
  end.

(** [requiredString] *)
Definition change_text (ms : list (bytes * jvalue)) (name : string) : dres string :=
  match field name ms with
  | None => Err (DMissing name)
  | Some raw => into_string "" raw
  end.

Definition nullable_text (v : jvalue) : dres (option string) :=
  match v with
  | VNull => Ok None
  | raw => let* value := into_string "" raw in Ok (Some value)
  end.

Definition requiredNullableString (ms : list (bytes * jvalue)) (name : string) (required : bool) : dres (option string) :=
  match field name ms with
  | None => if required then Err (DMissing name) else Ok None
  | Some raw => nullable_text raw
  end.

Definition op_of (s : string) : ChangeOp :=
  if String.eqb s "add" then Add else if String.eqb s "revise" then Revise
  else if String.eqb s "deactivate" then Deactivate else if String.eqb s "reactivate" then Reactivate else OtherOp s.
Definition state_of (s : string) : EntryState :=
  if String.eqb s "active" then Active else if String.eqb s "inactive" then Inactive else OtherState s.

(** [memoryManifestEntryJSON] *)
Record EntryWire := MkEntryWire { ew_id : string; ew_version : string; ew_hash : string; ew_state : string }.

Definition set_entry (key : bytes) (v : jvalue) (w : EntryWire) : dres EntryWire :=
  if same_name "entry_id" key then
    let* t := into_string (ew_id w) v in Ok (MkEntryWire t (ew_version w) (ew_hash w) (ew_state w))
  else if same_name "entry_version_id" key then
    let* t := into_string (ew_version w) v in Ok (MkEntryWire (ew_id w) t (ew_hash w) (ew_state w))
  else if same_name "entry_content_hash" key then
    let* t := into_string (ew_hash w) v in Ok (MkEntryWire (ew_id w) (ew_version w) t (ew_state w))
  else if same_name "state" key then
    let* t := into_string (ew_state w) v in Ok (MkEntryWire (ew_id w) (ew_version w) (ew_hash w) t)
  else Ok w.

Definition decode_entry (v : jvalue) : dres EntryWire := into_struct set_entry (MkEntryWire "" "" "" "") v.

Definition new_entry (w : EntryWire) : dres ManifestEntry :=
  memory_error (NewManifestEntry (ew_id w) (ew_version w) (ew_hash w) (state_of (ew_state w))).

Definition decodeMemoryManifest (v : jvalue) : dres Manifest :=
  let* fields := as_fields v in
  let* format := text_or "format" Format fields in
  require String.eqb format Format else DInvalid (HCheck "format") in
  let* raws := array_or_none "entries" fields in
  let* encoded := map_res decode_entry raws in
  map_res new_entry encoded.

Section decoding.
Context {T : Text}.

Definition decodeMemoryChange (ms : list (bytes * jvalue)) : dres Change :=
  let* op := change_text ms "op" in
  let* entryID := change_text ms "entry_id" in
  let* from := requiredNullableString ms "from_entry_version_id" true in
  let* to := requiredNullableString ms "to_entry_version_id" true in
  let* why := requiredNullableString ms "reason" false in
  memory_error (NewChange (op_of op) entryID from to why).

Definition decodeMemory (payload : bytes) : dres MemoryModel.Content :=
  let* v := of_option (read_json false payload) DSyntax in
  let* fields := as_fields v in
  let* manifestRaw := required fields "manifest" in
  let* entries := decodeMemoryManifest manifestRaw in
  let* raws := array_or_none "changes" fields in
  let* encoded := map_res as_fields raws in
  let* changes := map_res decodeMemoryChange encoded in
  let* schema := text_or "schema" Schema fields in
  require String.eqb schema Schema else DInvalid (HCheck "schema") in
  Ok (MemoryModel.MkContent entries changes).

(** ** The round trip *)

(** A change that its constructor made, and that UTF-8 can hold. *)
Definition valid_change (c : Change) : Prop :=
  NewChange (op c) (c_entryID c) (fromEntryVersionID c) (toEntryVersionID c) (reason c) = Ok c /\
  match reason c with Some why => utf8_valid (bytes_of why) = true | None => True end.

Definition valid_memory (c : MemoryModel.Content) : Prop := Forall valid_entry (manifest c) /\ Forall valid_change (changes c).

Lemma identifier_of_optional o : validate_optional o = Ok tt -> match o with Some v => valid_identifier v | None => True end.
Proof.
  destruct o as [v|]; [|done]. cbn. intros H. bind_inv H. by apply ValidateIdentifier_ok in Ha as [_ Ha].
Qed.

Lemma NewChange_valid c : valid_change c ->
  valid_identifier (c_entryID c) /\
  match fromEntryVersionID c with Some v => valid_identifier v | None => True end /\
  match toEntryVersionID c with Some v => valid_identifier v | None => True end.
Proof.
  intros [H _]. unfold NewChange in H. bind_inv H. apply ValidateIdentifier_ok in Ha0 as [_ Ha0]. destruct a1, a2.
  split; [done|]. split; by apply identifier_of_optional.
Qed.

Lemma hash_ascii h : lowerHex64 h = true -> utf8_valid (bytes_of h) = true.
Proof.
  intros H. apply ascii_valid. unfold isASCII. unfold lowerHex64 in H. apply andb_prop in H as [_ H].
  rewrite forallb_forall in H. apply forallb_forall. intros c Hc. apply H in Hc. unfold lower_hex, in_range in Hc. lia.
Qed.

Lemma decode_entry_wire e : valid_entry e ->
  decode_entry (value_of (encode_entry e)) =
    Ok (MkEntryWire (entryID e) (entryVersionID e) (entryContentHash e) (state_string (MemoryModel.state e))).
Proof.
  intros (H1 & H2 & H3 & H4).
  transitivity (Ok (MkEntryWire (clean_string (entryID e)) (clean_string (entryVersionID e)) (clean_string (entryContentHash e))
                      (clean_string (state_string (MemoryModel.state e)))) : dres EntryWire); [reflexivity|].
  rewrite (clean_identifier _ H1), (clean_identifier _ H2), (clean_string_id _ (hash_ascii _ H3)).
  destruct H4 as [-> | ->]; reflexivity.
Qed.

Lemma new_entry_wire e : valid_entry e ->
  new_entry (MkEntryWire (entryID e) (entryVersionID e) (entryContentHash e) (state_string (MemoryModel.state e))) = Ok e.
Proof.
  intros H. unfold new_entry. cbn [ew_id ew_version ew_hash ew_state].
  assert (E : state_of (state_string (MemoryModel.state e)) = MemoryModel.state e) by (destruct H as (_ & _ & _ & [-> | ->]); reflexivity).
  rewrite E. rewrite (proj2 (NewManifestEntry_ok _ _ _ _ e)); [done|]. split; [by destruct e|done].
Qed.

Lemma decode_manifest_wire es : Forall valid_entry es ->
  decodeMemoryManifest (value_of (JObj [("entries", JArr (map encode_entry es)); ("format", JStr Format)]%string)) = Ok es.
Proof.
  intros H. transitivity (let* encoded := map_res decode_entry (map value_of (map encode_entry es)) in map_res new_entry encoded); [reflexivity|].
  set (wire := fun e => MkEntryWire (entryID e) (entryVersionID e) (entryContentHash e) (state_string (MemoryModel.state e))).
  assert (E1 : map_res decode_entry (map value_of (map encode_entry es)) = Ok (map wire es)).
  { apply map_res_Forall2. induction H; cbn [map]; constructor; [by apply decode_entry_wire|done]. }
  rewrite E1. cbn [bind]. apply map_res_Forall2. clear E1. induction H; cbn [map]; constructor; [by apply new_entry_wire|done].
Qed.

Lemma nullable_back o : match o with Some v => utf8_valid (bytes_of v) = true | None => True end ->
  nullable_text (value_of (optional_json o)) = Ok o.
Proof.
  destruct o as [v|]; [|done]. intros H. transitivity (Ok (Some (clean_string v)) : dres (option string)); [reflexivity|].
  by rewrite clean_string_id.
Qed.

Lemma decode_change_wire c : valid_change c ->
  exists ms, as_fields (value_of (encode_change c)) = Ok ms /\ decodeMemoryChange ms = Ok c.
Proof.
  intros H. pose proof (NewChange_valid c H) as (H1 & H2 & H3). destruct H as [Hn Hr].
  eexists. split; [reflexivity|].
  assert (Hf : match fromEntryVersionID c with Some v => utf8_valid (bytes_of v) = true | None => True end).
  { destruct (fromEntryVersionID c); [|done]. apply ascii_valid, H2. }
  assert (Ht : match toEntryVersionID c with Some v => utf8_valid (bytes_of v) = true | None => True end).
  { destruct (toEntryVersionID c); [|done]. apply ascii_valid, H3. }
  transitivity (
    let* from := nullable_text (value_of (optional_json (fromEntryVersionID c))) in
    let* to := nullable_text (value_of (optional_json (toEntryVersionID c))) in
    let* why := nullable_text (value_of (optional_json (reason c))) in
    memory_error (NewChange (op_of (clean_string (op_string (op c)))) (clean_string (c_entryID c)) from to why) : dres Change); [reflexivity|].
  rewrite (nullable_back _ Hf), (nullable_back _ Ht), (nullable_back _ Hr). cbn [bind]. rewrite (clean_identifier _ H1).
  assert (E : op_of (clean_string (op_string (op c))) = op c).
  { unfold NewChange in Hn. bind_inv Hn. destruct (op c); try reflexivity. discriminate. }
  by rewrite E, Hn.
Qed.

Lemma memory_json_tree c :
  value_of (memory_json c) =
    VMembers [(bytes_of "manifest", value_of (JObj [("entries", JArr (map encode_entry (manifest c))); ("format", JStr Format)]%string));
              (bytes_of "changes", VArray (map value_of (map encode_change (changes c)))); (bytes_of "schema", VText (bytes_of Schema))].
Proof. reflexivity. Qed.

Lemma memory_json_ok c : names_unique (memory_json c) /\ (nesting (memory_json c) <= 4)%nat.
Proof.
  apply (wire_obj _ 3); [different_names|]. repeat (apply Forall_cons; split; cbn [snd]); try apply Forall_nil; try exact I.
  - apply (wire_obj _ 2); [different_names|]. repeat (apply Forall_cons; split; cbn [snd]); try apply Forall_nil; try exact I.
    + apply (wire_arr encode_entry _ 1). intros e _. unfold encode_entry. wire.
    + split; cbn; [exact I|lia].
  - destruct (wire_arr encode_change (changes c) 1) as [H1 H2]; [|split; [exact H1|lia]].
    intros ch _. unfold encode_change. destruct (fromEntryVersionID ch), (toEntryVersionID ch), (reason ch); cbn [optional_json]; wire.
  - split; cbn; [exact I|lia].
Qed.

(** A Memory that its constructors made is read back as it was written. *)
Lemma decode_encode_memory c : valid_memory c -> decodeMemory (encodeMemory c) = Ok c.
Proof.
  intros [He Hc]. unfold decodeMemory, encodeMemory, marshalJSON. destruct (memory_json_ok c) as [H1 H2].
  rewrite (read_renders false _ _ (json_bytes_renders _ _) H1) by (etransitivity; [exact H2|]; unfold max_depth; apply Nat.leb_le; reflexivity).
  rewrite memory_json_tree. cbn [of_option bind as_fields].
  transitivity (let* entries := decodeMemoryManifest (value_of (JObj [("entries", JArr (map encode_entry (manifest c))); ("format", JStr Format)]%string)) in
    let* encoded := map_res as_fields (map value_of (map encode_change (changes c))) in
    let* changes := map_res decodeMemoryChange encoded in
    Ok (MemoryModel.MkContent entries changes)); [reflexivity|].
  rewrite decode_manifest_wire by done. cbn [bind].
  assert (E : exists encoded, map_res as_fields (map value_of (map encode_change (changes c))) = Ok encoded /\
                              map_res decodeMemoryChange encoded = Ok (changes c)).
  { induction Hc as [|x xs Hx _ IH]; [by exists []|]. destruct IH as (encoded & E1 & E2).
    destruct (decode_change_wire x Hx) as (ms & E3 & E4). exists (ms :: encoded). cbn [map map_res]. rewrite E3, E1. cbn [bind].
    split; [done|]. cbn [map_res]. by rewrite E4, E2. }
  destruct E as (encoded & -> & E2). cbn [bind]. rewrite E2. cbn [bind]. by destruct c.
Qed.
End decoding.
