(* ===== verification/MemoryRepository.v ===== *)
(** * The relational Memory repository ([internal/sqlstore] memory.go,
    memory_entries.go, memory_index.go, and the Memory tables of schema.go)

    Memory revisions are artifacts; their entry versions and the searchable heads
    of their entries are rows of their own, written in the transaction of the
    revision.  The index is a record of operations on tables of its own. *)

From S2P Require Import Prelude.
From S2P Require Import GoStrings.
From S2P Require Import Refs.
From S2P Require Import Json.
From S2P Require Import JsonText.
From S2P Require Import MemoryModel.
From S2P Require Import Sql.
From S2P Require Import ArtifactStore.
From S2P Require Import MemoryService.
From S2P Require Import MemorySearch.
From S2P Require Import Handoff.
From S2P Require Import HandoffResolution.
From S2P Require Import HandoffCodec.
From S2P Require Import MemoryCodec.

(** ** Tables *)

(** A row of [pc_memory_entry_versions], under its scope, Memory and version, and a
    row of [pc_memory_entry_heads], under its scope, Memory and entry. *)
Record VersionRow := MkVersionRow {
  vr_entry : string; vr_version : Z; vr_previous : option string; vr_kind : string; vr_text : string;
  vr_sources : bytes; vr_artifacts : bytes; vr_hash : string; vr_created : Z
}.
Record HeadRow := MkHeadRow { hr_revision : Z; hr_version : string; hr_hash : string; hr_searchable : string }.

Record MemoryTables := MkMemoryTables {
  mt_versions : gmap (string * string * string) VersionRow;
  mt_heads : gmap (string * string * string) HeadRow
}.

(** ** Contents of a repository *)

(** Memory contents among the dynamic contents of a repository. *)
Class Carries (C X : Type) `{Dynamic C} := {
  carried_type : string;
  inject : X -> C;
  project : C -> option X;
  project_inject x : project (inject x) = Some x;
  project_some c x : project c = Some x -> c = inject x;
  inject_type x : type_of (inject x) = carried_type
}.

Definition decoded {E A} (r : result E A) : option A := match r with Ok a => Some a | Err _ => None end.

(** [MemoryArtifactCodec]; an error would be a panic. *)
Definition MemoryArtifactCodec {Tb C} `{Text} `{Carries C MemoryModel.Content} : result store_error (ArtifactCodec Tb C) :=
  NewArtifactCodec MemoryModel.Family carried_type inject project
    (fun c => Some (encodeMemory c)) (fun payload => decoded (decodeMemory payload)).

(** ** The index *)

(** [MemoryIndex] *)
Record MemoryIndex (Tb : Type) := MkMemoryIndex {
  ix_Capabilities : Capabilities;
  ix_Initialize : txn Tb unit;
  ix_Replace : string -> Ref -> list Projection -> txn Tb unit;
  ix_Search : string -> SearchRequest -> txn Tb SearchChannels;
  ix_VectorComplete : string -> list Ref -> EmbeddingProfile -> txn Tb bool;
  ix_Hydrate : string -> list Projection -> txn Tb (list Projection)
}.
Arguments MkMemoryIndex {Tb}. Arguments ix_Capabilities {Tb}. Arguments ix_Initialize {Tb}. Arguments ix_Replace {Tb}.
Arguments ix_Search {Tb}. Arguments ix_VectorComplete {Tb}. Arguments ix_Hydrate {Tb}.

Definition NoMemoryIndex {Tb} : MemoryIndex Tb := {|
  ix_Capabilities := MkCapabilities false false false None;
  ix_Initialize := tx_ret tt;
  ix_Replace _ _ _ := tx_ret tt;
  ix_Search _ _ := tx_err (SMemory (ECapability "fts" ""));
  ix_VectorComplete _ _ _ := tx_ret false;
  ix_Hydrate _ projections := tx_ret projections
|}.

(** The channels of all the indexes, one after the other. *)
Fixpoint composite_search {Tb} (indexes : list (MemoryIndex Tb)) (scope : string) (request : SearchRequest)
  (fts vector : list ChannelHit) : txn Tb SearchChannels :=
  match indexes with
  | [] => tx_ret (MkChannels fts vector)
  | i :: more =>
      let! channels := ix_Search i scope request in
      composite_search more scope request (fts ++ sc_FTS channels) (vector ++ sc_Vector channels)
  end.

Fixpoint composite_complete {Tb} (indexes : list (MemoryIndex Tb)) (scope : string) (memories : list Ref)
  (profile : EmbeddingProfile) (found : bool) : txn Tb bool :=
  match indexes with
  | [] => tx_ret found
  | i :: more =>
      if negb (cap_Vector (ix_Capabilities i)) then composite_complete more scope memories profile found
      else
        let! complete := ix_VectorComplete i scope memories profile in
        if complete then composite_complete more scope memories profile true else tx_ret false
  end.

Fixpoint composite_hydrate {Tb} (indexes : list (MemoryIndex Tb)) (scope : string) (projections : list Projection)
  : txn Tb (list Projection) :=
  match indexes with
  | [] => tx_ret projections
  | i :: more => let! projections := ix_Hydrate i scope projections in composite_hydrate more scope projections
  end.

(** The capabilities of an index added to those of the ones before it. *)
Definition add_capabilities {Tb} (c : Capabilities) (i : MemoryIndex Tb) : result store_error Capabilities :=
  let mine := ix_Capabilities i in
  let fts := cap_FTS c || cap_FTS mine in
  let vector := cap_Vector c || cap_Vector mine in
  if cap_Vector mine then
    let* profile := of_option (cap_profile mine) (SCodec "vector index without profile") in
    require match cap_profile c with Some p => bool_decide (p = profile) | None => true end else SCodec "vector profiles" in
    Ok (MkCapabilities fts vector (cap_Hybrid c) (Some profile))
  else Ok (MkCapabilities fts vector (cap_Hybrid c) (cap_profile c)).

Definition NewCompositeMemoryIndex {Tb} (indexes : list (MemoryIndex Tb)) : result store_error (MemoryIndex Tb) :=
  require negb (bool_decide (length indexes = 0%nat)) else SCodec "no index" in
  let* c := fold_res add_capabilities (MkCapabilities false false false None) indexes in
  Ok {|
    ix_Capabilities := MkCapabilities (cap_FTS c) (cap_Vector c) (cap_FTS c && cap_Vector c) (cap_profile c);
    ix_Initialize := each (fun _ i => ix_Initialize i) 0 indexes;
    ix_Replace scope ref projections := each (fun _ i => ix_Replace i scope ref projections) 0 indexes;
    ix_Search scope request := composite_search indexes scope request [] [];
    ix_VectorComplete scope memories profile := composite_complete indexes scope memories profile false;
    ix_Hydrate scope projections := composite_hydrate indexes scope projections
  |}.

(** ** Rows of entries ([memory_entries.go]) *)

Definition encodeSourceRefs (values : list Source.Ref) : result ref_error bytes :=
  let* _ := map_res check_source values in
  Ok (marshalJSON (JArr (map sourceRefWire values))).

Definition encodeArtifactRefs (values : list Ref) : result ref_error bytes :=
  let* _ := map_res Validate values in
  Ok (marshalJSON (JArr (map artifactRefWire values))).

Definition decode_refs {A B} (into : jvalue -> dres A) (new : A -> dres B) (payload : bytes) : dres (list B) :=
  let* v := of_option (read_json false payload) DSyntax in
  let* raws := as_array v in
  let* encoded := map_res into raws in
  map_res new encoded.

Definition decodeSourceRefs : bytes -> dres (list Source.Ref) :=
  decode_refs (into_struct set_source_ref (Source.MkRef "" ""))
    (fun r => map_err (fun e => DInvalid (HRef e)) (Source.NewRef (Source.sourceType r) (Source.sourceID r))).

Definition decodeArtifactRefs : bytes -> dres (list Ref) :=
  decode_refs (into_struct set_artifact_ref empty_ref)
    (fun r => map_err (fun e => DInvalid (HRef e)) (NewRef (family r) (artifactID r) (revision r))).

Definition not_serializable {E A} : result E A -> result store_error A :=
  map_err (fun _ => SPayload "value is not JSON serializable").
Definition not_the_model {E A} : result E A -> result store_error A :=
  map_err (fun _ => SPayload "payload does not match the model").

Definition encode_version (entry : EntryVersion) : result store_error VersionRow :=
  let* srcs := not_serializable (encodeSourceRefs (ev_Sources entry)) in
  let* arts := not_serializable (encodeArtifactRefs (ev_Artifacts entry)) in
  Ok (MkVersionRow (ev_EntryID entry) (ev_Version entry) (ev_PreviousVersionID entry) (ev_Kind entry) (ev_Text entry)
        srcs arts (ev_EntryContentHash entry) (ev_CreatedInRevision entry)).

(** [decodeMemoryEntryColumns] *)
Definition decode_version (memory version : string) (row : VersionRow) : result store_error EntryVersion :=
  let* srcs := not_the_model (decodeSourceRefs (vr_sources row)) in
  let* arts := not_the_model (decodeArtifactRefs (vr_artifacts row)) in
  Ok (MkVersion memory (vr_entry row) version (vr_version row) (vr_previous row) (vr_kind row) (vr_text row)
        (vr_hash row) (vr_created row) srcs arts).

(** ** Statements *)

Definition versions_of (t : MemoryTables) (scope memory : string) : list (string * VersionRow) :=
  omap (fun p => let '((sc, m, version), row) := p in
                 if bool_decide (sc = scope /\ m = memory) then Some (version, row) else None)
    (map_to_list (mt_versions t)).

Definition heads_of (t : MemoryTables) (scope memory : string) : list (string * HeadRow) :=
  omap (fun p => let '((sc, m, entry), row) := p in
                 if bool_decide (sc = scope /\ m = memory) then Some (entry, row) else None)
    (map_to_list (mt_heads t)).

Definition entry_le {A} (a b : string * A) : Prop := str_le (fst a) (fst b).
#[export] Instance entry_le_dec {A} (a b : string * A) : Decision (entry_le a b).
Proof. unfold entry_le. apply _. Defined.

Section statements.
Context {Tb : Type} {HA : Holds Tb Tables} {HM : Holds Tb MemoryTables}.

(** The two statements that insert also look at [pc_artifacts], by a foreign key. *)
Definition artifact_exists (t : Tb) (scope memory : string) (rev : Z) : bool :=
  negb (bool_decide (t_artifacts (rows t) !! (scope, MkRef MemoryModel.Family memory rev) = None)).

Definition insert_version (scope memory version : string) (row : VersionRow) : txn Tb unit :=
  statement (fun t =>
    let m : MemoryTables := rows t in
    require bool_decide (mt_versions m !! (scope, memory, version) = None) else SIntegrity in
    require forallb (fun p => negb (String.eqb (vr_entry (snd p)) (vr_entry row) && (vr_version (snd p) =? vr_version row)))
              (versions_of m scope memory) else SIntegrity in
    require artifact_exists t scope memory (vr_created row) else SIntegrity in
    require (0 <? vr_version row) && (0 <? vr_created row) else SIntegrity in
    Ok (tt, with_rows (MkMemoryTables (<[(scope, memory, version) := row]> (mt_versions m)) (mt_heads m)) t)).

Definition insert_entry_head (scope memory entry : string) (row : HeadRow) : txn Tb unit :=
  statement (fun t =>
    let m : MemoryTables := rows t in
    require bool_decide (mt_heads m !! (scope, memory, entry) = None) else SIntegrity in
    require artifact_exists t scope memory (hr_revision row) else SIntegrity in
    require match mt_versions m !! (scope, memory, hr_version row) with
            | Some v => String.eqb (vr_entry v) entry
            | None => false
            end else SIntegrity in
    require 0 <? hr_revision row else SIntegrity in
    Ok (tt, with_rows (MkMemoryTables (mt_versions m) (<[(scope, memory, entry) := row]> (mt_heads m))) t)).

Definition delete_entry_heads (scope memory : string) : txn Tb unit :=
  on (fun m : MemoryTables =>
    Ok (tt, MkMemoryTables (mt_versions m) (filter (fun p => (fst (fst (fst p)), snd (fst (fst p))) <> (scope, memory)) (mt_heads m)))).

Definition insertMemoryEntry (scope : string) (entry : EntryVersion) : txn Tb unit :=
  let! row := tx_lift (encode_version entry) in
  insert_version scope (ev_MemoryArtifactID entry) (ev_EntryVersionID entry) row.

(** No row of a version that has another entry. *)
Definition findMemoryEntry (scope memory entry version : string) : txn Tb (option EntryVersion) :=
  let! row := read (fun m : MemoryTables =>
                match mt_versions m !! (scope, memory, version) with
                | Some row => if String.eqb (vr_entry row) entry then Some row else None
                | None => None
                end) in
  match row with
  | None => tx_ret None
  | Some row => let! v := tx_lift (decode_version memory version row) in tx_ret (Some v)
  end.

(** The joined rows of the heads of a revision, [ORDER BY h.entry_id]. *)
Definition head_versions (m : MemoryTables) (scope memory : string) (rev : Z) : list (string * (VersionRow * string)) :=
  omap (fun p : string * HeadRow =>
          let row := snd p in
          if hr_revision row =? rev then
            match mt_versions m !! (scope, memory, hr_version row) with
            | Some v => Some (hr_version row, (v, hr_searchable row))
            | None => None
            end
          else None)
    (merge_sort entry_le (heads_of m scope memory)).
End statements.

(** ** The repository ([memory.go]) *)

Definition invalid_commit (detail : string) : store_error := SMemory (EBackendConfiguration detail).

(** The versions of the active entries of a content, and those that are projected. *)
Definition active_versions (c : MemoryModel.Content) : gset string :=
  list_to_set (omap (fun e => if bool_decide (MemoryModel.state e = Active) then Some (entryVersionID e) else None) (manifest c)).
Definition projected_versions (ps : list Projection) : gset string :=
  list_to_set (map (fun p => ev_EntryVersionID (pr_entryVersion p)) ps).

Section repository.
Context {T : Text} {Tb C : Type} {HA : Holds Tb Tables} {HM : Holds Tb MemoryTables} `{CC : Carries C MemoryModel.Content}.

Record MemoryRepository := MkMemoryRepository {
  mr_scope : string; mr_artifacts : ArtifactRepository Tb C; mr_index : MemoryIndex Tb
}.

Definition NewMemoryRepository (scope : string) (artifacts : ArtifactRepository Tb C) (index : option (MemoryIndex Tb))
  : result store_error MemoryRepository :=
  let* _ := requireScope scope in
  Ok (MkMemoryRepository scope artifacts (default NoMemoryIndex index)).

Definition as_memory (a : Artifact C) : option Memory :=
  option_map (fun c => MkArtifact (a_ref a) c (a_lineage a)) (project (a_content a)).

Definition as_artifact (m : Memory) : Artifact C := MkArtifact (a_ref m) (inject (a_content m)) (a_lineage m).

Definition validateMemoryCommit (value : Commit) : result store_error unit :=
  let next := cm_memory value in
  require String.eqb (family (a_ref next)) MemoryModel.Family else invalid_commit "family is not memory" in
  let* hash := map_err SMemory (ContentHash (a_content next)) in
  require String.eqb hash (cm_contentHash value) else invalid_commit "content hash" in
  let* expected := match cm_base value with
                   | Some base =>
                       require String.eqb (artifactID (a_ref base)) (artifactID (a_ref next))
                         else invalid_commit "base and revision identities differ" in
                       Ok (wrap64 (revision (a_ref base) + 1))
                   | None => Ok 1
                   end in
  require revision (a_ref next) =? expected else invalid_commit "revision is not the next prepared revision" in
  require bool_decide (active_versions (a_content next) = projected_versions (cm_projections value))
    else invalid_commit "active manifest and projections differ" in
  Ok tt.

Definition head_row (rev : Z) (p : Projection) : HeadRow :=
  let entry := pr_entryVersion p in
  MkHeadRow rev (ev_EntryVersionID entry) (ev_EntryContentHash entry) (pr_searchableText p).

(** Inserting the artifact of a revision. *)
Definition store_revision (repo : MemoryRepository) (value : Commit) : txn Tb (Artifact C) :=
  let next := cm_memory value in
  let! draft := tx_lift (map_err SRef (NewDraft MemoryModel.Family (inject (a_content next))
                                          (sources (a_lineage next)) (artifacts (a_lineage next)))) in
  match cm_base value with
  | None => ArtifactStore.Create (mr_artifacts repo) (mr_scope repo) (artifactID (a_ref next)) draft
  | Some base => ArtifactStore.Revise (mr_artifacts repo) (mr_scope repo) (as_artifact base) draft
  end.

(** [DELETE] and [INSERT] of the searchable heads, between the two calls of the
    index. *)
Definition replace_heads (repo : MemoryRepository) (next : Ref) (ps : list Projection) : txn Tb unit :=
  let! _ := ix_Replace (mr_index repo) (mr_scope repo) next [] in
  let! _ := delete_entry_heads (mr_scope repo) (artifactID next) in
  let! _ := each (fun _ p => insert_entry_head (mr_scope repo) (artifactID next) (ev_EntryID (pr_entryVersion p))
                               (head_row (revision next) p)) 0 ps in
  ix_Replace (mr_index repo) (mr_scope repo) next ps.

Definition commit (repo : MemoryRepository) (value : Commit) : txn Tb Memory :=
  let! _ := tx_lift (validateMemoryCommit value) in
  let next := cm_memory value in
  let! stored := store_revision repo value in
  let! decoded := tx_lift (of_option (as_memory stored) (invalid_commit "generic Artifact result")) in
  need bool_decide (decoded = next) else invalid_commit "generic Artifact result" in
  let! _ := each (fun _ entry => insertMemoryEntry (mr_scope repo) entry) 0 (cm_entryVersions value) in
  let! _ := replace_heads repo (a_ref next) (cm_projections value) in
  tx_ret decoded.

Definition applyPlan (repo : MemoryRepository) (plan : WritePlan) : txn Tb (option Memory) :=
  match wp_commit plan with
  | None => tx_ret (wp_result plan)
  | Some value =>
      let! committed := commit repo value in
      need bool_decide (wp_result plan = Some committed) else SMemory (EInvalidCitation "memory-mismatch") in
      tx_ret (Some committed)
  end.

(** A missing row of the shared repository, as the error of the domain. *)
Definition or_missing {A} (m : txn Tb A) (missing : txn Tb A) : txn Tb A :=
  tx_catch m (fun e => match e with SMissing _ => missing | _ => tx_err e end).

Definition unexpected_content : store_error := SMemory (EBackendConfiguration "unexpected content type").

Definition get (repo : MemoryRepository) (r : Ref) : txn Tb Memory :=
  need String.eqb (family r) MemoryModel.Family else SMemory (ENotFound r) in
  let! value := or_missing (ArtifactStore.Get (mr_artifacts repo) (mr_scope repo) r) (tx_err (SMemory (ENotFound r))) in
  tx_lift (of_option (as_memory value) unexpected_content).

Definition latest (repo : MemoryRepository) (id : string) : txn Tb Memory :=
  let! value := or_missing (ArtifactStore.Latest (mr_artifacts repo) (mr_scope repo) MemoryModel.Family id)
                  (let! requested := tx_lift (map_err SRef (NewRef MemoryModel.Family id 1)) in
                   tx_err (SMemory (ENotFound requested))) in
  tx_lift (of_option (as_memory value) unexpected_content).

(** The versions of a Memory by identifier: the loop over its rows. *)
Definition versions_by_id (memory : string) (rows : list (string * VersionRow)) : result store_error (gmap string EntryVersion) :=
  fold_res (fun byID p =>
    let* v := decode_version memory (fst p) (snd p) in
    Ok (<[fst p := v]> byID)) ∅ rows.

Definition entries (repo : MemoryRepository) (canonical : Memory) : txn Tb (list EntryVersion) :=
  let items := manifest (a_content canonical) in
  let id := artifactID (a_ref canonical) in
  if bool_decide (length items = 0%nat) then tx_ret []
  else
    let! rows := read (fun m : MemoryTables => versions_of m (mr_scope repo) id) in
    let! byID := tx_lift (versions_by_id id rows) in
    tx_lift (map_res (fun item => of_option (byID !! entryVersionID item) (SMemory (EInvalidCitation "missing-version"))) items).

(** ** Operations, each in a transaction of its own *)

Definition Initialize (repo : MemoryRepository) : txn Tb unit := Transaction (ix_Initialize (mr_index repo)).

Definition Get (repo : MemoryRepository) (r : Ref) : txn Tb Memory := Transaction (get repo r).
Definition Latest (repo : MemoryRepository) (id : string) : txn Tb Memory := Transaction (latest repo id).

Definition Entries (repo : MemoryRepository) (r : Ref) : txn Tb (list EntryVersion) :=
  Transaction (let! canonical := get repo r in entries repo canonical).

Definition project_head (memory : string) (p : string * (VersionRow * string)) : result store_error Projection :=
  let* v := decode_version memory (fst p) (fst (snd p)) in
  Ok (MkProjection v (snd (snd p)) None None).

Definition Projections (repo : MemoryRepository) (r : Ref) : txn Tb (list Projection) :=
  Transaction (
    let! canonical := get repo r in
    let! rows := read (fun m : MemoryTables => head_versions m (mr_scope repo) (artifactID r) (revision r)) in
    let! ps := tx_lift (map_res (project_head (artifactID r)) rows) in
    let! ps := ix_Hydrate (mr_index repo) (mr_scope repo) ps in
    need bool_decide (active_versions (a_content canonical) = projected_versions ps)
      else SMemory (EInvalidCitation "projection-version") in
    tx_ret ps).

Definition Commit_ (repo : MemoryRepository) (value : Commit) : txn Tb Memory := Transaction (commit repo value).

(** The revisions above [lower], up to [upper]. *)
Definition changes_of (lower upper : Z) (revisions : list (Artifact C)) : result store_error (list RevisionChanges) :=
  map_res (fun a => let* value := of_option (as_memory a) unexpected_content in
                    Ok (MkRevisionChanges (a_ref value) (changes (a_content value))))
    (List.filter (fun a => negb ((revision (a_ref a) <=? lower) || (upper <? revision (a_ref a)))) revisions).

Definition Changes (repo : MemoryRepository) (r : Ref) (since : option Z) : txn Tb (list RevisionChanges) :=
  Transaction (
    let! target := get repo r in
    let upper := revision (a_ref target) in
    let lower := default (upper - 1) since in
    let! revisions := ArtifactStore.Revisions (mr_artifacts repo) (mr_scope repo) MemoryModel.Family (artifactID r) in
    tx_lift (changes_of lower upper revisions)).

Definition VectorComplete (repo : MemoryRepository) (refs : list Ref) (profile : EmbeddingProfile) : txn Tb bool :=
  Transaction (ix_VectorComplete (mr_index repo) (mr_scope repo) refs profile).

Definition validateSearchHead (repo : MemoryRepository) (r : Ref) : txn Tb unit :=
  let! exact := get repo r in
  let! newest := latest repo (artifactID r) in
  need bool_decide (a_ref exact = a_ref newest) else SMemory (EInvalidCitation "memory-mismatch") in
  tx_ret tt.

Definition validateSearchHeads_ (repo : MemoryRepository) (refs : list Ref) : txn Tb unit :=
  each (fun _ r => validateSearchHead repo r) 0 refs.

Definition Search (repo : MemoryRepository) (request : SearchRequest) : txn Tb SearchChannels :=
  Transaction (
    let! _ := validateSearchHeads_ repo (sq_Memories request) in
    let! channels := ix_Search (mr_index repo) (mr_scope repo) request in
    let! _ := validateSearchHeads_ repo (sq_Memories request) in
    tx_ret channels).

Fixpoint expand (repo : MemoryRepository) (hits : list Hit) : txn Tb (list EntryVersion) :=
  match hits with
  | [] => tx_ret []
  | h :: more =>
      let! found := findMemoryEntry (mr_scope repo) (artifactID (h_MemoryRef h)) (h_EntryID h) (h_EntryVersionID h) in
      let! entry := tx_lift (of_option found (SMemory (EInvalidCitation "expand-anchor"))) in
      let! later := expand repo more in
      tx_ret (entry :: later)
  end.

Definition Expand (repo : MemoryRepository) (hits : list Hit) : txn Tb (list EntryVersion) := Transaction (expand repo hits).
End repository.
Arguments MemoryRepository : clear implicits.
