(* ===== verification/ReviewCodec.v ===== *)
(** * Stored Experiences and Skills ([internal/sqlstore] artifact_codecs.go)

    The payloads of the two families that are reviewed, and what is read back of
    them.  The payload of a Skill that a package backs names the package, which
    [SkillPackages] finds. *)

From S2P Require Import Prelude.
From S2P Require Import GoStrings.
From S2P Require Import Refs.
From S2P Require Import Json.
From S2P Require Import JsonText.
From S2P Require Import JsonWriter.
From S2P Require Import Contents.
From S2P Require Import Sql.
From S2P Require Import ArtifactStore.
From S2P Require Import ArtifactStoreFacts.
From S2P Require Import MemoryModel.
From S2P Require Import Handoff.
From S2P Require Import HandoffResolution.
From S2P Require Import HandoffCodec.
From S2P Require Import HandoffCodecFacts.
From S2P Require Import MemoryCodec.
From S2P Require Import MemoryRepository.

(** ** Experiences *)

Definition experience_json (c : Experience.Content) : json :=
  JObj [("situation", JStr (Experience.situation c)); ("action", JStr (Experience.action c));
        ("outcome", JStr (Experience.outcome c)); ("lesson", JStr (Experience.lesson c))]%string.

Definition encodeExperience (c : Experience.Content) : bytes := marshalJSON (experience_json c).

Definition set_experience (key : bytes) (v : jvalue) (c : Experience.Content) : dres Experience.Content :=
  let '(Experience.MkContent situation action outcome lesson) := c in
  if same_name "situation" key then let* x := into_string situation v in Ok (Experience.MkContent x action outcome lesson)
  else if same_name "action" key then let* x := into_string action v in Ok (Experience.MkContent situation x outcome lesson)
  else if same_name "outcome" key then let* x := into_string outcome v in Ok (Experience.MkContent situation action x lesson)
  else if same_name "lesson" key then let* x := into_string lesson v in Ok (Experience.MkContent situation action outcome x)
  else Ok c.

Definition invalid_content {E A} : result E A -> dres A := map_err (fun _ => DInvalid (HCheck "content")).

Definition decodeExperience (payload : bytes) : dres Experience.Content :=
  let* v := of_option (read_json false payload) DSyntax in
  let* c := into_struct set_experience (Experience.MkContent "" "" "" "") v in
  invalid_content (Experience.NewContent (Experience.fields c) c).

(** ** Skills *)

Definition skill_json (c : Skill.Content) : json :=
  JObj [("name", JStr (Skill.name c)); ("description", JStr (Skill.description c));
        ("instructions", JStr (Skill.instructions c)); ("validation", JArr (map JStr (Skill.validation c)))]%string.

Definition encodeSkill (c : Skill.Content) : bytes := marshalJSON (skill_json c).

Definition set_skill (key : bytes) (v : jvalue) (c : Skill.Content) : dres Skill.Content :=
  let '(Skill.MkContent name description instructions validation) := c in
  if same_name "name" key then let* x := into_string name v in Ok (Skill.MkContent x description instructions validation)
  else if same_name "description" key then let* x := into_string description v in Ok (Skill.MkContent name x instructions validation)
  else if same_name "instructions" key then let* x := into_string instructions v in Ok (Skill.MkContent name description x validation)
  else if same_name "validation" key then
    let* items := as_array v in
    let* texts := map_res (into_string "") items in
    Ok (Skill.MkContent name description instructions texts)
  else Ok c.

Definition decodeSkill (payload : bytes) : dres Skill.Content :=
  let* v := of_option (read_json false payload) DSyntax in
  let* c := into_struct set_skill (Skill.MkContent "" "" "" []) v in
  invalid_content (Skill.NewContent c).

(** ** Packages *)

(** The packages [P] of a database: the row of a package is written once, and a
    payload with a [package_ref] is read with it. *)
Class SkillPackages (Tb P : Type) := {
  AddPackage : string -> P -> txn Tb unit;
  GetPackage : string -> P -> txn Tb unit;
  encode_package : P -> option bytes;
  decode_package : string -> bytes -> txn Tb P
}.

Section skills.
Context {Tb C P : Type} {DC : Dynamic C} {CS : Carries C Skill.Content} {CP : Carries C P} {PK : SkillPackages Tb P}.

Definition encodeSkillVariant (value : C) : option bytes :=
  match project value with
  | Some c => Some (encodeSkill c)
  | None => match project value with Some p => encode_package (p : P) | None => None end
  end.

(** [map[string]jsontext.Value]: null makes a nil map. *)
Definition decodeSkillVariant (scope : string) (payload : bytes) : txn Tb C :=
  let! v := tx_lift (of_option (read_json true payload) (SPayload "content")) in
  let! fields := tx_lift (map_err (fun _ => SPayload "content") (as_fields v)) in
  match field "package_ref" fields with
  | None => let! c := tx_lift (map_err (fun _ => SPayload "content") (decodeSkill payload)) in tx_ret (inject c)
  | Some _ => let! p := decode_package scope payload in tx_ret (inject (p : P))
  end.

Definition SkillArtifactCodec : ArtifactCodec Tb C :=
  MkCodec Skill.Family [carried_type (X := Skill.Content); carried_type (X := P)] encodeSkillVariant decodeSkillVariant
    (fun scope r lineage payload =>
       let! content := decodeSkillVariant scope payload in
       tx_lift (map_err SRef (Restore r content lineage))).
End skills.

(** [ExperienceArtifactCodec]; an error would be a panic. *)
Definition ExperienceArtifactCodec {Tb C} `{Carries C Experience.Content} : result store_error (ArtifactCodec Tb C) :=
  NewArtifactCodec Experience.Family carried_type inject project
    (fun c => Some (encodeExperience c)) (fun payload => decoded (decodeExperience payload)).

(** ** What is read back *)

Definition clean_experience (c : Experience.Content) : Experience.Content :=
  Experience.MkContent (clean_string (Experience.situation c)) (clean_string (Experience.action c))
    (clean_string (Experience.outcome c)) (clean_string (Experience.lesson c)).

Lemma clean_field value : Experience.valid_field value -> Experience.valid_field (clean_string value).
Proof. intros [H1 H2]. split; [|by rewrite clean_rune_count]. intros H. by apply H1, clean_trim_empty. Qed.

Lemma clean_experience_valid c : Experience.valid c -> Experience.valid (clean_experience c).
Proof. intros (H1 & H2 & H3 & H4). repeat split; cbn; by apply clean_field. Qed.

Lemma clean_string_idem s : clean_string (clean_string s) = clean_string s.
Proof.
  unfold clean_string. rewrite list_ascii_of_string_of_list_ascii. f_equal. apply clean_id, clean_valid.
Qed.

Lemma clean_experience_idem c : clean_experience (clean_experience c) = clean_experience c.
Proof. apply (f_equal4 Experience.MkContent); apply clean_string_idem. Qed.

Lemma experience_json_ok c : names_unique (experience_json c) /\ (nesting (experience_json c) <= 2)%nat.
Proof. unfold experience_json. wire. Qed.

Lemma decode_encode_experience c :
  Experience.valid c -> decodeExperience (encodeExperience c) = Ok (clean_experience c).
Proof.
  intros Hv. unfold decodeExperience, encodeExperience, marshalJSON. destruct (experience_json_ok c) as [H1 H2].
  rewrite (read_renders false _ _ (json_bytes_renders _ _) H1) by (etransitivity; [exact H2|]; unfold max_depth; apply Nat.leb_le; reflexivity).
  cbn [of_option bind].
  transitivity (invalid_content (Experience.NewContent (Experience.fields (clean_experience c)) (clean_experience c))); [reflexivity|].
  by rewrite (proj2 (Experience.experience_content_ok _ _) (conj eq_refl (clean_experience_valid c Hv))).
Qed.

(** A list of references is read back as it was written. *)
Definition machine_lineage (l : Lineage) : Prop := Forall machine_ref (artifacts l).

Lemma refs_wire_ok {A} (wire : A -> json) (l : list A) n :
  (forall x, names_unique (wire x) /\ (nesting (wire x) <= n)%nat) -> (S n <= max_depth)%nat ->
  read_json false (marshalJSON (JArr (map wire l))) = Some (VArray (map value_of (map wire l))).
Proof.
  intros Hw Hn. unfold marshalJSON. destruct (wire_arr wire l n) as [H1 H2]; [by intros x _|].
  rewrite (read_renders false _ _ (json_bytes_renders _ _) H1) by lia. done.
Qed.

Lemma decode_refs_wire {A} (wire : A -> json) (into : jvalue -> dres A) (new : A -> dres A) (cleaned : A -> A) (l : list A) n :
  (forall x, names_unique (wire x) /\ (nesting (wire x) <= n)%nat) -> (S n <= max_depth)%nat ->
  Forall (fun x => (let* y := into (value_of (wire x)) in new y) = Ok (cleaned x)) l ->
  decode_refs into new (marshalJSON (JArr (map wire l))) = Ok (map cleaned l).
Proof.
  intros Hw Hn H. unfold decode_refs. rewrite (refs_wire_ok wire l n Hw Hn). cbn [of_option bind as_array].
  induction H as [|x l Hx _ IH]; [done|]. cbn [map map_res]. destruct (into (value_of (wire x))) as [y|]; [|done]. cbn [bind] in *.
  destruct (map_res into (map value_of (map wire l))) as [ys|]; [|done]. cbn [bind map_res] in *. rewrite Hx. cbn [bind]. by rewrite IH.
Qed.

Lemma source_wire_ok r : names_unique (sourceRefWire r) /\ (nesting (sourceRefWire r) <= 2)%nat.
Proof. unfold sourceRefWire. wire. Qed.
Lemma artifact_wire_ok r : names_unique (artifactRefWire r) /\ (nesting (artifactRefWire r) <= 2)%nat.
Proof. unfold artifactRefWire. wire. Qed.

Lemma decode_encode_sources srcs payload :
  encodeSourceRefs srcs = Ok payload -> decodeSourceRefs payload = Ok (map clean_source srcs).
Proof.
  unfold encodeSourceRefs. intros H. bind_inv H. injection H as <-. apply (map_res_check _ _ _ _ check_source_ok) in Ha.
  apply (decode_refs_wire _ _ _ _ _ 2); [apply source_wire_ok|unfold max_depth; apply Nat.leb_le; reflexivity|].
  eapply Forall_impl; [exact Ha|]. intros r Hr. by apply decode_source_wire.
Qed.

Lemma decode_encode_artifacts arts payload :
  Forall machine_ref arts -> encodeArtifactRefs arts = Ok payload -> decodeArtifactRefs payload = Ok (map clean_ref arts).
Proof.
  unfold encodeArtifactRefs. intros Hm H. bind_inv H. injection H as <-. apply (map_res_check _ _ _ _ Validate_ok) in Ha.
  apply (decode_refs_wire _ _ _ _ _ 2); [apply artifact_wire_ok|unfold max_depth; apply Nat.leb_le; reflexivity|].
  rewrite Forall_forall in *. intros r Hr. apply decode_artifact_wire; auto.
Qed.
