(* ===== verification/CandidateStore.v ===== *)
(** * The Candidate repository ([internal/sqlstore] candidates.go, and the candidate
    tables of schema.go)

    The versions of a Candidate are immutable rows; its head is the current version
    and the state of the review, and each change of a head compares the version and
    the state that it found.  A statement keeps the keys, foreign keys and checks of
    its table. *)

From S2P Require Import Prelude.
From S2P Require Import GoStrings.
From S2P Require Import Refs.
From S2P Require Import Review.
From S2P Require Import Sql.
From S2P Require Import ArtifactStore.
From S2P Require Import HandoffCodec.
From S2P Require Import MemoryRepository.
From S2P Require Import ArtifactStoreFacts.
(** ** Tables *)

(** The rows of [pc_artifact_candidate_versions] and [pc_artifact_candidate_heads]:
    the three columns of a reference are all null or none is. *)
Record CandidateVersion := MkCandidateVersion {
  cv_family : string; cv_proposal : bytes; cv_sources : bytes; cv_artifacts : bytes;
  cv_target : option Ref; cv_reason : option string
}.
Record CandidateHead := MkCandidateHead {
  ch_family : string; ch_version : Z; ch_status : Status; ch_result : option Ref; ch_decision : option string
}.
Record CandidateTables := MkCandidateTables {
  ct_versions : gmap (string * string * Z) CandidateVersion;
  ct_heads : gmap (string * string) CandidateHead
}.

(** An error of [review], with the errors of references as they are. *)
Definition review_store (e : review_error) : store_error := match e with RReference e => SRef e | _ => SReview e end.
Definition reviewed {A} : rres A -> result store_error A := map_err review_store.

Section statements.
Context {Tb : Type} {HA : Holds Tb Tables} {HC : Holds Tb CandidateTables}.
Notation candidate_rows t := (rows t : CandidateTables).

(** A reference to a row of [pc_artifacts], by a foreign key. *)
Definition artifact_row (t : Tb) (scope : string) (r : option Ref) : bool :=
  match r with
  | Some r => negb (bool_decide (t_artifacts (rows t) !! (scope, r) = None)) && (0 <? revision r)
  | None => true
  end.

Definition insert_candidate_version (scope id : string) (version : Z) (row : CandidateVersion) : txn Tb unit :=
  statement (fun t =>
    let c := candidate_rows t in
    require bool_decide (ct_versions c !! (scope, id, version) = None) else SIntegrity in
    require artifact_row t scope (cv_target row) && (0 <? version) else SIntegrity in
    Ok (tt, with_rows (MkCandidateTables (<[(scope, id, version) := row]> (ct_versions c)) (ct_heads c)) t)).

Definition version_exists (c : CandidateTables) (scope id : string) (version : Z) : bool :=
  negb (bool_decide (ct_versions c !! (scope, id, version) = None)).

Definition insert_candidate_head (scope id family : string) : txn Tb unit :=
  on (fun c : CandidateTables =>
    require bool_decide (ct_heads c !! (scope, id) = None) && version_exists c scope id 1 else SIntegrity in
    Ok (tt, MkCandidateTables (ct_versions c) (<[(scope, id) := MkCandidateHead family 1 Pending None None]> (ct_heads c)))).

(** [WHERE ... AND version = ? AND status = 'pending'] *)
Definition pending_head (c : CandidateTables) (scope id : string) (expected : Z) : option CandidateHead :=
  match ct_heads c !! (scope, id) with
  | Some h => if (ch_version h =? expected) && bool_decide (ch_status h = Pending) then Some h else None
  | None => None
  end.

Definition with_head (c : CandidateTables) (scope id : string) (h : CandidateHead) : CandidateTables :=
  MkCandidateTables (ct_versions c) (<[(scope, id) := h]> (ct_heads c)).

(** The three updates of a pending head: the rows that they changed. *)
Definition update_version (scope id : string) (version expected : Z) : txn Tb Z :=
  on (fun c : CandidateTables =>
    match pending_head c scope id expected with
    | None => Ok (0, c)
    | Some h =>
        require version_exists c scope id version else SIntegrity in
        Ok (1, with_head c scope id (MkCandidateHead (ch_family h) version (ch_status h) (ch_result h) (ch_decision h)))
    end).

Definition update_rejected (scope id reason : string) (expected : Z) : txn Tb Z :=
  on (fun c : CandidateTables =>
    match pending_head c scope id expected with
    | None => Ok (0, c)
    | Some h =>
        require bool_decide (ch_result h = None) else SIntegrity in
        Ok (1, with_head c scope id (MkCandidateHead (ch_family h) (ch_version h) Rejected (ch_result h) (Some reason)))
    end).

Definition update_approved (scope id : string) (result : Ref) (expected : Z) : txn Tb Z :=
  statement (fun t =>
    let c := candidate_rows t in
    match pending_head c scope id expected with
    | None => Ok (0, t)
    | Some h =>
        require bool_decide (ch_decision h = None) && artifact_row t scope (Some result) else SIntegrity in
        Ok (1, with_rows (with_head c scope id
                 (MkCandidateHead (ch_family h) (ch_version h) Approved (Some result) (ch_decision h))) t)
    end).

(** [UPDATE ... SET version = version]: it only takes locks. *)
Definition lock_candidate (scope id : string) (expected : Z) : txn Tb unit := read (fun _ : CandidateTables => tt).
End statements.

(** [candidateSelect]: a head with the row of its version. *)
Definition joined_candidate (c : CandidateTables) (scope id : string) : option (CandidateHead * CandidateVersion) :=
  match ct_heads c !! (scope, id) with
  | Some h => option_map (pair h) (ct_versions c !! (scope, id, ch_version h))
  | None => None
  end.

(** The heads of a scope that a listing keeps, [ORDER BY candidate_id]. *)
Definition listed_ids (c : CandidateTables) (scope : string) (status : Status) (family cursor : option string) : list string :=
  merge_sort str_le
    (omap (fun p : string * string * CandidateHead =>
             let '((sc, id), h) := p in
             if bool_decide (sc = scope) && bool_decide (ch_status h = status)
                && match family with Some f => String.eqb (ch_family h) f | None => true end
                && match cursor with Some after => negb (String.leb id after) | None => true end
             then Some id else None)
       (map_to_list (ct_heads c))).

(** ** The repository *)

Section repository.
Context {Tb C : Type} {HA : Holds Tb Tables} {HC : Holds Tb CandidateTables} {DC : Dynamic C}.
Notation candidate_rows t := (rows t : CandidateTables).

Definition CandidateRepository := gmap string (ArtifactCodec Tb C).

Definition NewCandidateRepository (codecs : list (ArtifactCodec Tb C)) : result store_error CandidateRepository :=
  require negb (bool_decide (codecs = [])) else SCodec "Candidate proposal codec" in
  fold_res (fun repo codec =>
              require bool_decide (repo !! c_family codec = None) else SCodec "candidate family" in
              Ok (<[c_family codec := codec]> repo)) ∅ codecs.

Context (repo : CandidateRepository).

Definition requireProposal (family : string) (proposal : C) : result store_error unit :=
  let* codec := of_option (repo !! family) (SReview (RInvalid "family")) in
  require supportsContent codec proposal else SReview (RInvalid "proposal") in
  Ok tt.

Definition candidate_codec (family : string) : result store_error (ArtifactCodec Tb C) :=
  of_option (repo !! family) (SReview (RInvalid "family")).

Definition check_ref (r : option Ref) : result store_error unit :=
  match r with Some r => map_err SRef (Validate r) | None => Ok tt end.

(** [scanAndDecode] on the columns of a row *)
Definition decode_candidate (scope id : string) (row : CandidateHead * CandidateVersion) : txn Tb (Candidate C) :=
  let '(h, v) := row in
  let! codec := tx_lift (candidate_codec (ch_family h)) in
  let! proposal := tx_catch (c_decodeScoped codec scope (cv_proposal v))
                     (fun _ => tx_err (SPayload "payload does not match the model")) in
  let! sources := tx_lift (not_the_model (decodeSourceRefs (cv_sources v))) in
  let! artifacts := tx_lift (not_the_model (decodeArtifactRefs (cv_artifacts v))) in
  let! _ := tx_lift (check_ref (cv_target v)) in
  let! _ := tx_lift (check_ref (ch_result h)) in
  tx_lift (reviewed (NewCandidate (MkCandidate id (ch_version h) (ch_family h) (ch_status h) proposal sources artifacts
                                     (cv_target v) (cv_reason v) (ch_result h) (ch_decision h)))).

Definition findCurrent (scope id : string) : txn Tb (option (Candidate C)) :=
  let! row := read (fun c : CandidateTables => joined_candidate c scope id) in
  match row with
  | None => tx_ret None
  | Some row => let! candidate := decode_candidate scope id row in tx_ret (Some candidate)
  end.

Definition encode_candidate (c : Candidate C) : result store_error CandidateVersion :=
  let* codec := candidate_codec (cn_Family c) in
  let* proposal := of_option (c_encode codec (cn_Proposal c)) (SPayload "value is not JSON serializable") in
  let* sources := map_err SRef (encodeSourceRefs (cn_Sources c)) in
  let* artifacts := map_err SRef (encodeArtifactRefs (cn_Artifacts c)) in
  Ok (MkCandidateVersion (cn_Family c) proposal sources artifacts (cn_Target c) (cn_Reason c)).

Definition insertVersion (scope : string) (c : Candidate C) : txn Tb unit :=
  let! row := tx_lift (encode_candidate c) in
  insert_candidate_version scope (cn_ID c) (cn_Version c) row.

Definition GetCandidate (scope id : string) : txn Tb (Candidate C) :=
  let! _ := tx_lift (requireScope scope) in
  let! found := findCurrent scope id in
  tx_lift (of_option found (SReview (RNotFound id))).

Definition CreateCandidate (scope id family : string) (proposal : C) (sources : list Source.Ref) (artifacts : list Ref)
  (target : option Ref) (reason : option string) : txn Tb (Candidate C) :=
  let! _ := tx_lift (requireScope scope) in
  let! _ := tx_lift (requireProposal family proposal) in
  let! candidate := tx_lift (reviewed (NewCandidate
                      (MkCandidate id 1 family Pending proposal sources artifacts target reason None None))) in
  let! found := findCurrent scope id in
  match found with
  | Some current => tx_err (SReview (RConflict id 1 (cn_Version current)))
  | None =>
      let! _ := insertVersion scope candidate in
      let! _ := insert_candidate_head scope id family in
      tx_ret candidate
  end.

(** A page: one more row than the limit tells that there are more. *)
Fixpoint decode_page (scope : string) (rows : list (string * (CandidateHead * CandidateVersion))) : txn Tb (list (Candidate C)) :=
  match rows with
  | [] => tx_ret []
  | (id, row) :: more =>
      let! candidate := decode_candidate scope id row in
      let! later := decode_page scope more in
      tx_ret (candidate :: later)
  end.

Definition selected (c : CandidateTables) (scope : string) (status : Status) (family cursor : option string) (limit : Z)
  : list (string * (CandidateHead * CandidateVersion)) :=
  take (Z.to_nat (limit + 1))
    (omap (fun id => option_map (pair id) (joined_candidate c scope id)) (listed_ids c scope status family cursor)).

Definition page_of (limit : Z) (values : list (Candidate C)) : Page C :=
  let hasMore := limit <? Z.of_nat (length values) in
  let kept := if hasMore then take (Z.to_nat limit) values else values in
  MkPage kept (if hasMore then option_map cn_ID (last kept) else None).

Definition ListCandidates (scope : string) (status : Status) (family cursor : option string) (limit : Z) : txn Tb (Page C) :=
  let! _ := tx_lift (requireScope scope) in
  need match status with OtherStatus _ => false | _ => true end else SReview (RInvalid "status") in
  need (1 <=? limit) && (limit <=? MaxPageSize) else SArgument "limit" in
  need match family with Some f => negb (bool_decide (repo !! f = None)) | None => true end else SReview (RInvalid "family") in
  let! rows := read (fun c : CandidateTables => selected c scope status family cursor limit) in
  let! values := decode_page scope rows in
  tx_ret (page_of limit values).

Definition LockPending (scope id : string) (expectedVersion : Z) : txn Tb (Candidate C) :=
  let! _ := tx_lift (requireScope scope) in
  let! _ := lock_candidate scope id expectedVersion in
  let! found := findCurrent scope id in
  let! current := tx_lift (of_option found (SReview (RNotFound id))) in
  need bool_decide (cn_Status current = Pending) else SReview (RTerminal id (cn_Status current)) in
  need cn_Version current =? expectedVersion else SReview (RConflict id expectedVersion (cn_Version current)) in
  tx_ret current.

Definition requireOneCAS (scope id : string) (expectedVersion affected : Z) : txn Tb unit :=
  if affected =? 1 then tx_ret tt
  else
    let! current := GetCandidate scope id in
    need bool_decide (cn_Status current = Pending) else SReview (RTerminal id (cn_Status current)) in
    tx_err (SReview (RConflict id expectedVersion (cn_Version current))).

Definition ReviseCandidate (scope id : string) (expectedVersion : Z) (proposal : C) (sources : list Source.Ref)
  (artifacts : list Ref) (target : option Ref) (reason : option string) : txn Tb (Candidate C) :=
  let! current := LockPending scope id expectedVersion in
  let! _ := tx_lift (requireProposal (cn_Family current) proposal) in
  let! revised := tx_lift (reviewed (NewCandidate
                    (MkCandidate id (wrap64 (cn_Version current + 1)) (cn_Family current) Pending proposal
                       sources artifacts target reason None None))) in
  let! _ := insertVersion scope revised in
  let! affected := update_version scope id (cn_Version revised) expectedVersion in
  let! _ := requireOneCAS scope id expectedVersion affected in
  tx_ret revised.

Definition RejectCandidate (scope id : string) (expectedVersion : Z) (reason : string) : txn Tb (Candidate C) :=
  let! current := LockPending scope id expectedVersion in
  let! rejected := tx_lift (reviewed (NewCandidate
                     (MkCandidate (cn_ID current) (cn_Version current) (cn_Family current) Rejected (cn_Proposal current)
                        (cn_Sources current) (cn_Artifacts current) (cn_Target current) (cn_Reason current)
                        None (Some reason)))) in
  let! affected := update_rejected scope id reason expectedVersion in
  let! _ := requireOneCAS scope id expectedVersion affected in
  tx_ret rejected.

Definition MarkApproved (scope id : string) (expectedVersion : Z) (result : Ref) : txn Tb (Candidate C) :=
  let! affected := update_approved scope id result expectedVersion in
  let! _ := requireOneCAS scope id expectedVersion affected in
  GetCandidate scope id.
End repository.
Arguments CandidateRepository : clear implicits.

(** ** Lemmas on the Candidate repository

    What each operation did to the two tables when it succeeded, as a change of one
    head, and the shape of the rows that every operation keeps. *)
(** ** The life of a Candidate *)

Definition pending (h : CandidateHead) : Prop := ch_status h = Pending.

Definition with_version (c : CandidateTables) (scope id : string) (row : CandidateVersion) (h : CandidateHead) : CandidateTables :=
  MkCandidateTables (<[(scope, id, ch_version h) := row]> (ct_versions c)) (<[(scope, id) := h]> (ct_heads c)).

(** The changes of a Candidate: its creation, a new version, and the two decisions. *)
Inductive candidate_step (scope id : string) (c : CandidateTables) : CandidateTables -> Prop :=
| step_born row :
    ct_heads c !! (scope, id) = None ->
    candidate_step scope id c (with_version c scope id row (MkCandidateHead (cv_family row) 1 Pending None None))
| step_revised h row :
    ct_heads c !! (scope, id) = Some h -> pending h -> ch_version h + 1 <= max_int64 -> cv_family row = ch_family h ->
    candidate_step scope id c
      (with_version c scope id row (MkCandidateHead (ch_family h) (ch_version h + 1) Pending (ch_result h) (ch_decision h)))
| step_rejected h reason :
    ct_heads c !! (scope, id) = Some h -> pending h ->
    candidate_step scope id c
      (with_head c scope id (MkCandidateHead (ch_family h) (ch_version h) Rejected (ch_result h) (Some reason)))
| step_approved h r :
    ct_heads c !! (scope, id) = Some h -> pending h ->
    candidate_step scope id c
      (with_head c scope id (MkCandidateHead (ch_family h) (ch_version h) Approved (Some r) (ch_decision h))).

(** A head has its versions from 1 on, of its family, and is decided as its state
    tells. *)
Record candidates_ok (c : CandidateTables) : Prop := {
  co_heads scope id :
    match ct_heads c !! (scope, id) with
    | None => forall n, ct_versions c !! (scope, id, n) = None
    | Some h => 1 <= ch_version h <= max_int64 /\ decided (ch_status h) (ch_result h) (ch_decision h) /\
                (forall n, is_Some (ct_versions c !! (scope, id, n)) <-> 1 <= n <= ch_version h)
    end;
  co_family scope id h n row :
    ct_heads c !! (scope, id) = Some h -> ct_versions c !! (scope, id, n) = Some row -> cv_family row = ch_family h
}.

Section preserved.
Context (scope id : string) (c : CandidateTables) (Hok : candidates_ok c).

(** Adding the next version, and a head that names it. *)
Lemma with_version_ok row h :
  decided (ch_status h) (ch_result h) (ch_decision h) -> cv_family row = ch_family h -> ch_version h <= max_int64 ->
  match ct_heads c !! (scope, id) with
  | Some h0 => ch_version h = ch_version h0 + 1 /\ ch_family h = ch_family h0
  | None => ch_version h = 1
  end ->
  candidates_ok (with_version c scope id row h).
Proof.
  intros Hd Hf Hmax Hprev. destruct Hok as [Hh Hfam]. split; cbn; intros sc i.
  - destruct (decide ((sc, i) = (scope, id))) as [E|Hne].
    + injection E as -> ->. rewrite lookup_insert_eq. specialize (Hh scope id).
      assert (Hn : forall n, is_Some (<[(scope, id, ch_version h) := row]> (ct_versions c) !! (scope, id, n)) <-> n = ch_version h \/ is_Some (ct_versions c !! (scope, id, n))).
      { intros n. destruct (decide (n = ch_version h)) as [->|Hne]; [rewrite lookup_insert_eq; naive_solver|].
        rewrite lookup_insert_ne by congruence. naive_solver. }
      destruct (ct_heads c !! (scope, id)) as [h0|].
      * destruct Hh as (Hv & _ & Hex), Hprev as [Hprev _]. split; [lia|]. split; [done|]. intros n. rewrite Hn, Hex. lia.
      * split; [lia|]. split; [done|]. intros n. rewrite Hn, Hh. unfold is_Some. naive_solver lia.
    + rewrite lookup_insert_ne by congruence. specialize (Hh sc i).
      assert (Hl : forall n, <[(scope, id, ch_version h) := row]> (ct_versions c) !! (sc, i, n) = ct_versions c !! (sc, i, n)).
      { intros n. apply lookup_insert_ne. congruence. }
      destruct (ct_heads c !! (sc, i)) as [h0|]; [|by intros n; rewrite Hl]. destruct Hh as (H1 & H2 & H3).
      split; [done|]. split; [done|]. intros n. by rewrite Hl.
  - intros h' n row' H1 H2. specialize (Hfam sc i). destruct (decide ((sc, i) = (scope, id))) as [E|Hne].
    + injection E as -> ->. rewrite lookup_insert_eq in H1. injection H1 as <-.
      destruct (decide (n = ch_version h)) as [->|Hne]; [rewrite lookup_insert_eq in H2; by injection H2 as <-|].
      rewrite lookup_insert_ne in H2 by congruence. destruct (ct_heads c !! (scope, id)) as [h0|] eqn:E0.
      * destruct Hprev as [_ ->]. by apply (Hfam h0 n).
      * specialize (Hh scope id). rewrite E0 in Hh. congruence.
    + rewrite lookup_insert_ne in H1 by congruence. rewrite lookup_insert_ne in H2 by congruence. by apply (Hfam h' n).
Qed.

(** Replacing the head of a version that is there. *)
Lemma with_head_ok h0 h :
  ct_heads c !! (scope, id) = Some h0 -> ch_version h = ch_version h0 -> ch_family h = ch_family h0 ->
  decided (ch_status h) (ch_result h) (ch_decision h) -> candidates_ok (with_head c scope id h).
Proof.
  intros E0 Ev Ef Hd. destruct Hok as [Hh Hfam]. split; cbn; intros sc i.
  - destruct (decide ((sc, i) = (scope, id))) as [E|Hne].
    + injection E as -> ->. rewrite lookup_insert_eq, Ev. specialize (Hh scope id). rewrite E0 in Hh.
      destruct Hh as (H1 & _ & H3). done.
    + rewrite lookup_insert_ne by congruence. apply Hh.
  - intros h' n row' H1 H2. destruct (decide ((sc, i) = (scope, id))) as [E|Hne].
    + injection E as -> ->. rewrite lookup_insert_eq in H1. injection H1 as <-. rewrite Ef. by apply (Hfam scope id h0 n).
    + rewrite lookup_insert_ne in H1 by congruence. by apply (Hfam sc i h' n).
Qed.

Lemma pending_undecided h : ct_heads c !! (scope, id) = Some h -> pending h -> ch_result h = None /\ ch_decision h = None.
Proof.
  intros E Hp. pose proof (co_heads _ Hok scope id) as Hh. rewrite E in Hh. destruct Hh as (_ & Hd & _).
  unfold pending in Hp. rewrite Hp in Hd. exact Hd.
Qed.

Lemma candidate_step_ok c' : candidate_step scope id c c' -> candidates_ok c'.
Proof.
  intros [row E|h row E Hp Hm Hf|h reason E Hp|h r E Hp].
  - apply with_version_ok; cbn; [done|done|unfold max_int64; lia|by rewrite E].
  - destruct (pending_undecided h E Hp) as [H1 H2]. apply with_version_ok; cbn; [done|done|done|by rewrite E].
  - destruct (pending_undecided h E Hp) as [H1 H2]. apply (with_head_ok h); cbn; [done|done|done|]. split; [done|by eexists].
  - destruct (pending_undecided h E Hp) as [H1 H2]. apply (with_head_ok h); cbn; [done|done|done|]. split; [by eexists|done].
Qed.
End preserved.

(** ** Reading a Candidate *)

Definition scoped_codec {Tb C} (codec : ArtifactCodec Tb C) : Prop :=
  forall scope payload, keeps (c_decodeScoped codec scope payload).

Section repository.
Context {Tb C : Type} {HA : Holds Tb Tables} {HC : Holds Tb CandidateTables} {DC : Dynamic C}.
Context (repo : CandidateRepository Tb C)
        (Hrepo : forall fam codec, repo !! fam = Some codec -> scoped_codec codec).
Implicit Types (s : SessionOf Tb) (t : Tb).
Notation candidate_rows t := (rows t : CandidateTables).

(** The Candidate of a head, the row of its version, and what the row decodes to. *)
Definition candidate_of (id : string) (h : CandidateHead) (v : CandidateVersion) (proposal : C)
  (sources : list Source.Ref) (artifacts : list Ref) : Candidate C :=
  MkCandidate id (ch_version h) (ch_family h) (ch_status h) proposal sources artifacts
    (cv_target v) (cv_reason v) (ch_result h) (ch_decision h).

Definition represents (scope id : string) (h : CandidateHead) (v : CandidateVersion) (c : Candidate C) : Prop :=
  valid_candidate c /\ c = candidate_of id h v (cn_Proposal c) (cn_Sources c) (cn_Artifacts c) /\
  decodeSourceRefs (cv_sources v) = Ok (cn_Sources c) /\ decodeArtifactRefs (cv_artifacts v) = Ok (cn_Artifacts c) /\
  exists codec s s', repo !! ch_family h = Some codec /\ c_decodeScoped codec scope (cv_proposal v) s = (Ok (cn_Proposal c), s').

(** The current Candidate of a database. *)
Definition current (scope id : string) (t : Tb) (c : Candidate C) : Prop :=
  exists h v, joined_candidate (candidate_rows t) scope id = Some (h, v) /\ represents scope id h v c.

Lemma decode_candidate_keeps scope id row : keeps (decode_candidate repo scope id row).
Proof.
  destruct row as [h v]. unfold decode_candidate. keeps.
  match goal with E : candidate_codec _ _ = Ok _ |- _ => unfold candidate_codec in E; apply of_option_ok_inv in E; exact (Hrepo _ _ E _ _) end.
Qed.

Lemma reviewed_ok {A} (r : rres A) a : reviewed r = Ok a <-> r = Ok a.
Proof. apply map_err_ok. Qed.

Lemma decode_candidate_ok scope id h v s c s' :
  decode_candidate repo scope id (h, v) s = (Ok c, s') -> represents scope id h v c.
Proof.
  intros H. unfold decode_candidate in H. tx_inv H. tx_pure.
  apply tx_catch_ok in Ha0; [|done]. unfold candidate_codec in Ha. apply of_option_ok_inv in Ha.
  apply reviewed_ok, NewCandidate_ok in H as [-> Hv].
  apply map_err_ok in Ha1. apply map_err_ok in Ha2.
  split; [done|]. split; [done|]. split; [done|]. split; [done|]. by eexists _, _, _.
Qed.

Lemma findCurrent_ok scope id s found s' :
  findCurrent repo scope id s = (Ok found, s') ->
  tables s' = tables s /\
  match found with
  | Some c => current scope id (tables s) c
  | None => joined_candidate (candidate_rows (tables s)) scope id = None
  end.
Proof.
  intros H. unfold findCurrent in H. tx_inv H. apply read_ok in Ha as [Ha E]. destruct a as [[h v]|].
  - tx_inv H. apply tx_ret_ok in H as [<- ->]. pose proof (decode_candidate_keeps _ _ _ _ _ _ Ha0) as E2.
    split; [congruence|]. exists h, v. split; [done|]. by apply decode_candidate_ok in Ha0.
  - apply tx_ret_ok in H as [<- ->]. done.
Qed.

Lemma LockPending_ok scope id expected s c s' :
  LockPending repo scope id expected s = (Ok c, s') ->
  tables s' = tables s /\ current scope id (tables s) c /\ cn_Status c = Pending /\ cn_Version c = expected.
Proof.
  intros H. unfold LockPending in H. tx_inv H. tx_pure. apply read_ok in Ha0 as [_ E0].
  apply findCurrent_ok in Ha1 as [E1 Hf]. apply of_option_ok_inv in Ha2. subst.
  apply bool_decide_eq_true in Ha3. apply Z.eqb_eq in Ha4. split; [congruence|]. by rewrite E0 in Hf.
Qed.

(** The head that is current. *)
Lemma current_head scope id t c : current scope id t c ->
  exists h, ct_heads (candidate_rows t) !! (scope, id) = Some h /\ ch_version h = cn_Version c /\
    ch_family h = cn_Family c /\ ch_status h = cn_Status c /\ ch_result h = cn_Result c /\ ch_decision h = cn_Decision c.
Proof.
  intros (h & v & Hj & _ & -> & _). unfold joined_candidate in Hj. destruct (ct_heads _ !! _) as [h0|]; [|done].
  destruct (ct_versions _ !! _) as [v0|]; [|done]. injection Hj as -> ->. by exists h.
Qed.

Lemma pending_head_some c scope id expected h :
  pending_head c scope id expected = Some h <-> ct_heads c !! (scope, id) = Some h /\ ch_version h = expected /\ pending h.
Proof.
  unfold pending_head, pending. destruct (ct_heads c !! (scope, id)) as [h0|]; [|naive_solver].
  destruct (Z.eqb_spec (ch_version h0) expected); cbn; [case_bool_decide|]; naive_solver.
Qed.

(** A compare-and-swap that goes through changed one row. *)
Lemma requireOneCAS_ok scope id expected affected s u s' :
  requireOneCAS repo scope id expected affected s = (Ok u, s') -> affected = 1 /\ s' = s.
Proof.
  unfold requireOneCAS. destruct (Z.eqb_spec affected 1); intros H; [apply tx_ret_ok in H as [_ ->]; done|].
  tx_inv H. done.
Qed.

Lemma insert_version_ok scope id n row s u s' :
  insert_candidate_version scope id n row s = (Ok u, s') ->
  let c := candidate_rows (tables s) in
  ct_versions c !! (scope, id, n) = None /\ artifact_row (tables s) scope (cv_target row) = true /\
  tables s' = with_rows (MkCandidateTables (<[(scope, id, n) := row]> (ct_versions c)) (ct_heads c)) (tables s).
Proof.
  intros H. apply statement_ok in H. cbv zeta in H. bind_inv H. injection H as _ <-.
  apply check_ok_inv, bool_decide_eq_true in Ha. apply check_ok_inv, andb_true_iff in Ha0 as [Ha0 _]. done.
Qed.

Lemma encode_candidate_ok c row :
  encode_candidate repo c = Ok row ->
  cv_family row = cn_Family c /\ cv_target row = cn_Target c /\ cv_reason row = cn_Reason c /\
  exists codec, repo !! cn_Family c = Some codec /\ c_encode codec (cn_Proposal c) = Some (cv_proposal row) /\
    encodeSourceRefs (cn_Sources c) = Ok (cv_sources row) /\ encodeArtifactRefs (cn_Artifacts c) = Ok (cv_artifacts row).
Proof.
  unfold encode_candidate, candidate_codec. intros H. bind_inv H. injection H as <-. apply map_err_ok in Ha1. apply map_err_ok in Ha2.
  apply of_option_ok_inv in Ha, Ha0. repeat split; try done. by exists a.
Qed.

(** ** The operations *)

(** [t'] differs from [t] by a step of one Candidate, and in nothing else. *)
Definition stepped (scope id : string) (t t' : Tb) : Prop :=
  candidate_step scope id (candidate_rows t) (candidate_rows t') /\ changed_only CandidateTables t t'.

Lemma stepped_with scope id c' t : candidate_step scope id (candidate_rows t) c' -> stepped scope id t (with_rows c' t).
Proof. intros H. split; [by rewrite rows_with|apply changed_with]. Qed.

(** The row that holds a Candidate's proposal. *)
Definition stored_version (scope : string) (c : Candidate C) (t : Tb) : Prop :=
  exists row, encode_candidate repo c = Ok row /\ ct_versions (candidate_rows t) !! (scope, cn_ID c, cn_Version c) = Some row.

Definition head_of_candidate (c : Candidate C) : CandidateHead :=
  MkCandidateHead (cn_Family c) (cn_Version c) (cn_Status c) (cn_Result c) (cn_Decision c).

(** What a successful operation left: the Candidate that it returns. *)
Definition holds (scope : string) (c : Candidate C) (t : Tb) : Prop :=
  ct_heads (candidate_rows t) !! (scope, cn_ID c) = Some (head_of_candidate c).

Lemma CreateCandidate_ok scope id fam proposal srcs arts target reason s c s' :
  CreateCandidate repo scope id fam proposal srcs arts target reason s = (Ok c, s') ->
  c = MkCandidate id 1 fam Pending proposal srcs arts target reason None None /\ valid_candidate c /\
  ct_heads (candidate_rows (tables s)) !! (scope, id) = None /\ artifact_row (tables s) scope target = true /\
  stepped scope id (tables s) (tables s') /\ holds scope c (tables s') /\ stored_version scope c (tables s').
Proof.
  intros H. unfold CreateCandidate in H. tx_inv H. tx_pure. apply reviewed_ok, NewCandidate_ok in Ha1 as [-> Hv].
  apply findCurrent_ok in Ha2 as [E2 Hf]. destruct a2 as [cur|]; [done|]. tx_inv H. apply tx_ret_ok in H as [<- ->].
  unfold insertVersion in Ha1. tx_inv Ha1. tx_pure. cbn [cn_ID cn_Version] in Ha1. apply insert_version_ok in Ha1 as (Hn & Ht & E3).
  apply on_ok in Ha2 as (c' & Hh & E4). bind_inv Hh. injection Hh as _ <-. apply check_ok_inv, andb_true_iff in Ha1 as [Hh _].
  rewrite E3, rows_with in Hh, E4. cbn in Hh, E4. apply bool_decide_eq_true in Hh. rewrite with_with in E4. rewrite E2 in *.
  pose proof (encode_candidate_ok _ _ Ha3) as (Hfam & Htar & _). cbn in Hfam, Htar. rewrite Htar in Ht.
  set (c := MkCandidate id 1 fam Pending proposal srcs arts target reason None None) in *.
  split; [done|]. split; [done|]. split; [done|]. split; [done|]. rewrite E4. split; [|split].
  - apply stepped_with. rewrite <- Hfam. by apply (step_born scope id _ a3).
  - unfold holds. rewrite rows_with. cbn. by rewrite lookup_insert_eq.
  - exists a3. split; [done|]. rewrite rows_with. cbn. by rewrite lookup_insert_eq.
Qed.

(** A pending Candidate that is current, as the head that an update finds. *)
Lemma pending_current scope id t cur h :
  candidates_ok (candidate_rows t) -> current scope id t cur -> cn_Status cur = Pending ->
  ct_heads (candidate_rows t) !! (scope, id) = Some h ->
  pending h /\ ch_version h = cn_Version cur /\ ch_family h = cn_Family cur /\ ch_result h = None /\ ch_decision h = None /\
  1 <= ch_version h <= max_int64.
Proof.
  intros Hok Hc Hp E. apply current_head in Hc as (h0 & E0 & Hv & Hf & Hs & _). assert (h0 = h) as -> by congruence.
  assert (Hph : pending h) by (unfold pending; congruence).
  destruct (pending_undecided _ _ _ Hok h E Hph) as [H1 H2]. pose proof (co_heads _ Hok scope id) as Hh. rewrite E in Hh.
  repeat split; try done; lia.
Qed.

Lemma update_version_ok scope id version expected s affected s' :
  update_version scope id version expected s = (Ok affected, s') -> affected = 1 ->
  exists h, ct_heads (candidate_rows (tables s)) !! (scope, id) = Some h /\ ch_version h = expected /\ pending h /\
    tables s' = with_rows (with_head (candidate_rows (tables s)) scope id
                  (MkCandidateHead (ch_family h) version (ch_status h) (ch_result h) (ch_decision h))) (tables s).
Proof.
  intros H ->. apply on_ok in H as (c' & H & E). destruct (pending_head _ _ _ _) as [h|] eqn:Eh; [|done].
  bind_inv H. injection H as <-. apply pending_head_some in Eh as (H1 & H2 & H3). by exists h.
Qed.

Lemma update_rejected_ok scope id reason expected s affected s' :
  update_rejected scope id reason expected s = (Ok affected, s') -> affected = 1 ->
  exists h, ct_heads (candidate_rows (tables s)) !! (scope, id) = Some h /\ ch_version h = expected /\ pending h /\
    tables s' = with_rows (with_head (candidate_rows (tables s)) scope id
                  (MkCandidateHead (ch_family h) (ch_version h) Rejected (ch_result h) (Some reason))) (tables s).
Proof.
  intros H ->. apply on_ok in H as (c' & H & E). destruct (pending_head _ _ _ _) as [h|] eqn:Eh; [|done].
  bind_inv H. injection H as <-. apply pending_head_some in Eh as (H1 & H2 & H3). by exists h.
Qed.

Lemma update_approved_ok scope id r expected s affected s' :
  update_approved scope id r expected s = (Ok affected, s') -> affected = 1 ->
  exists h, ct_heads (candidate_rows (tables s)) !! (scope, id) = Some h /\ ch_version h = expected /\ pending h /\
    artifact_row (tables s) scope (Some r) = true /\
    tables s' = with_rows (with_head (candidate_rows (tables s)) scope id
                  (MkCandidateHead (ch_family h) (ch_version h) Approved (Some r) (ch_decision h))) (tables s).
Proof.
  intros H ->. apply statement_ok in H. cbv zeta in H. destruct (pending_head _ _ _ _) as [h|] eqn:Eh; [|done].
  bind_inv H. injection H as <-. apply check_ok_inv, andb_true_iff in Ha as [_ Ha].
  apply pending_head_some in Eh as (H1 & H2 & H3). by exists h.
Qed.

Lemma ReviseCandidate_ok scope id expected proposal srcs arts target reason s c s' :
  candidates_ok (candidate_rows (tables s)) ->
  ReviseCandidate repo scope id expected proposal srcs arts target reason s = (Ok c, s') ->
  exists cur, current scope id (tables s) cur /\ cn_Status cur = Pending /\ cn_Version cur = expected /\
    c = MkCandidate id (expected + 1) (cn_Family cur) Pending proposal srcs arts target reason None None /\ valid_candidate c /\
    artifact_row (tables s) scope target = true /\
    stepped scope id (tables s) (tables s') /\ holds scope c (tables s') /\ stored_version scope c (tables s').
Proof.
  intros Hok H. unfold ReviseCandidate in H. tx_inv H. tx_pure. apply LockPending_ok in Ha as (E1 & Hc & Hp & Hv).
  apply reviewed_ok, NewCandidate_ok in Ha1 as [-> Hvc]. apply requireOneCAS_ok in Ha4 as [-> ->].
  unfold insertVersion in Ha2. tx_inv Ha2. tx_pure. cbn [cn_ID cn_Version] in *.
  apply insert_version_ok in Ha2 as (Hn & Ht & E3). rewrite E1 in *.
  apply update_version_ok in Ha3 as (h & Hh & Hhv & Hhp & E4); [|done]. rewrite E3, rows_with in Hh, E4. cbn in Hh, E4. rewrite with_with in E4.
  destruct (pending_current _ _ _ _ _ Hok Hc Hp Hh) as (_ & _ & Hfam & Hr & Hd & Hrange).
  assert (Hw : wrap64 (cn_Version a + 1) = expected + 1 /\ expected + 1 <= max_int64).
  { pose proof (vc_version _ Hvc) as H1. cbn in H1. rewrite Hv in *. rewrite Hhv in Hrange.
    destruct (Z.eq_dec expected max_int64) as [->|Hne]; [by vm_compute in H1|]. rewrite wrap64_id by (unfold in_int64, max_int64, min_int64 in *; lia); lia. }
  destruct Hw as [Hw Hmax]. rewrite Hw in *. match goal with E : encode_candidate _ _ = Ok _ |- _ => pose proof (encode_candidate_ok _ _ E) as (Hf & Htar & _) end.
  cbn in Hf, Htar. rewrite Htar in Ht. exists a. do 6 (split; [done|]). rewrite E4. split; [|split].
  - apply stepped_with. unfold pending in Hhp. rewrite Hhp.
    subst expected. rewrite <- Hhv. refine (step_revised scope id (candidate_rows (tables s)) h _ Hh Hhp _ _); [lia|congruence].
  - unfold holds. rewrite rows_with. cbn. rewrite lookup_insert_eq. unfold head_of_candidate. cbn. unfold pending in Hhp. congruence.
  - eexists. split; [done|]. rewrite rows_with. cbn. by rewrite lookup_insert_eq.
Qed.

Lemma RejectCandidate_ok scope id expected reason s c s' :
  candidates_ok (candidate_rows (tables s)) ->
  RejectCandidate repo scope id expected reason s = (Ok c, s') ->
  exists cur, current scope id (tables s) cur /\ cn_Status cur = Pending /\ cn_Version cur = expected /\
    c = MkCandidate (cn_ID cur) (cn_Version cur) (cn_Family cur) Rejected (cn_Proposal cur) (cn_Sources cur) (cn_Artifacts cur)
          (cn_Target cur) (cn_Reason cur) None (Some reason) /\ valid_candidate c /\
    stepped scope id (tables s) (tables s') /\ holds scope c (tables s').
Proof.
  intros Hok H. unfold RejectCandidate in H. tx_inv H. tx_pure. apply LockPending_ok in Ha as (E1 & Hc & Hp & Hv).
  apply reviewed_ok, NewCandidate_ok in Ha0 as [-> Hvc]. apply requireOneCAS_ok in Ha2 as [-> ->].
  apply update_rejected_ok in Ha1 as (h & Hh & Hhv & Hhp & E4); [|done]. rewrite E1 in *.
  destruct (pending_current _ _ _ _ _ Hok Hc Hp Hh) as (_ & Hv' & Hfam & Hr & Hd & Hrange).
  assert (Hid : cn_ID a = id) by (destruct Hc as (? & ? & _ & _ & -> & _); done).
  exists a. do 5 (split; [done|]). rewrite E4. split.
  - apply stepped_with. by apply step_rejected.
  - unfold holds. rewrite rows_with. cbn. rewrite Hid, lookup_insert_eq. unfold head_of_candidate. cbn. congruence.
Qed.

Lemma GetCandidate_ok scope id s c s' :
  GetCandidate repo scope id s = (Ok c, s') -> tables s' = tables s /\ current scope id (tables s) c.
Proof.
  intros H. unfold GetCandidate in H. tx_inv H. tx_pure. apply findCurrent_ok in Ha0 as [E Hf].
  apply of_option_ok_inv in H. by subst.
Qed.

Lemma MarkApproved_ok scope id expected r s c s' :
  MarkApproved repo scope id expected r s = (Ok c, s') ->
  exists h, ct_heads (candidate_rows (tables s)) !! (scope, id) = Some h /\ ch_version h = expected /\ pending h /\
    artifact_row (tables s) scope (Some r) = true /\
    tables s' = with_rows (with_head (candidate_rows (tables s)) scope id
                  (MkCandidateHead (ch_family h) (ch_version h) Approved (Some r) (ch_decision h))) (tables s) /\
    current scope id (tables s') c.
Proof.
  intros H. unfold MarkApproved in H. tx_inv H. apply requireOneCAS_ok in Ha0 as [-> ->].
  apply update_approved_ok in Ha as (h & H1 & H2 & H3 & H4 & E); [|done]. apply GetCandidate_ok in H as [E' Hc].
  exists h. rewrite E'. done.
Qed.

(** Two readings of the same row. *)
Lemma represents_same scope id h h' v c c' :
  represents scope id h v c -> represents scope id h' v c' ->
  cn_Sources c' = cn_Sources c /\ cn_Artifacts c' = cn_Artifacts c /\ cn_Target c' = cn_Target c /\ cn_Reason c' = cn_Reason c.
Proof.
  intros (_ & E & Hs & Ha & _) (_ & E' & Hs' & Ha' & _). rewrite Hs in Hs'. rewrite Ha in Ha'.
  injection Hs' as ->. injection Ha' as ->. rewrite E, E'. done.
Qed.

(** The operations only read the Candidates of a scope before they change one: what
    a rejected operation leaves is what a transaction leaves. *)
Lemma GetCandidate_keeps scope id : keeps (GetCandidate repo scope id).
Proof. unfold GetCandidate, findCurrent. keeps. apply decode_candidate_keeps. Qed.
End repository.
