(* ===== verification/MemoryRepositoryFacts.v ===== *)
(** * Lemmas on the relational Memory repository

    What a successful commit did to the tables, and what is read back. *)

From S2P Require Import Prelude.
From S2P Require Import GoStrings.
From S2P Require Import Refs.
From S2P Require Import Json.
From S2P Require Import JsonText.
From S2P Require Import MemoryModel.
From S2P Require Import Sql.
From S2P Require Import ArtifactStore.
From S2P Require Import ArtifactStoreFacts.
From S2P Require Import MemoryService.
From S2P Require Import Handoff.
From S2P Require Import HandoffCodec.
From S2P Require Import MemoryCodec.
From S2P Require Import MemoryRepository.

(** ** Loops of statements *)

(** States that follow each other by [R], one step for each value. *)
Fixpoint chain {A St} (R : A -> St -> St -> Prop) (l : list A) (t t' : St) : Prop :=
  match l with
  | [] => t' = t
  | v :: more => exists t1, R v t t1 /\ chain R more t1 t'
  end.

Lemma each_chain {Tb A} (R : A -> Tb -> Tb -> Prop) (f : nat -> A -> txn Tb unit) l :
  (forall i v s u s', f i v s = (Ok u, s') -> R v (tables s) (tables s')) ->
  forall k s u s', each f k l s = (Ok u, s') -> chain R l (tables s) (tables s').
Proof.
  intros Hf. induction l as [|v l IH]; intros k s u s' H; cbn in *.
  - by apply tx_ret_ok in H as [_ ->].
  - tx_inv H. exists (tables st). split; [by eapply Hf|by eapply IH].
Qed.

(** [m'] is [m] with the values of [l] under keys that were free. *)
Definition inserts {A V : Type} `{Countable K} (key : A -> K) (val : A -> option V) (l : list A) (m m' : gmap K V) : Prop :=
  NoDup (map key l) /\
  (forall a, a ∈ l -> m !! key a = None /\ exists v, val a = Some v /\ m' !! key a = Some v) /\
  (forall k, k ∉ map key l -> m' !! k = m !! k).

Lemma chain_inserts {A V St : Type} `{Countable K} (get : St -> gmap K V) (key : A -> K) (val : A -> option V)
    (R : A -> St -> St -> Prop) l t t' :
  (forall a t t', R a t t' -> get t !! key a = None /\ exists v, val a = Some v /\ get t' = <[key a := v]> (get t)) ->
  chain R l t t' -> inserts key val l (get t) (get t').
Proof.
  intros HR. revert t. induction l as [|a l IH]; intros t Hc; cbn in Hc.
  - rewrite Hc. split; [constructor|]. split; [by intros a Ha%elem_of_nil|done].
  - destruct Hc as (t1 & Ha & Hc). apply HR in Ha as (Hnew & v & Hv & Et). apply IH in Hc as (Hn & Hin & Hout). rewrite Et in Hin, Hout.
    assert (Hk : key a ∉ map key l).
    { intros Hx. apply list_elem_of_fmap in Hx as (b & Ek & Hb). destruct (Hin b Hb) as [Hx _]. by rewrite <- Ek, lookup_insert_eq in Hx. }
    split; [by constructor|]. split.
    + intros b Hb. apply elem_of_cons in Hb as [->|Hb].
      * split; [done|]. exists v. split; [done|]. rewrite Hout by done. apply lookup_insert_eq.
      * destruct (Hin b Hb) as [H1 H2]. split; [|done]. destruct (decide (key b = key a)) as [E|Hne];
          [by rewrite E, lookup_insert_eq in H1|by rewrite lookup_insert_ne in H1].
    + intros k Hkl. cbn in Hkl. rewrite not_elem_of_cons in Hkl. destruct Hkl as [H1 H2]. rewrite Hout by done. by apply lookup_insert_ne.
Qed.

Lemma chain_const {A St X : Type} (f : St -> X) (R : A -> St -> St -> Prop) l t t' :
  (forall a t t', R a t t' -> f t' = f t) -> chain R l t t' -> f t' = f t.
Proof.
  intros HR. revert t. induction l as [|a l IH]; intros t Hc; cbn in Hc; [by rewrite Hc|].
  destruct Hc as (t1 & Ha & Hc). rewrite (IH _ Hc). by eapply HR.
Qed.

(** ** Indexes *)

(** An index writes its own tables [I] and reads. *)
Record index_laws {Tb : Type} (I : Type) {HI : Holds Tb I} (i : MemoryIndex Tb) : Prop := {
  il_replace scope r ps s u s' : ix_Replace i scope r ps s = (Ok u, s') -> changed_only I (tables s) (tables s');
  il_hydrate scope ps s ps' s' : ix_Hydrate i scope ps s = (Ok ps', s') ->
    tables s' = tables s /\ map pr_entryVersion ps' = map pr_entryVersion ps /\
    map pr_searchableText ps' = map pr_searchableText ps
}.

#[export] Instance holds_nothing (Tb : Type) : Holds Tb unit :=
  { rows _ := tt; with_rows _ t := t; rows_with r _ := match r with tt => eq_refl end;
    with_with _ _ _ := eq_refl; with_same _ := eq_refl }.

Lemma no_index_laws Tb : index_laws (Tb := Tb) unit NoMemoryIndex.
Proof.
  split; cbn.
  - intros scope r ps s u s' H. apply tx_ret_ok in H as [_ ->]. reflexivity.
  - intros scope ps s ps' s' H. by apply tx_ret_ok in H as [<- ->].
Qed.

(** A composite of indexes that share their tables is one. *)
Lemma composite_index_laws {Tb I} {HI : Holds Tb I} (indexes : list (MemoryIndex Tb)) i :
  Forall (index_laws I) indexes -> NewCompositeMemoryIndex indexes = Ok i -> index_laws I i.
Proof.
  intros Hl H. unfold NewCompositeMemoryIndex in H. bind_inv H. injection H as <-. clear Ha Ha0. split; cbn.
  - intros scope r ps. generalize 0%nat. induction Hl as [|x l Hx _ IH]; intros k s u s' H; cbn in H.
    + apply tx_ret_ok in H as [_ ->]. reflexivity.
    + tx_inv H. etransitivity; [exact (il_replace _ _ Hx _ _ _ _ _ _ Ha)|exact (IH _ _ _ _ H)].
  - intros scope. induction Hl as [|x l Hx _ IH]; intros ps s ps' s' H; cbn in H.
    + by apply tx_ret_ok in H as [<- ->].
    + tx_inv H. apply (il_hydrate _ _ Hx) in Ha as (E1 & E2 & E3). apply IH in H as (E4 & E5 & E6). split; [congruence|]. split; congruence.
Qed.

(** ** Statements *)

Definition version_key (scope : string) (e : EntryVersion) : string * string * string :=
  (scope, ev_MemoryArtifactID e, ev_EntryVersionID e).

Section statements.
Context {Tb : Type} {HA : Holds Tb Tables} {HM : Holds Tb MemoryTables}.
Implicit Types (s : SessionOf Tb).
Notation memory_rows t := (rows t : MemoryTables).

(** One more version. *)
Definition version_added scope (e : EntryVersion) (t t' : Tb) : Prop :=
  exists row, encode_version e = Ok row /\ mt_versions (memory_rows t) !! version_key scope e = None /\
    t' = with_rows (MkMemoryTables (<[version_key scope e := row]> (mt_versions (memory_rows t))) (mt_heads (memory_rows t))) t.

Lemma insertMemoryEntry_ok scope e s u s' :
  insertMemoryEntry scope e s = (Ok u, s') -> version_added scope e (tables s) (tables s').
Proof.
  unfold insertMemoryEntry. intros H. tx_inv H. tx_pure. apply statement_ok in H. cbv zeta in H. bind_inv H. injection H as _ H.
  apply check_ok_inv, bool_decide_eq_true in Ha0. by exists a.
Qed.

(** One more head. *)
Definition head_added scope (r : Ref) (p : Projection) (t t' : Tb) : Prop :=
  let key := (scope, artifactID r, ev_EntryID (pr_entryVersion p)) in
  mt_heads (memory_rows t) !! key = None /\
  (exists v, mt_versions (memory_rows t) !! (scope, artifactID r, ev_EntryVersionID (pr_entryVersion p)) = Some v /\
             vr_entry v = ev_EntryID (pr_entryVersion p)) /\
  t' = with_rows (MkMemoryTables (mt_versions (memory_rows t)) (<[key := head_row (revision r) p]> (mt_heads (memory_rows t)))) t.

Lemma insert_entry_head_ok scope r p s u s' :
  insert_entry_head scope (artifactID r) (ev_EntryID (pr_entryVersion p)) (head_row (revision r) p) s = (Ok u, s') ->
  head_added scope r p (tables s) (tables s').
Proof.
  intros H. apply statement_ok in H. cbv zeta in H. bind_inv H. injection H as _ H. apply check_ok_inv, bool_decide_eq_true in Ha.
  split; [exact Ha|]. split; [|by rewrite H]. apply check_ok_inv in Ha1. cbn [hr_version head_row] in Ha1.
  destruct (mt_versions _ !! _) as [v|]; [|done]. exists v. split; [done|]. by apply String.eqb_eq.
Qed.

Lemma chain_changed {A} (R : A -> Tb -> Tb -> Prop) l t t' :
  (forall v t t', R v t t' -> changed_only MemoryTables t t') -> chain R l t t' -> changed_only MemoryTables t t'.
Proof.
  intros HR. revert t. induction l as [|v l IH]; intros t H; cbn in H; [by apply changed_same|].
  destruct H as (t1 & H1 & H2). etransitivity; [by eapply HR|by apply IH].
Qed.

Definition row_of (e : EntryVersion) : option VersionRow := decoded (encode_version e).

Lemma versions_chain scope es t t' :
  chain (version_added scope) es t t' ->
  changed_only MemoryTables t t' /\ mt_heads (memory_rows t') = mt_heads (memory_rows t) /\
  inserts (version_key scope) row_of es (mt_versions (memory_rows t)) (mt_versions (memory_rows t')).
Proof.
  intros H. split; [|split].
  - eapply chain_changed; [|exact H]. intros e t1 t2 (row & _ & _ & ->). apply changed_with.
  - eapply (chain_const (fun t => mt_heads (memory_rows t))); [|exact H]. intros e t1 t2 (row & _ & _ & ->). by rewrite rows_with.
  - eapply (chain_inserts (fun t => mt_versions (memory_rows t))); [|exact H]. intros e t1 t2 (row & Er & Hn & ->). split; [done|].
    exists row. unfold row_of. rewrite Er, rows_with. done.
Qed.

Definition entry_key (scope : string) (r : Ref) (p : Projection) : string * string * string :=
  (scope, artifactID r, ev_EntryID (pr_entryVersion p)).

Lemma heads_chain scope r ps t t' :
  chain (head_added scope r) ps t t' ->
  changed_only MemoryTables t t' /\ mt_versions (memory_rows t') = mt_versions (memory_rows t) /\
  inserts (entry_key scope r) (fun p => Some (head_row (revision r) p)) ps (mt_heads (memory_rows t)) (mt_heads (memory_rows t')).
Proof.
  intros H. split; [|split].
  - eapply chain_changed; [|exact H]. intros e t1 t2 (_ & _ & ->). apply changed_with.
  - eapply (chain_const (fun t => mt_versions (memory_rows t))); [|exact H]. intros e t1 t2 (_ & _ & ->). by rewrite rows_with.
  - eapply (chain_inserts (fun t => mt_heads (memory_rows t))); [|exact H]. intros p t1 t2 (Hn & _ & ->). split; [done|].
    eexists. rewrite rows_with. done.
Qed.

Lemma heads_versions scope r ps t t' :
  chain (head_added scope r) ps t t' ->
  Forall (fun p => exists v, mt_versions (memory_rows t) !! (scope, artifactID r, ev_EntryVersionID (pr_entryVersion p)) = Some v /\
                             vr_entry v = ev_EntryID (pr_entryVersion p)) ps.
Proof.
  revert t. induction ps as [|p ps IH]; intros t H; cbn in H; [constructor|]. destruct H as (t1 & (_ & Hv & E) & H).
  constructor; [done|]. apply IH in H. by rewrite E, rows_with in H.
Qed.

Lemma delete_entry_heads_ok scope memory s u s' :
  delete_entry_heads scope memory s = (Ok u, s') ->
  changed_only MemoryTables (tables s) (tables s') /\
  mt_versions (memory_rows (tables s')) = mt_versions (memory_rows (tables s)) /\
  forall k, mt_heads (memory_rows (tables s')) !! k =
    if decide ((fst (fst k), snd (fst k)) = (scope, memory)) then None else mt_heads (memory_rows (tables s)) !! k.
Proof.
  intros H. apply on_ok in H as (m & Em & E). injection Em as _ <-. rewrite E. split; [apply changed_with|]. rewrite rows_with.
  split; [done|]. intros k. cbn [mt_heads]. rewrite map_lookup_filter.
  destruct (mt_heads (memory_rows (tables s)) !! k) as [row|] eqn:Ek; cbn; [|by destruct (decide _)].
  destruct (decide ((fst (fst k), snd (fst k)) = (scope, memory))) as [Hd|Hd].
  - case_guard as Hg; [|done]. by cbn in Hg.
  - case_guard as Hg; [done|]. by cbn in Hg.
Qed.
End statements.

(** ** Commits *)

(** The searchable heads of a Memory are those of the projections. *)
Record heads_replaced (scope : string) (r : Ref) (ps : list Projection) (h h' : gmap (string * string * string) HeadRow) : Prop := {
  hr_others k : (fst (fst k), snd (fst k)) <> (scope, artifactID r) -> h' !! k = h !! k;
  hr_entries : NoDup (map (fun p => ev_EntryID (pr_entryVersion p)) ps);
  hr_each p : p ∈ ps -> h' !! entry_key scope r p = Some (head_row (revision r) p);
  hr_only entry row : h' !! (scope, artifactID r, entry) = Some row -> exists p, p ∈ ps /\ ev_EntryID (pr_entryVersion p) = entry
}.

Section commits.
Context {T : Text} {Tb C I : Type} {HA : Holds Tb Tables} {HM : Holds Tb MemoryTables} {HI : Holds Tb I}
        {DC : Dynamic C} {CC : Carries C MemoryModel.Content}
        {AAM : Apart Tb Tables MemoryTables} {AIA : Apart Tb I Tables} {AIM : Apart Tb I MemoryTables}.
Context (repo : MemoryRepository Tb C) (codec : ArtifactCodec Tb C) (Hcodec : MemoryArtifactCodec = Ok codec)
        (Hrepo : mr_artifacts repo !! MemoryModel.Family = Some codec) (Hindex : index_laws I (mr_index repo)).
Implicit Types (s : SessionOf Tb) (t : Tb).
Notation artifact_rows t := (rows t : Tables).
Notation memory_rows t := (rows t : MemoryTables).
Notation scope := (mr_scope repo).

Lemma replace_heads_ok r ps s u s' :
  replace_heads repo r ps s = (Ok u, s') ->
  artifact_rows (tables s') = artifact_rows (tables s) /\
  mt_versions (memory_rows (tables s')) = mt_versions (memory_rows (tables s)) /\
  heads_replaced scope r ps (mt_heads (memory_rows (tables s))) (mt_heads (memory_rows (tables s'))) /\
  Forall (fun p => exists v, mt_versions (memory_rows (tables s)) !! (scope, artifactID r, ev_EntryVersionID (pr_entryVersion p)) = Some v /\
                             vr_entry v = ev_EntryID (pr_entryVersion p)) ps.
Proof.
  unfold replace_heads. intros H. tx_inv H. apply (il_replace _ _ Hindex) in Ha, H. apply delete_entry_heads_ok in Ha0 as (C1 & V1 & H1).
  apply (each_chain (head_added scope r)) in Ha1; [|intros; by eapply insert_entry_head_ok].
  pose proof (heads_versions _ _ _ _ _ Ha1) as Hv. apply heads_chain in Ha1 as (C2 & V2 & Hn & Hin & Hout).
  assert (EA : artifact_rows (tables s') = artifact_rows (tables s)).
  { rewrite (changed_apart _ _ H), (changed_apart_left _ _ C2), (changed_apart_left _ _ C1). by apply changed_apart. }
  assert (EM : memory_rows (tables s') = memory_rows (tables st1)) by (by apply changed_apart).
  assert (EM0 : memory_rows (tables st) = memory_rows (tables s)) by (by apply changed_apart).
  rewrite EM, V2, V1, EM0. rewrite EM0 in V1, H1. rewrite V1 in Hv. split; [done|]. split; [done|]. split; [|done].
  split.
  - intros k Hk. rewrite Hout, H1, decide_False by (try done; intros Hx; apply list_elem_of_fmap in Hx as (p & -> & _); done). done.
  - apply (NoDup_fmap_1 (fun e => (scope, artifactID r, e))). rewrite <- list_fmap_compose. exact Hn.
  - intros p Hp. destruct (Hin p Hp) as (_ & v & [= <-] & E). exact E.
  - intros entry row Hr. destruct (decide ((scope, artifactID r, entry) ∈ map (entry_key scope r) ps)) as [Hx|Hx].
    + apply list_elem_of_fmap in Hx as (p & [= ->] & Hp). by exists p.
    + rewrite Hout, H1 in Hr by done. cbn in Hr. by rewrite decide_True in Hr.
Qed.

Lemma memory_encode x : c_encode codec (inject x) = Some (encodeMemory x).
Proof. apply (codec_encode _ _ _ _ _ _ _ Hcodec); [apply inject_type|apply project_inject]. Qed.

Lemma memory_pure : pure_codec codec.
Proof. eapply codec_pure. exact Hcodec. Qed.

Lemma memory_decoded sc r lineage payload s a s' :
  c_decode codec sc r lineage payload s = (Ok a, s') ->
  exists x, decodeMemory payload = Ok x /\ a = MkArtifact r (inject x) lineage.
Proof.
  intros H. apply (codec_decoded _ _ _ _ _ _ _ Hcodec) in H as (x & Hx & -> & _). exists x. split; [|done].
  unfold decoded in Hx. by destruct (decodeMemory payload); [injection Hx as ->|].
Qed.

Lemma memory_decode sc r lineage payload x :
  decodeMemory payload = Ok x -> valid_ref r -> valid_lineage lineage ->
  c_decode codec sc r lineage payload = tx_lift (Ok (MkArtifact r (inject x) lineage)).
Proof.
  intros Hx Hr Hl. rewrite (codec_decode _ _ _ _ _ _ _ Hcodec), Hx. cbn [decoded].
  by rewrite (proj2 (Restore_ok r (inject x) lineage _) (conj eq_refl (conj Hr Hl))).
Qed.

Lemma as_memory_inject r x lineage : as_memory (MkArtifact r (inject x) lineage) = Some (MkArtifact r x lineage).
Proof. unfold as_memory. cbn. by rewrite project_inject. Qed.

(** What a commit did. *)
Record committed (c : Commit) (t t' : Tb) : Prop := {
  cd_valid : validateMemoryCommit c = Ok tt;
  cd_ref : valid_ref (a_ref (cm_memory c));
  cd_grown : grown scope (a_ref (cm_memory c)) (encodeMemory (a_content (cm_memory c))) (a_lineage (cm_memory c))
               (artifact_rows t) (artifact_rows t');
  cd_decodes : decodeMemory (encodeMemory (a_content (cm_memory c))) = Ok (a_content (cm_memory c));
  cd_lineage : valid_lineage (a_lineage (cm_memory c));
  cd_versions : inserts (version_key scope) row_of (cm_entryVersions c) (mt_versions (memory_rows t)) (mt_versions (memory_rows t'));
  cd_heads : heads_replaced scope (a_ref (cm_memory c)) (cm_projections c) (mt_heads (memory_rows t)) (mt_heads (memory_rows t'));
  cd_projected : Forall (fun p => exists v, mt_versions (memory_rows t') !! (scope, artifactID (a_ref (cm_memory c)), ev_EntryVersionID (pr_entryVersion p)) = Some v /\
                                            vr_entry v = ev_EntryID (pr_entryVersion p)) (cm_projections c)
}.

Lemma store_revision_ok c s a s' :
  rows_ok (artifact_rows (tables s)) -> store_revision repo c s = (Ok a, s') ->
  changed_only Tables (tables s) (tables s') /\ valid_lineage (a_lineage (cm_memory c)) /\
  wrote (mr_artifacts repo) scope (MkDraft MemoryModel.Family (inject (a_content (cm_memory c))) (a_lineage (cm_memory c)))
    a (artifact_rows (tables s)) (artifact_rows (tables s')).
Proof.
  intros Hr H. unfold store_revision in H. tx_inv H. tx_pure. unfold NewDraft in Heqr. bind_inv Heqr. injection Heqr as <-.
  apply NewLineage_ok in Ha0 as [-> Hl].
  assert (El : MkLineage (sources (a_lineage (cm_memory c))) (artifacts (a_lineage (cm_memory c))) = a_lineage (cm_memory c)) by (by destruct (a_lineage (cm_memory c))).
  rewrite El in *. assert (Hp : forall codec', mr_artifacts repo !! MemoryModel.Family = Some codec' -> reading_codec codec').
  { intros codec'. rewrite Hrepo. intros [= <-]. apply pure_reading, memory_pure. }
  destruct (cm_base c) as [base|].
  - apply Revise_ok in H as (C1 & _ & _ & _ & Hw); [|exact Hp|done]. done.
  - apply Create_ok in H as (C1 & _ & Hw); [|exact Hp|done]. done.
Qed.

Lemma wrote_memory c a (t t' : Tables) :
  wrote (mr_artifacts repo) scope (MkDraft MemoryModel.Family (inject (a_content (cm_memory c))) (a_lineage (cm_memory c))) a t t' ->
  as_memory a = Some (cm_memory c) ->
  valid_ref (a_ref (cm_memory c)) /\ decodeMemory (encodeMemory (a_content (cm_memory c))) = Ok (a_content (cm_memory c)) /\
  grown scope (a_ref (cm_memory c)) (encodeMemory (a_content (cm_memory c))) (a_lineage (cm_memory c)) t t'.
Proof.
  intros (codec' & payload & Er & Ee & Ed & Hv & G) Ha. cbn [d_family d_content d_lineage] in *. rewrite Hrepo in Er. injection Er as <-.
  rewrite memory_encode in Ee. injection Ee as <-.
  destruct Ed as (s & s' & Ed). apply memory_decoded in Ed as (x & Hx & Ea).
  rewrite Ea, as_memory_inject in Ha. injection Ha as Ha. rewrite <- Ha in *. cbn [a_ref a_content a_lineage] in *. done.
Qed.

Lemma commit_ok c s m s' :
  rows_ok (artifact_rows (tables s)) -> commit repo c s = (Ok m, s') ->
  m = cm_memory c /\ committed c (tables s) (tables s').
Proof.
  intros Hr H. unfold commit in H. tx_inv H. tx_pure. apply of_option_ok_inv in Ha1. apply bool_decide_eq_true in Ha2. subst a1.
  destruct a. split; [done|]. apply store_revision_ok in Ha0 as (C0 & Hl & Hw); [|done].
  destruct (wrote_memory _ _ _ _ Hw Ha1) as (Hv & Hd & G).
  apply (each_chain (version_added scope)) in Ha3; [|intros; by eapply insertMemoryEntry_ok].
  apply versions_chain in Ha3 as (C1 & H1 & V1). apply replace_heads_ok in Ha4 as (EA & V2 & H2 & Hp).
  assert (EA1 : artifact_rows (tables st3) = artifact_rows (tables st0)) by (by apply changed_apart_left).
  assert (EM : memory_rows (tables st0) = memory_rows (tables s)) by exact (changed_apart _ _ C0).
  split; try done.
  - by rewrite EA, EA1.
  - by rewrite V2, <- EM.
  - by rewrite H1, EM in H2.
  - by rewrite V2.
Qed.

(** Parts of the database that are none of the tables of a commit. *)
Section frame.
Context {R : Type} {HR : Holds Tb R} {AAR : Apart Tb Tables R} {AMR : Apart Tb MemoryTables R} {AIR : Apart Tb I R}.

Lemma replace_heads_frame r ps s u s' : replace_heads repo r ps s = (Ok u, s') -> (rows (tables s') : R) = rows (tables s).
Proof.
  unfold replace_heads. intros H. tx_inv H. apply (il_replace _ _ Hindex) in Ha, H. apply delete_entry_heads_ok in Ha0 as (C1 & _).
  apply (each_chain (head_added scope r)) in Ha1; [|intros; by eapply insert_entry_head_ok]. apply heads_chain in Ha1 as (C2 & _).
  rewrite (changed_apart _ _ H), (changed_apart _ _ C2), (changed_apart _ _ C1). exact (changed_apart _ _ Ha).
Qed.

Lemma commit_frame_part c s m s' :
  rows_ok (artifact_rows (tables s)) -> commit repo c s = (Ok m, s') -> (rows (tables s') : R) = rows (tables s).
Proof.
  intros Hr H. unfold commit in H. tx_inv H. tx_pure. apply store_revision_ok in Ha0 as (C0 & _ & _); [|done].
  apply (each_chain (version_added scope)) in Ha3; [|intros; by eapply insertMemoryEntry_ok].
  apply versions_chain in Ha3 as (C1 & _). apply replace_heads_frame in Ha4.
  rewrite Ha4, (changed_apart _ _ C1). exact (changed_apart _ _ C0).
Qed.

Lemma applyPlan_frame plan s m s' :
  rows_ok (artifact_rows (tables s)) -> applyPlan repo plan s = (Ok m, s') -> (rows (tables s') : R) = rows (tables s).
Proof.
  unfold applyPlan. intros Hr. destruct (wp_commit plan) as [c|]; intros H; [|by apply tx_ret_ok in H as [_ ->]].
  tx_inv H. tx_pure. by eapply commit_frame_part.
Qed.
End frame.

Lemma applyPlan_ok plan s (m : option Memory) s' :
  rows_ok (artifact_rows (tables s)) -> applyPlan repo plan s = (Ok m, s') ->
  m = wp_result plan /\
  match wp_commit plan with
  | Some c => m = Some (cm_memory c) /\ committed c (tables s) (tables s')
  | None => s' = s
  end.
Proof.
  unfold applyPlan. intros Hr. destruct (wp_commit plan) as [c|]; intros H; [|by apply tx_ret_ok in H as [<- ->]].
  tx_inv H. tx_pure. apply commit_ok in Ha as [-> Hc]; [|done]. apply bool_decide_eq_true in Ha0. by rewrite Ha0.
Qed.
End commits.
