(* ===== verification/MemoryBackend.v ===== *)
(** * The relational repository as the backend of the Memory service

    The repository meets the contract [BackendLaws] of the service on the databases
    whose stored Memory revisions decode, which its commits preserve: what is shown
    of the service holds on the relational store. *)

From S2P Require Import Prelude.
From S2P Require Import GoStrings.
From S2P Require Import Refs.
From S2P Require Import Json.
From S2P Require Import JsonText.
From S2P Require Import MemoryModel.
From S2P Require Import Sql.
From S2P Require Import ArtifactStore.
From S2P Require Import ArtifactStoreFacts.
From S2P Require Import MemoryService.
From S2P Require Import Handoff.
From S2P Require Import HandoffCodec.
From S2P Require Import MemoryCodec.
From S2P Require Import MemoryRepository.
From S2P Require Import MemoryRepositoryFacts.

(** The error that the service sees. *)
Definition service_error (e : store_error) : mem_error :=
  match e with
  | SMemory e => e
  | SConflict requested current => ERevisionConflict requested current
  | SRef e => ERef e
  | SFamily a d => EFamilyMismatch a d
  | _ => EExternal "database"
  end.

(** Reads run on a driver that does not fail; the statements of a commit fail as
    [fs] says. *)
Definition observed {Tb A} (m : txn Tb A) (t : Tb) : mres A := map_err service_error (fst (m (MkSession t []))).

Section backend.
Context {T : Text} {Tb C : Type} {HA : Holds Tb Tables} {HM : Holds Tb MemoryTables} `{CC : Carries C MemoryModel.Content}
        (repo : MemoryRepository Tb C) (fs : list bool).

Definition sql_backend : Backend Tb := {|
  b_Capabilities _ := ix_Capabilities (mr_index repo);
  b_Get t r := observed (Get repo r) t;
  b_Latest t id := observed (Latest repo id) t;
  b_Entries t r := observed (Entries repo r) t;
  b_Projections t r := observed (Projections repo r) t;
  b_Commit t c := match Commit_ repo c (MkSession t fs) with
                  | (Ok m, s') => Ok (m, tables s')
                  | (Err e, _) => Err (service_error e)
                  end;
  b_Changes t r since := observed (Changes repo r since) t
|}.
End backend.

Section laws.
Context {T : Text} {Tb C I : Type} {HA : Holds Tb Tables} {HM : Holds Tb MemoryTables} {HI : Holds Tb I}
        {DC : Dynamic C} {CC : Carries C MemoryModel.Content}
        {AAM : Apart Tb Tables MemoryTables} {AIA : Apart Tb I Tables} {AIM : Apart Tb I MemoryTables}.
Context (repo : MemoryRepository Tb C) (codec : ArtifactCodec Tb C) (Hcodec : MemoryArtifactCodec = Ok codec)
        (Hrepo : mr_artifacts repo !! MemoryModel.Family = Some codec) (Hindex : index_laws I (mr_index repo))
        (Hscope : requireScope (mr_scope repo) = Ok tt).
Implicit Types (s : SessionOf Tb) (t : Tb).
Notation artifact_rows t := (rows t : Tables).
Notation scope := (mr_scope repo).

(** The Memory revisions of the scope can be read. *)
Record memory_ok (t : Tb) : Prop := {
  mo_rows : rows_ok (artifact_rows t);
  mo_payloads r payload :
    family r = MemoryModel.Family -> t_artifacts (artifact_rows t) !! (scope, r) = Some payload ->
    valid_ref r /\ valid_lineage (lineage_of (artifact_rows t) scope r) /\ exists x, decodeMemory payload = Ok x
}.

(** The stored revision that [get] returns. *)
Definition stored_memory (t : Tb) (r : Ref) : option Memory :=
  payload ← t_artifacts (artifact_rows t) !! (scope, r);
  x ← decoded (decodeMemory payload);
  Some (MkArtifact r x (lineage_of (artifact_rows t) scope r)).

Lemma validated_family c : validateMemoryCommit c = Ok tt -> family (a_ref (cm_memory c)) = MemoryModel.Family.
Proof. unfold validateMemoryCommit. intros H. bind_inv H. apply check_ok_inv in Ha. by apply String.eqb_eq. Qed.

Lemma committed_keeps c t t' : memory_ok t -> committed repo c t t' -> memory_ok t'.
Proof.
  intros [Hr Hp] Hc. pose proof (cd_grown _ _ _ _ Hc) as G. split; [by eapply grown_rows|].
  intros r payload Hf Hl. rewrite (g_artifacts _ _ _ _ _ _ G) in Hl.
  destruct (decide (r = a_ref (cm_memory c))) as [->|Hne].
  - rewrite lookup_insert_eq in Hl. injection Hl as <-. split; [apply (cd_ref _ _ _ _ Hc)|].
    rewrite (g_lineage _ _ _ _ _ _ G). split; [apply (cd_lineage _ _ _ _ Hc)|]. eexists. apply (cd_decodes _ _ _ _ Hc).
  - rewrite lookup_insert_ne in Hl by congruence. rewrite (g_others _ _ _ _ _ _ G) by congruence. by apply Hp.
Qed.

Lemma stored_memory_row t r payload x :
  t_artifacts (artifact_rows t) !! (scope, r) = Some payload -> decodeMemory payload = Ok x ->
  stored_memory t r = Some (MkArtifact r x (lineage_of (artifact_rows t) scope r)).
Proof. intros Hp Hx. unfold stored_memory. rewrite Hp. cbn [mbind option_bind]. by rewrite Hx. Qed.

Lemma stored_after c t t' : committed repo c t t' -> stored_memory t' (a_ref (cm_memory c)) = Some (cm_memory c).
Proof.
  intros Hc. pose proof (cd_grown _ _ _ _ Hc) as G.
  rewrite (stored_memory_row _ _ (encodeMemory (a_content (cm_memory c))) _ ltac:(rewrite (g_artifacts _ _ _ _ _ _ G); apply lookup_insert_eq) (cd_decodes _ _ _ _ Hc)).
  rewrite (g_lineage _ _ _ _ _ _ G). by destruct (cm_memory c).
Qed.

Lemma stored_others c t t' r : committed repo c t t' -> r <> a_ref (cm_memory c) -> stored_memory t' r = stored_memory t r.
Proof.
  intros Hc Hne. pose proof (cd_grown _ _ _ _ Hc) as G. unfold stored_memory.
  by rewrite (g_artifacts _ _ _ _ _ _ G), lookup_insert_ne, (g_others _ _ _ _ _ _ G) by congruence.
Qed.

(** The artifact whose content a stored Memory is. *)
Lemma stored_reads t r m :
  memory_ok t -> family r = MemoryModel.Family -> stored_memory t r = Some m ->
  reads (ArtifactStore.Get (mr_artifacts repo) scope r) t (Ok (as_artifact m)).
Proof.
  intros Hm Hf Hs. unfold stored_memory in Hs. destruct (t_artifacts _ !! _) as [payload|] eqn:Hp; [|done]. cbn [mbind option_bind] in Hs.
  destruct (mo_payloads _ Hm r payload Hf Hp) as (Hv & Hl & x & Hx). rewrite Hx in Hs. injection Hs as <-.
  eapply Get_reads; try done. apply (memory_decode _ Hcodec); done.
Qed.

Lemma as_memory_artifact (m : Memory) : as_memory (C := C) (as_artifact m) = Some m.
Proof. unfold as_artifact. rewrite as_memory_inject. by destruct m. Qed.

Lemma get_reads t r m :
  memory_ok t -> family r = MemoryModel.Family -> stored_memory t r = Some m -> reads (get repo r) t (Ok m).
Proof.
  intros Hm Hf Hs. unfold get. eapply reads_bind; [apply reads_check; by apply String.eqb_eq|].
  eapply reads_bind; [apply reads_catch; by apply stored_reads|]. rewrite as_memory_artifact. apply reads_lift.
Qed.

Lemma latest_reads t id n m :
  memory_ok t -> t_heads (artifact_rows t) !! (scope, MemoryModel.Family, id) = Some n ->
  stored_memory t (MkRef MemoryModel.Family id n) = Some m -> reads (latest repo id) t (Ok m).
Proof.
  intros Hm Hn Hs. assert (Hv : valid_ref (MkRef MemoryModel.Family id n)).
  { unfold stored_memory in Hs. destruct (t_artifacts _ !! _) as [payload|] eqn:Hp; [|done]. by apply (mo_payloads _ Hm _ payload). }
  unfold latest. eapply reads_bind; [apply reads_catch; eapply Latest_reads; [done|done|done|]|].
  - by apply stored_reads.
  - rewrite as_memory_artifact. apply reads_lift.
Qed.

(** What is stored depends on the row and its lineage; so does what is read. *)
Lemma get_same t t' r :
  t_artifacts (artifact_rows t') !! (scope, r) = t_artifacts (artifact_rows t) !! (scope, r) ->
  lineage_of (artifact_rows t') scope r = lineage_of (artifact_rows t) scope r ->
  observed (Get repo r) t' = observed (Get repo r) t.
Proof.
  intros Hp Hl. unfold observed. f_equal. apply agree_fst. apply agree_transaction. unfold get.
  destruct (String.eqb_spec (family r) MemoryModel.Family) as [Hf|Hf]; [|by eexists].
  unfold or_missing. agree; [by apply (Get_agrees _ _ _ _ Hrepo (memory_pure _ Hcodec))|].
  match goal with |- context [match ?e with _ => _ end] => destruct e end; agree.
Qed.

Lemma Commit_ok c s m s' :
  rows_ok (artifact_rows (tables s)) -> Commit_ repo c s = (Ok m, s') -> m = cm_memory c /\ committed repo c (tables s) (tables s').
Proof.
  intros Hr H. apply transaction_ok in H as (s1 & s2 & E1 & H & E2). rewrite <- E1 in Hr.
  apply (commit_ok _ _ Hcodec Hrepo Hindex) in H as [-> Hc]; [|done]. by rewrite E2, <- E1.
Qed.

(** A commit with a base found it at the head. *)
Lemma base_at_head c base s m s' :
  rows_ok (artifact_rows (tables s)) -> Commit_ repo c s = (Ok m, s') -> cm_base c = Some base ->
  family (a_ref base) = MemoryModel.Family /\
  t_heads (artifact_rows (tables s)) !! head_key scope (a_ref base) = Some (revision (a_ref base)).
Proof.
  intros Hr H Hb. apply transaction_ok in H as (s1 & s2 & E1 & H & _). rewrite <- E1 in *. unfold commit in H. tx_inv H.
  unfold store_revision in Ha0. rewrite Hb in Ha0. tx_inv Ha0. tx_pure. unfold NewDraft in Heqr. bind_inv Heqr. injection Heqr as <-.
  apply Revise_ok in Ha0 as (_ & Hf & Hh & _); [done| |done].
  intros codec'. cbn [d_family]. rewrite Hrepo. intros [= <-]. apply pure_reading. by eapply memory_pure.
Qed.

(** ** The contract *)

Definition Database := { t : Tb | memory_ok t }.

Lemma Commit_keeps c t fs m s' : memory_ok t -> Commit_ repo c (MkSession t fs) = (Ok m, s') -> memory_ok (tables s').
Proof. intros Hm H. apply Commit_ok in H as [_ H]; [by eapply committed_keeps|apply Hm]. Qed.

Definition database_commit (fs : list bool) (db : Database) (c : Commit) : mres (Memory * Database) :=
  match Commit_ repo c (MkSession (`db) fs) as o return Commit_ repo c (MkSession (`db) fs) = o -> mres (Memory * Database) with
  | (Ok m, s') => fun E => Ok (m, exist _ (tables s') (Commit_keeps _ _ _ _ _ (proj2_sig db) E))
  | (Err e, _) => fun _ => Err (service_error e)
  end eq_refl.

Lemma database_commit_ok fs db c m db' :
  database_commit fs db c = Ok (m, db') -> exists s', Commit_ repo c (MkSession (`db) fs) = (Ok m, s') /\ `db' = tables s'.
Proof.
  unfold database_commit. generalize (Commit_keeps c (`db) fs). 
  destruct (Commit_ repo c (MkSession (`db) fs)) as [[x|e] s'] eqn:E; intros H [=]; subst. eauto.
Qed.

(** The backend of the databases that can be read, on a driver that fails the
    statements [fs] of a commit. *)
Definition database_backend (fs : list bool) : Backend Database := {|
  b_Capabilities db := b_Capabilities (Backend := sql_backend repo fs) (`db);
  b_Get db := b_Get (Backend := sql_backend repo fs) (`db);
  b_Latest db := b_Latest (Backend := sql_backend repo fs) (`db);
  b_Entries db := b_Entries (Backend := sql_backend repo fs) (`db);
  b_Projections db := b_Projections (Backend := sql_backend repo fs) (`db);
  b_Commit := database_commit fs;
  b_Changes db := b_Changes (Backend := sql_backend repo fs) (`db)
|}.

Lemma observed_ok {A} (m : txn Tb A) t a : reads m t (Ok a) -> observed (Transaction m) t = Ok a.
Proof. intros H. apply reads_transaction in H. unfold observed, reads in *. by rewrite H. Qed.

(** What the service sees of a commit. *)
Lemma committed_observed c t t' :
  memory_ok t' -> committed repo c t t' ->
  let m := cm_memory c in
  observed (Get repo (a_ref m)) t' = Ok m /\ observed (Latest repo (artifactID (a_ref m))) t' = Ok m /\
  forall r, r <> a_ref m -> observed (Get repo r) t' = observed (Get repo r) t.
Proof.
  intros Hm Hc m. pose proof (validated_family _ (cd_valid _ _ _ _ Hc)) as Hf. pose proof (stored_after _ _ _ Hc) as Hs.
  pose proof (cd_grown _ _ _ _ Hc) as G. split; [by apply observed_ok, get_reads|]. split.
  - apply observed_ok. assert (Er : MkRef MemoryModel.Family (artifactID (a_ref m)) (revision (a_ref m)) = a_ref m) by (subst m; rewrite <- Hf; by destruct (a_ref (cm_memory c))).
    apply (latest_reads _ _ (revision (a_ref m))); [done| |by rewrite Er].
    rewrite (g_heads _ _ _ _ _ _ G). unfold head_key. rewrite Hf. apply lookup_insert_eq.
  - intros r Hne. apply get_same.
    + rewrite (g_artifacts _ _ _ _ _ _ G). apply lookup_insert_ne. intros [= E]. by apply Hne.
    + apply (g_others _ _ _ _ _ _ G). (intros [= E]; by apply Hne).
Qed.

Lemma database_laws fs : @BackendLaws Database (database_backend fs).
Proof.
  split.
  - intros db c m db' H. apply database_commit_ok in H as (s' & H & E). apply Commit_ok in H as [-> Hc]; [|exact (mo_rows _ (proj2_sig db))].
    rewrite <- E in Hc. destruct (committed_observed _ _ _ (proj2_sig db') Hc) as (H1 & H2 & _). done.
  - intros db c m db' base H Hb. apply database_commit_ok in H as (s' & H & E).
    pose proof (mo_rows _ (proj2_sig db)) as Hr. destruct (base_at_head c base (MkSession (`db) fs) m s' Hr H Hb) as [Hf Hh].
    cbn [tables] in *. pose proof (rows_heads _ Hr scope (family (a_ref base)) (artifactID (a_ref base))) as Hrow.
    unfold head_key in Hh. rewrite Hh in Hrow. destruct Hrow as [Hpos Hrow].
    destruct (proj2 (Hrow (revision (a_ref base))) ltac:(lia)) as [payload Hp].
    assert (Er : MkRef (family (a_ref base)) (artifactID (a_ref base)) (revision (a_ref base)) = a_ref base) by (by destruct (a_ref base)).
    rewrite Er in Hp. destruct (mo_payloads _ (proj2_sig db) _ _ Hf Hp) as (_ & _ & x & Hx).
    eexists. split.
    + apply observed_ok. eapply latest_reads; [apply (proj2_sig db)|by rewrite <- Hf|].
      rewrite <- Hf, Er. by eapply stored_memory_row.
    + done.
  - intros db c m db' r H Hne. apply database_commit_ok in H as (s' & H & E). apply Commit_ok in H as [-> Hc]; [|exact (mo_rows _ (proj2_sig db))].
    rewrite <- E in Hc. by apply (committed_observed _ _ _ (proj2_sig db') Hc).
Qed.
End laws.
