(* ===== verification/Trigger.v ===== *)
(** * Trigger policies ([trigger/], [source/journal.go])

    Pure policies from a signal and a cursor to a new cursor and actions: the
    memory source window and the handoff boundary. *)

From S2P Require Import Prelude.
From S2P Require Import GoStrings.
From S2P Require Import Refs.
From S2P Require Import Json.
From S2P Require Import MemoryModel.
From S2P Require Import Handoff.

(** ** Cursors and journal entries *)

Record Cursor := NewCursor { Sequence : Z }.

#[export] Instance cursor_eq_dec : EqDecision Cursor.
Proof. solve_decision. Defined.

Record JournalEntry := MkJournalEntry { j_ref : Source.Ref; j_value : Source.Value; j_position : Z }.

Inductive journal_error := JRef (e : ref_error) | JIdentity | JPosition.

Definition NewJournalEntry (ref : Source.Ref) (value : option Source.Value) (position : Z)
  : result journal_error JournalEntry :=
  let* _ := map_err JRef (check_source ref) in
  let* _ := map_err JRef (Source.validateValue value) in
  match value with
  | None => Err (JRef InvalidEntry)
  | Some v =>
      require String.eqb (Source.SourceName v) (Source.sourceID ref) else JIdentity in
      require 1 <=? position else JPosition in
      Ok (MkJournalEntry ref v position)
  end.

(** ** Transitions and policies ([trigger.go]) *)

Record Transition (S A : Type) := NewTransition { t_state : S; t_actions : list A }.
Arguments NewTransition {S A}. Arguments t_state {S A}. Arguments t_actions {S A}.

(** The [Policy] interface; a panic of [Activate] is an error. *)
Class Policy (Signal State Action Panic : Type) := {
  InitialState : State;
  activate : Signal -> State -> result Panic (Transition State Action)
}.

(** Activations in sequence: the final state and the actions, in order. *)
Fixpoint activations {Signal State Action Panic} `{Policy Signal State Action Panic}
  (signals : list Signal) (s : State) : result Panic (State * list Action) :=
  match signals with
  | [] => Ok (s, [])
  | signal :: more =>
      let* t := activate signal s in
      let* ' (s', later) := activations more (t_state t) in
      Ok (s', t_actions t ++ later)
  end.

(** ** The memory source window ([source_window.go]) *)

Inductive window_error := WSequence | WLimit.

Record SourceHighWatermark := MkWatermark { w_sequence : Z; w_limit : Z }.

Definition NewSourceHighWatermark (sequence limit : Z) : result window_error SourceHighWatermark :=
  require 0 <=? sequence else WSequence in
  require 1 <=? limit else WLimit in
  Ok (MkWatermark sequence limit).

Record ProcessSourceWindow := MkWindow { after : Z; through : Z }.

Definition SourceWindowPolicy_Activate (signal : SourceHighWatermark) (state : Cursor)
  : Transition Cursor ProcessSourceWindow :=
  if w_sequence signal <=? Sequence state then NewTransition state []
  else
    let th := Z.min (w_sequence signal) (wrap64 (Sequence state + w_limit signal)) in
    NewTransition (NewCursor th) [MkWindow (Sequence state) th].

#[export] Instance SourceWindowPolicy : Policy SourceHighWatermark Cursor ProcessSourceWindow Empty_set := {
  InitialState := NewCursor 0;
  activate signal state := Ok (SourceWindowPolicy_Activate signal state)
}.

(** ** The handoff boundary ([handoff.go]) *)

Record HandoffBoundary := MkBoundary { b_position : Z; b_activation : Activate }.

Definition NewHandoffBoundary (position : Z) (activation : Activate) : hres HandoffBoundary :=
  require 1 <=? position else HPosition "boundary" in
  let* _ := ValidateActivate activation in
  Ok (MkBoundary position activation).

Definition HandoffBoundaryPolicy_Activate (signal : HandoffBoundary) (state : Cursor)
  : hres (Transition Cursor Prepare) :=
  if b_position signal <=? Sequence state then Ok (NewTransition state [])
  else
    let a := b_activation signal in
    let* action := NewPrepare (a_objective a) (ActionEvidence a) (a_maxBytes a) in
    Ok (NewTransition (NewCursor (b_position signal)) [action]).

#[export] Instance HandoffBoundaryPolicy : Policy HandoffBoundary Cursor Prepare hand_error := {
  InitialState := NewCursor 0;
  activate := HandoffBoundaryPolicy_Activate
}.

(** ** Facts: windows *)

(** Room for the addition of the limit to the cursor. *)
Definition in_room (state : Cursor) (signal : SourceHighWatermark) : Prop :=
  0 <= Sequence state /\ 1 <= w_limit signal /\ w_sequence signal + w_limit signal <= max_int64.

Lemma window_step signal state :
  in_room state signal ->
  let t := SourceWindowPolicy_Activate signal state in
  if w_sequence signal <=? Sequence state then t = NewTransition state []
  else exists th, t = NewTransition (NewCursor th) [MkWindow (Sequence state) th] /\
         Sequence state < th <= w_sequence signal /\ th <= Sequence state + w_limit signal /\
         th = Z.min (w_sequence signal) (Sequence state + w_limit signal).
Proof.
  intros (H1 & H2 & H3). unfold SourceWindowPolicy_Activate. cbv zeta.
  destruct (Z.leb_spec (w_sequence signal) (Sequence state)) as [|Hlt]; [done|].
  rewrite wrap64_id by (unfold in_int64, min_int64, max_int64 in *; lia).
  eexists. split; [reflexivity|]. lia.
Qed.

(** Windows that follow each other without gap from [lo] to [hi]. *)
Fixpoint tiles (lo hi : Z) (ws : list ProcessSourceWindow) : Prop :=
  match ws with
  | [] => lo = hi
  | w :: more => after w = lo /\ lo < through w /\ tiles (through w) hi more
  end.

Lemma tiles_mono lo hi ws : tiles lo hi ws -> lo <= hi.
Proof.
  revert lo. induction ws as [|w ws IH]; intros lo; cbn; [lia|]. intros (H1 & H2 & H3).
  apply IH in H3. lia.
Qed.

Lemma tiles_app lo mid hi ws ws' : tiles lo mid ws -> tiles mid hi ws' -> tiles lo hi (ws ++ ws').
Proof.
  revert lo. induction ws as [|w ws IH]; intros lo; cbn.
  - by intros ->.
  - intros (H1 & H2 & H3) H. repeat split; auto.
Qed.

Lemma window_activations signals state s ws :
  0 <= Sequence state ->
  Forall (fun g => 1 <= w_limit g /\ w_sequence g + w_limit g <= max_int64) signals ->
  activations signals state = Ok (s, ws) ->
  tiles (Sequence state) (Sequence s) ws /\
  Forall (fun w => exists g, g ∈ signals /\ through w <= w_sequence g /\ through w - after w <= w_limit g) ws.
Proof.
  revert state ws. induction signals as [|g gs IH]; intros state ws H0 Hr; cbn [activations].
  { intros [= <- <-]. split; [done|constructor]. }
  inversion Hr as [|? ? [Hl Hm] Hr']; subst. cbn [activate SourceWindowPolicy bind].
  pose proof (window_step g state (conj H0 (conj Hl Hm))) as Hstep. cbv zeta in Hstep.
  intros H. apply bind_ok_inv in H as ([s2 w2] & H1 & H2). injection H2 as <- <-.
  assert (Hlift : forall w, (exists g', g' ∈ gs /\ through w <= w_sequence g' /\ through w - after w <= w_limit g') ->
                  exists g', g' ∈ g :: gs /\ through w <= w_sequence g' /\ through w - after w <= w_limit g').
  { intros w (g' & Hg & Hw). exists g'. split; [by right|done]. }
  destruct (w_sequence g <=? Sequence state).
  - rewrite Hstep in H1 |- *. apply IH in H1 as [A B]; [|done..]. cbn. split; [done|].
    eapply Forall_impl; [exact B|]. exact Hlift.
  - destruct Hstep as (th & E & T1 & T2 & _). rewrite E in H1 |- *.
    apply IH in H1 as [A B]; [|cbn; lia|done]. cbn in *. split; [repeat split; auto; lia|].
    constructor; [|eapply Forall_impl; [exact B|exact Hlift]].
    exists g. split; [left|]. cbn. lia.
Qed.

(** Repeating one watermark reaches it. *)
Lemma window_repeats n g state :
  in_room state g -> w_sequence g <= Sequence state + Z.of_nat n * w_limit g ->
  exists s ws, activations (replicate n g) state = Ok (s, ws) /\
    Sequence s = Z.max (Sequence state) (w_sequence g).
Proof.
  revert state. induction n as [|n IH]; intros state Hr Hn; cbn [replicate activations].
  { exists state, []. split; [done|]. lia. }
  cbn [activate SourceWindowPolicy bind]. pose proof (window_step g state Hr) as Hstep. cbv zeta in Hstep.
  destruct Hr as (R1 & R2 & R3).
  destruct (Z.leb_spec (w_sequence g) (Sequence state)) as [Hle|Hlt].
  - rewrite Hstep. destruct (IH state) as (s & ws & E & Es); [done|lia|]. cbn [t_state]. rewrite E.
    cbn. eexists _, _. split; [reflexivity|]. done.
  - destruct Hstep as (th & E & T1 & T2 & T3). rewrite E. cbn [t_state].
    destruct (IH (NewCursor th)) as (s & ws & E' & Es).
    + unfold in_room; cbn; lia.
    + cbn. lia.
    + rewrite E'. cbn. eexists _, _. split; [reflexivity|]. cbn in Es. lia.
Qed.

(** ** Facts: boundaries *)

Definition valid_boundary (b : HandoffBoundary) : Prop :=
  NewHandoffBoundary (b_position b) (b_activation b) = Ok b.

Lemma boundary_activate b state :
  valid_boundary b ->
  if b_position b <=? Sequence state
  then HandoffBoundaryPolicy_Activate b state = Ok (NewTransition state [])
  else exists p, HandoffBoundaryPolicy_Activate b state = Ok (NewTransition (NewCursor (b_position b)) [p]) /\
         p = MkPrepare (a_objective (b_activation b)) (ActionEvidence (b_activation b)) (a_maxBytes (b_activation b)).
Proof.
  unfold valid_boundary, NewHandoffBoundary. intros H. bind_inv H.
  destruct (validated_activation_prepares _ _ Ha0) as [p Hp].
  unfold HandoffBoundaryPolicy_Activate. destruct (b_position b <=? Sequence state); [done|].
  rewrite Hp. cbn. exists p. split; [done|]. unfold NewPrepare in Hp. bind_inv Hp. by ok_inv.
Qed.

(** The positions that move the cursor: each greater than all before it. *)
Fixpoint records (cursor : Z) (positions : list Z) : list Z :=
  match positions with
  | [] => []
  | p :: more => if p <=? cursor then records cursor more else p :: records p more
  end.

Lemma boundary_activations bs state :
  Forall valid_boundary bs ->
  exists s ps, activations bs state = Ok (s, ps) /\
    length ps = length (records (Sequence state) (map b_position bs)) /\
    Sequence s = fold_left Z.max (map b_position bs) (Sequence state).
Proof.
  revert state. induction bs as [|b bs IH]; intros state Hv; cbn [activations].
  { exists state, []. done. }
  inversion Hv as [|? ? Hb Hv']; subst. pose proof (boundary_activate b state Hb) as Hstep.
  cbn [activate HandoffBoundaryPolicy map records fold_left].
  destruct (Z.leb_spec (b_position b) (Sequence state)) as [Hle|Hlt].
  - rewrite Hstep. cbn [bind t_state t_actions]. destruct (IH state Hv') as (s & ps & E & E1 & E2).
    rewrite E. cbn. eexists _, _. split; [reflexivity|]. split; [done|]. by rewrite Z.max_l by lia.
  - destruct Hstep as (p & E0 & _). rewrite E0. cbn [bind t_state t_actions].
    destruct (IH (NewCursor (b_position b)) Hv') as (s & ps & E & E1 & E2).
    rewrite E. cbn in *. eexists _, _. split; [reflexivity|]. cbn. split; [by rewrite E1|].
    by rewrite Z.max_r by lia.
Qed.
