(* ===== verification/MemoryApplication.v ===== *)
(** * The Memory application of a runtime ([internal/runtime] memory_application.go,
    memory_commands.go, memory_queries.go, memory_types.go)

    The commands and queries of one scope, after their admission (Runtime.v): each
    takes the database of the scope, and a command returns it as it left it, which
    may have changed although the command reports an error.  Pages are values, so
    that cloning them is the identity. *)

From S2P Require Import Prelude.
From S2P Require Import GoStrings.
From S2P Require Import Refs.
From S2P Require Import Json.
From S2P Require Import MemoryModel.
From S2P Require Import MemoryService.
From S2P Require Import MemorySearch.
From S2P Require Import Trigger.

Inductive app_error :=
| AMemory (e : mem_error)
| AState (code : string)             (** [StateError] *)
| AArgument (what : string)
| AStore (what : string).            (** of the store of windows *)

#[export] Instance app_error_eq_dec : EqDecision app_error.
Proof. solve_decision. Defined.

Abbreviation ares := (result app_error).

Definition of_memory {A} : mres A -> ares A := map_err AMemory.

(** ** Values *)

Record RememberMemoryRequest := MkRemember {
  rm_Kind : string; rm_Text : string; rm_Reason : option string; rm_ExpectedRevision : option Z
}.
Record MemoryEntryRecord := MkRecord { er_MemoryRef : Ref; er_State : EntryState; er_Entry : EntryVersion }.
Record MemoryMutationResult := MkMutation {
  mu_PreviousRevision : option Z; mu_MemoryRef : Ref; mu_Entry : option MemoryEntryRecord
}.
Record MemoryEntriesPage := MkEntriesPage { ep_MemoryRef : option Ref; ep_Entries : list MemoryEntryRecord }.
Record MemorySearchPage := MkSearchPage {
  sp_MemoryRef : option Ref; sp_Mode : option SearchMode; sp_Hits : list Hit; sp_Rerank : option RerankTrace
}.
Record MemoryChangesPage := MkChangesPage { cp_MemoryRef : option Ref; cp_Revisions : list RevisionChanges }.
Record MemoryFlushResult := MkFlushResult {
  PreviousCursor : Z; CurrentCursor : Z; HighWatermark : Z; ProcessedSourceCount : Z; fr_MemoryRef : option Ref
}.
Definition Processed (r : MemoryFlushResult) : bool := PreviousCursor r <? CurrentCursor r.

(** ** The store of windows *)

(** What [ObserveWindow] returns. *)
Record ObservedWindow (V : Type) := MkObserved {
  ow_previous : Cursor; ow_next : Cursor; ow_generation : option Z; ow_highWatermark : Z; ow_values : list V
}.
Arguments MkObserved {V}. Arguments ow_previous {V}. Arguments ow_next {V}. Arguments ow_generation {V}.
Arguments ow_highWatermark {V}. Arguments ow_values {V}.

(** [MemoryFlushBackend] over the state [FS] of the store. *)
Class MemoryFlushBackend (FS V : Type) := {
  ObserveWindow : FS -> string -> Z -> ares (ObservedWindow V);
  ApplyWindow : FS -> string -> WritePlan -> Cursor -> option Z -> ares (option Memory) * FS
}.

Definition DefaultMemoryArtifactID : string := "memory".
Definition DefaultSourceWindowLimit : Z := 100.
Definition memorySearchAttempts : nat := 3.
(** [trigger.SourceWindowName] *)
Definition SourceWindowName : string := "memory-source-window".

Section application.
Context {T : Text} {A : Analysis} {V S : Type} {VS : Values V S} {DB : Type} {B : Backend DB} {SB : SearchBackend DB} {I : Type}.

(** [flushes] says whether the scope has a store of windows. *)
Record MemoryApplication := MkApplication {
  services : string -> ares (option (Service V S I));
  flushes : option (string -> ares bool);
  memoryArtifactID : string;
  sourceWindowLimit : Z
}.

Definition NewMemoryApplication (factory : string -> ares (option (Service V S I))) (id : string) : ares MemoryApplication :=
  let id := if String.eqb id "" then DefaultMemoryArtifactID else id in
  let* _ := map_err (fun e => AMemory (ERef e)) (NewRef MemoryModel.Family id 1) in
  Ok (MkApplication factory None id DefaultSourceWindowLimit).

Definition NewMemoryApplicationWithFlush (factory : string -> ares (option (Service V S I))) (windows : string -> ares bool)
  (id : string) (limit : Z) : ares MemoryApplication :=
  require negb (limit <? 1) else AArgument "source_window_limit" in
  let* application := NewMemoryApplication factory id in
  Ok (MkApplication (services application) (Some windows) (memoryArtifactID application) limit).

Context (a : MemoryApplication).
Implicit Types (db : DB) (scope : string).

Definition service scope : ares (Service V S I) :=
  let* found := services a scope in of_option found (AState "memory").

(** ** Reads *)

Definition headOrNone db : ares (option Memory) :=
  match b_Latest db (memoryArtifactID a) with
  | Ok value => Ok (Some value)
  | Err (ENotFound _) => Ok None
  | Err e => Err (AMemory e)
  end.

Definition is_cited (id version : string) (item : ManifestEntry) : bool :=
  String.eqb (entryID item) id && String.eqb (entryVersionID item) version.

Definition citedEntry db (value : Memory) (citation : Citation) : ares EntryVersion :=
  require existsb (is_cited (ci_EntryID citation) (ci_EntryVersionID citation)) (manifest (a_content value))
    else AMemory (EEntryNotFound (ci_EntryID citation)) in
  of_memory (ValidateCitation db citation).

Definition logicalEntry db (value : Memory) (id : string) : ares EntryVersion :=
  let* entries := of_memory (Entries db value) in
  of_option (List.find (fun v => String.eqb (ev_EntryID v) id) entries) (AMemory (EEntryNotFound id)).

Definition entryRecord (value : Memory) (entry : EntryVersion) : ares MemoryEntryRecord :=
  match List.find (is_cited (ev_EntryID entry) (ev_EntryVersionID entry)) (manifest (a_content value)) with
  | Some item => Ok (MkRecord (a_ref value) (state item) entry)
  | None => Err (AMemory (EEntryNotFound (ev_EntryID entry)))
  end.

Definition lastChangedEntry db (value : Memory) : ares (option MemoryEntryRecord) :=
  match last (changes (a_content value)) with
  | None => Ok None
  | Some change =>
      let* entry := logicalEntry db value (c_entryID change) in
      let* record := entryRecord value entry in
      Ok (Some record)
  end.

Definition currentCitation db (citation : Citation) : ares (Memory * EntryVersion) :=
  let* current := of_memory (b_Latest db (memoryArtifactID a)) in
  require String.eqb (artifactID (ci_MemoryRef citation)) (artifactID (a_ref current))
    else AMemory (ENotFound (ci_MemoryRef citation)) in
  require bool_decide (ci_MemoryRef citation = a_ref current)
    else AMemory (ERevisionConflict (ci_MemoryRef citation) (a_ref current)) in
  let* entry := citedEntry db current citation in
  Ok (current, entry).

Definition validateExpectedRevision (current : option Memory) (expected : option Z) : ares unit :=
  match expected with
  | None => Ok tt
  | Some n =>
      let* requested := map_err (fun e => AMemory (ERef e)) (NewRef MemoryModel.Family (memoryArtifactID a) n) in
      match current with
      | None => Err (AMemory (ENotFound requested))
      | Some current =>
          require revision (a_ref current) =? n else AMemory (ERevisionConflict requested (a_ref current)) in Ok tt
      end
  end.

(** ** Commands *)

(** The reads of a command, then its write, then what it reads for its result. *)
Definition after_write {X R} (written : DB * mres X) (k : DB -> X -> ares R) : DB * ares R :=
  let (db', r) := written in
  (db', let* x := of_memory r in k db' x).

Definition Remember db scope (request : RememberMemoryRequest) (ids : I) : DB * ares MemoryMutationResult :=
  match (let* svc := service scope in
         let* current := headOrNone db in
         let* _ := validateExpectedRevision current (rm_ExpectedRevision request) in
         Ok (svc, current)) with
  | Err e => (db, Err e)
  | Ok (svc, current) =>
      let input := MkInput None (rm_Kind request) (rm_Text request) [] [] (rm_Reason request) in
      after_write (MemoryService.Remember svc db current [] [] [input] RememberAppend ids) (fun db' updated =>
        let* updated := of_option updated (AState "empty-write") in
        let previous := option_map (fun c => revision (a_ref c)) current in
        let* entry := if bool_decide (option_map a_ref current = Some (a_ref updated)) then Ok None
                      else lastChangedEntry db' updated in
        Ok (MkMutation previous (a_ref updated) entry))
  end.

(** A service, and the current head with a cited entry of it. *)
Definition cited db scope (citation : Citation) : ares (Service V S I * Memory * EntryVersion) :=
  let* svc := service scope in
  let* ' (current, entry) := currentCitation db citation in
  Ok (svc, current, entry).

(** The record of an entry in the revision that a command wrote. *)
Definition mutated db' (current updated : Memory) (id : string) : ares MemoryMutationResult :=
  let* entry := logicalEntry db' updated id in
  let* record := entryRecord updated entry in
  Ok (MkMutation (Some (revision (a_ref current))) (a_ref updated) (Some record)).

Definition Revise db scope (citation : Citation) (kind text : string) (reason : option string) (ids : I)
  : DB * ares MemoryMutationResult :=
  match cited db scope citation with
  | Err e => (db, Err e)
  | Ok (svc, current, entry) =>
      let input := MkInput (Some entry) kind text [] [] reason in
      after_write (MemoryService.Remember svc db (Some current) [] [] [input] RememberAppend ids) (fun db' updated =>
        let* updated := of_option updated (AState "empty-write") in
        mutated db' current updated (ev_EntryID entry))
  end.

Definition Retire db scope (citation : Citation) (reason : option string) : DB * ares MemoryMutationResult :=
  match cited db scope citation with
  | Err e => (db, Err e)
  | Ok (svc, current, entry) =>
      after_write (Forget svc db current [entry] reason) (fun db' updated => mutated db' current updated (ev_EntryID entry))
  end.

(** ** Queries *)

Definition List_ db scope (includeInactive : bool) : ares MemoryEntriesPage :=
  let* _ := service scope in
  let* current := headOrNone db in
  match current with
  | None => Ok (MkEntriesPage None [])
  | Some current =>
      let* entries := of_memory (Entries db current) in
      let* records := map_res (entryRecord current) entries in
      Ok (MkEntriesPage (Some (a_ref current))
            (List.filter (fun r => includeInactive || bool_decide (er_State r = Active)) records))
  end.

Definition Get db scope (citation : Citation) : ares MemoryEntryRecord :=
  let* _ := service scope in
  let* value := of_memory (b_Get db (ci_MemoryRef citation)) in
  require String.eqb (artifactID (a_ref value)) (memoryArtifactID a) else AMemory (ENotFound (ci_MemoryRef citation)) in
  let* entry := citedEntry db value citation in
  entryRecord value entry.

Definition Changes db scope (since : option Z) : ares MemoryChangesPage :=
  let* _ := service scope in
  let* current := headOrNone db in
  match current with
  | None => Ok (MkChangesPage None [])
  | Some current =>
      let* revisions := of_memory (MemoryService.Changes db current since) in
      Ok (MkChangesPage (Some (a_ref current)) revisions)
  end.

Definition isStaleMemorySearch (e : mem_error) : bool :=
  match e with
  | ECapability capability _ => String.eqb capability "head"
  | EInvalidCitation code => String.eqb code "memory-mismatch"
  | _ => false
  end.

(** One attempt reads three states of the store; [search] is the search of the
    service, [attempts] those that are left after this one. *)
Fixpoint searchWithService (search : DB -> Memory -> mres SearchResult) (attempts : nat) (reads : list (DB * DB * DB))
  : ares MemorySearchPage :=
  match reads with
  | [] => Err (AState "no more reads")
  | (db1, db2, db3) :: more =>
      let* current := headOrNone db1 in
      match current with
      | None => Ok (MkSearchPage None None [] None)
      | Some current =>
          match search db2 current with
          | Ok found => Ok (MkSearchPage (Some (a_ref current)) (Some (sr_Mode found)) (sr_Hits found) (sr_Rerank found))
          | Err e =>
              let* latest := headOrNone db3 in
              match latest with
              | Some latest =>
                  if negb (isStaleMemorySearch e) || bool_decide (a_ref latest = a_ref current) then Err (AMemory e)
                  else
                    match attempts with
                    | O => Err (AMemory (ERevisionConflict (a_ref current) (a_ref latest)))
                    | Datatypes.S attempts => searchWithService search attempts more
                    end
              | None => Err (AMemory e)
              end
          end
      end
  end.

Definition Search (reranker : option Reranker) (rerankCandidateLimit : Z)
  (iterate : gmap hitIdentity ChannelHit -> list hitIdentity) scope (query : string) (limit : Z) (mode : SearchMode) (clock : Z)
  (reads : list (DB * DB * DB)) : ares MemorySearchPage :=
  let* svc := service scope in
  searchWithService (fun db current => MemorySearch.Search svc reranker rerankCandidateLimit iterate db query [current] limit mode clock)
    (pred memorySearchAttempts) reads.

(** ** Windows *)

(** [seen] is the store that is observed, [db] the Memory that is planned from, and
    [st] the store that the window is applied to: other writers come between. *)
Definition flushWindow {FS} `{MemoryFlushBackend FS V} (seen : FS) db (st : FS) scope (ids : I) : ares MemoryFlushResult * FS :=
  match (let* factory := of_option (flushes a) (AState "memory-flush") in
         let* present := factory scope in
         require (present : bool) else AState "memory-flush" in
         ObserveWindow seen SourceWindowName (sourceWindowLimit a)) with
  | Err e => (Err e, st)
  | Ok w =>
      let result r := MkFlushResult (Sequence (ow_previous w)) (Sequence (ow_next w)) (ow_highWatermark w)
                        (Z.of_nat (length (ow_values w))) r in
      if Sequence (ow_next w) =? Sequence (ow_previous w) then (Ok (result None), st)
      else
        match (let* svc := service scope in
               let* current := headOrNone db in
               of_memory (PlanRemember svc db current (ow_values w) [] [] RememberExtract ids)) with
        | Err e => (Err e, st)
        | Ok (plan, _) =>
            let (applied, st') := ApplyWindow st SourceWindowName plan (ow_next w) (ow_generation w) in
            (let* updated := applied in Ok (result (option_map a_ref updated)), st')
        end
  end.
End application.
Arguments MemoryApplication : clear implicits.
