(* ===== verification/CursorStore.v ===== *)
(** * Source cursors ([internal/sqlstore/cursors.go])

    One cursor per scope and binding, with a generation that every save raises:
    a save names the generation that it replaces, so that it fails when another
    save came between. *)

From S2P Require Import Prelude.
From S2P Require Import GoStrings.
From S2P Require Import Refs.
From S2P Require Import Json.
From S2P Require Import JsonText.
From S2P Require Import JsonWriter.
From S2P Require Import Sql.
From S2P Require Import Handoff.
From S2P Require Import HandoffCodec.
From S2P Require Import Trigger.

Record StoredSourceCursor := MkStoredCursor {
  sc_scope : string; sc_binding : string; sc_cursor : Cursor; sc_generation : Z
}.

(** [pc_source_cursors]: the payload and the generation of a scope and a binding. *)
Notation CursorRows := (gmap (string * string) (bytes * Z)).

(** [source.MaxBindingNameLength] *)
Definition MaxBindingNameLength : Z := 128.

(** ** Payloads *)

Definition cursor_json (c : Cursor) : json := JObj [("sequence"%string, JInt (Sequence c))].
Definition encode_cursor (c : Cursor) : bytes := marshalJSON (cursor_json c).

Arguments encode_cursor : simpl never.

Definition decodeSourceCursor (payload : bytes) : dres Cursor :=
  let* tree := of_option (read_json false payload) DSyntax in
  let* fields := as_fields tree in
  match field "sequence" fields with
  | None => Ok (NewCursor 0)
  | Some VNull => Err DType
  | Some raw => let* n := into_int64 0 raw in Ok (NewCursor n)
  end.

(** ** The repository *)

Section cursors.
Context {T : Type} {H : Holds T CursorRows}.

Definition insert_cursor (scope binding : string) (payload : bytes) (generation : Z) : txn T unit :=
  on (fun rows : CursorRows =>
    require bool_decide (rows !! (scope, binding) = None) && (0 <=? generation) else SIntegrity in
    Ok (tt, <[(scope, binding) := (payload, generation)]> rows)).

(** [UPDATE pc_source_cursors ... AND generation = ?]: the rows it changed. *)
Definition update_cursor (scope binding : string) (payload : bytes) (generation expected : Z) : txn T Z :=
  on (fun rows : CursorRows =>
    match rows !! (scope, binding) with
    | Some (_, current) =>
        if current =? expected then
          require 0 <=? generation else SIntegrity in
          Ok (1, <[(scope, binding) := (payload, generation)]> rows)
        else Ok (0, rows)
    | None => Ok (0, rows)
    end).

Definition Load (scope binding : string) : txn T (option StoredSourceCursor) :=
  let! _ := tx_lift (requireIdentifier "scope_id" scope 256) in
  let! _ := tx_lift (requireIdentifier "binding_name" binding MaxBindingNameLength) in
  let! row := read (fun rows : CursorRows => rows !! (scope, binding)) in
  match row with
  | None => tx_ret None
  | Some (payload, generation) =>
      let! cursor := tx_lift (map_err (fun _ => SPayload "payload does not match the model") (decodeSourceCursor payload)) in
      tx_ret (Some (MkStoredCursor scope binding cursor generation))
  end.

Definition Save (scope binding : string) (cursor : Cursor) (expected : option Z) : txn T StoredSourceCursor :=
  let! _ := tx_lift (requireIdentifier "scope_id" scope 256) in
  let! _ := tx_lift (requireIdentifier "binding_name" binding MaxBindingNameLength) in
  need match expected with Some g => negb (g <? 1) | None => true end else SArgument "expected_generation" in
  let payload := encode_cursor cursor in
  match expected with
  | None =>
      let! inserted := tx_try (insert_cursor scope binding payload 1) in
      match inserted with
      | Ok _ => tx_ret (MkStoredCursor scope binding cursor 1)
      | Err cause =>
          let! existing := tx_try (Load scope binding) in
          match existing with
          | Ok (Some existing) => tx_err (SGeneration binding None (Some (sc_generation existing)))
          | _ => tx_err cause
          end
      end
  | Some g =>
      let generation := wrap64 (g + 1) in
      let! affected := update_cursor scope binding payload generation g in
      if affected =? 1 then tx_ret (MkStoredCursor scope binding cursor generation)
      else
        let! existing := Load scope binding in
        tx_err (SGeneration binding (Some g) (option_map sc_generation existing))
  end.
End cursors.

(** ** Facts *)

Lemma cursor_wire_ok c : names_unique (cursor_json c) /\ (nesting (cursor_json c) <= max_depth)%nat.
Proof.
  split.
  - apply names_unique_obj. split; [apply NoDup_singleton|]. repeat constructor.
  - transitivity 1%nat; [reflexivity|]. unfold max_depth. apply Nat.leb_le. reflexivity.
Qed.

(** A cursor is read back as it was written. *)
Lemma decode_encode_cursor c : in_int64 (Sequence c) -> decodeSourceCursor (encode_cursor c) = Ok c.
Proof.
  intros Hc. unfold decodeSourceCursor, encode_cursor, marshalJSON. destruct (cursor_wire_ok c) as [H1 H2].
  rewrite (read_renders false _ _ (json_bytes_renders _ _) H1 H2).
  transitivity (let* n := into_int64 0 (VNumber (bytes_of (pretty (Sequence c)))) in Ok (NewCursor n) : dres Cursor); [reflexivity|].
  unfold into_int64. rewrite parse_int64_pretty by exact Hc. by destruct c.
Qed.

Section cursor_facts.
Context {T : Type} {H : Holds T CursorRows}.
Implicit Types (s : SessionOf T).

(** The cursor of a row, when it can be read. *)
Definition cursor_row (t : T) (scope binding : string) : option (bytes * Z) := (rows t : CursorRows) !! (scope, binding).

Lemma Load_ok scope binding s o s' :
  Load scope binding s = (Ok o, s') ->
  tables s' = tables s /\
  match cursor_row (tables s) scope binding with
  | None => o = None
  | Some (payload, g) => exists c, decodeSourceCursor payload = Ok c /\ o = Some (MkStoredCursor scope binding c g)
  end.
Proof.
  unfold Load, cursor_row. intros E. tx_inv E. tx_pure. apply read_ok in Ha1 as [-> Et]. cbn beta in *.
  destruct ((rows (tables s) : CursorRows) !! (scope, binding)) as [[payload g]|].
  - tx_inv E. tx_pure. split; [done|]. by eexists.
  - apply tx_ret_ok in E as [<- ->]. done.
Qed.

(** What a save that succeeds did: it replaced exactly the generation it names. *)
Lemma Save_ok scope binding cursor expected s st s' :
  match expected with Some g => g <= max_int64 | None => True end ->
  Save scope binding cursor expected s = (Ok st, s') ->
  let next := match expected with Some g => g + 1 | None => 1 end in
  option_map snd (cursor_row (tables s) scope binding) = expected /\
  match expected with Some g => 1 <= g < max_int64 | None => True end /\
  st = MkStoredCursor scope binding cursor next /\
  tables s' = with_rows (<[(scope, binding) := (encode_cursor cursor, next)]> (rows (tables s) : CursorRows)) (tables s).
Proof.
  unfold Save, cursor_row. intros Hg E. tx_inv E. tx_pure. destruct expected as [g|]; cbn zeta.
  - apply negb_true_iff, Z.ltb_ge in Ha1. destruct (decide (g = max_int64)) as [->|Hne].
    { exfalso. cbv zeta in E. change (wrap64 (max_int64 + 1)) with min_int64 in E. tx_inv E. apply on_ok in Ha2 as (r & Er & _).
      destruct ((rows (tables s) : CursorRows) !! (scope, binding)) as [[p cur]|]; [destruct (cur =? max_int64); [done|]|];
        injection Er as <- _; cbn [Z.eqb] in E; tx_inv E; done. }
    rewrite wrap64_id in E by (unfold in_int64, min_int64, max_int64 in *; lia).
    tx_inv E. apply on_ok in Ha2 as (r & Er & Et). destruct ((rows (tables s) : CursorRows) !! (scope, binding)) as [[p cur]|] eqn:Erow.
    + destruct (Z.eqb_spec cur g) as [->|Hcur].
      * bind_inv Er. injection Er as <- <-. apply tx_ret_ok in E as [<- ->]. split; [reflexivity|]. split; [lia|]. split; [reflexivity|exact Et].
      * injection Er as <- <-. cbn [Z.eqb] in E. tx_inv E. done.
    + injection Er as <- <-. cbn [Z.eqb] in E. tx_inv E. done.
  - tx_inv E. apply tx_try_ok in Ha2. destruct a2 as [u|cause]; [|tx_inv E; by repeat case_match].
    apply tx_ret_ok in E as [<- ->]. apply on_ok in Ha2 as (r & Er & Et). bind_inv Er. injection Er as _ Er.
    apply check_ok_inv, andb_prop in Ha2 as [Hn _]. apply bool_decide_eq_true in Hn. rewrite Hn, Er. done.
Qed.

(** Rows that can be read, as every save leaves them. *)
Definition cursors_ok (t : CursorRows) : Prop :=
  forall k payload g, t !! k = Some (payload, g) -> 1 <= g <= max_int64 /\ exists c, decodeSourceCursor payload = Ok c.

Definition read_cursor (stored : bytes * Z) : option (Cursor * Z) :=
  match decodeSourceCursor (fst stored) with Ok c => Some (c, snd stored) | Err _ => None end.

(** The cursor of a binding and its generation. *)
Definition cursor_at (t : T) (scope binding : string) : option (Cursor * Z) := cursor_row t scope binding ≫= read_cursor.

Lemma cursor_at_generation t scope binding :
  cursors_ok (rows t) -> option_map snd (cursor_at t scope binding) = option_map snd (cursor_row t scope binding).
Proof.
  intros Hok. unfold cursor_at, cursor_row. destruct ((rows t : CursorRows) !! (scope, binding)) as [[payload g]|] eqn:E; [|done].
  cbn. destruct (Hok _ _ _ E) as (_ & c & Hc). unfold read_cursor. cbn. by rewrite Hc.
Qed.

(** Loading returns the cursor. *)
Lemma Load_cursor scope binding s o s' :
  Load scope binding s = (Ok o, s') ->
  tables s' = tables s /\ cursor_at (tables s) scope binding = option_map (fun st => (sc_cursor st, sc_generation st)) o.
Proof.
  intros [E H']%Load_ok. split; [done|]. unfold cursor_at. destruct (cursor_row (tables s) scope binding) as [[payload g]|].
  - destruct H' as (c & Hc & ->). cbn. unfold read_cursor. cbn. by rewrite Hc.
  - by rewrite H'.
Qed.

(** A save replaces the generation it names by the next one, and no other row. *)
Lemma Save_cursor scope binding cursor expected s st s' :
  cursors_ok (rows (tables s)) -> in_int64 (Sequence cursor) ->
  match expected with Some g => g <= max_int64 | None => True end ->
  Save scope binding cursor expected s = (Ok st, s') ->
  changed_only CursorRows (tables s) (tables s') /\ cursors_ok (rows (tables s')) /\
  option_map snd (cursor_at (tables s) scope binding) = expected /\
  cursor_at (tables s') scope binding = Some (cursor, match expected with Some g => g + 1 | None => 1 end) /\
  forall sc b, (sc, b) <> (scope, binding) -> cursor_at (tables s') sc b = cursor_at (tables s) sc b.
Proof.
  intros Hok Hc Hg Hs. apply Save_ok in Hs as (H1 & H2 & _ & E); [|done]. rewrite E.
  split; [apply changed_with|]. unfold cursor_at at 2 3. unfold cursor_row. rewrite !rows_with. split; [|split; [|split]].
  - intros k payload g Hk. destruct (decide (k = (scope, binding))) as [->|Hne].
    + rewrite lookup_insert_eq in Hk. injection Hk as <- <-. split; [destruct expected; unfold max_int64 in *; lia|].
      exists cursor. by apply decode_encode_cursor.
    + rewrite lookup_insert_ne in Hk by done. by eapply Hok.
  - by rewrite cursor_at_generation.
  - rewrite lookup_insert_eq. cbn. unfold read_cursor. cbn [fst snd]. by rewrite decode_encode_cursor.
  - intros sc b Hne. by rewrite lookup_insert_ne by congruence.
Qed.

(** The row that a snapshot saw and the row of a later state: a row only moves with
    its generation. *)
Definition older_row (seen now : option (Cursor * Z)) : Prop :=
  match seen, now with
  | None, _ => True
  | Some (c, g), Some (c', g') => g < g' \/ (g = g' /\ c = c')
  | Some _, None => False
  end.

Lemma older_refl o : older_row o o.
Proof. destruct o as [[c g]|]; [by right|done]. Qed.

Lemma older_save seen now c :
  match now with Some (_, g) => 1 <= g | None => True end -> older_row seen now ->
  older_row seen (Some (c, match option_map snd now with Some g => g + 1 | None => 1 end)).
Proof. destruct seen as [[c1 g1]|], now as [[c2 g2]|]; cbn; try done. intros _ [H'|[-> _]]; left; lia. Qed.

(** A snapshot whose generation is still current saw the current row. *)
Lemma older_current seen now : older_row seen now -> option_map snd now = option_map snd seen -> now = seen.
Proof.
  destruct seen as [[c1 g1]|], now as [[c2 g2]|]; cbn; try done. intros [H'|[-> ->]]; [|done]. intros [= ->]. lia.
Qed.
End cursor_facts.
