(* ===== verification/SourceStore.v ===== *)
(** * The Source repository ([internal/sqlstore/sources.go])

    Sources in the journal of their scope: each Source is stored once, at the next
    position of its scope.  A value is stored by the codec of its concrete type;
    the observations of workers, their envelope and their definitions are behind
    the class [Observations]. *)

From S2P Require Import Prelude.
From S2P Require Import GoStrings.
From S2P Require Import Refs.
From S2P Require Import Sql.
From S2P Require Import ArtifactStore.

(** ** Values and codecs *)

(** What a type switch sees of a value, and the constructors of the two wrappers of
    an observation [O]; [dynamic_type] is [reflect.TypeOf]. *)
Class SourceValues (V O : Type) := {
  dynamic_type : V -> string;
  interface_of : V -> Source.Value;
  as_observation : V -> option O;
  as_accepted : V -> option O;
  observation_value : O -> V;
  accepted_value : O -> V
}.

(** What [parseSourceEnvelope] finds in a payload. *)
Inductive Envelope (O : Type) :=
| NoEnvelope | BadEnvelope | NativeEnvelope (payload : bytes) | ObservationEnvelope (o : O).
Arguments NoEnvelope {O}. Arguments BadEnvelope {O}. Arguments NativeEnvelope {O}. Arguments ObservationEnvelope {O}.

(** Observations and their definitions, in the database [T]; looking for a
    definition only reads, and an observation is admitted as it is
    ([source.AdmitObservation] wraps the observation that it checked). *)
Class Observations (T O : Type) := {
  observation_ref : O -> Source.Ref;
  ValidateObservation : O -> result store_error unit;
  encodeSourceObservation : O -> option bytes;
  parseSourceEnvelope : bytes -> Envelope O;
  (** [equalJSONValues] of two payloads *)
  equalJSONValues : bytes -> bytes -> option bool;
  (** [NewDefinitionIdentity], the search for the manifest and
      [source.AdmitObservation] *)
  admitByDefinition : O -> txn T O;
  admit_reads o s r s' : admitByDefinition o s = (r, s') -> tables s' = tables s;
  admit_same o s o' s' : admitByDefinition o s = (Ok o', s') -> o' = o
}.

Record SourceCodec (V : Type) := MkSourceCodec {
  sc_name : string; sc_valueType : string; sc_encode : V -> option bytes; sc_decode : bytes -> option V
}.
Arguments MkSourceCodec {V}. Arguments sc_name {V}. Arguments sc_valueType {V}. Arguments sc_encode {V}. Arguments sc_decode {V}.

Record SourceRepository (V : Type) := MkSourceRepository {
  byName : gmap string (SourceCodec V); bySource : gmap string (SourceCodec V)
}.
Arguments MkSourceRepository {V}. Arguments byName {V}. Arguments bySource {V}.

Definition NewSourceRepository {V} (codecs : list (SourceCodec V)) : result store_error (SourceRepository V) :=
  fold_res (fun repo codec =>
      require bool_decide (byName repo !! sc_name codec = None) else SCodec "source name" in
      require bool_decide (bySource repo !! sc_valueType codec = None) else SCodec "source type" in
      Ok (MkSourceRepository (<[sc_name codec := codec]> (byName repo)) (<[sc_valueType codec := codec]> (bySource repo))))
    (MkSourceRepository ∅ ∅) codecs.

Definition HasNativeDefinition {V} (repo : SourceRepository V) (name : string) : bool :=
  negb (bool_decide (byName repo !! name = None)).

(** ** Tables *)

(** [pc_source_journal_heads], [pc_sources] (payload and position) and
    [pc_source_observation_acceptances]. *)
Record SourceTables := MkSourceTables {
  st_heads : gmap string Z;
  st_sources : gmap (string * Source.Ref) (bytes * Z);
  st_accepted : gset (string * Source.Ref)
}.

Record StoredRow := MkStoredRow { row_ref : Source.Ref; row_payload : bytes; row_position : Z; row_accepted : bool }.

Record StoredSource (V : Type) := MkStoredSource { ss_ref : Source.Ref; ss_value : V; ss_position : Z }.
Arguments MkStoredSource {V}. Arguments ss_ref {V}. Arguments ss_value {V}. Arguments ss_position {V}.

(** The join of a Source with its acceptance. *)
Definition joined (t : SourceTables) (scope : string) (r : Source.Ref) (stored : bytes * Z) : StoredRow :=
  MkStoredRow r (fst stored) (snd stored) (bool_decide ((scope, r) ∈ st_accepted t)).

Definition select_source (t : SourceTables) (scope : string) (r : Source.Ref) : option StoredRow :=
  option_map (joined t scope r) (st_sources t !! (scope, r)).

Definition row_le (a b : StoredRow) : Prop := row_position a <= row_position b.
#[export] Instance row_le_dec : RelDecision row_le := fun a b => Z_le_dec (row_position a) (row_position b).

(** [WHERE scope_id = ? ... ORDER BY journal_position] *)
Definition select_rows (t : SourceTables) (scope : string) (keep : Z -> bool) : list StoredRow :=
  merge_sort row_le
    (omap (fun p => if bool_decide (fst (fst p) = scope) && keep (snd (snd p))
                    then Some (joined t scope (snd (fst p)) (snd p)) else None)
          (map_to_list (st_sources t))).

(** [... AND journal_position > ?] *)
Definition select_after (t : SourceTables) (scope : string) (after : Z) : list StoredRow :=
  select_rows t scope (Z.ltb after).

Section repository.
Context {T V O : Type} {HT : Holds T SourceTables} {SV : SourceValues V O} {OB : Observations T O}.
Implicit Types (repo : SourceRepository V) (scope : string).

(** ** Statements *)

Definition insert_journal_head (scope : string) : txn T unit :=
  on (fun t => require bool_decide (st_heads t !! scope = None) else SIntegrity in
               Ok (tt, MkSourceTables (<[scope := 0]> (st_heads t)) (st_sources t) (st_accepted t))).

(** [UPDATE ... SET position = position + 1]: the rows it changed; a column of 64
    bits. *)
Definition advance_journal_head (scope : string) : txn T Z :=
  on (fun t => match st_heads t !! scope with
               | None => Ok (0, t)
               | Some p =>
                   require (0 <=? p + 1) && (p + 1 <=? max_int64) else SIntegrity in
                   Ok (1, MkSourceTables (<[scope := p + 1]> (st_heads t)) (st_sources t) (st_accepted t))
               end).

Definition position_used (t : SourceTables) (scope : string) (position : Z) : bool :=
  existsb (fun p => bool_decide (fst (fst p) = scope) && (snd (snd p) =? position)) (map_to_list (st_sources t)).

Definition insert_source (scope : string) (r : Source.Ref) (payload : bytes) (position : Z) : txn T unit :=
  on (fun t =>
    require bool_decide (st_sources t !! (scope, r) = None) && negb (position_used t scope position) else SIntegrity in
    Ok (tt, MkSourceTables (st_heads t) (<[(scope, r) := (payload, position)]> (st_sources t)) (st_accepted t))).

Definition insert_acceptance (scope : string) (r : Source.Ref) : txn T Z :=
  on (fun t =>
    require negb (bool_decide ((scope, r) ∈ st_accepted t)) && negb (bool_decide (st_sources t !! (scope, r) = None))
      else SIntegrity in
    Ok (1, MkSourceTables (st_heads t) (st_sources t) ({[(scope, r)]} ∪ st_accepted t))).

(** ** The journal head *)

Definition journal_head (scope : string) : txn T (option Z) := read (fun t => st_heads t !! scope).

Definition lockJournalHead (scope : string) : txn T unit :=
  let! _ := read (fun _ : SourceTables => tt) in
  let! found := journal_head scope in
  let! position := match found with
                   | Some p => tx_ret p
                   | None =>
                       let! inserted := tx_try (insert_journal_head scope) in
                       let! again := tx_try (journal_head scope) in
                       match inserted, again with
                       | _, Ok (Some p) => tx_ret p
                       | Err cause, _ => tx_err cause
                       | Ok _, Err e => tx_err e
                       | Ok _, Ok None => tx_err SDriver
                       end
                   end in
  need 0 <=? position else SColumn "journal_position" in
  tx_ret tt.

Definition nextJournalPosition (scope : string) : txn T Z :=
  let! affected := advance_journal_head scope in
  need affected =? 1 else SColumn "journal_position" in
  let! found := journal_head scope in
  let! position := tx_lift (of_option found SDriver) in
  need 1 <=? position else SColumn "journal_position" in
  tx_ret position.

(** ** Encoding and decoding *)

(** [SourceRepository.Ref] *)
Definition RefOf repo (value : option V) : result store_error Source.Ref :=
  match value with
  | None => Err (SRef InvalidEntry)
  | Some v =>
      match as_observation v, as_accepted v with
      | Some o, _ | None, Some o => let* _ := ValidateObservation o in Ok (observation_ref o)
      | None, None =>
          let* codec := of_option (bySource repo !! dynamic_type v) (SSource "adapter not found") in
          map_err SRef (Source.NewRef (sc_name codec) (Source.SourceName (interface_of v)))
      end
  end.

Definition encode_source repo (v : V) : result store_error (Source.Ref * bytes) :=
  require match as_observation v with Some _ => false | None => true end else SSource "unaccepted observation" in
  let* codec := of_option (bySource repo !! dynamic_type v) (SMissing "source-adapter") in
  let* r := RefOf repo (Some v) in
  let* payload := of_option (sc_encode codec v) (SPayload "value is not JSON serializable") in
  Ok (r, payload).

Definition admitPersistedObservation (o : O) : txn T O :=
  let! _ := tx_lift (ValidateObservation o) in
  admitByDefinition o.

(** [sourceevidence.NewAcceptedObservation] *)
Definition NewAcceptedObservation (o : O) : result store_error V :=
  let* _ := ValidateObservation o in Ok (accepted_value o).

Definition invalidStoredSourceObservation : store_error := SPayload "payload does not match the observation envelope".

Definition decodeNative repo (row : StoredRow) (payload : bytes) : result store_error (StoredSource V) :=
  require negb (row_accepted row) else invalidStoredSourceObservation in
  let* codec := of_option (byName repo !! Source.sourceType (row_ref row)) (SMissing "source-adapter") in
  let* value := of_option (sc_decode codec payload) (SPayload "payload does not match the model") in
  let* indexed := map_err SRef (Source.NewRef (Source.sourceType (row_ref row)) (Source.sourceID (row_ref row))) in
  let* decoded := map_err SRef (Source.NewRef (sc_name codec) (Source.SourceName (interface_of value))) in
  require bool_decide (indexed = decoded) else SIdentity in
  Ok (MkStoredSource indexed value (row_position row)).

Definition decode_source repo (row : StoredRow) : txn T (StoredSource V) :=
  match parseSourceEnvelope (row_payload row) with
  | BadEnvelope => tx_err invalidStoredSourceObservation
  | ObservationEnvelope o =>
      let! indexed := tx_lift (map_err SRef (Source.NewRef (Source.sourceType (row_ref row)) (Source.sourceID (row_ref row)))) in
      need bool_decide (indexed = observation_ref o) else SIdentity in
      if row_accepted row then
        let! admitted := tx_catch (admitPersistedObservation o) (fun _ => tx_err invalidStoredSourceObservation) in
        let! accepted := tx_lift (map_err (fun _ => invalidStoredSourceObservation) (NewAcceptedObservation admitted)) in
        tx_ret (MkStoredSource indexed accepted (row_position row))
      else tx_ret (MkStoredSource indexed (observation_value o) (row_position row))
  | NativeEnvelope payload => tx_lift (decodeNative repo row payload)
  | NoEnvelope => tx_lift (decodeNative repo row (row_payload row))
  end.

(** ** Operations *)

Definition find_source scope (r : Source.Ref) : txn T (option StoredRow) := read (fun t => select_source t scope r).

(** A row that is already there must have the same payload. *)
Definition existing_source repo (row : StoredRow) (payload : bytes) : txn T (StoredSource V) :=
  need bool_decide (row_payload row = payload) else SPayloadConflict "source" in
  decode_source repo row.

Definition Add repo scope (value : V) : txn T (StoredSource V) :=
  let! _ := tx_lift (requireScope scope) in
  let! encoded := tx_lift (encode_source repo value) in
  let '(r, payload) := encoded in
  let! _ := lockJournalHead scope in
  let! found := find_source scope r in
  match found with
  | Some row => existing_source repo row payload
  | None =>
      let! position := nextJournalPosition scope in
      let! inserted := tx_try (insert_source scope r payload position) in
      match inserted with
      | Ok _ => tx_ret (MkStoredSource r value position)
      | Err cause =>
          let! again := tx_try (find_source scope r) in
          match again with
          | Ok (Some row) => existing_source repo row payload
          | _ => tx_err cause
          end
      end
  end.

(** [sameStoredSourcePayload] of an observation *)
Definition sameStoredObservation (stored expected : bytes) : result store_error bool :=
  match parseSourceEnvelope stored with
  | BadEnvelope => Err invalidStoredSourceObservation
  | ObservationEnvelope _ => of_option (equalJSONValues stored expected) invalidStoredSourceObservation
  | _ => Ok false
  end.

Definition existing_observation repo (row : StoredRow) (payload : bytes) : txn T (StoredSource V) :=
  let! equal := tx_lift (sameStoredObservation (row_payload row) payload) in
  need (equal : bool) && row_accepted row else SPayloadConflict "source" in
  decode_source repo row.

Definition markAcceptedObservation scope (r : Source.Ref) : txn T unit :=
  let! affected := insert_acceptance scope r in
  need affected =? 1 else SColumn "observation_acceptance" in
  tx_ret tt.

Definition AddAccepted repo scope (admitted : O) : txn T (StoredSource V) :=
  let! _ := tx_lift (requireScope scope) in
  let! _ := tx_lift (ValidateObservation admitted) in
  let! o := admitPersistedObservation admitted in
  let! payload := tx_lift (of_option (encodeSourceObservation o) (SSource "encode observation")) in
  let r := observation_ref o in
  let! _ := lockJournalHead scope in
  let! found := find_source scope r in
  match found with
  | Some row => existing_observation repo row payload
  | None =>
      let! position := nextJournalPosition scope in
      let! inserted := tx_try (insert_source scope r payload position) in
      match inserted with
      | Ok _ =>
          let! _ := markAcceptedObservation scope r in
          let! value := tx_lift (NewAcceptedObservation o) in
          tx_ret (MkStoredSource r value position)
      | Err cause =>
          let! again := tx_try (find_source scope r) in
          match again with
          | Ok (Some row) => existing_observation repo row payload
          | _ => tx_err cause
          end
      end
  end.

Definition GetSource repo scope (r : Source.Ref) : txn T (StoredSource V) :=
  let! _ := tx_lift (requireScope scope) in
  let! _ := tx_lift (map_err SRef (Source.NewRef (Source.sourceType r) (Source.sourceID r))) in
  let! found := find_source scope r in
  let! row := tx_lift (of_option found (SMissing "source")) in
  decode_source repo row.

Fixpoint decode_sources repo (rows : list StoredRow) : txn T (list (StoredSource V)) :=
  match rows with
  | [] => tx_ret []
  | row :: more =>
      let! decoded := decode_source repo row in
      let! later := decode_sources repo more in
      tx_ret (decoded :: later)
  end.

Definition limited {A} (limit : option Z) (xs : list A) : list A :=
  match limit with Some n => take (Z.to_nat n) xs | None => xs end.

Definition ListSources repo scope (after : Z) (limit : option Z) : txn T (list (StoredSource V)) :=
  let! _ := tx_lift (requireScope scope) in
  need 0 <=? after else SArgument "after" in
  need match limit with Some n => 1 <=? n | None => true end else SArgument "limit" in
  let! selected := read (fun t => limited limit (select_after t scope after)) in
  decode_sources repo selected.

(** [COALESCE(MAX(journal_position), 0)] *)
Definition JournalPosition scope : txn T Z :=
  let! _ := tx_lift (requireScope scope) in
  read (fun t => default 0 (option_map row_position (last (select_rows t scope (fun _ => true))))).
End repository.
