(* ===== verification/SourceStoreFacts.v ===== *)
(** * Lemmas on the Source repository

    The rows of a scope are its journal: dense positions from 1, in order, to
    which a write appends. *)

From S2P Require Import Prelude.
From S2P Require Import GoStrings.
From S2P Require Import Refs.
From S2P Require Import Sql.
From S2P Require Import ArtifactStore.
From S2P Require Import SourceStore.

(** ** Selections *)

Lemma select_rows_in t scope keep row :
  row ∈ select_rows t scope keep <->
  exists r stored, st_sources t !! (scope, r) = Some stored /\ keep (snd stored) = true /\ row = joined t scope r stored.
Proof.
  unfold select_rows. rewrite merge_sort_Permutation, list_elem_of_omap. split.
  - intros ([[sc r] stored] & Hin & H). cbn in H. apply elem_of_map_to_list in Hin.
    case_bool_decide as Es; [|done]. subst sc. cbn in H. destruct (keep (snd stored)) eqn:Ek; [|done]. injection H as <-. by exists r, stored.
  - intros (r & stored & Hr & Hk & ->). exists ((scope, r), stored). split; [by apply elem_of_map_to_list|].
    cbn. by rewrite bool_decide_eq_true_2, Hk.
Qed.

Lemma select_rows_sorted t scope keep : StronglySorted row_le (select_rows t scope keep).
Proof. apply StronglySorted_merge_sort; [intros ? ? ?; unfold row_le; lia|intros ? ?; unfold row_le; lia]. Qed.

(** The positions of a scope are used once, from 1 to its head, and a Source that
    was accepted is there. *)
Record journal_ok (t : SourceTables) : Prop := {
  jo_heads scope :
    match st_heads t !! scope with
    | None => forall r, st_sources t !! (scope, r) = None
    | Some n => 0 <= n <= max_int64 /\
        forall p, (exists r payload, st_sources t !! (scope, r) = Some (payload, p)) <-> 1 <= p <= n
    end;
  jo_once scope r r' payload payload' p :
    st_sources t !! (scope, r) = Some (payload, p) -> st_sources t !! (scope, r') = Some (payload', p) -> r = r';
  jo_accepted scope r : (scope, r) ∈ st_accepted t -> is_Some (st_sources t !! (scope, r))
}.

(** The journal of a scope. *)
Definition journal (t : SourceTables) (scope : string) : list StoredRow := select_after t scope 0.

Definition head_of (t : SourceTables) (scope : string) : Z := default 0 (st_heads t !! scope).

Lemma row_unique t scope keep a b :
  journal_ok t -> a ∈ select_rows t scope keep -> b ∈ select_rows t scope keep -> row_le a b -> row_le b a -> a = b.
Proof.
  intros Hj (r & [pa a'] & Ha & _ & ->)%select_rows_in (r' & [pb b'] & Hb & _ & ->)%select_rows_in H1 H2.
  unfold row_le, joined in *. cbn in *. assert (a' = b') by lia. subst b'.
  assert (r = r') by (by eapply (jo_once _ Hj)). subst r'. by rewrite Ha in Hb; injection Hb as ->.
Qed.

Lemma select_rows_NoDup t scope keep : NoDup (select_rows t scope keep).
Proof.
  unfold select_rows. rewrite merge_sort_Permutation.
  assert (H : NoDup (map fst (map_to_list (st_sources t)))) by apply NoDup_fst_map_to_list.
  induction (map_to_list (st_sources t)) as [|[[sc r] stored] l IH]; [constructor|]. cbn in *. inversion_clear H as [|? ? H1 H2].
  case_bool_decide as Es; cbn; [|by apply IH]. destruct (keep (snd stored)); cbn; [|by apply IH].
  constructor; [|by apply IH]. intros Hin. apply H1. subst sc.
  apply list_elem_of_omap in Hin as ([[sc' r'] stored'] & Hin & E). cbn in E.
  case_bool_decide as Es; cbn in E; [|done]. destruct (keep (snd stored')); [|done]. injection E as E _ _ _. subst.
  apply list_elem_of_fmap. by exists ((scope, r), stored').
Qed.

(** A sorted list of the rows of a selection is that selection. *)
Lemma select_eq t scope keep l :
  journal_ok t -> NoDup l -> StronglySorted row_le l -> (forall row, row ∈ l <-> row ∈ select_rows t scope keep) ->
  l = select_rows t scope keep.
Proof.
  intros Hj Hn Hs He. apply (StronglySorted_unique_strong row_le); [|done|apply select_rows_sorted|].
  - intros a b Ha%He Hb. by apply (row_unique t scope keep).
  - apply NoDup_Permutation; [done|apply select_rows_NoDup|done].
Qed.

Lemma StronglySorted_filter {A} (R : A -> A -> Prop) (P : A -> Prop) `{forall x, Decision (P x)} l :
  StronglySorted R l -> StronglySorted R (filter P l).
Proof.
  induction 1 as [|x l Hs IH Hf]; [constructor|]. rewrite filter_cons. case_decide; [|done]. constructor; [done|].
  rewrite Forall_forall in *. intros y Hy. apply list_elem_of_filter in Hy as [_ Hy]. by apply Hf.
Qed.

Lemma positions_positive t scope r payload p : journal_ok t -> st_sources t !! (scope, r) = Some (payload, p) -> 1 <= p <= head_of t scope.
Proof.
  intros Hj Hr. pose proof (jo_heads _ Hj scope) as Hh. unfold head_of. destruct (st_heads t !! scope) as [n|]; [|by rewrite Hh in Hr].
  destruct Hh as [_ Hh]. cbn. apply Hh. by eauto.
Qed.

(** A window of the journal is what the selection after its start returns. *)
Lemma select_after_filter t scope after :
  journal_ok t -> select_after t scope after = filter (fun row => after < row_position row) (journal t scope).
Proof.
  intros Hj. symmetry. apply select_eq; [done|apply NoDup_filter, select_rows_NoDup|apply StronglySorted_filter, select_rows_sorted|].
  intros row. rewrite list_elem_of_filter. unfold journal, select_after. rewrite !select_rows_in. split.
  - intros (Hlt & r & [payload p] & Hr & _ & ->). exists r, (payload, p). split; [done|]. split; [|done]. by apply Z.ltb_lt.
  - intros (r & [payload p] & Hr & Hk & ->). apply Z.ltb_lt in Hk. split; [exact Hk|]. exists r, (payload, p).
    split; [done|]. split; [|done]. apply Z.ltb_lt. cbn. pose proof (positions_positive _ _ _ _ _ Hj Hr). lia.
Qed.

Lemma head_nonneg t scope : journal_ok t -> 0 <= head_of t scope <= max_int64.
Proof.
  intros Hj. pose proof (jo_heads _ Hj scope) as Hh. unfold head_of. destruct (st_heads t !! scope) as [n|]; [by destruct Hh|].
  cbn. unfold max_int64. lia.
Qed.

Lemma StronglySorted_map {A} (f : A -> Z) (R : A -> A -> Prop) l :
  (forall a b, R a b -> f a <= f b) -> StronglySorted R l -> StronglySorted Z.le (map f l).
Proof.
  intros HR. induction 1 as [|x l Hs IH Hf]; [constructor|]. cbn. constructor; [done|]. rewrite List.Forall_map.
  eapply Forall_impl; [exact Hf|]. intros y. apply HR.
Qed.

(** The journal has the positions from 1 to the head, in order. *)
Lemma journal_positions t scope :
  journal_ok t -> map row_position (journal t scope) = map (fun i => Z.of_nat i + 1) (seq 0 (Z.to_nat (head_of t scope))).
Proof.
  intros Hj. pose proof (head_nonneg t scope Hj) as Hn.
  apply (StronglySorted_unique_strong Z.le); [intros; lia| | |].
  - eapply StronglySorted_map; [|apply select_rows_sorted]. by intros a b.
  - clear. generalize 0%nat as j. induction (Z.to_nat (head_of t scope)) as [|k IH]; intros j; cbn; constructor; [apply IH|].
    apply List.Forall_map, Forall_forall. intros i Hi. apply elem_of_seq in Hi. lia.
  - apply NoDup_Permutation.
    + apply NoDup_fmap_2_strong; [|apply select_rows_NoDup]. intros a b Ha Hb E. eapply row_unique; [done|exact Ha|exact Hb|..]; unfold row_le; lia.
    + apply (NoDup_fmap_2_strong (fun i => Z.of_nat i + 1)); [lia|apply NoDup_seq].
    + intros p. rewrite !list_elem_of_fmap. split.
      * intros (row & -> & (r & [payload q] & Hr & _ & ->)%select_rows_in). pose proof (positions_positive _ _ _ _ _ Hj Hr).
        exists (Z.to_nat (q - 1)). cbn. split; [lia|]. apply elem_of_seq. lia.
      * intros (i & -> & Hi%elem_of_seq). pose proof (jo_heads _ Hj scope) as Hh. unfold head_of in *.
        destruct (st_heads t !! scope) as [n|]; cbn in *; [|lia]. destruct Hh as [_ Hh].
        destruct (proj2 (Hh (Z.of_nat i + 1)) ltac:(lia)) as (r & payload & Hr).
        exists (joined t scope r (payload, Z.of_nat i + 1)). split; [done|]. apply select_rows_in. eexists _, _. split; [exact Hr|].
        split; [|done]. apply Z.ltb_lt. cbn. lia.
Qed.

Lemma journal_length t scope : journal_ok t -> Z.of_nat (length (journal t scope)) = head_of t scope.
Proof.
  intros Hj. pose proof (head_nonneg t scope Hj). pose proof (f_equal length (journal_positions t scope Hj)) as E.
  rewrite !length_map, length_seq in E. rewrite E. lia.
Qed.

Lemma journal_lookup t scope i row :
  journal_ok t -> journal t scope !! i = Some row -> row_position row = Z.of_nat i + 1.
Proof.
  intros Hj Hi. pose proof (journal_positions t scope Hj) as E. apply (f_equal (fun l => l !! i)) in E.
  rewrite !list_lookup_fmap, Hi in E. cbn in E. destruct (seq _ _ !! i) as [k|] eqn:Ek; [|done].
  apply lookup_seq in Ek as [-> _]. by injection E.
Qed.

(** The rows after a position. *)
Lemma filter_positions (l : list StoredRow) (n after : Z) :
  0 <= n -> 0 <= after -> map row_position l = map (fun i => Z.of_nat i + 1) (seq 0 (Z.to_nat n)) ->
  filter (fun row => after < row_position row) l = drop (Z.to_nat after) l.
Proof.
  intros Hn Ha E.
  assert (Hi : forall i row, l !! i = Some row -> row_position row = Z.of_nat i + 1).
  { intros i row Hr. apply (f_equal (fun xs => xs !! i)) in E. rewrite !list_lookup_fmap, Hr in E. cbn in E.
    destruct (seq _ _ !! i) as [k|] eqn:Ek; [|done]. apply lookup_seq in Ek as [-> _]. by injection E. }
  clear E. revert Hi. cut (forall k, (forall i row, l !! i = Some row -> row_position row = Z.of_nat (k + i) + 1) ->
    filter (fun row => after < row_position row) l = drop (Z.to_nat after - k) l).
  { intros H Hi. rewrite (H 0%nat); [by rewrite Nat.sub_0_r|]. intros i row. apply Hi. }
  induction l as [|x l IH]; intros k Hi; [by rewrite drop_nil|]. rewrite filter_cons.
  pose proof (Hi 0%nat x eq_refl) as Hx. rewrite (IH (S k)) by (intros i row Hr; rewrite (Hi (S i) row Hr); lia).
  case_decide.
  - rewrite (proj2 (Nat.sub_0_le _ _)) by lia. rewrite (proj2 (Nat.sub_0_le _ _)) by lia. done.
  - destruct (Z.to_nat after - k)%nat as [|m] eqn:Em; [lia|]. cbn. f_equal. lia.
Qed.

(** ** Writes *)

Definition with_source (t : SourceTables) (scope : string) (r : Source.Ref) (payload : bytes) (accepted : bool) : SourceTables :=
  let n := head_of t scope + 1 in
  MkSourceTables (<[scope := n]> (st_heads t)) (<[(scope, r) := (payload, n)]> (st_sources t))
                 (if accepted then {[(scope, r)]} ∪ st_accepted t else st_accepted t).

Section write.
Context (t : SourceTables) (scope : string) (r : Source.Ref) (payload : bytes) (accepted : bool).
Context (Hj : journal_ok t) (Hnew : st_sources t !! (scope, r) = None) (Hroom : head_of t scope + 1 <= max_int64).
Notation n := (head_of t scope + 1).
Notation t' := (with_source t scope r payload accepted).

Lemma with_source_accepted sc r' : (sc, r') <> (scope, r) -> (sc, r') ∈ st_accepted t' <-> (sc, r') ∈ st_accepted t.
Proof. intros Hne. cbn. destruct accepted; [|done]. rewrite elem_of_union, elem_of_singleton. naive_solver. Qed.

Lemma with_source_ok : journal_ok t'.
Proof.
  pose proof (head_nonneg t scope Hj) as Hn. split.
  - intros sc. cbn. destruct (decide (sc = scope)) as [->|Hne].
    + rewrite lookup_insert_eq. split; [lia|]. intros p. pose proof (jo_heads _ Hj scope) as Hh. split.
      * intros (r' & payload' & Hr'). destruct (decide (r' = r)) as [->|Hr].
        { rewrite lookup_insert_eq in Hr'. injection Hr' as _ <-. lia. }
        rewrite lookup_insert_ne in Hr' by congruence. pose proof (positions_positive _ _ _ _ _ Hj Hr'). lia.
      * intros Hp. destruct (decide (p = n)) as [->|Hpn]; [exists r, payload; by rewrite lookup_insert_eq|].
        unfold head_of in *. destruct (st_heads t !! scope) as [m|]; cbn in *; [|lia]. destruct Hh as [_ Hh].
        destruct (proj2 (Hh p) ltac:(lia)) as (r' & payload' & Hr'). exists r', payload'. rewrite lookup_insert_ne; [done|]. intros [= <-]. congruence.
    + rewrite lookup_insert_ne by done. pose proof (jo_heads _ Hj sc) as Hh. destruct (st_heads t !! sc) as [m|].
      * destruct Hh as [Hm Hh]. split; [done|]. intros p. rewrite <- Hh. split; intros (r' & payload' & Hr'); exists r', payload'.
        { by rewrite lookup_insert_ne in Hr' by congruence. } { by rewrite lookup_insert_ne by congruence. }
      * intros r'. rewrite lookup_insert_ne by congruence. apply Hh.
  - intros sc r1 r2 p1 p2 p H1 H2. cbn in H1, H2. destruct (decide (sc = scope)) as [->|Hne].
    + destruct (decide (r1 = r)) as [->|H1r], (decide (r2 = r)) as [->|H2r]; [done|..].
      * rewrite lookup_insert_eq in H1. injection H1 as _ <-. rewrite lookup_insert_ne in H2 by congruence.
        pose proof (positions_positive _ _ _ _ _ Hj H2). lia.
      * rewrite lookup_insert_eq in H2. injection H2 as _ <-. rewrite lookup_insert_ne in H1 by congruence.
        pose proof (positions_positive _ _ _ _ _ Hj H1). lia.
      * rewrite lookup_insert_ne in H1, H2 by congruence. by eapply (jo_once _ Hj).
    + rewrite lookup_insert_ne in H1, H2 by congruence. by eapply (jo_once _ Hj).
  - intros sc r' Ha. cbn -[st_accepted]. destruct (decide ((sc, r') = (scope, r))) as [[= -> ->]|Hne]; [by rewrite lookup_insert_eq|].
    rewrite lookup_insert_ne by congruence. apply (jo_accepted _ Hj). by apply with_source_accepted.
Qed.

Lemma joined_other sc r' stored : (sc, r') <> (scope, r) -> joined t' sc r' stored = joined t sc r' stored.
Proof. intros Hne. unfold joined. f_equal. apply bool_decide_ext. by apply with_source_accepted. Qed.

Definition new_row : StoredRow := MkStoredRow r payload n accepted.

Lemma joined_new : joined t' scope r (payload, n) = new_row.
Proof.
  unfold joined, new_row. cbn. f_equal. destruct accepted.
  - apply bool_decide_eq_true_2. set_solver.
  - apply bool_decide_eq_false_2. intros Ha. apply (jo_accepted _ Hj) in Ha. rewrite Hnew in Ha. by destruct Ha.
Qed.

(** The journal of the scope has one row more, at its end; no other changes. *)
Lemma journal_append :
  journal t' scope = journal t scope ++ [new_row] /\ forall other, other <> scope -> journal t' other = journal t other.
Proof.
  pose proof (head_nonneg t scope Hj) as Hn. split.
  - symmetry. apply select_eq; [apply with_source_ok|..].
    + apply NoDup_app. split; [apply select_rows_NoDup|]. split; [|apply NoDup_singleton].
      intros row (r' & [p' q] & Hr' & _ & ->)%select_rows_in E. apply list_elem_of_singleton in E. injection E as -> _ _ _. congruence.
    + pose proof (select_rows_sorted t scope (Z.ltb 0)) as Hs. unfold journal, select_after.
      assert (Hle : Forall (fun row => row_position row <= head_of t scope) (select_rows t scope (Z.ltb 0))).
      { apply Forall_forall. intros row (r' & [p' q] & Hr' & _ & ->)%select_rows_in. pose proof (positions_positive _ _ _ _ _ Hj Hr'). cbn. lia. }
      induction Hs as [|x l Hs IH Hf]; cbn; [repeat constructor|]. inversion_clear Hle as [|? ? H1 H2]. constructor; [by apply IH|].
      apply Forall_app. split; [done|]. apply Forall_singleton. unfold row_le. cbn. lia.
    + intros row. unfold journal, select_after. rewrite elem_of_app, list_elem_of_singleton, !select_rows_in. split.
      * intros [(r' & [p' q] & Hr' & Hk & ->)| ->].
        { assert (r' <> r) by congruence. exists r', (p', q). cbn. rewrite lookup_insert_ne by congruence. split; [done|]. split; [done|].
          symmetry. apply joined_other. congruence. }
        { exists r, (payload, n). cbn. rewrite lookup_insert_eq. split; [done|]. split; [apply Z.ltb_lt; lia|]. by rewrite joined_new. }
      * intros (r' & [p' q] & Hr' & Hk & ->). cbn in Hr'. destruct (decide (r' = r)) as [->|Hne].
        { rewrite lookup_insert_eq in Hr'. injection Hr' as <- <-. right. apply joined_new. }
        rewrite lookup_insert_ne in Hr' by congruence. left. exists r', (p', q). split; [done|]. split; [done|]. apply joined_other. congruence.
  - intros other Ho. symmetry. apply select_eq; [apply with_source_ok|apply select_rows_NoDup|apply select_rows_sorted|].
    intros row. unfold journal, select_after. rewrite !select_rows_in. split; intros (r' & stored & Hr' & Hk & ->); exists r', stored.
    + cbn. rewrite lookup_insert_ne by congruence. split; [done|]. split; [done|]. symmetry. apply joined_other. congruence.
    + cbn in Hr'. rewrite lookup_insert_ne in Hr' by congruence. split; [done|]. split; [done|]. apply joined_other. congruence.
Qed.
End write.

(** ** Transactions *)

Section transactions.
Context {T V O : Type} {HT : Holds T SourceTables} {SV : SourceValues V O} {OB : Observations T O}.
Implicit Types (repo : SourceRepository V) (scope : string) (s : SessionOf T).

Definition sources_of (t : T) : SourceTables := rows t.

Lemma source_ref_eta r : Source.MkRef (Source.sourceType r) (Source.sourceID r) = r.
Proof. by destruct r. Qed.

(** The value that a row stands for, if it has one: the observation of its envelope,
    accepted or not, or what the codec of its type reads in its payload. *)
Definition native_value repo (row : StoredRow) (payload : bytes) : option V :=
  if row_accepted row then None
  else match byName repo !! Source.sourceType (row_ref row) with Some codec => sc_decode codec payload | None => None end.

Definition row_value repo (row : StoredRow) : option V :=
  match parseSourceEnvelope (row_payload row) with
  | BadEnvelope => None
  | ObservationEnvelope o => Some (if row_accepted row then accepted_value o else observation_value o)
  | NativeEnvelope payload => native_value repo row payload
  | NoEnvelope => native_value repo row (row_payload row)
  end.

(** A stored Source is what its row says. *)
Definition decoded repo (row : StoredRow) (st : StoredSource V) : Prop :=
  ss_ref st = row_ref row /\ ss_position st = row_position row /\ row_value repo row = Some (ss_value st).

(** Decoding a row only reads. *)
Lemma decodeNative_ok repo row payload st :
  decodeNative repo row payload = Ok st ->
  ss_ref st = row_ref row /\ ss_position st = row_position row /\ native_value repo row payload = Some (ss_value st).
Proof.
  unfold decodeNative, native_value. intros H. bind_inv H. destruct (Source.NewRef _ _) as [r1|] eqn:E1 in Ha2; [|done].
  injection Ha2 as <-. injection H as <-. apply Source.source_ref_ok in E1 as [-> _].
  apply check_ok_inv, negb_true_iff in Ha as ->. apply of_option_ok_inv in Ha0 as ->. apply of_option_ok_inv in Ha1. by rewrite source_ref_eta.
Qed.

Lemma admit_ok o s o' s' : admitPersistedObservation o s = (Ok o', s') -> tables s' = tables s /\ o' = o.
Proof.
  unfold admitPersistedObservation. intros H. tx_inv H. tx_pure. split; [by eapply admit_reads|by eapply admit_same].
Qed.

Lemma decode_source_ok repo row s st s' :
  decode_source repo row s = (Ok st, s') ->
  tables s' = tables s /\ decoded repo row st.
Proof.
  unfold decode_source, decoded, row_value. destruct (parseSourceEnvelope (row_payload row)) as [| |payload|o]; intros H.
  - apply tx_lift_ok in H as [H ->]. by apply decodeNative_ok in H.
  - done.
  - apply tx_lift_ok in H as [H ->]. by apply decodeNative_ok in H.
  - tx_inv H. tx_pure. apply Source.source_ref_ok in Heqr as [-> _]. rewrite source_ref_eta in *. destruct (row_accepted row).
    + tx_inv H. apply tx_catch_ok in Ha; [|done]. apply admit_ok in Ha as [E ->]. tx_pure. unfold NewAcceptedObservation in Heqr.
      bind_inv Heqr. injection Heqr as <-. done.
    + by apply tx_ret_ok in H as [<- ->].
Qed.

Lemma decode_source_keeps repo row : keeps (decode_source repo row).
Proof.
  unfold decode_source, admitPersistedObservation. keeps. intros s r s1 Had. by apply admit_reads in Had.
Qed.

Lemma GetSource_keeps repo scope r : keeps (GetSource repo scope r).
Proof. unfold GetSource, find_source. keeps. apply decode_source_keeps. Qed.

(** What is read under a reference is the value of its row. *)
Lemma GetSource_ok repo scope r s st s' :
  GetSource repo scope r s = (Ok st, s') ->
  tables s' = tables s /\ exists row, select_source (sources_of (tables s)) scope r = Some row /\ decoded repo row st.
Proof.
  unfold GetSource. intros H. tx_inv H. tx_pure. apply (read_ok (fun t => select_source t scope r)) in Ha1 as [Ea E].
  apply decode_source_ok in H as [E' H]. subst a1. split; [by rewrite E', E|]. apply of_option_ok_inv in Ha2. by exists a2.
Qed.

Lemma decode_sources_ok repo selected s l s' :
  decode_sources repo selected s = (Ok l, s') ->
  tables s' = tables s /\ Forall2 (decoded repo) selected l.
Proof.
  revert s l. induction selected as [|row more IH]; intros s l H; cbn [decode_sources] in H.
  - apply tx_ret_ok in H as [<- ->]. by split.
  - tx_inv H. tx_pure. apply decode_source_ok in Ha as (E1 & H1). apply IH in Ha0 as (E2 & H2). split; [congruence|by constructor].
Qed.

(** A listing is a window of the journal. *)
Lemma ListSources_ok repo scope after limit s l s' :
  journal_ok (sources_of (tables s)) -> ListSources repo scope after limit s = (Ok l, s') ->
  tables s' = tables s /\ 0 <= after /\
  Forall2 (decoded repo)
    (limited limit (filter (fun row => after < row_position row) (journal (sources_of (tables s)) scope))) l.
Proof.
  intros Hj. unfold ListSources. intros H. tx_inv H. tx_pure. apply read_ok in Ha2 as [-> E]. apply decode_sources_ok in H as [E' H].
  split; [congruence|]. split; [lia|]. by rewrite <- select_after_filter.
Qed.

(** The head is locked: it has a row from now on. *)
Lemma lockJournalHead_ok scope s u s' :
  lockJournalHead scope s = (Ok u, s') ->
  let t := sources_of (tables s) in let t' := sources_of (tables s') in
  changed_only SourceTables (tables s) (tables s') /\ 0 <= head_of t scope /\
  t' = MkSourceTables (<[scope := head_of t scope]> (st_heads t)) (st_sources t) (st_accepted t).
Proof.
  unfold lockJournalHead, journal_head, sources_of. intros H. tx_inv H. apply read_ok in Ha as [_ E0], Ha0 as [-> E1].
  tx_pure. unfold head_of. rewrite E0 in *.
  destruct (st_heads (rows (tables s)) !! scope) as [p|] eqn:Eh.
  - apply tx_ret_ok in Ha1 as [-> ->]. rewrite E1. split; [by apply changed_same|]. cbn. split; [lia|].
    rewrite insert_id by done. by destruct (rows (tables s)).
  - tx_inv Ha1. apply tx_try_ok in Ha, Ha0. destruct a0 as [u1|cause].
    + apply on_ok in Ha as (r & Er & Et). bind_inv Er. injection Er as _ <-. destruct a3 as [[p|]|]; [|done|done].
      apply read_ok in Ha0 as [E2 E3]. apply tx_ret_ok in Ha1 as [-> ->]. rewrite Et, rows_with in E2. cbn in E2.
      rewrite lookup_insert_eq in E2. injection E2 as ->. rewrite E3, Et, rows_with, E1. split; [apply changed_with|]. done.
    + apply on_err in Ha. destruct a3 as [[p|]|]; [|done|done]. apply read_ok in Ha0 as [E2 E3]. rewrite Ha, E1, Eh in E2. done.
Qed.

Lemma nextJournalPosition_ok scope s p s' n :
  st_heads (sources_of (tables s)) !! scope = Some n -> nextJournalPosition scope s = (Ok p, s') ->
  let t := sources_of (tables s) in
  p = n + 1 /\ n + 1 <= max_int64 /\
  tables s' = with_rows (MkSourceTables (<[scope := n + 1]> (st_heads t)) (st_sources t) (st_accepted t)) (tables s).
Proof.
  unfold nextJournalPosition, journal_head, sources_of. intros Hn H. tx_inv H. apply on_ok in Ha as (t & Et & E). rewrite Hn in Et.
  bind_inv Et. injection Et as <- <-. tx_pure. apply read_ok in Ha1 as [-> E1]. rewrite E, rows_with in *. cbn in Ha2.
  apply of_option_ok_inv in Ha2. rewrite lookup_insert_eq in Ha2. injection Ha2 as <-. apply check_ok_inv, andb_prop in Ha as [_ Hm].
  split; [done|]. split; [by apply Z.leb_le|]. done.
Qed.

Lemma find_source_ok scope r s o s' :
  find_source scope r s = (Ok o, s') -> o = select_source (sources_of (tables s)) scope r /\ tables s' = tables s.
Proof. apply (read_ok (fun t => select_source t scope r)). Qed.

(** A new row, from the lock of the head to its insertion. *)
Lemma insert_new scope r payload s s0 s1 s2 p s3 u u' :
  journal_ok (sources_of (tables s)) -> lockJournalHead scope s = (Ok u, s0) -> tables s1 = tables s0 ->
  select_source (sources_of (tables s1)) scope r = None ->
  nextJournalPosition scope s1 = (Ok p, s2) -> insert_source scope r payload p s2 = (Ok u', s3) ->
  let t := sources_of (tables s) in
  select_source t scope r = None /\ p = head_of t scope + 1 /\ head_of t scope + 1 <= max_int64 /\
  changed_only SourceTables (tables s) (tables s3) /\ sources_of (tables s3) = with_source t scope r payload false.
Proof.
  intros Hj Hl E0 Hs Hp Hi t. apply lockJournalHead_ok in Hl as (C1 & _ & E1). rewrite <- E0 in C1, E1. unfold sources_of in *.
  apply nextJournalPosition_ok with (n := head_of t scope) in Hp as (-> & Hm & E2); [|unfold sources_of; rewrite E1; cbn; apply lookup_insert_eq].
  apply on_ok in Hi as (t3 & Et & E3). bind_inv Et. injection Et as _ <-. unfold sources_of in *.
  rewrite E1 in Hs. split; [exact Hs|]. split; [done|]. split; [done|]. split.
  - etransitivity; [exact C1|]. rewrite E3, E2, with_with. apply changed_with.
  - rewrite E3, E2, !rows_with, E1. unfold with_source. cbn. by rewrite insert_insert_eq.
Qed.

(** A row that is there: its head is there too, and nothing changes. *)
Lemma lock_existing scope r s s1 u row :
  journal_ok (sources_of (tables s)) -> lockJournalHead scope s = (Ok u, s1) ->
  select_source (sources_of (tables s1)) scope r = Some row ->
  select_source (sources_of (tables s)) scope r = Some row /\
  changed_only SourceTables (tables s) (tables s1) /\ sources_of (tables s1) = sources_of (tables s).
Proof.
  intros Hj Hl Hs. apply lockJournalHead_ok in Hl as (C1 & _ & E1). unfold sources_of in *. rewrite E1 in Hs |- *.
  split; [exact Hs|]. split; [done|]. unfold select_source in Hs. cbn in Hs.
  destruct (st_sources (rows (tables s)) !! (scope, r)) as [stored|] eqn:Er; [|done].
  pose proof (jo_heads _ Hj scope) as Hh. unfold head_of. destruct (st_heads (rows (tables s)) !! scope) as [n|] eqn:En;
    [|by rewrite Hh in Er]. cbn. rewrite insert_id by done. by destruct (rows (tables s)).
Qed.

(** A failed insertion of a row that is not there leaves it out. *)
Lemma insert_failed scope r payload s1 s2 p s3 e s4 o n :
  select_source (sources_of (tables s1)) scope r = None -> st_heads (sources_of (tables s1)) !! scope = Some n ->
  nextJournalPosition scope s1 = (Ok p, s2) -> insert_source scope r payload p s2 = (Err e, s3) ->
  find_source scope r s3 = (o, s4) -> forall row, o <> Ok (Some row).
Proof.
  intros Hs Hn Hp Hi Hf row ->. apply nextJournalPosition_ok with (n := n) in Hp as (_ & _ & E2); [|done]. apply on_err in Hi.
  apply find_source_ok in Hf as [Hf _]. unfold sources_of in *. rewrite Hi, E2, rows_with in Hf. unfold select_source in *. cbn in Hf.
  destruct (st_sources (rows (tables s1)) !! (scope, r)); [done|]. done.
Qed.

Lemma locked_head scope s s0 u s1 :
  lockJournalHead scope s = (Ok u, s0) -> tables s1 = tables s0 ->
  st_heads (sources_of (tables s1)) !! scope = Some (head_of (sources_of (tables s)) scope).
Proof. intros H ->. apply lockJournalHead_ok in H as (_ & _ & ->). cbn. apply lookup_insert_eq. Qed.

(** What storing a Source does: it is there, or it is appended. *)
Definition stored_once (t t' : SourceTables) scope (r : Source.Ref) (payload : bytes) (accepted : bool)
    (same : StoredRow -> Prop) (st : StoredSource V) : Prop :=
  ss_ref st = r /\
  ((exists row, select_source t scope r = Some row /\ same row /\ t' = t /\ ss_position st = row_position row) \/
   (select_source t scope r = None /\ head_of t scope + 1 <= max_int64 /\ t' = with_source t scope r payload accepted /\
    ss_position st = head_of t scope + 1)).

Lemma select_source_ref t scope r row : select_source t scope r = Some row -> row_ref row = r.
Proof. unfold select_source. destruct (st_sources t !! (scope, r)); [|done]. by intros [= <-]. Qed.

Lemma existing_source_ok repo row payload s st s' :
  existing_source repo row payload s = (Ok st, s') ->
  row_payload row = payload /\ tables s' = tables s /\ decoded repo row st.
Proof.
  unfold existing_source. intros H. tx_inv H. tx_pure. apply bool_decide_eq_true in Ha. by apply decode_source_ok in H as [H1 H2].
Qed.

Lemma Add_ok repo scope value s st s' :
  journal_ok (sources_of (tables s)) -> Add repo scope value s = (Ok st, s') ->
  changed_only SourceTables (tables s) (tables s') /\
  exists r payload, encode_source repo value = Ok (r, payload) /\
    stored_once (sources_of (tables s)) (sources_of (tables s')) scope r payload false (fun row => row_payload row = payload) st.
Proof.
  intros Hj H. unfold Add in H. tx_inv H. tx_pure. destruct a0 as [r payload]. tx_inv H.
  apply find_source_ok in Ha2 as [-> Ef]. destruct (select_source (sources_of (tables st0)) scope r) as [row|] eqn:Es.
  - apply existing_source_ok in H as (H1 & H2 & H3 & H4 & _). destruct (lock_existing _ _ _ _ _ _ Hj Ha1 Es) as (Hs & C & E).
    rewrite H2, Ef. split; [done|]. exists r, payload. split; [done|]. split; [by rewrite H3; eapply select_source_ref|].
    left. exists row. done.
  - tx_inv H. apply tx_try_ok in Ha3. assert (Es1 : select_source (sources_of (tables st1)) scope r = None) by (by rewrite Ef).
    destruct a2 as [u|cause].
    + apply tx_ret_ok in H as [<- ->].
      destruct (insert_new scope r payload s st0 st1 st2 a1 st3 a0 u Hj Ha1 Ef Es1 Ha2 Ha3) as (Hs & -> & Hm & C & E).
      split; [done|]. exists r, payload. split; [done|]. split; [done|]. by right.
    + exfalso. tx_inv H. apply tx_try_ok in Ha4.
      pose proof (insert_failed _ _ _ _ _ _ _ _ _ _ _ Es1 (locked_head _ _ _ _ _ Ha1 Ef) Ha2 Ha3 Ha4) as Hno.
      destruct a2 as [[row|]|]; [by apply (Hno row)|done|done].
Qed.

Lemma sameStoredObservation_ok stored expected :
  sameStoredObservation (O := O) stored expected = Ok true -> exists o, parseSourceEnvelope stored = ObservationEnvelope o.
Proof. unfold sameStoredObservation. destruct (parseSourceEnvelope stored) as [| | |o]; try done. eauto. Qed.

Lemma existing_observation_ok repo row payload s st s' :
  existing_observation repo row payload s = (Ok st, s') ->
  row_accepted row = true /\ tables s' = tables s /\ decoded repo row st.
Proof.
  unfold existing_observation. intros H. tx_inv H. tx_pure. apply andb_prop in Ha0 as [_ Ha0].
  by apply decode_source_ok in H as [H1 H2].
Qed.

Lemma mark_ok scope r s u s' :
  markAcceptedObservation scope r s = (Ok u, s') ->
  let t := sources_of (tables s) in
  changed_only SourceTables (tables s) (tables s') /\
  sources_of (tables s') = MkSourceTables (st_heads t) (st_sources t) ({[(scope, r)]} ∪ st_accepted t).
Proof.
  unfold markAcceptedObservation, sources_of. intros H. tx_inv H. tx_pure. apply on_ok in Ha as (t & Et & E).
  bind_inv Et. injection Et as _ <-. rewrite E, rows_with. split; [apply changed_with|done].
Qed.

Lemma AddAccepted_ok repo scope admitted s st s' :
  journal_ok (sources_of (tables s)) -> AddAccepted repo scope admitted s = (Ok st, s') ->
  changed_only SourceTables (tables s) (tables s') /\
  exists payload, stored_once (sources_of (tables s)) (sources_of (tables s')) scope (observation_ref admitted) payload true
                    (fun row => row_accepted row = true) st.
Proof.
  intros Hj H. unfold AddAccepted in H. tx_inv H. tx_pure. rename a1 into o, a2 into payload.
  apply admit_ok in Ha1 as [E2 Er]. subst o. apply find_source_ok in Ha4 as [-> Ef]. rewrite <- E2 in *.
  destruct (select_source (sources_of (tables st4)) scope (observation_ref admitted)) as [row|] eqn:Es.
  - apply existing_observation_ok in H as (H1 & H2 & H3 & H4 & _). destruct (lock_existing _ _ _ _ _ _ Hj Ha3 Es) as (Hs & C & E).
    rewrite H2, Ef. split; [done|]. exists payload. split; [by rewrite H3; eapply select_source_ref|]. left. by exists row.
  - tx_inv H. apply tx_try_ok in Ha4.
    assert (Es1 : select_source (sources_of (tables st5)) scope (observation_ref admitted) = None) by (by rewrite Ef).
    destruct a2 as [u|cause].
    + tx_inv H. apply mark_ok in Ha5 as [C2 E3]. tx_pure.
      destruct (insert_new _ _ _ _ _ _ _ _ _ _ _ Hj Ha3 Ef Es1 Ha1 Ha4) as (Hs & -> & Hm & C & E).
      split; [by etransitivity|]. exists payload. split; [done|]. right. rewrite E3, E. done.
    + exfalso. tx_inv H. apply tx_try_ok in Ha5.
      pose proof (insert_failed _ _ _ _ _ _ _ _ _ _ _ Es1 (locked_head _ _ _ _ _ Ha3 Ef) Ha1 Ha4 Ha5) as Hno.
      destruct a2 as [[row|]|]; [by apply (Hno row)|done|done].
Qed.
End transactions.
