(* ===== verification/ReviewStore.v ===== *)
(** * The relational backend of reviews ([internal/sqlstore] review.go, and the index
    interface of experience_index.go)

    An operation on a Candidate, its checks of evidence and target, and for an
    approval the Artifact, its projection and the head of the Candidate, all in one
    transaction. *)

From S2P Require Import Prelude.
From S2P Require Import GoStrings.
From S2P Require Import Refs.
From S2P Require Import Review.
From S2P Require Import Contents.
From S2P Require Import Sql.
From S2P Require Import ArtifactStore.
From S2P Require Import SourceStore.
From S2P Require Import MemoryRepository.
From S2P Require Import ReviewCodec.
From S2P Require Import CandidateStore.

(** ** The index of Experiences *)

Record ExperienceIndex (Tb : Type) := MkExperienceIndex {
  xi_Initialize : txn Tb unit;
  xi_Replace : string -> Artifact Experience.Content -> txn Tb unit;
  xi_Search : string -> string -> Z -> txn Tb (list Experience.SearchHit)
}.
Arguments MkExperienceIndex {Tb}. Arguments xi_Initialize {Tb}. Arguments xi_Replace {Tb}. Arguments xi_Search {Tb}.

Definition NoExperienceIndex {Tb} : ExperienceIndex Tb := {|
  xi_Initialize := tx_ret tt;
  xi_Replace _ _ := tx_ret tt;
  xi_Search _ _ _ := tx_ret []
|}.

Definition equalOptionalRef (left right : option Ref) : bool :=
  match left, right with
  | Some l, Some r => bool_decide (l = r)
  | None, None => true
  | _, _ => false
  end.

Definition slicesContainsRef (values : list Ref) (target : Ref) : bool :=
  existsb (fun value => bool_decide (value = target)) values.

Definition invalid (field : string) : store_error := SReview (RInvalid field).

(** A row that is missing, as an error of the review. *)
Definition or_invalid {Tb A} (field : string) (m : txn Tb A) : txn Tb A :=
  tx_catch m (fun e => match e with SMissing _ => tx_err (invalid field) | _ => tx_err e end).

Section backend.
Context {Tb C P V O : Type} {HA : Holds Tb Tables} {HC : Holds Tb CandidateTables} {HS : Holds Tb SourceTables}
        {SV : SourceValues V O} {OB : Observations Tb O} {DC : Dynamic C}
        {CX : Carries C Experience.Content} {CS : Carries C Skill.Content} {CP : Carries C P} {PK : SkillPackages Tb P}.

Record ReviewBackend := MkReviewBackend {
  rb_scope : string; rb_candidates : CandidateRepository Tb C; rb_artifacts : ArtifactRepository Tb C;
  rb_sources : SourceRepository V; rb_index : ExperienceIndex Tb
}.

Definition NewReviewBackend (scope : string) (candidates : CandidateRepository Tb C) (artifacts : ArtifactRepository Tb C)
  (sources : SourceRepository V) (index : option (ExperienceIndex Tb)) : result store_error ReviewBackend :=
  let* _ := requireScope scope in
  Ok (MkReviewBackend scope candidates artifacts sources (default NoExperienceIndex index)).

(** ** Checks *)

Section checks.
Context (b : ReviewBackend).
Notation scope := (rb_scope b).

Definition require_source (r : Source.Ref) : txn Tb unit :=
  let! _ := or_invalid "evidence" (GetSource (rb_sources b) scope r) in tx_ret tt.
Definition require_artifact (r : Ref) : txn Tb unit :=
  let! _ := or_invalid "evidence" (ArtifactStore.Get (rb_artifacts b) scope r) in tx_ret tt.

Definition validateEvidence (sources : list Source.Ref) (artifacts : list Ref) : txn Tb unit :=
  let evidence := Z.of_nat (length sources) + Z.of_nat (length artifacts) in
  need negb (evidence <? 1) else invalid "evidence" in
  need negb (MaxEvidence <? evidence) else invalid "evidence" in
  let! _ := each (fun _ r => require_source r) 0 sources in
  each (fun _ r => require_artifact r) 0 artifacts.

Definition validateTarget (fam : string) (target : option Ref) (artifacts : list Ref) : txn Tb unit :=
  match target with
  | None => tx_ret tt
  | Some target =>
      need String.eqb (family target) fam else invalid "target" in
      need slicesContainsRef artifacts target else invalid "artifacts" in
      let! latest := or_invalid "target" (ArtifactStore.Latest (rb_artifacts b) scope (family target) (artifactID target)) in
      need bool_decide (a_ref latest = target) else SReview (RTarget target (a_ref latest)) in
      tx_ret tt
  end.

Definition as_experience (c : C) : option Experience.Content := project c.
Definition as_skill (c : C) : option Skill.Content := project c.
Definition as_package (c : C) : option P := project c.

Definition validateReviewedProposal (fam : string) (current proposal : C) : result store_error unit :=
  require String.eqb (type_of current) (type_of proposal) else invalid "family" in
  require (if String.eqb fam Experience.Family then match as_experience proposal with Some _ => true | None => false end
           else if String.eqb fam Skill.Family
           then match as_skill proposal, as_package proposal with None, None => false | _, _ => true end
           else false) else invalid "family" in
  Ok tt.

Definition validateApprovalLineage (c : Candidate C) : result store_error unit :=
  if negb (String.eqb (cn_Family c) Skill.Family) then Ok tt
  else
    match cn_Target c with
    | None =>
        require forallb (fun r => String.eqb (family r) Experience.Family) (cn_Artifacts c) else invalid "artifacts" in Ok tt
    | Some target =>
        require slicesContainsRef (cn_Artifacts c) target else invalid "artifacts" in
        require negb (bool_decide (cn_Sources c = [])) else invalid "sources" in
        Ok tt
    end.

(** The constructors of drafts of the three types, under the family of each. *)
Definition candidateDraft (c : Candidate C) : result store_error (Draft C) :=
  let draft fam value :=
    require String.eqb (cn_Family c) fam else invalid "family" in
    map_err SRef (NewDraft fam value (cn_Sources c) (cn_Artifacts c)) in
  match as_experience (cn_Proposal c), as_skill (cn_Proposal c), as_package (cn_Proposal c) with
  | Some value, _, _ => draft Experience.Family (inject value)
  | None, Some value, _ => draft Skill.Family (inject value)
  | None, None, Some value => draft Skill.Family (inject value)
  | None, None, None => Err (invalid "family")
  end.

Definition persistPackageProposal (fam : string) (proposal : C) : txn Tb unit :=
  if String.eqb fam Skill.Family then
    match as_package proposal with Some p => AddPackage scope p | None => tx_ret tt end
  else tx_ret tt.

Definition revalidatePackageProposal (c : Candidate C) : txn Tb unit :=
  if String.eqb (cn_Family c) Skill.Family then
    match as_package (cn_Proposal c) with Some p => GetPackage scope p | None => tx_ret tt end
  else tx_ret tt.

(** ** Operations *)

Definition InitializeReview : txn Tb unit := Transaction (xi_Initialize (rb_index b)).

Definition Propose_ (id fam : string) (proposal : C) (sources : list Source.Ref) (artifacts : list Ref)
  (target : option Ref) (reason : option string) : txn Tb (Candidate C) :=
  Transaction (
    let! _ := persistPackageProposal fam proposal in
    let! _ := validateEvidence sources artifacts in
    let! _ := validateTarget fam target artifacts in
    CreateCandidate (rb_candidates b) scope id fam proposal sources artifacts target reason).

(** [ProposeUploadedPackage], after the check of its upload: the Source [upload]
    resolves to. *)
Definition ProposeUploadedPackage_ (id : string) (proposal : P) (upload : V) (artifacts : list Ref)
  (target : option Ref) (reason : option string) : txn Tb (Candidate C) :=
  Transaction (
    let! _ := AddPackage scope proposal in
    let! stored := SourceStore.Add (rb_sources b) scope upload in
    let sources := [ss_ref stored] in
    let! _ := validateEvidence sources artifacts in
    let! _ := validateTarget Skill.Family target artifacts in
    CreateCandidate (rb_candidates b) scope id Skill.Family (inject proposal) sources artifacts target reason).

Definition Get_ (id : string) : txn Tb (Candidate C) := Transaction (GetCandidate (rb_candidates b) scope id).

Definition GetArtifact_ (r : Ref) : txn Tb (Artifact C) :=
  tx_catch (Transaction (ArtifactStore.Get (rb_artifacts b) scope r))
    (fun e => match e with SMissing _ => tx_err (SNotFound r) | _ => tx_err e end).

Definition List_ (status : Status) (fam cursor : option string) (limit : Z) : txn Tb (Page C) :=
  Transaction (ListCandidates (rb_candidates b) scope status fam cursor limit).

Definition Revise_ (id : string) (expectedVersion : Z) (proposal : C) (sources : list Source.Ref) (artifacts : list Ref)
  (target : option Ref) (reason : option string) : txn Tb (Candidate C) :=
  Transaction (
    let! current := LockPending (rb_candidates b) scope id expectedVersion in
    let! _ := tx_lift (validateReviewedProposal (cn_Family current) (cn_Proposal current) proposal) in
    let! _ := persistPackageProposal (cn_Family current) proposal in
    need equalOptionalRef target (cn_Target current) else invalid "target" in
    let! _ := validateEvidence sources artifacts in
    let! _ := validateTarget (cn_Family current) target artifacts in
    ReviseCandidate (rb_candidates b) scope id expectedVersion proposal sources artifacts target reason).

Definition Reject_ (id : string) (expectedVersion : Z) (reason : string) : txn Tb (Candidate C) :=
  Transaction (RejectCandidate (rb_candidates b) scope id expectedVersion reason).

(** The Artifact of an approval: the first revision of a new identity, or the next
    one of the target. *)
Definition store_approved (c : Candidate C) (draft : Draft C) (fresh : string -> result store_error string)
  : txn Tb (Artifact C) :=
  match cn_Target c with
  | None =>
      let! id := tx_lift (fresh (cn_Family c)) in
      ArtifactStore.Create (rb_artifacts b) scope id draft
  | Some target =>
      let! current := ArtifactStore.Get (rb_artifacts b) scope target in
      tx_catch (ArtifactStore.Revise (rb_artifacts b) scope current draft)
        (fun e => match e with SConflict _ now => tx_err (SReview (RTarget target now)) | _ => tx_err e end)
  end.

Definition index_stored (stored : Artifact C) : txn Tb unit :=
  match as_experience (a_content stored) with
  | Some x => xi_Replace (rb_index b) scope (MkArtifact (a_ref stored) x (a_lineage stored))
  | None => tx_ret tt
  end.

Definition Approve_ (id : string) (expectedVersion : Z) (fresh : string -> result store_error string) : txn Tb (Candidate C) :=
  Transaction (
    let! candidate := LockPending (rb_candidates b) scope id expectedVersion in
    let! _ := revalidatePackageProposal candidate in
    let! _ := tx_lift (validateApprovalLineage candidate) in
    let! draft := tx_lift (candidateDraft candidate) in
    let! stored := store_approved candidate draft fresh in
    let! _ := index_stored stored in
    MarkApproved (rb_candidates b) scope id expectedVersion (a_ref stored)).

Definition SearchExperiences (query : string) (limit : Z) : txn Tb (list Experience.SearchHit) :=
  Transaction (xi_Search (rb_index b) scope query limit).
End checks.
End backend.
Arguments ReviewBackend : clear implicits.
