(* ===== verification/ReviewFacts.v ===== *)
(** * Lemmas on the backend of reviews

    What each operation did to the Candidates and to the Artifacts when it
    succeeded. *)

From S2P Require Import Prelude.
From S2P Require Import GoStrings.
From S2P Require Import Refs.
From S2P Require Import Review.
From S2P Require Import Contents.
From S2P Require Import Sql.
From S2P Require Import ArtifactStore.
From S2P Require Import ArtifactStoreFacts.
From S2P Require Import SourceStore.
From S2P Require Import SourceStoreFacts.
From S2P Require Import MemoryRepository.
From S2P Require Import ReviewCodec.
From S2P Require Import CandidateStore.
From S2P Require Import ReviewStore.

(** ** Statements on other tables *)

(** Whatever it does, neither the Artifacts nor the Candidates change. *)
Definition elsewhere {Tb A} {HA : Holds Tb Tables} {HC : Holds Tb CandidateTables} (m : txn Tb A) : Prop :=
  forall s r s', m s = (r, s') ->
  (rows (tables s') : Tables) = rows (tables s) /\ (rows (tables s') : CandidateTables) = rows (tables s).

Section elsewhere.
Context {Tb : Type} {HA : Holds Tb Tables} {HC : Holds Tb CandidateTables}.

Lemma keeps_elsewhere {A} (m : txn Tb A) : keeps m -> elsewhere m.
Proof. intros Hm s r s' E. by rewrite (Hm _ _ _ E). Qed.

Lemma elsewhere_bind {A B} (m : txn Tb A) (k : A -> txn Tb B) : elsewhere m -> (forall a, elsewhere (k a)) -> elsewhere (tx_bind m k).
Proof.
  intros Hm Hk s r s'. unfold tx_bind. destruct (m s) as [[a|e] s1] eqn:E; apply Hm in E as [E1 E2].
  - intros H. apply Hk in H as [E3 E4]. by rewrite E3, E4.
  - by intros [= _ <-].
Qed.

Lemma elsewhere_try {A} (m : txn Tb A) : elsewhere m -> elsewhere (tx_try m).
Proof. intros Hm s r s'. unfold tx_try. destruct (m s) as [x s1] eqn:E. intros [= _ <-]. by eapply Hm. Qed.

(** A statement on a part of its own. *)
Lemma elsewhere_on {R A} {HR : Holds Tb R} {AR : Apart Tb Tables R} {CR : Apart Tb CandidateTables R}
  (f : R -> result store_error (A * R)) : elsewhere (on f).
Proof.
  intros s [a|e] s' H; [|by rewrite (on_err _ _ _ _ H)]. apply on_ok in H as (r & _ & ->).
  by rewrite !apart_left.
Qed.
End elsewhere.

Ltac elsewhere :=
  repeat lazymatch goal with
  | |- elsewhere (tx_bind _ _) => apply elsewhere_bind; [|intros ?]
  | |- elsewhere (tx_try _) => apply elsewhere_try
  | |- elsewhere (on _) => apply elsewhere_on
  | |- elsewhere (match ?x with _ => _ end) => destruct x
  | |- elsewhere _ => apply keeps_elsewhere; keeps
  end.

(** What the backend relies on: codecs and the checks of packages read, and the
    index of Experiences and the packages are in tables of their own. *)
Class ReviewParts {Tb C P V} {HA : Holds Tb Tables} {HC : Holds Tb CandidateTables} {HS : Holds Tb SourceTables} {PK : SkillPackages Tb P}
  (b : ReviewBackend Tb C V) : Prop := {
  rp_artifacts : reading_repo (rb_artifacts b);
  rp_candidates fam codec : rb_candidates b !! fam = Some codec -> scoped_codec codec;
  rp_index scope a : elsewhere (xi_Replace (rb_index b) scope a);
  rp_add_package scope (p : P) : elsewhere (AddPackage scope p);
  rp_add_sources scope (p : P) s r s' : AddPackage scope p s = (r, s') -> (rows (tables s') : SourceTables) = rows (tables s);
  rp_get_package scope (p : P) : elsewhere (GetPackage scope p)
}.

Section backend.
Context {Tb C P V O : Type} {HA : Holds Tb Tables} {HC : Holds Tb CandidateTables} {HS : Holds Tb SourceTables}
        {AC : Apart Tb Tables CandidateTables}
        {SV : SourceValues V O} {OB : Observations Tb O} {DC : Dynamic C}
        {CX : Carries C Experience.Content} {CS : Carries C Skill.Content} {CP : Carries C P} {PK : SkillPackages Tb P}.
Context (b : ReviewBackend Tb C V) {RP : ReviewParts (P := P) b}.
Let Hart : reading_repo (rb_artifacts b) := rp_artifacts (P := P).
Let Hcan : forall fam codec, rb_candidates b !! fam = Some codec -> scoped_codec codec := rp_candidates (P := P).
Notation scope := (rb_scope b).
Notation artifact_tables t := (rows t : Tables).
Notation candidate_rows t := (rows t : CandidateTables).

Lemma persistPackage_elsewhere fam proposal : elsewhere (persistPackageProposal (P := P) b fam proposal).
Proof.
  unfold persistPackageProposal. destruct (String.eqb _ _); [|apply keeps_elsewhere, keeps_ret].
  destruct (as_package proposal); [apply rp_add_package|apply keeps_elsewhere, keeps_ret].
Qed.

Lemma persistPackage_sources fam proposal s r s' :
  persistPackageProposal (P := P) b fam proposal s = (r, s') -> sources_of (tables s') = sources_of (tables s).
Proof.
  unfold persistPackageProposal. destruct (String.eqb _ _); [|by intros [= _ <-]].
  destruct (as_package proposal); [apply rp_add_sources|by intros [= _ <-]].
Qed.

Lemma revalidatePackage_elsewhere c : elsewhere (revalidatePackageProposal (P := P) b c).
Proof.
  unfold revalidatePackageProposal. destruct (String.eqb _ _); [|apply keeps_elsewhere, keeps_ret].
  destruct (as_package (cn_Proposal c)); [apply rp_get_package|apply keeps_elsewhere, keeps_ret].
Qed.

Lemma index_elsewhere stored : elsewhere (index_stored b stored).
Proof. unfold index_stored. destruct (as_experience _); [apply rp_index|apply keeps_elsewhere, keeps_ret]. Qed.

Lemma or_invalid_keeps {A} field (m : txn Tb A) : keeps m -> keeps (or_invalid field m).
Proof. intros Hm. unfold or_invalid. apply keeps_catch; [done|]. intros [] ; apply keeps_err. Qed.

Lemma or_invalid_ok {A} field (m : txn Tb A) s a s' : or_invalid field m s = (Ok a, s') -> m s = (Ok a, s').
Proof. apply tx_catch_ok. by intros []. Qed.

(** Each element of a list satisfied the check, which only read. *)
Lemma each_reads {A} (f : nat -> A -> txn Tb unit) (Q : Tb -> A -> Prop) l :
  (forall i x s u s', f i x s = (Ok u, s') -> tables s' = tables s /\ Q (tables s) x) ->
  forall k s u s', each f k l s = (Ok u, s') -> tables s' = tables s /\ Forall (Q (tables s)) l.
Proof.
  intros Hf. induction l as [|x l IH]; intros k s u s' H; cbn [each] in H.
  - apply tx_ret_ok in H as [_ ->]. split; [done|constructor].
  - tx_inv H. apply Hf in Ha as [E Hx]. apply IH in H as [E' Hl]. rewrite E in *. split; [done|by constructor].
Qed.

(** The Source [r] has a row, and the row a value. *)
Definition source_there (t : Tb) (r : Source.Ref) : Prop :=
  exists row v, select_source (sources_of t) scope r = Some row /\ row_value (rb_sources b) row = Some v.
Definition artifact_there (t : Tb) (r : Ref) : Prop := is_Some (t_artifacts (artifact_tables t) !! (scope, r)).

Lemma validateEvidence_ok sources artifacts s u s' :
  validateEvidence b sources artifacts s = (Ok u, s') ->
  tables s' = tables s /\ Forall (source_there (tables s)) sources /\ Forall (artifact_there (tables s)) artifacts.
Proof.
  unfold validateEvidence. intros H. tx_inv H. tx_pure.
  apply (each_reads _ source_there) in Ha1 as [E1 H1].
  - apply (each_reads _ artifact_there) in H as [E2 H2]; [rewrite E1 in *; done|]. clear - Hart.
    intros _ r s u s' H. unfold require_artifact in H. tx_inv H. tx_pure. apply or_invalid_ok in Ha.
    split; [by apply (Get_keeps _ Hart) in Ha|]. by apply Get_ref in Ha as (_ & _ & Ha).
  - clear. intros _ r s u s' H. unfold require_source in H. tx_inv H. tx_pure. apply or_invalid_ok in Ha.
    apply GetSource_ok in Ha as (E & row & Hr & _ & _ & Hv). split; [done|]. by exists row, (ss_value a).
Qed.

Lemma validateTarget_ok fam target artifacts s u s' :
  validateTarget b fam target artifacts s = (Ok u, s') ->
  tables s' = tables s /\
  match target with
  | None => True
  | Some r => family r = fam /\ r ∈ artifacts /\ artifact_there (tables s) r /\
              t_heads (artifact_tables (tables s)) !! head_key scope r = Some (revision r)
  end.
Proof.
  unfold validateTarget. destruct target as [r|]; intros H; [|by apply tx_ret_ok in H as [_ ->]].
  tx_inv H. tx_pure. apply or_invalid_ok in Ha1. pose proof (Latest_keeps _ Hart _ _ _ _ _ _ Ha1) as E.
  apply bool_decide_eq_true in Ha2. split; [done|]. split; [by apply String.eqb_eq|]. split.
  { apply existsb_exists in Ha0 as (x & Hin & Hx%bool_decide_eq_true). subst x. by apply list_elem_of_In. }
  apply Latest_ref in Ha1 as (_ & _ & Hh & Ht). rewrite Ha2 in *. done.
Qed.

(** ** Approval *)

Lemma candidateDraft_ok c d :
  candidateDraft (P := P) c = Ok d -> d = MkDraft (cn_Family c) (cn_Proposal c) (MkLineage (cn_Sources c) (cn_Artifacts c)).
Proof.
  unfold candidateDraft, as_experience, as_skill, as_package.
  assert (Hd : forall fam value, (require String.eqb (cn_Family c) fam else invalid "family" in
    map_err SRef (NewDraft fam value (cn_Sources c) (cn_Artifacts c))) = Ok d ->
    cn_Proposal c = value -> d = MkDraft (cn_Family c) (cn_Proposal c) (MkLineage (cn_Sources c) (cn_Artifacts c))).
  { intros fam value H ->. bind_inv H. apply check_ok_inv, String.eqb_eq in Ha. apply map_err_ok in H. unfold NewDraft in H.
    bind_inv H. injection H as <-. apply NewLineage_ok in Ha1 as [-> _]. by rewrite Ha. }
  repeat match goal with
  | |- match ?o with Some _ => _ | None => _ end = Ok d -> _ =>
      let E := fresh "E" in destruct o eqn:E; [intros H; eapply Hd; [exact H|by apply project_some]|]
  end.
  done.
Qed.

(** Where the Artifact of an approval goes: a new identity, or after its target,
    which is the latest revision. *)
Definition approved_at (t : Tb) (fresh : string -> result store_error string) (c : Candidate C) (r : Ref) : Prop :=
  match cn_Target c with
  | None => exists id, fresh (cn_Family c) = Ok id /\ r = MkRef (cn_Family c) id 1
  | Some target =>
      t_heads (artifact_tables t) !! head_key scope target = Some (revision target) /\
      r = MkRef (cn_Family c) (artifactID target) (revision target + 1)
  end.

Lemma store_approved_ok c draft fresh s stored s' :
  rows_ok (artifact_tables (tables s)) -> d_family draft = cn_Family c ->
  store_approved b c draft fresh s = (Ok stored, s') ->
  changed_only Tables (tables s) (tables s') /\ approved_at (tables s) fresh c (a_ref stored) /\
  wrote (rb_artifacts b) scope draft stored (artifact_tables (tables s)) (artifact_tables (tables s')).
Proof.
  intros Hw Hf H. assert (Hread : forall codec, rb_artifacts b !! d_family draft = Some codec -> reading_codec codec) by (intros; by eapply Hart).
  unfold store_approved in H. unfold approved_at. destruct (cn_Target c) as [target|].
  - tx_inv H. pose proof (Get_keeps _ Hart _ _ _ _ _ Ha) as E. apply Get_ref in Ha as (Hr & _ & _).
    apply tx_catch_ok in H; [|by intros []]. apply Revise_ok in H as (H1 & H2 & H3 & H4 & H5); [|done|by rewrite E].
    rewrite E, Hr, Hf in *. done.
  - tx_inv H. tx_pure. apply Create_ok in H as (H1 & H2 & H3); [|done|done]. rewrite Hf in *. split; [done|]. split; [by exists a|done].
Qed.

Definition approved_head (h : CandidateHead) (r : Ref) : CandidateHead :=
  MkCandidateHead (ch_family h) (ch_version h) Approved (Some r) (ch_decision h).

(** What an approval did: [current] became [c] and its Artifact is [stored]. *)
Record approved (id : string) (expected : Z) (fresh : string -> result store_error string) (t t' : Tb)
  (h : CandidateHead) (v : CandidateVersion) (before after : Candidate C) (stored : Artifact C) : Prop := {
  ap_row : joined_candidate (candidate_rows t) scope id = Some (h, v);
  ap_before : represents (rb_candidates b) scope id h v before;
  ap_pending : cn_Status before = Pending /\ cn_Version before = expected;
  ap_at : approved_at t fresh before (a_ref stored);
  ap_wrote : wrote (rb_artifacts b) scope
    (MkDraft (cn_Family before) (cn_Proposal before) (MkLineage (cn_Sources before) (cn_Artifacts before)))
    stored (artifact_tables t) (artifact_tables t');
  ap_head : candidate_rows t' = with_head (candidate_rows t) scope id (approved_head h (a_ref stored));
  ap_after : represents (rb_candidates b) scope id (approved_head h (a_ref stored)) v after
}.

Lemma current_joined id t c : current (rb_candidates b) scope id t c ->
  exists h v, joined_candidate (candidate_rows t) scope id = Some (h, v) /\ represents (rb_candidates b) scope id h v c.
Proof. done. Qed.

Lemma joined_with_head c id h h' v : joined_candidate c scope id = Some (h, v) -> ch_version h' = ch_version h ->
  joined_candidate (with_head c scope id h') scope id = Some (h', v).
Proof.
  unfold joined_candidate, with_head. cbn. rewrite lookup_insert_eq. intros H ->.
  destruct (ct_heads c !! (scope, id)) as [h0|]; [|done].
  destruct (ct_versions c !! (scope, id, ch_version h0)) eqn:E; [|done]. injection H as -> ->. by rewrite E.
Qed.

Lemma Approve_ok id expected fresh s c s' :
  rows_ok (artifact_tables (tables s)) -> Approve_ (P := P) b id expected fresh s = (Ok c, s') ->
  exists h v before stored, approved id expected fresh (tables s) (tables s') h v before c stored.
Proof.
  intros Hw H. apply transaction_ok in H as (s1 & s2 & E1 & H & E2). tx_inv H. tx_pure.
  apply LockPending_ok in Ha as (E & Hc & Hp & Hv); [|done]. apply candidateDraft_ok in Ha2 as ->.
  apply (revalidatePackage_elsewhere _ _ _ _) in Ha0 as [A0 C0].
  apply store_approved_ok in Ha3 as (Hch & Hat & Hwr); [|rewrite A0, E, E1; done|done]. cbn in Hwr.
  apply index_elsewhere in Ha4 as [A4 C4]. pose proof (changed_apart _ _ Hch) as Cst.
  apply MarkApproved_ok in H as (h & Hh & Hhv & Hhp & _ & Em & Hc'); [|done].
  assert (At : artifact_tables (tables s') = artifact_tables (tables st3)) by (rewrite E2, Em, apart_left; congruence).
  assert (Ct : candidate_rows (tables s) = candidate_rows (tables st4)) by congruence.
  assert (Ct' : candidate_rows (tables s') = with_head (candidate_rows (tables s)) scope id (approved_head h (a_ref a3))).
  { rewrite E2, Em, rows_with, Ct. done. }
  rewrite E1 in Hc. destruct Hc as (h0 & v & Hj & Hrep).
  assert (h0 = h) as ->. { unfold joined_candidate in Hj. rewrite Ct, Hh in Hj. destruct (ct_versions _ !! _); [|done]. by injection Hj. }
  destruct Hc' as (h' & v' & Hj' & Hrep'). rewrite <- E2, Ct', (joined_with_head _ _ h _ v) in Hj' by done. injection Hj' as <- <-.
  assert (A : artifact_tables (tables st0) = artifact_tables (tables s)) by congruence.
  exists h, v, a, a3. split; try done.
  - unfold approved_at in *. by rewrite A in Hat.
  - by rewrite A, <- At in Hwr.
Qed.

(** ** The other operations *)

(** A Candidate [c] was put in the scope, and no Artifact changed. *)
Record moved (id : string) (t t' : Tb) (c : Candidate C) : Prop := {
  mv_artifacts : artifact_tables t' = artifact_tables t;
  mv_step : candidate_step scope id (candidate_rows t) (candidate_rows t');
  mv_id : cn_ID c = id;
  mv_open : cn_Result c = None;
  mv_valid : valid_candidate c;
  mv_holds : holds scope c t'
}.

(** What a proposal rests on, in the database that it was made in. *)
Definition grounded (t : Tb) (fam : string) (srcs : list Source.Ref) (arts : list Ref) (target : option Ref) : Prop :=
  Forall (source_there t) srcs /\ Forall (artifact_there t) arts /\
  match target with
  | None => True
  | Some r => family r = fam /\ r ∈ arts /\ t_heads (artifact_tables t) !! head_key scope r = Some (revision r)
  end.

Lemma grounded_ok fam srcs arts target s u s' w s'' :
  validateEvidence b srcs arts s = (Ok u, s') -> validateTarget b fam target arts s' = (Ok w, s'') ->
  tables s'' = tables s /\ grounded (tables s) fam srcs arts target.
Proof.
  intros H1%validateEvidence_ok H2%validateTarget_ok. destruct H1 as (E1 & Hs & Ha), H2 as [E2 Ht]. rewrite E1 in *.
  split; [done|]. split; [done|]. split; [done|]. destruct target as [r|]; [|done]. destruct Ht as (H1 & H2 & _ & H3). done.
Qed.

Lemma grounded_same t t' fam srcs arts target :
  artifact_tables t' = artifact_tables t -> sources_of t' = sources_of t -> grounded t fam srcs arts target -> grounded t' fam srcs arts target.
Proof. unfold grounded, source_there, artifact_there. by intros -> ->. Qed.

(** A step on the Candidates leaves the Artifacts alone. *)
Lemma stepped_artifacts id t t' : stepped scope id t t' -> artifact_tables t' = artifact_tables t.
Proof. intros [_ H]. by apply changed_apart_left in H. Qed.

Lemma Propose_ok id fam proposal srcs arts target reason s c s' :
  Propose_ (P := P) b id fam proposal srcs arts target reason s = (Ok c, s') ->
  c = MkCandidate id 1 fam Pending proposal srcs arts target reason None None /\
  moved id (tables s) (tables s') c /\ stored_version (rb_candidates b) scope c (tables s') /\
  grounded (tables s) fam srcs arts target.
Proof.
  intros H. apply transaction_ok in H as (s1 & s2 & E1 & H & E2). tx_inv H.
  pose proof (persistPackage_sources _ _ _ _ _ Ha) as S1. apply persistPackage_elsewhere in Ha as [A1 C1]. destruct (grounded_ok _ _ _ _ _ _ _ _ _ Ha0 Ha1) as [E3 Hg].
  apply CreateCandidate_ok in H as (Hc & Hv & _ & _ & Hst & Hh & Hrow); [|done].
  pose proof (stepped_artifacts _ _ _ Hst) as A2. destruct Hst as [Hst _]. rewrite E3 in *. rewrite C1, E1 in Hst. rewrite <- E2 in *.
  split; [done|]. split; [split; [congruence|done|by subst c|by subst c|done|done]|]. split; [done|].
  rewrite E1 in A1, S1. by eapply grounded_same.
Qed.

Context {AS : Apart Tb Tables SourceTables} {CSo : Apart Tb CandidateTables SourceTables}.

Lemma Add_elsewhere value : elsewhere (SourceStore.Add (rb_sources b) scope value).
Proof.
  unfold SourceStore.Add, lockJournalHead, nextJournalPosition, journal_head, find_source, existing_source,
    insert_source, insert_journal_head, advance_journal_head.
  elsewhere; try apply decode_source_keeps.
Qed.

Lemma ProposeUploadedPackage_ok id proposal upload arts target reason s c s' :
  ProposeUploadedPackage_ b id proposal upload arts target reason s = (Ok c, s') ->
  exists stored : StoredSource V, c = MkCandidate id 1 Skill.Family Pending (inject proposal) [ss_ref stored] arts target reason None None /\
  moved id (tables s) (tables s') c /\ stored_version (rb_candidates b) scope c (tables s') /\
  grounded (tables s') Skill.Family [ss_ref stored] arts target.
Proof.
  intros H. apply transaction_ok in H as (s1 & s2 & E1 & H & E2). tx_inv H. cbv zeta in H. tx_inv H.
  apply rp_add_package in Ha as [A0 C0]. apply Add_elsewhere in Ha0 as [A1 C1].
  destruct (grounded_ok _ _ _ _ _ _ _ _ _ Ha1 Ha2) as [E3 Hg].
  apply CreateCandidate_ok in H as (Hc & Hv & _ & _ & Hst & Hh & Hrow); [|done].
  pose proof (stepped_artifacts _ _ _ Hst) as A2. destruct Hst as [Hst Hon]. pose proof (changed_apart _ _ Hon : sources_of _ = _) as S2.
  rewrite E3 in *. rewrite C1, C0, E1 in Hst. rewrite <- E2 in *.
  exists a0. split; [done|]. split; [split; [congruence|done|by subst c|by subst c|done|done]|]. split; [done|].
  eapply grounded_same; [exact A2|exact S2|exact Hg].
Qed.

Lemma Revise_review_ok id expected proposal srcs arts target reason s c s' :
  candidates_ok (candidate_rows (tables s)) ->
  Revise_ (P := P) b id expected proposal srcs arts target reason s = (Ok c, s') ->
  exists before, current (rb_candidates b) scope id (tables s) before /\ cn_Status before = Pending /\ cn_Version before = expected /\
  type_of proposal = type_of (cn_Proposal before) /\ target = cn_Target before /\
  c = MkCandidate id (expected + 1) (cn_Family before) Pending proposal srcs arts target reason None None /\
  moved id (tables s) (tables s') c /\ stored_version (rb_candidates b) scope c (tables s') /\
  grounded (tables s) (cn_Family before) srcs arts target.
Proof.
  intros Hok H. apply transaction_ok in H as (s1 & s2 & E1 & H & E2). tx_inv H. tx_pure.
  apply LockPending_ok in Ha as (E & Hc & Hp & Hv); [|done]. pose proof (persistPackage_sources _ _ _ _ _ Ha1) as S1.
  apply persistPackage_elsewhere in Ha1 as [A1 C1]. destruct (grounded_ok _ _ _ _ _ _ _ _ _ Ha3 Ha4) as [E3 Hg].
  apply ReviseCandidate_ok in H as (cur & Hcur & Hcp & Hcv & Hce & Hvc & _ & Hst & Hh & Hrow); [|done|by rewrite E3, C1, E, E1].
  assert (Ef : cn_Family cur = cn_Family a).
  { apply current_head in Hcur as (h1 & H1 & _ & F1 & _). apply current_head in Hc as (h2 & H2 & _ & F2 & _).
    rewrite E3, C1, E in H1. congruence. }
  pose proof (stepped_artifacts _ _ _ Hst) as A2. destruct Hst as [Hst _]. rewrite E3 in *. rewrite C1, E, E1 in Hst. rewrite <- E2 in *.
  rewrite Ef in *. unfold validateReviewedProposal in Ha0. bind_inv Ha0. apply check_ok_inv, String.eqb_eq in Ha.
  rewrite E1 in Hc. exists a. split; [done|]. split; [done|]. split; [done|]. split; [done|].
  split. { unfold equalOptionalRef in Ha2. destruct target as [r1|], (cn_Target a) as [r2|]; try done. by apply bool_decide_eq_true in Ha2 as ->. }
  split; [done|]. split; [split; [congruence|done|by subst c|by subst c|done|done]|]. split; [done|].
  rewrite E, E1 in A1, S1. by eapply grounded_same.
Qed.

Lemma Reject_ok id expected reason s c s' :
  candidates_ok (candidate_rows (tables s)) ->
  Reject_ b id expected reason s = (Ok c, s') ->
  exists before, current (rb_candidates b) scope id (tables s) before /\ cn_Status before = Pending /\ cn_Version before = expected /\
  c = MkCandidate (cn_ID before) (cn_Version before) (cn_Family before) Rejected (cn_Proposal before) (cn_Sources before)
        (cn_Artifacts before) (cn_Target before) (cn_Reason before) None (Some reason) /\
  moved id (tables s) (tables s') c.
Proof.
  intros Hok H. apply transaction_ok in H as (s1 & s2 & E1 & H & E2).
  apply RejectCandidate_ok in H as (cur & Hcur & Hcp & Hcv & Hce & Hvc & Hst & Hh); [|done|by rewrite E1].
  pose proof (stepped_artifacts _ _ _ Hst) as A2. destruct Hst as [Hst _]. rewrite E1, <- E2 in *.
  exists cur. split; [done|]. split; [done|]. split; [done|]. split; [done|].
  split; [done|done| |by subst c|done|done]. destruct Hcur as (h & v & _ & _ & Ecur & _). subst c. cbn. by rewrite Ecur.
Qed.
End backend.
