(* ===== verification/Windows.v ===== *)
(** * Windows of a journal under a cursor

    Processors of a scope that observe a window, work on it, and then commit what
    they made of it together with the move of the cursor; everything else can
    happen in between.  Whatever the processors do, when each attempt does nothing
    or commits the window it observed under the generation it observed, the
    committed windows tile the journal. *)

From S2P Require Import Prelude.
From S2P Require Import GoStrings.
From S2P Require Import Trigger.
From S2P Require Import Refs.
From S2P Require Import Sql.
From S2P Require Import CursorStore.
From S2P Require Import SourceStore.
From S2P Require Import SourceStoreFacts.

(** A cursor with a generation and a journal; the values of a window of the
    journal, in order. *)
Class WindowStore (FS V : Type) := {
  ws_ok : FS -> Prop;
  ws_cursor : FS -> option (Cursor * Z);
  ws_head : FS -> Z;
  ws_values : FS -> Z -> Z -> list V -> Prop;
  ws_head_law st : ws_ok st -> 0 <= ws_head st <= max_int64;
  ws_generation st c g : ws_ok st -> ws_cursor st = Some (c, g) -> 1 <= g <= max_int64;
  ws_values_nil st a : 0 <= a <= ws_head st -> ws_values st a a [];
  ws_values_app st a b c us vs : a <= b <= c -> ws_values st a b us -> ws_values st b c vs -> ws_values st a c (us ++ vs)
}.

Section windows.
Context {FS V : Type} {W : WindowStore FS V} (limit : Z).
Implicit Types st seen : FS.

(** The position up to which windows are committed. *)
Definition done_to st : Z := default 0 (option_map (fun x => Sequence (fst x)) (ws_cursor st)).

(** What a store can be while processors run. *)
Record window_state st : Prop := {
  wst_ok : ws_ok st;
  wst_cursor : 0 <= done_to st <= ws_head st;
  wst_room : ws_head st + limit <= max_int64
}.

(** What is there stays: windows of the journal that could be read. *)
Definition journal_kept st st' : Prop :=
  (forall lo hi vs, ws_values st lo hi vs -> ws_values st' lo hi vs) /\ ws_head st <= ws_head st'.

(** What was observed of a store that is now [st]. *)
Definition observed_of seen st : Prop :=
  window_state seen /\ older_row (ws_cursor seen) (ws_cursor st) /\ journal_kept seen st.

(** A window that was committed: its bounds and the values it was made of. *)
Record Committed := MkCommitted { cw_window : ProcessSourceWindow; cw_values : list V }.

(** What an attempt on a window does: nothing, or it commits the window that comes
    next. *)
Definition window_effect st (log : list Committed) st' : Prop :=
  ws_ok st' /\ ws_head st' = ws_head st /\ (forall lo hi vs, ws_values st lo hi vs -> ws_values st' lo hi vs) /\
  ((ws_cursor st' = ws_cursor st /\ log = []) \/
   exists hi vs, done_to st < hi <= ws_head st /\ ws_values st' (done_to st) hi vs /\
     ws_cursor st' = Some (NewCursor hi, match option_map snd (ws_cursor st) with Some g => g + 1 | None => 1 end) /\
     log = [MkCommitted (MkWindow (done_to st) hi) vs]).

(** ** An attempt *)

(** What a processor that observed [seen] holds. *)
Record observation seen (previous next : Cursor) (generation : option Z) (values : list V) : Prop := {
  ob_generation : generation = option_map snd (ws_cursor seen);
  ob_previous : previous = default (NewCursor 0) (option_map fst (ws_cursor seen));
  ob_limit : 1 <= limit;
  ob_next : next = t_state (SourceWindowPolicy_Activate (MkWatermark (ws_head seen) limit) previous);
  ob_values : Sequence previous < Sequence next -> ws_values seen (Sequence previous) (Sequence next) values
}.

(** What its commit did to a store, when it was taken and when it was not. *)
Definition applied st (next : Cursor) (generation : option Z) (taken : bool) st' : Prop :=
  ws_ok st' /\ ws_head st' = ws_head st /\ (forall lo hi vs, ws_values st lo hi vs -> ws_values st' lo hi vs) /\
  (if taken then option_map snd (ws_cursor st) = generation /\
                 ws_cursor st' = Some (next, match generation with Some g => g + 1 | None => 1 end)
   else ws_cursor st' = ws_cursor st).

Lemma observation_to seen previous next generation values :
  observation seen previous next generation values -> Sequence previous = done_to seen.
Proof. intros []. unfold done_to. subst previous. by destruct (ws_cursor seen) as [[c g]|]. Qed.

Lemma observation_step seen previous next generation values :
  window_state seen -> observation seen previous next generation values ->
  if ws_head seen <=? Sequence previous then next = previous
  else next = NewCursor (Z.min (ws_head seen) (Sequence previous + limit)) /\ Sequence previous < Sequence next <= ws_head seen.
Proof.
  intros Hs Ho. pose proof (observation_to _ _ _ _ _ Ho) as Hprev. destruct Ho as [_ _ Hl Hn _].
  pose proof (window_step (MkWatermark (ws_head seen) limit) previous) as Hstep. cbn [w_sequence w_limit] in Hstep.
  pose proof (wst_cursor _ Hs) as Hc. pose proof (wst_room _ Hs) as Hroom. rewrite <- Hprev in Hc.
  specialize (Hstep ltac:(unfold in_room; cbn; lia)). cbv zeta in Hstep.
  destruct (Z.leb_spec (ws_head seen) (Sequence previous)); [by rewrite Hn, Hstep|].
  destruct Hstep as (th & E & H1 & _ & Eth). rewrite E in Hn. cbn in Hn. rewrite <- Eth. subst next. cbn. split; [done|lia].
Qed.

(** The next cursor is in the journal, and the generation can grow. *)
Lemma observation_bounds seen previous next generation values :
  window_state seen -> observation seen previous next generation values ->
  Sequence previous <= Sequence next <= ws_head seen /\ in_int64 (Sequence next) /\
  match generation with Some g => g <= max_int64 | None => True end.
Proof.
  intros Hs Ho. pose proof (observation_step _ _ _ _ _ Hs Ho) as Hstep. pose proof (observation_to _ _ _ _ _ Ho) as Hprev.
  pose proof (wst_cursor _ Hs) as Hc. pose proof (ws_head_law seen (wst_ok _ Hs)) as Hh. rewrite <- Hprev in Hc.
  assert (Hb : Sequence previous <= Sequence next <= ws_head seen).
  { destruct (Z.leb_spec (ws_head seen) (Sequence previous)); [rewrite Hstep; lia|lia]. }
  split; [done|]. split; [unfold in_int64, min_int64, max_int64 in *; lia|].
  rewrite (ob_generation _ _ _ _ _ Ho). destruct (ws_cursor seen) as [[c g]|] eqn:E; [|done]. cbn.
  apply ws_generation in E; [lia|apply Hs].
Qed.

Lemma effect_nothing st : window_state st -> window_effect st [] st.
Proof. intros Hs. split; [apply Hs|]. split; [done|]. split; [done|]. by left. Qed.

Lemma effect_applied seen st previous next generation values taken st' :
  window_state st -> observed_of seen st -> observation seen previous next generation values ->
  Sequence next <> Sequence previous -> applied st next generation taken st' ->
  window_effect st (if taken then [MkCommitted (MkWindow (Sequence previous) (Sequence next)) values] else []) st'.
Proof.
  intros Hst (Hseen & Hold & Hvals & Hhead) Ho Hne (Hok & Hh & Hmono & Happ).
  pose proof (observation_to _ _ _ _ _ Ho) as Hprev. destruct (observation_bounds _ _ _ _ _ Hseen Ho) as [Hb _].
  split; [done|]. split; [done|]. split; [done|]. destruct taken; [right|by left]. destruct Happ as [Hcur Hnew].
  assert (Hsame : ws_cursor st = ws_cursor seen) by (apply older_current; [done|rewrite Hcur; apply Ho]).
  assert (Hto : done_to st = Sequence previous) by (rewrite Hprev; unfold done_to; by rewrite Hsame).
  exists (Sequence next), values. rewrite Hto. split; [lia|]. split; [apply Hmono, Hvals, (ob_values _ _ _ _ _ Ho); lia|]. split; [|done].
  rewrite Hnew, Hcur. by destruct next.
Qed.

(** ** The world *)

Record WindowWorld := MkWorld { wo_store : FS; wo_seen : list FS; wo_log : list Committed }.

(** [attempt seen st log st']: an attempt on a window observed in [seen], on [st]. *)
Context (attempt : FS -> FS -> list Committed -> FS -> Prop).

Inductive world_moves : WindowWorld -> WindowWorld -> Prop :=
| win_observe w : world_moves w (MkWorld (wo_store w) (wo_store w :: wo_seen w) (wo_log w))
| win_attempt w seen log st' :
    seen ∈ wo_seen w -> attempt seen (wo_store w) log st' -> world_moves w (MkWorld st' (wo_seen w) (wo_log w ++ log))
| win_other w st' :
    ws_ok st' -> ws_cursor st' = ws_cursor (wo_store w) -> journal_kept (wo_store w) st' -> ws_head st' + limit <= max_int64 ->
    world_moves w (MkWorld st' (wo_seen w) (wo_log w)).

Inductive windows_reachable (st0 : FS) : WindowWorld -> Prop :=
| win_start : windows_reachable st0 (MkWorld st0 [] [])
| win_next w w' : windows_reachable st0 w -> world_moves w w' -> windows_reachable st0 w'.

(** A window was made of its own part of the journal. *)
Definition window_made st (c : Committed) : Prop := ws_values st (after (cw_window c)) (through (cw_window c)) (cw_values c).

Lemma windows_made_later st st' log :
  (forall lo hi vs, ws_values st lo hi vs -> ws_values st' lo hi vs) -> Forall (window_made st) log -> Forall (window_made st') log.
Proof. intros H Hm. eapply Forall_impl; [exact Hm|]. intros c. apply H. Qed.

(** The committed windows cover the journal from where the processors started. *)
Definition windows_ok (st0 : FS) (w : WindowWorld) : Prop :=
  window_state (wo_store w) /\
  Forall (fun seen => observed_of seen (wo_store w)) (wo_seen w) /\
  tiles (done_to st0) (done_to (wo_store w)) (map cw_window (wo_log w)) /\
  ws_values (wo_store w) (done_to st0) (done_to (wo_store w)) (concat (map cw_values (wo_log w))) /\
  Forall (window_made (wo_store w)) (wo_log w).

Lemma observed_later seen st st' :
  observed_of seen st -> older_row (ws_cursor seen) (ws_cursor st') -> journal_kept st st' -> observed_of seen st'.
Proof. intros (H1 & H2 & H3 & H4) Ho [Hv Hh]. split; [done|]. split; [done|]. split; [auto|lia]. Qed.

Lemma older_window seen st c :
  ws_ok st -> older_row (ws_cursor seen) (ws_cursor st) ->
  older_row (ws_cursor seen) (Some (c, match option_map snd (ws_cursor st) with Some g => g + 1 | None => 1 end)).
Proof.
  intros Hok Ho. apply older_save; [|done]. destruct (ws_cursor st) as [[c0 g0]|] eqn:Er; [|done].
  by apply ws_generation in Er as [Er _].
Qed.

Context (Hattempt : forall seen st log st', window_state st -> observed_of seen st -> attempt seen st log st' -> window_effect st log st').

Lemma window_step_ok st0 w w' : world_moves w w' -> windows_ok st0 w -> windows_ok st0 w'.
Proof.
  intros Hstep (Hst & Hseen & Ht & Hv & Hm). destruct Hstep as [w|w seen log st' Hin H|w st' Hok Hcur Hkept Hroom]; unfold windows_ok in *; cbn.
  - split; [done|]. split; [|done]. constructor; [|done]. split; [done|]. split; [apply older_refl|]. by split.
  - rewrite Forall_forall in Hseen. apply Hattempt in H as (Hok & Hh & Hmono & Hcases); [|done|by apply Hseen].
    destruct Hcases as [[Hcur ->]|(hi & vs & Hhi & Hvs & Hcur & ->)].
    + assert (Hto : done_to st' = done_to (wo_store w)) by (unfold done_to; by rewrite Hcur).
      rewrite app_nil_r, Hto. split; [split; [done|rewrite Hto, Hh; apply Hst|rewrite Hh; apply Hst]|]. split; [|eauto using windows_made_later].
      apply Forall_forall. intros x Hx. pose proof (Hseen x Hx) as Hox. eapply observed_later; [done|rewrite Hcur; apply Hox|split; [done|lia]].
    + assert (Hto : done_to st' = hi) by (unfold done_to; by rewrite Hcur).
      rewrite !map_app, concat_app, Hto. cbn. rewrite app_nil_r.
      pose proof (wst_cursor _ Hst) as Hc. split; [split; [done|rewrite Hto; lia|rewrite Hh; apply Hst]|]. split; [|split; [|split]].
      * apply Forall_forall. intros x Hx. pose proof (Hseen x Hx) as Hox. eapply observed_later; [done| |split; [done|lia]].
        rewrite Hcur. apply older_window; [apply Hst|apply Hox].
      * eapply tiles_app; [exact Ht|]. cbn. split; [done|]. split; [lia|done].
      * apply tiles_mono in Ht. eapply ws_values_app; [|apply Hmono; exact Hv|exact Hvs]. lia.
      * apply Forall_app. split; [by eapply windows_made_later|]. by apply Forall_singleton.
  - assert (Hto : done_to st' = done_to (wo_store w)) by (unfold done_to; by rewrite Hcur). rewrite Hto.
    pose proof (wst_cursor _ Hst) as Hc. split; [split; [done|rewrite Hto; destruct Hkept; lia|done]|].
    split; [|split; [done|split; [by apply Hkept|by eapply windows_made_later; [apply Hkept|]]]].
    eapply Forall_impl; [exact Hseen|]. intros x Hox. apply (observed_later _ (wo_store w)); [exact Hox|rewrite Hcur; apply Hox|done].
Qed.

Lemma windows_reachable_ok st0 w : window_state st0 -> windows_reachable st0 w -> windows_ok st0 w.
Proof.
  intros Hst. induction 1 as [|w w' _ IH Hstep]; [|by eapply window_step_ok]. unfold windows_ok. cbn.
  split; [done|]. split; [constructor|]. split; [done|]. split; [|constructor]. apply ws_values_nil. by destruct Hst.
Qed.

(** The committed windows tile; their values are together those of the journal, and
    each one's are those of its part. *)
Lemma windows_tile st0 w :
  window_state st0 -> windows_reachable st0 w ->
  tiles (done_to st0) (done_to (wo_store w)) (map cw_window (wo_log w)) /\
  ws_values (wo_store w) (done_to st0) (done_to (wo_store w)) (concat (map cw_values (wo_log w))) /\
  Forall (window_made (wo_store w)) (wo_log w).
Proof. intros Hst Hr. by apply (windows_reachable_ok st0). Qed.

(** What holds of each window that an attempt commits holds of every committed
    window, of the step that committed it. *)
Lemma windows_committed (Q : FS -> FS -> Committed -> Prop) st0 w :
  (forall seen st log st', attempt seen st log st' -> Forall (Q st st') log) -> windows_reachable st0 w ->
  Forall (fun c => exists w1 w2, windows_reachable st0 w1 /\ world_moves w1 w2 /\ Q (wo_store w1) (wo_store w2) c) (wo_log w).
Proof.
  intros HQ. induction 1 as [|w w' Hr IH Hstep]; [constructor|]. pose proof Hstep as Hmove.
  destruct Hstep as [w|w seen log st' Hin H|w st' Hok Hcur Hkept Hroom]; cbn; [exact IH| |exact IH]. apply Forall_app. split; [exact IH|].
  apply HQ in H. eapply Forall_impl; [exact H|]. intros c Hc. by eexists w, _.
Qed.
End windows.

(** ** The windows of a scope in the relational store

    The stores of Memory and of Experiences observe a window alike: the cursor of a
    binding, the head of the journal, and the window that the policy makes of them. *)

Section sql.
Context {Tb V O : Type} {HS : Holds Tb SourceTables} {HC : Holds Tb CursorRows} {SV : SourceValues V O} {OB : Observations Tb O}.
(** The adapters of the Sources, those that are worked on, and what the other
    tables satisfy. *)
Context (scope : string) (repo : SourceRepository V) (keep : V -> bool) (others : Tb -> Prop).
Implicit Types (s : SessionOf Tb).
Notation sources s := (sources_of (tables s)).

Record Activation := MkActivation {
  ac_previous : Cursor; ac_generation : option Z; ac_highWatermark : Z; ac_next : Cursor; ac_actions : list ProcessSourceWindow
}.

Definition observe_activation (binding : string) (limit : Z) : txn Tb Activation :=
  let! state := Load scope binding in
  let previous := match state with Some state => sc_cursor state | None => InitialState end in
  let generation := option_map sc_generation state in
  let! highWatermark := JournalPosition scope in
  let! signal := tx_lift (map_err (fun _ => SSource "watermark") (NewSourceHighWatermark highWatermark limit)) in
  let transition := SourceWindowPolicy_Activate signal previous in
  tx_ret (MkActivation previous generation highWatermark (t_state transition) (t_actions transition)).

Definition kept_values (l : list (StoredSource V)) : list V := map ss_value (List.filter (fun x => keep (ss_value x)) l).

(** The part of a list after [a], up to [b]. *)
Definition slice {X} (a b : Z) (l : list X) : list X := take (Z.to_nat b - Z.to_nat a) (drop (Z.to_nat a) l).

(** [vs] are the values of the rows of the journal after [a], up to [b], in order:
    every row has a value, and those that are worked on are kept. *)
Definition journal_values (t : SourceTables) (a b : Z) (vs : list V) : Prop :=
  0 <= a <= b /\ b <= head_of t scope /\
  exists all, map (row_value repo) (slice a b (journal t scope)) = map Some all /\ vs = List.filter keep all.

Lemma decoded_values (selected : list StoredRow) l :
  Forall2 (decoded repo) selected l -> exists all, map (row_value repo) selected = map Some all /\ kept_values l = List.filter keep all.
Proof.
  intros H. exists (map ss_value l). induction H as [|row st selected l (_ & _ & E) _ [IH1 IH2]]; [done|]. cbn [map]. rewrite E, IH1.
  split; [done|]. unfold kept_values in *. cbn [List.filter]. by destruct (keep (ss_value st)); cbn; rewrite IH2.
Qed.

(** The values of a window are determined by the journal. *)
Lemma journal_values_unique t a b us vs : journal_values t a b us -> journal_values t a b vs -> us = vs.
Proof.
  intros (_ & _ & l & El & ->) (_ & _ & l' & El' & ->). rewrite El in El'. f_equal. revert l' El'.
  clear El. induction l as [|x l IH]; intros [|y l'] H; cbn in H; try done. injection H as -> H. f_equal. by apply IH.
Qed.

(** A journal that grows keeps the values of its windows. *)
Lemma journal_values_grown t t' a b vs :
  journal_ok t -> journal_ok t' -> journal t scope `prefix_of` journal t' scope -> journal_values t a b vs -> journal_values t' a b vs.
Proof.
  intros Hj Hj' [more Em] (Hab & Hb & all & Hall & ->). pose proof (journal_length _ scope Hj) as Hn. pose proof (journal_length _ scope Hj') as Hn'.
  pose proof (head_nonneg _ scope Hj) as H0. pose proof (head_nonneg _ scope Hj') as H0'.
  pose proof (f_equal length Em) as Hlen. rewrite length_app in Hlen. split; [done|]. split; [lia|]. exists all. split; [|done]. rewrite <- Hall. f_equal.
  unfold slice. rewrite Em, drop_app_le by lia. apply take_app_le. rewrite length_drop. lia.
Qed.

Lemma JournalPosition_ok s p s' :
  journal_ok (sources s) -> JournalPosition scope s = (Ok p, s') -> p = head_of (sources s) scope /\ tables s' = tables s.
Proof.
  intros Hj. unfold JournalPosition. intros H. tx_inv H. tx_pure. apply read_ok in H as [-> E]. split; [|done].
  assert (Es : select_rows (sources s) scope (fun _ => true) = journal (sources s) scope).
  { apply select_eq; [done|apply select_rows_NoDup|apply select_rows_sorted|]. intros row. unfold journal, select_after.
    rewrite !select_rows_in. split; intros (r & [payload q] & Hr & _ & ->); exists r, (payload, q); (split; [done|]; split; [|done]); [|done].
    apply Z.ltb_lt. pose proof (positions_positive _ _ _ _ _ Hj Hr). cbn. lia. }
  change (rows (tables s)) with (sources s). rewrite Es. pose proof (head_nonneg _ scope Hj) as Hn.
  pose proof (journal_length _ scope Hj) as Hl. rewrite last_lookup.
  destruct (journal (sources s) scope !! pred (length (journal (sources s) scope))) as [row|] eqn:Er; cbn.
  - rewrite (journal_lookup _ _ _ _ Hj Er). apply lookup_lt_Some in Er. lia.
  - apply lookup_ge_None in Er. lia.
Qed.

Definition window_tables (t : Tb) : Prop := journal_ok (sources_of t) /\ cursors_ok (rows t) /\ others t.

(** What is observed before the Sources are listed: the state of the store, and the
    window of the policy, if there is one. *)
Lemma observe_activation_ok binding limit s ac s' :
  window_tables (tables s) -> observe_activation binding limit s = (Ok ac, s') ->
  let cursor := cursor_at (tables s) scope binding in
  let head := head_of (sources s) scope in
  tables s' = tables s /\
  ac_generation ac = option_map snd cursor /\ ac_previous ac = default (NewCursor 0) (option_map fst cursor) /\
  ac_highWatermark ac = head /\ 1 <= limit /\
  ac_next ac = t_state (SourceWindowPolicy_Activate (MkWatermark head limit) (ac_previous ac)) /\
  ((ac_actions ac = [] /\ ac_next ac = ac_previous ac) \/
   ac_actions ac = [MkWindow (Sequence (ac_previous ac)) (Sequence (ac_next ac))]).
Proof.
  intros (Hj & Hc & Hr) H. cbv zeta. unfold observe_activation in H. tx_inv H. tx_pure.
  apply Load_cursor in Ha as [E2 Hcur]. apply JournalPosition_ok in Ha0 as [-> E3]; [|by rewrite E2].
  rewrite E2 in *. unfold NewSourceHighWatermark in Heqr. bind_inv Heqr. injection Heqr as <-. apply check_ok_inv, Z.leb_le in Ha, Ha0.
  cbn [ac_previous ac_generation ac_highWatermark ac_next ac_actions]. split; [congruence|].
  split; [rewrite Hcur; by destruct a|]. split; [rewrite Hcur; by destruct a|]. split; [done|]. split; [lia|]. split; [done|].
  unfold SourceWindowPolicy_Activate. cbn. destruct (_ <=? _); [by left|by right].
Qed.

Lemma slice_app {X} (a b c : Z) (l : list X) : 0 <= a <= b -> b <= c -> slice a c l = slice a b l ++ slice b c l.
Proof.
  intros Hab Hbc. unfold slice. replace (Z.to_nat c - Z.to_nat a)%nat with ((Z.to_nat b - Z.to_nat a) + (Z.to_nat c - Z.to_nat b))%nat by lia.
  replace (drop (Z.to_nat b) l) with (drop (Z.to_nat b - Z.to_nat a) (drop (Z.to_nat a) l)) by (rewrite drop_drop; f_equal; lia).
  by rewrite take_take_drop.
Qed.

Lemma journal_values_app t a b c us vs :
  a <= b <= c -> journal_values t a b us -> journal_values t b c vs -> journal_values t a c (us ++ vs).
Proof.
  intros Habc (H1 & H2 & l & Hl & ->) (H3 & H4 & l' & Hl' & ->). split; [lia|]. split; [done|]. exists (l ++ l').
  rewrite (slice_app a b c) by lia. by rewrite !map_app, Hl, Hl', List.filter_app.
Qed.

(** The windows of a binding of the store. *)
Definition sql_windows (binding : string) : WindowStore (SessionOf Tb) V.
Proof.
  refine {| ws_ok st := window_tables (tables st);
            ws_cursor st := cursor_at (tables st) scope binding;
            ws_head st := head_of (sources st) scope;
            ws_values st a b vs := journal_values (sources st) a b vs |}.
  - intros st (Hj & _). by apply head_nonneg.
  - intros st c g (_ & Hc & _) H. unfold cursor_at in H. cbn in H.
    destruct (cursor_row (tables st) scope binding) as [[payload g']|] eqn:Er; [|done]. cbn in H. unfold read_cursor in H. cbn in H.
    destruct (decodeSourceCursor payload); [|done]. injection H as _ <-. by destruct (Hc _ _ _ Er) as [H1 _].
  - intros st a Ha. split; [lia|]. split; [lia|]. exists []. unfold slice. by rewrite Nat.sub_diag.
  - intros st a b c us vs. apply journal_values_app.
Defined.

(** The rows of a window. *)
Lemma listed_window t (rows : list StoredRow) a b :
  journal_ok t -> 0 <= a <= b -> b <= head_of t scope ->
  rows = filter (fun row => a < row_position row) (journal t scope) -> take (Z.to_nat b - Z.to_nat a) rows = slice a b (journal t scope).
Proof.
  intros Hj Hab Hb ->. pose proof (head_nonneg _ scope Hj) as Hn.
  by rewrite (filter_positions _ (head_of t scope)) by (try lia; by apply journal_positions).
Qed.
End sql.
