(* ===== verification/MemoryFlush.v ===== *)
(** * The windows of Sources that become Memory ([internal/sqlstore/memory_flush.go])

    What a store of windows promises, the relational store that keeps it, and the
    flushes of a scope as steps of a world where other flushes and other writers
    come between the transactions of each: the windows that are committed follow
    each other without gap or overlap, and each is planned from the values of its
    rows. *)

From S2P Require Import Prelude.
From S2P Require Import GoStrings.
From S2P Require Import Refs.
From S2P Require Import Json.
From S2P Require Import JsonText.
From S2P Require Import MemoryModel.
From S2P Require Import Sql.
From S2P Require Import ArtifactStore.
From S2P Require Import ArtifactStoreFacts.
From S2P Require Import MemoryService.
From S2P Require Import MemorySearch.
From S2P Require Import MemoryCodec.
From S2P Require Import MemoryRepository.
From S2P Require Import MemoryRepositoryFacts.
From S2P Require Import MemoryBackend.
From S2P Require Import Trigger.
From S2P Require Import MemoryApplication.
From S2P Require Import CursorStore.
From S2P Require Import Windows.
From S2P Require Import SourceStore.
From S2P Require Import SourceStoreFacts.

(** ** The contract *)

(** For each binding a window store; what is observed is one state of it, and a plan
    is applied together with the cursor or not at all. *)
Class MemoryFlushLaws (FS V : Type) `{MemoryFlushBackend FS V} := {
  flush_windows : string -> WindowStore FS V;
  observe_law st binding limit w :
    let W := flush_windows binding in
    ws_ok st -> ObserveWindow st binding limit = Ok w ->
    observation limit st (ow_previous w) (ow_next w) (ow_generation w) (ow_values w) /\ ow_highWatermark w = ws_head st;
  apply_law st binding plan c g r st' :
    let W := flush_windows binding in
    ws_ok st -> in_int64 (Sequence c) -> match g with Some g => g <= max_int64 | None => True end ->
    ApplyWindow st binding plan c g = (r, st') -> applied st c g (is_ok r) st'
}.

(** ** The relational store *)

Section sql.
Context {T : Text} {Tb C V O I : Type} {HA : Holds Tb Tables} {HM : Holds Tb MemoryTables} {HI : Holds Tb I}
        {HS : Holds Tb SourceTables} {HC : Holds Tb CursorRows} {DC : Dynamic C} {CC : Carries C MemoryModel.Content}
        {SV : SourceValues V O} {OB : Observations Tb O}.
(** Whether [TextEvidence] of an accepted observation succeeds. *)
Context (has_text : O -> bool).

Record MemoryFlushStore := MkFlushStore {
  fl_scope : string; fl_sources : SourceRepository V; fl_memory : MemoryRepository Tb C
}.

Definition NewMemoryFlushStore (scope : string) (sources : SourceRepository V) (memory : MemoryRepository Tb C)
  : result store_error MemoryFlushStore :=
  let* _ := requireScope scope in
  require String.eqb (mr_scope memory) scope else SCodec "Memory Flush repository" in
  Ok (MkFlushStore scope sources memory).

(** Raw observations, and accepted ones without text, are consumed without being
    planned. *)
Definition planned (value : V) : bool :=
  match as_observation value with
  | Some _ => false
  | None => match as_accepted value with Some o => has_text o | None => true end
  end.

Fixpoint window_values (rows : list (StoredSource V)) (through : Z) : list V :=
  match rows with
  | [] => []
  | row :: more =>
      if through <? ss_position row then []
      else if planned (ss_value row) then ss_value row :: window_values more through
      else window_values more through
  end.

Context (store : MemoryFlushStore).
Notation scope := (fl_scope store).

Definition observe_window (binding : string) (limit : Z) : txn Tb (ObservedWindow V) :=
  Transaction (
    let! ac := observe_activation scope binding limit in
    match ac_actions ac with
    | [] => tx_ret (MkObserved (ac_previous ac) (ac_next ac) (ac_generation ac) (ac_highWatermark ac) [])
    | action :: _ =>
        let! rows := ListSources (fl_sources store) scope (after action) None in
        tx_ret (MkObserved (ac_previous ac) (ac_next ac) (ac_generation ac) (ac_highWatermark ac)
                  (window_values rows (through action)))
    end).

Definition apply_window (binding : string) (plan : WritePlan) (next : Cursor) (expectedGeneration : option Z)
  : txn Tb (option Memory) :=
  Transaction (
    let! result := applyPlan (fl_memory store) plan in
    let! _ := Save scope binding next expectedGeneration in
    tx_ret result).

Definition app_store_error (e : store_error) : app_error :=
  match e with SMemory e => AMemory e | SConflict r c => AMemory (ERevisionConflict r c) | _ => AStore "database" end.

#[local] Instance sql_flush : MemoryFlushBackend (SessionOf Tb) V := {
  ObserveWindow st binding limit := map_err app_store_error (fst (observe_window binding limit st));
  ApplyWindow st binding plan next g :=
    let (r, st') := apply_window binding plan next g st in (map_err app_store_error r, st')
}.

(** *** What they do *)

Implicit Types (s st : SessionOf Tb).
Notation sources s := (sources_of (tables s)).
Notation artifact_rows t := (rows t : Tables).

Notation kept_values := (kept_values planned).
Notation journal_values := (journal_values scope (fl_sources store) planned).
Notation decoded := (decoded (fl_sources store)).

Lemma window_values_spec (rows : list StoredRow) (l : list (StoredSource V)) (a through : Z) :
  0 <= a -> a <= through ->
  Forall2 decoded rows l -> (forall i row, rows !! i = Some row -> row_position row = a + Z.of_nat i + 1) ->
  window_values l through = kept_values (take (Z.to_nat through - Z.to_nat a) l).
Proof.
  intros Ha Hth H. revert a Ha Hth. induction H as [|row x rows l (_ & Hx & _) H IH]; intros a Ha Hth Hp; cbn [window_values]; [by rewrite take_nil|].
  pose proof (Hp 0%nat row eq_refl) as H0. destruct (Z.ltb_spec through (ss_position x)) as [Hlt|Hle].
  - by rewrite (proj2 (Nat.sub_0_le _ _)) by lia.
  - destruct (Z.to_nat through - Z.to_nat a)%nat as [|k] eqn:Ek; [lia|]. cbn [take].
    rewrite (IH (a + 1)) by (try lia; intros i r Hi; rewrite (Hp (Datatypes.S i) r Hi); lia).
    replace (Z.to_nat through - Z.to_nat (a + 1))%nat with k by lia.
    unfold kept_values. cbn [List.filter]. by destruct (planned (ss_value x)).
Qed.

Notation flush_tables := (window_tables (fun t => rows_ok (artifact_rows t))).

(** What is observed is one state of the store. *)
Lemma observe_window_ok binding limit s w s' :
  flush_tables (tables s) -> observe_window binding limit s = (Ok w, s') ->
  let cursor := cursor_at (tables s) scope binding in
  ow_generation w = option_map snd cursor /\ ow_previous w = default (NewCursor 0) (option_map fst cursor) /\
  ow_highWatermark w = head_of (sources s) scope /\ 1 <= limit /\
  ow_next w = t_state (SourceWindowPolicy_Activate (MkWatermark (head_of (sources s) scope) limit) (ow_previous w)) /\
  (Sequence (ow_previous w) < Sequence (ow_next w) ->
   journal_values (sources s) (Sequence (ow_previous w)) (Sequence (ow_next w)) (ow_values w)).
Proof.
  intros Ht H. apply transaction_ok in H as (s1 & s2 & E1 & H & _). rewrite <- E1 in *. clear E1 s'. cbv zeta in *.
  tx_inv H. apply (observe_activation_ok _ _ _ _ _ _ _ Ht) in Ha as (E & Hg & Hp & Hh & Hl & Hn & Hacts). destruct Ht as (Hj & _).
  destruct Hacts as [[Ea En]|Ea]; rewrite Ea in H.
  - apply tx_ret_ok in H as [<- _]. cbn. do 5 (split; [done|]). rewrite En. lia.
  - cbn [after through] in H. tx_inv H. apply tx_ret_ok in H as [<- _]. apply ListSources_ok in Ha as (_ & H0 & Hrows); [|by rewrite E].
    rewrite E in Hrows. cbn. do 5 (split; [done|]). intros Hlt. pose proof (head_nonneg _ scope Hj) as Hnn.
    assert (Hb : Sequence (ac_next a) <= head_of (sources s1) scope).
    { rewrite Hn in Hlt |- *. unfold SourceWindowPolicy_Activate in *. cbn in *. destruct (_ <=? _); cbn in *; lia. }
    split; [lia|]. split; [done|]. set (n := (Z.to_nat (Sequence (ac_next a)) - Z.to_nat (Sequence (ac_previous a)))%nat).
    pose proof (Forall2_take _ _ _ n Hrows) as Htaken. unfold n in Htaken at 1. erewrite listed_window in Htaken; [|done|lia|done|done].
    apply (decoded_values _ planned) in Htaken as (all & Hall & Hkept). exists all. split; [done|]. rewrite <- Hkept.
    eapply window_values_spec; [lia|lia|exact Hrows|]. intros i row Hi. unfold limited in Hi.
    rewrite (filter_positions _ (head_of (sources s1) scope)) in Hi by (try lia; by apply journal_positions).
    rewrite lookup_drop in Hi. rewrite (journal_lookup _ _ _ _ Hj Hi). lia.
Qed.

Context {AAM : Apart Tb Tables MemoryTables} {AIA : Apart Tb I Tables} {AIM : Apart Tb I MemoryTables}
        {AAS : Apart Tb Tables SourceTables} {AMS : Apart Tb MemoryTables SourceTables} {AIS : Apart Tb I SourceTables}
        {AAC : Apart Tb Tables CursorRows} {AMC : Apart Tb MemoryTables CursorRows} {AIC : Apart Tb I CursorRows}
        {ASC : Apart Tb SourceTables CursorRows}.
Context (codec : ArtifactCodec Tb C) (Hcodec : MemoryArtifactCodec = Ok codec)
        (Hrepo : mr_artifacts (fl_memory store) !! MemoryModel.Family = Some codec)
        (Hindex : index_laws I (mr_index (fl_memory store))).
Notation memory_rows t := (rows t : MemoryTables).

Lemma committed_rows c (t t1 t' : Tb) :
  committed (fl_memory store) c t t1 -> artifact_rows t' = artifact_rows t1 -> memory_rows t' = memory_rows t1 ->
  committed (fl_memory store) c t t'.
Proof. intros [] Ea Em. split; try done; by rewrite ?Ea, ?Em. Qed.

(** What applying a plan did to Memory. *)
Definition plan_applied (plan : WritePlan) (t t' : Tb) : Prop :=
  match wp_commit plan with
  | Some c => wp_result plan = Some (cm_memory c) /\ committed (fl_memory store) c t t'
  | None => artifact_rows t' = artifact_rows t /\ memory_rows t' = memory_rows t
  end.

Lemma apply_window_ok binding plan next g s m s' :
  flush_tables (tables s) -> in_int64 (Sequence next) -> match g with Some g => g <= max_int64 | None => True end ->
  apply_window binding plan next g s = (Ok m, s') ->
  flush_tables (tables s') /\ sources s' = sources s /\ m = wp_result plan /\ plan_applied plan (tables s) (tables s') /\
  option_map snd (cursor_at (tables s) scope binding) = g /\
  cursor_at (tables s') scope binding = Some (next, match g with Some g => g + 1 | None => 1 end) /\
  forall sc b, (sc, b) <> (scope, binding) -> cursor_at (tables s') sc b = cursor_at (tables s) sc b.
Proof.
  intros (Hj & Hc & Hr) Hin Hg H. apply transaction_ok in H as (s1 & s2 & E1 & H & E2). rewrite E2, <- E1 in *. clear E1 E2 s'.
  tx_inv H. apply tx_ret_ok in H as [<- <-].
  pose proof (applyPlan_frame (R := SourceTables) _ _ Hcodec Hrepo Hindex _ _ _ _ Hr Ha) as Fs.
  pose proof (applyPlan_frame (R := CursorRows) _ _ Hcodec Hrepo Hindex _ _ _ _ Hr Ha) as Fc.
  apply (applyPlan_ok _ _ Hcodec Hrepo Hindex) in Ha as [-> Hp]; [|done].
  apply Save_cursor in Ha0 as (C1 & Hc' & H1 & H2 & H3); [|by rewrite Fc|done|done].
  assert (Es : sources s2 = sources s1) by (unfold sources_of; rewrite (changed_apart_left _ _ C1); exact Fs).
  assert (Ec : forall sc b, cursor_at (tables st) sc b = cursor_at (tables s1) sc b) by (intros; unfold cursor_at, cursor_row; by rewrite Fc).
  assert (Ea : artifact_rows (tables s2) = artifact_rows (tables st)) by exact (changed_apart_left _ _ C1).
  assert (Em : memory_rows (tables s2) = memory_rows (tables st)) by exact (changed_apart_left _ _ C1).
  assert (Hp' : plan_applied plan (tables s1) (tables s2)).
  { unfold plan_applied. destruct (wp_commit plan) as [c|]; [|by rewrite Ea, Em, Hp].
    destruct Hp as [E Hp]. split; [done|]. by eapply committed_rows. }
  assert (Hr' : rows_ok (artifact_rows (tables s2))).
  { unfold plan_applied in Hp'. destruct (wp_commit plan) as [c|]; [|by destruct Hp' as [-> _]].
    destruct Hp' as [_ Hp']. eapply grown_rows; [exact Hr|apply (cd_grown _ _ _ _ Hp')]. }
  split; [split; [by rewrite Es|done]|]. split; [done|]. split; [done|]. split; [done|]. rewrite <- Ec. split; [done|].
  split; [done|]. intros sc b Hne. rewrite <- Ec. by apply H3.
Qed.

#[local] Instance sql_flush_laws : MemoryFlushLaws (SessionOf Tb) V.
Proof.
  refine {| flush_windows := sql_windows scope (fl_sources store) planned (fun t => rows_ok (artifact_rows t)) |}.
  - intros st binding limit w W Hok H. cbn in H. destruct (observe_window binding limit st) as [[w'|e] st'] eqn:E; [|done].
    injection H as ->. apply observe_window_ok in E as (H1 & H2 & H3 & H4 & H5 & H6); [|done]. by split.
  - intros st binding plan c g r st' W Hok Hc Hg H. cbn in H. unfold applied, W. cbn.
    destruct (apply_window binding plan c g st) as [[m|e] st2] eqn:E; injection H as <- <-; cbn.
    + apply apply_window_ok in E as (H1 & H2 & _ & _ & H3 & H4 & _); [|done..]. rewrite H2. done.
    + apply transaction_err in E. by rewrite E.
Defined.
End sql.

(** ** Flushes of one scope *)

Section flushes.
Context {T : Text} {A : Analysis} {V S : Type} {VS : Values V S} {DB : Type} {B : Backend DB} {I : Type}
        {FS : Type} {FB : MemoryFlushBackend FS V} {L : MemoryFlushLaws FS V}.
Context (a : MemoryApplication V S I) (scope : string).

#[local] Instance source_windows : WindowStore FS V := flush_windows SourceWindowName.
Notation limit := (sourceWindowLimit a).

Definition committed_window (seen : FS) (r : ares MemoryFlushResult) : list (Committed (V := V)) :=
  match ObserveWindow seen SourceWindowName limit, r with
  | Ok w, Ok result =>
      if Processed result then [MkCommitted (MkWindow (PreviousCursor result) (CurrentCursor result)) (ow_values w)] else []
  | _, _ => []
  end.

(** A flush observes, plans from any state of the Memory, and applies. *)
Definition flushing (seen st : FS) (log : list Committed) (st' : FS) : Prop :=
  exists (db : DB) ids r, flushWindow a seen db st scope ids = (r, st') /\ log = committed_window seen r.

Lemma flush_effect seen st log st' :
  window_state limit st -> observed_of limit seen st -> flushing seen st log st' -> window_effect st log st'.
Proof.
  intros Hst Hobs (db & ids & r & H & ->). unfold flushWindow in H.
  assert (Hkeep : forall e, (Err e, st) = (r, st') -> window_effect st (committed_window seen r) st').
  { intros e [= <- <-]. unfold committed_window. destruct (ObserveWindow _ _ _); by eapply effect_nothing. }
  destruct (let* factory := _ in _) as [w|e] eqn:Ew; [|by apply (Hkeep e)].
  apply bind_ok_inv in Ew as (factory & _ & Ew). apply bind_ok_inv in Ew as (present & _ & Ew).
  apply bind_ok_inv in Ew as (u & _ & Ew). pose proof Ew as Ho.
  apply observe_law in Ho as [Ho _]; [|apply Hobs]. pose proof (observation_bounds _ _ _ _ _ _ (proj1 Hobs) Ho) as (Hb & Hin & Hg).
  destruct (Z.eqb_spec (Sequence (ow_next w)) (Sequence (ow_previous w))) as [He|Hne].
  - injection H as <- <-. unfold committed_window. rewrite Ew. unfold Processed. cbn. rewrite He, Z.ltb_irrefl. by eapply effect_nothing.
  - destruct (let* svc := _ in _) as [[plan ids']|e]; [|by apply (Hkeep e)].
    destruct (ApplyWindow st _ _ _ _) as [applied_ st2] eqn:Ea. injection H as Hr <-.
    apply apply_law in Ea; [|apply Hst|done|done]. eapply effect_applied in Ea; [|done|exact Hobs|exact Ho|done].
    unfold committed_window. rewrite Ew, <- Hr. destruct applied_ as [m|e]; cbn in *; [|done].
    unfold Processed. cbn. rewrite (proj2 (Z.ltb_lt _ _)) by lia. exact Ea.
Qed.

(** A committed window was planned from its values, on a state of the Memory, and
    the plan was applied by the step that committed it. *)
Definition window_planned (st st' : FS) (c : Committed) : Prop :=
  exists svc (db : DB) ids current plan ids' g m,
    service a scope = Ok svc /\ headOrNone a db = Ok current /\
    PlanRemember svc db current (cw_values c) [] [] RememberExtract ids = Ok (plan, ids') /\
    ApplyWindow st SourceWindowName plan (NewCursor (through (cw_window c))) g = (Ok m, st').

Lemma flushing_planned seen st log st' : flushing seen st log st' -> Forall (window_planned st st') log.
Proof.
  intros (db & ids & r & H & ->). unfold committed_window. destruct (ObserveWindow seen _ _) as [w|e] eqn:Ew; [|constructor].
  destruct r as [result|e]; [|constructor]. destruct (Processed result) eqn:Ep; [|constructor]. apply Forall_singleton.
  unfold flushWindow in H. rewrite Ew in H. destruct (let* factory := _ in _) as [w'|e] eqn:Eo; [|done].
  apply bind_ok_inv in Eo as (factory & _ & Eo). apply bind_ok_inv in Eo as (present & _ & Eo). apply bind_ok_inv in Eo as (u & _ & [= <-]).
  destruct (Z.eqb_spec (Sequence (ow_next w)) (Sequence (ow_previous w))) as [He|_].
  { injection H as <- _. unfold Processed in Ep. cbn in Ep. by rewrite He, Z.ltb_irrefl in Ep. }
  destruct (let* svc := _ in _) as [[plan ids']|e] eqn:Eplan; [|done].
  bind_inv Eplan. apply map_err_ok in Eplan. destruct (ApplyWindow st _ _ _ _) as [[m|e] st2] eqn:Ea; [|done]. injection H as <- <-.
  exists a0, db, ids, a1, plan, ids', (ow_generation w), m. cbn. do 3 (split; [done|]). rewrite <- Ea. by destruct (ow_next w).
Qed.

(** A flush of a store that nobody else writes advances the cursor by the limit,
    or to the head of the journal, when its planning succeeds and the store takes
    the window; at the head it does nothing. *)
Theorem flush_progress st (db : DB) ids :
  window_state limit st -> 1 <= limit -> flushes a = Some (fun _ => Ok true) ->
  forall w, ObserveWindow st SourceWindowName limit = Ok w ->
  if ws_head st <=? done_to st then
    flushWindow a st db st scope ids
      = (Ok (MkFlushResult (done_to st) (done_to st) (ws_head st) (Z.of_nat (length (ow_values w))) None), st)
  else
    let hi := Z.min (ws_head st) (done_to st + limit) in
    forall svc current plan ids',
    service a scope = Ok svc -> headOrNone a db = Ok current ->
    PlanRemember svc db current (ow_values w) [] [] RememberExtract ids = Ok (plan, ids') ->
    let (applied, st') := ApplyWindow st SourceWindowName plan (NewCursor hi) (ow_generation w) in
    flushWindow a st db st scope ids
      = (let* m := applied in
         Ok (MkFlushResult (done_to st) hi (ws_head st) (Z.of_nat (length (ow_values w))) (option_map a_ref m)), st').
Proof.
  intros Hst Hlim Hf w Hw. destruct (observe_law _ _ _ _ (wst_ok _ _ Hst) Hw) as [Ho Hh].
  pose proof (observation_to (W := source_windows) _ _ _ _ _ _ Ho) as Hprev.
  pose proof (observation_step (W := source_windows) _ _ _ _ _ _ Hst Ho) as Hstep. rewrite Hprev in Hstep.
  unfold flushWindow. rewrite Hf. cbn [of_option bind check]. rewrite Hw. cbn [bind].
  destruct (Z.leb_spec (ws_head st) (done_to st)) as [Hle|Hlt].
  - rewrite Hstep, Z.eqb_refl, Hprev, Hh. reflexivity.
  - set (hi := Z.min _ _). intros svc current plan ids' Hs Hcur Hplan. destruct Hstep as [En H1]. fold hi in En. rewrite En in *.
    cbn [Sequence] in *. rewrite Hprev, (proj2 (Z.eqb_neq _ _)) by lia.
    rewrite Hs. cbn [bind]. rewrite Hcur. cbn [bind]. rewrite Hplan. cbn [of_memory map_err bind].
    destruct (ApplyWindow st _ _ _ _) as [applied st']. rewrite Hh. reflexivity.
Qed.
End flushes.

(** ** Flushes of a scope in the relational store *)

Section relational.
Context {T : Text} {A : Analysis} {Tb C V O S I Ids DB : Type} {VS : Values V S} {B : Backend DB}
        {HA : Holds Tb Tables} {HM : Holds Tb MemoryTables} {HI : Holds Tb I}
        {HS : Holds Tb SourceTables} {HC : Holds Tb CursorRows} {DC : Dynamic C} {CC : Carries C MemoryModel.Content}
        {SV : SourceValues V O} {OB : Observations Tb O}
        {AAM : Apart Tb Tables MemoryTables} {AIA : Apart Tb I Tables} {AIM : Apart Tb I MemoryTables}
        {AAS : Apart Tb Tables SourceTables} {AMS : Apart Tb MemoryTables SourceTables} {AIS : Apart Tb I SourceTables}
        {AAC : Apart Tb Tables CursorRows} {AMC : Apart Tb MemoryTables CursorRows} {AIC : Apart Tb I CursorRows}
        {ASC : Apart Tb SourceTables CursorRows}.
Context (has_text : O -> bool) (store : @MemoryFlushStore Tb C V) (codec : ArtifactCodec Tb C) (Hcodec : MemoryArtifactCodec = Ok codec)
        (Hrepo : mr_artifacts (fl_memory store) !! MemoryModel.Family = Some codec)
        (Hindex : index_laws I (mr_index (fl_memory store))).
Context (a : MemoryApplication V S Ids).
Implicit Types st : SessionOf Tb.
Notation scope := (fl_scope store).
Notation limit := (sourceWindowLimit a).

#[local] Instance relational_flush : MemoryFlushBackend (SessionOf Tb) V := sql_flush has_text store.
#[local] Instance relational_flush_laws : MemoryFlushLaws (SessionOf Tb) V := sql_flush_laws has_text store codec Hcodec Hrepo Hindex.
#[local] Existing Instance source_windows.

(** The position of the cursor of the Source window. *)
Definition flushed_to st : Z := default 0 (option_map (fun x => Sequence (fst x)) (cursor_at (tables st) scope SourceWindowName)).

(** A committed window was planned from its values, on a state of the Memory, and
    the plan and the cursor were written by one transaction. *)
Definition window_remembered st st' (c : Committed (V := V)) : Prop :=
  exists svc (db : DB) ids current plan ids' g m,
    service a scope = Ok svc /\ headOrNone a db = Ok current /\
    PlanRemember svc db current (cw_values c) [] [] RememberExtract ids = Ok (plan, ids') /\
    apply_window store SourceWindowName plan (NewCursor (through (cw_window c))) g st = (Ok m, st').

Lemma flushing_remembered seen st log st' : flushing (DB := DB) a scope seen st log st' -> Forall (window_remembered st st') log.
Proof.
  intros H. apply flushing_planned in H. eapply Forall_impl; [exact H|].
  intros c (svc & db & ids & current & plan & ids' & g & m & H1 & H2 & H3 & H4). exists svc, db, ids, current, plan, ids', g, m.
  do 3 (split; [done|]). cbn in H4. destruct (apply_window store _ plan _ g st) as [[m'|e] st2]; [|done]. by injection H4 as -> ->.
Qed.

(** C5: However the flushes of a scope interleave with each other and with other
    writers, which keep the cursor and what the journal holds, the windows that they
    commit follow each other without gap or overlap from the first cursor to the
    current one.  The values of all of them are, in order, those that the rows of the
    journal between the two decode to, less those that are not to be planned, so each
    Source is planned once; and each window's values are those of the rows between
    its own bounds, are what its plan was made of, and the plan was applied by the
    transaction that moved the cursor to its end. *)
Theorem flush_windows_tile st0 w :
  window_state limit st0 -> windows_reachable limit (flushing (DB := DB) a scope) st0 w ->
  let journal_values := journal_values scope (fl_sources store) (planned has_text) (sources_of (tables (wo_store w))) in
  tiles (flushed_to st0) (flushed_to (wo_store w)) (map cw_window (wo_log w)) /\
  journal_values (flushed_to st0) (flushed_to (wo_store w)) (concat (map cw_values (wo_log w))) /\
  Forall (fun c => journal_values (after (cw_window c)) (through (cw_window c)) (cw_values c)) (wo_log w) /\
  Forall (fun c => exists w1 w2, windows_reachable limit (flushing (DB := DB) a scope) st0 w1 /\
                     world_moves limit (flushing (DB := DB) a scope) w1 w2 /\
                     window_remembered (wo_store w1) (wo_store w2) c) (wo_log w).
Proof.
  intros Hst Hr. cbv zeta. destruct (windows_tile limit _ (flush_effect (DB := DB) a scope) st0 w Hst Hr) as (H1 & H2 & H3).
  split; [exact H1|]. split; [exact H2|]. split; [exact H3|].
  apply (windows_committed limit _ _ st0 w flushing_remembered Hr).
Qed.
End relational.
