(* ===== verification/SourceProps.v ===== *)
(** * Properties of the Source repository

    The journal of a scope is append-only, each Source is in it once, and a listing
    is a window of it. *)

From S2P Require Import Prelude.
From S2P Require Import GoStrings.
From S2P Require Import Refs.
From S2P Require Import Sql.
From S2P Require Import ArtifactStore.
From S2P Require Import SourceStore.
From S2P Require Import SourceStoreFacts.

Section journal.
Context {T V O : Type} {HT : Holds T SourceTables} {SV : SourceValues V O} {OB : Observations T O}.
Implicit Types (repo : SourceRepository V) (scope : string) (s : SessionOf T).

Notation sources s := (sources_of (tables s)).

(** The row of a Source that is stored, and what storing it did to the journal. *)
Definition journaled (t t' : SourceTables) scope (st : StoredSource V) (row : StoredRow) : Prop :=
  row_ref row = ss_ref st /\ row_position row = ss_position st /\
  ((row ∈ journal t scope /\ t' = t) \/ journal t' scope = journal t scope ++ [row]).

Lemma select_journal t scope r row : journal_ok t -> select_source t scope r = Some row -> row ∈ journal t scope.
Proof.
  intros Hj H. unfold select_source in H. destruct (st_sources t !! (scope, r)) as [[payload p]|] eqn:E; [|done]. injection H as <-.
  apply select_rows_in. exists r, (payload, p). split; [done|]. split; [|done]. apply Z.ltb_lt.
  pose proof (positions_positive _ _ _ _ _ Hj E). cbn. lia.
Qed.

(** Storing a Source once appends at most its row. *)
Lemma stored_journaled t t' scope r payload accepted same (st : StoredSource V) :
  journal_ok t -> stored_once t t' scope r payload accepted same st ->
  journal_ok t' /\ (forall other, other <> scope -> journal t' other = journal t other) /\
  exists row, journaled t t' scope st row /\ (same row \/ (row_payload row = payload /\ row_accepted row = accepted)).
Proof.
  intros Hj (Hr & [(row & Hs & Hsame & -> & Hp)|(Hs & Hm & -> & Hp)]).
  - split; [done|]. split; [done|]. exists row. split; [|by left]. split; [by rewrite Hr; eapply select_source_ref|].
    split; [done|]. left. split; [by eapply select_journal|done].
  - assert (Hnew : st_sources t !! (scope, r) = None).
    { unfold select_source in Hs. by destruct (st_sources t !! (scope, r)). }
    destruct (journal_append t scope r payload accepted Hj Hnew Hm) as [Happ Hother].
    split; [by apply with_source_ok|]. split; [done|]. exists (new_row t scope r payload accepted).
    split; [|by right]. split; [done|]. split; [done|]. by right.
Qed.

(** The two operations that store a Source. *)
Inductive Storing := StoreValue (value : V) | StoreAccepted (o : O).

Definition store repo scope (what : Storing) : txn T (StoredSource V) :=
  match what with StoreValue value => Add repo scope value | StoreAccepted o => AddAccepted repo scope o end.

(** C9: The journal of a scope is append-only: storing a value or an accepted
    observation finds its row and changes nothing, or appends one row for it at
    the next position; other scopes never change, and a failed transaction
    changes nothing.  A value that is found has the payload that it encodes to. *)
Theorem journal_append_only repo scope what s r s' :
  journal_ok (sources s) -> Transaction (store repo scope what) s = (r, s') ->
  journal_ok (sources s') /\ (forall other, other <> scope -> journal (sources s') other = journal (sources s) other) /\
  match r with
  | Ok st => exists row, journaled (sources s) (sources s') scope st row /\
      match what with
      | StoreValue value => encode_source repo value = Ok (row_ref row, row_payload row)
      | StoreAccepted o => row_ref row = observation_ref o /\ row_accepted row = true
      end
  | Err _ => tables s' = tables s
  end.
Proof.
  intros Hj H. destruct r as [st|e].
  - apply transaction_ok in H as (s1 & s2 & E1 & H & E2). rewrite E2. rewrite <- E1 in Hj |- *. destruct what as [value|o]; cbn in H.
    + apply Add_ok in H as (_ & r & payload & He & Hs); [|done]. pose proof (proj1 Hs) as Href.
      destruct (stored_journaled _ _ _ _ _ _ _ _ Hj Hs) as (H1 & H2 & row & H3 & H4). split; [done|]. split; [done|].
      exists row. split; [done|]. destruct H3 as (-> & _). rewrite Href, He. by destruct H4 as [->|[-> _]].
    + apply AddAccepted_ok in H as (_ & payload & Hs); [|done]. pose proof (proj1 Hs) as Href.
      destruct (stored_journaled _ _ _ _ _ _ _ _ Hj Hs) as (H1 & H2 & row & H3 & H4). split; [done|]. split; [done|].
      exists row. split; [done|]. destruct H3 as (-> & _). split; [done|]. by destruct H4 as [?|[_ ?]].
  - apply transaction_err in H. rewrite H. done.
Qed.

(** The positions after [after], at most [limit] of them. *)
Definition window (after head : Z) (limit : option Z) : list Z :=
  map (fun i => after + 1 + Z.of_nat i)
    (seq 0 (Z.to_nat (match limit with Some n => Z.min n (head - after) | None => head - after end))).

(** A listing after a position returns the next Sources of the journal, in order,
    without a gap: exactly the positions that follow, up to the limit, each as its
    row says. *)
Theorem listing_window repo scope after limit s l s' :
  journal_ok (sources s) -> ListSources repo scope after limit s = (Ok l, s') ->
  tables s' = tables s /\
  map ss_position l = window after (head_of (sources s) scope) limit /\
  forall i st, l !! i = Some st -> exists row, journal (sources s) scope !! (Z.to_nat after + i)%nat = Some row /\ decoded repo row st.
Proof.
  intros Hj H. apply ListSources_ok in H as (E & Ha & H); [|done]. split; [done|].
  pose proof (journal_positions _ scope Hj) as Hp. pose proof (head_nonneg _ scope Hj) as Hn.
  rewrite (filter_positions _ _ after (proj1 Hn) Ha Hp) in H.
  assert (Hl : forall i st, l !! i = Some st -> exists row, journal (sources s) scope !! (Z.to_nat after + i)%nat = Some row /\
                 decoded repo row st).
  { intros i st Hi. destruct (Forall2_lookup_r _ _ _ _ _ H Hi) as (row & Hrow & Hd). exists row. split; [|done].
    unfold limited in Hrow. destruct limit as [n|]; [apply lookup_take_Some in Hrow as [Hrow _]|]; by rewrite lookup_drop in Hrow. }
  split; [|exact Hl].
  assert (Hlen : length l = Z.to_nat (match limit with Some n => Z.min n (head_of (sources s) scope - after) | None => head_of (sources s) scope - after end)).
  { apply Forall2_length in H. rewrite <- H. pose proof (journal_length _ scope Hj) as Hjl. unfold limited.
    destruct limit as [n|]; rewrite ?length_take, length_drop; lia. }
  apply list_eq. intros i. unfold window. rewrite !list_lookup_fmap. destruct (l !! i) as [st|] eqn:Ei.
  - destruct (Hl i st Ei) as (row & H1 & _ & H2 & _). apply journal_lookup in H1; [|done]. apply lookup_lt_Some in Ei.
    rewrite lookup_seq_lt by lia. cbn. f_equal. lia.
  - apply lookup_ge_None in Ei. rewrite lookup_seq_ge by lia. done.
Qed.
End journal.

(** ** Witnesses

    Texts under a name, without observations. *)

#[export] Instance demo_values : SourceValues string Empty_set := {
  dynamic_type _ := "text"%string;
  interface_of name := Source.MkValue name Source.Captured None;
  as_observation _ := None; as_accepted _ := None;
  observation_value o := match o with end; accepted_value o := match o with end
}.

#[export] Instance demo_observations T : Observations T Empty_set.
Proof.
  refine {| observation_ref (o : Empty_set) := match o with end;
            ValidateObservation (o : Empty_set) := match o with end;
            encodeSourceObservation (o : Empty_set) := match o with end;
            parseSourceEnvelope _ := NoEnvelope;
            equalJSONValues a b := Some (bool_decide (a = b));
            admitByDefinition (o : Empty_set) := match o with end |}; by intros [].
Defined.

Definition demo_source_codec : SourceCodec string :=
  MkSourceCodec "content" "text" (fun name => Some (bytes_of name)) (fun payload => Some (string_of payload)).
Definition demo_sources : SourceRepository string :=
  MkSourceRepository {[ "content"%string := demo_source_codec ]} {[ "text"%string := demo_source_codec ]}.

Definition demo_source : Source.Ref := Source.MkRef "content" "notes".
Definition demo_journal : SourceTables :=
  MkSourceTables {[ "team"%string := 1 ]} {[ ("team"%string, demo_source) := (bytes_of "notes", 1) ]} ∅.
Lemma demo_journal_ok : journal_ok demo_journal.
Proof.
  split.
  - intros scope. cbn. destruct (decide (scope = "team"%string)) as [->|Hne].
    + rewrite lookup_singleton_eq. split; [unfold max_int64; lia|]. intros p. split.
      * intros (r & payload & H). cbn in H. apply lookup_singleton_Some in H as [_ [= _ <-]]. lia.
      * intros Hp. exists demo_source, (bytes_of "notes"). assert (p = 1) as -> by lia. apply lookup_singleton_eq.
    + rewrite lookup_singleton_ne by done. intros r. apply lookup_singleton_ne. congruence.
  - intros scope r r' payload payload' p H1 H2. cbn in H1, H2. apply lookup_singleton_Some in H1 as [[= _ <-] _], H2 as [[= _ <-] _]. done.
  - intros scope r H. cbn in H. set_solver.
Qed.


Definition demo_sources_db : SessionOf SourceTables := MkSession demo_journal [].

(** A second Source, and the listing after the first. *)
Definition demo_added := Transaction (store demo_sources "team" (StoreValue "plan"%string)) demo_sources_db.

Definition two_sources : SourceTables := tables (snd demo_added).
Lemma two_sources_ok : journal_ok two_sources.
Proof.
  unfold two_sources. assert (K : is_ok (fst demo_added) = true) by (vm_compute; reflexivity).
  destruct demo_added as [[st|e] s'] eqn:E; [|discriminate K].
  cbn [snd]. apply transaction_ok in E as (s1 & s2 & E1 & H & ->). cbn [store] in H.
  apply Add_ok in H as (_ & r & payload & _ & Hs); [|rewrite E1; exact demo_journal_ok].
  apply stored_journaled in Hs as (H & _); [exact H|rewrite E1; exact demo_journal_ok].
Qed.

Lemma journal_append_only_witness :
  is_ok (fst demo_added) = true /\ journal_ok (sources_of (tables (snd demo_added))) /\
  journal (sources_of (tables (snd demo_added))) "other" = journal demo_journal "other".
Proof.
  split; [vm_compute; reflexivity|].
  destruct (journal_append_only demo_sources "team" (StoreValue "plan"%string) demo_sources_db (fst demo_added) (snd demo_added))
    as (H1 & H2 & _); [exact demo_journal_ok|apply surjective_pairing|].
  split; [exact H1|]. apply (H2 "other"%string). discriminate.
Defined.

Definition demo_listed := ListSources demo_sources "team" 0 (Some 5) demo_sources_db.

Lemma listing_window_witness :
  exists l s', demo_listed = (Ok l, s') /\ map ss_ref l = [demo_source] /\ map ss_position l = window 0 1 (Some 5).
Proof.
  destruct demo_listed as [[l|e] s'] eqn:E; [|vm_compute in E; discriminate]. exists l, s'. split; [reflexivity|]. split.
  - vm_compute in E. injection E as <- _. reflexivity.
  - destruct (listing_window demo_sources "team" 0 (Some 5) demo_sources_db l s') as (_ & H & _); [exact demo_journal_ok|exact E|exact H].
Defined.
