(* ===== verification/ReviewProps.v ===== *)
(** * Properties of reviews

    A Candidate is approved at most once and atomically with its Artifact, decided
    Candidates are final, and the Artifacts that reviews published are there and are
    of one Candidate each, through all interleavings of reviewers with other
    writers; and following the cursors of a listing visits every Candidate once. *)

From S2P Require Import Prelude.
From S2P Require Import GoStrings.
From S2P Require Import Refs.
From S2P Require Import Review.
From S2P Require Import Contents.
From S2P Require Import Sql.
From S2P Require Import ArtifactStore.
From S2P Require Import ArtifactStoreFacts.
From S2P Require Import SourceStore.
From S2P Require Import SourceProps.
From S2P Require Import MemoryRepository.
From S2P Require Import ReviewCodec.
From S2P Require Import CandidateStore.
From S2P Require Import ReviewStore.
From S2P Require Import ReviewFacts.

(** ** History *)

Section history.
Context {Tb : Type} {HA : Holds Tb Tables} {HC : Holds Tb CandidateTables}.
Notation artifact_tables t := (rows t : Tables).
Notation candidate_rows t := (rows t : CandidateTables).
Implicit Types t : Tb.

(** The rows are well formed, and a result is a stored revision that is of no other
    Candidate. *)
Record review_ok t : Prop := {
  ro_rows : rows_ok (artifact_tables t);
  ro_candidates : candidates_ok (candidate_rows t);
  ro_results scope id h r : ct_heads (candidate_rows t) !! (scope, id) = Some h -> ch_result h = Some r ->
    is_Some (t_artifacts (artifact_tables t) !! (scope, r));
  ro_once scope id id' h h' r : ct_heads (candidate_rows t) !! (scope, id) = Some h -> ch_result h = Some r ->
    ct_heads (candidate_rows t) !! (scope, id') = Some h' -> ch_result h' = Some r -> id = id'
}.

(** What is there stays: the versions, the decided heads, and the revisions. *)
Record kept t t' : Prop := {
  kp_artifacts : t_artifacts (artifact_tables t) ⊆ t_artifacts (artifact_tables t');
  kp_versions : ct_versions (candidate_rows t) ⊆ ct_versions (candidate_rows t');
  kp_heads k h : ct_heads (candidate_rows t) !! k = Some h ->
    exists h', ct_heads (candidate_rows t') !! k = Some h' /\ ch_family h' = ch_family h /\ ch_version h <= ch_version h' /\
               (~ pending h -> h' = h)
}.

#[export] Instance kept_preorder : PreOrder kept.
Proof.
  split.
  - intros t. split; [done|done|]. intros k h E. exists h. done.
  - intros t1 t2 t3 [A1 V1 H1] [A2 V2 H2]. split; [by etransitivity|by etransitivity|]. intros k h E.
    destruct (H1 k h E) as (h' & E' & F1 & L1 & D1). destruct (H2 k h' E') as (h'' & E'' & F2 & L2 & D2).
    exists h''. split; [done|]. split; [congruence|]. split; [lia|]. intros Hp. specialize (D1 Hp). subst h'. auto.
Qed.

Definition kept_candidates (c c' : CandidateTables) : Prop :=
  ct_versions c ⊆ ct_versions c' /\
  forall k h, ct_heads c !! k = Some h ->
  exists h', ct_heads c' !! k = Some h' /\ ch_family h' = ch_family h /\ ch_version h <= ch_version h' /\ (~ pending h -> h' = h).

Lemma kept_of t t' : t_artifacts (artifact_tables t) ⊆ t_artifacts (artifact_tables t') ->
  kept_candidates (candidate_rows t) (candidate_rows t') -> kept t t'.
Proof. intros H [H1 H2]. by split. Qed.

(** A new head of a Candidate that was not there, or was pending. *)
Lemma kept_heads (heads : gmap (string * string) CandidateHead) k0 h0 :
  match heads !! k0 with
  | None => True
  | Some h => pending h /\ ch_family h0 = ch_family h /\ ch_version h <= ch_version h0
  end ->
  forall k h, heads !! k = Some h ->
  exists h', <[k0 := h0]> heads !! k = Some h' /\ ch_family h' = ch_family h /\ ch_version h <= ch_version h' /\ (~ pending h -> h' = h).
Proof.
  intros H0 k h E. destruct (decide (k = k0)) as [->|Hne].
  - rewrite lookup_insert_eq. rewrite E in H0. exists h0. naive_solver.
  - rewrite lookup_insert_ne by done. exists h. done.
Qed.

Lemma candidate_step_kept scope id c c' : candidates_ok c -> candidate_step scope id c c' -> kept_candidates c c'.
Proof.
  intros Hok Hst. assert (Hn : forall n, match ct_heads c !! (scope, id) with Some h => ch_version h < n | None => True end ->
    ct_versions c !! (scope, id, n) = None).
  { intros n Hlt. pose proof (co_heads _ Hok scope id) as Hh. destruct (ct_heads c !! (scope, id)); [|apply Hh].
    destruct Hh as (_ & _ & Hh). apply eq_None_not_Some. rewrite Hh. lia. }
  destruct Hst as [row E|h row E Hp _ _|h reason E Hp|h r E Hp]; split; cbn; try done.
  all: try (apply insert_subseteq, Hn; rewrite E; cbn; done || lia).
  all: apply kept_heads; rewrite E; cbn; try done; repeat split; try done; lia.
Qed.

(** The results of [c'] are those of [c]. *)
Definition same_results (c c' : CandidateTables) : Prop :=
  forall scope id h' r, ct_heads c' !! (scope, id) = Some h' -> ch_result h' = Some r ->
  exists h, ct_heads c !! (scope, id) = Some h /\ ch_result h = Some r.

Lemma review_ok_kept t t' :
  review_ok t -> rows_ok (artifact_tables t') -> candidates_ok (candidate_rows t') ->
  t_artifacts (artifact_tables t) ⊆ t_artifacts (artifact_tables t') ->
  same_results (candidate_rows t) (candidate_rows t') -> review_ok t'.
Proof.
  intros [_ _ Hr Ho] H1 H2 Ha Hs. split; [done|done| |].
  - intros scope id h r E Er. destruct (Hs _ _ _ _ E Er) as (h0 & E0 & Er0).
    destruct (Hr _ _ _ _ E0 Er0) as [v Hv]. exists v. by eapply lookup_weaken.
  - intros scope id id' h h' r E Er E' Er'. destruct (Hs _ _ _ _ E Er) as (h0 & E0 & Er0), (Hs _ _ _ _ E' Er') as (h1 & E1 & Er1).
    by eapply Ho.
Qed.

Lemma step_results scope id c c' h' :
  candidate_step scope id c c' -> ct_heads c' !! (scope, id) = Some h' -> ch_result h' = None -> same_results c c'.
Proof.
  intros Hst E Er sc i h0 r E0 Er0. destruct (decide ((sc, i) = (scope, id))) as [Ek|Hne].
  - injection Ek as -> ->. congruence.
  - exists h0. split; [|done]. destruct Hst; cbn in E0; by rewrite lookup_insert_ne in E0 by congruence.
Qed.

(** Another writer added a revision. *)
Lemma grown_kept scope r payload lineage t t' :
  review_ok t -> grown scope r payload lineage (artifact_tables t) (artifact_tables t') ->
  candidate_rows t' = candidate_rows t -> review_ok t' /\ kept t t'.
Proof.
  intros Hok Hg Ec. assert (Hsub : t_artifacts (artifact_tables t) ⊆ t_artifacts (artifact_tables t')).
  { rewrite (g_artifacts _ _ _ _ _ _ Hg). apply insert_subseteq, (grown_fresh _ _ _ _ _ _ (ro_rows _ Hok) Hg). }
  split.
  - eapply review_ok_kept; [done|by eapply grown_rows, Hg; apply Hok|rewrite Ec; apply Hok|done|].
    rewrite Ec. intros ? ? h ? ? ?. by exists h.
  - apply kept_of; [done|]. rewrite Ec. split; [done|]. intros k h E. by exists h.
Qed.
End history.

(** ** Reviewers and other writers *)

Section reviews.
Context {Tb C P V O : Type} {HA : Holds Tb Tables} {HC : Holds Tb CandidateTables} {HS : Holds Tb SourceTables}
        {AC : Apart Tb Tables CandidateTables} {AS : Apart Tb Tables SourceTables} {CSo : Apart Tb CandidateTables SourceTables}
        {SV : SourceValues V O} {OB : Observations Tb O} {DC : Dynamic C}
        {CX : Carries C Experience.Content} {CS : Carries C Skill.Content} {CP : Carries C P} {PK : SkillPackages Tb P}.
Notation artifact_tables t := (rows t : Tables).
Notation candidate_rows t := (rows t : CandidateTables).
Implicit Types (t : Tb) (b : ReviewBackend Tb C V).

Inductive review_op :=
| OpPropose (id fam : string) (proposal : C) (srcs : list Source.Ref) (arts : list Ref) (target : option Ref) (reason : option string)
| OpUpload (id : string) (proposal : P) (upload : V) (arts : list Ref) (target : option Ref) (reason : option string)
| OpRevise (id : string) (expected : Z) (proposal : C) (srcs : list Source.Ref) (arts : list Ref) (target : option Ref) (reason : option string)
| OpReject (id : string) (expected : Z) (reason : string)
| OpApprove (id : string) (expected : Z) (fresh : string -> result store_error string).

Definition op_id (op : review_op) : string :=
  match op with
  | OpPropose id _ _ _ _ _ _ | OpUpload id _ _ _ _ _ | OpRevise id _ _ _ _ _ _ | OpReject id _ _ | OpApprove id _ _ => id
  end.

Definition run_op b (op : review_op) : txn Tb (Candidate C) :=
  match op with
  | OpPropose id fam proposal srcs arts target reason => Propose_ (P := P) b id fam proposal srcs arts target reason
  | OpUpload id proposal upload arts target reason => ProposeUploadedPackage_ b id proposal upload arts target reason
  | OpRevise id expected proposal srcs arts target reason => Revise_ (P := P) b id expected proposal srcs arts target reason
  | OpReject id expected reason => Reject_ b id expected reason
  | OpApprove id expected fresh => Approve_ (P := P) b id expected fresh
  end.

Lemma run_op_err b op s e s' : run_op b op s = (Err e, s') -> tables s' = tables s.
Proof. destruct op; apply transaction_err. Qed.

(** What an operation that succeeded is: a change of one Candidate, or an approval. *)
Lemma run_op_cases b {RP : ReviewParts (P := P) b} op s c s' :
  review_ok (tables s) -> run_op b op s = (Ok c, s') ->
  moved b (op_id op) (tables s) (tables s') c \/
  exists expected fresh h v before stored, approved b (op_id op) expected fresh (tables s) (tables s') h v before c stored.
Proof.
  intros Hok. destruct op; cbn [run_op op_id]; intros H.
  - apply Propose_ok in H as (_ & H & _); [|done]. by left.
  - apply ProposeUploadedPackage_ok in H as (st & _ & H & _); [|done..]. by left.
  - apply Revise_review_ok in H as (before & _ & _ & _ & _ & _ & _ & H & _); [|done|apply Hok]. by left.
  - apply (Reject_ok (P := P)) in H as (before & _ & _ & _ & _ & H); [|done|apply Hok]. by left.
  - apply Approve_ok in H as (h & v & before & stored & H); [|done|apply Hok]. right. by eexists _, _, _, _, _, _.
Qed.

Lemma moved_kept b id t t' c : review_ok t -> moved b id t t' c -> review_ok t' /\ kept t t'.
Proof.
  intros Hok [Ha Hst Hid Hopen _ Hh]. unfold holds in Hh. rewrite Hid in Hh. split.
  - eapply review_ok_kept; [done|rewrite Ha; apply Hok|eapply candidate_step_ok, Hst; apply Hok|by rewrite Ha|].
    eapply step_results; [done|exact Hh|done].
  - apply kept_of; [by rewrite Ha|]. eapply candidate_step_kept, Hst. apply Hok.
Qed.

Lemma approved_pending b id expected fresh t t' h v before after stored :
  approved b id expected fresh t t' h v before after stored ->
  ct_heads (candidate_rows t) !! (rb_scope b, id) = Some h /\ pending h /\ ch_version h = expected.
Proof.
  intros [Hj (_ & Hb & _) [Hp Hv] _ _ _ _]. unfold joined_candidate in Hj. destruct (ct_heads _ !! _) as [h0|]; [|done].
  destruct (ct_versions _ !! _); [|done]. injection Hj as -> ->. rewrite Hb in Hp, Hv. done.
Qed.

Lemma approved_kept b id expected fresh t t' h v before after stored :
  review_ok t -> approved b id expected fresh t t' h v before after stored -> review_ok t' /\ kept t t'.
Proof.
  intros Hok Ha. destruct (approved_pending _ _ _ _ _ _ _ _ _ _ _ Ha) as (Hh & Hp & _).
  pose proof (ap_head _ _ _ _ _ _ _ _ _ _ _ Ha) as Ec.
  destruct (ap_wrote _ _ _ _ _ _ _ _ _ _ _ Ha) as (codec & payload & _ & _ & _ & _ & Hg).
  pose proof (grown_fresh _ _ _ _ _ _ (ro_rows _ Hok) Hg) as Hfresh.
  assert (Hst : candidate_step (rb_scope b) id (candidate_rows t) (candidate_rows t')) by (rewrite Ec; by apply step_approved).
  assert (Hsub : t_artifacts (artifact_tables t) ⊆ t_artifacts (artifact_tables t')).
  { rewrite (g_artifacts _ _ _ _ _ _ Hg). by apply insert_subseteq. }
  split; [|apply kept_of; [done|]; eapply candidate_step_kept, Hst; apply Hok].
  assert (Hnot : forall i h0, ct_heads (candidate_rows t) !! (rb_scope b, i) = Some h0 -> ch_result h0 <> Some (a_ref stored)).
  { intros i h0 E Er. destruct (ro_results _ Hok _ _ _ _ E Er) as [p Hpl]. congruence. }
  split; [by eapply grown_rows, Hg; apply Hok|eapply candidate_step_ok, Hst; apply Hok| |]; rewrite Ec; cbn.
  - intros sc i h0 r E Er. destruct (decide ((sc, i) = (rb_scope b, id))) as [Ek|Hne].
    + injection Ek as -> ->. rewrite lookup_insert_eq in E. injection E as <-. injection Er as <-.
      rewrite (g_artifacts _ _ _ _ _ _ Hg), lookup_insert_eq. by eexists.
    + rewrite lookup_insert_ne in E by congruence. destruct (ro_results _ Hok _ _ _ _ E Er) as [p Hpl].
      exists p. by eapply lookup_weaken.
  - intros sc i i' h0 h1 r E Er E' Er'. destruct (decide ((sc, i) = (rb_scope b, id))) as [Ek|Hne], (decide ((sc, i') = (rb_scope b, id))) as [Ek'|Hne'].
    + congruence.
    + injection Ek as -> ->. rewrite lookup_insert_eq in E. injection E as <-. injection Er as <-.
      rewrite lookup_insert_ne in E' by congruence. by destruct (Hnot _ _ E' Er').
    + injection Ek' as -> ->. rewrite lookup_insert_eq in E'. injection E' as <-. injection Er' as <-.
      rewrite lookup_insert_ne in E by congruence. by destruct (Hnot _ _ E Er).
    + rewrite lookup_insert_ne in E, E' by congruence. by eapply (ro_once _ Hok).
Qed.

Lemma run_op_kept b {RP : ReviewParts (P := P) b} op s r s' :
  review_ok (tables s) -> run_op b op s = (r, s') -> review_ok (tables s') /\ kept (tables s) (tables s').
Proof.
  intros Hok H. destruct r as [c|e]; [|apply run_op_err in H as ->; split; [done|reflexivity]].
  apply run_op_cases in H as [H|(ex & fr & h & v & before & stored & H)]; [|by eapply approved_kept|done|done].
  by eapply moved_kept.
Qed.

(** A database that reviewers of any scope work on: each operation is one
    transaction, of which any statement may fail, and others write between them. *)
Inductive reviewing t : Tb -> Prop :=
| rv_op b op statements r s' :
    ReviewParts (P := P) b -> run_op b op (MkSession t statements) = (r, s') -> reviewing t (tables s')
| rv_artifact scope r payload lineage t' :
    grown scope r payload lineage (artifact_tables t) (artifact_tables t') -> candidate_rows t' = candidate_rows t -> reviewing t t'
| rv_elsewhere t' : artifact_tables t' = artifact_tables t -> candidate_rows t' = candidate_rows t -> reviewing t t'.

Lemma reviewing_kept t t' : review_ok t -> reviewing t t' -> review_ok t' /\ kept t t'.
Proof.
  intros Hok [b op fs r s' HR H|scope r payload lineage t1 Hg Ec|t1 Ea Ec].
  - by eapply (run_op_kept b op (MkSession t fs)) in H.
  - by eapply grown_kept.
  - split; [split; rewrite ?Ea, ?Ec; apply Hok|]. apply kept_of; [by rewrite Ea|]. rewrite Ec. split; [done|]. intros k h E. by exists h.
Qed.

Lemma reviews_kept t t' : review_ok t -> rtc reviewing t t' -> review_ok t' /\ kept t t'.
Proof.
  intros Hok H. induction H as [t|t t1 t2 H1 _ IH]; [split; [done|reflexivity]|].
  destruct (reviewing_kept _ _ Hok H1) as [Hok1 K1]. destruct (IH Hok1) as [Hok2 K2]. split; [done|]. by etransitivity.
Qed.

(** A step on a Candidate found it pending, or did not find it. *)
Lemma run_op_decided b {RP : ReviewParts (P := P) b} op s c s' h :
  review_ok (tables s) -> run_op b op s = (Ok c, s') ->
  ct_heads (candidate_rows (tables s)) !! (rb_scope b, op_id op) = Some h -> pending h.
Proof.
  intros Hok H Hh. apply run_op_cases in H as [H|(ex & fr & h' & v & before & stored & H)]; [| |done|done].
  - destruct (mv_step _ _ _ _ _ H); congruence.
  - apply approved_pending in H as (H1 & H2 & _). congruence.
Qed.

(** ** Theorems *)

(** C2: an approval is one transaction.  If any statement of it fails, or the Candidate is not
    the pending one of the expected version, then nothing changed.  Otherwise exactly one
    Artifact revision was added, with the proposal and the evidence of that Candidate:
    the first of a fresh identity, or the successor of the Candidate's target, which was
    still the latest.  The head of that Candidate, and of no other, names it as the
    result. *)
Theorem approve_atomic b {RP : ReviewParts (P := P) b} id expected fresh s r s' :
  review_ok (tables s) -> Approve_ (P := P) b id expected fresh s = (r, s') ->
  match r with
  | Err _ => tables s' = tables s
  | Ok c =>
      exists before stored,
        current (rb_candidates b) (rb_scope b) id (tables s) before /\ cn_Status before = Pending /\ cn_Version before = expected /\
        approved_at b (tables s) fresh before (a_ref stored) /\
        wrote (rb_artifacts b) (rb_scope b)
          (MkDraft (cn_Family before) (cn_Proposal before) (MkLineage (cn_Sources before) (cn_Artifacts before)))
          stored (artifact_tables (tables s)) (artifact_tables (tables s')) /\
        current (rb_candidates b) (rb_scope b) id (tables s') c /\
        cn_Status c = Approved /\ cn_Result c = Some (a_ref stored) /\ cn_Version c = expected /\
        cn_Sources c = cn_Sources before /\ cn_Artifacts c = cn_Artifacts before /\ cn_Target c = cn_Target before /\
        ct_versions (candidate_rows (tables s')) = ct_versions (candidate_rows (tables s)) /\
        forall k, k <> (rb_scope b, id) -> ct_heads (candidate_rows (tables s')) !! k = ct_heads (candidate_rows (tables s)) !! k
  end.
Proof.
  intros Hok H. destruct r as [c|e]; [|by apply transaction_err in H].
  apply Approve_ok in H as (h & v & before & stored & Ha); [|done|apply Hok].
  pose proof (approved_pending _ _ _ _ _ _ _ _ _ _ _ Ha) as (_ & _ & Hver).
  destruct Ha as [Hj Hb [Hp Hv] Hat Hw Hh Haf]. destruct (represents_same _ _ _ _ _ _ _ _ Hb Haf) as (E1 & E2 & E3 & _).
  pose proof Haf as (_ & Ec & _). exists before, stored. split; [by exists h, v|]. split; [done|]. split; [done|]. split; [done|]. split; [done|].
  split. { exists (approved_head h (a_ref stored)), v. split; [|done]. rewrite Hh. by apply joined_with_head with h. }
  rewrite Hh. rewrite Ec at 1 2 3. cbn. do 6 (split; [done|]). split; [done|]. intros k Hk. by rewrite lookup_insert_ne by done.
Qed.

(** C10: however the reviewers of any scopes and other writers interleave, and whatever statements
    fail, the rows stay well formed: a Candidate has all its versions and is decided as its
    state says, an approved one names a stored Artifact revision, and no two Candidates
    of a scope name the same one.  What was written stays: every version, every revision,
    and the head of every decided Candidate. *)
Theorem review_history t t' : review_ok t -> rtc reviewing t t' -> review_ok t' /\ kept t t'.
Proof. apply reviews_kept. Qed.

(** C11: a decision is final.  Once a Candidate was approved or rejected, no later operation on it
    succeeds, on whatever version and however much happened in between, and a failed one
    changes nothing. *)
Theorem decision_final b {RP : ReviewParts (P := P) b} t t' op h statements r s' :
  review_ok t -> ct_heads (candidate_rows t) !! (rb_scope b, op_id op) = Some h -> ~ pending h ->
  rtc reviewing t t' -> run_op b op (MkSession t' statements) = (r, s') ->
  (exists e, r = Err e) /\ tables s' = t' /\ ct_heads (candidate_rows t') !! (rb_scope b, op_id op) = Some h.
Proof.
  intros Hok Hh Hd Hrtc H. destruct (reviews_kept _ _ Hok Hrtc) as [Hok' K].
  destruct (kp_heads _ _ K _ _ Hh) as (h' & Hh' & _ & _ & Hsame). rewrite (Hsame Hd) in Hh'. destruct r as [c|e].
  - destruct Hd. eapply (run_op_decided b op (MkSession t' statements)); done.
  - apply run_op_err in H. split; [by eexists|done].
Qed.

(** C12: what a reviewer sees is grounded.  A proposal that is accepted is stored as a pending
    Candidate of version 1; in the database before it every Source that it cites had a
    row with a value and every Artifact that it cites was there, a target is the latest revision of an Artifact of the same family and is among the evidence,
    no Artifact changed and nothing changed when it failed. *)
Theorem propose_grounded b {RP : ReviewParts (P := P) b} id fam proposal srcs arts target reason s r s' :
  review_ok (tables s) -> Propose_ (P := P) b id fam proposal srcs arts target reason s = (r, s') ->
  match r with
  | Err _ => tables s' = tables s
  | Ok c =>
      c = MkCandidate id 1 fam Pending proposal srcs arts target reason None None /\ valid_candidate c /\
      ct_heads (candidate_rows (tables s)) !! (rb_scope b, id) = None /\
      ct_heads (candidate_rows (tables s')) !! (rb_scope b, id) = Some (head_of_candidate c) /\
      stored_version (rb_candidates b) (rb_scope b) c (tables s') /\
      artifact_tables (tables s') = artifact_tables (tables s) /\
      grounded b (tables s) fam srcs arts target
  end.
Proof.
  intros Hok H. destruct r as [c|e]; [|by apply transaction_err in H].
  apply Propose_ok in H as (Hc & [Ha Hst Hid Hop Hv Hh] & Hrow & Hg); [|done].
  split; [done|]. split; [done|]. unfold holds in Hh. rewrite Hid in Hh. split; [|done].
  pose proof (co_heads _ (ro_candidates _ Hok) (rb_scope b) id) as Hrange.
  assert (Hnew : forall h0, Some h0 = Some (head_of_candidate c) -> ch_version h0 = 1 /\ ch_status h0 = Pending).
  { intros h0 [= ->]. by rewrite Hc. }
  destruct Hst as [|h row E Hp _ _|h why E Hp|h res E Hp]; [done|..]; cbn in Hh; rewrite lookup_insert_eq in Hh;
    apply Hnew in Hh as [Hh1 Hh2]; cbn in Hh1, Hh2; [|done..].
  rewrite E in Hrange. lia.
Qed.
End reviews.

(** ** Witnesses

    A database of the three parts, a scope with one Source, and a repository of
    Experiences and of Skills without packages. *)

Record ReviewTables := MkReviewTables { rv_artifacts : Tables; rv_candidates : CandidateTables; rv_sources : SourceTables }.

#[export] Instance review_holds_artifacts : Holds ReviewTables Tables.
Proof. refine {| rows := rv_artifacts; with_rows r t := MkReviewTables r (rv_candidates t) (rv_sources t) |}; by try intros []. Defined.
#[export] Instance review_holds_candidates : Holds ReviewTables CandidateTables.
Proof. refine {| rows := rv_candidates; with_rows r t := MkReviewTables (rv_artifacts t) r (rv_sources t) |}; by try intros []. Defined.
#[export] Instance review_holds_sources : Holds ReviewTables SourceTables.
Proof. refine {| rows := rv_sources; with_rows r t := MkReviewTables (rv_artifacts t) (rv_candidates t) r |}; by try intros []. Defined.
#[export] Instance review_artifacts_candidates : Apart ReviewTables Tables CandidateTables. Proof. by split. Qed.
#[export] Instance review_artifacts_sources : Apart ReviewTables Tables SourceTables. Proof. by split. Qed.
#[export] Instance review_candidates_sources : Apart ReviewTables CandidateTables SourceTables. Proof. by split. Qed.

Inductive Proposal := AnExperience (c : Experience.Content) | ASkill (c : Skill.Content) | APackage (p : Empty_set).
#[export] Instance proposal_dynamic : Dynamic Proposal := fun c =>
  match c with AnExperience _ => "experience.Content" | ASkill _ => "skill.Content" | APackage _ => "skill.Package" end%string.
#[export] Instance proposal_experience : Carries Proposal Experience.Content.
Proof.
  refine {| carried_type := "experience.Content"; inject := AnExperience;
            project c := match c with AnExperience x => Some x | _ => None end |}; [done|by intros [] ? [= ->]|done].
Defined.
#[export] Instance proposal_skill : Carries Proposal Skill.Content.
Proof.
  refine {| carried_type := "skill.Content"; inject := ASkill;
            project c := match c with ASkill x => Some x | _ => None end |}; [done|by intros [] ? [= ->]|done].
Defined.
#[export] Instance proposal_package : Carries Proposal Empty_set.
Proof.
  refine {| carried_type := "skill.Package"; inject := APackage;
            project c := match c with APackage x => Some x | _ => None end |}; [by intros []|by intros [] ? [= ->]|by intros []].
Defined.
#[export] Instance no_packages Tb : SkillPackages Tb Empty_set := {
  AddPackage _ p := match p with end; GetPackage _ p := match p with end;
  encode_package p := match p with end; decode_package _ _ := tx_err (SMissing "skill package")
}.

Definition no_codec : ArtifactCodec ReviewTables Proposal :=
  MkCodec "" [] (fun _ => None) (fun _ _ => tx_err SDriver) (fun _ _ _ _ => tx_err SDriver).
Definition experience_codec : ArtifactCodec ReviewTables Proposal :=
  match ExperienceArtifactCodec (Tb := ReviewTables) with Ok c => c | Err _ => no_codec end.

Definition demo_codecs : gmap string (ArtifactCodec ReviewTables Proposal) := {[ Experience.Family := experience_codec ]}.
Lemma demo_codec fam codec : demo_codecs !! fam = Some codec -> codec = experience_codec.
Proof. unfold demo_codecs. intros H. by apply (lookup_singleton_Some (M := gmap string)) in H as [_ <-]. Qed.

Definition demo_backend : ReviewBackend ReviewTables Proposal string := {|
  rb_scope := "team"; rb_candidates := demo_codecs; rb_artifacts := demo_codecs; rb_sources := demo_sources; rb_index := NoExperienceIndex
|}.

Lemma new_codec_reads {T C' X} `{Dynamic C'} fam name (inject : X -> C') project encode decode (codec : ArtifactCodec T C') :
  NewArtifactCodec fam name inject project encode decode = Ok codec -> reading_codec codec /\ scoped_codec codec.
Proof.
  unfold NewArtifactCodec. intros E. bind_inv E. injection E as <-. split.
  - apply pure_reading. intros scope r lineage payload. cbn. destruct (decode payload); [by eexists|by eexists (Err _)].
  - intros scope payload. cbn. destruct (decode payload); [apply keeps_ret|apply keeps_err].
Qed.

Lemma experience_codec_reads : reading_codec experience_codec /\ scoped_codec experience_codec.
Proof. assert (E : ExperienceArtifactCodec (Tb := ReviewTables) = Ok experience_codec) by reflexivity. by eapply new_codec_reads. Qed.

#[export] Instance demo_parts : ReviewParts (P := Empty_set) demo_backend.
Proof.
  split.
  - intros fam codec H. apply demo_codec in H as ->. apply experience_codec_reads.
  - intros fam codec H. apply demo_codec in H as ->. apply experience_codec_reads.
  - intros scope a. apply keeps_elsewhere, keeps_ret.
  - by intros scope [].
  - by intros scope [].
  - by intros scope [].
Qed.

(** The scope has a Source, and nothing else. *)
Definition demo_tables : ReviewTables :=
  MkReviewTables (MkTables {[ ("team"%string, demo_source) ]} ∅ ∅ ∅ ∅) (MkCandidateTables ∅ ∅) demo_journal.

Lemma demo_ok : review_ok demo_tables.
Proof.
  split; cbn.
  - split; [split; intros sc r i [v Hv]; cbn in Hv; by rewrite lookup_empty in Hv|].
    intros sc fam id. cbn. rewrite lookup_empty. intros rev. by rewrite lookup_empty.
  - split; cbn; [intros sc id; rewrite lookup_empty; intros n; by rewrite lookup_empty|].
    intros sc id h n row H. by rewrite lookup_empty in H.
  - intros sc id h r H. by rewrite lookup_empty in H.
  - intros sc id id' h h' r H. by rewrite lookup_empty in H.
Qed.

Definition demo_experience : Proposal :=
  AnExperience (Experience.MkContent "a failing build" "pin the version" "it passed" "pin versions").
Definition demo_propose : review_op (P := Empty_set) (V := string) :=
  OpPropose "candidate-1" Experience.Family demo_experience [demo_source] [] None (Some "seen twice"%string).
Definition demo_approve : review_op (C := Proposal) (P := Empty_set) (V := string) :=
  OpApprove "candidate-1" 1 (fun _ => Ok "experience-1"%string).

Definition demo_proposed := run_op demo_backend demo_propose (MkSession demo_tables []).
Definition demo_approved := run_op demo_backend demo_approve (MkSession (tables (snd demo_proposed)) []).
Lemma demo_runs : is_ok (fst demo_proposed) = true /\ is_ok (fst demo_approved) = true.
Proof. split; vm_compute; reflexivity. Qed.

Lemma demo_proposed_ok : review_ok (tables (snd demo_proposed)).
Proof. exact (proj1 (run_op_kept (P := Empty_set) demo_backend demo_propose (MkSession demo_tables []) _ _ demo_ok (surjective_pairing _))). Qed.

Lemma approve_atomic_witness :
  (exists c, fst demo_approved = Ok c /\ cn_Status c = Approved /\ cn_Result c = Some (MkRef Experience.Family "experience-1" 1)) /\
  let failed := run_op demo_backend demo_approve (MkSession (tables (snd demo_proposed)) [false; false; false; false; false; true]) in
  is_ok (fst failed) = false /\ tables (snd failed) = tables (snd demo_proposed).
Proof.
  destruct demo_runs as [_ K]. split.
  - pose proof (approve_atomic (P := Empty_set) demo_backend _ _ _ (MkSession (tables (snd demo_proposed)) []) (fst demo_approved)
      (snd demo_approved) demo_proposed_ok (surjective_pairing _)) as H.
    destruct (fst demo_approved) as [c|e] eqn:E; [|discriminate K].
    destruct H as (before & stored & _ & _ & _ & _ & _ & _ & Hs & _). exists c. split; [done|]. split; [exact Hs|].
    assert (R : match fst demo_approved with Ok c => cn_Result c | Err _ => None end = Some (MkRef Experience.Family "experience-1" 1)) by (vm_compute; reflexivity).
    by rewrite E in R.
  - intros failed. assert (N : is_ok (fst failed) = false) by (vm_compute; reflexivity). split; [exact N|].
    pose proof (approve_atomic (P := Empty_set) demo_backend _ _ _ (MkSession (tables (snd demo_proposed)) [false; false; false; false; false; true])
      (fst failed) (snd failed) demo_proposed_ok (surjective_pairing _)) as H.
    destruct (fst failed) as [c|e]; [discriminate N|exact H].
Defined.

Lemma demo_history : rtc (reviewing (C := Proposal) (P := Empty_set) (V := string)) demo_tables (tables (snd demo_approved)).
Proof.
  apply rtc_l with (tables (snd demo_proposed)).
  - eapply (rv_op (P := Empty_set) _ demo_backend demo_propose []); [exact demo_parts|apply surjective_pairing].
  - apply rtc_once. eapply (rv_op (P := Empty_set) _ demo_backend demo_approve []); [exact demo_parts|apply surjective_pairing].
Qed.

Lemma review_history_witness : review_ok (tables (snd demo_approved)) /\ kept demo_tables (tables (snd demo_approved)).
Proof. exact (review_history (C := Proposal) (P := Empty_set) (V := string) _ _ demo_ok demo_history). Defined.

Lemma demo_head : exists h, ct_heads (rv_candidates (tables (snd demo_approved))) !! ("team", "candidate-1")%string = Some h /\ ~ pending h.
Proof.
  assert (E : option_map ch_status (ct_heads (rv_candidates (tables (snd demo_approved))) !! ("team", "candidate-1")%string) = Some Approved) by (vm_compute; reflexivity).
  destruct (ct_heads _ !! _) as [h|]; [|done]. exists h. injection E as E. split; [done|]. unfold pending. by rewrite E.
Qed.

Lemma decision_final_witness :
  exists e, fst (run_op demo_backend demo_approve (MkSession (tables (snd demo_approved)) [])) = Err e.
Proof.
  destruct demo_head as (h & Hh & Hd).
  exact (proj1 (decision_final (P := Empty_set) demo_backend (tables (snd demo_approved)) (tables (snd demo_approved)) demo_approve h []
    _ _ (proj1 (reviews_kept (C := Proposal) (P := Empty_set) (V := string) _ _ demo_ok demo_history)) Hh Hd (rtc_refl _ _) (surjective_pairing _))).
Defined.

Lemma propose_grounded_witness :
  exists c, fst demo_proposed = Ok c /\ valid_candidate c /\
  ct_heads (rv_candidates (tables (snd demo_proposed))) !! ("team", "candidate-1")%string = Some (head_of_candidate c) /\
  grounded demo_backend demo_tables Experience.Family [demo_source] [] None.
Proof.
  destruct demo_runs as [K _].
  pose proof (propose_grounded (P := Empty_set) demo_backend _ _ _ _ _ _ _ (MkSession demo_tables []) (fst demo_proposed)
    (snd demo_proposed) demo_ok (surjective_pairing _)) as H.
  destruct (fst demo_proposed) as [c|e]; [|discriminate K]. exists c. destruct H as (_ & H1 & _ & H2 & _ & _ & H3). done.
Defined.

(** ** Properties of listings of Candidates

    Following the cursors of a listing visits the Candidates of a state once each,
    in the order of their IDs. *)
(** ** The IDs of a listing *)

Section listing.
Context (c : CandidateTables) (scope : string) (status : Status) (fam : option string).

Definition listed (id : string) : Prop :=
  exists h, ct_heads c !! (scope, id) = Some h /\ ch_status h = status /\
            match fam with Some f => ch_family h = f | None => True end.

Lemma listed_ids_elem cursor id :
  id ∈ listed_ids c scope status fam cursor <->
  listed id /\ match cursor with Some after => String.leb id after = false | None => True end.
Proof.
  unfold listed_ids, listed. rewrite merge_sort_Permutation, list_elem_of_omap. split.
  - intros ([[sc i] h] & Hin & H). apply elem_of_map_to_list in Hin.
    destruct (bool_decide (sc = scope)) eqn:E1; [|done]. apply bool_decide_eq_true in E1 as ->.
    destruct (bool_decide (ch_status h = status)) eqn:E2; [|done]. apply bool_decide_eq_true in E2. cbn [andb] in H.
    destruct (match fam with Some f => String.eqb (ch_family h) f | None => true end) eqn:E3; [|done].
    destruct (match cursor with Some after => negb (String.leb i after) | None => true end) eqn:E4; [|done].
    injection H as ->. split.
    + exists h. split; [done|]. split; [done|]. destruct fam; [by apply String.eqb_eq|done].
    + destruct cursor; [by apply negb_true_iff|done].
  - intros [(h & Hh & Hs & Hf) Hc]. exists ((scope, id), h). split; [by apply elem_of_map_to_list|].
    rewrite !bool_decide_eq_true_2 by done. cbn [andb].
    destruct fam as [f|]; [rewrite (proj2 (String.eqb_eq _ _) Hf)|]; cbn [andb]; destruct cursor; [|done| |done]; by rewrite Hc.
Qed.

Lemma listed_ids_NoDup cursor : NoDup (listed_ids c scope status fam cursor).
Proof.
  unfold listed_ids. rewrite merge_sort_Permutation.
  assert (H : NoDup (map fst (map_to_list (ct_heads c)))) by apply NoDup_fst_map_to_list.
  induction (map_to_list (ct_heads c)) as [|[[sc i] h] l IH]; [constructor|]. cbn in *. inversion_clear H as [|? ? H1 H2].
  destruct (bool_decide (sc = scope)) eqn:E; cbn; [|by apply IH]. apply bool_decide_eq_true in E as ->.
  destruct (_ && _); [|by apply IH]. constructor; [|by apply IH]. intros Hin. apply H1.
  apply list_elem_of_omap in Hin as ([[sc' i'] h'] & Hin & H). destruct (bool_decide (sc' = scope)) eqn:E'; [|done].
  apply bool_decide_eq_true in E' as ->. cbn in H. destruct (_ && _); [|done]. injection H as ->.
  apply list_elem_of_fmap. by exists ((scope, i), h').
Qed.

Lemma listed_ids_sorted cursor : StronglySorted str_le (listed_ids c scope status fam cursor).
Proof. apply StronglySorted_merge_sort; typeclasses eauto. Qed.

(** What comes after an element of the listing. *)
Lemma listed_after pre id post cursor :
  listed_ids c scope status fam cursor = pre ++ id :: post -> listed_ids c scope status fam (Some id) = post.
Proof.
  intros E. pose proof (listed_ids_sorted cursor) as Hs. pose proof (listed_ids_NoDup cursor) as Hn.
  assert (He : forall x, x ∈ listed_ids c scope status fam cursor <-> x ∈ pre \/ x = id \/ x ∈ post) by (intros x; rewrite E; set_solver).
  rewrite E in Hs, Hn. apply NoDup_app in Hn as (Hn1 & Hn2 & Hn3). apply NoDup_cons in Hn3 as [Hn3 Hn4].
  assert (Hpre : forall x, x ∈ pre -> str_le x id) by (intros x Hx; eapply StronglySorted_app_1_elem_of; [exact Hs|done|by left]).
  apply StronglySorted_app_1_r in Hs. inversion_clear Hs as [|? ? Hs' Hf]. rewrite Forall_forall in Hf.
  apply (StronglySorted_unique str_le); [apply listed_ids_sorted|done|].
  apply NoDup_Permutation; [apply listed_ids_NoDup|done|]. intros x. rewrite listed_ids_elem. split.
  - intros [Hl Hx]. assert (Hin : x ∈ listed_ids c scope status fam cursor).
    { apply listed_ids_elem. split; [done|]. destruct cursor as [after|]; [|done].
      assert (Hid : id ∈ listed_ids c scope status fam (Some after)) by (rewrite E; set_solver).
      apply listed_ids_elem in Hid as [_ Hid]. destruct (String.leb x after) eqn:Ex; [|done].
      assert (str_le id x) by (destruct (total str_le id x) as [|Hc]; [done|unfold str_le in Hc; congruence]).
      assert (str_le id after) by (by transitivity x). unfold str_le in *. congruence. }
    apply He in Hin as [Hin|[->|Hin]]; [apply Hpre in Hin; unfold str_le in Hin; congruence| |done].
    pose proof (reflexivity (R := str_le) id) as Hr. unfold str_le in Hr. congruence.
  - intros Hx. assert (Hin : x ∈ listed_ids c scope status fam cursor) by (apply He; auto).
    apply listed_ids_elem in Hin as [Hl _]. split; [done|]. destruct (String.leb x id) eqn:Ex; [|done].
    assert (x = id) as ->. { apply (anti_symm str_le); [done|by apply Hf]. } done.
Qed.
End listing.

(** ** Pages *)

Section pages.
Context {Tb C : Type} {HC : Holds Tb CandidateTables} {DC : Dynamic C}.
Context (repo : CandidateRepository Tb C)
        (Hrepo : forall fam codec, repo !! fam = Some codec -> scoped_codec codec).
Implicit Types (s : SessionOf Tb) (t : Tb).
Notation candidate_rows t := (rows t : CandidateTables).

Lemma decode_page_ok scope rows : forall s cs s', decode_page repo scope rows s = (Ok cs, s') ->
  tables s' = tables s /\ Forall2 (fun row c => represents repo scope row.1 row.2.1 row.2.2 c) rows cs.
Proof.
  induction rows as [|[id [h v]] more IH]; intros s cs s' H; cbn [decode_page] in H.
  - apply tx_ret_ok in H as [<- ->]. by split.
  - tx_inv H. tx_pure. pose proof (decode_candidate_keeps repo Hrepo _ _ _ _ _ _ Ha) as E.
    apply decode_candidate_ok in Ha. apply IH in Ha0 as [E' Ha0]. split; [congruence|by constructor].
Qed.

(** Every head has the row of its version. *)
Lemma joined_some c scope id h : candidates_ok c -> ct_heads c !! (scope, id) = Some h ->
  exists v, joined_candidate c scope id = Some (h, v).
Proof.
  intros Hok E. unfold joined_candidate. rewrite E. pose proof (co_heads _ Hok scope id) as Hh. rewrite E in Hh.
  destruct Hh as (H1 & _ & H2). destruct (proj2 (H2 (ch_version h))) as [v Hv]; [lia|]. exists v. by rewrite Hv.
Qed.

Lemma joined_omap c scope ids : (forall id, id ∈ ids -> is_Some (joined_candidate c scope id)) ->
  Forall2 (fun id row => row.1 = id /\ joined_candidate c scope id = Some row.2) ids
    (omap (fun id => option_map (pair id) (joined_candidate c scope id)) ids).
Proof.
  induction ids as [|id ids IH]; intros H; [constructor|]. cbn. destruct (H id) as [row E]; [by left|]. rewrite E. cbn.
  constructor; [done|]. apply IH. intros i Hi. apply H. by right.
Qed.

Lemma selected_ok c scope status fam cursor limit :
  candidates_ok c ->
  Forall2 (fun id row => row.1 = id /\ joined_candidate c scope id = Some row.2)
    (take (Z.to_nat (limit + 1)) (listed_ids c scope status fam cursor)) (selected c scope status fam cursor limit).
Proof.
  intros Hok. unfold selected. apply Forall2_take, joined_omap. intros id [(h & Hh & _) _]%listed_ids_elem.
  destruct (joined_some _ _ _ _ Hok Hh) as [v E]. by eexists.
Qed.

Lemma ListCandidates_ok scope status fam cursor limit s page s' :
  candidates_ok (candidate_rows (tables s)) ->
  ListCandidates repo scope status fam cursor limit s = (Ok page, s') ->
  let ids := listed_ids (candidate_rows (tables s)) scope status fam cursor in
  tables s' = tables s /\ 1 <= limit /\
  map cn_ID (pg_Candidates page) = take (Z.to_nat limit) ids /\
  Forall (fun c => current repo scope (cn_ID c) (tables s) c) (pg_Candidates page) /\
  pg_NextCursor page = if limit <? Z.of_nat (length ids) then last (take (Z.to_nat limit) ids) else None.
Proof.
  intros Hok H. unfold ListCandidates in H. tx_inv H. tx_pure. apply read_ok in Ha3 as [-> E].
  apply decode_page_ok in Ha4 as [E' Hp]. rewrite E in *. apply andb_true_iff in Ha1 as [Hl _]. apply Z.leb_le in Hl.
  pose proof (selected_ok _ scope status fam cursor limit Hok) as Hs. set (ids := listed_ids _ _ _ _ _) in *.
  assert (Hall : map cn_ID a4 = take (Z.to_nat (limit + 1)) ids /\ Forall (fun c => current repo scope (cn_ID c) (tables s) c) a4).
  { clear - Hp Hs. revert Hp Hs. generalize (take (Z.to_nat (limit + 1)) ids) as l. generalize (selected (rows (tables s)) scope status fam cursor limit) as sel.
    intros sel l Hp. revert l. induction Hp as [|[id [h v]] c sel cs Hc _ IH]; intros l Hs; [by inversion Hs|].
    inversion_clear Hs as [|i ? l' ? [Hi Hj] Hs']. cbn in Hi, Hj. subst i. destruct (IH _ Hs') as [Hm Hf].
    cbn in Hc. assert (Hid : cn_ID c = id) by (destruct Hc as (_ & Ec & _); by rewrite Ec).
    split; [cbn; by rewrite Hid, Hm|]. constructor; [|done]. rewrite Hid. by exists h, v. }
  destruct Hall as [Hall Hcur]. split; [congruence|]. split; [done|]. unfold page_of.
  pose proof (f_equal length Hall) as Hlen. rewrite length_map in Hlen.
  rewrite length_take in Hlen. cbn [pg_Candidates pg_NextCursor].
  destruct (Z.ltb_spec limit (Z.of_nat (length a4))) as [Hmore|Hmore].
  - rewrite (proj2 (Z.ltb_lt limit (Z.of_nat (length ids)))) by lia.
    assert (Hk : map cn_ID (take (Z.to_nat limit) a4) = take (Z.to_nat limit) ids).
    { rewrite <- firstn_map, Hall, take_take. f_equal. lia. }
    split; [done|]. split; [by apply Forall_take|]. rewrite <- Hk. symmetry. apply fmap_last.
  - rewrite (proj2 (Z.ltb_ge limit (Z.of_nat (length ids)))) by lia. split; [|done].
    rewrite Hall, !take_ge by lia. done.
Qed.

(** Following the cursors. *)
Fixpoint all_pages (fuel : nat) (scope : string) (status : Status) (fam cursor : option string) (limit : Z) : txn Tb (list (Candidate C)) :=
  match fuel with
  | O => tx_ret []
  | S fuel =>
      let! page := ListCandidates repo scope status fam cursor limit in
      match pg_NextCursor page with
      | None => tx_ret (pg_Candidates page)
      | Some next => let! more := all_pages fuel scope status fam (Some next) limit in tx_ret (pg_Candidates page ++ more)
      end
  end.

Lemma all_pages_ok scope status fam limit : forall fuel cursor s cs s',
  candidates_ok (candidate_rows (tables s)) ->
  all_pages fuel scope status fam cursor limit s = (Ok cs, s') ->
  (length (listed_ids (candidate_rows (tables s)) scope status fam cursor) < fuel)%nat ->
  tables s' = tables s /\ map cn_ID cs = listed_ids (candidate_rows (tables s)) scope status fam cursor /\
  Forall (fun c => current repo scope (cn_ID c) (tables s) c) cs.
Proof.
  induction fuel as [|fuel IH]; intros cursor s cs s' Hok H Hf; [lia|]. cbn [all_pages] in H. tx_inv H.
  apply ListCandidates_ok in Ha as (E & Hl & Hids & Hcur & Hnext); [|done].
  set (ids := listed_ids _ _ _ _ cursor) in *. destruct (Z.ltb_spec limit (Z.of_nat (length ids))) as [Hmore|Hmore].
  - destruct (last (take (Z.to_nat limit) ids)) as [next|] eqn:El; rewrite Hnext in H.
    2:{ apply last_None in El. apply (f_equal length) in El. rewrite length_take in El. cbn in El. lia. }
    tx_inv H. tx_pure. apply last_Some in El as [pre El].
    assert (Hsplit : ids = pre ++ next :: drop (Z.to_nat limit) ids).
    { rewrite <- (take_drop (Z.to_nat limit) ids) at 1. rewrite El. by rewrite <- app_assoc. }
    pose proof (listed_after _ _ _ _ _ _ _ _ Hsplit) as Hafter. rewrite <- E in Hafter.
    apply IH in Ha as (E' & Hm & Hc); [|by rewrite E|rewrite Hafter, length_drop; lia].
    rewrite E in *. split; [done|]. split; [|by apply Forall_app].
    rewrite map_app, Hids, Hm, Hafter. apply take_drop.
  - rewrite Hnext in H. apply tx_ret_ok in H as [<- ->]. split; [done|]. split; [|done]. rewrite Hids, take_ge by lia. done.
Qed.

(** C13: following the cursors of a listing, with any limit, returns the Candidates of a state (and of
    a family, when one is asked for) once each and in the order of their IDs: none is
    skipped or repeated at the border of two pages, each is what the database holds, and
    one page more than there are Candidates is enough. *)
Theorem candidate_pages scope status fam limit s cs s' fuel :
  candidates_ok (candidate_rows (tables s)) ->
  (length (listed_ids (candidate_rows (tables s)) scope status fam None) < fuel)%nat ->
  all_pages fuel scope status fam None limit s = (Ok cs, s') ->
  map cn_ID cs = listed_ids (candidate_rows (tables s)) scope status fam None /\
  NoDup (map cn_ID cs) /\ StronglySorted str_le (map cn_ID cs) /\
  (forall id, id ∈ map cn_ID cs <-> listed (candidate_rows (tables s)) scope status fam id) /\
  Forall (fun c => current repo scope (cn_ID c) (tables s) c) cs /\ tables s' = tables s.
Proof.
  intros Hok Hf H. apply all_pages_ok in H as (E & Hm & Hc); [|done|done]. rewrite Hm.
  split; [done|]. split; [apply listed_ids_NoDup|]. split; [apply listed_ids_sorted|]. split; [|done].
  intros id. rewrite listed_ids_elem. tauto.
Qed.
End pages.

(** ** Witness

    Three Candidates, and pages of two. *)

Definition another (id : string) : review_op (P := Empty_set) (V := string) :=
  OpPropose id Experience.Family demo_experience [demo_source] [] None None.
Definition three : ReviewTables :=
  let step t id := tables (snd (run_op demo_backend (another id) (MkSession t []))) in
  step (step (step demo_tables "candidate-2") "candidate-1") "candidate-3".

Lemma three_ok : review_ok three.
Proof.
  assert (H : forall t id, review_ok t -> review_ok (tables (snd (run_op demo_backend (another id) (MkSession t []))))).
  { intros t id Ht. exact (proj1 (run_op_kept (P := Empty_set) demo_backend (another id) (MkSession t []) _ _ Ht (surjective_pairing _))). }
  unfold three. apply H, H, H, demo_ok.
Qed.

Definition three_pages := all_pages demo_codecs 4 "team" Pending None None 2 (MkSession three []).

Lemma candidate_pages_witness :
  exists cs, fst three_pages = Ok cs /\ map cn_ID cs = ["candidate-1"; "candidate-2"; "candidate-3"]%string /\ NoDup (map cn_ID cs).
Proof.
  assert (K : is_ok (fst three_pages) = true) by (vm_compute; reflexivity).
  assert (Hids : listed_ids (rv_candidates three) "team" Pending None None = ["candidate-1"; "candidate-2"; "candidate-3"]%string)
    by (vm_compute; reflexivity).
  destruct three_pages as [[cs|e] s'] eqn:E; [|discriminate K].
  pose proof (candidate_pages demo_codecs (rp_candidates (P := Empty_set) (b := demo_backend)) "team" Pending None 2 (MkSession three []) cs s' 4
    (ro_candidates _ three_ok) ltac:(unfold rows; cbn [tables review_holds_candidates]; rewrite Hids; cbn; lia) E) as (Hm & Hn & _).
  exists cs. split; [reflexivity|]. split; [|exact Hn]. rewrite Hm. exact Hids.
Defined.
