(* ===== verification/MemoryRelProps.v ===== *)
(** * Properties of Memory on the relational store

    Commits are atomic and readable, the service's contract holds, a window and its
    plan are applied together, and the windows of a scope tile its journal. *)

From S2P Require Import Prelude.
From S2P Require Import GoStrings.
From S2P Require Import Refs.
From S2P Require Import Json.
From S2P Require Import JsonText.
From S2P Require Import MemoryModel.
From S2P Require Import Sql.
From S2P Require Import ArtifactStore.
From S2P Require Import ArtifactStoreFacts.
From S2P Require Import MemoryService.
From S2P Require Import MemorySearch.
From S2P Require Import MemoryStore.
From S2P Require Import MemoryCodec.
From S2P Require Import MemoryRepository.
From S2P Require Import MemoryRepositoryFacts.
From S2P Require Import MemoryBackend.
From S2P Require Import Trigger.
From S2P Require Import MemoryApplication.
From S2P Require Import CursorStore.
From S2P Require Import SourceStore.
From S2P Require Import SourceStoreFacts.
From S2P Require Import SourceProps.
From S2P Require Import Windows.
From S2P Require Import MemoryFlush.

(** The content of a Memory whose entries and changes are valid is read back as
    it was stored. *)
Theorem memory_payload_roundtrip `{Text} (c : MemoryModel.Content) :
  valid_memory c -> decodeMemory (encodeMemory c) = Ok c.
Proof. apply decode_encode_memory. Qed.

Section commits.
Context {T : Text} {Tb C I : Type} {HA : Holds Tb Tables} {HM : Holds Tb MemoryTables} {HI : Holds Tb I}
        {DC : Dynamic C} {CC : Carries C MemoryModel.Content}
        {AAM : Apart Tb Tables MemoryTables} {AIA : Apart Tb I Tables} {AIM : Apart Tb I MemoryTables}.
Context (repo : MemoryRepository Tb C) (codec : ArtifactCodec Tb C) (Hcodec : MemoryArtifactCodec = Ok codec)
        (Hrepo : mr_artifacts repo !! MemoryModel.Family = Some codec) (Hindex : index_laws I (mr_index repo))
        (Hscope : requireScope (mr_scope repo) = Ok tt).

(** C3: Whichever statements of it the driver fails, a commit of a Memory revision
    leaves the database as it was, or adds the whole revision: its artifact at the
    next revision of its identity with its lineage, its entry versions under keys
    that were free, and the searchable heads of exactly its active entries.  The
    revision is then what is read under its reference and at the head, and every
    other revision reads as before. *)
Theorem memory_commit_atomic (t : Tb) (fs : list bool) (c : Commit) r s' :
  memory_ok repo t -> Commit_ repo c (MkSession t fs) = (r, s') ->
  match r with
  | Err _ => tables s' = t
  | Ok m =>
      m = cm_memory c /\ committed repo c t (tables s') /\ memory_ok repo (tables s') /\
      observed (MemoryRepository.Get repo (a_ref m)) (tables s') = Ok m /\
      observed (MemoryRepository.Latest repo (artifactID (a_ref m))) (tables s') = Ok m /\
      forall other, other <> a_ref m -> observed (MemoryRepository.Get repo other) (tables s') = observed (MemoryRepository.Get repo other) t
  end.
Proof.
  intros Hm H. destruct r as [m|e]; [|by apply transaction_err in H].
  pose proof (Commit_ok _ _ Hcodec Hrepo Hindex c (MkSession t fs) m s' (mo_rows _ _ Hm) H) as [-> Hc].
  pose proof (committed_keeps _ _ _ _ Hm Hc) as Hm'.
  destruct (committed_observed _ _ Hcodec Hrepo Hscope _ _ _ Hm' Hc) as (H1 & H2 & H3). done.
Qed.

(** C26: The relational repository is a backend of the Memory service: on the
    databases that can be read, and whatever statements fail, it keeps the contract
    that the service relies on. *)
Theorem relational_backend (fs : list bool) :
  @BackendLaws (Database repo) (database_backend repo codec Hcodec Hrepo Hindex fs).
Proof. by apply database_laws. Qed.
End commits.

Section windows.
Context {T : Text} {Tb C V O I : Type} {HA : Holds Tb Tables} {HM : Holds Tb MemoryTables} {HI : Holds Tb I}
        {HS : Holds Tb SourceTables} {HC : Holds Tb CursorRows} {DC : Dynamic C} {CC : Carries C MemoryModel.Content}
        {SV : SourceValues V O} {OB : Observations Tb O}
        {AAM : Apart Tb Tables MemoryTables} {AIA : Apart Tb I Tables} {AIM : Apart Tb I MemoryTables}
        {AAS : Apart Tb Tables SourceTables} {AMS : Apart Tb MemoryTables SourceTables} {AIS : Apart Tb I SourceTables}
        {AAC : Apart Tb Tables CursorRows} {AMC : Apart Tb MemoryTables CursorRows} {AIC : Apart Tb I CursorRows}
        {ASC : Apart Tb SourceTables CursorRows}.
Context (store : @MemoryFlushStore Tb C V) (codec : ArtifactCodec Tb C) (Hcodec : MemoryArtifactCodec = Ok codec)
        (Hrepo : mr_artifacts (fl_memory store) !! MemoryModel.Family = Some codec)
        (Hindex : index_laws I (mr_index (fl_memory store))).

(** Applying a window moves the cursor and commits the plan together: when a
    statement fails, when the cursor is no longer at the generation that was
    observed, or when the plan is stale, nothing changes. *)
Theorem window_applied_once binding plan next g (s : SessionOf Tb) r s' :
  window_tables (fun t => rows_ok (rows t : Tables)) (tables s) -> in_int64 (Sequence next) -> match g with Some g => g <= max_int64 | None => True end ->
  apply_window store binding plan next g s = (r, s') ->
  match r with
  | Err _ => tables s' = tables s
  | Ok m =>
      m = wp_result plan /\ plan_applied store plan (tables s) (tables s') /\
      sources_of (tables s') = sources_of (tables s) /\
      option_map snd (cursor_at (tables s) (fl_scope store) binding) = g /\
      cursor_at (tables s') (fl_scope store) binding = Some (next, match g with Some g => g + 1 | None => 1 end)
  end.
Proof.
  intros Hok Hn Hg H. destruct r as [m|e]; [|by apply transaction_err in H].
  apply (apply_window_ok _ _ Hcodec Hrepo Hindex) in H as (_ & H1 & H2 & H3 & H4 & H5 & _); done.
Qed.
End windows.

(** ** Witnesses

    A database of the four parts, a repository of Memories without an index, and a
    service that makes one entry of each Source. *)

Record AllTables := MkAll {
  all_artifacts : Tables; all_memory : MemoryTables; all_sources : SourceTables; all_cursors : CursorRows
}.

#[export] Instance all_holds_artifacts : Holds AllTables Tables.
Proof.
  refine {| rows := all_artifacts; with_rows r t := MkAll r (all_memory t) (all_sources t) (all_cursors t) |}; by try intros [].
Defined.
#[export] Instance all_holds_memory : Holds AllTables MemoryTables.
Proof.
  refine {| rows := all_memory; with_rows r t := MkAll (all_artifacts t) r (all_sources t) (all_cursors t) |}; by try intros [].
Defined.
#[export] Instance all_holds_sources : Holds AllTables SourceTables.
Proof.
  refine {| rows := all_sources; with_rows r t := MkAll (all_artifacts t) (all_memory t) r (all_cursors t) |}; by try intros [].
Defined.
#[export] Instance all_holds_cursors : Holds AllTables CursorRows.
Proof.
  refine {| rows := all_cursors; with_rows r t := MkAll (all_artifacts t) (all_memory t) (all_sources t) r |}; by try intros [].
Defined.
#[export] Instance all_artifacts_memory : Apart AllTables Tables MemoryTables. Proof. by split. Qed.
#[export] Instance all_artifacts_sources : Apart AllTables Tables SourceTables. Proof. by split. Qed.
#[export] Instance all_artifacts_cursors : Apart AllTables Tables CursorRows. Proof. by split. Qed.
#[export] Instance all_memory_sources : Apart AllTables MemoryTables SourceTables. Proof. by split. Qed.
#[export] Instance all_memory_cursors : Apart AllTables MemoryTables CursorRows. Proof. by split. Qed.
#[export] Instance all_sources_cursors : Apart AllTables SourceTables CursorRows. Proof. by split. Qed.
#[export] Instance nothing_apart (Tb R : Type) `{Holds Tb R} : Apart Tb unit R. Proof. split; [by intros ? ?; destruct (rows _)|by intros []]. Qed.

#[export] Instance demo_dynamic : Dynamic MemoryModel.Content := fun _ => "memory.Content"%string.
#[export] Instance demo_carries : Carries MemoryModel.Content MemoryModel.Content.
Proof. refine {| carried_type := "memory.Content"; inject c := c; project c := Some c |}; [done|by intros c x [= ->]|done]. Defined.

Definition rel_codec : ArtifactCodec AllTables MemoryModel.Content :=
  match MemoryArtifactCodec (Tb := AllTables) with Ok c => c | Err _ => MkCodec "" [] (fun _ => None) (fun _ _ => tx_err SDriver) (fun _ _ _ _ => tx_err SDriver) end.
Lemma rel_codec_ok : MemoryArtifactCodec (Tb := AllTables) = Ok rel_codec.
Proof. reflexivity. Qed.

Definition rel_repo : MemoryRepository AllTables MemoryModel.Content :=
  MkMemoryRepository "team" {[ MemoryModel.Family := rel_codec ]} NoMemoryIndex.
Lemma rel_repo_ok : mr_artifacts rel_repo !! MemoryModel.Family = Some rel_codec.
Proof. reflexivity. Qed.

Definition rel_plan_source : Source.Ref := Source.MkRef "content" "plan".
Definition rel_tables : AllTables :=
  MkAll (MkTables {[ ("team"%string, demo_source); ("team"%string, rel_plan_source) ]} ∅ ∅ ∅ ∅) (MkMemoryTables ∅ ∅) two_sources ∅.

Definition rel_resolver : SourceResolver string := MkSourceResolver Ok (fun name => Ok (Source.MkRef "content" name)).
Definition rel_service : Service string Ref nat :=
  MkService string Ref nat (Some (fun request => Ok (map note (cr_sources _ _ request)))) None (Some rel_resolver) None counted_id.
Definition rel_application : MemoryApplication string Ref nat :=
  MkApplication (fun _ => Ok (Some rel_service)) (Some (fun _ => Ok true)) "memory-0" 1.
Definition rel_store : @MemoryFlushStore AllTables MemoryModel.Content string := MkFlushStore "team" demo_sources rel_repo.

#[local] Instance rel_backend : Backend AllTables := sql_backend rel_repo [].
#[local] Instance rel_flush : MemoryFlushBackend (SessionOf AllTables) string := sql_flush (fun _ => false) rel_store.

Definition rel_session : SessionOf AllTables := MkSession rel_tables [].
Definition rel_flushed := flushWindow rel_application rel_session rel_tables rel_session "team" 0%nat.

Lemma rel_rows_ok : rows_ok (all_artifacts rel_tables).
Proof.
  split; [split; intros sc r i [v Hv]; cbn in Hv; by rewrite lookup_empty in Hv|].
  intros sc fam id. cbn. rewrite lookup_empty. intros rev. by rewrite lookup_empty.
Qed.

Lemma rel_memory_ok : memory_ok rel_repo rel_tables.
Proof. split; [exact rel_rows_ok|]. intros r payload _ H. cbn in H. by rewrite lookup_empty in H. Qed.

Lemma rel_flush_tables : window_tables (fun t => rows_ok (all_artifacts t)) rel_tables.
Proof. split; [exact two_sources_ok|]. split; [|exact rel_rows_ok]. intros k payload g H. cbn in H. by rewrite lookup_empty in H. Qed.

Definition rel_plan : WritePlan :=
  plan_of (PlanRemember rel_service rel_tables None ["notes"%string] [] [] RememberExtract 0%nat).
Definition rel_commit : Commit := default (MkCommit None first_memory "" [] []) (wp_commit rel_plan).
Definition rel_committed := Commit_ rel_repo rel_commit (MkSession rel_tables []).

Lemma memory_commit_atomic_witness :
  is_ok (fst rel_committed) = true /\ memory_ok rel_repo (tables (snd rel_committed)) /\
  tables (snd (Commit_ rel_repo rel_commit (MkSession rel_tables [false; false; false; true]))) = rel_tables.
Proof.
  assert (E : is_ok (fst rel_committed) = true) by (vm_compute; reflexivity). split; [exact E|]. split.
  - pose proof (memory_commit_atomic rel_repo rel_codec rel_codec_ok rel_repo_ok (no_index_laws AllTables) ltac:(vm_compute; reflexivity)
      rel_tables [] rel_commit (fst rel_committed) (snd rel_committed) rel_memory_ok (surjective_pairing _)) as H.
    destruct (fst rel_committed) as [m|e]; [exact (proj1 (proj2 (proj2 H)))|discriminate E].
  - assert (N : is_ok (fst (Commit_ rel_repo rel_commit (MkSession rel_tables [false; false; false; true]))) = false) by (vm_compute; reflexivity).
    destruct (Commit_ rel_repo rel_commit (MkSession rel_tables [false; false; false; true])) as [[m|e] s'] eqn:F; [discriminate N|].
    exact (memory_commit_atomic rel_repo rel_codec rel_codec_ok rel_repo_ok (no_index_laws AllTables) ltac:(vm_compute; reflexivity)
      rel_tables _ rel_commit _ _ rel_memory_ok F).
Defined.

Definition rel_content : MemoryModel.Content :=
  MemoryModel.MkContent
    [MkEntry "entry-1" "version-2" "0123456789abcdef0123456789abcdef0123456789abcdef0123456789abcdef" Active]
    [MkChange MemoryModel.Add "entry-1" None (Some "version-2"%string) (Some "first"%string)].

Lemma memory_payload_roundtrip_witness : valid_memory rel_content /\ decodeMemory (encodeMemory rel_content) = Ok rel_content.
Proof.
  assert (H : valid_memory rel_content).
  { split; apply Forall_singleton; [|split; vm_compute; reflexivity].
    apply (NewManifestEntry_ok "entry-1" "version-2" "0123456789abcdef0123456789abcdef0123456789abcdef0123456789abcdef" Active).
    vm_compute. reflexivity. }
  split; [exact H|exact (memory_payload_roundtrip rel_content H)].
Defined.

Lemma relational_backend_witness :
  requireScope (mr_scope rel_repo) = Ok tt /\
  @BackendLaws (Database rel_repo) (database_backend rel_repo rel_codec rel_codec_ok rel_repo_ok (no_index_laws AllTables) [true]).
Proof.
  split; [vm_compute; reflexivity|].
  exact (relational_backend rel_repo rel_codec rel_codec_ok rel_repo_ok (no_index_laws AllTables) ltac:(vm_compute; reflexivity) [true]).
Defined.

(** A window applied with a plan, and again with the generation that it replaced. *)
Definition rel_applied := apply_window rel_store SourceWindowName rel_plan (NewCursor 1) None rel_session.
Definition rel_again := apply_window rel_store SourceWindowName (MkWritePlan None None) (NewCursor 2) None (snd rel_applied).

Lemma rel_applied_ok : exists m, fst rel_applied = Ok m.
Proof.
  assert (E : is_ok (fst rel_applied) = true) by (vm_compute; reflexivity).
  destruct (fst rel_applied) as [m|e]; [by exists m|discriminate E].
Qed.

Lemma window_applied_once_witness :
  (exists m, fst rel_applied = Ok m) /\
  cursor_at (tables (snd rel_applied)) "team" SourceWindowName = Some (NewCursor 1, 1) /\
  is_ok (fst rel_again) = false.
Proof.
  split; [exact rel_applied_ok|]. split; [|vm_compute; reflexivity].
  pose proof (window_applied_once rel_store rel_codec rel_codec_ok rel_repo_ok (no_index_laws AllTables)
    SourceWindowName rel_plan (NewCursor 1) None rel_session (fst rel_applied) (snd rel_applied)
    rel_flush_tables ltac:(unfold in_int64, min_int64, max_int64; cbn; lia) I (surjective_pairing _)) as H.
  destruct rel_applied_ok as [m E]. rewrite E in H. exact (proj2 (proj2 (proj2 (proj2 H)))).
Defined.

#[local] Instance rel_flush_laws : MemoryFlushLaws (SessionOf AllTables) string :=
  sql_flush_laws (fun _ => false) rel_store rel_codec rel_codec_ok rel_repo_ok (no_index_laws AllTables).

#[local] Existing Instance source_windows.

Lemma rel_state : window_state (sourceWindowLimit rel_application) rel_session.
Proof.
  split; [exact rel_flush_tables|vm_compute; split; discriminate|]. vm_compute. discriminate.
Qed.

Definition rel_window : ObservedWindow string := MkObserved (NewCursor 0) (NewCursor 1) None 2 ["notes"%string].
Lemma rel_observed : ObserveWindow rel_session SourceWindowName (sourceWindowLimit rel_application) = Ok rel_window.
Proof. vm_compute. reflexivity. Qed.
Lemma rel_planned : PlanRemember rel_service rel_tables None (ow_values rel_window) [] [] RememberExtract 0%nat = Ok (rel_plan, 3%nat).
Proof. vm_compute. reflexivity. Qed.

Lemma flush_progress_witness :
  exists applied st', ApplyWindow rel_session SourceWindowName rel_plan (NewCursor 1) None = (applied, st') /\
    rel_flushed = (let* m := applied in Ok (MkFlushResult 0 1 2 1 (option_map a_ref m)), st').
Proof.
  destruct (ApplyWindow rel_session SourceWindowName rel_plan (NewCursor 1) None) as [applied st'] eqn:E.
  exists applied, st'. split; [reflexivity|].
  pose proof (flush_progress rel_application "team" rel_session rel_tables 0%nat rel_state ltac:(vm_compute; discriminate) eq_refl rel_window rel_observed) as H.
  assert (Eh : ws_head rel_session = 2) by (vm_compute; reflexivity).
  assert (Et : done_to rel_session = 0) by (vm_compute; reflexivity).
  rewrite Eh, Et in H. change (2 <=? 0) with false in H. cbv iota zeta in H.
  change (Z.min 2 (0 + sourceWindowLimit rel_application)) with 1 in H.
  specialize (H rel_service None rel_plan 3%nat eq_refl ltac:(vm_compute; reflexivity) rel_planned).
  change (ow_generation rel_window) with (@None Z) in H. rewrite E in H. exact H.
Defined.

(** The first flush of a scope. *)
Definition rel_world : WindowWorld :=
  MkWorld (snd rel_flushed) [rel_session] ([] ++ committed_window rel_application rel_session (fst rel_flushed)).

Lemma flush_windows_tile_witness :
  wo_log rel_world = [MkCommitted (MkWindow 0 1) ["notes"%string]] /\
  journal_values (Tb := AllTables) "team" demo_sources (planned (fun _ : Empty_set => false)) (sources_of (tables (wo_store rel_world)))
    (flushed_to rel_store rel_session) (flushed_to rel_store (wo_store rel_world)) (concat (map cw_values (wo_log rel_world))).
Proof.
  split; [vm_compute; reflexivity|].
  refine (proj1 (proj2 (flush_windows_tile (DB := AllTables) (fun _ => false) rel_store rel_codec rel_codec_ok rel_repo_ok (no_index_laws AllTables)
    rel_application rel_session rel_world rel_state _))).
  refine (win_next _ _ _ (MkWorld rel_session [rel_session] []) rel_world _ _).
  - exact (win_next _ _ _ _ _ (win_start _ _ _) (win_observe _ _ (MkWorld rel_session [] []))).
  - refine (win_attempt _ _ (MkWorld rel_session [rel_session] []) rel_session _ (snd rel_flushed) _ _); [left|].
    exists rel_tables, 0%nat, (fst rel_flushed). split; [apply surjective_pairing|reflexivity].
Defined.
