(* ===== verification/TriggerProps.v ===== *)
(** * Triggers and handoff values: properties *)

From S2P Require Import Prelude.
From S2P Require Import GoStrings.
From S2P Require Import Refs.
From S2P Require Import Json.
From S2P Require Import MemoryModel.
From S2P Require Import Handoff.
From S2P Require Import Trigger.

(** over any signals, the source windows that the policy emits follow each
    other without gap or overlap from the first cursor to the last, and each stays
    within a signal's watermark and limit. *)
Theorem source_windows_tile signals (state s : Cursor) ws :
  0 <= Sequence state ->
  Forall (fun g => 1 <= w_limit g /\ w_sequence g + w_limit g <= max_int64) signals ->
  activations signals state = Ok (s, ws) ->
  tiles (Sequence state) (Sequence s) ws /\
  Forall (fun w => exists g, g ∈ signals /\ through w <= w_sequence g /\ through w - after w <= w_limit g) ws.
Proof. apply window_activations. Qed.

Lemma source_windows_tile_witness :
  activations [MkWatermark 5 3; MkWatermark 5 3; MkWatermark 4 1; MkWatermark 9 10] (NewCursor 0)
    = Ok (NewCursor 9, [MkWindow 0 3; MkWindow 3 5; MkWindow 5 9]) /\
  tiles 0 9 [MkWindow 0 3; MkWindow 3 5; MkWindow 5 9].
Proof.
  split; [vm_compute; reflexivity|].
  apply (source_windows_tile [MkWatermark 5 3; MkWatermark 5 3; MkWatermark 4 1; MkWatermark 9 10]
           (NewCursor 0) (NewCursor 9)).
  - vm_compute. discriminate.
  - repeat constructor; vm_compute; discriminate.
  - vm_compute. reflexivity.
Defined.

(** repeating a watermark reaches it within the distance divided by the limit,
    rounded up, activations, and then nothing is emitted. *)
Theorem source_window_catches_up n (g : SourceHighWatermark) (state : Cursor) :
  in_room state g -> w_sequence g <= Sequence state + Z.of_nat n * w_limit g ->
  exists s ws, activations (replicate n g) state = Ok (s, ws) /\
    Sequence s = Z.max (Sequence state) (w_sequence g) /\
    t_actions (SourceWindowPolicy_Activate g s) = [].
Proof.
  intros Hr Hn. destruct (window_repeats n g state Hr Hn) as (s & ws & E & Es).
  exists s, ws. split; [done|]. split; [done|]. unfold SourceWindowPolicy_Activate.
  destruct (Z.leb_spec (w_sequence g) (Sequence s)); [done|lia].
Qed.

Lemma source_window_catches_up_witness :
  exists s ws, activations (replicate 3 (MkWatermark 8 3)) (NewCursor 1) = Ok (s, ws) /\ Sequence s = 8.
Proof.
  destruct (source_window_catches_up 3 (MkWatermark 8 3) (NewCursor 1)) as (s & ws & H1 & H2 & _).
  - unfold in_room, max_int64. cbn. lia.
  - cbn. lia.
  - exists s, ws. split; [exact H1|exact H2].
Defined.

(** A limit near the top of [int64] wraps: the cursor moves back, below zero. *)
Lemma source_window_wraps :
  exists g state, NewSourceHighWatermark (w_sequence g) (w_limit g) = Ok g /\ 0 <= Sequence state /\
    Sequence (t_state (SourceWindowPolicy_Activate g state)) = min_int64.
Proof. exists (MkWatermark 2 max_int64), (NewCursor 1). repeat split; vm_compute; done. Qed.

(** a handoff boundary never panics: over any boundaries that the constructor
    accepted, one preparation is made for each position beyond all the earlier
    ones, repeated and late positions make none, and the cursor ends at the
    greatest position. *)
Theorem handoff_boundaries_once (bs : list HandoffBoundary) (state : Cursor) :
  Forall valid_boundary bs ->
  exists s ps, activations bs state = Ok (s, ps) /\
    length ps = length (records (Sequence state) (map b_position bs)) /\
    Sequence s = fold_left Z.max (map b_position bs) (Sequence state).
Proof. apply boundary_activations. Qed.

Definition sample_activate : Activate :=
  MkActivate (Source.MkRef "turn" "t1") "ship it" [Some (ArtifactCitation (MkRef "memory" "m" 1))] 1000.

Lemma handoff_boundaries_once_witness :
  exists s ps, activations [MkBoundary 2 sample_activate; MkBoundary 2 sample_activate;
                            MkBoundary 7 sample_activate; MkBoundary 3 sample_activate] (NewCursor 0) = Ok (s, ps) /\
    length ps = 2%nat /\ Sequence s = 7.
Proof.
  apply (handoff_boundaries_once [MkBoundary 2 sample_activate; MkBoundary 2 sample_activate;
    MkBoundary 7 sample_activate; MkBoundary 3 sample_activate] (NewCursor 0)).
  repeat constructor; vm_compute; reflexivity.
Defined.

(** the citations of a validated preparation are individually valid and have
    pairwise different identities. *)
Theorem prepared_citations_unique (p : Prepare) :
  ValidatePrepare p = Ok tt ->
  exists cs, p_evidence p = map Some cs /\ NoDup (map citationKey cs) /\
    Forall (fun c => validate_value c = Ok tt) cs /\ 1 <= len cs <= MaxCitations.
Proof.
  unfold ValidatePrepare. intros H. bind_inv H. ok_inv. boolify.
  apply validate_loop_keys in Ha1 as (cs & E & K1 & _ & K3). exists cs.
  rewrite E in *. unfold len in *. rewrite length_map in *. repeat split; auto; lia.
Qed.

Lemma prepared_citations_unique_witness :
  ValidatePrepare (MkPrepare "ship it" (ActionEvidence sample_activate) 1000) = Ok tt /\
  exists cs, ActionEvidence sample_activate = map Some cs /\ NoDup (map citationKey cs).
Proof.
  assert (H : ValidatePrepare (MkPrepare "ship it" (ActionEvidence sample_activate) 1000) = Ok tt)
    by (vm_compute; reflexivity).
  split; [exact H|]. destruct (prepared_citations_unique _ H) as (cs & H1 & H2 & _).
  exists cs. split; [exact H1|exact H2].
Defined.

(** Identity keys join their parts without escaping: two valid citations of
    different artifacts can share a key, and are refused as duplicates. *)
Lemma citation_keys_collide :
  exists c d, c <> d /\ validate_value c = Ok tt /\ validate_value d = Ok tt /\
    validateCitations [Some c; Some d] true = Err HUnique.
Proof.
  exists (ArtifactCitation (MkRef "a:b" "c" 1)), (ArtifactCitation (MkRef "a" "b:c" 1)).
  split; [discriminate|]. repeat split; vm_compute; reflexivity.
Qed.
