(* ===== verification/HandoffService.v ===== *)
(** * The handoff service ([artifact/handoff/service.go],
    [internal/runtime/handoff_application.go])

    Preparation, finalization, commits and continuations of handoffs, against the
    interfaces of the evidence resolver ([EvidenceResolver]), the store
    ([HandoffBackend]) and the generation pipeline (a function), and the
    activation of a handoff by a durable boundary.  An operation takes the state
    of the store; [Commit] takes it twice, since other writers can come between
    its reads and its write. *)

From S2P Require Import Prelude.
From S2P Require Import GoStrings.
From S2P Require Import Refs.
From S2P Require Import Json.
From S2P Require Import MemoryModel.
From S2P Require Import MemoryService.
From S2P Require Import Handoff.
From S2P Require Import HandoffResolution.
From S2P Require Import Trigger.
(** ** Interfaces *)

(** [EvidenceResolver]; a citation can be a nil interface, and so can evidence. *)
Class EvidenceResolver (DB V S : Type) := {
  Resolve : DB -> option Citation -> hres (option (Evidence V S));
  ValidateCitation : DB -> option Citation -> hres unit
}.

(** What the resolver promises: the evidence of the citation that was asked for. *)
Class EvidenceResolverLaws (DB V S : Type) `{EvidenceResolver DB V S} := {
  resolve_law db c e : Resolve db c = Ok (Some e) -> c = Some (EvidenceCitation e)
}.

Definition HandoffArtifact := Artifact Content.
Definition ArtifactDraft := Draft Content.

(** [Backend]. A write returns the new state of the store, also when it fails. *)
Class HandoffBackend (DB : Type) := {
  CreateRevision : DB -> string -> ArtifactDraft -> hres HandoffArtifact * DB;
  ReviseRevision : DB -> HandoffArtifact -> ArtifactDraft -> hres HandoffArtifact * DB;
  GetRevision : DB -> Ref -> hres HandoffArtifact;
  LatestRevision : DB -> string -> hres (option HandoffArtifact);
  AllRevisions : DB -> string -> hres (list HandoffArtifact)
}.

(** What the store promises: an append-only history per artifact, oldest first.
    [stored] is what a content becomes when it is read back. *)
Class HandoffBackendLaws (DB : Type) `{HandoffBackend DB} := {
  store_ok : DB -> Prop;
  history : DB -> string -> list HandoffArtifact;
  stored : Content -> Content;
  history_ref db id i h :
    store_ok db -> history db id !! i = Some h ->
    a_ref h = MkRef Family id (Z.of_nat i + 1) /\ valid_ref (a_ref h) /\ ValidateContent (a_content h) = Ok tt;
  latest_law db id o : store_ok db -> LatestRevision db id = Ok o -> o = last (history db id);
  get_law db r h : store_ok db -> family r = Family -> GetRevision db r = Ok h -> h ∈ history db (artifactID r) /\ a_ref h = r;
  all_law db id hs : store_ok db -> AllRevisions db id = Ok hs -> hs = history db id;
  create_law db id d r db' :
    store_ok db -> d_family d = Family -> CreateRevision db id d = (r, db') ->
    store_ok db' /\ (forall other, other <> id -> history db' other = history db other) /\
    match r with
    | Ok h => history db id = [] /\ history db' id = [h] /\
              a_content h = stored (d_content d) /\ a_lineage h = d_lineage d
    | Err _ => history db' id = history db id
    end;
  revise_law db base d r db' :
    store_ok db -> d_family d = Family -> family (a_ref base) = Family -> ReviseRevision db base d = (r, db') ->
    let id := artifactID (a_ref base) in
    store_ok db' /\ (forall other, other <> id -> history db' other = history db other) /\
    match r with
    | Ok h => option_map a_ref (last (history db id)) = Some (a_ref base) /\ history db' id = history db id ++ [h] /\
              a_content h = stored (d_content d) /\ a_lineage h = d_lineage d
    | Err _ => history db' id = history db id
    end
}.

(** ** Citations of a content *)

Definition directCitations (c : Content) : list (option Citation) :=
  concat (map s_citations (hstate c)) ++
  match nextAction c with Some s => s_citations s | None => [] end.

Definition allCitations (c : Content) : list (option Citation) :=
  directCitations c ++ List.filter (fun o => match o with Some _ => true | None => false end)
                         (map o_citation (omissions c)).

(** The first occurrence of each value, as the loops with a set [seen] keep. *)
Fixpoint firsts {A} `{EqDecision A} (seen : list A) (xs : list A) : list A :=
  match xs with
  | [] => []
  | x :: more => if bool_decide (x ∈ seen) then firsts seen more else x :: firsts (x :: seen) more
  end.

Definition source_of (c : option Citation) : option Source.Ref :=
  match c with Some (SourceCitation r) => Some r | _ => None end.

Definition artifact_of (c : option Citation) : option Ref :=
  match c with
  | Some (ArtifactCitation r) => Some r
  | Some (MemoryCitation m) => Some (ci_MemoryRef m)
  | _ => None
  end.

Definition sourceLineage (c : Content) : list Source.Ref := firsts [] (omap source_of (directCitations c)).
Definition artifactLineage (c : Content) : list Ref := firsts [] (omap artifact_of (directCitations c)).

(** [NewArtifactDraft] of model.go *)
Definition NewArtifactDraft (c : Content) (srcs : list Source.Ref) (arts : list Ref) : hres ArtifactDraft :=
  let* _ := ValidateContent c in
  map_err HRef (NewDraft Family c srcs arts).

(** ** The service *)

Section service.
Context {DB V S : Type} {R : EvidenceResolver DB V S} {B : HandoffBackend DB} {VS : Values V S}.

Record Service := MkService {
  s_scopeID : string; s_artifactID : string; pipeline : option (GenerationRequest V S -> hres Content)
}.

Definition NewService (scope id : string) (p : option (GenerationRequest V S -> hres Content)) : hres Service :=
  require negb (blank scope) else HText "scope_id" in
  let* _ := map_err HRef (NewRef Family id 1) in
  Ok (MkService scope id p).

Definition requireReference (s : Service) (r : Ref) : hres unit :=
  require is_ok (Validate r) && String.eqb (family r) Family && String.eqb (artifactID r) (s_artifactID s)
    else HInvalidReference in
  Ok tt.

Definition requirePrepared (s : Service) (p : Prepared) : hres unit :=
  require String.eqb (scopeID p) (s_scopeID s) else HScopeMismatch (s_scopeID s) (scopeID p) in
  match base p with Some r => requireReference s r | None => Ok tt end.

(** The loop of the private [validateEvidence]. *)
Definition validateCitationsOf (db : DB) (c : Content) : hres unit :=
  let* _ := map_res (ValidateCitation db) (directCitations c) in Ok tt.

(** The exported [ValidateEvidence]. *)
Definition ValidateEvidence (db : DB) (citations : list (option Citation)) : hres unit :=
  let* _ := map_res (fun c => let* _ := validateCitation c in ValidateCitation db c) citations in Ok tt.

(** ** Preparation *)

(** The keys that the action allows; its citations are not nil once validated. *)
Definition allowed_keys (citations : list (option Citation)) : hres (list string) := map_res citation_key citations.

Definition validateGeneratedDraft (action : Handoff.Prepare) (draft : Content) : hres unit :=
  require String.eqb (objective draft) (p_objective action) else HInvalidGeneration "objective" in
  let* allowed := allowed_keys (p_evidence action) in
  let* _ := map_res (fun c =>
                       let* key := citation_key c in
                       require bool_decide (key ∈ allowed) else HInvalidGeneration "evidence" in Ok tt)
              (allCitations draft) in
  let* rendered := RenderContent draft in
  require len rendered <=? p_maxBytes action else HInvalidGeneration "budget" in
  Ok tt.

Definition Prepare (s : Service) (db : DB) (action : Handoff.Prepare) : hres Content :=
  let* _ := ValidatePrepare action in
  let* generate := of_option (pipeline s) HGenerationUnavailable in
  let* evidence := map_res (Resolve db) (p_evidence action) in
  let* request := NewGenerationRequest (p_objective action) evidence (p_maxBytes action) in
  let* draft := generate request in
  let* _ := validateGeneratedDraft action draft in
  Ok draft.

(** ** Finalization and commits *)

Definition Finalize (s : Service) (db : DB) (draft : Content) : hres Prepared :=
  let* _ := ValidateContent draft in
  let* _ := validateCitationsOf db draft in
  let* current := LatestRevision db (s_artifactID s) in
  NewPrepared (s_scopeID s) (option_map a_ref current) draft.

Definition sameBase (b : option Ref) (current : option HandoffArtifact) : bool :=
  match current with
  | None => bool_decide (b = None)
  | Some h => bool_decide (b = Some (a_ref h))
  end.

Definition zero_ref : Ref := MkRef "" "" 0.

(** What [Commit] does once it has the head: [db] is the store when the evidence is
    checked and the revision is written. *)
Definition commit_revision (s : Service) (db : DB) (prepared : Prepared) (current : option HandoffArtifact)
  : hres HandoffArtifact * DB :=
  match (require sameBase (base prepared) current
           else HConflict (default zero_ref (base prepared)) (default zero_ref (option_map a_ref current)) in
         let* _ := validateCitationsOf db (content prepared) in
         NewArtifactDraft (content prepared) (sourceLineage (content prepared)) (artifactLineage (content prepared)))
  with
  | Err e => (Err e, db)
  | Ok draft =>
      match current with
      | None => CreateRevision db (s_artifactID s) draft
      | Some h => ReviseRevision db h draft
      end
  end.

(** [read] is the store when its head is read. *)
Definition Commit (s : Service) (read db : DB) (prepared : Prepared) : hres HandoffArtifact * DB :=
  match (let* _ := ValidatePrepared prepared in
         let* _ := requirePrepared s prepared in
         LatestRevision read (s_artifactID s)) with
  | Err e => (Err e, db)
  | Ok (Some h) =>
      if EqualContent (a_content h) (content prepared) then (Ok h, db) else commit_revision s db prepared (Some h)
  | Ok None => commit_revision s db prepared None
  end.

(** ** Reads *)

Definition Latest (s : Service) (db : DB) : hres (option HandoffArtifact) := LatestRevision db (s_artifactID s).

Definition Revision (s : Service) (db : DB) (r : Ref) : hres HandoffArtifact :=
  let* _ := requireReference s r in
  GetRevision db r.

Definition Revisions (s : Service) (db : DB) : hres (list HandoffArtifact) := AllRevisions db (s_artifactID s).

(** ** Continuations *)

(** The loop of [checkEvidence]: the citations that are unavailable, once each. *)
Fixpoint unavailable_of (db : DB) (citations : list (option Citation)) (seen : list string)
  : hres (list (option Citation)) :=
  match citations with
  | [] => Ok []
  | c :: more =>
      match ValidateCitation db c with
      | Ok _ => unavailable_of db more seen
      | Err HEvidenceUnavailable =>
          let* key := citation_key c in
          if bool_decide (key ∈ seen) then unavailable_of db more seen
          else let* later := unavailable_of db more (key :: seen) in Ok (c :: later)
      | Err e => Err e
      end
  end.

Definition checkEvidence (db : DB) (citations : list (option Citation)) (cl : Claim) (index : option Z)
  : hres EvidenceCheck :=
  let* unavailable := unavailable_of db citations [] in
  let st := if 0 <? len unavailable then EvidenceUnavailable else EvidenceAvailable in
  NewEvidenceCheck cl index st unavailable.

Definition evidenceChecks (db : DB) (c : Content) : hres (list EvidenceCheck) :=
  map_res (fun p => let '(cl, index, statement) := p in checkEvidence db (s_citations statement) cl index)
    (statement_claims c).

Definition resolve (s : Service) (db : DB) (c : Content) (selection : Selection) (selected : option Ref)
  (current : option HandoffArtifact) : hres Resolution :=
  let* checks := evidenceChecks db c in
  NewResolved (s_scopeID s) c selection selected (option_map a_ref current) checks.

Definition ContinueFromPrepared (s : Service) (db : DB) (prepared : Prepared) : hres Resolution :=
  let* _ := ValidatePrepared prepared in
  let* _ := requirePrepared s prepared in
  let* current := LatestRevision db (s_artifactID s) in
  resolve s db (content prepared) PreparedSelection None current.

Definition ContinueFromRevision (s : Service) (db : DB) (r : Ref) : hres Resolution :=
  let* selected := Revision s db r in
  let* current := LatestRevision db (s_artifactID s) in
  resolve s db (a_content selected) ExactSelection (Some (a_ref selected)) current.

Definition ContinueLatest (s : Service) (db : DB) : hres Resolution :=
  let* current := LatestRevision db (s_artifactID s) in
  match current with
  | None => Empty (s_scopeID s)
  | Some h => resolve s db (a_content h) LatestSelection (Some (a_ref h)) current
  end.
End service.
Arguments Service : clear implicits.

(** ** Activation by a boundary *)

(** [HandoffActivationBackend]: the position of a Source in the journal, the
    cursor of a binding and its generation; the store may change between the two
    calls. *)
Class ActivationBackend (AS : Type) := {
  LoadBoundary : AS -> string -> Source.Ref -> string -> hres (Z * Cursor * option Z);
  SaveBoundary : AS -> string -> string -> Cursor -> option Z -> hres unit * AS
}.

(** [trigger.HandoffBoundaryName] *)
Definition HandoffBoundaryName : string := "handoff-participant-boundary".

Section activation.
Context {DB V S AS : Type} {R : EvidenceResolver DB V S} {B : HandoffBackend DB} {VS : Values V S}
        {A : ActivationBackend AS}.

(** [HandoffApplication.Activate] inside the scope; [read] is the activation store
    when the boundary is loaded, [st] when the cursor is saved. *)
Definition Activate (services : string -> hres (Service V S)) (db : DB) (read st : AS) (scope : string)
  (activation : Handoff.Activate) : hres Activation * AS :=
  match (let* ' (position, state, generation) := LoadBoundary read scope (boundarySource activation) HandoffBoundaryName in
         let* boundary := NewHandoffBoundary position activation in
         let* transition := HandoffBoundaryPolicy_Activate boundary state in
         Ok (state, generation, transition)) with
  | Err e => (Err e, st)
  | Ok (state, generation, transition) =>
      match t_actions transition with
      | [] => (NewActivation ActivationIgnored (boundarySource activation) (Sequence state) (Sequence state) None, st)
      | action :: _ =>
          match (let* service := services scope in Prepare service db action) with
          | Err e => (Err e, st)
          | Ok draft =>
              let (saved, st') := SaveBoundary st scope HandoffBoundaryName (t_state transition) generation in
              (let* _ := saved in
               NewActivation ActivationGenerated (boundarySource activation) (Sequence state)
                 (Sequence (t_state transition)) (Some draft), st')
          end
      end
  end.
End activation.

(** ** Lemmas on handoffs

    What validation establishes, the evidence checks of a continuation, and the
    lineage of a commit. *)
(** ** First occurrences *)

Lemma firsts_spec {A} `{EqDecision A} (seen xs : list A) :
  NoDup (firsts seen xs) /\ forall x, x ∈ firsts seen xs <-> x ∈ xs /\ x ∉ seen.
Proof.
  revert seen. induction xs as [|y xs IH]; intros seen; cbn [firsts]; [split; [constructor|set_solver]|].
  case_bool_decide as Hy.
  - destruct (IH seen) as [H1 H2]. split; [done|]. intros x. rewrite H2. set_solver.
  - destruct (IH (y :: seen)) as [H1 H2]. split.
    + constructor; [|done]. rewrite H2. set_solver.
    + intros x. rewrite elem_of_cons, H2. destruct (decide (x = y)); set_solver.
Qed.

(** ** Valid contents *)

Definition valid_citation (c : Citation) : Prop := validate_value c = Ok tt.

Lemma unit_result {E} (r : result E unit) u : r = Ok u -> r = Ok tt.
Proof. by destruct u. Qed.

Lemma validateCitations_some values :
  validateCitations values false = Ok tt <-> exists cs, values = map Some cs /\ Forall valid_citation cs.
Proof.
  unfold validateCitations. generalize (∅ : gset string) as seen. induction values as [|v values IH]; intros seen.
  - cbn. split; [intros _; by exists []|done].
  - cbn [validate_loop]. split.
    + intros H. bind_inv H. destruct v as [c|]; [|done]. apply IH in H as (cs & -> & H).
      exists (c :: cs). split; [done|]. constructor; [|done]. cbn in Ha. by eapply unit_result.
    + intros ([|c cs] & E & H); [done|]. injection E as -> ->. inversion_clear H as [|? ? Hc Hcs].
      cbn. unfold valid_citation in Hc. rewrite Hc. cbn. apply IH. by exists cs.
Qed.

Definition valid_statement (s : Statement) : Prop :=
  exists cs, s_citations s = map Some cs /\ Forall valid_citation cs /\ (1 <= length cs <= 32)%nat.

Lemma validateStatement_ok s u : validateStatement s = Ok u -> valid_statement s.
Proof.
  unfold validateStatement. intros H. bind_inv H. ok_inv. apply unit_result, validateCitations_some in H as (cs & E & Hc).
  exists cs. split; [done|]. split; [done|]. unfold len, MaxCitations in Ha0. rewrite E, length_map in Ha0. boolify.
  destruct (Z.ltb_spec (Z.of_nat (length cs)) 1), (Z.ltb_spec 32 (Z.of_nat (length cs))); try done. lia.
Qed.

(** The statements of a content, the next action last. *)
Definition statements (c : Content) : list Statement :=
  hstate c ++ match nextAction c with Some s => [s] | None => [] end.

Lemma map_snd_imap {A B} (f : nat -> A -> B * A) l : (forall i x, snd (f i x) = x) -> map snd (imap f l) = l.
Proof.
  revert f. induction l as [|x l IH]; intros f Hf; [done|]. cbn. rewrite Hf. f_equal. apply IH. intros i y. apply Hf.
Qed.

Lemma statement_claims_statements c : map snd (statement_claims c) = statements c.
Proof.
  unfold statement_claims, statements. rewrite map_app. f_equal; [|by destruct (nextAction c)].
  by apply map_snd_imap.
Qed.

Lemma directCitations_statements c : directCitations c = concat (map s_citations (statements c)).
Proof.
  unfold directCitations, statements. rewrite map_app, concat_app. f_equal.
  destruct (nextAction c); cbn; by rewrite ?app_nil_r.
Qed.

Lemma valid_content c u :
  ValidateContent c = Ok u -> Forall valid_statement (statements c) /\ (length (hstate c) <= 64)%nat.
Proof.
  unfold ValidateContent. intros H. bind_inv H. ok_inv. split.
  - apply Forall_app. split.
    + apply map_res_Forall2 in Ha1. clear -Ha1. induction Ha1; constructor; [by eapply validateStatement_ok|done].
    + destruct (nextAction c) as [s|]; [|constructor]. constructor; [by eapply validateStatement_ok|constructor].
  - boolify. unfold len, MaxStateStatements in *.
    destruct (Z.ltb_spec (Z.of_nat (length (hstate c))) 1), (Z.ltb_spec 64 (Z.of_nat (length (hstate c)))); try done. lia.
Qed.

(** ** Evidence that is unavailable *)

Section checks.
Context {DB V S : Type} {R : EvidenceResolver DB V S}.

Definition unavailable (db : DB) (c : Citation) : Prop := ValidateCitation db (Some c) = Err HEvidenceUnavailable.

(** The resolver finds the evidence or finds that it is missing. *)
Definition resolvable (db : DB) (c : Citation) : Prop :=
  ValidateCitation db (Some c) = Ok tt \/ unavailable db c.

(** What a check reports of some citations: those that are unavailable, each key
    once. *)
Definition reports (db : DB) (cs us : list Citation) : Prop :=
  (forall u, u ∈ us -> u ∈ cs /\ unavailable db u) /\
  (forall c, c ∈ cs -> unavailable db c -> exists u, u ∈ us /\ citationKey u = citationKey c) /\
  NoDup (map citationKey us).

Lemma unavailable_of_spec db cs seen out :
  unavailable_of db (map Some cs) seen = Ok out ->
  exists us, out = map Some us /\ (length us <= length cs)%nat /\
    (forall u, u ∈ us -> u ∈ cs /\ unavailable db u /\ citationKey u ∉ seen) /\
    (forall c, c ∈ cs -> unavailable db c -> citationKey c ∈ seen \/ exists u, u ∈ us /\ citationKey u = citationKey c) /\
    NoDup (map citationKey us).
Proof.
  revert seen out. induction cs as [|c cs IH]; intros seen out; cbn [map unavailable_of].
  { intros [= <-]. exists []. cbn. split; [done|]. split; [lia|]. split; [set_solver|]. split; [set_solver|constructor]. }
  assert (Hskip : (unavailable db c -> citationKey c ∈ seen) -> unavailable_of db (map Some cs) seen = Ok out ->
    exists us, out = map Some us /\ (length us <= length (c :: cs))%nat /\
    (forall u, u ∈ us -> u ∈ c :: cs /\ unavailable db u /\ citationKey u ∉ seen) /\
    (forall x, x ∈ c :: cs -> unavailable db x -> citationKey x ∈ seen \/ exists u, u ∈ us /\ citationKey u = citationKey x) /\
    NoDup (map citationKey us)).
  { intros Hs H. apply IH in H as (us & -> & H0 & H1 & H2 & H3). exists us. split; [done|]. split; [cbn; lia|].
    split; [|split; [|done]].
    - intros u Hu. destruct (H1 u Hu) as (H4 & H5 & H6). split; [by right|done].
    - intros x [->|Hx]%elem_of_cons Hux; [left; by apply Hs|by apply H2]. }
  destruct (ValidateCitation db (Some c)) as [|e] eqn:Ev.
  { apply Hskip. unfold unavailable. by rewrite Ev. }
  destruct e; try done. cbn [citation_key bind]. case_bool_decide as Hk; [by apply Hskip|].
  intros H. bind_inv H. injection H as <-. apply IH in Ha as (us & -> & H0 & H1 & H2 & H3).
  exists (c :: us). split; [done|]. split; [cbn; lia|]. split; [|split].
  - intros u [->|Hu]%elem_of_cons; [split; [by left|done]|]. destruct (H1 u Hu) as (H4 & H5 & H6). set_solver.
  - intros x [->|Hx]%elem_of_cons Hux; [right; exists c; by split; [left|]|].
    destruct (H2 x Hx Hux) as [[Heq|Hin]%elem_of_cons|(u & Hu & E)]; [right; exists c; split; [by left|done]|by left|].
    right. exists u. split; [by right|done].
  - cbn. constructor; [|done]. intros (u & E & Hu)%list_elem_of_fmap. destruct (H1 u Hu) as (_ & _ & H6).
    apply H6. rewrite <- E. by left.
Qed.

Lemma unavailable_of_ok db cs seen :
  Forall (resolvable db) cs -> exists out, unavailable_of db (map Some cs) seen = Ok out.
Proof.
  intros H. revert seen. induction H as [|c cs [Hc|Hc] _ IH]; intros seen; cbn [map unavailable_of]; [eauto| |].
  - rewrite Hc. apply IH.
  - unfold unavailable in Hc. rewrite Hc. cbn. case_bool_decide; [apply IH|].
    destruct (IH (citationKey c :: seen)) as [out ->]. cbn. eauto.
Qed.

(** A check of a valid statement is well formed and reports what is missing. *)
Lemma checkEvidence_spec db cs cl index check :
  (length cs <= 32)%nat -> checkEvidence db (map Some cs) cl index = Ok check ->
  claim check = cl /\ stateIndex check = index /\ ValidateCheck check = Ok tt /\
  exists us, unavailableEvidence check = map Some us /\ reports db cs us.
Proof.
  intros Hl. unfold checkEvidence, NewEvidenceCheck. intros H. bind_inv H. ok_inv.
  apply unavailable_of_spec in Ha as (us & -> & H0 & H1 & H2 & H3). subst check. cbn.
  split; [done|]. split; [done|]. split; [by eapply unit_result|]. exists us. split; [done|]. split; [|split; [|done]].
  - intros u Hu. destruct (H1 u Hu) as (H4 & H5 & _). done.
  - intros c Hc Hu. destruct (H2 c Hc Hu) as [[]%elem_of_nil|H4]. done.
Qed.

Definition good_claim (cl : Claim) (index : option Z) : Prop :=
  (exists i, cl = StateClaim /\ index = Some i /\ 0 <= i) \/ cl = NextActionClaim /\ index = None.

Lemma checkEvidence_ok db cs cl index :
  (length cs <= 32)%nat -> Forall valid_citation cs -> Forall (resolvable db) cs -> good_claim cl index ->
  exists check, checkEvidence db (map Some cs) cl index = Ok check.
Proof.
  intros Hl Hv Hr Hg. unfold checkEvidence. destruct (unavailable_of_ok db cs [] Hr) as [out E]. rewrite E. cbn [bind].
  apply unavailable_of_spec in E as (us & -> & H0 & H1 & _ & _).
  unfold NewEvidenceCheck, ValidateCheck. cbn [claim stateIndex status unavailableEvidence].
  assert (Hc : validateCitations (map Some us) false = Ok tt).
  { apply validateCitations_some. exists us. split; [done|]. rewrite Forall_forall in *. intros u Hu. apply Hv. by apply H1. }
  rewrite Hc. replace (len (map Some us) <=? MaxCitations) with true
    by (unfold len, MaxCitations; rewrite length_map; symmetry; apply Z.leb_le; lia).
  assert (Hn : 0 <= len (map Some us)) by (unfold len; lia). revert Hn. generalize (len (map Some us)). intros n Hn.
  destruct Hg as [(i & -> & -> & Hi)|[-> ->]]; cbn.
  - replace (i <? 0) with false by (symmetry; by apply Z.ltb_ge). cbn.
    destruct (Z.ltb_spec 0 n), (Z.eqb_spec n 0); cbn; try lia; eauto.
  - destruct (Z.ltb_spec 0 n), (Z.eqb_spec n 0); cbn; try lia; eauto.
Qed.
End checks.

(** ** Resolutions *)

Lemma has_key_some key cs u : u ∈ cs -> citationKey u = key -> has_key key (map Some cs) = Ok true.
Proof.
  intros Hu <-. induction cs as [|c cs IH]; [by apply elem_of_nil in Hu|]. cbn.
  destruct (String.eqb_spec (citationKey c) (citationKey u)) as [|Hne]; [done|].
  apply elem_of_cons in Hu as [->|Hu]; [done|by apply IH].
Qed.

Lemma map_res_ok {E A B} (f : A -> result E B) xs :
  Forall (fun x => exists y, f x = Ok y) xs -> exists ys, map_res f xs = Ok ys.
Proof.
  induction 1 as [|x xs [y Hy] _ [ys IH]]; [by exists []|]. exists (y :: ys). cbn. rewrite Hy. cbn. by rewrite IH.
Qed.

Section resolutions.
Context {DB V S : Type} {R : EvidenceResolver DB V S}.

(** What a list of checks says of the statements of a content. *)
Definition checks_report (db : DB) (c : Content) (checks : list EvidenceCheck) : Prop :=
  Forall2 (fun (p : Claim * option Z * Statement) check =>
             claim check = fst (fst p) /\ stateIndex check = snd (fst p) /\ ValidateCheck check = Ok tt /\
             exists cs us, s_citations (snd p) = map Some cs /\ unavailableEvidence check = map Some us /\ reports db cs us)
    (statement_claims c) checks.

Lemma claims_valid c :
  Forall valid_statement (statements c) -> Forall (fun p => valid_statement (snd p)) (statement_claims c).
Proof. intros H. rewrite <- statement_claims_statements in H. exact (proj1 (List.Forall_map _ _ _) H). Qed.

Lemma claims_good c : Forall (fun p => good_claim (fst (fst p)) (snd (fst p))) (statement_claims c).
Proof.
  unfold statement_claims. apply Forall_app. split.
  - apply Forall_forall. intros p Hp. apply list_elem_of_lookup in Hp as [i Hi].
    rewrite list_lookup_imap in Hi. destruct (hstate c !! i); [|done]. injection Hi as <-. left. exists (Z.of_nat i). cbn. split; [done|]. split; [done|lia].
  - destruct (nextAction c) as [s|]; [|constructor]. apply Forall_singleton. by right.
Qed.

Lemma evidenceChecks_spec db c checks :
  Forall valid_statement (statements c) -> evidenceChecks db c = Ok checks -> checks_report db c checks.
Proof.
  intros Hv H. apply map_res_Forall2 in H. apply claims_valid in Hv. unfold checks_report.
  induction H as [|[[cl index] s] check ps checks Hc H IH]; [constructor|].
  inversion_clear Hv as [|? ? (cs & Es & _ & Hl) Hv']. constructor; [|by apply IH]. cbn in *. rewrite Es in Hc.
  apply checkEvidence_spec in Hc as (H1 & H2 & H3 & us & H4 & H5); [|lia]. split; [done|]. split; [done|]. split; [done|].
  by exists cs, us.
Qed.

Lemma evidenceChecks_ok db c :
  Forall valid_statement (statements c) ->
  (forall x, Some x ∈ directCitations c -> resolvable db x) -> exists checks, evidenceChecks db c = Ok checks.
Proof.
  intros Hv Hr. apply map_res_ok. pose proof (claims_valid c Hv) as Hv'. pose proof (claims_good c) as Hg.
  apply Forall_forall. intros [[cl index] s] Hp. rewrite Forall_forall in Hv', Hg.
  destruct (Hv' _ Hp) as (cs & Es & Hc & Hl). specialize (Hg _ Hp). cbn in *. rewrite Es.
  apply checkEvidence_ok; [lia|done| |done]. apply Forall_forall. intros x Hx. apply Hr.
  rewrite directCitations_statements. apply list_elem_of_In, in_concat. exists (s_citations s). split.
  - apply in_map. apply list_elem_of_In. rewrite <- statement_claims_statements.
    apply (list_elem_of_fmap_2 snd _ _ Hp).
  - rewrite Es. apply in_map. by apply list_elem_of_In.
Qed.

Lemma checks_valid db c checks : checks_report db c checks -> validateResolutionEvidence c checks = Ok tt.
Proof.
  intros H. unfold validateResolutionEvidence. pose proof (Forall2_length _ _ _ H) as Hl.
  rewrite <- Hl, Nat.eqb_refl. cbn [check bind].
  destruct (map_res_ok validate_check_of (combine (statement_claims c) checks)) as [us ->]; [|done].
  unfold checks_report in H. clear Hl. induction H as [|p check ps checks (H1 & H2 & H3 & cs & us & E1 & E2 & Hr) H IH]; [constructor|].
  cbn [combine]. constructor; [|done]. destruct p as [[cl index] s]. cbn in *. subst cl index. rewrite H3. cbn.
  rewrite !bool_decide_eq_true_2 by done. cbn. rewrite E2.
  destruct (map_res_ok (fun u => let* found := statementHasCitation s u in
                                 require (found : bool) else HResolution "unavailable evidence" in Ok tt) (map Some us))
    as [ys ->]; [|by exists tt].
  apply List.Forall_map, Forall_forall. intros u Hu. unfold statementHasCitation. cbn.
  rewrite E1. destruct Hr as (Hr & _). rewrite (has_key_some _ cs u); [|by apply Hr|done]. cbn. by exists tt.
Qed.

Definition good_selection (selection : Selection) (selected current : option Ref) : Prop :=
  match selection, selected, current with
  | PreparedSelection, None, None => True
  | PreparedSelection, None, Some c => valid_ref c
  | ExactSelection, Some s, Some c =>
      valid_ref s /\ valid_ref c /\ family s = family c /\ artifactID s = artifactID c
  | LatestSelection, Some s, Some c => valid_ref s /\ s = c
  | _, _, _ => False
  end.

Lemma good_selection_ok selection selected current :
  good_selection selection selected current -> validateResolutionSelection selection selected current = Ok tt.
Proof.
  unfold good_selection, validateResolutionSelection, validate_ref. intros H.
  destruct selection, selected as [rs|], current as [rc|]; try done; cbn.
  - by rewrite (proj2 (Validate_ok rc tt)).
  - destruct H as (H1 & H2 & H3 & H4). rewrite (proj2 (Validate_ok rs tt)), (proj2 (Validate_ok rc tt)) by done. cbn.
    by rewrite H3, H4, !String.eqb_refl.
  - destruct H as (H1 & ->). rewrite (proj2 (Validate_ok rc tt)) by done. cbn.
    by rewrite (bool_decide_eq_true_2 (Some rc = Some rc)), !String.eqb_refl by done.
Qed.

(** A resolution that is well formed and reports its evidence. *)
Definition faithful (db : DB) (c : Content) (r : Resolution) : Prop :=
  ValidateResolution r = Ok tt /\ r_status r = ResolvedResolution /\ r_content r = Some c /\ checks_report db c (r_checks r).

Lemma resolve_spec `{HandoffBackend DB} (s : Service V S) db c selection selected current u :
  ValidateContent c = Ok u ->
  match resolve s db c selection selected current with
  | Ok r => faithful db c r /\ r_scopeID r = s_scopeID s /\ r_selection r = Some selection /\
            r_selected r = selected /\ r_current r = option_map a_ref current
  | Err _ => True
  end.
Proof.
  intros Hc. apply unit_result in Hc. unfold resolve, NewResolved, NewResolution.
  destruct (evidenceChecks db c) as [checks|] eqn:Ec; [|done]. cbn [bind].
  destruct (ValidateResolution _) as [[]|] eqn:Ev; [|done]. cbn [bind].
  apply evidenceChecks_spec in Ec; [|by eapply valid_content]. done.
Qed.

Lemma resolve_ok `{HandoffBackend DB} (s : Service V S) db c selection selected current u :
  ValidateContent c = Ok u -> good_selection selection selected (option_map a_ref current) ->
  (forall x, Some x ∈ directCitations c -> resolvable db x) ->
  exists r, resolve s db c selection selected current = Ok r.
Proof.
  intros Hc Hs Hr. pose proof (valid_content c u Hc) as [Hv _]. apply unit_result in Hc.
  unfold resolve, NewResolved, NewResolution. destruct (evidenceChecks_ok db c Hv Hr) as [checks Ec]. rewrite Ec. cbn [bind].
  apply evidenceChecks_spec in Ec; [|done]. unfold ValidateResolution. cbn. rewrite Hc. cbn.
  rewrite (good_selection_ok _ _ _ Hs). cbn. rewrite (checks_valid _ _ _ Ec). cbn. eauto.
Qed.
End resolutions.

(** A draft that is prepared has been rendered, so it is valid. *)
Lemma prepared_valid {DB V S} `{EvidenceResolver DB V S} `{Values V S} (s : Service V S) db action draft :
  Prepare s db action = Ok draft -> ValidateContent draft = Ok tt.
Proof.
  unfold Prepare. intros E. bind_inv E. ok_inv. subst. unfold validateGeneratedDraft in Ha4. bind_inv Ha4.
  unfold RenderContent in Ha8. bind_inv Ha8. by eapply unit_result.
Qed.
