(* ===== verification/HandoffGeneration.v ===== *)
(** * Model-backed generation ([artifact/handoff/generation.go])

    The input that a request makes for a model, the decoding of the model's
    answer, and the draft that the answer becomes: its evidence identifiers are
    resolved to the citations of the request.  The generator is a function. *)

From S2P Require Import Prelude.
From S2P Require Import GoStrings.
From S2P Require Import Refs.
From S2P Require Import Json.
From S2P Require Import JsonText.
From S2P Require Import MemoryModel.
From S2P Require Import MemoryService.
From S2P Require Import MemoryExtract.
From S2P Require Import ExtractFacts.
From S2P Require Import Handoff.
From S2P Require Import HandoffResolution.
From S2P Require Import HandoffCodec.
From S2P Require Import HandoffService.

(** ** Projections *)

(** [EvidenceProjector]: what it returns, as it is marshalled. *)
Record HandoffProjector (V S : Type) := MkHandoffProjector {
  project_source : V -> mres json;
  project_artifact : S -> mres json;
  ProjectMemoryEntry : EntryVersion -> mres json
}.
Arguments MkHandoffProjector {V S}. Arguments project_source {V S}. Arguments project_artifact {V S}.
Arguments ProjectMemoryEntry {V S}.

Record GenerationEvidenceInput := MkEvidenceInput {
  gi_evidenceID : string; gi_evidenceType : string; gi_content : bytes
}.
Record GenerationInput := MkGenerationInput {
  gi_objective : string; gi_evidence : list GenerationEvidenceInput; gi_maxBytes : Z
}.

Record GenerationStatement := NewGenerationStatement { gs_text : string; gs_evidenceIDs : list string }.
Record GenerationOmission := NewGenerationOmission { go_text : string; go_evidenceID : option string }.
Record GenerationOutput := MkGenerationOutput {
  gx_state : list GenerationStatement; gx_disposition : Disposition;
  gx_nextAction : option GenerationStatement; gx_omissions : list GenerationOmission
}.

Definition ValidateGenerationOutput (o : GenerationOutput) : hres unit :=
  require match gx_disposition o with OtherDisposition _ => false | _ => true end else HDisposition in
  Ok tt.

Definition NewGenerationOutput (state : list GenerationStatement) (d : Disposition)
  (next : option GenerationStatement) (oms : list GenerationOmission) : hres GenerationOutput :=
  let o := MkGenerationOutput state d next oms in
  let* _ := ValidateGenerationOutput o in Ok o.

Section generation.
Context {V S : Type} {VS : Values V S} {PR : Projected V S}.

Definition project_memory_entry (entry : EntryVersion) : mres json :=
  Ok (JObj [("entry_id", JStr (ev_EntryID entry)); ("entry_version_id", JStr (ev_EntryVersionID entry));
            ("kind", JStr (ev_Kind entry)); ("text", JStr (ev_Text entry))])%string.

(** The two projectors of the package; those of Sources and Artifacts are those of
    the memory extraction. *)
Definition DefaultHandoffProjector : HandoffProjector V S :=
  MkHandoffProjector default_project_source default_project_artifact project_memory_entry.

Definition ContentHandoffProjector (fallback : option (HandoffProjector V S)) : HandoffProjector V S :=
  let fallback := default DefaultHandoffProjector fallback in
  MkHandoffProjector
    (content_project_source (MkProjector (project_source fallback) (project_artifact fallback)))
    (project_artifact fallback) (ProjectMemoryEntry fallback).

(** The method calls on a nil Source or Artifact would panic: a request that is
    valid has none. *)
Definition projectGenerationEvidence (projector : HandoffProjector V S) (e : Evidence V S) : hres json :=
  match e with
  | HandoffResolution.SourceEvidence _ (Some value) => map_err HMemory (project_source projector value)
  | HandoffResolution.ArtifactEvidence _ (Some value) => map_err HMemory (project_artifact projector value)
  | MemoryEvidence _ entry => map_err HMemory (ProjectMemoryEntry projector entry)
  | _ => Err HNilCall
  end.

Definition evidence_id (c : Citation) (index : nat) : string := Kind c +:+ ":" +:+ pretty index.

(** The loop of [projectGenerationInput]. *)
Fixpoint project_evidence (projector : HandoffProjector V S) (index : nat) (evidence : list (option (Evidence V S)))
  (citations : gmap string Citation) : hres (list GenerationEvidenceInput * gmap string Citation) :=
  match evidence with
  | [] => Ok ([], citations)
  | None :: _ => Err HNilCall
  | Some e :: more =>
      let c := EvidenceCitation e in
      let* projected := map_err (fun _ => HInvalidOutput "projection") (projectGenerationEvidence projector e) in
      let* ' (values, citations) :=
        project_evidence projector (Datatypes.S index) more (<[evidence_id c index := c]> citations) in
      Ok (MkEvidenceInput (evidence_id c index) (Kind c) (json_bytes false true projected) :: values, citations)
  end.

Definition projectGenerationInput (projector : HandoffProjector V S) (request : GenerationRequest V S)
  : hres (GenerationInput * gmap string Citation) :=
  let* ' (values, citations) := project_evidence projector 0 (g_evidence request) ∅ in
  Ok (MkGenerationInput (g_objective request) values (g_maxBytes request), citations).

(** ** The answer as a draft *)

(** The loop of [mapGenerationStatement] with its set of identifiers. *)
Fixpoint select_citations (citations : gmap string Citation) (ids seen : list string) : hres (list Citation) :=
  match ids with
  | [] => Ok []
  | id :: more =>
      if bool_decide (id ∈ seen) then select_citations citations more seen
      else
        let* c := of_option (citations !! id) (HInvalidOutput "generated content cites evidence outside the request") in
        let* later := select_citations citations more (id :: seen) in
        Ok (c :: later)
  end.

Definition contract {A} : hres A -> hres A :=
  map_err (fun _ => HInvalidOutput "generated content violates the Handoff Draft contract").

Definition mapGenerationStatement (citations : gmap string Citation) (value : GenerationStatement) : hres Statement :=
  require negb (bool_decide (gs_evidenceIDs value = [])) else HInvalidOutput "statement does not cite evidence" in
  let* selected := select_citations citations (gs_evidenceIDs value) [] in
  contract (NewStatement (gs_text value) (map Some selected)).

Definition mapGenerationOmission (citations : gmap string Citation) (value : GenerationOmission) : hres Omission :=
  let* c := match go_evidenceID value with
            | None => Ok None
            | Some id =>
                let* c := of_option (citations !! id)
                            (HInvalidOutput "generated content cites evidence outside the request") in
                Ok (Some c)
            end in
  contract (NewOmission (go_text value) c).

(** [LLMGenerationPipeline.Generate] *)
Definition Generate (generator : GenerationInput -> hres GenerationOutput) (projector : HandoffProjector V S)
  (request : GenerationRequest V S) : hres Content :=
  let* _ := ValidateGenerationRequest request in
  let* ' (input, citations) := projectGenerationInput projector request in
  let* output := generator input in
  let* _ := map_err (fun _ => HInvalidOutput "generator returned an invalid output tree")
              (ValidateGenerationOutput output) in
  let* state := map_res (mapGenerationStatement citations) (gx_state output) in
  let* next := match gx_nextAction output with
               | None => Ok None
               | Some value => let* mapped := mapGenerationStatement citations value in Ok (Some mapped)
               end in
  let* oms := map_res (mapGenerationOmission citations) (gx_omissions output) in
  contract (NewHandoffDraft (g_objective request) state (gx_disposition output) next oms).
End generation.

(** ** The decoding of the answer *)

(** [GenerationInput.MarshalJSON]: the contents are JSON already. *)
Definition evidence_bytes (e : GenerationEvidenceInput) : bytes :=
  json_text "{'evidence_id':" ++ json_string false true (gi_evidenceID e) ++
  json_text ",'evidence_type':" ++ json_string false true (gi_evidenceType e) ++
  json_text ",'content':" ++ gi_content e ++ json_text "}".

Definition MarshalGenerationInput (i : GenerationInput) : bytes :=
  json_text "{'objective':" ++ json_string false true (gi_objective i) ++
  json_text ",'evidence':[" ++ sep_by comma (map evidence_bytes (gi_evidence i)) ++
  json_text "],'max_bytes':" ++ bytes_of (pretty (gi_maxBytes i)) ++ json_text "}".

(** An object: a nil map is refused. *)
Definition decodeGenerationObject (v : jvalue) : dres (list (bytes * jvalue)) :=
  match v with VMembers ms => Ok ms | _ => Err DType end.

(** A field that is there, null or not. *)
Definition present (ms : list (bytes * jvalue)) (name : string) : dres jvalue :=
  of_option (field name ms) (DMissing name).

(** A slice that is not nil. *)
Definition decode_slice (v : jvalue) : dres (list jvalue) :=
  match v with VArray vs => Ok vs | _ => Err DType end.

Definition decodeGenerationStatement (v : jvalue) : dres GenerationStatement :=
  let* ms := decodeGenerationObject v in
  let* text_raw := present ms "text" in
  let* ids_raw := present ms "evidence_ids" in
  let* text := into_string "" text_raw in
  let* values := decode_slice ids_raw in
  let* ids := map_res (into_string "") values in
  Ok (NewGenerationStatement text ids).

Definition decodeGenerationStatements (v : jvalue) : dres (list GenerationStatement) :=
  let* values := decode_slice v in
  map_res decodeGenerationStatement values.

Definition decodeGenerationOptionalString (ms : list (bytes * jvalue)) (name : string) : dres (option string) :=
  match field name ms with
  | None | Some VNull => Ok None
  | Some v => let* s := into_string "" v in Ok (Some s)
  end.

Definition decode_omission (v : jvalue) : dres GenerationOmission :=
  let* ms := decodeGenerationObject v in
  let* text_raw := present ms "text" in
  let* text := into_string "" text_raw in
  let* id := decodeGenerationOptionalString ms "evidence_id" in
  Ok (NewGenerationOmission text id).

Definition decodeGenerationOmissions (v : jvalue) : dres (list GenerationOmission) :=
  let* values := decode_slice v in
  map_res decode_omission values.

Definition decodeGenerationOutput (encoded : bytes) : dres GenerationOutput :=
  let* tree := of_option (read_json false encoded) DSyntax in
  let* ms := decodeGenerationObject tree in
  let* state_raw := present ms "state" in
  let* disposition_raw := present ms "disposition" in
  let* state := decodeGenerationStatements state_raw in
  let* d := into_string "" disposition_raw in
  let* next := match field "next_action" ms with
               | None | Some VNull => Ok None
               | Some v => let* s := decodeGenerationStatement v in Ok (Some s)
               end in
  let* oms := match field "omissions" ms with
              | None => Ok []
              | Some v => decodeGenerationOmissions v
              end in
  map_err DInvalid (NewGenerationOutput state (disposition_of d) next oms).

(** ** Facts *)

Section generation_facts.
Context {V S : Type} {VS : Values V S} {PR : Projected V S}.
Implicit Types (evidence : list (option (Evidence V S))) (citations : gmap string Citation).

(** An identifier of the input stands for the citation at its index. *)
Lemma project_evidence_spec projector evidence n citations values citations' :
  project_evidence projector n evidence citations = Ok (values, citations') ->
  forall id c, citations' !! id = Some c ->
    citations !! id = Some c \/ exists e, Some e ∈ evidence /\ c = EvidenceCitation e.
Proof.
  revert n citations values. induction evidence as [|[e|] more IH]; intros n citations values; cbn [project_evidence]; [|intros H|done].
  { intros [= _ <-]. auto. }
  bind_inv H. destruct a0 as [vs cs]. injection H as _ <-. intros id c Hc.
  destruct (IH _ _ _ Ha0 id c Hc) as [H|(e' & He & ->)]; [|right; exists e'; split; [by right|done]].
  apply lookup_insert_Some in H as [[_ <-]|[_ H]]; [right; exists e; split; [left|done]|by left].
Qed.

Lemma select_citations_spec citations ids seen selected :
  select_citations citations ids seen = Ok selected ->
  map Some selected = map (fun id => citations !! id) (firsts seen ids).
Proof.
  revert seen selected. induction ids as [|id ids IH]; intros seen selected; cbn [select_citations firsts].
  { by intros [= <-]. }
  case_bool_decide; [apply IH|]. intros H'. bind_inv H'. injection H' as <-. cbn. apply of_option_ok_inv in Ha.
  by rewrite Ha, (IH _ _ Ha0).
Qed.

Lemma contract_ok {A} (r : hres A) a : contract r = Ok a -> r = Ok a.
Proof. unfold contract. destruct r; [done|discriminate]. Qed.

(** A statement cites what its identifiers stand for, each identifier once. *)
Lemma mapGenerationStatement_spec citations value s :
  mapGenerationStatement citations value = Ok s ->
  s_text s = gs_text value /\ s_citations s = map (fun id => citations !! id) (firsts [] (gs_evidenceIDs value)) /\
  Forall is_Some (s_citations s).
Proof.
  unfold mapGenerationStatement. intros H. bind_inv H. apply contract_ok in H. unfold NewStatement in H. bind_inv H. ok_inv. subst s.
  cbn. apply select_citations_spec in Ha0. split; [done|]. split; [done|]. apply Forall_forall. intros o Ho.
  apply list_elem_of_fmap in Ho as (c & -> & _). by eexists.
Qed.

Lemma mapGenerationOmission_spec citations value o :
  mapGenerationOmission citations value = Ok o ->
  o_text o = go_text value /\ o_citation o = (id ← go_evidenceID value; citations !! id).
Proof.
  unfold mapGenerationOmission. intros H. bind_inv H. apply contract_ok in H. unfold NewOmission in H. bind_inv H. ok_inv. subst o.
  cbn. split; [done|]. destruct (go_evidenceID value) as [id|]; [|by injection Ha as <-]. bind_inv Ha. injection Ha as <-.
  apply of_option_ok_inv in Ha1. cbn. by rewrite Ha1.
Qed.

(** What a draft says of the answer that made it. *)
Record generated (request : GenerationRequest V S) (citations : gmap string Citation) (output : GenerationOutput)
    (draft : Content) : Prop := {
  gen_objective : objective draft = g_objective request;
  gen_valid : ValidateContent draft = Ok tt;
  gen_disposition : disposition draft = gx_disposition output;
  gen_state : Forall2 (fun value s => mapGenerationStatement citations value = Ok s) (gx_state output) (hstate draft);
  gen_next : match gx_nextAction output, nextAction draft with
             | Some value, Some s => mapGenerationStatement citations value = Ok s
             | None, None => True
             | _, _ => False
             end;
  gen_omissions : Forall2 (fun value o => mapGenerationOmission citations value = Ok o) (gx_omissions output) (omissions draft)
}.

Lemma Generate_spec generator projector (request : GenerationRequest V S) draft :
  Generate generator projector request = Ok draft ->
  exists input citations output,
    projectGenerationInput projector request = Ok (input, citations) /\ generator input = Ok output /\
    generated request citations output draft.
Proof.
  unfold Generate. intros H. bind_inv H. destruct a0 as [input citations]. bind_inv H. apply contract_ok in H.
  unfold NewHandoffDraft, NewContent in H. bind_inv H. ok_inv. subst draft. exists input, citations, a0.
  split; [done|]. split; [done|]. split; cbn; try done.
  - by eapply unit_result.
  - by apply map_res_Forall2.
  - destruct (gx_nextAction a0) as [value|]; [|by injection Ha4 as <-]. bind_inv Ha4. by injection Ha4 as <-.
  - by apply map_res_Forall2.
Qed.

Lemma projected_citations projector (request : GenerationRequest V S) input citations :
  projectGenerationInput projector request = Ok (input, citations) ->
  forall id c, citations !! id = Some c -> exists e, Some e ∈ g_evidence request /\ c = EvidenceCitation e.
Proof.
  unfold projectGenerationInput. intros H. bind_inv H. destruct a as [vs cs]. injection H as _ <-.
  intros id c Hc. destruct (project_evidence_spec _ _ _ _ _ _ Ha id c Hc) as [H|H]; [by rewrite lookup_empty in H|done].
Qed.

(** The citations of a draft are citations of the request. *)
Lemma generated_citations request citations output draft :
  generated request citations output draft ->
  forall o, o ∈ allCitations draft -> exists c id, o = Some c /\ citations !! id = Some c.
Proof.
  intros G o Ho. unfold allCitations, directCitations in Ho.
  assert (Hs : forall value s, mapGenerationStatement citations value = Ok s -> o ∈ s_citations s ->
            exists c id, o = Some c /\ citations !! id = Some c).
  { intros value s Hm Hin. apply mapGenerationStatement_spec in Hm as (_ & E & Hsome).
    rewrite Forall_forall in Hsome. destruct (Hsome _ Hin) as [c ->]. rewrite E in Hin.
    apply list_elem_of_fmap in Hin as (id & Hid & _). by exists c, id. }
  rewrite !elem_of_app in Ho. destruct Ho as [[Ho|Ho]|Ho].
  - apply list_elem_of_In, in_concat in Ho as (l & Hl & Ho). apply in_map_iff in Hl as (s & <- & Hin).
    apply list_elem_of_In in Hin, Ho. apply list_elem_of_lookup in Hin as [i Hi].
    destruct (Forall2_lookup_r _ _ _ _ _ (gen_state _ _ _ _ G) Hi) as (value & _ & Hm). by eapply Hs.
  - pose proof (gen_next _ _ _ _ G) as Hn. destruct (nextAction draft) as [s|]; [|by apply elem_of_nil in Ho].
    destruct (gx_nextAction output) as [value|]; [|done]. by eapply Hs.
  - apply list_elem_of_In, filter_In in Ho as [Hin Hsome]. destruct o as [c|]; [|done].
    apply in_map_iff in Hin as (om & E & Hin). apply list_elem_of_In, list_elem_of_lookup in Hin as [i Hi].
    destruct (Forall2_lookup_r _ _ _ _ _ (gen_omissions _ _ _ _ G) Hi) as (value & _ & Hm).
    apply mapGenerationOmission_spec in Hm as [_ Hm]. rewrite E in Hm. destruct (go_evidenceID value) as [id|]; [|done].
    by exists c, id.
Qed.
End generation_facts.
