(* ===== verification/HandoffStore.v ===== *)
(** * The relational handoff store ([internal/sqlstore/handoff.go])

    The handoff backend over the artifact repository, and the proof that it keeps
    the contract [HandoffBackendLaws]: the rows of an artifact are its history. *)

From S2P Require Import Prelude.
From S2P Require Import GoStrings.
From S2P Require Import Refs.
From S2P Require Import JsonText.
From S2P Require Import Sql.
From S2P Require Import ArtifactStore.
From S2P Require Import ArtifactStoreFacts.
From S2P Require Import MemoryModel.
From S2P Require Import Handoff.
From S2P Require Import HandoffCodec.
From S2P Require Import HandoffCodecFacts.
From S2P Require Import HandoffService.

(** ** Dynamic contents *)

(** A handoff content, or a content of another family: its type and payload. *)
Inductive AnyContent := HandoffContent (c : Content) | FamilyContent (name : string) (payload : bytes).

Definition handoff_type : string := "handoff.Content".

#[export] Instance any_content_dynamic : Dynamic AnyContent :=
  fun v => match v with HandoffContent _ => handoff_type | FamilyContent name _ => name end.

Definition project (v : AnyContent) : option Content :=
  match v with HandoffContent c => Some c | FamilyContent _ _ => None end.

Definition ok_option {E A} (r : result E A) : option A := match r with Ok a => Some a | Err _ => None end.

(** An error here would be a panic. *)
Definition HandoffArtifactCodec : result store_error (ArtifactCodec Tables AnyContent) :=
  NewArtifactCodec Family handoff_type HandoffContent project
    (fun c => ok_option (encodeHandoff c)) (fun payload => ok_option (decodeHandoff payload)).

(** ** The backend *)

Definition to_hand (e : store_error) : hand_error :=
  match e with
  | SRef e => HRef e
  | SConflict requested current => HConflict requested current
  | SArgument _ => HStore "argument" | SDriver => HStore "driver" | SIntegrity => HStore "integrity"
  | SMissing _ => HStore "missing" | SFamily _ _ => HStore "family" | SPayload _ => HStore "payload"
  | SIdentity => HStore "identity" | SCodec _ => HStore "codec" | SPayloadConflict _ => HStore "payload conflict"
  | SGeneration _ _ _ => HStore "generation" | SColumn _ => HStore "column" | SSource _ => HStore "source"
  | SMemory _ => HStore "memory" | SReview _ => HStore "review" | SScope _ => HStore "scope"
  | SNotFound _ => HStore "artifact"
  end.

Definition any_draft (d : ArtifactDraft) : Draft AnyContent :=
  MkDraft (d_family d) (HandoffContent (d_content d)) (d_lineage d).

Definition any_artifact (h : HandoffArtifact) : Artifact AnyContent :=
  MkArtifact (a_ref h) (HandoffContent (a_content h)) (a_lineage h).

Definition storedHandoff (a : Artifact AnyContent) : hres HandoffArtifact :=
  match a_content a with
  | HandoffContent c => Ok (MkArtifact (a_ref a) c (a_lineage a))
  | FamilyContent _ _ => Err (HStore "codec")
  end.

Section backend.
Context (scope : string) (repo : ArtifactRepository Tables AnyContent).

Definition NewHandoffBackend : result store_error unit := requireScope scope.

Definition backend_write (m : txn Tables (Artifact AnyContent)) (db : Session) : hres HandoffArtifact * Session :=
  match Transaction m db with
  | (Ok stored, db') => (storedHandoff stored, db')
  | (Err e, db') => (Err (to_hand e), db')
  end.

Definition backend_Create (db : Session) (id : string) (draft : ArtifactDraft) : hres HandoffArtifact * Session :=
  backend_write (ArtifactStore.Create repo scope id (any_draft draft)) db.

Definition backend_Revise (db : Session) (base : HandoffArtifact) (draft : ArtifactDraft)
  : hres HandoffArtifact * Session :=
  backend_write (ArtifactStore.Revise repo scope (any_artifact base) (any_draft draft)) db.

Definition backend_Get (db : Session) (r : Ref) : hres HandoffArtifact :=
  match fst (Transaction (ArtifactStore.Get repo scope r) db) with
  | Ok stored => storedHandoff stored
  | Err (SMissing _) => Err (HNotFound r)
  | Err e => Err (to_hand e)
  end.

Definition backend_Latest (db : Session) (id : string) : hres (option HandoffArtifact) :=
  match fst (Transaction (ArtifactStore.Latest repo scope Family id) db) with
  | Ok stored => let* h := storedHandoff stored in Ok (Some h)
  | Err (SMissing _) => Ok None
  | Err e => Err (to_hand e)
  end.

Definition backend_Revisions (db : Session) (id : string) : hres (list HandoffArtifact) :=
  match fst (Transaction (ArtifactStore.Revisions repo scope Family id) db) with
  | Ok stored => map_res storedHandoff stored
  | Err e => Err (to_hand e)
  end.

#[local] Instance sql_backend : HandoffBackend Session := {
  CreateRevision := backend_Create;
  ReviseRevision := backend_Revise;
  GetRevision := backend_Get;
  LatestRevision := backend_Latest;
  AllRevisions := backend_Revisions
}.

(** ** The rows as a history *)

Definition stored_at (t : Tables) (r : Ref) : option HandoffArtifact :=
  match t_artifacts t !! (scope, r) with
  | Some payload =>
      match decodeHandoff payload with
      | Ok c => Some (MkArtifact r c (lineage_of t scope r))
      | Err _ => None
      end
  | None => None
  end.

(** The references of the first [n] revisions. *)
Definition revision_at (id : string) (i : nat) : Ref := MkRef Family id (Z.of_nat i + 1).

Definition history_of (t : Tables) (id : string) : list HandoffArtifact :=
  match t_heads t !! (scope, Family, id) with
  | Some n => omap (fun i => stored_at t (revision_at id i)) (seq 0 (Z.to_nat n))
  | None => []
  end.

(** Rows that belong together, and that can be read. *)
Record store_valid (t : Tables) : Prop := {
  v_rows : rows_ok t;
  v_payloads r payload :
    family r = Family -> t_artifacts t !! (scope, r) = Some payload ->
    valid_ref r /\ (exists c, decodeHandoff payload = Ok c)
}.

(** What the codec reads back of a content that it wrote. *)
Definition read_back (c : Content) : Content :=
  match encodeHandoff c with
  | Ok payload => match decodeHandoff payload with Ok c' => c' | Err _ => c end
  | Err _ => c
  end.

(** ** Facts *)

Lemma read_back_clean c : ValidateContent c = Ok tt -> machine_content c -> read_back c = clean_content c.
Proof.
  intros Hv Hm. unfold read_back. rewrite encodeHandoff_wire by done.
  by rewrite (decode_encode c _ (encodeHandoff_wire c Hv) Hm).
Qed.

Lemma decode_valid payload c : decodeHandoff payload = Ok c -> ValidateContent c = Ok tt.
Proof.
  unfold decodeHandoff. intros H. bind_inv H. destruct (NewContent _ _ _ _ _) as [c'|] eqn:E; [|done].
  injection H as <-. unfold NewContent in E. apply bind_ok_inv in E as ([] & E & E'). by injection E' as <-.
Qed.

Context (codec : ArtifactCodec Tables AnyContent) (Hcodec : HandoffArtifactCodec = Ok codec) (Hrepo : repo !! Family = Some codec).

Lemma handoff_pure : pure_codec codec.
Proof. eapply codec_pure. exact Hcodec. Qed.

Lemma handoff_encode c : c_encode codec (HandoffContent c) = ok_option (encodeHandoff c).
Proof. by apply (codec_encode _ _ _ _ _ _ _ Hcodec). Qed.

Lemma handoff_decoded sc r lineage payload st a st' :
  c_decode codec sc r lineage payload st = (Ok a, st') ->
  exists c, decodeHandoff payload = Ok c /\ a = MkArtifact r (HandoffContent c) lineage.
Proof.
  intros H. apply (codec_decoded _ _ _ _ _ _ _ Hcodec) in H as (c & Hc & -> & _). exists c. split; [|done].
  by destruct (decodeHandoff payload); [injection Hc as ->|].
Qed.

(** The history reads the rows of the revisions up to the head. *)
Lemma history_lookup t id n :
  store_valid t -> t_heads t !! (scope, Family, id) = Some n ->
  history_of t id = omap (fun i => stored_at t (revision_at id i)) (seq 0 (Z.to_nat n)) /\
  (forall i, (i < Z.to_nat n)%nat -> is_Some (stored_at t (revision_at id i))).
Proof.
  intros [Hr Hp] Hn. unfold history_of. rewrite Hn. split; [done|]. intros i Hi.
  pose proof (rows_heads _ Hr scope Family id) as Hh. rewrite Hn in Hh. destruct Hh as [Hpos Hh].
  destruct (proj2 (Hh (Z.of_nat i + 1)) ltac:(lia)) as [payload Ep].
  unfold stored_at, revision_at. rewrite Ep.
  destruct (Hp (MkRef Family id (Z.of_nat i + 1)) payload eq_refl Ep) as (_ & c & ->). by eexists.
Qed.

Lemma omap_seq_lookup {A} (f : nat -> option A) k i :
  (forall j, (j < k)%nat -> is_Some (f j)) ->
  omap f (seq 0 k) !! i = (if decide (i < k)%nat then f i else None) /\ length (omap f (seq 0 k)) = k.
Proof.
  revert i. induction k as [|k IH]; intros i H; [done|].
  assert (H' : forall j, (j < k)%nat -> is_Some (f j)) by (intros j Hj; apply H; lia).
  rewrite seq_S, omap_app. cbn. destruct (H k ltac:(lia)) as [v Ev]. rewrite Ev. cbn.
  split; [|rewrite length_app; destruct (IH 0%nat H') as [_ ->]; cbn; lia].
  destruct (IH i H') as [Hi Hl]. destruct (decide (i < k)%nat).
  - rewrite lookup_app_l, Hi, decide_True by lia. done.
  - rewrite lookup_app_r, Hl by lia. destruct (decide (i = k)) as [->|].
    + rewrite Nat.sub_diag, decide_True by lia. by rewrite Ev.
    + rewrite decide_False by lia. destruct (i - k)%nat as [|m] eqn:E; [lia|done].
Qed.

Lemma history_at t id n i :
  store_valid t -> t_heads t !! (scope, Family, id) = Some n ->
  history_of t id !! i = (if decide (i < Z.to_nat n)%nat then stored_at t (revision_at id i) else None) /\
  length (history_of t id) = Z.to_nat n.
Proof. intros Hv Hn. destruct (history_lookup t id n Hv Hn) as [-> H]. by apply (omap_seq_lookup (fun i => stored_at t (revision_at id i))). Qed.

Lemma history_of_ref t id i h :
  store_valid t -> history_of t id !! i = Some h ->
  stored_at t (revision_at id i) = Some h /\ a_ref h = revision_at id i /\ valid_ref (a_ref h) /\ ValidateContent (a_content h) = Ok tt.
Proof.
  intros Hv H. destruct (t_heads t !! (scope, Family, id)) as [n|] eqn:Hn; [|unfold history_of in H; by rewrite Hn in H].
  destruct (history_at t id n i Hv Hn) as [E _]. rewrite E in H. case_decide; [|done]. split; [done|].
  unfold stored_at in H. destruct (t_artifacts t !! (scope, revision_at id i)) as [payload|] eqn:Ep; [|done].
  destruct (decodeHandoff payload) as [c|] eqn:Ec; [|done]. injection H as <-. split; [done|]. split.
  - by apply (v_payloads _ Hv (revision_at id i) payload).
  - by eapply decode_valid.
Qed.

Lemma history_last t id :
  store_valid t ->
  last (history_of t id) = match t_heads t !! (scope, Family, id) with
                           | Some n => stored_at t (MkRef Family id n)
                           | None => None
                           end.
Proof.
  intros Hv. destruct (t_heads t !! (scope, Family, id)) as [n|] eqn:Hn; [|unfold history_of; by rewrite Hn].
  pose proof (rows_heads _ (v_rows _ Hv) scope Family id) as Hh. rewrite Hn in Hh. destruct Hh as [Hpos _].
  rewrite last_lookup. destruct (history_at t id n (pred (Z.to_nat n)) Hv Hn) as [E L]. rewrite L, E.
  rewrite decide_True by lia. unfold revision_at. do 2 f_equal. lia.
Qed.

Lemma stored_at_other r payload lineage t t' r' :
  grown scope r payload lineage t t' -> r' <> r -> stored_at t' r' = stored_at t r'.
Proof.
  intros G Hne. unfold stored_at. rewrite (g_artifacts _ _ _ _ _ _ G), lookup_insert_ne by congruence.
  by rewrite (g_others _ _ _ _ _ _ G) by congruence.
Qed.

(** A write adds one handoff at the end of one history. *)
Lemma wrote_history t t' d a :
  store_valid t -> d_family d = Family -> family (a_ref a) = Family -> wrote repo scope (any_draft d) a t t' ->
  exists h, storedHandoff a = Ok h /\ store_valid t' /\ a_ref h = a_ref a /\
    a_content h = read_back (d_content d) /\ a_lineage h = d_lineage d /\
    history_of t' (artifactID (a_ref a)) = history_of t (artifactID (a_ref a)) ++ [h] /\
    forall other, other <> artifactID (a_ref a) -> history_of t' other = history_of t other.
Proof.
  intros Hv Hf Hfam (codec' & payload & Er & Ee & Ed & Hvalid & G).
  cbn [any_draft d_family d_content d_lineage] in *. rewrite Hf, Hrepo in Er. injection Er as <-.
  rewrite handoff_encode in Ee.
  destruct (encodeHandoff (d_content d)) as [payload'|] eqn:Ep; [|done]. injection Ee as ->.
  destruct Ed as (sd & sd' & Ed). apply handoff_decoded in Ed as (c & Ec & Ea). set (r := a_ref a) in *.
  exists (MkArtifact r c (d_lineage d)). rewrite Ea. cbn.
  assert (Hv' : store_valid t').
  { split; [by eapply grown_rows; [apply Hv|]|]. intros r' p' Hf' Hr'. rewrite (g_artifacts _ _ _ _ _ _ G) in Hr'.
    destruct (decide (r' = r)) as [->|Hne]; [rewrite lookup_insert_eq in Hr'; injection Hr' as <-; by eauto|].
    rewrite lookup_insert_ne in Hr' by congruence. by apply (v_payloads _ Hv). }
  assert (Hstored : stored_at t' r = Some (MkArtifact r c (d_lineage d))).
  { unfold stored_at. rewrite (g_artifacts _ _ _ _ _ _ G), lookup_insert_eq, Ec. by rewrite (g_lineage _ _ _ _ _ _ G). }
  split; [done|]. split; [done|]. split; [done|]. split; [unfold read_back; by rewrite Ep, Ec|]. split; [done|].
  pose proof (g_positive _ _ _ _ _ _ G) as Hpos. destruct r as [rf id n] eqn:Hr. cbn [artifactID family revision] in *. subst rf. split.
  - unfold history_of at 1. rewrite (g_heads _ _ _ _ _ _ G). unfold head_key. cbn. rewrite lookup_insert_eq.
    replace (Z.to_nat n) with (S (Z.to_nat (n - 1))) by lia. rewrite seq_S, omap_app. cbn [omap list_omap Nat.add].
    assert (Elast : revision_at id (Z.to_nat (n - 1)) = MkRef Family id n) by (unfold revision_at; f_equal; lia).
    rewrite Elast, Hstored. f_equal.
    transitivity (omap (fun i => stored_at t (revision_at id i)) (seq 0 (Z.to_nat (n - 1)))).
    { apply omap_ext_in. intros i Hi. apply elem_of_seq in Hi. apply (stored_at_other _ _ _ _ _ _ G).
      unfold revision_at. intros [= E]. lia. }
    unfold history_of. pose proof (g_before _ _ _ _ _ _ G) as Hb. unfold head_key in Hb. cbn in Hb. rewrite Hb.
    destruct (decide (n = 1)) as [->|]; done.
  - intros other Ho. unfold history_of. rewrite (g_heads _ _ _ _ _ _ G). unfold head_key. cbn.
    rewrite lookup_insert_ne by congruence. destruct (t_heads t !! (scope, Family, other)) as [m|]; [|done].
    apply omap_ext_in. intros i _. apply (stored_at_other _ _ _ _ _ _ G). unfold revision_at. congruence.
Qed.

(** ** Reads *)

Lemma stored_row r payload st a st' t :
  t_artifacts t !! (scope, r) = Some payload -> c_decode codec scope r (lineage_of t scope r) payload st = (Ok a, st') ->
  exists h, stored_at t r = Some h /\ storedHandoff a = Ok h.
Proof.
  intros Hp H. apply handoff_decoded in H as (c & Ec & ->). eexists. split; [|done]. unfold stored_at. by rewrite Hp, Ec.
Qed.

Lemma Get_handoff r st a st' :
  family r = Family -> ArtifactStore.Get repo scope r st = (Ok a, st') ->
  exists h, stored_at (tables st) r = Some h /\ storedHandoff a = Ok h.
Proof.
  intros Hf H. apply (Get_ok _ _ _ _ Hrepo handoff_pure) in H as (_ & _ & _ & payload & s1 & s2 & Hp & H); [|done].
  by eapply stored_row.
Qed.

Lemma Latest_handoff id st a st' :
  ArtifactStore.Latest repo scope Family id st = (Ok a, st') ->
  exists n h, t_heads (tables st) !! (scope, Family, id) = Some n /\ stored_at (tables st) (MkRef Family id n) = Some h /\
              storedHandoff a = Ok h.
Proof.
  intros H. apply Latest_ok in H as (n & s1 & Hn & E & H). apply Get_handoff in H as (h & Hs & Hh); [|done].
  rewrite E in Hs. by exists n, h.
Qed.

Lemma decode_rows_ok id rows st l st' :
  decode_rows repo scope Family id rows st = (Ok l, st') ->
  Forall (fun row => t_artifacts (tables st) !! (scope, MkRef Family id (fst row)) = Some (snd row)) rows ->
  map_res storedHandoff l = Ok (omap (fun row => stored_at (tables st) (MkRef Family id (fst row))) rows).
Proof.
  revert st l. induction rows as [|[rev payload] rows IH]; intros st l H Hr; cbn [decode_rows] in H.
  - apply tx_ret_ok in H as [<- _]. done.
  - tx_inv H. tx_pure. inversion_clear Hr as [|? ? H1 H2].
    apply (decode_row_ok _ _ _ _ Hrepo handoff_pure) in Ha as (_ & _ & E & s1 & s2 & _ & Hd).
    destruct (stored_row (MkRef Family id rev) payload _ _ _ (tables st) H1 Hd) as (h & Hs & Hh). cbn. rewrite Hs, Hh. cbn.
    rewrite <- E in H2 |- *. by rewrite (IH _ _ Ha0 H2).
Qed.

(** ** The contract *)

Lemma backend_write_spec (m : txn Tables (Artifact AnyContent)) db r db' id d head :
  store_valid (tables db) -> d_family d = Family ->
  (forall st a st', rows_ok (tables st) -> m st = (Ok a, st') ->
     a_ref a = MkRef Family id (revision (a_ref a)) /\ t_heads (tables st) !! (scope, Family, id) = head /\
     wrote repo scope (any_draft d) a (tables st) (tables st')) ->
  backend_write m db = (r, db') ->
  store_valid (tables db') /\
  (forall other, other <> id -> history_of (tables db') other = history_of (tables db) other) /\
  match r with
  | Ok h => t_heads (tables db) !! (scope, Family, id) = head /\
            history_of (tables db') id = history_of (tables db) id ++ [h] /\
            a_content h = read_back (d_content d) /\ a_lineage h = d_lineage d
  | Err _ => history_of (tables db') id = history_of (tables db) id
  end.
Proof.
  intros Hv Hf Hm. unfold backend_write. destruct (Transaction m db) as [[a|e] st] eqn:E; intros [= <- <-].
  - apply transaction_ok in E as (s1 & s2 & E1 & E2 & E3). apply Hm in E2 as [Hr Hw]; [|rewrite E1; apply Hv].
    destruct Hw as [Hh Hw]. rewrite E1 in Hh. rewrite E1, <- E3 in Hw. apply (wrote_history _ _ _ _ Hv Hf) in Hw as (h & -> & Hv' & _ & Hc & Hl & Hi & Ho);
      [|by rewrite Hr]. rewrite Hr in Hi, Ho. cbn in Hi, Ho. done.
  - apply transaction_err in E. rewrite E. done.
Qed.

Lemma repo_pure (d : ArtifactDraft) :
  d_family d = Family -> forall codec', repo !! d_family (any_draft d) = Some codec' -> reading_codec codec'.
Proof. intros Hf codec' H. cbn in H. rewrite Hf, Hrepo in H. injection H as <-. apply pure_reading, handoff_pure. Qed.

(** The head of the table is the last revision of the history. *)
Lemma head_ref t (base : HandoffArtifact) :
  store_valid t -> family (a_ref base) = Family ->
  t_heads t !! (scope, Family, artifactID (a_ref base)) = Some (revision (a_ref base)) ->
  option_map a_ref (last (history_of t (artifactID (a_ref base)))) = Some (a_ref base).
Proof.
  intros Hv Hf Hh. destruct (last (history_of t (artifactID (a_ref base)))) as [h|] eqn:E.
  - rewrite history_last, Hh in E by done. unfold stored_at in E.
    destruct (t_artifacts t !! _) as [payload|]; [|done]. destruct (decodeHandoff payload); [|done]. injection E as <-.
    cbn. destruct (a_ref base). cbn in *. by subst.
  - apply last_None in E. pose proof (rows_heads _ (v_rows _ Hv) scope Family (artifactID (a_ref base))) as Hr.
    rewrite Hh in Hr. destruct (history_at _ _ _ 0 Hv Hh) as [_ L]. rewrite E in L. cbn in L. lia.
Qed.

#[local] Instance sql_laws : HandoffBackendLaws Session.
Proof.
  refine {| store_ok db := store_valid (tables db);
            history db id := history_of (tables db) id;
            stored := read_back |}.
  - intros db id i h Hv H. destruct (history_of_ref _ _ _ _ Hv H) as (_ & Hr & H1 & H2). done.
  - intros db id o Hv. cbn. unfold backend_Latest. destruct (Transaction _ db) as [res st] eqn:E. cbn [fst].
    rewrite history_last by done. destruct res as [a|e].
    + apply transaction_ok in E as (s1 & s2 & E1 & E2 & _). apply Latest_handoff in E2 as (n & h & Hn & Hs & Hh).
      rewrite E1 in *. rewrite Hh, Hn, Hs. cbn. by intros [= <-].
    + destruct e; cbn; try done. intros [= <-].
      apply transaction_error in E as [E|(s1 & s2 & E1 & E2)]; [done|].
      apply (Latest_missing _ _ _ _ Hrepo) in E2; [|rewrite E1; apply Hv]. rewrite E1 in E2. cbn in E2. by rewrite E2.
  - intros db r h Hv Hfam. cbn. unfold backend_Get. destruct (Transaction _ db) as [[a|e] st] eqn:E; cbn [fst]; [|by destruct e].
    apply transaction_ok in E as (s1 & s2 & E1 & E2 & _). apply Get_handoff in E2 as (h' & Hs & Hh); [|done].
    rewrite E1 in Hs. rewrite Hh. intros [= <-].
    pose proof (rows_heads _ (v_rows _ Hv) scope Family (artifactID r)) as Hr.
    assert (Hrow : is_Some (t_artifacts (tables db) !! (scope, MkRef Family (artifactID r) (revision r)))).
    { unfold stored_at in Hs. destruct r as [rf ri rn]. cbn in *. subst rf.
      by destruct (t_artifacts (tables db) !! (scope, MkRef Family ri rn)). }
    destruct (t_heads (tables db) !! (scope, Family, artifactID r)) as [n|] eqn:Hn;
      [|rewrite Hr in Hrow; by destruct Hrow].
    destruct Hr as [_ Hr]. apply Hr in Hrow.
    assert (Er : revision_at (artifactID r) (Z.to_nat (revision r - 1)) = r).
    { unfold revision_at. destruct r as [rf ri rn]. cbn in *. subst rf. f_equal. lia. }
    split.
    + apply (list_elem_of_lookup_2 _ (Z.to_nat (revision r - 1))).
      destruct (history_at _ _ _ (Z.to_nat (revision r - 1)) Hv Hn) as [-> _]. rewrite decide_True by lia. by rewrite Er.
    + unfold stored_at in Hs. destruct (t_artifacts (tables db) !! (scope, r)) as [payload|]; [|done].
      destruct (decodeHandoff payload); [|done]. by injection Hs as <-.
  - intros db id hs Hv. cbn. unfold backend_Revisions. destruct (Transaction _ db) as [[a|e] st] eqn:E; cbn [fst]; [|done].
    apply transaction_ok in E as (s1 & s2 & E1 & E2 & _). unfold ArtifactStore.Revisions in E2. tx_inv E2. tx_pure.
    apply read_ok in Ha1 as [-> E]. apply decode_rows_ok in E2.
    + rewrite E2. intros [= <-]. rewrite E, E1. clear E2. unfold history_of.
      destruct (t_heads (tables db) !! (scope, Family, id)) as [n|] eqn:Hn;
        [|by rewrite (revisions_none _ _ _ _ (v_rows _ Hv) Hn)].
      rewrite (revisions_list _ _ _ _ _ (v_rows _ Hv) Hn). clear. induction (seq 0 (Z.to_nat n)) as [|i l IH]; [done|].
      cbn. destruct (t_artifacts (tables db) !! (scope, MkRef Family id (Z.of_nat i + 1))) as [payload|] eqn:Ep; cbn.
      * change (revision_at id i) with (MkRef Family id (Z.of_nat i + 1)). destruct (stored_at _ _); by rewrite IH.
      * unfold stored_at at 2. unfold revision_at at 1. rewrite Ep. exact IH.
    + apply Forall_forall. intros row Hrow. apply list_elem_of_omap in Hrow as (rev & _ & Hrow). rewrite E. cbn [rows holds_self] in Hrow.
      destruct (t_artifacts (tables s1) !! (scope, MkRef Family id rev)) as [payload|] eqn:Ep; [|done].
      by injection Hrow as <-.
  - intros db id d r db' Hv Hf H. destruct (backend_write_spec (ArtifactStore.Create repo scope id (any_draft d)) db r db' id d None Hv Hf) as (H1 & H2 & H3); [|exact H|].
    + intros st a st' Hr Hc. apply Create_ok in Hc as (_ & Er & Hw); [|exact (repo_pure _ Hf)|done].
      cbn in Er. rewrite Hf in Er. rewrite Er. split; [done|]. split; [|done].
      destruct Hw as (? & ? & _ & _ & _ & _ & G). pose proof (g_before _ _ _ _ _ _ G) as Hb. by rewrite Er in Hb.
    + split; [done|]. split; [done|]. destruct r as [h|e]; [|done]. destruct H3 as (Hh & Hi & Hrest).
      assert (E : history_of (tables db) id = []) by (unfold history_of; by rewrite Hh). by rewrite Hi, E.
  - intros db base d r db' Hv Hf Hb H id.
    destruct (backend_write_spec (ArtifactStore.Revise repo scope (any_artifact base) (any_draft d)) db r db' id d (Some (revision (a_ref base))) Hv Hf) as (H1 & H2 & H3); [|exact H|].
    + intros st a st' Hr Hc. apply Revise_ok in Hc as (_ & _ & Hh & Er & Hw); [|exact (repo_pure _ Hf)|done].
      cbn in Er, Hh. rewrite Hf in Er. rewrite Er. split; [done|]. split; [|done]. rewrite <- Hh. unfold head_key. by rewrite Hb.
    + split; [done|]. split; [done|]. destruct r as [h|e]; [|done]. destruct H3 as (Hh & Hrest). split; [|done].
      by apply head_ref.
Defined.
End backend.
