(* ===== verification/HandoffActivation.v ===== *)
(** * Activations of handoffs by durable boundaries
    ([internal/runtime/handoff_application.go],
    [internal/sqlstore/handoff_activation.go])

    What the activation store promises, the relational store that keeps it, and
    the activations of a scope as steps of a world where other activations and
    other writers come between the two transactions of each. *)

From S2P Require Import Prelude.
From S2P Require Import GoStrings.
From S2P Require Import Refs.
From S2P Require Import Json.
From S2P Require Import MemoryModel.
From S2P Require Import MemoryService.
From S2P Require Import Sql.
From S2P Require Import ArtifactStore.
From S2P Require Import Handoff.
From S2P Require Import HandoffResolution.
From S2P Require Import HandoffCodec.
From S2P Require Import Trigger.
From S2P Require Import CursorStore.
From S2P Require Import SourceStore.
From S2P Require Import SourceStoreFacts.
From S2P Require Import HandoffService.
From S2P Require Import HandoffStore.

(** ** The contract *)

(** A cursor with a generation per binding, that a save replaces atomically; the
    positions of the Sources of a scope. *)
Class ActivationBackendLaws (AS : Type) `{ActivationBackend AS} := {
  boundary_ok : AS -> Prop;
  boundary_row : AS -> string -> string -> option (Cursor * Z);
  position_of : AS -> string -> Source.Ref -> option Z;
  load_law st scope src binding p c g :
    boundary_ok st -> LoadBoundary st scope src binding = Ok (p, c, g) ->
    position_of st scope src = Some p /\ in_int64 p /\ g = option_map snd (boundary_row st scope binding) /\
    c = default (NewCursor 0) (option_map fst (boundary_row st scope binding));
  save_law st scope binding c g r st' :
    boundary_ok st -> in_int64 (Sequence c) -> match g with Some g => g <= max_int64 | None => True end ->
    SaveBoundary st scope binding c g = (r, st') ->
    boundary_ok st' /\ (forall src, position_of st' scope src = position_of st scope src) /\
    match r with
    | Ok _ => option_map snd (boundary_row st scope binding) = g /\
              boundary_row st' scope binding = Some (c, match g with Some g => g + 1 | None => 1 end)
    | Err _ => boundary_row st' scope binding = boundary_row st scope binding
    end;
  generation_law st scope binding c g : boundary_ok st -> boundary_row st scope binding = Some (c, g) -> 1 <= g <= max_int64
}.

(** ** The relational store *)

Section sql.
Context {T V O : Type} {HS : Holds T SourceTables} {HC : Holds T CursorRows} {HA : Apart T SourceTables CursorRows}
        {SV : SourceValues V O} {OB : Observations T O}.
Context (repo : SourceRepository V).

(** Only a missing Source makes the error of missing evidence: no cursor is
    missing. *)
Definition sql_LoadBoundary (db : SessionOf T) (scope : string) (boundary : Source.Ref) (binding : string)
  : hres (Z * Cursor * option Z) :=
  match fst (Transaction (let! stored := GetSource repo scope boundary in
                          let! state := Load scope binding in
                          tx_ret (stored, state)) db) with
  | Ok (stored, None) => Ok (ss_position stored, NewCursor 0, None)
  | Ok (stored, Some state) => Ok (ss_position stored, sc_cursor state, Some (sc_generation state))
  | Err (SMissing _) => let* _ := validate_value (SourceCitation boundary) in Err HEvidenceUnavailable
  | Err e => Err (to_hand e)
  end.

Definition sql_SaveBoundary (db : SessionOf T) (scope binding : string) (cursor : Cursor) (expected : option Z)
  : hres unit * SessionOf T :=
  let (r, db') := Transaction (Save scope binding cursor expected) db in
  (match r with Ok _ => Ok tt | Err e => Err (to_hand e) end, db').

#[local] Instance sql_activation : ActivationBackend (SessionOf T) := {
  LoadBoundary := sql_LoadBoundary;
  SaveBoundary := sql_SaveBoundary
}.

Definition sql_position (db : SessionOf T) (scope : string) (r : Source.Ref) : option Z :=
  option_map row_position (select_source (sources_of (tables db)) scope r).

Lemma stored_position scope r row t :
  journal_ok t -> select_source t scope r = Some row -> in_int64 (row_position row).
Proof.
  intros Hj. unfold select_source. destruct (st_sources t !! (scope, r)) as [[payload p]|] eqn:E; [|done]. intros [= <-]. cbn.
  pose proof (positions_positive _ _ _ _ _ Hj E). pose proof (head_nonneg t scope Hj). unfold in_int64, min_int64, max_int64 in *. lia.
Qed.

#[local] Instance sql_activation_laws : ActivationBackendLaws (SessionOf T).
Proof.
  refine {| boundary_ok db := journal_ok (sources_of (tables db)) /\ cursors_ok (rows (tables db));
            boundary_row db scope binding := cursor_at (tables db) scope binding;
            position_of := sql_position |}.
  - intros db scope src binding p c g [Hj Hc] H. cbn in H. unfold sql_LoadBoundary in H.
    destruct (Transaction _ db) as [[[stored state]|e] db'] eqn:E; cbn in H; [|destruct e; try done; by bind_inv H].
    apply transaction_ok in E as (s1 & s2 & E1 & E2 & _). tx_inv E2. apply GetSource_ok in Ha as (Et & row & Hrow & _ & Hp & _).
    apply Load_cursor in Ha0 as [_ Hcur]. apply tx_ret_ok in E2 as [[= -> ->] _]. rewrite Et, E1 in Hcur. rewrite E1 in Hrow.
    unfold sql_position. rewrite Hrow, Hcur. assert (Hin : in_int64 (ss_position stored)) by (rewrite Hp; by eapply stored_position).
    destruct state as [state|]; injection H as <- <- <-; cbn; by rewrite <- Hp.
  - intros db scope binding c g r db' [Hj Hc] Hin Hg H. cbn in H. unfold sql_SaveBoundary in H.
    destruct (Transaction _ db) as [[st|e] db2] eqn:E; injection H as <- <-.
    + apply transaction_ok in E as (s1 & s2 & E1 & E2 & E3). apply Save_cursor in E2 as (C & Hok & H1 & H2 & _); [|by rewrite E1|done|done].
      rewrite E1, <- E3 in *. assert (Es : sources_of (tables db2) = sources_of (tables db)) by (rewrite C; apply apart_left).
      unfold sql_position. rewrite Es. done.
    + apply transaction_err in E. unfold sql_position. by rewrite E.
  - intros db scope binding c g [_ Hc] H. unfold cursor_at in H. cbn in H.
    destruct (cursor_row (tables db) scope binding) as [[payload g']|] eqn:Er; [|done]. cbn in H. unfold read_cursor in H. cbn in H.
    destruct (decodeSourceCursor payload); [|done]. injection H as _ <-. by destruct (Hc _ _ _ Er) as [H1 _].
Defined.
End sql.

(** ** Activations of one scope *)

Section activations.
Context {DB V S AS : Type} {R : EvidenceResolver DB V S} {B : HandoffBackend DB} {VS : Values V S}
        {A : ActivationBackend AS} {L : ActivationBackendLaws AS}.
Context (services : string -> hres (Service V S)) (scope : string).

Notation row st := (boundary_row st scope HandoffBoundaryName).

(** The store, the stores that the activations under way have read, and the
    positions for which a draft was handed out, oldest first. *)
Record World := MkWorld { w_store : AS; w_seen : list AS; w_log : list Z }.

Definition generated_position (r : hres Activation) : list Z :=
  match r with
  | Ok a => match ac_status a with ActivationGenerated => [currentPosition a] | _ => [] end
  | Err _ => []
  end.

(** An activation reads, and later writes; the handoffs that it reads can be in any
    state; everything else can happen between, the cursor of the boundary apart. *)
Inductive step : World -> World -> Prop :=
| step_read w : step w (MkWorld (w_store w) (w_store w :: w_seen w) (w_log w))
| step_activate w seen (db : DB) activation r st' :
    seen ∈ w_seen w -> Activate services db seen (w_store w) scope activation = (r, st') ->
    step w (MkWorld st' (w_seen w) (w_log w ++ generated_position r))
| step_other w st' :
    boundary_ok st' -> row st' = row (w_store w) -> step w (MkWorld st' (w_seen w) (w_log w)).

Inductive reachable (st0 : AS) : World -> Prop :=
| reach_start : reachable st0 (MkWorld st0 [] [])
| reach_step w w' : reachable st0 w -> step w w' -> reachable st0 w'.

(** What an activation does to the cursor. *)
Lemma Activate_spec (db : DB) seen st activation r st' :
  boundary_ok seen -> boundary_ok st -> older_row (row seen) (row st) ->
  Activate services db seen st scope activation = (r, st') ->
  boundary_ok st' /\
  ((row st' = row st /\ generated_position r = []) \/
   exists p, default 0 (option_map (fun x => Sequence (fst x)) (row st)) < p /\
     row st' = Some (NewCursor p, match option_map snd (row st) with Some g => g + 1 | None => 1 end) /\
     (generated_position r = [] \/ generated_position r = [p])).
Proof.
  intros Hs Hst Hold H. unfold Activate in H.
  destruct (let* ' (p, state, g) := _ in _) as [[[state g] transition]|e] eqn:El; [|injection H as <- <-; split; [done|by left]].
  bind_inv El. destruct a as [[p state'] g']. bind_inv El. injection El as -> -> ->.
  apply load_law in Ha as (_ & Hin & Hg & Hc); [|done].
  assert (Hb : valid_boundary a /\ b_position a = p).
  { unfold NewHandoffBoundary in Ha0. pose proof Ha0 as Hnew. bind_inv Ha0. injection Ha0 as <-. split; [exact Hnew|done]. }
  destruct Hb as [Hb Hbp]. pose proof (boundary_activate a state Hb) as Hact.
  destruct (Z.leb_spec (b_position a) (Sequence state)) as [Hle|Hlt].
  - rewrite Hact in Ha1. injection Ha1 as <-. cbn in H. injection H as <- <-. split; [done|]. left. split; [done|].
    unfold NewActivation. destruct (ValidateActivation _); done.
  - destruct Hact as (action & Hact & _). rewrite Hact in Ha1. injection Ha1 as <-. cbn [t_actions] in H.
    destruct (let* service := services scope in Prepare service db action) as [draft|e];
      [|injection H as <- <-; split; [done|by left]].
    destruct (SaveBoundary _ _ _ _ _) as [saved st2] eqn:Es. injection H as Hr <-. cbn [t_state] in *.
    apply save_law in Es as (Hok & _ & Hsave); [|done|by rewrite Hbp|].
    2:{ rewrite Hg. destruct (row seen) as [[c0 g0]|] eqn:Er; [|done]. cbn. by apply generation_law in Er as [_ Er]. }
    split; [done|]. destruct saved as [u|e]; [|left; split; [exact Hsave|by rewrite <- Hr]].
    destruct Hsave as [Hcur Hrow]. right. exists (b_position a).
    assert (Hsame : row st = row seen) by (apply older_current; [done|congruence]).
    split; [|split].
    + rewrite Hsame. rewrite Hc in Hlt. destruct (row seen) as [[c0 g0]|]; cbn in *; exact Hlt.
    + rewrite Hrow, Hcur. done.
    + rewrite <- Hr. cbn. unfold NewActivation. destruct (ValidateActivation _); [right|left]; done.
Qed.

(** The positions handed out increase up to the cursor, and no snapshot is ahead of
    the store. *)
Definition log_ok (w : World) : Prop :=
  boundary_ok (w_store w) /\
  Forall (fun seen => boundary_ok seen /\ older_row (row seen) (row (w_store w))) (w_seen w) /\
  StronglySorted Z.lt (w_log w) /\
  Forall (fun p => p <= default 0 (option_map (fun x => Sequence (fst x)) (row (w_store w)))) (w_log w) /\
  (w_log w <> [] -> is_Some (row (w_store w))).

Lemma StronglySorted_snoc {X} (Rel : X -> X -> Prop) l x :
  StronglySorted Rel l -> Forall (fun y => Rel y x) l -> StronglySorted Rel (l ++ [x]).
Proof.
  induction 1 as [|y l Hs IH Hf]; intros Hx; cbn; [repeat constructor|]. inversion_clear Hx as [|? ? H1 H2].
  constructor; [by apply IH|]. apply Forall_app. split; [done|]. by apply Forall_singleton.
Qed.

Lemma step_log w w' : step w w' -> log_ok w -> log_ok w'.
Proof.
  intros Hstep (H1 & H2 & H3 & H4 & H5). destruct Hstep as [w|w seen db activation r st' Hseen Hact|w st' Hok Hrow]; unfold log_ok; cbn.
  - split; [done|]. split; [|done]. constructor; [|done]. split; [done|apply older_refl].
  - rewrite Forall_forall in H2. destruct (H2 _ Hseen) as [Hs Hold]. apply Activate_spec in Hact as (Hok & Hcases); [|done..].
    split; [done|]. destruct Hcases as [[Hrow Hp]|(p & Hlt & Hrow & Hp)].
    + rewrite Hrow, Hp, app_nil_r. split; [by apply Forall_forall|]. done.
    + assert (Hseen' : Forall (fun seen => boundary_ok seen /\ older_row (row seen) (row st')) (w_seen w)).
      { apply Forall_forall. intros x Hx. destruct (H2 x Hx) as [Hx1 Hx2]. split; [done|]. rewrite Hrow. apply older_save; [|done].
        destruct (row (w_store w)) as [[c0 g0]|] eqn:Er; [|done]. by apply generation_law in Er as [Er _]. }
      assert (Hlog : Forall (fun q => q < p) (w_log w)) by (eapply Forall_impl; [exact H4|]; cbn; lia).
      split; [done|]. rewrite Hrow. cbn. destruct Hp as [-> | ->].
      * rewrite app_nil_r. split; [done|]. split; [eapply Forall_impl; [exact Hlog|]; cbn; lia|by eexists].
      * split; [by apply StronglySorted_snoc|]. split; [|by eexists]. apply Forall_app. split; [eapply Forall_impl; [exact Hlog|]; cbn; lia|].
        apply Forall_singleton. lia.
  - rewrite Hrow. done.
Qed.

Lemma reachable_log st0 w : boundary_ok st0 -> reachable st0 w -> log_ok w.
Proof.
  intros Hok. induction 1 as [|w w' _ IH Hstep]; [|by eapply step_log]. unfold log_ok. cbn. repeat split; [done|constructor..|done].
Qed.

(** C25: However the activations of a scope interleave with each other and with other
    writers, the positions for which a draft is handed out strictly increase: no
    boundary is handed out twice, and none after a later one. *)
Theorem boundary_at_most_once st0 w :
  boundary_ok st0 -> reachable st0 w -> StronglySorted Z.lt (w_log w).
Proof. intros Hok Hr. by apply (reachable_log st0). Qed.

(** An activation whose boundary is ahead of the cursor and whose preparation
    succeeds hands out that draft and moves the cursor to the boundary, unless the
    store refuses to save; at or behind the cursor it changes nothing. *)
Theorem activation_progress (db : DB) st activation p c g :
  boundary_ok st -> LoadBoundary st scope (boundarySource activation) HandoffBoundaryName = Ok (p, c, g) ->
  0 <= Sequence c -> 1 <= p -> ValidateActivate activation = Ok tt ->
  let action := MkPrepare (a_objective activation) (ActionEvidence activation) (a_maxBytes activation) in
  if p <=? Sequence c then
    Activate services db st st scope activation =
      (Ok (MkActivation ActivationIgnored (boundarySource activation) (Sequence c) (Sequence c) None), st)
  else forall draft, (let* service := services scope in Prepare service db action) = Ok draft ->
    let (saved, st') := SaveBoundary st scope HandoffBoundaryName (NewCursor p) g in
    Activate services db st st scope activation =
      (let* _ := saved in
       Ok (MkActivation ActivationGenerated (boundarySource activation) (Sequence c) p (Some draft)), st').
Proof.
  intros Hok Hl Hc Hp Hv action. unfold Activate. rewrite Hl. cbn [bind].
  assert (Hb : NewHandoffBoundary p activation = Ok (MkBoundary p activation)).
  { unfold NewHandoffBoundary. rewrite (proj2 (Z.leb_le 1 p) Hp). cbn. by rewrite Hv. }
  rewrite Hb. cbn [bind]. pose proof (boundary_activate (MkBoundary p activation) c) as Hact. cbn [b_position b_activation] in Hact.
  assert (Hsrc : check_source (boundarySource activation) = Ok tt).
  { unfold ValidateActivate in Hv. bind_inv Hv. destruct (check_source _) as [[]|]; [done|discriminate]. }
  destruct (Z.leb_spec p (Sequence c)) as [Hle|Hlt].
  - rewrite Hact by exact Hb. cbn. unfold NewActivation, ValidateActivation. cbn. rewrite Hsrc. cbn.
    rewrite (proj2 (Z.ltb_ge _ _) Hc), Z.ltb_irrefl, Z.eqb_refl. reflexivity.
  - intros draft Hd. destruct (Hact Hb) as (action' & E & Ea). rewrite E. cbn [bind t_actions t_state]. fold action in Ea. subst action'.
    rewrite Hd. destruct (SaveBoundary _ _ _ _ _) as [saved st']. destruct saved as [u|e]; [|reflexivity]. cbn [bind].
    bind_inv Hd. apply prepared_valid in Hd. unfold NewActivation, ValidateActivation. cbn [ac_boundary previousPosition currentPosition ac_status ac_draft].
    rewrite Hsrc. cbn [bind map_err Sequence]. rewrite (proj2 (Z.ltb_ge (Sequence c) 0)), (proj2 (Z.ltb_ge p 0)), (proj2 (Z.ltb_ge p (Sequence c))) by lia.
    cbn [orb negb check bind]. rewrite (proj2 (Z.leb_gt p (Sequence c))) by lia. cbn [negb check bind]. rewrite Hd. reflexivity.
Qed.
End activations.
