(* ===== verification/HandoffProps.v ===== *)
(** * Properties of handoffs

    Commits against the history of the store, continuations, preparation and
    generation, and the codec of contents; then the witnesses, on the relational
    store. *)

From S2P Require Import Prelude.
From S2P Require Import GoStrings.
From S2P Require Import Refs.
From S2P Require Import Json.
From S2P Require Import JsonText.
From S2P Require Import JsonWriter.
From S2P Require Import MemoryModel.
From S2P Require Import MemoryService.
From S2P Require Import MemoryStore.
From S2P Require Import MemoryExtract.
From S2P Require Import Sql.
From S2P Require Import ArtifactStore.
From S2P Require Import ArtifactStoreFacts.
From S2P Require Import Handoff.
From S2P Require Import HandoffResolution.
From S2P Require Import HandoffCodec.
From S2P Require Import HandoffCodecFacts.
From S2P Require Import HandoffService.
From S2P Require Import HandoffGeneration.
From S2P Require Import HandoffStore.
From S2P Require Import Trigger.
From S2P Require Import CursorStore.
From S2P Require Import SourceStore.
From S2P Require Import SourceStoreFacts.
From S2P Require Import SourceProps.
From S2P Require Import HandoffActivation.

(** ** Commits *)

Section commits.
Context {DB V T : Type} {R : EvidenceResolver DB V T} {B : HandoffBackend DB} {L : HandoffBackendLaws DB} {VS : Values V T}.
Implicit Types (s : Service V T) (db read : DB).

(** The lineage that a content cites: each Source and each Artifact once. *)
Definition cites (c : Content) (lineage : Lineage) : Prop :=
  NoDup (sources lineage) /\ NoDup (artifacts lineage) /\
  (forall r, r ∈ sources lineage <-> Some (SourceCitation r) ∈ directCitations c) /\
  (forall r, r ∈ artifacts lineage <->
     Some (ArtifactCitation r) ∈ directCitations c \/
     exists m, Some (MemoryCitation m) ∈ directCitations c /\ ci_MemoryRef m = r).

(** One handoff more, made from the head of the history. *)
Definition appended (id : string) (prepared : Prepared) (h : HandoffArtifact) db (db' : DB) : Prop :=
  option_map a_ref (last (history db id)) = base prepared /\
  history db' id = history db id ++ [h] /\
  a_content h = stored (content prepared) /\ cites (content prepared) (a_lineage h).

Lemma elem_of_omap_source r (cs : list (option Citation)) : r ∈ omap source_of cs <-> Some (SourceCitation r) ∈ cs.
Proof.
  rewrite list_elem_of_omap. split; [|intros H; by eexists].
  intros ([[]|] & H & E); try done. by injection E as <-.
Qed.

Lemma elem_of_omap_artifact r (cs : list (option Citation)) :
  r ∈ omap artifact_of cs <->
  Some (ArtifactCitation r) ∈ cs \/ exists m, Some (MemoryCitation m) ∈ cs /\ ci_MemoryRef m = r.
Proof.
  rewrite list_elem_of_omap. split.
  - intros ([[]|] & H & E); try done; injection E as <-; [by left|right; eauto].
  - intros [H|(m & H & <-)]; by eexists.
Qed.

Lemma draft_cites c d :
  NewArtifactDraft c (sourceLineage c) (artifactLineage c) = Ok d ->
  d_family d = Family /\ d_content d = c /\ cites c (d_lineage d).
Proof.
  unfold NewArtifactDraft, NewDraft. intros H. bind_inv H.
  destruct (let* _ := _ in _) as [d'|] eqn:E; [|done]. injection H as ->. bind_inv E. ok_inv. subst. cbn.
  apply NewLineage_ok in Ha1 as [-> _]. split; [done|]. split; [done|]. unfold cites, sourceLineage, artifactLineage. cbn.
  destruct (firsts_spec [] (omap source_of (directCitations c))) as [H1 H2].
  destruct (firsts_spec [] (omap artifact_of (directCitations c))) as [H3 H4].
  split; [done|]. split; [done|]. split.
  - intros r. rewrite H2, elem_of_omap_source. set_solver.
  - intros r. rewrite H4, elem_of_omap_artifact. set_solver.
Qed.

Lemma sameBase_spec b current : sameBase b current = true -> b = option_map a_ref current.
Proof. unfold sameBase. destruct current; intros H; by apply bool_decide_eq_true in H. Qed.

Lemma commit_revision_spec s db prepared current r db' :
  store_ok db -> family (default zero_ref (option_map a_ref current)) = (if current then Family else "") ->
  (forall h, current = Some h -> artifactID (a_ref h) = s_artifactID s) ->
  commit_revision s db prepared current = (r, db') ->
  store_ok db' /\ (forall other, other <> s_artifactID s -> history db' other = history db other) /\
  match r with
  | Ok h => appended (s_artifactID s) prepared h db db'
  | Err _ => history db' (s_artifactID s) = history db (s_artifactID s)
  end.
Proof.
  intros Hok Hfam Hid. unfold commit_revision.
  destruct (let* _ := check _ _ in _) as [draft|e] eqn:Ed; [|by intros [= <- <-]].
  bind_inv Ed. apply check_ok_inv, sameBase_spec in Ha. apply draft_cites in Ed as (Hf & Hc & Hl).
  unfold appended. destruct current as [h0|]; cbn in Hfam, Ha.
  - intros H. apply revise_law in H as (H1 & H2 & H3); [|done|done|done]. rewrite (Hid h0 eq_refl) in H2, H3.
    split; [done|]. split; [done|]. destruct r as [h|]; [|done]. destruct H3 as (E1 & E2 & E3 & E4). by rewrite E1, Ha, E3, E4, Hc.
  - intros H. apply create_law in H as (H1 & H2 & H3); [|done|done].
    split; [done|]. split; [done|]. destruct r as [h|]; [|done]. destruct H3 as (E0 & E2 & E3 & E4). by rewrite E0, Ha, E2, E3, E4, Hc.
Qed.

Lemma last_ref db id h :
  store_ok db -> last (history db id) = Some h ->
  valid_ref (a_ref h) /\ family (a_ref h) = Family /\ artifactID (a_ref h) = id /\ ValidateContent (a_content h) = Ok tt.
Proof.
  intros Hok H. rewrite last_lookup in H. apply history_ref in H as (H1 & H2 & H3); [|done]. rewrite H1 in *. done.
Qed.

(** What a commit does. *)
Lemma commit_spec s read db prepared r db' :
  store_ok read -> store_ok db -> Commit s read db prepared = (r, db') ->
  let id := s_artifactID s in
  store_ok db' /\ (forall other, other <> id -> history db' other = history db other) /\
  match r with
  | Ok h =>
      (db' = db /\ last (history read id) = Some h /\ a_content h = content prepared) \/
      appended id prepared h db db'
  | Err _ => history db' id = history db id
  end.
Proof.
  intros Hread Hdb H id. unfold Commit in H.
  destruct (let* _ := _ in _) as [current|e] eqn:Ec; [|by injection H as <- <-].
  bind_inv Ec. apply latest_law in Ec; [|done].
  assert (Hspec : commit_revision s db prepared current = (r, db') ->
    store_ok db' /\ (forall other, other <> id -> history db' other = history db other) /\
    match r with
    | Ok h => (db' = db /\ last (history read id) = Some h /\ a_content h = content prepared) \/ appended id prepared h db db'
    | Err _ => history db' id = history db id
    end).
  { intros Hw. assert (Hcur : forall h, current = Some h -> family (a_ref h) = Family /\ artifactID (a_ref h) = id).
    { intros h ->. symmetry in Ec. by apply last_ref in Ec as (_ & H1 & H2 & _). }
    apply commit_revision_spec in Hw as (H1 & H2 & H3); [|done| |by intros h Hh; apply Hcur in Hh as [_ Hh]].
    - split; [done|]. split; [done|]. destruct r; [by right|done].
    - destruct current as [h|]; [|done]. cbn. by destruct (Hcur h eq_refl). }
  destruct current as [h|]; [|by apply Hspec]. destruct (EqualContent _ _) eqn:Eq; [|by apply Hspec].
  injection H as <- <-. split; [done|]. split; [done|]. left. apply bool_decide_eq_true in Eq. done.
Qed.

(** A commit appends nothing, or one handoff on top of the base. *)
Lemma commit_length s read db prepared r db' :
  store_ok read -> store_ok db -> Commit s read db prepared = (r, db') ->
  let n := length (history db (s_artifactID s)) in
  length (history db' (s_artifactID s)) = n \/ length (history db' (s_artifactID s)) = S n.
Proof.
  intros Hr Hd H n. apply commit_spec in H as (_ & _ & H); [|done|done]. destruct r as [h|]; [|left; by rewrite H].
  destruct H as [(-> & _)|(_ & H & _)]; [by left|right]. rewrite H, length_app. cbn. lia.
Qed.

Lemma commit_from_base s read db prepared r db' :
  store_ok read -> store_ok db -> Commit s read db prepared = (r, db') ->
  length (history db' (s_artifactID s)) = S (length (history db (s_artifactID s))) ->
  option_map a_ref (last (history db (s_artifactID s))) = base prepared.
Proof.
  intros Hr Hd H Hl. apply commit_spec in H as (_ & _ & H); [|done|done]. destruct r as [h|]; [|rewrite H in Hl; lia].
  destruct H as [(-> & _)|(H & _)]; [lia|done].
Qed.

Lemma commit_moves_head s read db prepared r db' :
  store_ok read -> store_ok db -> Commit s read db prepared = (r, db') ->
  length (history db' (s_artifactID s)) = S (length (history db (s_artifactID s))) ->
  option_map a_ref (last (history db' (s_artifactID s))) <> base prepared.
Proof.
  intros Hr Hd H Hl. pose proof (commit_spec _ _ _ _ _ _ Hr Hd H) as (Hd' & _ & Hs).
  destruct r as [h|]; [|rewrite Hs in Hl; lia]. destruct Hs as [(-> & _)|(Hb & Happ & _)]; [lia|]. rewrite <- Hb.
  assert (Hh : history db' (s_artifactID s) !! length (history db (s_artifactID s)) = Some h)
    by (rewrite Happ, lookup_app_r, Nat.sub_diag by lia; done).
  apply history_ref in Hh as [Er _]; [|done]. rewrite Happ, last_snoc. cbn. rewrite Er.
  destruct (last (history db (s_artifactID s))) as [h0|] eqn:E0; [|done]. cbn.
  rewrite last_lookup in E0. pose proof (lookup_lt_Some _ _ _ E0) as Hlt. apply history_ref in E0 as [E0 _]; [|done].
  rewrite E0. intros [= E]. lia.
Qed.

(** C6: A commit that returns a handoff either finds it already at the head, with the
    content that was prepared, and changes nothing; or it appends exactly one
    handoff to the history, whose head is still the base of the preparation, with
    the prepared content and each cited Source and Artifact once in its lineage.
    A commit that fails leaves the history; other artifacts never change.  The
    head is read in another state than the one that is written. *)
Theorem commit_appends s read db prepared r db' :
  store_ok read -> store_ok db -> Commit s read db prepared = (r, db') ->
  let id := s_artifactID s in
  store_ok db' /\ (forall other, other <> id -> history db' other = history db other) /\
  match r with
  | Ok h =>
      (db' = db /\ last (history read id) = Some h /\ a_content h = content prepared) \/
      appended id prepared h db db'
  | Err _ => history db' id = history db id
  end.
Proof. by apply commit_spec. Qed.

(** Two commits of preparations that were made from the same base append at most
    one handoff between them, whatever heads they read: no update is lost. *)
Theorem same_base_appends_once s read1 read2 db p1 p2 r1 r2 db1 db2 :
  store_ok read1 -> store_ok read2 -> store_ok db -> base p1 = base p2 ->
  Commit s read1 db p1 = (r1, db1) -> Commit s read2 db1 p2 = (r2, db2) ->
  (length (history db2 (s_artifactID s)) <= 1 + length (history db (s_artifactID s)))%nat.
Proof.
  intros Hr1 Hr2 Hdb Hb H1 H2. destruct (commit_spec _ _ _ _ _ _ Hr1 Hdb H1) as (Hdb1 & _ & A1).
  destruct (commit_length _ _ _ _ _ _ Hr1 Hdb H1) as [L1|L1], (commit_length _ _ _ _ _ _ Hr2 Hdb1 H2) as [L2|L2]; try lia.
  exfalso. apply (commit_moves_head _ _ _ _ _ _ Hr1 Hdb H1 L1). rewrite Hb.
  by apply (commit_from_base _ _ _ _ _ _ Hr2 Hdb1 H2).
Qed.

End commits.

(** ** Continuations *)

Section continuations.
Context {DB V T : Type} {R : EvidenceResolver DB V T} {B : HandoffBackend DB} {L : HandoffBackendLaws DB} {VS : Values V T}.
Implicit Types (s : Service V T) (db : DB).

(** The three ways to continue. *)
Inductive Continuation := FromPrepared (p : Prepared) | FromRevision (r : Ref) | FromLatest.

Definition continue_with s db (k : Continuation) : hres Resolution :=
  match k with
  | FromPrepared p => ContinueFromPrepared s db p
  | FromRevision r => ContinueFromRevision s db r
  | FromLatest => ContinueLatest s db
  end.

(** The content that a continuation is about, and what it says it selected. *)
Definition selects (hs : list HandoffArtifact) (k : Continuation) (c : Content) (sel : Selection) (selected : option Ref) : Prop :=
  match k with
  | FromPrepared p => c = content p /\ sel = PreparedSelection /\ selected = None
  | FromRevision r => sel = ExactSelection /\ selected = Some r /\ exists h, h ∈ hs /\ a_ref h = r /\ c = a_content h
  | FromLatest => sel = LatestSelection /\ exists h, last hs = Some h /\ selected = Some (a_ref h) /\ c = a_content h
  end.

Lemma prepared_content p u : ValidatePrepared p = Ok u -> ValidateContent (content p) = Ok tt.
Proof. unfold ValidatePrepared. intros H. bind_inv H. by apply unit_result in H. Qed.

Lemma revision_found s db r h :
  store_ok db -> Revision s db r = Ok h ->
  h ∈ history db (s_artifactID s) /\ a_ref h = r /\ family r = Family /\ artifactID r = s_artifactID s.
Proof.
  intros Hok H. unfold Revision, requireReference in H. bind_inv H. bind_inv Ha. ok_inv.
  apply andb_prop in Ha0 as [[_ Hf%String.eqb_eq]%andb_prop Hi%String.eqb_eq].
  apply get_law in H as [H1 H2]; [|done|done]. by rewrite <- Hi.
Qed.

Lemma history_content db id h : store_ok db -> h ∈ history db id -> ValidateContent (a_content h) = Ok tt /\ valid_ref (a_ref h).
Proof. intros Hok [i Hi]%list_elem_of_lookup. apply history_ref in Hi as (_ & H2 & H3); done. Qed.

Lemma last_in {A} (l : list A) x : last l = Some x -> x ∈ l.
Proof. rewrite last_lookup. apply list_elem_of_lookup_2. Qed.

(** What a continuation shows. *)
Lemma continue_with_spec s db k r :
  store_ok db -> continue_with s db k = Ok r ->
  let hs := history db (s_artifactID s) in
  (k = FromLatest /\ hs = [] /\ Empty (s_scopeID s) = Ok r) \/
  exists c sel selected,
    selects hs k c sel selected /\ faithful db c r /\ r_scopeID r = s_scopeID s /\
    r_selection r = Some sel /\ r_selected r = selected /\ r_current r = option_map a_ref (last hs).
Proof.
  intros Hok H hs.
  assert (Hgo : forall c sel selected current, ValidateContent c = Ok tt -> selects hs k c sel selected -> current = last hs ->
    resolve s db c sel selected current = Ok r -> exists c sel selected,
    selects hs k c sel selected /\ faithful db c r /\ r_scopeID r = s_scopeID s /\
    r_selection r = Some sel /\ r_selected r = selected /\ r_current r = option_map a_ref (last hs)).
  { intros c sel selected current Hc Hs Hcur Hr. exists c, sel, selected. split; [done|].
    pose proof (resolve_spec s db c sel selected current tt Hc) as Hspec. rewrite Hr in Hspec. by rewrite <- Hcur. }
  destruct k as [p|ref|]; cbn [continue_with] in H.
  - unfold ContinueFromPrepared in H. bind_inv H. apply latest_law in Ha1; [|done]. right.
    eapply Hgo; [by eapply prepared_content| |exact Ha1|exact H]. done.
  - unfold ContinueFromRevision in H. bind_inv H. apply latest_law in Ha0; [|done]. right.
    apply revision_found in Ha as (Hin & Er & _); [|done].
    eapply Hgo; [by eapply history_content| |exact Ha0|exact H]. split; [done|]. split; [by rewrite Er|]. by eexists.
  - unfold ContinueLatest in H. bind_inv H. apply latest_law in Ha; [|done]. destruct a as [h|].
    + right. symmetry in Ha. eapply Hgo; [eapply history_content; [done|by apply last_in]| |symmetry; exact Ha|exact H].
      split; [done|]. by exists h.
    + left. symmetry in Ha. apply last_None in Ha. split; [done|]. split; [exact Ha|exact H].
Qed.

(** A continuation that succeeds shows the content that it was asked for - the
    prepared one, a revision of the history, or its head - unchanged and with the
    current head, and reports, statement by statement and each once, exactly the
    cited evidence that is no longer available.  An empty history gives an empty
    resolution. *)
Theorem continuation_faithful s db k r :
  store_ok db -> continue_with s db k = Ok r ->
  let hs := history db (s_artifactID s) in
  (k = FromLatest /\ hs = [] /\ Empty (s_scopeID s) = Ok r) \/
  exists c sel selected,
    selects hs k c sel selected /\ faithful db c r /\ r_scopeID r = s_scopeID s /\
    r_selection r = Some sel /\ r_selected r = selected /\ r_current r = option_map a_ref (last hs).
Proof. by apply continue_with_spec. Qed.

(** What a continuation is asked for exists, and belongs to the service. *)
Definition available s db (k : Continuation) : Prop :=
  match k with
  | FromPrepared p => ValidatePrepared p = Ok tt /\ requirePrepared s p = Ok tt
  | FromRevision r => requireReference s r = Ok tt /\ exists h, GetRevision db r = Ok h
  | FromLatest => True
  end.

(** A continuation only fails when the store fails, when it is asked for something
    that is not there, or when the resolver fails: evidence that is gone is
    reported, not an error. *)
Theorem continuation_total s db k :
  store_ok db -> is_ok (LatestRevision db (s_artifactID s)) = true -> available s db k ->
  (forall c sel selected x, selects (history db (s_artifactID s)) k c sel selected ->
     Some x ∈ directCitations c -> resolvable db x) ->
  exists r, continue_with s db k = Ok r.
Proof.
  intros Hok Hl Ha Hr. destruct (LatestRevision db (s_artifactID s)) as [current|] eqn:El; [|done].
  pose proof (latest_law _ _ _ Hok El) as Hcur.
  assert (Hcv : forall h, current = Some h -> valid_ref (a_ref h) /\ family (a_ref h) = Family /\ artifactID (a_ref h) = s_artifactID s).
  { intros h ->. symmetry in Hcur. apply last_ref in Hcur as (H1 & H2 & H3 & _); done. }
  destruct k as [p|ref|]; cbn [continue_with available selects] in *.
  - destruct Ha as [Hv Hp]. unfold ContinueFromPrepared. rewrite Hv, Hp, El. cbn.
    apply (resolve_ok s db _ _ _ _ tt (prepared_content p tt Hv)); [|intros x; by eapply Hr].
    destruct current as [h|]; [|done]. by apply Hcv.
  - destruct Ha as [Hv [h Hg]]. unfold ContinueFromRevision. unfold Revision. rewrite Hv. cbn. rewrite Hg. cbn. rewrite El. cbn.
    assert (Hrev : Revision s db ref = Ok h) by (unfold Revision; rewrite Hv; cbn; done).
    apply revision_found in Hrev as (Hin & Er & Hf & Hi); [|done]. destruct (history_content _ _ _ Hok Hin) as [Hc Hvr].
    apply (resolve_ok s db _ _ _ _ tt Hc); [|intros x; eapply Hr; split; [done|]; split; [done|]; by exists h].
    destruct current as [h'|].
    + destruct (Hcv h' eq_refl) as (H1 & H2 & H3). cbn. rewrite Er in *. split; [done|]. split; [done|]. by rewrite H2, H3.
    + symmetry in Hcur. apply last_None in Hcur. rewrite Hcur in Hin. by apply elem_of_nil in Hin.
  - unfold ContinueLatest. rewrite El. cbn. destruct current as [h|]; [|by eexists].
    destruct (Hcv h eq_refl) as (H1 & _). symmetry in Hcur.
    destruct (history_content db (s_artifactID s) h Hok (last_in _ _ Hcur)) as [Hc _].
    apply (resolve_ok s db _ _ _ _ tt Hc); [done|]. intros x. eapply Hr. split; [done|]. by exists h.
Qed.

(** What is finalized and committed is what the next continuation shows: the same
    content, selected as the current head, at the end of the history. *)
Theorem handoff_round_trip s db draft p h db' r :
  store_ok db -> stored draft = draft -> Finalize s db draft = Ok p ->
  Commit s db db p = (Ok h, db') -> ContinueLatest s db' = Ok r ->
  r_selected r = Some (a_ref h) /\ r_current r = Some (a_ref h) /\ faithful db' draft r /\
  last (history db' (s_artifactID s)) = Some h /\ a_content h = draft.
Proof.
  intros Hok Hst Hf Hc Hr.
  assert (Hp : content p = draft).
  { unfold Finalize, NewPrepared in Hf. bind_inv Hf. ok_inv. by subst p. }
  apply commit_spec in Hc as (Hok' & _ & Hc); [|done|done].
  assert (Hlast : last (history db' (s_artifactID s)) = Some h /\ a_content h = draft).
  { destruct Hc as [(-> & Hl & Hc)|(_ & Hh & Hc & _)]; [by rewrite Hc, Hp|]. by rewrite Hh, last_snoc, Hc, Hp, Hst. }
  destruct Hlast as [Hl Hcont].
  destruct (continue_with_spec s db' FromLatest r Hok' Hr) as [(_ & E & _)|(c & sel & selected & Hs & Hfa & _ & _ & Es & Ecur)].
  - by rewrite E in Hl.
  - cbn in Hs. destruct Hs as (_ & h' & Hl' & E1 & E2). rewrite Hl in Hl'. injection Hl' as <-.
    rewrite Es, Ecur, Hl, E1. rewrite E2, Hcont in Hfa. done.
Qed.
End continuations.

(** ** Preparation and generation *)

Section preparation.
Context {DB V T : Type} {R : EvidenceResolver DB V T} {VS : Values V T}.
Implicit Types (s : Service V T) (db : DB).

(** The content cites only evidence that the action lists, by key. *)
Definition cites_only (evidence : list (option Citation)) (draft : Content) : Prop :=
  forall o, o ∈ allCitations draft ->
    exists c e, o = Some c /\ Some e ∈ evidence /\ citationKey c = citationKey e.

Lemma allowed_keys_spec evidence keys :
  allowed_keys evidence = Ok keys -> forall key, key ∈ keys <-> exists e, Some e ∈ evidence /\ citationKey e = key.
Proof.
  unfold allowed_keys. intros H%map_res_Forall2 key. induction H as [|o k evidence keys Hk _ IH].
  { split; [by intros ?%elem_of_nil|]. by intros (e & ?%elem_of_nil & _). }
  destruct o as [c|]; [|done]. injection Hk as <-. rewrite elem_of_cons, IH. split.
  - intros [->|(e & He & Ek)]; [exists c; split; [left|done]|exists e; split; [by right|done]].
  - intros (e & [[= ->]|He]%elem_of_cons & Ek); [by left|right; by exists e].
Qed.

(** The check of the citations of a draft. *)
Lemma check_evidence_spec (allowed : list string) (cs : list (option Citation)) :
  is_ok (map_res (fun c => let* key := citation_key c in
                           require bool_decide (key ∈ allowed) else HInvalidGeneration "evidence" in Ok tt) cs) = true <->
  Forall (fun o => exists c, o = Some c /\ citationKey c ∈ allowed) cs.
Proof.
  induction cs as [|o cs IH]; cbn [map_res]; [split; [by constructor|done]|]. rewrite Forall_cons, <- IH.
  destruct o as [c|]; cbn [citation_key bind]; [|split; [done|by intros ((? & ? & _) & _)]].
  case_bool_decide as Hk; cbn [check bind]; [|split; [done|by intros ((c' & [= <-] & Hin) & _)]].
  destruct (map_res _ cs); cbn; (split; [intros E; split; [by exists c|exact E]|by intros [_ E]]).
Qed.

(** What [Prepare] hands to its pipeline. *)
Definition request_of db (action : Handoff.Prepare) : hres (GenerationRequest V T) :=
  let* evidence := map_res (Resolve db) (p_evidence action) in
  NewGenerationRequest (p_objective action) evidence (p_maxBytes action).

(** C31: Whatever the generation pipeline answers, a draft that is prepared is a valid
    content with the objective of the action, which cites only evidence of the
    action and whose rendering fits the budget of the action; and it is the answer
    of the pipeline to the evidence that was resolved. *)
Theorem prepare_bounded s db action draft :
  HandoffService.Prepare s db action = Ok draft ->
  ValidateContent draft = Ok tt /\ objective draft = p_objective action /\
  cites_only (p_evidence action) draft /\
  (exists rendered, RenderContent draft = Ok rendered /\ len rendered <= p_maxBytes action <= MaxBytes) /\
  exists generate request, pipeline s = Some generate /\ request_of db action = Ok request /\ generate request = Ok draft.
Proof.
  unfold HandoffService.Prepare. intros H. bind_inv H. ok_inv. subst a3.
  unfold validateGeneratedDraft in Ha4. bind_inv Ha4. ok_inv. apply String.eqb_eq in Ha5.
  unfold RenderContent in Ha8. bind_inv Ha8. injection Ha8 as <-.
  split; [by eapply unit_result|]. split; [done|]. split; [|split].
  - pose proof (proj1 (check_evidence_spec _ _) (f_equal is_ok Ha7)) as Hf. rewrite Forall_forall in Hf.
    intros o Ho. destruct (Hf o Ho) as (c & -> & Hk). apply (allowed_keys_spec _ _ Ha6) in Hk as (e & He & Ek).
    exists c, e. split; [reflexivity|]. split; [exact He|by symmetry].
  - exists (json_indent false 0 (contentWire draft)). unfold RenderContent. rewrite Ha10. split; [reflexivity|]. apply Z.leb_le in Ha9. split; [exact Ha9|].
    unfold ValidatePrepare, validateBudget in Ha. bind_inv Ha. ok_inv. apply negb_true_iff, orb_false_iff in Ha13 as [_ Hb].
    apply Z.ltb_ge in Hb. done.
  - exists a0, a2. split; [done|]. split; [|done]. unfold request_of. by rewrite Ha1.
Qed.

Context {PR : Projected V T}.

(** C32: Whatever the model answers, a draft that is generated has the objective of the
    request and cites only evidence of the request; its statements are those of
    the answer, each citing what its identifiers stand for, each once. *)
Theorem generate_cites_request generator projector (request : GenerationRequest V T) draft :
  Generate generator projector request = Ok draft ->
  ValidateContent draft = Ok tt /\ objective draft = g_objective request /\
  (forall o, o ∈ allCitations draft -> exists e, Some e ∈ g_evidence request /\ o = Some (EvidenceCitation e)) /\
  exists input citations output,
    projectGenerationInput projector request = Ok (input, citations) /\ generator input = Ok output /\
    disposition draft = gx_disposition output /\
    Forall2 (fun value st => s_text st = gs_text value /\
               s_citations st = map (fun id => citations !! id) (firsts [] (gs_evidenceIDs value)))
      (gx_state output) (hstate draft).
Proof.
  intros H. apply Generate_spec in H as (input & citations & output & Hp & Hg & G).
  split; [apply (gen_valid _ _ _ _ G)|]. split; [apply (gen_objective _ _ _ _ G)|]. split.
  - intros o Ho. destruct (generated_citations _ _ _ _ G o Ho) as (c & id & -> & Hc).
    destruct (projected_citations _ _ _ _ Hp id c Hc) as (e & He & ->). by exists e.
  - exists input, citations, output. split; [done|]. split; [done|]. split; [apply (gen_disposition _ _ _ _ G)|].
    eapply Forall2_impl; [apply (gen_state _ _ _ _ G)|]. intros value st Hm.
    by apply mapGenerationStatement_spec in Hm as (H1 & H2 & _).
Qed.

Context {RL : EvidenceResolverLaws DB V T}.

Lemma resolved_citations db cs evidence e :
  map_res (Resolve db) cs = Ok evidence -> Some e ∈ evidence -> Some (EvidenceCitation e) ∈ cs.
Proof.
  intros H%map_res_Forall2 He. apply list_elem_of_lookup in He as [i Hi].
  destruct (Forall2_lookup_r _ _ _ _ _ H Hi) as (c & Hc & E). apply resolve_law in E as ->.
  by eapply list_elem_of_lookup_2.
Qed.

(** A draft that the model-backed pipeline makes from the evidence of an action
    passes the checks of the preparation of that action, the budget apart. *)
Theorem generated_draft_accepted generator projector db action request draft :
  ValidatePrepare action = Ok tt -> request_of db action = Ok request ->
  Generate generator projector request = Ok draft ->
  exists rendered, RenderContent draft = Ok rendered /\
    validateGeneratedDraft action draft =
      if len rendered <=? p_maxBytes action then Ok tt else Err (HInvalidGeneration "budget").
Proof.
  intros Ha Hr H. apply Generate_spec in H as (input & citations & output & Hp & _ & G).
  unfold request_of, NewGenerationRequest in Hr. bind_inv Hr. ok_inv. subst request.
  exists (json_indent false 0 (contentWire draft)).
  assert (Hrender : RenderContent draft = Ok (json_indent false 0 (contentWire draft)))
    by (unfold RenderContent; rewrite (gen_valid _ _ _ _ G); reflexivity).
  split; [exact Hrender|]. unfold validateGeneratedDraft. rewrite (gen_objective _ _ _ _ G), String.eqb_refl. cbn [check bind].
  unfold ValidatePrepare in Ha. bind_inv Ha.
  destruct (allowed_keys (p_evidence action)) as [allowed|] eqn:Ek.
  - cbn [bind]. pose proof (check_evidence_spec allowed (allCitations draft)) as Hc.
    destruct (map_res _ (allCitations draft)) as [us|e] eqn:Em; cbn [bind].
    + rewrite Hrender. cbn [bind]. destruct (len _ <=? p_maxBytes action); reflexivity.
    + exfalso. assert (Hf : is_ok (Err e : hres (list unit)) = true); [|discriminate].
      apply Hc, Forall_forall. intros o Ho. destruct (generated_citations _ _ _ _ G o Ho) as (c & id & -> & Hcit).
      destruct (projected_citations _ _ _ _ Hp id c Hcit) as (ev & He & ->). exists (EvidenceCitation ev). split; [reflexivity|].
      apply (allowed_keys_spec _ _ Ek). exists (EvidenceCitation ev). split; [|reflexivity]. by eapply resolved_citations.
  - exfalso. apply validate_loop_keys in Ha4 as (cs & E & _). rewrite E in Ek. unfold allowed_keys in Ek. clear -Ek.
    induction cs as [|c cs IH]; [done|]. cbn in Ek. destruct (map_res citation_key (map Some cs)); [done|]. by apply IH.
Qed.
End preparation.

(** ** Texts *)

Definition text_ok (t : string) : Prop := utf8_valid (bytes_of t) = true.

Definition utf8_ref (r : Ref) : Prop := text_ok (family r) /\ text_ok (artifactID r).
Definition utf8_citation (c : Citation) : Prop :=
  match c with
  | SourceCitation r => text_ok (Source.sourceType r) /\ text_ok (Source.sourceID r)
  | ArtifactCitation r => utf8_ref r
  | MemoryCitation m => utf8_ref (ci_MemoryRef m) /\ text_ok (ci_EntryID m) /\ text_ok (ci_EntryVersionID m)
  end.
Definition utf8_citations (cs : list (option Citation)) : Prop := forall c, Some c ∈ cs -> utf8_citation c.
Definition utf8_statement (s : Statement) : Prop := text_ok (s_text s) /\ utf8_citations (s_citations s).
Definition utf8_content (c : Content) : Prop :=
  text_ok (objective c) /\ Forall utf8_statement (statements c) /\
  Forall (fun o => text_ok (o_text o) /\ utf8_citations [o_citation o]) (omissions c).

Lemma clean_citation_id c : utf8_citation c -> clean_citation c = c.
Proof.
  unfold text_ok. destruct c as [[ty id]|[f id n]|[[f id n] e v]]; cbn -[clean_string];
    unfold clean_source, clean_ref, utf8_ref, text_ok; cbn -[clean_string].
  - intros [H1 H2]. by rewrite !clean_string_id.
  - intros [H1 H2]. by rewrite !clean_string_id.
  - intros ([H1 H2] & H3 & H4). by rewrite !clean_string_id.
Qed.

Lemma clean_citations_id cs : utf8_citations cs -> map (option_map clean_citation) cs = cs.
Proof.
  intros H. rewrite <- (map_id cs) at 2. apply map_ext_in. intros [c|] Hc; [|done]. cbn -[clean_citation]. f_equal.
  by apply clean_citation_id, H, list_elem_of_In.
Qed.

Lemma clean_statement_id s : utf8_statement s -> clean_statement s = s.
Proof. destruct s as [t cs]. intros [H1 H2]. unfold clean_statement. cbn -[clean_string] in *. by rewrite clean_string_id, clean_citations_id. Qed.

Lemma map_id_Forall {A} (P : A -> Prop) (f : A -> A) xs : (forall x, P x -> f x = x) -> Forall P xs -> map f xs = xs.
Proof. intros Hf. induction 1 as [|x xs Hx _ IH]; [done|]. cbn. by rewrite (Hf x Hx), IH. Qed.

Lemma clean_content_id c : utf8_content c -> clean_content c = c.
Proof.
  destruct c as [obj st d na os]. intros (H1 & [H2 H3]%Forall_app & H4). unfold clean_content. cbn -[clean_string] in *.
  rewrite clean_string_id, (map_id_Forall _ _ _ clean_statement_id H2) by done.
  rewrite (map_id_Forall (fun o => text_ok (o_text o) /\ utf8_citations [o_citation o]) clean_omission os); [|clear|done].
  - destruct na as [s|]; [|done]. cbn -[clean_statement]. cbn in H3. rewrite Forall_singleton in H3. by rewrite clean_statement_id.
  - intros [t o] [H1 H2]. unfold clean_omission. cbn -[clean_string clean_citation] in *. rewrite clean_string_id by done. apply clean_citations_id in H2.
    cbn -[clean_citation] in H2. by injection H2 as ->.
Qed.

(** The stored payload and the rendering of a content are both read back as that
    content, up to the replacement of invalid UTF-8, which keeps a content that
    is valid UTF-8. *)
Theorem handoff_text_roundtrip c :
  ValidateContent c = Ok tt -> machine_content c ->
  (exists payload, encodeHandoff c = Ok payload /\ decodeHandoff payload = Ok (clean_content c)) /\
  (exists rendered, RenderContent c = Ok rendered /\ decodeHandoff rendered = Ok (clean_content c)) /\
  (utf8_content c -> clean_content c = c).
Proof.
  intros Hv Hm. split; [|split; [|apply clean_content_id]].
  - eexists. split; [by apply encodeHandoff_wire|]. by eapply decode_encode; [apply encodeHandoff_wire|].
  - exists (json_indent false 0 (contentWire c)). split; [unfold RenderContent; by rewrite Hv|].
    apply decode_content_wire; [|done|done]. apply read_contentWire, json_indent_renders.
Qed.

(** ** Citation keys *)

(** Splitting at the first, and at the last, separator. *)
Lemma split_first {A} (sep : A) x x' y y' :
  sep ∉ x -> sep ∉ x' -> x ++ sep :: y = x' ++ sep :: y' -> x = x' /\ y = y'.
Proof.
  revert x'. induction x as [|a x IH]; intros [|a' x'] H H'; cbn; rewrite ?not_elem_of_cons in *; intros E.
  - by injection E.
  - injection E as -> _. by destruct H'.
  - injection E as <- _. by destruct H.
  - injection E as <- E. destruct H as [_ H], H' as [_ H']. by destruct (IH x' H H' E) as [-> ->].
Qed.

Lemma split_last {A} (sep : A) x x' y y' :
  sep ∉ y -> sep ∉ y' -> x ++ sep :: y = x' ++ sep :: y' -> x = x' /\ y = y'.
Proof.
  intros H H' E. apply (f_equal (@rev A)) in E. rewrite !rev_app_distr in E. cbn in E. rewrite <- !app_assoc in E. cbn in E.
  apply split_first in E as [E1 E2]; [|by rewrite list_elem_of_In, <- in_rev, <- list_elem_of_In..].
  apply (f_equal (@rev A)) in E1, E2. by rewrite !rev_involutive in E1, E2.
Qed.

Lemma bytes_app a b : bytes_of (a +:+ b) = bytes_of a ++ bytes_of b.
Proof.
  induction a as [|c a IH]; [done|]. change (bytes_of (String c a +:+ b)) with (c :: bytes_of (a +:+ b)). by rewrite IH.
Qed.

Lemma bytes_inj a b : bytes_of a = bytes_of b -> a = b.
Proof. intros E. apply (f_equal string_of) in E. by rewrite !string_of_list_ascii_of_string in E. Qed.

Definition without (c : ascii) (t : string) : Prop := c ∉ bytes_of t.
Definition NUL : ascii := ascii_of_nat 0.

(** The parts of a key that a separator ends do not contain it. *)
Definition plain_ref (r : Ref) : Prop := without ":" (family r) /\ 1 <= revision r.
Definition plain_citation (c : Citation) : Prop :=
  match c with
  | SourceCitation r => without NUL (Source.sourceType r)
  | ArtifactCitation r => plain_ref r
  | MemoryCitation m =>
      plain_ref (ci_MemoryRef m) /\ without NUL (family (ci_MemoryRef m)) /\
      without NUL (artifactID (ci_MemoryRef m)) /\ without NUL (ci_EntryID m)
  end.

Lemma pretty_without (z : Z) c : 1 <= z -> is_digit c = false -> c ∉ bytes_of (pretty z).
Proof.
  intros Hz Hc Hin. destruct z as [|p|p]; try lia. change (pretty (Z.pos p)) with (pretty (N.pos p)) in Hin.
  destruct (pretty_N_digits (N.pos p)) as [Hd _]. unfold digits in Hd. rewrite Forall_forall in Hd. by rewrite Hd in Hc.
Qed.

Lemma ref_string_inj r r' : plain_ref r -> plain_ref r' -> ref_string r = ref_string r' -> r = r'.
Proof.
  destruct r as [f i n], r' as [f' i' n']. intros [H1 H2] [H1' H2'] E. cbn in *. apply (f_equal bytes_of) in E.
  unfold ref_string in E. rewrite !bytes_app in E. cbn in E.
  apply split_first in E as [->%bytes_inj E]; [|done..].
  apply split_last in E as [->%bytes_inj E]; [|by apply pretty_without..].
  apply bytes_inj in E. apply (inj pretty) in E. by subst.
Qed.

Lemma ref_string_nul r :
  1 <= revision r -> without NUL (family r) -> without NUL (artifactID r) -> NUL ∉ bytes_of (ref_string r).
Proof.
  intros H1 H2 H3. unfold ref_string. rewrite !bytes_app. cbn. rewrite !elem_of_app, !elem_of_cons, !elem_of_app, !elem_of_cons.
  intros [H|[[=]|[H|[[=]|H]]]]; [done|done|]. by apply (pretty_without (revision r) NUL).
Qed.

(** The key of a citation identifies it, as long as no family contains a colon
    and no part but the last contains a NUL; without this, two valid citations of
    different Artifacts can share a key. *)
Theorem citation_keys :
  (forall c c', plain_citation c -> plain_citation c' -> citationKey c = citationKey c' -> c = c') /\
  exists c c', valid_citation c /\ valid_citation c' /\ c <> c' /\ citationKey c = citationKey c'.
Proof.
  split.
  - intros c c' H H' E. apply (f_equal bytes_of) in E. destruct c as [[ty id]|r|[r e v]], c' as [[ty' id']|r'|[r' e' v']];
      unfold citationKey, nul in E; rewrite !bytes_app in E; cbn -[ref_string] in E; try discriminate; cbn in H, H'.
    + injection E as E. apply split_first in E as [->%bytes_inj ->%bytes_inj]; done.
    + injection E as E. apply bytes_inj, ref_string_inj in E as ->; done.
    + injection E as E. destruct H as (Hr & H1 & H2 & H3), H' as (Hr' & H1' & H2' & H3').
      apply split_first in E as [Er%bytes_inj E]; [|apply ref_string_nul; [apply Hr|done..]|apply ref_string_nul; [apply Hr'|done..]].
      apply ref_string_inj in Er as ->; [|done..].
      apply split_first in E as [->%bytes_inj ->%bytes_inj]; done.
  - exists (ArtifactCitation (MkRef "a:b" "c" 1)), (ArtifactCitation (MkRef "a" "b:c" 1)).
    split; [by vm_compute|]. split; [by vm_compute|]. split; [discriminate|reflexivity].
Qed.

(** ** Witnesses

    The relational store of one scope, with one Source and no handoff yet. *)

Definition demo_codec : ArtifactCodec Tables AnyContent :=
  MkCodec Family [handoff_type]
    (fun value => if String.eqb (type_of value) handoff_type then project value ≫= (fun c => ok_option (encodeHandoff c)) else None)
    (fun _ payload =>
       match ok_option (decodeHandoff payload) with
       | None => tx_err (SPayload "content")
       | Some c => tx_ret (HandoffContent c)
       end)
    (fun _ r lineage payload =>
       match ok_option (decodeHandoff payload) with
       | None => tx_err (SPayload "content")
       | Some c => tx_lift (map_err SRef (Restore r (HandoffContent c) lineage))
       end).
Definition demo_repo : ArtifactRepository Tables AnyContent := {[ Family := demo_codec ]}.

Lemma demo_codec_ok : HandoffArtifactCodec = Ok demo_codec.
Proof. reflexivity. Qed.
Lemma demo_repo_ok : demo_repo !! Family = Some demo_codec.
Proof. reflexivity. Qed.

#[local] Instance demo_backend : HandoffBackend Session := sql_backend "team" demo_repo.
#[local] Instance demo_laws : HandoffBackendLaws Session := sql_laws "team" demo_repo demo_codec demo_codec_ok demo_repo_ok.

(** A resolver of the Sources of the scope. *)
#[local] Instance demo_resolver : EvidenceResolver Session string Ref := {
  Resolve db c :=
    match c with
    | Some (SourceCitation r) =>
        if bool_decide (("team"%string, r) ∈ t_sources (tables db))
        then Ok (Some (HandoffResolution.SourceEvidence r (Some (Source.sourceID r)))) else Err HEvidenceUnavailable
    | Some _ => Err HEvidenceUnavailable
    | None => Err HNil
    end;
  ValidateCitation db c :=
    match c with
    | Some (SourceCitation r) =>
        if bool_decide (("team"%string, r) ∈ t_sources (tables db)) then Ok tt else Err HEvidenceUnavailable
    | Some _ => Err HEvidenceUnavailable
    | None => Err HNil
    end
}.

#[local] Instance demo_resolver_laws : EvidenceResolverLaws Session string Ref.
Proof.
  split. intros db c e. cbn. destruct c as [[r| |]|]; try done. case_bool_decide; [|done]. by intros [= <-].
Qed.

#[local] Instance demo_projected : Projected string Ref := {
  content_text name := name; content_metadata _ := JObj []; text_evidence _ := Err EUnacceptedObservation;
  content_value _ := JNull
}.

Definition demo_tables : Tables := MkTables {[ ("team"%string, demo_source) ]} ∅ ∅ ∅ ∅.
Definition demo_db : Session := MkSession demo_tables [].
Definition demo_draft : Content :=
  MkContent "ship the release" [MkStatement "the build is green" [Some (SourceCitation demo_source)]] Continuable None
            [MkOmission "old logs" None].
Definition demo_other : Content :=
  MkContent "ship the release" [MkStatement "the build is red" [Some (SourceCitation demo_source)]] Blocked None [].
Definition demo_prepared : Prepared := MkPrepared "team" None demo_draft.

(** A model that cites the one evidence twice. *)
Definition demo_generator (input : GenerationInput) : hres GenerationOutput :=
  Ok (MkGenerationOutput [NewGenerationStatement "the build is green" ["source:0"; "source:0"]%string] Continuable None []).
Definition demo_service : HandoffService.Service string Ref :=
  HandoffService.MkService "team" "release" (Some (Generate demo_generator DefaultHandoffProjector)).
Definition demo_action : Handoff.Prepare := MkPrepare "ship the release" [Some (SourceCitation demo_source)] 4096.

Lemma demo_db_ok : store_valid "team" (tables demo_db).
Proof.
  split; [split|].
  - split; intros sc r i [v Hv]; cbn in Hv; by rewrite lookup_empty in Hv.
  - intros sc fam id. cbn. rewrite lookup_empty. intros rev. by rewrite lookup_empty.
  - intros r payload _. cbn. by rewrite lookup_empty.
Qed.

(** The first commit, and one by another writer from the same base. *)
Definition demo_commit := Commit demo_service demo_db demo_db demo_prepared.
Definition demo_db2 : Session := snd demo_commit.
Definition demo_commit2 := Commit demo_service demo_db demo_db2 (MkPrepared "team" None demo_other).

Lemma commit_appends_witness :
  is_ok (fst demo_commit) = true /\
  store_ok demo_db2 /\ history demo_db2 "other" = history demo_db "other".
Proof.
  split; [vm_compute; reflexivity|].
  destruct (commit_appends demo_service demo_db demo_db demo_prepared (fst demo_commit) demo_db2) as (H1 & H2 & _);
    [exact demo_db_ok|exact demo_db_ok|apply surjective_pairing|].
  split; [exact H1|]. apply (H2 "other"%string). discriminate.
Defined.

Lemma same_base_appends_once_witness :
  is_ok (fst demo_commit) = true /\ is_ok (fst demo_commit2) = false /\
  (length (history (snd demo_commit2) "release") <= 1 + length (history demo_db "release"))%nat.
Proof.
  split; [vm_compute; reflexivity|]. split; [vm_compute; reflexivity|].
  apply (same_base_appends_once demo_service demo_db demo_db demo_db demo_prepared (MkPrepared "team" None demo_other)
           (fst demo_commit) (fst demo_commit2) demo_db2);
    [exact demo_db_ok..|reflexivity|apply surjective_pairing|apply surjective_pairing].
Defined.

(** A commit keeps the store valid: the general lemma at this input. *)
Lemma demo_db2_ok : store_valid "team" (tables demo_db2).
Proof.
  destruct (commit_spec demo_service demo_db demo_db demo_prepared (fst demo_commit) demo_db2) as (H & _);
    [exact demo_db_ok|exact demo_db_ok|apply surjective_pairing|exact H].
Qed.

(** The store when the Source is gone from it. *)
Definition demo_gone : Session :=
  let t := tables demo_db2 in
  MkSession (MkTables ∅ (t_artifacts t) (t_heads t) (t_lineage_sources t) (t_lineage_artifacts t)) [].

Lemma demo_gone_ok : store_valid "team" (tables demo_gone).
Proof.
  destruct demo_db2_ok as [[H1 H2] H3]. split; [split|]; [exact H1|exact H2|exact H3].
Qed.

Definition demo_latest : hres Resolution := continue_with demo_service demo_gone FromLatest.

Lemma continuation_faithful_witness :
  exists r, demo_latest = Ok r /\ map status (r_checks r) = [EvidenceUnavailable] /\
    r_current r = option_map a_ref (last (history demo_gone "release")).
Proof.
  destruct demo_latest as [r|] eqn:E; [|vm_compute in E; discriminate]. exists r. split; [reflexivity|]. split.
  - vm_compute in E. injection E as <-. reflexivity.
  - destruct (continuation_faithful (L := demo_laws) demo_service demo_gone FromLatest r demo_gone_ok E) as [(_ & H & _)|(c & sel & selected & _ & _ & _ & _ & _ & H)];
      [vm_compute in H; discriminate|exact H].
Defined.

Lemma continuation_total_witness : exists r, continue_with demo_service demo_gone FromLatest = Ok r.
Proof.
  apply (continuation_total (L := demo_laws) demo_service demo_gone FromLatest demo_gone_ok); [vm_compute; reflexivity|exact I|].
  intros c sel selected x (_ & h & Hh & _ & ->) Hx. right. vm_compute in Hh. injection Hh as <-.
  rewrite list_elem_of_In in Hx. vm_compute in Hx. destruct Hx as [[= <-]|[]]. vm_compute. reflexivity.
Defined.

Definition demo_finalized : hres Prepared := Finalize demo_service demo_db demo_draft.

Lemma handoff_round_trip_witness :
  demo_finalized = Ok demo_prepared /\
  exists h r, fst demo_commit = Ok h /\ ContinueLatest demo_service demo_db2 = Ok r /\
    r_content r = Some demo_draft /\ r_selected r = Some (a_ref h).
Proof.
  split; [vm_compute; reflexivity|].
  destruct (fst demo_commit) as [h|] eqn:Eh; [|vm_compute in Eh; discriminate].
  destruct (ContinueLatest demo_service demo_db2) as [r|] eqn:Er; [|vm_compute in Er; discriminate].
  exists h, r. split; [reflexivity|]. split; [reflexivity|].
  destruct (handoff_round_trip demo_service demo_db demo_draft demo_prepared h demo_db2 r) as (H1 & _ & (_ & _ & H2 & _) & _);
    [exact demo_db_ok|vm_compute; reflexivity|vm_compute; reflexivity|rewrite <- Eh; apply surjective_pairing|exact Er|].
  split; [exact H2|exact H1].
Defined.

Lemma prepare_bounded_witness :
  exists draft, HandoffService.Prepare demo_service demo_db demo_action = Ok draft /\ cites_only (p_evidence demo_action) draft.
Proof.
  destruct (HandoffService.Prepare demo_service demo_db demo_action) as [draft|] eqn:E; [|vm_compute in E; discriminate].
  exists draft. split; [reflexivity|]. by destruct (prepare_bounded demo_service demo_db demo_action draft E) as (_ & _ & H & _).
Defined.

Definition demo_request : GenerationRequest string Ref :=
  MkGenerationRequest "ship the release" [Some (HandoffResolution.SourceEvidence demo_source (Some "notes"%string))] 4096.

Lemma generate_cites_request_witness :
  exists draft, Generate demo_generator DefaultHandoffProjector demo_request = Ok draft /\
    forall o, o ∈ allCitations draft -> exists e, Some e ∈ g_evidence demo_request /\ (o = Some (EvidenceCitation e)).
Proof.
  destruct (Generate demo_generator DefaultHandoffProjector demo_request) as [draft|] eqn:E; [|vm_compute in E; discriminate].
  exists draft. split; [reflexivity|].
  by destruct (generate_cites_request demo_generator DefaultHandoffProjector demo_request draft E) as (_ & _ & H & _).
Defined.

Lemma generated_draft_accepted_witness :
  exists draft rendered, Generate demo_generator DefaultHandoffProjector demo_request = Ok draft /\
    RenderContent draft = Ok rendered /\
    validateGeneratedDraft demo_action draft = (if len rendered <=? 4096 then Ok tt else Err (HInvalidGeneration "budget")).
Proof.
  destruct (Generate demo_generator DefaultHandoffProjector demo_request) as [draft|] eqn:E; [|vm_compute in E; discriminate].
  destruct (generated_draft_accepted demo_generator DefaultHandoffProjector demo_db demo_action demo_request draft)
    as (rendered & H1 & H2); [vm_compute; reflexivity|vm_compute; reflexivity|exact E|].
  exists draft, rendered. split; [reflexivity|]. split; [exact H1|exact H2].
Defined.

Lemma handoff_text_roundtrip_witness :
  exists payload, encodeHandoff demo_draft = Ok payload /\ decodeHandoff payload = Ok (clean_content demo_draft).
Proof.
  apply (handoff_text_roundtrip demo_draft); [vm_compute; reflexivity|].
  split; [|split; [exact I|]]; repeat (apply Forall_cons; split); try apply Forall_nil; try exact I.
  all: intros c Hc; rewrite list_elem_of_In in Hc; cbn in Hc; destruct Hc as [Hc|[]]; try discriminate; injection Hc as <-; exact I.
Defined.

(** The activation store of the scope: Sources and cursors, without observations. *)
Definition demo_activation_db : SessionOf (SourceTables * CursorRows) := MkSession (demo_journal, ∅) [].

#[local] Instance demo_activation_backend : ActivationBackend (SessionOf (SourceTables * CursorRows)) :=
  sql_activation demo_sources.
#[local] Instance demo_activation_laws : ActivationBackendLaws (SessionOf (SourceTables * CursorRows)) :=
  sql_activation_laws demo_sources.

Lemma demo_activation_ok : boundary_ok demo_activation_db.
Proof. split; [exact demo_journal_ok|]. intros k payload g H. cbn in H. by rewrite lookup_empty in H. Qed.

Definition demo_activate : Handoff.Activate := MkActivate demo_source "ship the release" [] 4096.
Definition demo_services (scope : string) : hres (HandoffService.Service string Ref) := Ok demo_service.
Definition demo_activated := Activate demo_services demo_db demo_activation_db demo_activation_db "team" demo_activate.

Lemma boundary_at_most_once_witness :
  exists w, reachable demo_services "team" demo_activation_db w /\ w_log w = [1] /\ StronglySorted Z.lt (w_log w).
Proof.
  exists (MkWorld (snd demo_activated) [demo_activation_db] (generated_position (fst demo_activated))).
  assert (Hr : reachable demo_services "team" demo_activation_db
                 (MkWorld (snd demo_activated) [demo_activation_db] (generated_position (fst demo_activated)))).
  { eapply reach_step; [eapply reach_step; [apply reach_start|apply step_read]|].
    apply (step_activate demo_services "team" (MkWorld demo_activation_db [demo_activation_db] []) demo_activation_db demo_db demo_activate);
      [left|apply surjective_pairing]. }
  split; [exact Hr|]. split; [vm_compute; reflexivity|].
  apply (boundary_at_most_once demo_services "team" demo_activation_db _ demo_activation_ok Hr).
Defined.

Lemma activation_progress_witness :
  exists draft, is_ok (fst demo_activated) = true /\
    fst demo_activated = Ok (MkActivation ActivationGenerated demo_source 0 1 (Some draft)).
Proof.
  destruct (HandoffService.Prepare demo_service demo_db (MkPrepare "ship the release" [Some (SourceCitation demo_source)] 4096)) as [draft|] eqn:Ed;
    [|vm_compute in Ed; discriminate].
  exists draft. split; [vm_compute; reflexivity|].
  pose proof (activation_progress demo_services "team" demo_db demo_activation_db demo_activate 1 (NewCursor 0) None demo_activation_ok) as H.
  cbv zeta in H. change (1 <=? Sequence (NewCursor 0)) with false in H. cbv iota in H.
  specialize (H ltac:(vm_compute; reflexivity) ltac:(done) ltac:(done) ltac:(vm_compute; reflexivity) draft Ed).
  destruct (SaveBoundary demo_activation_db "team" HandoffBoundaryName (NewCursor 1) None) as [saved st'] eqn:Es.
  unfold demo_activated. rewrite H. destruct saved as [u|e]; [reflexivity|vm_compute in Es; discriminate].
Defined.
