(* ===== verification/ContextPackFacts.v ===== *)
(** * Prepared contexts: facts

    Truncation, the size of a rendering as a function of one entry's content,
    the binary search, and the invariant of the fitting loop. *)

From S2P Require Import Prelude.
From S2P Require Import GoStrings.
From S2P Require Import Refs.
From S2P Require Import Json.
From S2P Require Import MemoryModel.
From S2P Require Import ContextPack.

(** ** Valid UTF-8 and concatenation *)

Lemma decode_rune_good a u more :
  rune_bad (decode_rune a u) = false -> decode_rune a (u ++ more) = decode_rune a u.
Proof.
  unfold decode_rune. destruct (lead_size a) as [|[|[|[|[|k]]]]]; try done;
    destruct u as [|u1 [|u2 [|u3 u]]]; done.
Qed.

Lemma runes_app_valid a b : utf8_valid a = true -> runes (a ++ b) = runes a ++ runes b.
Proof.
  unfold utf8_valid. induction a as [|x r1 t rest Ht Hr Hc IH] using runes_ind; [done|].
  rewrite Hc. cbn [forallb]. intros H. boolify.
  destruct (decode_rune_bytes x (r1 ++ b)) as (t' & Ht' & _ & Hc').
  rewrite decode_rune_good in Ht', Hc' by done. rewrite Ht in Ht'. injection Ht' as <-.
  change ((x :: r1) ++ b) with (x :: (r1 ++ b)). rewrite Hc'. cbn [app]. f_equal.
  rewrite Hr at 1. rewrite <- app_assoc, drop_app_length. by apply IH.
Qed.

Lemma utf8_valid_app a b : utf8_valid a = true -> utf8_valid (a ++ b) = utf8_valid b.
Proof.
  intros H. unfold utf8_valid in *. rewrite runes_app_valid by done. by rewrite forallb_app, H.
Qed.

(** ** Truncation *)

Lemma valid_cut_spec n text :
  exists k, (k <= n)%nat /\ valid_cut n text = take k text /\ utf8_valid (take k text) = true /\
    forall m, (m <= n)%nat -> utf8_valid (take m text) = true -> (m <= k)%nat.
Proof.
  induction n as [|n IH]; cbn [valid_cut].
  - destruct (utf8_valid (take 0 text)); exists 0%nat; (split; [lia|]); by repeat split.
  - destruct (utf8_valid (take (S n) text)) eqn:E.
    + exists (S n). split; [lia|]. split; [done|]. split; [done|]. intros m Hm _. exact Hm.
    + destruct IH as (k & H1 & H2 & H3 & H4). exists k. split; [lia|]. split; [done|]. split; [done|].
      intros m Hm Hv. destruct (decide (m = S n)) as [->|]; [congruence|]. apply H4; [lia|done].
Qed.

(** The kept prefix of [truncateUTF8]: the longest valid one within the budget. *)
Definition kept (text : string) (budget : Z) : bytes :=
  valid_cut (Nat.min (Z.to_nat (budget - 3)) (length (bytes_of text))) (bytes_of text).

Lemma truncate_kept text b : bytes_of (truncateUTF8 text b) = kept text b ++ ellipsis.
Proof. unfold truncateUTF8, kept. by rewrite list_ascii_of_string_of_list_ascii. Qed.

Lemma kept_spec text b :
  exists k, kept text b = take k (bytes_of text) /\ (k <= Z.to_nat (b - 3))%nat /\
    (k <= length (bytes_of text))%nat /\ utf8_valid (kept text b) = true /\
    forall m, (m <= Z.to_nat (b - 3))%nat -> (m <= length (bytes_of text))%nat ->
      utf8_valid (take m (bytes_of text)) = true -> (m <= k)%nat.
Proof.
  destruct (valid_cut_spec (Nat.min (Z.to_nat (b - 3)) (length (bytes_of text))) (bytes_of text))
    as (k & H1 & H2 & H3 & H4).
  exists k. unfold kept. rewrite H2. repeat split; try lia; auto.
  intros m Hm Hl Hv. apply H4; [lia|done].
Qed.

(** A larger budget keeps an extension. *)
Lemma kept_mono text b b' :
  b <= b' -> exists t, kept text b' = kept text b ++ t.
Proof.
  intros H. destruct (kept_spec text b) as (k & E & K1 & K2 & K3 & _).
  destruct (kept_spec text b') as (k' & E' & _ & K2' & _ & K4').
  assert (Hk : (k <= k')%nat). { apply K4'; [lia|done|]. by rewrite <- E. }
  exists (drop k (take k' (bytes_of text))). rewrite E, E'.
  rewrite <- (take_drop k (take k' (bytes_of text))) at 1. by rewrite take_take, Nat.min_l by lia.
Qed.

Lemma byte_len_bytes s : byte_len s = Z.of_nat (length (bytes_of s)).
Proof. unfold byte_len. by rewrite length_bytes_of. Qed.

Lemma truncate_length_mono text b b' :
  b <= b' -> byte_len (truncateUTF8 text b) <= byte_len (truncateUTF8 text b').
Proof.
  intros H. rewrite !byte_len_bytes, !truncate_kept. destruct (kept_mono text b b' H) as [t ->].
  rewrite !length_app. lia.
Qed.

Lemma truncate_length text b : byte_len (truncateUTF8 text b) <= Z.max 3 b.
Proof.
  rewrite byte_len_bytes, truncate_kept. destruct (kept_spec text b) as (k & E & K1 & _).
  rewrite length_app, E, length_take. cbn [length ellipsis]. lia.
Qed.

(** ** The size of a rendering *)

Definition json_size (s : string) : Z := Z.of_nat (length (json_string false false s)).

Definition runes_size (rs : list rune) : Z :=
  Z.of_nat (length (concat (map (json_rune false false) rs))).

Lemma json_size_runes s : json_size s = runes_size (runes (bytes_of s)) + 2.
Proof. unfold json_size, json_string, runes_size. cbn [length]. rewrite length_app. cbn [length]. lia. Qed.

Lemma runes_size_app a b : runes_size (a ++ b) = runes_size a + runes_size b.
Proof. unfold runes_size. rewrite map_app, concat_app, length_app. lia. Qed.

Lemma truncate_size_mono text b b' :
  b <= b' -> json_size (truncateUTF8 text b) <= json_size (truncateUTF8 text b').
Proof.
  intros H. destruct (kept_mono text b b' H) as [t Ht].
  destruct (kept_spec text b) as (_ & _ & _ & _ & V & _).
  destruct (kept_spec text b') as (_ & _ & _ & _ & V' & _).
  rewrite !json_size_runes, !truncate_kept, !(runes_app_valid _ ellipsis) by done.
  rewrite Ht, runes_app_valid, !runes_size_app by done.
  assert (0 <= runes_size (runes t)) by (unfold runes_size; lia). lia.
Qed.

Lemma render_reference entries :
  render entries = frame (json_bytes false false (envelope entries)).
Proof. unfold render. by rewrite (unescape_lexed _ _ (json_bytes_lexed (envelope entries) false)). Qed.

Lemma sep_by_snoc sep xs x :
  Z.of_nat (length (sep_by sep (xs ++ [x]))) =
  Z.of_nat (length (sep_by sep xs)) + (if decide (xs = []) then 0 else 1) + Z.of_nat (length x).
Proof.
  induction xs as [|y xs IH]; [rewrite decide_True by done; cbn; lia|].
  rewrite decide_False by done. destruct xs as [|z xs].
  - cbn [app sep_by]. rewrite length_app. cbn [length]. lia.
  - rewrite decide_False in IH by done.
    change (sep_by sep ((y :: z :: xs) ++ [x])) with (y ++ sep :: sep_by sep ((z :: xs) ++ [x])).
    change (sep_by sep (y :: z :: xs)) with (y ++ sep :: sep_by sep (z :: xs)).
    rewrite !length_app. cbn [length]. lia.
Qed.

Definition entry_bytes (e : entry) : bytes := json_bytes false false (entry_json e).

Lemma entry_bytes_content e c c' :
  Z.of_nat (length (entry_bytes (set_content c true e))) - json_size c =
  Z.of_nat (length (entry_bytes (set_content c' true e))) - json_size c'.
Proof.
  unfold entry_bytes, entry_json, json_size. cbn [e_kind e_content e_truncated e_origin set_content].
  destruct (String.eqb (e_kind e) "memory"); cbn [app json_bytes map sep_by fst snd];
    repeat first [rewrite length_app | progress cbn [length app]]; lia.
Qed.

(** The text around the items. *)
Definition envelope_size : Z :=
  Z.of_nat (length (json_bytes false false (envelope []))).

Lemma envelope_length es :
  Z.of_nat (length (json_bytes false false (envelope es))) =
  envelope_size + Z.of_nat (length (sep_by comma (map entry_bytes es))).
Proof.
  unfold envelope_size, envelope. cbn [json_bytes map sep_by fst snd]. rewrite map_map.
  change (map (fun x => json_bytes false false (entry_json x)) es) with (map entry_bytes es).
  repeat first [rewrite length_app | progress cbn [length app]]. lia.
Qed.

(** Changing the last entry's content changes the size by the difference of the
    contents' encodings. *)
Lemma rendered_content current e c c' :
  renderedBytes (current ++ [set_content c true e]) - json_size c =
  renderedBytes (current ++ [set_content c' true e]) - json_size c'.
Proof.
  unfold renderedBytes. rewrite !render_reference. unfold frame.
  pose proof (entry_bytes_content e c c') as He.
  pose proof (envelope_length (current ++ [set_content c true e])) as H1.
  pose proof (envelope_length (current ++ [set_content c' true e])) as H2.
  rewrite map_app in H1, H2. cbn [map] in H1, H2. rewrite sep_by_snoc in H1, H2.
  rewrite !length_app. lia.
Qed.

(** ** The binary search *)

Section search.
Variables (current : list entry) (candidate : entry) (text : string) (limit : Z).

Definition attempt (b : Z) : entry := set_content (truncateUTF8 text b) true candidate.
Definition long_enough (b : Z) : Prop := minTruncatedContentBytes <= byte_len (truncateUTF8 text b).
Definition fits (b : Z) : Prop := renderedBytes (current ++ [attempt b]) <= limit.

Lemma fits_mono b b' : b <= b' -> fits b' -> fits b.
Proof.
  unfold fits, attempt. intros H Hf.
  pose proof (rendered_content current candidate (truncateUTF8 text b) (truncateUTF8 text b')) as E.
  pose proof (truncate_size_mono text b b' H). lia.
Qed.

Lemma long_mono b b' : b <= b' -> long_enough b -> long_enough b'.
Proof. unfold long_enough. intros H. pose proof (truncate_length_mono text b b' H). lia. Qed.

(** Among the budgets of [lo..hi], the result is the attempt with the longest
    content that is long enough and fits. *)
Definition best_of (lo hi : Z) (r : option entry) : Prop :=
  match r with
  | Some e => exists b, lo <= b <= hi /\ e = attempt b /\ long_enough b /\ fits b /\
      forall b', lo <= b' <= hi -> fits b' -> byte_len (truncateUTF8 text b') <= byte_len (e_content e)
  | None => forall b, lo <= b <= hi -> long_enough b -> ~ fits b
  end.

Lemma best_extend lo mid hi r :
  mid <= hi -> (forall b, mid < b <= hi -> ~ fits b) -> best_of lo mid r -> best_of lo hi r.
Proof.
  intros Hm Habove H. destruct r as [e|]; cbn in *.
  - destruct H as (b & Hb & -> & Hl & Hfit & Hmax). exists b. repeat split; auto; [lia..|].
    intros b' Hb' Hf'. destruct (Z.le_gt_cases b' mid); [by apply Hmax; [lia|]|].
    exfalso. by apply (Habove b'); [lia|].
  - intros b Hb Hl Hf'. destruct (Z.le_gt_cases b mid); [by apply (H b); [lia|..]|].
    by apply (Habove b); [lia|].
Qed.

Lemma best_short lo lower mid r :
  lower <= mid + 1 -> ~ long_enough mid -> best_of lo (lower - 1) r -> best_of lo mid r.
Proof.
  intros Hm Hs H. destruct r as [e|]; cbn in *.
  - destruct H as (b & Hb & -> & Hl & Hfit & Hmax). exists b. repeat split; auto; [lia..|].
    intros b' Hb' Hf'. destruct (Z.lt_ge_cases b' lower); [by apply Hmax; [lia|]|].
    pose proof (truncate_length_mono text b' mid ltac:(lia)).
    unfold long_enough, attempt in *. cbn. lia.
  - intros b Hb Hl. destruct (Z.lt_ge_cases b lower); [by apply H; [lia|]|].
    exfalso. apply Hs. by apply (long_mono b); [lia|].
Qed.

Lemma best_found lo mid : lo <= mid -> long_enough mid -> fits mid -> best_of lo mid (Some (attempt mid)).
Proof.
  intros Hlo Hl Hf. exists mid. repeat split; auto; [lia..|].
  intros b' Hb' _. apply truncate_length_mono. lia.
Qed.

Lemma search_best fuel lo hi : forall lower upper best,
  (Z.to_nat (upper - lower + 1) <= fuel)%nat -> lo <= lower -> upper <= hi -> lower <= upper + 1 ->
  (forall b, upper < b <= hi -> ~ fits b) ->
  best_of lo (lower - 1) best ->
  best_of lo hi (search fuel current candidate text limit lower upper best).
Proof.
  induction fuel as [|fuel IH]; intros lower upper best Hf Hlo Hhi Hlu Habove Hbest; cbn [search].
  - assert (lower = upper + 1) as -> by lia. replace (upper + 1 - 1) with upper in Hbest by lia.
    by eapply best_extend.
  - destruct (Z.ltb_spec upper lower) as [Hlt|Hge].
    { assert (lower = upper + 1) as -> by lia. replace (upper + 1 - 1) with upper in Hbest by lia.
      by eapply best_extend. }
    cbv zeta. set (mid := (lower + upper) / 2).
    assert (Hmid : lower <= mid <= upper) by (unfold mid; Z.to_euclidean_division_equations; lia).
    change (set_content (truncateUTF8 text mid) true candidate) with (attempt mid).
    change (e_content (attempt mid)) with (truncateUTF8 text mid).
    destruct (Z.ltb_spec (byte_len (truncateUTF8 text mid)) minTruncatedContentBytes) as [Hs|Hs].
    + apply IH; try lia; [done|]. replace (mid + 1 - 1) with mid by lia.
      apply (best_short lo lower); [lia|unfold long_enough; lia|done].
    + destruct (Z.leb_spec (renderedBytes (current ++ [attempt mid])) limit) as [Hfit|Hfit].
      * apply IH; try lia; [done|]. replace (mid + 1 - 1) with mid by lia.
        apply best_found; [lia|exact Hs|exact Hfit].
      * apply IH; try lia; [|done]. intros b Hb Hfb.
        assert (fits mid) by (apply (fits_mono mid b); [lia|done]). unfold fits in *. lia.
Qed.
End search.

(** ** Fitting one entry *)

(** The untruncated or budget-truncated form that is tried first. *)
Definition first_try (e : entry) : entry :=
  let text := e_content e in
  if MaxEntryContentBytes <? byte_len text then set_content (truncateUTF8 text MaxEntryContentBytes) true e
  else set_content text false e.

Lemma fitEntry_cases current e limit :
  fitEntry current e limit =
  if renderedBytes (current ++ [first_try e]) <=? limit then Some (first_try e)
  else if byte_len (e_content e) <? minTruncatedContentBytes then None
  else search (Z.to_nat (Z.min MaxEntryContentBytes (byte_len (e_content e) - 1) - 63)) current (first_try e)
         (e_content e) limit minTruncatedContentBytes (Z.min MaxEntryContentBytes (byte_len (e_content e) - 1)) None.
Proof.
  unfold fitEntry, first_try, minTruncatedContentBytes, MaxEntryContentBytes. cbv zeta.
  set (n := byte_len (e_content e)).
  assert (E1 : (Z.min n 2000 <? n) = (2000 <? n)) by (destruct (Z.ltb_spec 2000 n), (Z.ltb_spec (Z.min n 2000) n); lia).
  assert (E2 : Z.min (Z.min n 2000) (n - 1) = Z.min 2000 (n - 1)) by lia.
  rewrite E1, E2. replace (Z.min 2000 (n - 1) - 64 + 1) with (Z.min 2000 (n - 1) - 63) by lia.
  destruct (Z.ltb_spec 2000 n) as [H|H]; [|done]. by replace (Z.min n 2000) with 2000 by lia.
Qed.

(** What a fitted entry is: the candidate, whole or truncated, within the limit. *)
Definition fitted (current : list entry) (e : entry) (limit : Z) (r : entry) : Prop :=
  e_origin r = e_origin e /\ e_kind r = e_kind e /\ renderedBytes (current ++ [r]) <= limit /\
  ((r = set_content (e_content e) false e /\ byte_len (e_content e) <= MaxEntryContentBytes) \/
   exists b, b <= MaxEntryContentBytes /\ b <= byte_len (e_content e) /\
     r = set_content (truncateUTF8 (e_content e) b) true e).

Lemma set_content_first e c : set_content c true (first_try e) = set_content c true e.
Proof. unfold first_try. by case_match. Qed.

Lemma fitEntry_fitted current e limit r :
  fitEntry current e limit = Some r -> fitted current e limit r.
Proof.
  rewrite fitEntry_cases.
  destruct (Z.leb_spec (renderedBytes (current ++ [first_try e])) limit) as [Hf|Hf].
  - intros [= <-]. unfold fitted. unfold first_try in *.
    destruct (Z.ltb_spec MaxEntryContentBytes (byte_len (e_content e))).
    + repeat split; auto. right. exists MaxEntryContentBytes. repeat split; lia.
    + repeat split; auto.
  - destruct (Z.ltb_spec (byte_len (e_content e)) minTruncatedContentBytes) as [Hs|Hs]; [done|].
    set (hi := Z.min _ _). intros H.
    destruct (Z.lt_ge_cases hi minTruncatedContentBytes) as [Hlow|Hlow].
    { replace (Z.to_nat (hi - 63)) with 0%nat in H by (unfold minTruncatedContentBytes in *; lia). done. }
    pose proof (search_best current (first_try e) (e_content e) limit (Z.to_nat (hi - 63))
      minTruncatedContentBytes hi minTruncatedContentBytes hi None) as HB.
    rewrite H in HB. destruct HB as (b & Hb & -> & _ & Hfit & _);
      try (unfold minTruncatedContentBytes in *; lia); try (intros; lia).
    { intros b Hb. unfold minTruncatedContentBytes in *. lia. }
    unfold attempt in *. rewrite set_content_first in *. unfold fitted. unfold fits, attempt in Hfit.
    rewrite set_content_first in Hfit.
    repeat split; auto. right. exists b. unfold hi in *. repeat split; lia.
Qed.

Lemma fitEntry_best current e limit :
  limit < renderedBytes (current ++ [first_try e]) ->
  minTruncatedContentBytes <= byte_len (e_content e) ->
  best_of current e (e_content e) limit minTruncatedContentBytes
    (Z.min MaxEntryContentBytes (byte_len (e_content e) - 1)) (fitEntry current e limit).
Proof.
  intros Hf Hs. rewrite fitEntry_cases.
  destruct (Z.leb_spec (renderedBytes (current ++ [first_try e])) limit); [lia|].
  destruct (Z.ltb_spec (byte_len (e_content e)) minTruncatedContentBytes); [lia|].
  set (hi := Z.min _ _). set (n := Z.to_nat (hi - 63)).
  assert (HB : best_of current (first_try e) (e_content e) limit minTruncatedContentBytes hi
    (search n current (first_try e) (e_content e) limit minTruncatedContentBytes hi None)).
  { unfold minTruncatedContentBytes in *. destruct (Z.lt_ge_cases hi 63).
    - replace n with 0%nat by lia. cbn. intros b Hb. lia.
    - apply search_best; try lia; intros b Hb; lia. }
  revert HB. unfold best_of, attempt, fits, attempt.
  destruct (search _ _ _ _ _ _ _ _) as [r|].
  - intros (b & Hb & Hr & Hl & Hfit & Hmax). rewrite set_content_first in Hr, Hfit.
    exists b. split; [exact Hb|]. split; [exact Hr|]. split; [exact Hl|]. split; [exact Hfit|].
    intros b' Hb' Hf'. apply (Hmax b' Hb'). rewrite set_content_first. exact Hf'.
  - intros HN b Hb Hl Hf'. apply (HN b Hb Hl). rewrite set_content_first. exact Hf'.
Qed.

(** *** What an entry may become

    It is used whole, or cut to 2000 bytes when it is longer; or it is cut to fewer
    bytes, when at least 64 are left. *)
Inductive entry_form (e : entry) : entry -> Prop :=
| form_whole : byte_len (e_content e) <= MaxEntryContentBytes -> entry_form e (set_content (e_content e) false e)
| form_capped :
    MaxEntryContentBytes < byte_len (e_content e) -> entry_form e (set_content (truncateUTF8 (e_content e) MaxEntryContentBytes) true e)
| form_cut b :
    minTruncatedContentBytes <= b <= MaxEntryContentBytes -> b < byte_len (e_content e) ->
    minTruncatedContentBytes <= byte_len (truncateUTF8 (e_content e) b) ->
    entry_form e (set_content (truncateUTF8 (e_content e) b) true e).

(** After [current], no form of the entry is within the limit. *)
Definition nothing_fits (limit : Z) (current : list entry) (e : entry) : Prop :=
  forall r, entry_form e r -> limit < renderedBytes (current ++ [r]).

(** The form with the longest content of those within the limit. *)
Record best_fit (limit : Z) (current : list entry) (e r : entry) : Prop := {
  bf_form : entry_form e r;
  bf_fits : renderedBytes (current ++ [r]) <= limit;
  bf_longest r' : entry_form e r' -> renderedBytes (current ++ [r']) <= limit -> byte_len (e_content r') <= byte_len (e_content r)
}.

Lemma first_try_form e : entry_form e (first_try e).
Proof. unfold first_try. destruct (Z.ltb_spec MaxEntryContentBytes (byte_len (e_content e))); by constructor. Qed.

Lemma form_shorter e r : entry_form e r -> byte_len (e_content r) <= byte_len (e_content (first_try e)).
Proof.
  intros H. unfold first_try. destruct H as [H|H|b H1 H2 _]; cbn.
  - by rewrite (proj2 (Z.ltb_ge _ _)) by lia.
  - by rewrite (proj2 (Z.ltb_lt _ _)) by lia.
  - pose proof (truncate_length (e_content e) b). destruct (Z.ltb_spec MaxEntryContentBytes (byte_len (e_content e))); cbn.
    + apply truncate_length_mono. lia.
    + unfold minTruncatedContentBytes in *. lia.
Qed.

(** A form that is not the first to be tried is one of the truncations. *)
Lemma form_cases e r :
  entry_form e r ->
  r = first_try e \/
  exists b, minTruncatedContentBytes <= b <= Z.min MaxEntryContentBytes (byte_len (e_content e) - 1) /\
    r = attempt e (e_content e) b /\ long_enough (e_content e) b.
Proof.
  intros [H|H|b H1 H2 H3]; [left|left|right; exists b; split; [lia|done]]; unfold first_try.
  - by rewrite (proj2 (Z.ltb_ge _ _)) by lia.
  - by rewrite (proj2 (Z.ltb_lt _ _)) by lia.
Qed.

Lemma fitEntry_spec current e limit :
  match fitEntry current e limit with
  | Some r => best_fit limit current e r
  | None => nothing_fits limit current e
  end.
Proof.
  destruct (Z.le_gt_cases (renderedBytes (current ++ [first_try e])) limit) as [Hf|Hf].
  { rewrite fitEntry_cases, (proj2 (Z.leb_le _ _)) by done. split; [apply first_try_form|done|]. intros r' H _. by apply form_shorter. }
  destruct (Z.lt_ge_cases (byte_len (e_content e)) minTruncatedContentBytes) as [Hs|Hs].
  { rewrite fitEntry_cases, (proj2 (Z.leb_gt _ _)), (proj2 (Z.ltb_lt _ _)) by done.
    intros r [->|(b & Hb & _)]%form_cases; [done|]. lia. }
  pose proof (fitEntry_best _ _ _ Hf ltac:(lia)) as HB. destruct (fitEntry current e limit) as [r|].
  - destruct HB as (b & Hb & -> & Hl & Hfit & Hmax). split; [constructor; [lia|lia|exact Hl]|exact Hfit|].
    intros r' [->|(b' & Hb' & -> & _)]%form_cases Hfits; [lia|]. by apply (Hmax b').
  - intros r [->|(b & Hb & -> & Hl)]%form_cases; [done|]. apply Z.lt_nge. by apply (HB b Hb Hl).
Qed.

(** *** The choice of the entries

    Each candidate in turn, while fewer than eight are chosen, is taken in its best
    form after those that are chosen, or skipped when nothing of it fits. *)
Inductive greedy (limit : Z) : list entry -> list entry -> list entry -> Prop :=
| greedy_done current : greedy limit current [] current
| greedy_full current candidates : (EntryLimit <= length current)%nat -> greedy limit current candidates current
| greedy_take current e r candidates result :
    (length current < EntryLimit)%nat -> best_fit limit current e r ->
    greedy limit (current ++ [r]) candidates result -> greedy limit current (e :: candidates) result
| greedy_skip current e candidates result :
    (length current < EntryLimit)%nat -> nothing_fits limit current e ->
    greedy limit current candidates result -> greedy limit current (e :: candidates) result.

Lemma fit_fold_greedy limit candidates : forall current, greedy limit current candidates (fold_left (fit_step limit) candidates current).
Proof.
  induction candidates as [|e candidates IH]; intros current; cbn [fold_left]; [constructor|].
  unfold fit_step at 2. destruct (Nat.leb_spec EntryLimit (length current)) as [Hfull|Hroom].
  - assert (E : fold_left (fit_step limit) candidates current = current); [|rewrite E; by apply greedy_full].
    clear IH. induction candidates as [|e' candidates IH]; cbn [fold_left]; [done|].
    unfold fit_step at 2. by rewrite (proj2 (Nat.leb_le _ _)).
  - pose proof (fitEntry_spec current e limit) as Hfit. destruct (fitEntry current e limit) as [r|].
    + by eapply greedy_take.
    + by apply greedy_skip.
Qed.

Lemma fitEntries_greedy limit ms es : greedy limit [] (interleave ms es) (fitEntries limit ms es).
Proof. apply fit_fold_greedy. Qed.

Lemma greedy_extends limit current candidates result : greedy limit current candidates result -> current `prefix_of` result.
Proof. induction 1; [done|done| |done]. etrans; [by apply prefix_app_r|done]. Qed.

(** Nothing is chosen exactly when no candidate fits on its own. *)
Lemma greedy_none limit candidates result :
  greedy limit [] candidates result -> result = [] <-> Forall (nothing_fits limit []) candidates.
Proof.
  intros H. remember [] as current eqn:E. revert E. induction H as [current|current candidates Hfull|current e r candidates result _ Hbest H _|current e candidates result _ Hno _ IH]; intros ->.
  - split; [constructor|done].
  - cbn in Hfull. unfold EntryLimit in Hfull. lia.
  - split.
    + intros ->. apply greedy_extends, prefix_nil_inv in H. done.
    + intros Hall. inversion_clear Hall as [|? ? Hno _]. pose proof (Hno r (bf_form _ _ _ _ Hbest)). pose proof (bf_fits _ _ _ _ Hbest). lia.
  - rewrite Forall_cons, IH by done. tauto.
Qed.

(** ** The fitting loop *)

Record fit_inv (limit : Z) (seen result : list entry) : Prop := {
  fi_size : result = [] \/ renderedBytes result <= limit;
  fi_count : (length result <= EntryLimit)%nat;
  fi_origins : map e_origin result `sublist_of` map e_origin seen;
  fi_kinds : map e_kind result `sublist_of` map e_kind seen
}.

Lemma fit_step_inv limit seen result e :
  fit_inv limit seen result -> fit_inv limit (seen ++ [e]) (fit_step limit result e).
Proof.
  intros [H1 H2 H3 H4]. unfold fit_step.
  assert (Hskip : fit_inv limit (seen ++ [e]) result).
  { constructor; auto; rewrite map_app; by apply sublist_inserts_r. }
  destruct (Nat.leb_spec EntryLimit (length result)) as [|Hlt]; [done|].
  destruct (fitEntry result e limit) as [r|] eqn:E; [|done].
  apply fitEntry_fitted in E as (E1 & E2 & E3 & _).
  constructor; [by right| |..].
  - rewrite length_app. cbn. lia.
  - rewrite !map_app. apply sublist_app; [done|]. cbn. by rewrite E1.
  - rewrite !map_app. apply sublist_app; [done|]. cbn. by rewrite E2.
Qed.

Lemma fit_fold_inv limit l : forall seen result,
  fit_inv limit seen result -> fit_inv limit (seen ++ l) (fold_left (fit_step limit) l result).
Proof.
  induction l as [|e l IH]; intros seen result H; cbn [fold_left].
  - by rewrite app_nil_r.
  - replace (seen ++ e :: l) with ((seen ++ [e]) ++ l) by by rewrite <- app_assoc.
    apply IH. by apply fit_step_inv.
Qed.

Lemma fitEntries_inv limit ms es : fit_inv limit (interleave ms es) (fitEntries limit ms es).
Proof.
  apply (fit_fold_inv limit _ [] []). constructor; cbn; auto; try apply sublist_nil_l.
  unfold EntryLimit. lia.
Qed.

(** ** Interleaving *)

Section interleaving.
Context {A : Type}.

Lemma round_some (groups : list (list A)) i :
  round groups i = [] <-> Forall (fun g => (length g <= i)%nat) groups.
Proof.
  unfold round. induction groups as [|g gs IH]; cbn; [by split|].
  destruct (g !! i) as [x|] eqn:E.
  - split; [done|]. intros H. inversion H; subst. apply lookup_lt_Some in E. lia.
  - rewrite IH, Forall_cons. apply lookup_ge_None in E. tauto.
Qed.

(** The elements from round [i] on. *)
Lemma rounds_perm (groups : list (list A)) fuel : forall i,
  (max_list (map length groups) < i + fuel)%nat ->
  rounds fuel groups i ≡ₚ concat (map (drop i) groups).
Proof.
  assert (Hall : forall i, Forall (fun g => (length g <= i)%nat) groups -> concat (map (drop i) groups) = []).
  { intros i H. induction H as [|g gs Hg _ IH]; cbn; [done|]. by rewrite drop_ge, IH. }
  assert (Hsplit : forall i, round groups i ++ concat (map (drop (S i)) groups) ≡ₚ concat (map (drop i) groups)).
  { intros i. unfold round. clear Hall. induction groups as [|g gs IH]; cbn; [done|].
    destruct (g !! i) as [x|] eqn:E.
    - rewrite (drop_S _ _ _ E). cbn. constructor. rewrite <- IH. solve_Permutation.
    - apply lookup_ge_None in E. rewrite !drop_ge by lia. cbn. done. }
  induction fuel as [|n IH]; intros i Hi; cbn [rounds].
  - rewrite Hall; [done|]. apply Forall_forall. intros g Hg.
    pose proof (max_list_elem_of_le (length g) (map length groups)) as Hm.
    rewrite list_elem_of_fmap in Hm. specialize (Hm (ex_intro _ g (conj eq_refl Hg))). lia.
  - destruct (round groups i) as [|x row] eqn:E.
    + apply round_some in E. by rewrite Hall.
    + rewrite <- (Hsplit i), E, IH by lia. done.
Qed.

Lemma interleaveGroups_perm (groups : list (list A)) : interleaveGroups groups ≡ₚ concat groups.
Proof.
  unfold interleaveGroups. rewrite rounds_perm by lia.
  erewrite map_ext; [by rewrite map_id|]. done.
Qed.

Lemma interleave_perm (xs ys : list A) : interleave xs ys ≡ₚ xs ++ ys.
Proof.
  unfold interleave.
  assert (H : forall n off (l : list A),
    concat (map (fun i => option_list (l !! i)) (seq off n)) = take n (drop off l)).
  { induction n as [|n IH]; intros off l; cbn; [done|]. rewrite IH.
    destruct (l !! off) as [x|] eqn:E; cbn.
    - by rewrite (drop_S _ _ _ E).
    - apply lookup_ge_None in E. by rewrite !drop_ge, !take_nil by lia. }
  assert (HS : forall (f g : nat -> list A) l, concat (map (fun i => f i ++ g i) l) ≡ₚ concat (map f l) ++ concat (map g l)).
  { intros f g l. induction l as [|i l IH]; cbn; [done|]. rewrite IH. solve_Permutation. }
  rewrite HS, !H, !drop_0, !take_ge by lia. done.
Qed.
End interleaving.
