(* ===== verification/ContextPackProps.v ===== *)
(** * Prepared contexts: properties *)

From S2P Require Import Prelude.
From S2P Require Import GoStrings.
From S2P Require Import GoTime.
From S2P Require Import Refs.
From S2P Require Import Json.
From S2P Require Import MemoryModel.
From S2P Require Import Contents.
From S2P Require Import ContextPack.
From S2P Require Import ContextPackFacts.

(** ** Provenance of the entries *)

Definition memory_origin (scopeID : string) (refd : bool) (h : Hit) : Origin :=
  if refd
  then OScopedMemory (MkScopedMemory (MkScopedArtifact scopeID (h_MemoryRef h)) (h_EntryID h) (h_EntryVersionID h))
  else OMemory (MkCitation (h_MemoryRef h) (h_EntryID h) (h_EntryVersionID h)).

Definition experience_origin (scopeID : string) (refd : bool) (ref : Ref) : Origin :=
  if refd then OScopedArtifact (MkScopedArtifact scopeID ref) else OArtifact ref.

Definition is_experience (o : Origin) : bool :=
  match o with OArtifact _ | OScopedArtifact _ => true | _ => false end.

Definition usable (h : Hit) : Prop :=
  blank (h_EntryID h) = false /\ blank (h_EntryVersionID h) = false /\ blank (h_Text h) = false.

(** An origin that names a hit of a candidate, in the form its scope requires. *)
Inductive from_candidates (current : string) (mcs : list MemoryCandidates) (ecs : list ExperienceCandidates)
  : Origin -> Prop :=
| from_memory c h :
    c ∈ mcs -> h ∈ mc_Hits c -> mc_MemoryRef c = Some (h_MemoryRef h) -> usable h ->
    from_candidates current mcs ecs (memory_origin (mc_ScopeID c) (referenced (mc_ScopeID c) current) h)
| from_experience c h :
    c ∈ ecs -> h ∈ ec_Hits c -> family (Experience.sh_ref h) = Experience.Family ->
    from_candidates current mcs ecs
      (experience_origin (ec_ScopeID c) (referenced (ec_ScopeID c) current) (Experience.sh_ref h)).

Lemma memory_entries_from ref sid refd hits : forall seen result out,
  memory_entries ref sid refd hits seen result = Ok out ->
  forall e, e ∈ out -> e ∈ result \/
    exists h, h ∈ hits /\ h_MemoryRef h = ref /\ usable h /\ e_origin e = memory_origin sid refd h.
Proof.
  induction hits as [|h hits IH]; intros seen result out; cbn [memory_entries].
  { intros [= <-]. auto. }
  assert (Hmore : forall seen' out, memory_entries ref sid refd hits seen' result = Ok out ->
    forall e, e ∈ out -> e ∈ result \/
      exists h', h' ∈ h :: hits /\ h_MemoryRef h' = ref /\ usable h' /\ e_origin e = memory_origin sid refd h').
  { intros seen' o H e He. destruct (IH _ _ _ H e He) as [|(h' & H1 & H2)]; [auto|].
    right. exists h'. split; [by right|done]. }
  destruct (bool_decide (h_MemoryRef h = ref)) eqn:Eref; [|done]. boolify. cbn [negb].
  case_bool_decide; [apply Hmore|].
  destruct (blank (h_EntryID h) || _ || _) eqn:Eb; [apply Hmore|]. boolify.
  destruct (_ <=? _)%nat; [intros [= <-]; auto|].
  intros Ho e He. destruct (IH _ _ _ Ho e He) as [He'|(h' & H1' & H2')].
  - apply elem_of_app in He' as [|He']; [by left|]. apply list_elem_of_singleton in He' as ->.
    right. exists h. split; [left|]. done.
  - right. exists h'. split; [by right|done].
Qed.

Lemma buildMemoryEntries_from ref hits sid refd out :
  buildMemoryEntries ref hits sid refd = Ok out ->
  forall e, e ∈ out ->
    exists h, h ∈ hits /\ ref = Some (h_MemoryRef h) /\ usable h /\ e_origin e = memory_origin sid refd h.
Proof.
  unfold buildMemoryEntries. destruct ref as [r|].
  - intros H e He. destruct (memory_entries_from _ _ _ _ _ _ _ H e He) as [Hn|(h & H1 & H2 & H3)].
    + inversion Hn.
    + exists h. subst r. done.
  - destruct hits; [|done]. intros [= <-] e He. inversion He.
Qed.

Lemma experience_entries_from sid refd hits : forall seen result out,
  experience_entries sid refd hits seen result = Ok out ->
  forall e, e ∈ out -> e ∈ result \/
    exists h, h ∈ hits /\ family (Experience.sh_ref h) = Experience.Family /\
      e_origin e = experience_origin sid refd (Experience.sh_ref h).
Proof.
  induction hits as [|h hits IH]; intros seen result out; cbn [experience_entries].
  { intros [= <-]. auto. }
  destruct (String.eqb_spec (family (Experience.sh_ref h)) Experience.Family) as [Ef|]; [|done]. cbn [negb].
  case_bool_decide.
  { intros Ho e He. destruct (IH _ _ _ Ho e He) as [|(h' & H1 & H2)]; [auto|].
    right. exists h'. split; [by right|done]. }
  destruct (_ <=? _)%nat; [intros [= <-]; auto|].
  intros Ho e He. destruct (IH _ _ _ Ho e He) as [He'|(h' & H1 & H2)].
  - apply elem_of_app in He' as [|He']; [by left|]. apply list_elem_of_singleton in He' as ->.
    right. exists h. split; [left|]. done.
  - right. exists h'. split; [by right|done].
Qed.

Lemma map_res_elem {E A B} (f : A -> result E B) xs ys y :
  map_res f xs = Ok ys -> y ∈ ys -> exists x, x ∈ xs /\ f x = Ok y.
Proof.
  intros H Hy. apply map_res_Forall2 in H. apply list_elem_of_lookup in Hy as [i Hi].
  destruct (Forall2_lookup_r _ _ _ _ _ H Hi) as (x & Hx & Hf).
  exists x. split; [by eapply list_elem_of_lookup_2|done].
Qed.

(** ** The entries that are considered *)

(** The first element with each key, in order, but for the keys in [seen]. *)
Fixpoint first_by {A K} `{Countable K} (key : A -> K) (seen : gset K) (l : list A) : list A :=
  match l with
  | [] => []
  | x :: l => if bool_decide (key x ∈ seen) then first_by key seen l else x :: first_by key ({[key x]} ∪ seen) l
  end.

Definition hit_key (h : Hit) : string * string := (h_EntryID h, h_EntryVersionID h).
Definition usable_hit (h : Hit) : bool := negb (blank (h_EntryID h) || blank (h_EntryVersionID h) || blank (h_Text h)).
Definition memory_entry (scopeID : string) (refd : bool) (h : Hit) : entry :=
  MkEntry_ (memory_origin scopeID refd h) "memory" (h_Text h) false.
Definition experience_entry (scopeID : string) (refd : bool) (h : Experience.SearchHit) : entry :=
  MkEntry_ (experience_origin scopeID refd (Experience.sh_ref h)) "experience" (Experience.Render (Experience.sh_content h)) false.

(** Of one scope: the first eight usable entries of its Memory, each version once. *)
Definition memories_considered (current : string) (c : MemoryCandidates) : list entry :=
  take EntryLimit (map (memory_entry (mc_ScopeID c) (referenced (mc_ScopeID c) current))
                    (List.filter usable_hit (first_by hit_key ∅ (mc_Hits c)))).

(** Of one scope: its first two Experiences. *)
Definition experiences_considered (current : string) (c : ExperienceCandidates) : list entry :=
  take ExperienceEntryLimit (map (experience_entry (ec_ScopeID c) (referenced (ec_ScopeID c) current))
                              (first_by Experience.sh_ref ∅ (ec_Hits c))).

(** All of them, in the order in which they are tried: the scopes take turns, and
    Memories and Experiences do, with two Experiences in all. *)
Definition considered (current : string) (mcs : list MemoryCandidates) (ecs : list ExperienceCandidates) : list entry :=
  interleave (interleaveGroups (map (memories_considered current) mcs))
             (take ExperienceEntryLimit (interleaveGroups (map (experiences_considered current) ecs))).

Lemma take_full {A} n (l more : list A) : (n <= length l)%nat -> (length l <= n)%nat -> take n (l ++ more) = l.
Proof. intros H1 H2. assert (n = length l) as -> by lia. apply take_app_length. Qed.

Lemma memory_entries_considered ref sid refd hits : forall seen result out,
  memory_entries ref sid refd hits seen result = Ok out -> (length result <= EntryLimit)%nat ->
  out = take EntryLimit (result ++ map (memory_entry sid refd) (List.filter usable_hit (first_by hit_key seen hits))).
Proof.
  induction hits as [|h hits IH]; intros seen result out H Hlen; cbn [memory_entries first_by] in *.
  { injection H as <-. cbn. by rewrite app_nil_r, take_ge. }
  destruct (negb (bool_decide _)); [done|]. destruct (decide (hit_key h ∈ seen)) as [Hin|Hin].
  { rewrite bool_decide_true in H |- * by exact Hin. by apply (IH _ _ _ H). }
  rewrite bool_decide_false in H |- * by exact Hin. cbn [List.filter]. unfold usable_hit at 1. destruct (blank (h_EntryID h) || _ || _); cbn [negb map]; [by apply (IH _ _ _ H)|].
  destruct (Nat.leb_spec EntryLimit (length result)) as [Hfull|Hroom]; [injection H as <-; by rewrite take_full|].
  apply IH in H; [|rewrite length_app; cbn; lia]. by rewrite <- app_assoc in H.
Qed.

Lemma experience_entries_considered sid refd hits : forall seen result out,
  experience_entries sid refd hits seen result = Ok out -> (length result <= ExperienceEntryLimit)%nat ->
  out = take ExperienceEntryLimit (result ++ map (experience_entry sid refd) (first_by Experience.sh_ref seen hits)).
Proof.
  induction hits as [|h hits IH]; intros seen result out H Hlen; cbn [experience_entries first_by] in *.
  { injection H as <-. cbn. by rewrite app_nil_r, take_ge. }
  destruct (negb (String.eqb _ _)); [done|]. destruct (decide (Experience.sh_ref h ∈ seen)) as [Hin|Hin].
  { rewrite bool_decide_true in H |- * by exact Hin. by apply (IH _ _ _ H). }
  rewrite bool_decide_false in H |- * by exact Hin. cbn [map].
  destruct (Nat.leb_spec ExperienceEntryLimit (length result)) as [Hfull|Hroom]; [injection H as <-; by rewrite take_full|].
  apply IH in H; [|rewrite length_app; cbn; lia]. by rewrite <- app_assoc in H.
Qed.

Lemma buildMemoryEntries_considered current c group :
  buildMemoryEntries (mc_MemoryRef c) (mc_Hits c) (mc_ScopeID c) (referenced (mc_ScopeID c) current) = Ok group ->
  group = memories_considered current c.
Proof.
  unfold buildMemoryEntries, memories_considered. destruct (mc_MemoryRef c) as [r|].
  - intros H. by apply memory_entries_considered in H; [|cbn; lia].
  - destruct (mc_Hits c); [|done]. by intros [= <-].
Qed.

Lemma buildExperienceEntries_considered current c group :
  buildExperienceEntries (ec_Hits c) (ec_ScopeID c) (referenced (ec_ScopeID c) current) = Ok group ->
  group = experiences_considered current c.
Proof. intros H. by apply experience_entries_considered in H; [|cbn; lia]. Qed.

Lemma map_res_eq {E A B} (f : A -> result E B) (g : A -> B) xs ys :
  (forall x y, f x = Ok y -> y = g x) -> map_res f xs = Ok ys -> ys = map g xs.
Proof. intros Hf H%map_res_Forall2. induction H as [|x y xs ys Hy _ IH]; cbn; [done|]. by rewrite (Hf _ _ Hy), IH. Qed.

(** ** A successful build *)

Section build.
Variables (request : Request) (current : string).
Variables (mcs : list MemoryCandidates) (ecs : list ExperienceCandidates).

(** The candidates in the order in which they are tried. *)
Record built (ordered entries : list entry) : Prop := {
  bu_considered : ordered = considered current mcs ecs;
  bu_greedy : greedy (maxBytes request) [] ordered entries;
  bu_fit : fit_inv (maxBytes request) ordered entries;
  bu_from : forall e, e ∈ ordered -> from_candidates current mcs ecs (e_origin e);
  bu_experiences : (length (List.filter is_experience (map e_origin ordered)) <= ExperienceEntryLimit)%nat
}.

Lemma filter_none {A} (f : A -> bool) l : (forall x, x ∈ l -> f x = false) -> List.filter f l = [].
Proof.
  induction l as [|x l IH]; intros H; cbn; [done|]. rewrite H by left. apply IH. intros y Hy. apply H. by right.
Qed.

#[local] Instance filter_perm {A} (f : A -> bool) : Proper ((≡ₚ) ==> (≡ₚ)) (List.filter f).
Proof.
  intros l l' H. induction H as [|x l l' _ IH|x y l|l l' l'' _ IH1 _ IH2]; cbn; [done| | |by etrans].
  - destruct (f x); [by constructor|done].
  - destruct (f x), (f y); try done. apply perm_swap.
Qed.

Lemma elem_of_concat {A} (x : A) ls : x ∈ concat ls -> exists l, x ∈ l /\ l ∈ ls.
Proof.
  rewrite list_elem_of_In, in_concat. intros (l & H1 & H2). exists l.
  split; by apply list_elem_of_In.
Qed.

Lemma ordered_built memoryGroups experienceGroups :
  map_res (fun c => buildMemoryEntries (mc_MemoryRef c) (mc_Hits c) (mc_ScopeID c)
                      (referenced (mc_ScopeID c) current)) mcs = Ok memoryGroups ->
  map_res (fun c => buildExperienceEntries (ec_Hits c) (ec_ScopeID c)
                      (referenced (ec_ScopeID c) current)) ecs = Ok experienceGroups ->
  let ms := interleaveGroups memoryGroups in
  let es := take ExperienceEntryLimit (interleaveGroups experienceGroups) in
  built (interleave ms es) (fitEntries (maxBytes request) ms es).
Proof.
  intros Hm He ms es.
  assert (Hms : forall e, e ∈ ms -> from_candidates current mcs ecs (e_origin e) /\ is_experience (e_origin e) = false).
  { intros e H. unfold ms in H. rewrite interleaveGroups_perm in H.
    apply elem_of_concat in H as (g & Hg & Hin).
    destruct (map_res_elem _ _ _ _ Hm Hin) as (c & Hc & Hb).
    destruct (buildMemoryEntries_from _ _ _ _ _ Hb e Hg) as (h & H1 & H2 & H3 & ->).
    split; [by constructor|]. unfold memory_origin. by case_match. }
  assert (Hes : forall e, e ∈ es -> from_candidates current mcs ecs (e_origin e)).
  { intros e H. assert (H' : e ∈ interleaveGroups experienceGroups).
    { unfold es in H. rewrite <- (take_drop ExperienceEntryLimit). apply elem_of_app. by left. }
    rewrite interleaveGroups_perm in H'. apply elem_of_concat in H' as (g & Hg & Hin).
    destruct (map_res_elem _ _ _ _ He Hin) as (c & Hc & Hb).
    destruct (experience_entries_from _ _ _ _ _ _ Hb e Hg) as [Hn|(h & H1 & H2 & ->)]; [inversion Hn|].
    by constructor. }
  constructor; [|apply fitEntries_greedy|apply fitEntries_inv| |].
  { unfold considered, ms, es. by rewrite (map_res_eq _ _ _ _ (buildMemoryEntries_considered current) Hm),
      (map_res_eq _ _ _ _ (buildExperienceEntries_considered current) He). }
  - intros e H. rewrite interleave_perm in H. apply elem_of_app in H as [H|H]; [by apply Hms|by apply Hes].
  - rewrite interleave_perm, map_app, List.filter_app, length_app.
    rewrite (filter_none is_experience (map e_origin ms)).
    + cbn [length]. etrans; [apply List.filter_length_le|]. rewrite length_map. unfold es.
      rewrite length_take. lia.
    + intros o H. apply list_elem_of_fmap in H as (e & -> & H). by apply Hms.
Qed.
End build.

(** ** Properties *)

(** What [render] emits is the JSON text in which line separators are written
    as they are and every other character as Go's encoder writes it: restoring
    the escapes changes nothing else, whatever backslashes the texts contain. *)
Theorem render_is_reference (entries : list entry) :
  render entries = frame (json_bytes false false (envelope entries)).
Proof. apply render_reference. Qed.

(** [truncateUTF8] keeps the longest prefix that is valid UTF-8 and leaves
    room for the ellipsis; its result is valid UTF-8 within the budget. *)
Theorem truncate_longest_prefix (text : string) (budget : Z) :
  exists p, bytes_of (truncateUTF8 text budget) = p ++ ellipsis /\
    p `prefix_of` bytes_of text /\ utf8_valid (p ++ ellipsis) = true /\
    Z.of_nat (length p) <= Z.max 0 (budget - 3) /\
    forall q, q `prefix_of` bytes_of text -> utf8_valid q = true ->
      Z.of_nat (length q) <= Z.max 0 (budget - 3) -> (length q <= length p)%nat.
Proof.
  destruct (kept_spec text budget) as (k & E & K1 & K2 & V & M).
  exists (kept text budget). rewrite truncate_kept. split; [done|].
  assert (Hl : length (kept text budget) = k) by (rewrite E, length_take; lia).
  split; [rewrite E; exists (drop k (bytes_of text)); by rewrite take_drop|].
  split; [by rewrite utf8_valid_app|]. split; [lia|].
  intros q [r Hq] Vq Hlen. rewrite Hl. apply M; [lia| |].
  - rewrite Hq, length_app. lia.
  - rewrite Hq. by rewrite take_app_length.
Qed.

(** When an entry does not fit whole, [fitEntry] returns its longest
    truncation of at least 64 bytes that fits, and drops it only when none does:
    the binary search terminates and is exact. *)
Theorem fit_entry_longest (current : list entry) (e : entry) (limit : Z) :
  limit < renderedBytes (current ++ [first_try e]) ->
  minTruncatedContentBytes <= byte_len (e_content e) ->
  best_of current e (e_content e) limit minTruncatedContentBytes
    (Z.min MaxEntryContentBytes (byte_len (e_content e) - 1)) (fitEntry current e limit).
Proof. apply fitEntry_best. Qed.

(** A text of 600 bytes and a limit that takes part of it. *)
Definition sample_ref : Ref := MkRef "memory" "m1" 3.
Fixpoint repeat_text (n : nat) (s : string) : string :=
  match n with O => ""%string | S m => s +:+ repeat_text m s end.
Definition long_text : string := repeat_text 60 "abcdefghi ".
Definition sample_hit : Hit := MkHit sample_ref "e1" "v1" long_text f64_zero [].
Definition sample_entry : entry :=
  MkEntry_ (OMemory (MkCitation sample_ref "e1" "v1")) "memory" long_text false.

Lemma fit_entry_longest_witness :
  best_of [] sample_entry long_text 700 minTruncatedContentBytes 599 (fitEntry [] sample_entry 700) /\
  is_Some (fitEntry [] sample_entry 700).
Proof.
  split.
  - apply (fit_entry_longest [] sample_entry 700).
    + apply Z.ltb_lt. vm_compute. reflexivity.
    + apply Z.leb_le. vm_compute. reflexivity.
  - vm_compute. eexists. reflexivity.
Defined.

Lemma string_length_bytes (b : bytes) : String.length (string_of b) = length b.
Proof. induction b; cbn; auto. Qed.

Lemma render_length es : byte_len (string_of (render es)) = renderedBytes es.
Proof. unfold byte_len, renderedBytes. by rewrite string_length_bytes. Qed.

Lemma render_not_blank es : blank (string_of (render es)) = false.
Proof.
  assert (HP : exists t, trustPolicy = "P"%char :: t) by (eexists; reflexivity).
  unfold render, frame. destruct HP as [t ->]. cbn [app].
  match goal with |- blank (string_of (_ :: ?r)) = false => generalize r end. intros r.
  apply (blank_false_first _ (rune1 "P") (runes r)); [|reflexivity].
  rewrite list_ascii_of_string_of_list_ascii. reflexivity.
Qed.

Lemma map_res_err {E A B} (f : A -> result E B) xs e :
  map_res f xs = Err e -> exists x, x ∈ xs /\ f x = Err e.
Proof.
  induction xs as [|x xs IH]; cbn; [done|]. intros H.
  apply bind_err_inv in H as [H|(y & _ & H)]; [exists x; split; [left|done]|].
  apply bind_err_inv in H as [H|(ys & _ & H)]; [|done].
  destruct (IH H) as (x' & H1 & H2). exists x'. split; [by right|done].
Qed.

Lemma memory_error ref hits sid refd e :
  buildMemoryEntries ref hits sid refd = Err e ->
  e = EInvariant "memory-ref-missing" \/ e = EInvariant "memory-ref-mismatch".
Proof.
  unfold buildMemoryEntries. destruct ref as [r|].
  - intros H. right. revert H. generalize (∅ : gset (string * string)), ([] : list entry).
    induction hits as [|h hits IH]; intros seen res; cbn [memory_entries]; [done|].
    destruct (negb _); [by intros [= <-]|]. case_bool_decide; [apply IH|].
    destruct (_ || _); [apply IH|]. destruct (_ <=? _)%nat; [done|apply IH].
  - destruct hits; [done|]. intros [= <-]. by left.
Qed.

Lemma experience_error sid refd hits e : forall seen res,
  experience_entries sid refd hits seen res = Err e -> e = EInvariant "experience-family-mismatch".
Proof.
  induction hits as [|h hits IH]; intros seen res; cbn [experience_entries]; [done|].
  destruct (negb _); [by intros [= <-]|]. case_bool_decide; [apply IH|].
  destruct (_ <=? _)%nat; [done|apply IH].
Qed.

(** The result of the last part of [BuildScopesResult] for the fitted entries. *)
Lemma build_cases request current mcs ecs r :
  BuildScopesResult request current mcs ecs = r ->
  (exists e, r = Err e /\ e <> EInvariant "output-budget" /\ e <> EReadyContent) \/
  (exists ordered entries, built request current mcs ecs ordered entries /\
     match entries with
     | [] => r = Ok (MkBuild EmptyPrepared [])
     | _ => r = Ok (MkBuild (MkPrepared Ready (Some (string_of (render entries))) (renderedBytes entries))
                     (map e_origin entries))
     end).
Proof.
  intros <-. unfold BuildScopesResult.
  destruct (ValidateRequest request) as [u|e] eqn:E1.
  2: { left. exists e. split; [done|]. unfold ValidateRequest in E1.
       apply bind_err_inv in E1 as [E1|(? & _ & E1)];
         [|apply bind_err_inv in E1 as [E1|(? & _ & E1)]; [|done]];
         by apply check_err_inv in E1 as [_ ->]. }
  cbn [bind]. unfold check at 1. destruct (_ <=? MemoryCandidateLimit); cbn [bind]; [|by left; eauto].
  unfold check at 1. destruct (_ <=? ExperienceCandidateLimit); cbn [bind]; [|by left; eauto].
  destruct (map_res _ mcs) as [mg|e] eqn:Em; cbn [bind].
  2: { left. exists e. split; [done|]. apply map_res_err in Em as (c & _ & Em).
       by destruct (memory_error _ _ _ _ _ Em) as [-> | ->]. }
  destruct (map_res _ ecs) as [eg|e] eqn:Ee; cbn [bind].
  2: { left. exists e. split; [done|]. apply map_res_err in Ee as (c & _ & Ee).
       by rewrite (experience_error _ _ _ _ _ _ Ee). }
  right. pose proof (ordered_built request current mcs ecs mg eg Em Ee) as B. cbv zeta in B |- *.
  eexists _, _. split; [exact B|].
  pose proof (fi_size _ _ _ (bu_fit _ _ _ _ _ _ B)) as Hsize.
  destruct (fitEntries _ _ _) as [|e0 es]; [done|].
  destruct Hsize as [|Hsize]; [done|].
  rewrite render_length. apply Z.leb_le in Hsize. rewrite Hsize. cbn [check bind].
  unfold NewPrepared. rewrite render_not_blank.
  change (Z.of_nat (String.length ?s)) with (byte_len s). rewrite render_length, Z.eqb_refl. done.
Qed.

Lemma sublist_bfilter {A} (f : A -> bool) l l' :
  l `sublist_of` l' -> List.filter f l `sublist_of` List.filter f l'.
Proof.
  induction 1 as [|x l l' _ IH|x l l' _ IH]; cbn; [constructor| |].
  - destruct (f x); [by constructor|done].
  - destruct (f x); [by constructor|done].
Qed.

(** The prepared context of the chosen entries. *)
Definition prepared_of (entries : list entry) : Prepared :=
  match entries with
  | [] => EmptyPrepared
  | _ => MkPrepared Ready (Some (string_of (render entries))) (byte_len (string_of (render entries)))
  end.

Lemma build_entries request current mcs ecs b :
  BuildScopesResult request current mcs ecs = Ok b ->
  exists ordered entries, built request current mcs ecs ordered entries /\
    Origins b = map e_origin entries /\ Context b = prepared_of entries.
Proof.
  intros H. destruct (build_cases _ _ _ _ _ H) as [(e & ? & _)|(ordered & entries & B & HB)]; [done|].
  exists ordered, entries. split; [done|]. destruct entries as [|e0 es]; injection HB as ->; [done|]. unfold prepared_of. by rewrite render_length.
Qed.

Lemma render_positive entries : 0 < byte_len (string_of (render entries)).
Proof.
  rewrite render_length. unfold renderedBytes, render, frame. rewrite length_app. unfold trustPolicy at 1.
  rewrite length_app. change (length (bytes_of "PowerContext prepared untrusted historical context.")) with 51%nat. lia.
Qed.

(** C8: a prepared context never exceeds the requested bytes and holds at most
    eight items, at most two of them experiences; each origin names a hit of a
    candidate, scoped exactly when its scope is not the current one.  Its items are
    chosen from the entries to consider, which are of each scope the first eight
    usable versions and two Experiences, in turns: while fewer than eight are
    chosen, each is taken in its longest form that fits after those before it, and
    is skipped only when no form of it fits.  So the context is empty exactly when no
    entry fits on its own; otherwise its text is the rendering of what was chosen. *)
Theorem build_bounded request current mcs ecs b :
  BuildScopesResult request current mcs ecs = Ok b ->
  (length (Origins b) <= EntryLimit)%nat /\
  (length (List.filter is_experience (Origins b)) <= ExperienceEntryLimit)%nat /\
  (forall o, o ∈ Origins b -> from_candidates current mcs ecs o) /\
  match Origins b with
  | [] => Context b = EmptyPrepared
  | _ => exists text, Context b = MkPrepared Ready (Some text) (byte_len text) /\
                      0 < byte_len text <= maxBytes request
  end /\
  (exists entries, greedy (maxBytes request) [] (considered current mcs ecs) entries /\
     Origins b = map e_origin entries /\ Context b = prepared_of entries) /\
  (Origins b = [] <-> Forall (nothing_fits (maxBytes request) []) (considered current mcs ecs)).
Proof.
  intros H. destruct (build_entries _ _ _ _ _ H) as (ordered & entries & [Ec Hg [F1 F2 F3 F4] From Exp] & Ho & HC).
  rewrite Ho, HC. split; [by rewrite length_map|]. split.
  { etrans; [|exact Exp]. by apply sublist_length, sublist_bfilter. }
  split.
  { intros o Hin. apply (sublist_subseteq _ _ F3) in Hin. apply list_elem_of_fmap in Hin as (e & -> & He). auto. }
  rewrite <- Ec. split; [|split; [by exists entries|]].
  - destruct entries as [|e0 es]; [done|]. cbn [map]. destruct F1 as [|F1]; [done|]. exists (string_of (render (e0 :: es))).
    split; [done|]. split; [apply render_positive|by rewrite render_length].
  - rewrite <- (greedy_none _ _ _ Hg). split; [by destruct entries|by intros ->].
Qed.

Definition sample_request : Request := MkRequest "how do releases work" 700.
Definition sample_memories : list MemoryCandidates := [MkMemoryCandidates "" (Some sample_ref) [sample_hit; sample_hit]].
Definition sample_experience : Experience.SearchHit :=
  Experience.MkSearchHit (MkRef "experience" "x1" 1) (Experience.MkContent "s" "a" "o" "l").
Definition sample_experiences : list ExperienceCandidates := [MkExperienceCandidates "other" [sample_experience]].

(** The longest text is cut to what fits, and the Experience no longer fits. *)
Lemma build_bounded_witness :
  exists b, BuildScopesResult sample_request "" sample_memories sample_experiences = Ok b /\
    length (Origins b) = 1%nat /\
    (length (List.filter is_experience (Origins b)) <= ExperienceEntryLimit)%nat /\
    exists entries, greedy 700 [] (considered "" sample_memories sample_experiences) entries /\ Origins b = map e_origin entries.
Proof.
  destruct (BuildScopesResult sample_request "" sample_memories sample_experiences) as [b|e] eqn:E.
  - exists b. split; [reflexivity|]. split; [vm_compute in E; injection E as <-; vm_compute; reflexivity|].
    destruct (build_bounded _ _ _ _ _ E) as (_ & H2 & _ & _ & (entries & Hg & Ho & _) & _).
    split; [exact H2|]. exists entries. split; [exact Hg|exact Ho].
  - exfalso. vm_compute in E. discriminate E.
Defined.

(** the last two checks of [BuildScopesResult] never fire: a build is never
    refused for its size, nor as an inconsistent result. *)
Theorem build_never_over_budget request current mcs ecs e :
  BuildScopesResult request current mcs ecs = Err e ->
  e <> EInvariant "output-budget" /\ e <> EReadyContent.
Proof.
  intros H. destruct (build_cases _ _ _ _ _ H) as [(e' & H1 & H2 & H3)|(ordered & entries & _ & HB)].
  - by injection H1 as ->.
  - by destruct entries.
Qed.

Lemma build_never_over_budget_witness :
  BuildScopesResult (MkRequest "q" 100) "" [] [] = Err EMaxBytes /\ EMaxBytes <> EReadyContent.
Proof.
  split; [vm_compute; reflexivity|].
  apply (build_never_over_budget (MkRequest "q" 100) "" [] []). vm_compute. reflexivity.
Defined.

(** the round-robin of the scopes ends and keeps every entry once. *)
Theorem interleave_complete (groups : list (list entry)) (memories experiences : list entry) :
  interleaveGroups groups ≡ₚ concat groups /\
  interleave memories experiences ≡ₚ memories ++ experiences.
Proof. split; [apply interleaveGroups_perm|apply interleave_perm]. Qed.
