(* ===== verification/Incubation.v ===== *)
(** * The incubation of Experiences ([artifact/experience/incubation.go],
    [internal/runtime/experience_incubation.go],
    [internal/sqlstore/experience_incubation.go])

    From the Task Outcomes of a window of Sources a model proposes Experiences; each
    becomes a pending Candidate, in the transaction that moves the cursor. *)

From S2P Require Import Prelude.
From S2P Require Import GoStrings.
From S2P Require Import Refs.
From S2P Require Import Json.
From S2P Require Import JsonText.
From S2P Require Import Handoff.
From S2P Require Import MemoryModel.
From S2P Require Import MemoryService.
From S2P Require Import MemoryStore.
From S2P Require Import MemoryExtract.
From S2P Require Import Review.
From S2P Require Import Contents.
From S2P Require Import Sql.
From S2P Require Import ArtifactStore.
From S2P Require Import ArtifactStoreFacts.
From S2P Require Import HandoffCodec.
From S2P Require Import HandoffGeneration.
From S2P Require Import MemoryRepository.
From S2P Require Import ReviewCodec.
From S2P Require Import CandidateStore.
From S2P Require Import Trigger.
From S2P Require Import CursorStore.
From S2P Require Import SourceStore.
From S2P Require Import SourceStoreFacts.
From S2P Require Import SourceProps.
From S2P Require Import Windows.
From S2P Require Import ReviewStore.
From S2P Require Import ReviewFacts.
From S2P Require Import ReviewProps.

(** ** The pipeline *)

Definition TaskOutcomeSourceKind : string := "task-outcome".
Definition IncubationCursorName : string := "experience-incubation".
Definition IncubationWindowLimit : Z := 32.
Definition MaxIncubationSources : Z := 100.
Definition MaxIncubationSourceChars : Z := 64000.
Definition MaxCandidateEvidence : Z := 32.
Definition IncubationReason : string := "Incubated from bounded task-outcome evidence by the configured Experience pipeline.".

Inductive incubation_error :=
| IState (code : string) | ILimit | IInvalidOutput (detail : string) | IEvidenceCount | IRef (e : ref_error)
| IGenerator | IStore (e : store_error) | IIdentity.
Abbreviation ires := (result incubation_error).

Record IncubationEvidence := MkIncubationEvidence { ie_evidenceID : string; ie_content : string }.
Abbreviation IncubationInput := (list IncubationEvidence).
Record IncubationCandidate := MkIncubationCandidate { ic_proposal : Experience.Content; ic_evidenceIDs : list string }.
Record CandidateInput := MkCandidateInput { pi_proposal : Experience.Content; pi_sources : list Source.Ref; pi_reason : string }.

(** [IncubationInput.MarshalJSON] *)
Definition MarshalIncubationInput (input : IncubationInput) : bytes :=
  json_bytes false true
    (JObj [("evidence", JArr (map (fun e => JObj [("evidence_id", JStr (ie_evidenceID e)); ("content", JStr (ie_content e))]) input))])%string.

Definition evidence_count {A} (l : list A) : bool :=
  negb (Z.of_nat (length l) <? 1) && negb (MaxCandidateEvidence <? Z.of_nat (length l)).

Definition NewIncubationCandidate (proposal : Experience.Content) (ids : list string) : ires IncubationCandidate :=
  require evidence_count ids else IEvidenceCount in
  Ok (MkIncubationCandidate proposal ids).

Definition NewCandidateInput (proposal : Experience.Content) (srcs : list Source.Ref) : ires CandidateInput :=
  require evidence_count srcs else IEvidenceCount in
  let* _ := map_err IRef (map_res check_source srcs) in
  Ok (MkCandidateInput proposal srcs IncubationReason).

(** [[]rune(value)[:maximum]]: an invalid byte becomes U+FFFD. *)
Definition truncateRunes (value : string) (maximum : Z) : string :=
  if rune_count value <=? maximum then value
  else string_of (concat (map clean_rune (take (Z.to_nat maximum) (runes (bytes_of value))))).

Section pipeline.
Context {V S : Type} {VS : Values V S} {PR : Projected V S}.

(** [Metadata()["kind"].(string)] *)
Definition source_kind (value : V) : string :=
  match content_metadata value with
  | JObj fields => match find (fun f => String.eqb (fst f) "kind") fields with Some (_, JStr kind) => kind | _ => "" end
  | _ => ""
  end.

Definition eligible (value : V) : bool :=
  match class_of value with ContentSource => String.eqb (source_kind value) TaskOutcomeSourceKind | _ => false end.

Definition evidence_name (value : V) : string := "source:" +:+ ContentType +:+ "/" +:+ Source.SourceName (source_value value).
Definition bounded_contract : incubation_error := IInvalidOutput "eligible Task Outcome evidence exceeded the bounded input contract".

(** The loop of [projectIncubation]. *)
Fixpoint project_outcomes (values : list V) (evidence : gmap string Source.Ref)
  : ires (list IncubationEvidence * gmap string Source.Ref) :=
  match values with
  | [] => Ok ([], evidence)
  | value :: more =>
      if eligible value then
        let text := truncateRunes (content_text value) MaxIncubationSourceChars in
        require negb (String.eqb text "") else bounded_contract in
        let* r := map_err IRef (Source.NewRef ContentType (Source.SourceName (source_value value))) in
        let* ' (projected, evidence) := project_outcomes more (<[evidence_name value := r]> evidence) in
        Ok (MkIncubationEvidence (evidence_name value) text :: projected, evidence)
      else project_outcomes more evidence
  end.

(** None when no Source is eligible. *)
Definition projectIncubation (values : list V) : ires (option (IncubationInput * gmap string Source.Ref)) :=
  let* ' (projected, evidence) := project_outcomes values ∅ in
  match projected with
  | [] => Ok None
  | _ =>
      require negb (MaxIncubationSources <? Z.of_nat (length projected)) else bounded_contract in
      Ok (Some (projected, evidence))
  end.

Fixpoint select_sources (ids : list string) (evidence : gmap string Source.Ref) (seen : list string) : ires (list Source.Ref) :=
  match ids with
  | [] => Ok []
  | id :: more =>
      let* r := of_option (evidence !! id) (IInvalidOutput "candidate cited evidence outside the current Task Outcome window") in
      if bool_decide (Source.to_string r ∈ seen) then select_sources more evidence seen
      else
        let* later := select_sources more evidence (Source.to_string r :: seen) in
        Ok (r :: later)
  end.
Definition selectSources (ids : list string) (evidence : gmap string Source.Ref) : ires (list Source.Ref) := select_sources ids evidence [].

(** The JSON text of a proposal and its Sources, by which repeated ones are found. *)
Definition contentKey (c : Experience.Content) : json :=
  JObj [("situation", JStr (Experience.situation c)); ("action", JStr (Experience.action c));
        ("outcome", JStr (Experience.outcome c)); ("lesson", JStr (Experience.lesson c))]%string.
Definition sourceRefKeys (refs : list Source.Ref) : json :=
  JArr (map (fun r => JObj [("source_type", JStr (Source.sourceType r)); ("source_id", JStr (Source.sourceID r))]) refs)%string.
Definition candidate_key (c : Experience.Content) (srcs : list Source.Ref) : bytes :=
  json_bytes true true (JObj [("proposal", contentKey c); ("sources", sourceRefKeys srcs)])%string.

Fixpoint incubate_candidates (candidates : list IncubationCandidate) (evidence : gmap string Source.Ref) (seen : list bytes)
  : ires (list CandidateInput) :=
  match candidates with
  | [] => Ok []
  | c :: more =>
      let* selected := selectSources (ic_evidenceIDs c) evidence in
      let key := candidate_key (ic_proposal c) selected in
      if bool_decide (key ∈ seen) then incubate_candidates more evidence seen
      else
        let* input := map_err (fun _ => IInvalidOutput "generator returned an invalid output tree")
                        (NewCandidateInput (ic_proposal c) selected) in
        let* later := incubate_candidates more evidence (key :: seen) in
        Ok (input :: later)
  end.

(** [LLMCandidatePipeline.Incubate] *)
Definition Incubate (generator : IncubationInput -> ires (list IncubationCandidate)) (values : list V) : ires (list CandidateInput) :=
  let* projected := projectIncubation values in
  match projected with
  | None => Ok []
  | Some (input, evidence) =>
      let* output := generator input in
      incubate_candidates output evidence []
  end.
End pipeline.

(** ** The decoding of the model's answer *)

Definition decodeContent (v : jvalue) : dres Experience.Content :=
  let* ms := decodeGenerationObject v in
  let text name := let* raw := present ms name in into_string "" raw in
  let* situation := text "situation"%string in
  let* action := text "action"%string in
  let* outcome := text "outcome"%string in
  let* lesson := text "lesson"%string in
  let c := Experience.MkContent situation action outcome lesson in
  map_err (fun _ => DInvalid (HCheck "content")) (Experience.NewContent (Experience.fields c) c).

Definition decode_candidate_output (v : jvalue) : dres IncubationCandidate :=
  let* ms := decodeGenerationObject v in
  let* proposal_raw := present ms "proposal" in
  let* evidence_raw := present ms "evidence_ids" in
  let* proposal := decodeContent proposal_raw in
  let* values := decode_slice evidence_raw in
  let* ids := map_res (into_string "") values in
  map_err (fun _ => DInvalid (HCheck "evidence")) (NewIncubationCandidate proposal ids).

Definition decodeIncubationOutput (encoded : bytes) : dres (list IncubationCandidate) :=
  let* tree := of_option (read_json false encoded) DSyntax in
  let* ms := decodeGenerationObject tree in
  match field "candidates" ms with
  | None => Ok []
  | Some raw =>
      let* values := decode_slice raw in
      map_res decode_candidate_output values
  end.

(** ** Windows of Task Outcomes *)

Record IncubationWindow (V : Type) := MkIncubationWindow {
  iw_previous : Cursor; iw_next : Cursor; iw_generation : option Z; iw_highWatermark : Z;
  iw_values : list V; iw_available : list Source.Ref
}.
Arguments MkIncubationWindow {V}. Arguments iw_previous {V}. Arguments iw_next {V}. Arguments iw_generation {V}.
Arguments iw_highWatermark {V}. Arguments iw_values {V}. Arguments iw_available {V}.

Class ExperienceIncubationBackend (FS V : Type) := {
  ObserveIncubation : FS -> string -> Z -> ires (IncubationWindow V);
  ApplyIncubation : FS -> string -> list string -> list CandidateInput -> Cursor -> option Z -> ires unit * FS
}.

Record ExperienceIncubationResult := MkIncubationResult {
  xr_PreviousCursor : Z; xr_HighWatermark : Z; xr_CurrentCursor : Z; xr_ProcessedSourceCount : Z; xr_CandidateCount : Z
}.
Definition IncubationProcessed (r : ExperienceIncubationResult) : bool := xr_PreviousCursor r <? xr_CurrentCursor r.

Definition validateIncubationSources (plans : list CandidateInput) (available : list Source.Ref) : ires unit :=
  require forallb (fun plan => forallb (fun r => bool_decide (r ∈ available)) (pi_sources plan)) plans
    else IInvalidOutput "pipeline cited a Source outside the current incubation window" in
  Ok tt.

(** [backends] says whether the scope has a store of windows. *)
Record ExperienceIncubationApplication (V : Type) := MkIncubationApplication {
  ia_backends : string -> ires bool;
  ia_pipeline : list V -> ires (list CandidateInput)
}.
Arguments MkIncubationApplication {V}. Arguments ia_backends {V}. Arguments ia_pipeline {V}.

(** Identities for the plans: [fresh] answers the calls of the factory. *)
Fixpoint candidate_ids {A} (fresh : nat -> ires string) (n : nat) (plans : list A) : ires (list string) :=
  match plans with
  | [] => Ok []
  | _ :: more =>
      let* id := fresh n in
      let* later := candidate_ids fresh (Datatypes.S n) more in
      Ok (id :: later)
  end.

Definition no_result : ExperienceIncubationResult := MkIncubationResult 0 0 0 0 0.

(** [seen] is the store that is observed, and [st] the one that the window is applied
    to; the result comes with an error, or without. *)
Definition incubateWindow {FS V} `{ExperienceIncubationBackend FS V} (a : ExperienceIncubationApplication V) (fresh : nat -> ires string)
  (seen st : FS) (scope : string) (limit : Z) : ExperienceIncubationResult * option incubation_error * FS :=
  match (let* present := ia_backends a scope in
         require (present : bool) else IState "experience-incubation" in
         ObserveIncubation seen IncubationCursorName limit) with
  | Err e => (no_result, Some e, st)
  | Ok w =>
      let result n := MkIncubationResult (Sequence (iw_previous w)) (iw_highWatermark w) (Sequence (iw_next w))
                        (Z.of_nat (length (iw_values w))) n in
      if Sequence (iw_previous w) =? Sequence (iw_next w) then (result 0, None, st)
      else
        match iw_values w with
        | [] =>
            let (applied, st') := ApplyIncubation st IncubationCursorName [] [] (iw_next w) (iw_generation w) in
            match applied with Ok _ => (result 0, None, st') | Err e => (result 0, Some e, st') end
        | _ =>
            match (let* plans := ia_pipeline a (iw_values w) in
                   let* _ := validateIncubationSources plans (iw_available w) in
                   let* ids := candidate_ids fresh 0 plans in
                   Ok (plans, ids)) with
            | Err e => (result 0, Some e, st)
            | Ok (plans, ids) =>
                let (applied, st') := ApplyIncubation st IncubationCursorName ids plans (iw_next w) (iw_generation w) in
                match applied with
                | Ok _ => (result (Z.of_nat (length plans)), None, st')
                | Err e => (result 0, Some e, st')
                end
            end
        end
  end.

(** [Incubate], once it was admitted to write to the scope. *)
Definition IncubateScope {FS V} `{ExperienceIncubationBackend FS V} (a : ExperienceIncubationApplication V) fresh
  (seen st : FS) (scope : string) (limit : Z) : ExperienceIncubationResult * option incubation_error * FS :=
  if limit <? 1 then (no_result, Some ILimit, st) else incubateWindow a fresh seen st scope limit.

(** ** The relational store *)

Section sql.
Context {Tb C V S O : Type} {HA : Holds Tb Tables} {HCa : Holds Tb CandidateTables} {HS : Holds Tb SourceTables} {HC : Holds Tb CursorRows}
        {DC : Dynamic C} {CX : Carries C Experience.Content}
        {SV : SourceValues V O} {OB : Observations Tb O} {VS : Values V S}.

Record ExperienceIncubationStore := MkIncubationStore {
  xs_scope : string; xs_sources : SourceRepository V; xs_candidates : CandidateRepository Tb C
}.

Definition NewExperienceIncubationStore (scope : string) (sources : SourceRepository V) (candidates : CandidateRepository Tb C)
  : result store_error ExperienceIncubationStore :=
  let* _ := requireScope scope in
  Ok (MkIncubationStore scope sources candidates).

Context (store : ExperienceIncubationStore).
Notation scope := (xs_scope store).

(** [sourceevidence.Allows] *)
Definition Allows (value : V) : bool := is_ok (Require_ (S := S) value).

Definition allowed (rows : list (StoredSource V)) : list (StoredSource V) := List.filter (fun row => Allows (ss_value row)) rows.

Definition observe_incubation (binding : string) (limit : Z) : txn Tb (IncubationWindow V) :=
  Transaction (
    let! ac := observe_activation scope binding limit in
    match ac_actions ac with
    | [] => tx_ret (MkIncubationWindow (ac_previous ac) (ac_next ac) (ac_generation ac) (ac_highWatermark ac) [] [])
    | action :: _ =>
        let! rows := ListSources (xs_sources store) scope (after action) (Some (through action - after action)) in
        tx_ret (MkIncubationWindow (ac_previous ac) (ac_next ac) (ac_generation ac) (ac_highWatermark ac)
                  (map ss_value (allowed rows)) (map ss_ref (allowed rows)))
    end).

(** Whatever keeps a Source from being read makes the plan invalid. *)
Definition require_outcome (r : Source.Ref) : txn Tb unit :=
  let! stored := tx_catch (GetSource (xs_sources store) scope r) (fun _ => tx_err (invalid "evidence")) in
  tx_lift (map_err SMemory (Require_ (S := S) (ss_value stored))).

Definition create_planned (id : string) (plan : CandidateInput) : txn Tb unit :=
  let! _ := each (fun _ r => require_outcome r) 0 (pi_sources plan) in
  let! _ := CreateCandidate (xs_candidates store) scope id Experience.Family (inject (pi_proposal plan)) (pi_sources plan) []
              None (Some (pi_reason plan)) in
  tx_ret tt.

Definition apply_incubation (binding : string) (ids : list string) (plans : list CandidateInput) (next : Cursor)
  (expectedGeneration : option Z) : txn Tb unit :=
  need Nat.eqb (length ids) (length plans) else SArgument "candidate_ids" in
  Transaction (
    let! _ := each (fun _ p => create_planned (fst p) (snd p)) 0 (combine ids plans) in
    let! _ := Save scope binding next expectedGeneration in
    tx_ret tt).

#[local] Instance sql_incubation : ExperienceIncubationBackend (SessionOf Tb) V := {
  ObserveIncubation st binding limit := map_err IStore (fst (observe_incubation binding limit st));
  ApplyIncubation st binding ids plans next g :=
    let (r, st') := apply_incubation binding ids plans next g st in (map_err IStore r, st')
}.
End sql.

(** ** What the pipeline answers *)

Section pipeline_facts.
Context {V S : Type} {VS : Values V S} {PR : Projected V S}.
Implicit Types (values : list V) (evidence : gmap string Source.Ref).

(** The Sources that a plan may cite: the Task Outcomes of the window. *)
Definition outcome_ref (values : list V) (r : Source.Ref) : Prop :=
  exists value, value ∈ values /\ eligible value = true /\ r = Source.MkRef ContentType (Source.SourceName (source_value value)).

Lemma project_outcomes_spec values : forall evidence projected evidence',
  project_outcomes values evidence = Ok (projected, evidence') ->
  forall id r, evidence' !! id = Some r -> evidence !! id = Some r \/ outcome_ref values r.
Proof.
  induction values as [|value values IH]; intros evidence projected evidence' H id r Hr; cbn [project_outcomes] in H.
  { injection H as <- <-. by left. }
  destruct (eligible value) eqn:El.
  - bind_inv H. destruct a1 as [p e]. injection H as _ <-. apply map_err_ok, Source.source_ref_ok in Ha0 as [-> _].
    destruct (IH _ _ _ Ha1 _ _ Hr) as [Hi|(v & Hin & Hv)].
    + apply lookup_insert_Some in Hi as [[_ <-]|[_ Hi]]; [right; exists value; split; [left|done]|by left].
    + right. exists v. split; [by right|done].
  - destruct (IH _ _ _ H _ _ Hr) as [Hi|(v & Hin & Hv)]; [by left|right; exists v; split; [by right|done]].
Qed.

Lemma select_sources_spec ids evidence : forall seen selected,
  select_sources ids evidence seen = Ok selected ->
  NoDup selected /\ forall r, r ∈ selected -> Source.to_string r ∉ seen /\ exists id, id ∈ ids /\ evidence !! id = Some r.
Proof.
  induction ids as [|id ids IH]; intros seen selected H; cbn [select_sources] in H.
  { injection H as <-. split; [constructor|by intros r Hr%elem_of_nil]. }
  bind_inv H. apply of_option_ok_inv in Ha. destruct (bool_decide (Source.to_string a ∈ seen)) eqn:Es; rewrite ?Es in H.
  - apply IH in H as [H1 H2]. split; [done|]. intros r Hr. destruct (H2 r Hr) as (H3 & i & Hi & Hl). split; [done|]. exists i. split; [by right|done].
  - bind_inv H. injection H as <-. apply IH in Ha0 as [H1 H2]. apply bool_decide_eq_false in Es. split.
    + constructor; [|done]. intros Hin. destruct (H2 a Hin) as [H3 _]. set_solver.
    + intros r [->|Hr]%elem_of_cons; [split; [done|]; exists id; split; [by left|done]|].
      destruct (H2 r Hr) as (H3 & i & Hi & Hl). split; [set_solver|]. exists i. split; [by right|done].
Qed.

Lemma NewCandidateInput_ok proposal srcs input :
  NewCandidateInput proposal srcs = Ok input <->
  input = MkCandidateInput proposal srcs IncubationReason /\ 1 <= Z.of_nat (length srcs) <= MaxCandidateEvidence /\
  is_ok (map_res check_source srcs) = true.
Proof.
  unfold NewCandidateInput, evidence_count. split.
  - intros H. bind_inv H. injection H as <-. apply check_ok_inv, andb_true_iff in Ha as [H1%negb_true_iff%Z.ltb_ge H2%negb_true_iff%Z.ltb_ge].
    apply map_err_ok in Ha0. rewrite Ha0. split; [done|]. split; [lia|done].
  - intros (-> & [H1 H2] & H3). rewrite !(proj2 (Z.ltb_ge _ _)) by done. cbn. destruct (map_res check_source srcs); [done|discriminate].
Qed.

Lemma incubate_candidates_spec candidates evidence : forall seen inputs,
  incubate_candidates candidates evidence seen = Ok inputs ->
  NoDup inputs /\
  forall i, i ∈ inputs ->
    candidate_key (pi_proposal i) (pi_sources i) ∉ seen /\ pi_reason i = IncubationReason /\
    1 <= Z.of_nat (length (pi_sources i)) <= MaxCandidateEvidence /\ NoDup (pi_sources i) /\
    exists c, c ∈ candidates /\ pi_proposal i = ic_proposal c /\
      forall r, r ∈ pi_sources i -> exists id, id ∈ ic_evidenceIDs c /\ evidence !! id = Some r.
Proof.
  induction candidates as [|c candidates IH]; intros seen inputs H; cbn [incubate_candidates] in H.
  { injection H as <-. split; [constructor|by intros i Hi%elem_of_nil]. }
  bind_inv H. apply select_sources_spec in Ha as [Hn Hs].
  destruct (bool_decide (candidate_key (ic_proposal c) a ∈ seen)) eqn:Es; rewrite ?Es in H.
  - apply IH in H as [H1 H2]. split; [done|]. intros i Hi. destruct (H2 i Hi) as (H3 & H4 & H5 & H6 & c' & Hc & H7).
    do 4 (split; [done|]). exists c'. split; [by right|done].
  - bind_inv H. injection H as <-. apply map_err_ok, NewCandidateInput_ok in Ha as (-> & Hlen & _). apply IH in Ha0 as [H1 H2].
    apply bool_decide_eq_false in Es. split.
    + constructor; [|done]. intros Hin. destruct (H2 _ Hin) as [H3 _]. apply H3. by left.
    + intros i [->|Hi]%elem_of_cons; cbn [pi_proposal pi_sources pi_reason].
      * split; [done|]. split; [done|]. split; [done|]. split; [done|]. exists c. split; [by left|]. split; [done|].
        intros r Hr. by apply Hs.
      * destruct (H2 i Hi) as (H3 & H4 & H5 & H6 & c' & Hc & H7).
        apply not_elem_of_cons in H3 as [_ H3]. split; [done|]. do 3 (split; [done|]). exists c'. split; [by right|done].
Qed.

(** C20: whatever the model answers, the plans of an incubation are distinct, and each cites
    between 1 and 32 distinct Sources, which are Task Outcomes of the window. *)
Theorem incubate_grounded generator values plans :
  Incubate generator values = Ok plans ->
  NoDup plans /\
  forall plan, plan ∈ plans ->
    NoDup (pi_sources plan) /\ 1 <= Z.of_nat (length (pi_sources plan)) <= MaxCandidateEvidence /\
    pi_reason plan = IncubationReason /\ Forall (outcome_ref values) (pi_sources plan).
Proof.
  unfold Incubate, projectIncubation. intros H. bind_inv H. bind_inv Ha. destruct a0 as [projected evidence].
  destruct projected as [|e projected]; [injection Ha as <-; injection H as <-; split; [constructor|intros plan Hp; by apply elem_of_nil in Hp]|].
  bind_inv Ha. injection Ha as <-. bind_inv H. apply incubate_candidates_spec in H as [Hn Hall]. split; [done|].
  intros plan Hp. destruct (Hall plan Hp) as (_ & H1 & H2 & H3 & c & _ & _ & H4). do 3 (split; [done|]).
  apply Forall_forall. intros r Hr. destruct (H4 r Hr) as (id & _ & Hl).
  destruct (project_outcomes_spec _ _ _ _ Ha0 _ _ Hl) as [Hi|Ho]; [by rewrite lookup_empty in Hi|done].
Qed.

(** A Task Outcome with an empty content, which storage admits, fails every
    incubation of its window, whatever the model is. *)
Lemma empty_outcome_blocks generator values value :
  value ∈ values -> eligible value = true -> content_text value = ""%string -> is_ok (Incubate generator values) = false.
Proof.
  intros Hin He Ht. assert (Hp : forall evidence, is_ok (project_outcomes values evidence) = false).
  { induction values as [|v values IH]; intros evidence; [by apply elem_of_nil in Hin|]. cbn [project_outcomes].
    apply elem_of_cons in Hin as [<-|Hin]; [rewrite He, Ht; reflexivity|].
    destruct (eligible v); [|by apply IH]. destruct (check _ _); cbn; [|done]. destruct (map_err _ _) as [r|]; cbn; [|done].
    specialize (IH Hin (<[evidence_name v := r]> evidence)). by destruct (project_outcomes values _). }
  unfold Incubate, projectIncubation. specialize (Hp ∅). by destruct (project_outcomes values ∅) as [[p e]|e].
Qed.
End pipeline_facts.

(** ** What the relational store does *)

Section sql_facts.
Context {Tb C V S O : Type} {HA : Holds Tb Tables} {HCa : Holds Tb CandidateTables} {HS : Holds Tb SourceTables} {HC : Holds Tb CursorRows}
        {DC : Dynamic C} {CX : Carries C Experience.Content}
        {SV : SourceValues V O} {OB : Observations Tb O} {VS : Values V S}
        {AC : Apart Tb Tables CandidateTables} {CSo : Apart Tb CandidateTables SourceTables} {CCu : Apart Tb CandidateTables CursorRows}
        {ACu : Apart Tb Tables CursorRows} {SCu : Apart Tb SourceTables CursorRows}.
Context (store : ExperienceIncubationStore (Tb := Tb) (C := C) (V := V))
        (Hcodec : forall fam codec, xs_candidates store !! fam = Some codec -> scoped_codec codec).
Implicit Types (s : SessionOf Tb) (t : Tb).
Notation scope := (xs_scope store).
Notation sources t := (sources_of t).
Notation candidate_rows t := (rows t : CandidateTables).
Notation candidates_fine := (fun t => candidates_ok (candidate_rows t)).
Notation allows := (Allows (V := V) (S := S)).

Lemma observe_incubation_ok binding limit s w s' :
  window_tables candidates_fine (tables s) -> observe_incubation (S := S) store binding limit s = (Ok w, s') ->
  let W := sql_windows scope (xs_sources store) allows candidates_fine binding in
  observation limit s (iw_previous w) (iw_next w) (iw_generation w) (iw_values w) /\ iw_highWatermark w = ws_head s.
Proof.
  intros Ht H W. apply transaction_ok in H as (s1 & s2 & E1 & H & _). unfold W. clear W.
  assert (Es : forall prev next g vs, let W := sql_windows scope (xs_sources store) allows candidates_fine binding in
    observation limit s1 prev next g vs -> observation limit s prev next g vs).
  { intros prev next g vs W [O1 O2 O3 O4 O5]. cbn in *. rewrite E1 in *. by split. }
  rewrite <- E1 in Ht. tx_inv H. apply (observe_activation_ok _ _ _ _ _ _ _ Ht) in Ha as (E & Hg & Hp & Hh & Hl & Hn & Hacts). destruct Ht as (Hj & _).
  destruct Hacts as [[Ea En]|Ea]; rewrite Ea in H.
  - apply tx_ret_ok in H as [<- _]. cbn. rewrite <- E1. split; [|done]. apply Es. split; cbn; try done. rewrite En. lia.
  - cbn [after through] in H. tx_inv H. apply tx_ret_ok in H as [<- _]. apply ListSources_ok in Ha as (_ & H0 & Hrows); [|by rewrite E].
    rewrite E in Hrows. cbn. rewrite <- E1. split; [|done]. apply Es. split; cbn; try done. intros Hlt. pose proof (head_nonneg _ scope Hj) as Hnn.
    assert (Hb : Sequence (ac_next a) <= head_of (sources (tables s1)) scope).
    { rewrite Hn in Hlt |- *. unfold SourceWindowPolicy_Activate in *. cbn in *. destruct (_ <=? _); cbn in *; lia. }
    split; [lia|]. split; [done|]. unfold limited in Hrows.
    replace (Z.to_nat (Sequence (ac_next a) - Sequence (ac_previous a)))
      with (Z.to_nat (Sequence (ac_next a)) - Z.to_nat (Sequence (ac_previous a)))%nat in Hrows by lia.
    erewrite listed_window in Hrows; [|done|lia|done|done]. exact (decoded_values _ allows _ _ Hrows).
Qed.

(** The Candidate of a plan. *)
Definition planned_candidate (id : string) (plan : CandidateInput) : Candidate C :=
  MkCandidate id 1 Experience.Family Pending (inject (pi_proposal plan)) (pi_sources plan) [] None (Some (pi_reason plan)) None None.

(** A Source that was read, and that may be evidence. *)
Definition outcome_there (t : Tb) (r : Source.Ref) : Prop :=
  exists s0 s0' st, sources (tables s0) = sources t /\ GetSource (xs_sources store) scope r s0 = (Ok st, s0') /\ Require_ (S := S) (ss_value st) = Ok tt.

Definition planned_stored (t0 : Tb) (id : string) (plan : CandidateInput) (t : Tb) : Prop :=
  let c := planned_candidate id plan in
  ct_heads (candidate_rows t0) !! (scope, id) = None /\
  valid_candidate c /\ holds scope c t /\ stored_version (xs_candidates store) scope c t /\ Forall (outcome_there t0) (pi_sources plan).

(** Candidates were added, and nothing else changed. *)
Record added (t t' : Tb) : Prop := {
  ad_only : changed_only CandidateTables t t';
  ad_ok : candidates_ok (candidate_rows t');
  ad_heads : ct_heads (candidate_rows t) ⊆ ct_heads (candidate_rows t');
  ad_versions : ct_versions (candidate_rows t) ⊆ ct_versions (candidate_rows t')
}.

Lemma added_refl t : candidates_ok (candidate_rows t) -> added t t.
Proof. intros H. split; [by apply changed_same|done|done|done]. Qed.

Lemma added_trans t1 t2 t3 : added t1 t2 -> added t2 t3 -> added t1 t3.
Proof. intros [O1 _ H1 V1] [O2 K2 H2 V2]. split; [by etransitivity|done|by etransitivity|by etransitivity]. Qed.

Lemma planned_later t0 id plan t t' : planned_stored t0 id plan t -> added t t' -> planned_stored t0 id plan t'.
Proof.
  intros (H1 & H2 & H3 & (row & H4 & H5) & H6) [_ _ Hh Hv]. split; [done|]. split; [done|].
  split; [eapply lookup_weaken; [exact H3|done]|]. split; [|done]. exists row. split; [done|]. by eapply lookup_weaken.
Qed.

(** The state [t0] has the Sources of [t], and fewer Candidates. *)
Lemma planned_earlier t0 t id plan t' : added t0 t -> planned_stored t id plan t' -> planned_stored t0 id plan t'.
Proof.
  intros [Hon _ Hh _] (H1 & H2 & H3 & H4 & H5). split; [|do 3 (split; [done|])].
  - apply eq_None_not_Some. intros [h E]. pose proof (lookup_weaken _ _ _ _ E Hh). congruence.
  - eapply Forall_impl; [exact H5|]. intros r (s0 & s0' & st & E & Hg & Hr). exists s0, s0', st. split; [|done].
    rewrite E. unfold sources_of. exact (changed_apart _ _ Hon).
Qed.

Lemma create_planned_ok id plan s u s' :
  candidates_ok (candidate_rows (tables s)) -> create_planned (S := S) store id plan s = (Ok u, s') ->
  added (tables s) (tables s') /\ planned_stored (tables s) id plan (tables s').
Proof.
  intros Hok H. unfold create_planned in H. tx_inv H. apply tx_ret_ok in H as [_ <-].
  apply (each_reads _ outcome_there) in Ha as [E Hsrc].
  2:{ intros _ r s1 v s2 H. unfold require_outcome in H. tx_inv H. tx_pure. apply tx_catch_ok in Ha1; [|done].
      pose proof (GetSource_keeps _ _ _ _ _ _ Ha1) as E. destruct a2. split; [done|]. by exists s1, st0, a1. }
  apply CreateCandidate_ok in Ha0 as (Hc & Hv & Hn & _ & [Hst Ho] & Hh & Hrow); [|done]. rewrite E in *.
  assert (Hb : exists row, candidate_rows (tables s') = with_version (candidate_rows (tables s)) scope id row
                 (MkCandidateHead (cv_family row) 1 Pending None None)).
  { destruct Hst; [by eexists|congruence..]. }
  destruct Hb as [row Eb]. split.
  - split; [done|by eapply candidate_step_ok|rewrite Eb; cbn; by apply insert_subseteq|rewrite Eb; cbn; apply insert_subseteq].
    pose proof (co_heads _ Hok scope id) as Hh0. rewrite Hn in Hh0. apply Hh0.
  - unfold planned_stored, planned_candidate. rewrite Hc in *. done.
Qed.

Lemma create_all_ok l : forall k s u s',
  candidates_ok (candidate_rows (tables s)) -> each (fun _ p => create_planned (S := S) store (fst p) (snd p)) k l s = (Ok u, s') ->
  added (tables s) (tables s') /\ Forall (fun p => planned_stored (tables s) (fst p) (snd p) (tables s')) l.
Proof.
  induction l as [|[id plan] l IH]; intros k s u s' Hok H; cbn [each] in H.
  - apply tx_ret_ok in H as [_ ->]. split; [by apply added_refl|constructor].
  - tx_inv H. cbn [fst snd] in Ha. apply create_planned_ok in Ha as [A1 P1]; [|done]. apply IH in H as [A2 P2]; [|apply A1].
    split; [by eapply added_trans|]. constructor; [by eapply planned_later|]. eapply Forall_impl; [exact P2|].
    intros p. by apply planned_earlier.
Qed.

(** What applying a window did. *)
Record incubated (binding : string) (ids : list string) (plans : list CandidateInput) (next : Cursor) (g : option Z) (t t' : Tb) : Prop := {
  in_sources : sources t' = sources t;
  in_artifacts : (rows t' : Tables) = rows t;
  in_candidates : candidates_ok (candidate_rows t');
  in_kept : kept_candidates (candidate_rows t) (candidate_rows t');
  in_planned : Forall2 (fun id plan => planned_stored t id plan t') ids plans;
  in_generation : option_map snd (cursor_at t scope binding) = g;
  in_cursor : cursor_at t' scope binding = Some (next, match g with Some g => g + 1 | None => 1 end);
  in_cursors : cursors_ok (rows t')
}.

Lemma combine_Forall2 {X Y} (P : X -> Y -> Prop) (l : list X) (k : list Y) :
  length l = length k -> Forall (fun p => P (fst p) (snd p)) (combine l k) -> Forall2 P l k.
Proof.
  revert k. induction l as [|x l IH]; intros [|y k]; cbn; try done. intros [= Hl] H. inversion_clear H. constructor; auto.
Qed.

Lemma apply_incubation_ok binding ids plans next g s u s' :
  window_tables candidates_fine (tables s) -> in_int64 (Sequence next) -> match g with Some g => g <= max_int64 | None => True end ->
  apply_incubation (S := S) store binding ids plans next g s = (Ok u, s') -> incubated binding ids plans next g (tables s) (tables s').
Proof.
  intros (Hj & Hc & Hr) Hin Hg H. unfold apply_incubation in H. tx_inv H. tx_pure. apply Nat.eqb_eq in Ha.
  apply transaction_ok in H as (s1 & s2 & E1 & H & E2). rewrite E2, <- E1 in *. clear E1 E2 s'.
  tx_inv H. apply tx_ret_ok in H as [_ <-]. apply create_all_ok in Ha0 as [A P]; [|done].
  pose proof (ad_only _ _ A) as Hon.
  assert (Ec : (rows (tables st) : CursorRows) = rows (tables s1)) by exact (changed_apart _ _ Hon).
  apply Save_cursor in Ha1 as (C1 & Hc' & H1 & H2 & H3); [|by rewrite Ec|done|done].
  assert (Ecand : candidate_rows (tables s2) = candidate_rows (tables st)) by exact (changed_apart_left _ _ C1).
  split.
  - unfold sources_of. rewrite (changed_apart_left _ _ C1). exact (changed_apart _ _ Hon).
  - rewrite (changed_apart_left _ _ C1). exact (changed_apart_left _ _ Hon).
  - rewrite Ecand. apply A.
  - rewrite Ecand. split; [apply A|]. intros k h E. exists h. split; [by eapply lookup_weaken; [|apply A]|]. done.
  - apply combine_Forall2; [done|]. eapply Forall_impl; [exact P|]. intros [id plan] (P1 & P2 & P3 & (row & P4 & P5) & P6). cbn in *.
    split; [done|]. split; [done|]. unfold holds, stored_version. rewrite Ecand. split; [done|]. split; [by exists row|done].
  - unfold cursor_at, cursor_row in *. by rewrite Ec in H1.
  - done.
  - done.
Qed.

Lemma apply_incubation_err binding ids plans next g s e s' :
  apply_incubation (S := S) store binding ids plans next g s = (Err e, s') -> tables s' = tables s.
Proof.
  unfold apply_incubation. destruct (Nat.eqb _ _); cbn; [apply transaction_err|by intros [= _ <-]].
Qed.

(** C19: applying a window of Task Outcomes creates one pending Candidate per plan and moves the
    cursor together, or changes nothing: when the cursor is no longer at the observed
    generation, an ID is taken, a cited Source is missing or may not be evidence, or a
    statement fails.  The IDs were free, every cited Source was read and admitted, and no
    other table changed. *)
Theorem incubation_applied_once binding ids plans next g s r s' :
  window_tables candidates_fine (tables s) -> in_int64 (Sequence next) -> match g with Some g => g <= max_int64 | None => True end ->
  apply_incubation (S := S) store binding ids plans next g s = (r, s') ->
  match r with
  | Err _ => tables s' = tables s
  | Ok _ => incubated binding ids plans next g (tables s) (tables s')
  end.
Proof.
  intros Ht Hin Hg H. destruct r as [u|e]; [by eapply apply_incubation_ok|by eapply apply_incubation_err].
Qed.
End sql_facts.

(** ** Incubations of one scope *)

(** What the application relies on. *)
Class ExperienceIncubationLaws (FS V : Type) `{ExperienceIncubationBackend FS V} := {
  incubation_windows : string -> WindowStore FS V;
  observe_incubation_law st binding limit w :
    let W := incubation_windows binding in
    ws_ok st -> ObserveIncubation st binding limit = Ok w ->
    observation limit st (iw_previous w) (iw_next w) (iw_generation w) (iw_values w);
  apply_incubation_law st binding ids plans c g r st' :
    let W := incubation_windows binding in
    ws_ok st -> in_int64 (Sequence c) -> match g with Some g => g <= max_int64 | None => True end ->
    ApplyIncubation st binding ids plans c g = (r, st') -> applied st c g (is_ok r) st'
}.

Section laws.
Context {Tb C V S O : Type} {HA : Holds Tb Tables} {HCa : Holds Tb CandidateTables} {HS : Holds Tb SourceTables} {HC : Holds Tb CursorRows}
        {DC : Dynamic C} {CX : Carries C Experience.Content}
        {SV : SourceValues V O} {OB : Observations Tb O} {VS : Values V S}
        {AC : Apart Tb Tables CandidateTables} {CSo : Apart Tb CandidateTables SourceTables} {CCu : Apart Tb CandidateTables CursorRows}
        {ACu : Apart Tb Tables CursorRows} {SCu : Apart Tb SourceTables CursorRows}.
Context (store : ExperienceIncubationStore (Tb := Tb) (C := C) (V := V))
        (Hcodec : forall fam codec, xs_candidates store !! fam = Some codec -> scoped_codec codec).

#[local] Instance sql_incubation_laws :
  @ExperienceIncubationLaws (SessionOf Tb) V (sql_incubation (S := S) store).
Proof.
  refine {| incubation_windows := sql_windows (xs_scope store) (xs_sources store) (Allows (S := S)) (fun t : Tb => candidates_ok (rows t)) |}.
  - intros st binding limit w W Hok H. cbn in H. destruct (observe_incubation (S := S) store binding limit st) as [[w'|e] st'] eqn:E; [|done].
    injection H as ->. by apply observe_incubation_ok in E as [E _].
  - intros st binding ids plans c g r st' W Hok Hc Hg H. cbn [ApplyIncubation sql_incubation] in H. unfold applied, W. cbn.
    destruct (apply_incubation (S := S) store binding ids plans c g st) as [[u|e] st2] eqn:E; injection H as <- <-; cbn.
    + apply apply_incubation_ok in E; [|done..]. destruct E as [E1 E2 E3 E4 E5 E6 E7 E8]. rewrite E1.
      split; [|done]. split; [by rewrite E1; apply Hok|]. done.
    + apply apply_incubation_err in E. by rewrite E.
Defined.
End laws.

Section incubations.
Context {FS V : Type} {B : ExperienceIncubationBackend FS V} {L : ExperienceIncubationLaws FS V}.
Context (a : ExperienceIncubationApplication V) (scope : string) (limit : Z).
#[local] Instance outcome_windows : WindowStore FS V := incubation_windows IncubationCursorName.

(** What an incubation that ended without an error committed. *)
Definition incubated_window (seen : FS) (r : ExperienceIncubationResult * option incubation_error) : list (Committed (V := V)) :=
  match ObserveIncubation seen IncubationCursorName limit, r with
  | Ok w, (result, None) =>
      if IncubationProcessed result then [MkCommitted (MkWindow (xr_PreviousCursor result) (xr_CurrentCursor result)) (iw_values w)] else []
  | _, _ => []
  end.

Definition incubating (seen st : FS) (log : list Committed) (st' : FS) : Prop :=
  exists fresh r, incubateWindow a fresh seen st scope limit = (r, st') /\ log = incubated_window seen r.

Lemma incubation_effect seen st log st' :
  window_state limit st -> observed_of limit seen st -> incubating seen st log st' -> window_effect st log st'.
Proof.
  intros Hst Hobs (fresh & r & H & ->). unfold incubateWindow in H.
  assert (Hkeep : forall res e, (res, Some e, st) = (r, st') -> window_effect st (incubated_window seen r) st').
  { intros res e [= <- <-]. unfold incubated_window. destruct (ObserveIncubation _ _ _); by eapply effect_nothing. }
  destruct (let* present := _ in _) as [w|e] eqn:Ew; [|by apply (Hkeep no_result e)].
  apply bind_ok_inv in Ew as (present & _ & Ew). apply bind_ok_inv in Ew as (u & _ & Ew). pose proof Ew as Ho.
  apply observe_incubation_law in Ho; [|apply Hobs]. pose proof (observation_bounds _ _ _ _ _ _ (proj1 Hobs) Ho) as (Hb & Hin & Hg).
  destruct (Z.eqb_spec (Sequence (iw_previous w)) (Sequence (iw_next w))) as [He|Hne].
  { injection H as <- <-. unfold incubated_window. rewrite Ew. unfold IncubationProcessed. cbn. rewrite He, Z.ltb_irrefl. by eapply effect_nothing. }
  assert (Happly : forall ids plans n, 
    (let (applied, st2) := ApplyIncubation st IncubationCursorName ids plans (iw_next w) (iw_generation w) in
     match applied with
     | Ok _ => (MkIncubationResult (Sequence (iw_previous w)) (iw_highWatermark w) (Sequence (iw_next w)) (Z.of_nat (length (iw_values w))) n, None, st2)
     | Err e => (MkIncubationResult (Sequence (iw_previous w)) (iw_highWatermark w) (Sequence (iw_next w)) (Z.of_nat (length (iw_values w))) 0, Some e, st2)
     end) = (r, st') -> window_effect st (incubated_window seen r) st').
  { intros ids plans n Ha. destruct (ApplyIncubation st IncubationCursorName ids plans (iw_next w) (iw_generation w)) as [res st2] eqn:Ea.
    apply apply_incubation_law in Ea; [|apply Hst|done|done].
    eapply effect_applied in Ea; [|done|exact Hobs|exact Ho|by apply not_eq_sym]. unfold incubated_window. rewrite Ew.
    destruct res as [v|e]; injection Ha as <- <-; cbn in *; [|done]. unfold IncubationProcessed. cbn. rewrite (proj2 (Z.ltb_lt _ _)) by lia. exact Ea. }
  destruct (iw_values w) as [|v vs] eqn:Ev; [by apply (Happly [] [] 0)|]. rewrite <- Ev in *.
  destruct (let* plans := _ in _) as [[plans ids]|e]; [by apply (Happly ids plans (Z.of_nat (length plans)))|by eapply Hkeep].
Qed.

(** The plans of a committed window are what the pipeline made of its values, none
    if there are none, and they were applied by the step that committed it. *)
Definition plans_of (values : list V) (plans : list CandidateInput) : Prop :=
  match values with [] => plans = [] | _ => ia_pipeline a values = Ok plans end.

Definition window_planned (st st' : FS) (c : Committed) : Prop :=
  exists ids plans g u, plans_of (cw_values c) plans /\
    ApplyIncubation st IncubationCursorName ids plans (NewCursor (through (cw_window c))) g = (Ok u, st').

Lemma incubating_planned seen st log st' : incubating seen st log st' -> Forall (window_planned st st') log.
Proof.
  intros (fresh & r & H & ->). unfold incubated_window. destruct (ObserveIncubation seen _ _) as [w|e] eqn:Ew; [|constructor].
  destruct r as [result [e|]]; [constructor|]. destruct (IncubationProcessed result) eqn:Ep; [|constructor]. apply Forall_singleton.
  unfold incubateWindow in H. rewrite Ew in H. destruct (let* present := _ in _) as [w'|e] eqn:Eo; [|done].
  apply bind_ok_inv in Eo as (present & _ & Eo). apply bind_ok_inv in Eo as (u & _ & [= <-]).
  destruct (Z.eqb_spec (Sequence (iw_previous w)) (Sequence (iw_next w))) as [He|_].
  { injection H as <- _. unfold IncubationProcessed in Ep. cbn in Ep. by rewrite He, Z.ltb_irrefl in Ep. }
  assert (En : NewCursor (Sequence (iw_next w)) = iw_next w) by (by destruct (iw_next w)). unfold window_planned, plans_of.
  destruct (iw_values w) as [|v vs] eqn:Ev.
  - destruct (ApplyIncubation st _ _ _ _ _) as [[u1|e] st2] eqn:Ea; [|done]. injection H as <- <-. cbn. rewrite En. eauto 6.
  - destruct (let* plans := _ in _) as [[plans ids]|e] eqn:Eplans; [|done]. bind_inv Eplans. injection Eplans as -> ->.
    destruct (ApplyIncubation st _ _ _ _ _) as [[u1|e] st2] eqn:Ea; [|done]. injection H as <- <-. cbn. rewrite En. eauto 6.
Qed.

(** A window with an empty Task Outcome is never committed: the cursor stays before
    it, whatever the model answers. *)
Lemma empty_outcome_stalls {S} {VS : Values V S} {PR : Projected V S} generator fresh seen st w value :
  ia_pipeline a = Incubate generator -> ObserveIncubation seen IncubationCursorName limit = Ok w ->
  value ∈ iw_values w -> eligible value = true -> content_text value = ""%string ->
  snd (incubateWindow a fresh seen st scope limit) = st.
Proof.
  intros Hp Hw Hin He Ht. pose proof (empty_outcome_blocks generator _ _ Hin He Ht) as Hb. unfold incubateWindow. rewrite Hw, Hp.
  destruct (ia_backends a scope) as [p|e]; [|done]. cbn. destruct p; [|done]. cbn. destruct (_ =? _); [done|].
  destruct (iw_values w) as [|v vs]; [by apply elem_of_nil in Hin|]. by destruct (Incubate generator (v :: vs)).
Qed.
End incubations.

(** ** Incubations of a scope in the relational store *)

Section relational.
Context {Tb C V S O : Type} {HA : Holds Tb Tables} {HCa : Holds Tb CandidateTables} {HS : Holds Tb SourceTables} {HC : Holds Tb CursorRows}
        {DC : Dynamic C} {CX : Carries C Experience.Content}
        {SV : SourceValues V O} {OB : Observations Tb O} {VS : Values V S}
        {AC : Apart Tb Tables CandidateTables} {CSo : Apart Tb CandidateTables SourceTables} {CCu : Apart Tb CandidateTables CursorRows}
        {ACu : Apart Tb Tables CursorRows} {SCu : Apart Tb SourceTables CursorRows}.
Context (store : ExperienceIncubationStore (Tb := Tb) (C := C) (V := V))
        (Hcodec : forall fam codec, xs_candidates store !! fam = Some codec -> scoped_codec codec).
Context (a : ExperienceIncubationApplication V) (limit : Z).
Implicit Types st : SessionOf Tb.
Notation scope := (xs_scope store).

#[local] Instance relational_incubation : ExperienceIncubationBackend (SessionOf Tb) V := sql_incubation (S := S) store.
#[local] Instance relational_incubation_laws : ExperienceIncubationLaws (SessionOf Tb) V := sql_incubation_laws (S := S) store Hcodec.
#[local] Existing Instance outcome_windows.

(** The position of the cursor of the incubations. *)
Definition incubated_to st : Z := default 0 (option_map (fun x => Sequence (fst x)) (cursor_at (tables st) scope IncubationCursorName)).

(** The Candidates of a committed window are those of what the pipeline made of its
    values, and they and the cursor were written by one transaction. *)
Definition window_offered st st' (c : Committed (V := V)) : Prop :=
  exists ids plans g, plans_of a (cw_values c) plans /\
    apply_incubation (S := S) store IncubationCursorName ids plans (NewCursor (through (cw_window c))) g st = (Ok tt, st').

Lemma incubating_offered seen st log st' : incubating a scope limit seen st log st' -> Forall (window_offered st st') log.
Proof.
  intros H. apply incubating_planned in H. eapply Forall_impl; [exact H|].
  intros c (ids & plans & g & u & H1 & H2). exists ids, plans, g. split; [done|]. cbn [ApplyIncubation relational_incubation sql_incubation] in H2.
  destruct (apply_incubation store _ ids plans _ g st) as [[[]|e] st2]; [|done]. by injection H2 as _ ->.
Qed.

(** C18: however the incubations of a scope interleave with each other and with other
    writers, which keep the cursor and what the journal holds, the windows of Sources
    that they commit follow each other without gap or overlap.  The values of all of
    them are, in order, those that the rows of the journal between the first cursor
    and the current one decode to, less those that may not be evidence, so each Task
    Outcome is offered once; and each window's values are those of the rows between
    its own bounds, are what the pipeline was given, and the Candidates of its answer
    were stored by the transaction that moved the cursor to its end. *)
Theorem incubation_windows_tile st0 w :
  window_state limit st0 -> windows_reachable limit (incubating a scope limit) st0 w ->
  let journal_values := journal_values scope (xs_sources store) (Allows (S := S)) (sources_of (tables (wo_store w))) in
  tiles (incubated_to st0) (incubated_to (wo_store w)) (map cw_window (wo_log w)) /\
  journal_values (incubated_to st0) (incubated_to (wo_store w)) (concat (map cw_values (wo_log w))) /\
  Forall (fun c => journal_values (after (cw_window c)) (through (cw_window c)) (cw_values c)) (wo_log w) /\
  Forall (fun c => exists w1 w2, windows_reachable limit (incubating a scope limit) st0 w1 /\
                     world_moves limit (incubating a scope limit) w1 w2 /\
                     window_offered (wo_store w1) (wo_store w2) c) (wo_log w).
Proof.
  intros Hst Hr. cbv zeta. destruct (windows_tile limit _ (incubation_effect a scope limit) st0 w Hst Hr) as (H1 & H2 & H3).
  split; [exact H1|]. split; [exact H2|]. split; [exact H3|].
  apply (windows_committed limit _ _ st0 w incubating_offered Hr).
Qed.
End relational.

(** ** Witnesses

    A scope with two Task Outcomes, and a model that answers twice with the same
    Experience. *)

Record IncubationTables := MkIncubationTables {
  it_artifacts : Tables; it_candidates : CandidateTables; it_sources : SourceTables; it_cursors : CursorRows
}.

#[export] Instance incubation_holds_artifacts : Holds IncubationTables Tables.
Proof.
  refine {| rows := it_artifacts; with_rows r t := MkIncubationTables r (it_candidates t) (it_sources t) (it_cursors t) |}; by try intros [].
Defined.
#[export] Instance incubation_holds_candidates : Holds IncubationTables CandidateTables.
Proof.
  refine {| rows := it_candidates; with_rows r t := MkIncubationTables (it_artifacts t) r (it_sources t) (it_cursors t) |}; by try intros [].
Defined.
#[export] Instance incubation_holds_sources : Holds IncubationTables SourceTables.
Proof.
  refine {| rows := it_sources; with_rows r t := MkIncubationTables (it_artifacts t) (it_candidates t) r (it_cursors t) |}; by try intros [].
Defined.
#[export] Instance incubation_holds_cursors : Holds IncubationTables CursorRows.
Proof.
  refine {| rows := it_cursors; with_rows r t := MkIncubationTables (it_artifacts t) (it_candidates t) (it_sources t) r |}; by try intros [].
Defined.
#[export] Instance incubation_artifacts_candidates : Apart IncubationTables Tables CandidateTables. Proof. by split. Qed.
#[export] Instance incubation_candidates_sources : Apart IncubationTables CandidateTables SourceTables. Proof. by split. Qed.
#[export] Instance incubation_candidates_cursors : Apart IncubationTables CandidateTables CursorRows. Proof. by split. Qed.
#[export] Instance incubation_artifacts_cursors : Apart IncubationTables Tables CursorRows. Proof. by split. Qed.
#[export] Instance incubation_sources_cursors : Apart IncubationTables SourceTables CursorRows. Proof. by split. Qed.

#[local] Instance outcome_projected : Projected string Ref := {
  content_text name := name;
  content_metadata _ := JObj [("kind", JStr TaskOutcomeSourceKind)]%string;
  text_evidence _ := Err EUnacceptedObservation;
  content_value _ := JNull
}.

Definition a_lesson : Experience.Content := Experience.MkContent "a late release" "freeze the branch" "it shipped" "freeze early".
Definition two_answers (input : IncubationInput) : ires (list IncubationCandidate) :=
  let c := MkIncubationCandidate a_lesson (map ie_evidenceID input) in Ok [c; c].

Definition two_outcomes : list string := ["notes"; "plan"]%string.
Definition one_plan : CandidateInput :=
  MkCandidateInput a_lesson [Source.MkRef "content" "notes"; Source.MkRef "content" "plan"] IncubationReason.

Lemma incubate_grounded_witness :
  Incubate (S := Ref) two_answers two_outcomes = Ok [one_plan] /\
  Forall (outcome_ref (S := Ref) two_outcomes) (pi_sources one_plan).
Proof.
  assert (E : Incubate (S := Ref) two_answers two_outcomes = Ok [one_plan]) by (vm_compute; reflexivity).
  split; [exact E|].
  destruct (incubate_grounded (S := Ref) two_answers two_outcomes [one_plan] E) as [_ H].
  destruct (H one_plan) as (_ & _ & _ & Hs); [left|exact Hs].
Defined.

Definition incubation_codec : ArtifactCodec IncubationTables Proposal :=
  match ExperienceArtifactCodec (Tb := IncubationTables) with
  | Ok c => c
  | Err _ => MkCodec "" [] (fun _ => None) (fun _ _ => tx_err SDriver) (fun _ _ _ _ => tx_err SDriver)
  end.
Definition incubation_codecs : CandidateRepository IncubationTables Proposal := {[ Experience.Family := incubation_codec ]}.

Lemma incubation_codec_scoped fam codec : incubation_codecs !! fam = Some codec -> scoped_codec codec.
Proof.
  unfold incubation_codecs. intros H. apply (lookup_singleton_Some (M := gmap string)) in H as [_ <-].
  assert (E : ExperienceArtifactCodec (Tb := IncubationTables) = Ok incubation_codec) by reflexivity. by eapply new_codec_reads.
Qed.

Definition demo_store : ExperienceIncubationStore (Tb := IncubationTables) (C := Proposal) (V := string) :=
  MkIncubationStore "team" demo_sources incubation_codecs.

(** The scope with the Sources [notes] and [plan]. *)
Definition outcome_tables : IncubationTables :=
  MkIncubationTables
    (MkTables {[ ("team"%string, demo_source); ("team"%string, Source.MkRef "content" "plan") ]} ∅ ∅ ∅ ∅)
    (MkCandidateTables ∅ ∅) two_sources ∅.
Definition outcome_session : SessionOf IncubationTables := MkSession outcome_tables [].

Lemma outcome_window : window_tables (fun t => candidates_ok (it_candidates t)) outcome_tables.
Proof.
  split; [exact two_sources_ok|]. split; [intros k payload g H; cbn in H; by rewrite lookup_empty in H|].
  split; cbn; [intros sc id; rewrite lookup_empty; intros n; by rewrite lookup_empty|].
  intros sc id h n row H. by rewrite lookup_empty in H.
Qed.

Definition demo_incubated := apply_incubation (S := Ref) demo_store IncubationCursorName ["candidate-1"%string] [one_plan] (NewCursor 2) None outcome_session.
(** The same window again. *)
Definition demo_again :=
  apply_incubation (S := Ref) demo_store IncubationCursorName ["candidate-2"%string] [one_plan] (NewCursor 2) None (snd demo_incubated).

Lemma incubation_applied_once_witness :
  incubated (S := Ref) demo_store IncubationCursorName ["candidate-1"%string] [one_plan] (NewCursor 2) None outcome_tables (tables (snd demo_incubated)) /\
  is_ok (fst demo_again) = false.
Proof.
  split; [|vm_compute; reflexivity]. assert (E : is_ok (fst demo_incubated) = true) by (vm_compute; reflexivity).
  pose proof (incubation_applied_once (S := Ref) demo_store incubation_codec_scoped IncubationCursorName ["candidate-1"%string] [one_plan]
    (NewCursor 2) None outcome_session (fst demo_incubated) (snd demo_incubated) outcome_window
    ltac:(unfold in_int64, min_int64, max_int64; cbn; lia) I (surjective_pairing _)) as H.
  destruct (fst demo_incubated) as [u|e]; [exact H|discriminate E].
Defined.

#[local] Instance demo_incubation : ExperienceIncubationBackend (SessionOf IncubationTables) string := sql_incubation (S := Ref) demo_store.
#[local] Instance demo_incubation_laws : ExperienceIncubationLaws (SessionOf IncubationTables) string :=
  sql_incubation_laws (S := Ref) demo_store incubation_codec_scoped.
#[local] Existing Instance outcome_windows.

Definition demo_application : ExperienceIncubationApplication string :=
  MkIncubationApplication (fun _ => Ok true) (Incubate (S := Ref) two_answers).
Definition one_incubation :=
  incubateWindow demo_application (fun n => Ok ("candidate-" +:+ pretty n)) outcome_session outcome_session "team" IncubationWindowLimit.

(** The first incubation of the scope. *)
Definition incubation_world : WindowWorld :=
  MkWorld (snd one_incubation) [outcome_session] ([] ++ incubated_window IncubationWindowLimit outcome_session (fst one_incubation)).

Lemma incubation_windows_tile_witness :
  wo_log incubation_world = [MkCommitted (MkWindow 0 2) two_outcomes] /\
  journal_values (Tb := IncubationTables) "team" demo_sources (Allows (S := Ref)) (sources_of (tables (wo_store incubation_world)))
    (incubated_to demo_store outcome_session) (incubated_to demo_store (wo_store incubation_world))
    (concat (map cw_values (wo_log incubation_world))).
Proof.
  split; [vm_compute; reflexivity|].
  assert (Hst : window_state IncubationWindowLimit outcome_session).
  { split; [exact outcome_window|vm_compute; split; discriminate|]. vm_compute. discriminate. }
  refine (proj1 (proj2 (incubation_windows_tile (S := Ref) demo_store incubation_codec_scoped demo_application IncubationWindowLimit
    outcome_session incubation_world Hst _))).
  refine (win_next _ _ _ (MkWorld outcome_session [outcome_session] []) incubation_world _ _).
  - exact (win_next _ _ _ _ _ (win_start _ _ _) (win_observe _ _ (MkWorld outcome_session [] []))).
  - refine (win_attempt _ _ (MkWorld outcome_session [outcome_session] []) outcome_session _ (snd one_incubation) _ _); [left|].
    exists (fun n => Ok ("candidate-" +:+ pretty n)), (fst one_incubation). split; [apply surjective_pairing|reflexivity].
Defined.
