(* ===== verification/Inference.v ===== *)
(** * Inference ([src/inference])

    Structured answers of a text model: the prompt with its schema, the bounded
    conversation that asks again when an answer does not decode, and the embeddings
    of texts in batches.  The providers behind [TextModel] and [EmbeddingTransport]
    are parameters. *)

From S2P Require Import Prelude.
From S2P Require Import GoStrings.
From S2P Require Import GoTime.
From S2P Require Import Refs.
From S2P Require Import Json.
From S2P Require Import JsonText.
From S2P Require Import JsonWriter.
From S2P Require Import MemoryModel.
From S2P Require Import MemorySearch.
From S2P Require Import Handoff.
From S2P Require Import HandoffCodec.

(** ** Errors ([errors.go]) *)

Inductive context_error := Canceled | DeadlineExceeded.

(** [OtherError] is an error of a provider that the package does not know. *)
Inductive inference_error :=
| Configuration (code : string) (cause : option inference_error)
| Unavailable (operation : string) (cause : option inference_error)
| TimedOut (operation : string) (timeout : Z)
| InvalidOutput (operation : string)
| ContextEnded (e : context_error)
| OtherError (what : string) (cause : option inference_error)
| Unreachable.
Abbreviation nres := (result inference_error).

#[export] Instance context_error_eq_dec : EqDecision context_error.
Proof. solve_decision. Defined.

(** The chain of [Unwrap]. *)
Fixpoint causes (e : inference_error) : list inference_error :=
  e :: match e with
       | Configuration _ (Some c) | Unavailable _ (Some c) | OtherError _ (Some c) => causes c
       | _ => []
       end.

(** [errors.Is(err, context.Canceled)], [errors.Is(err, context.DeadlineExceeded)] *)
Definition is_context (target : context_error) (e : inference_error) : bool :=
  existsb (fun c => match c with ContextEnded x => bool_decide (x = target) | _ => false end) (causes e).

(** [errors.As(err, &stable)]: an error of this package. *)
Definition is_stable (e : inference_error) : bool :=
  existsb (fun c => match c with Configuration _ _ | Unavailable _ _ | TimedOut _ _ | InvalidOutput _ => true | _ => false end) (causes e).

(** How a call ended: with the errors of the caller's context and of the one with the
    timeout, if they had ended. *)
Record CallEnd (A : Type) := MkCallEnd {
  ce_result : nres A; ce_parent : option context_error; ce_call : option context_error
}.
Arguments MkCallEnd {A}. Arguments ce_result {A}. Arguments ce_parent {A}. Arguments ce_call {A}.

Definition mapInferenceCallError (parent call : option context_error) (err : inference_error) (operation : string) (timeout : Z)
  : inference_error :=
  match parent with
  | Some e => ContextEnded e
  | None =>
      if bool_decide (call = Some DeadlineExceeded) || is_context DeadlineExceeded err then TimedOut operation timeout else err
  end.

(** An error that was replaced is returned as it is. *)
Definition mapEmbeddingCallError (parent call : option context_error) (err : inference_error) (timeout : Z) : inference_error :=
  match parent with
  | Some e => ContextEnded e
  | None =>
      if bool_decide (call = Some DeadlineExceeded) || is_context DeadlineExceeded err then TimedOut "embed" timeout
      else if is_stable err || is_context Canceled err then err
      else Unavailable "embed" (Some err)
  end.

(** ** Usage ([text.go], [prompted.go]) *)

Definition negative (count : option Z) : bool := match count with Some n => n <? 0 | None => false end.

Definition validateUsage (u : Usage) : nres unit :=
  require negb (us_Requests u <? 0) else OtherError "usage requests" None in
  require negb (negative (us_InputTokens u)) else OtherError "input tokens" None in
  require negb (negative (us_OutputTokens u)) else OtherError "output tokens" None in
  Ok tt.

Definition addOptionalCount (total value : option Z) (first : bool) : option Z :=
  match value with
  | None => None
  | Some n => if first then Some n else match total with Some t => Some (wrap64 (t + n)) | None => None end
  end.

Definition addRequestUsage (total request : Usage) : Usage :=
  let requests := wrap64 (us_Requests total + 1) in
  MkUsage requests
    (addOptionalCount (us_InputTokens total) (us_InputTokens request) (requests =? 1))
    (addOptionalCount (us_OutputTokens total) (us_OutputTokens request) (requests =? 1)).

(** ** Requests ([text.go]) *)

Inductive MessageRole := RoleUser | RoleAssistant | OtherRole (n : Z).
Record ResponseIdentity := MkIdentity { ri_protocol : string; ri_itemID : string }.
Record Message := MkMessage { ms_role : MessageRole; ms_content : string; ms_identity : option ResponseIdentity }.

Definition NewMessage (role : MessageRole) (content : string) : nres Message :=
  match role with
  | RoleUser | RoleAssistant => Ok (MkMessage role content None)
  | OtherRole _ => Err (OtherError "message role" None)
  end.

Definition NewResponseIdentity (protocol itemID : string) : nres ResponseIdentity :=
  require negb (String.eqb protocol "" || String.eqb itemID "") else OtherError "response identity" None in
  Ok (MkIdentity protocol itemID).

Record GenerationSettings := MkSettings { gs_temperature : option float64; gs_maxTokens : option Z }.

Definition NewGenerationSettings (temperature : option float64) (maxTokens : option Z) : nres GenerationSettings :=
  require match temperature with Some t => is_finite t | None => true end else OtherError "temperature" None in
  require match maxTokens with Some n => negb (n <? 1) | None => true end else OtherError "max tokens" None in
  Ok (MkSettings temperature maxTokens).

Record TextRequest := MkTextRequest {
  tq_instructions : list string; tq_messages : list Message; tq_settings : GenerationSettings; tq_structured : bool
}.
Record TextResponse := MkTextResponse { tr_content : string; tr_usage : Usage; tr_identity : option ResponseIdentity }.

Definition NewTextResponse (content : string) (usage : Usage) : nres TextResponse :=
  let* _ := validateUsage usage in
  Ok (MkTextResponse content usage None).

(** A model with a state of its own. *)
Class TextModel (M : Type) := Complete : M -> TextRequest -> CallEnd TextResponse * M.

Definition readinessPrompt : string := "Reply with one token.".
Definition ProbeTextModel {M} `{TextModel M} (model : M) : nres unit * M :=
  match (let* message := NewMessage RoleUser readinessPrompt in
         let* settings := NewGenerationSettings None (Some 1) in
         Ok (MkTextRequest [] [message] settings false)) with
  | Err e => (Err e, model)
  | Ok request => let (ended, model') := Complete model request in (let* _ := ce_result ended in Ok tt, model')
  end.

(** ** JSON texts ([prompted.go]) *)

(** A pass over the bytes of a JSON text that copies its strings: [step] answers to the
    bytes outside of them, quotes included. *)
Fixpoint outside_strings {St} (step : St -> ascii -> St * bytes) (st : St) (inString escaped : bool) (s : bytes) : bytes :=
  match s with
  | [] => []
  | c :: r =>
      if inString then
        c :: (if escaped then outside_strings step st true false r
              else if Ascii.eqb c backslash then outside_strings step st true true r
              else outside_strings step st (negb (Ascii.eqb c dquote)) false r)
      else
        let (st', out) := step st c in
        out ++ outside_strings step st' (Ascii.eqb c dquote) false r
  end.

Definition pythonJSONSpacing (compact : bytes) : bytes :=
  outside_strings (fun _ c => (tt, if Ascii.eqb c comma || Ascii.eqb c colon then [c; space] else [c])) tt false false compact.

(** [json.Compact] *)
Definition compact_json (s : bytes) : bytes :=
  outside_strings (fun _ c => (tt, if is_ws c then [] else [c])) tt false false s.

(** What [json.Marshal] makes of a compact [json.RawMessage]. *)
Fixpoint escape_raw (s : bytes) : bytes :=
  match s with
  | a :: ((b :: c :: r') as r) =>
      if bool_decide ([a; b; c] = ls_bytes) then bytes_of "\u2028" ++ escape_raw r'
      else if bool_decide ([a; b; c] = ps_bytes) then bytes_of "\u2029" ++ escape_raw r'
      else (if html_unsafe (byteZ a) then bytes_of ("\u00" +:+ hex2 (byteZ a)) else [a]) ++ escape_raw r
  | a :: r => (if html_unsafe (byteZ a) then bytes_of ("\u00" +:+ hex2 (byteZ a)) else [a]) ++ escape_raw r
  | [] => []
  end.

(** [json.Indent] with two blanks: the state is whether a bracket was opened last, and
    the depth. *)
Definition indent_step (st : bool * nat) (c : ascii) : (bool * nat) * bytes :=
  let (need, depth) := st in
  if is_ws c then (st, [])
  else
    let closing := Ascii.eqb c "]"%char || Ascii.eqb c "}"%char in
    let broken := need && negb closing in
    let depth := if broken then Datatypes.S depth else depth in
    let before := if broken then line_break depth else [] in
    if Ascii.eqb c "["%char || Ascii.eqb c "{"%char then ((true, depth), before ++ [c])
    else if Ascii.eqb c comma then ((false, depth), before ++ c :: line_break depth)
    else if Ascii.eqb c colon then ((false, depth), before ++ [c; space])
    else if closing then
      if need then ((false, depth), [c])
      else ((false, pred depth), line_break (pred depth) ++ [c])
    else ((false, depth), before ++ [c]).
Definition indent_json (s : bytes) : bytes := outside_strings indent_step (false, O) false false s.

Definition prepareObjectSchema (schema : bytes) : nres bytes :=
  let invalid := OtherError "schema" None in
  require negb (bool_decide (schema = [])) else invalid in
  let* tree := of_option (read_json false schema) invalid in
  match tree with
  | VMembers object =>
      require match field "type" object with Some (VText t) => bool_decide (t = bytes_of "object") | _ => false end else invalid in
      Ok (compact_json schema)
  | _ => Err invalid
  end.

(** ** Fences ([stripMarkdownFences]) *)

Definition fence : bytes := bytes_of "```".
(** The classes [[:word:]] and [[:space:]]. *)
Definition is_word (c : ascii) : bool :=
  in_range 48 57 c || in_range 65 90 c || in_range 97 122 c || (byteZ c =? 95).
Definition is_posix_space (c : ascii) : bool := (byteZ c =? 32) || in_range 9 13 c.

(** White space, and then a fence or the end. *)
Definition closes (s : bytes) : bool :=
  match drop_while is_posix_space s with
  | [] => true
  | r => bool_decide (is_Some (strip_prefix fence r))
  end.

(** Up to the first brace that is followed by a fence or the end. *)
Fixpoint shortest_object (s : bytes) : option bytes :=
  match s with
  | [] => None
  | c :: r => if Ascii.eqb c "}"%char && closes r then Some [c] else option_map (cons c) (shortest_object r)
  end.

(** What the pattern captures when it matches at the start. *)
Definition match_fence (s : bytes) : option bytes :=
  match strip_prefix fence s with
  | None => None
  | Some r =>
      let (_, r) := optional [Zbyte 13] (drop_while is_word r) in
      match expect (Zbyte 10) r with
      | None => None
      | Some r =>
          match expect "{"%char r with
          | None => None
          | Some r => option_map (cons "{"%char) (shortest_object r)
          end
      end
  end.

Fixpoint find_fence (s : bytes) : option bytes :=
  match s with
  | [] => None
  | _ :: r => match match_fence s with Some object => Some object | None => find_fence r end
  end.

Definition stripMarkdownFences (value : bytes) : bytes :=
  match expect "{"%char value with
  | Some _ => value
  | None => default value (find_fence value)
  end.

(** ** Structured generation ([prompted.go]) *)

Record Limits := MkLimits { li_timeout : Z; li_maxRequests : Z }.

Definition NewLimits (timeout maxRequests : Z) : nres Limits :=
  require negb (timeout <=? 0) else OtherError "timeout" None in
  require negb (maxRequests <? 1) else OtherError "max requests" None in
  Ok (MkLimits timeout maxRequests).

Definition DefaultLimits : Limits := MkLimits 30000000000 2.

Definition resolve_limits (limits : option Limits) : nres Limits :=
  match limits with
  | None => Ok DefaultLimits
  | Some l =>
      require negb ((li_timeout l <=? 0) || (li_maxRequests l <? 1)) else Configuration "request-rejected" None in
      Ok l
  end.

Inductive Component := LocName (name : string) | LocIndex (index : Z) | LocOther.
Record ValidationIssue := MkIssue { vi_kind : string; vi_location : list Component; vi_message : string; vi_input : bytes }.

Definition NewValidationIssue (kind : string) (location : list Component) (message : string) (input : bytes) : nres ValidationIssue :=
  require negb (String.eqb kind "" || String.eqb message "") else OtherError "issue" None in
  require forallb (fun c => match c with LocOther => false | _ => true end) location else OtherError "issue location" None in
  require bool_decide (input = []) || bool_decide (is_Some (read_json false input)) else OtherError "issue input" None in
  Ok (MkIssue kind location message input).

(** Why an answer did not decode; the issues of a [ValidationError] are not empty. *)
Inductive decode_failure := Invalid (issues : list ValidationIssue) | Undecodable.

Definition NewValidationError (issues : list ValidationIssue) : nres decode_failure :=
  require negb (bool_decide (issues = [])) else OtherError "validation error" None in
  Ok (Invalid issues).

Definition component_bytes (c : Component) : bytes :=
  match c with LocName n => json_string true true n | LocIndex i => bytes_of (pretty i) | LocOther => bytes_of "null" end.

(** [json.Marshal] of an [issueWire]. *)
Definition issue_bytes (i : ValidationIssue) : bytes :=
  let member name value := json_string true true name ++ colon :: value in
  let input := if (1 <? Z.of_nat (length (vi_location i))) && negb (bool_decide (vi_input i = []))
               then [member "input"%string (escape_raw (compact_json (vi_input i)))] else [] in
  "{"%char :: sep_by comma
    ([member "type"%string (json_string true true (vi_kind i));
      member "loc"%string ("["%char :: sep_by comma (map component_bytes (vi_location i)) ++ ["]"%char]);
      member "msg"%string (json_string true true (vi_message i))] ++ input) ++ ["}"%char].

Definition newline : string := string_of [Zbyte 10].

Definition validationFeedback (e : decode_failure) : string :=
  match e with
  | Undecodable => "Validation feedback:" +:+ newline +:+ "provider did not return a valid result" +:+ newline +:+ newline +:+
                   "Fix the errors and try again."
  | Invalid issues =>
      let encoded := indent_json ("["%char :: sep_by comma (map issue_bytes issues) ++ ["]"%char]) in
      pretty (Z.of_nat (length issues)) +:+ " validation " +:+ (if Z.of_nat (length issues) =? 1 then "error" else "errors") +:+ ":" +:+ newline +:+
      "```json" +:+ newline +:+ string_of encoded +:+ newline +:+ "```" +:+ newline +:+ newline +:+ "Fix the errors and try again."
  end.

Definition defaultPromptedOutputTemplate (schema : string) : string :=
  newline +:+ "Always respond with a JSON object that's compatible with this schema:" +:+ newline +:+ newline +:+ schema +:+ newline +:+ newline +:+
  "Don't include any text or Markdown fencing before or after." +:+ newline.

Record StructuredCodec (I R : Type) := MkStructuredCodec {
  EncodeInput : I -> option bytes; OutputSchema : bytes; DecodeOutput : bytes -> result decode_failure R
}.
Arguments MkStructuredCodec {I R}. Arguments EncodeInput {I R}. Arguments OutputSchema {I R}. Arguments DecodeOutput {I R}.

Definition NewJSONCodec {I R} (schema : bytes) (encode : I -> option bytes) (decode : bytes -> result decode_failure R)
  : nres (StructuredCodec I R) :=
  let* prepared := map_err (fun _ => Configuration "schema" None) (prepareObjectSchema schema) in
  Ok (MkStructuredCodec encode prepared decode).

Record PromptedGenerator (I R : Type) := MkPromptedGenerator {
  pg_instructions : string; pg_codec : StructuredCodec I R; pg_schema : bytes; pg_limits : Limits; pg_settings : GenerationSettings
}.
Arguments MkPromptedGenerator {I R}. Arguments pg_instructions {I R}. Arguments pg_codec {I R}. Arguments pg_schema {I R}.
Arguments pg_limits {I R}. Arguments pg_settings {I R}.

Definition NewPromptedGenerator {I R} (instructions : string) (codec : StructuredCodec I R) (limits : option Limits)
  (settings : GenerationSettings) : nres (PromptedGenerator I R) :=
  require negb (blank instructions) else Configuration "instructions" None in
  let* resolved := resolve_limits limits in
  let* schema := map_err (fun _ => Configuration "schema" None) (prepareObjectSchema (OutputSchema codec)) in
  Ok (MkPromptedGenerator instructions codec schema resolved settings).

Section generation.
Context {M I R : Type} {TM : TextModel M} (g : PromptedGenerator I R).

Definition instructions_of : list string :=
  [pg_instructions g; defaultPromptedOutputTemplate (string_of (pythonJSONSpacing (pg_schema g)))].

Definition request_of (messages : list Message) : TextRequest := MkTextRequest instructions_of messages (pg_settings g) true.

(** The answer as the model gave it, and what was wrong with it. *)
Definition turn (response : TextResponse) (why : decode_failure) : list Message :=
  [MkMessage RoleAssistant (tr_content response) (tr_identity response); MkMessage RoleUser (validationFeedback why) None].

Definition decoded (response : TextResponse) : result decode_failure R :=
  DecodeOutput (pg_codec g) (stripMarkdownFences (bytes_of (tr_content response))).

(** The loop of [Generate]. *)
Fixpoint converse (n : nat) (requestNumber : Z) (messages : list Message) (usage : Usage) (m : M) : nres (Generated R) * M :=
  match n with
  | O => (Err Unreachable, m)
  | S n =>
      let (ended, m') := Complete m (request_of messages) in
      match ce_result ended with
      | Err e => (Err (mapInferenceCallError (ce_parent ended) (ce_call ended) e "generate" (li_timeout (pg_limits g))), m')
      | Ok response =>
          let usage := addRequestUsage usage (tr_usage response) in
          match decoded response with
          | Ok output => (Ok (MkGenerated output usage), m')
          | Err why =>
              if requestNumber =? li_maxRequests (pg_limits g) then (Err (InvalidOutput "generate"), m')
              else converse n (requestNumber + 1) (messages ++ turn response why) usage m'
          end
      end
  end.

Definition Generate (value : I) (m : M) : nres (Generated R) * M :=
  match EncodeInput (pg_codec g) value with
  | None => (Err (Configuration "serialize" None), m)
  | Some prompt =>
      if bool_decide (is_Some (read_json false prompt)) then
        converse (Z.to_nat (li_maxRequests (pg_limits g))) 1 [MkMessage RoleUser (string_of prompt) None] (MkUsage 0 None None) m
      else (Err (Configuration "serialize" None), m)
  end.
End generation.

(** ** Embeddings ([embedding.go]) *)

Inductive EmbeddingInputType := EmbeddingDocument | EmbeddingQuery | OtherInputType (name : string).
#[export] Instance embedding_input_type_eq_dec : EqDecision EmbeddingInputType.
Proof. solve_decision. Defined.

Record EmbeddingRequest := MkEmbeddingRequest { eq_inputs : list string; eq_inputType : EmbeddingInputType; eq_dimension : Z }.

Definition NewEmbeddingRequest (inputs : list string) (inputType : EmbeddingInputType) (dimension : Z) : nres EmbeddingRequest :=
  require match inputType with OtherInputType _ => false | _ => true end else Configuration "request-rejected" None in
  require negb (dimension <? 1) else Configuration "dimension-positive" None in
  Ok (MkEmbeddingRequest inputs inputType dimension).

Record ProviderEmbeddingResult := MkProviderEmbedding {
  pe_inputs : list string; pe_inputType : EmbeddingInputType; pe_embeddings : list (list float64); pe_usage : Usage
}.

Definition NewProviderEmbeddingResult (inputs : list string) (inputType : EmbeddingInputType) (embeddings : list (list float64))
  (usage : Usage) : nres ProviderEmbeddingResult :=
  let* _ := validateUsage usage in
  Ok (MkProviderEmbedding inputs inputType embeddings usage).

Class EmbeddingTransport (T : Type) := EmbedBatch : T -> EmbeddingRequest -> CallEnd ProviderEmbeddingResult * T.

Record fixedEmbeddingProfile := MkFixedProfile { fp_id : string; fp_model : string; fp_dimension : Z; fp_normalization : string }.
Record BatchedEmbeddingModel := MkBatchedModel { bm_profile : fixedEmbeddingProfile; bm_batchSize : Z; bm_limits : Limits }.

Definition NewBatchedEmbeddingModel (profile : fixedEmbeddingProfile) (batchSize : Z) (limits : option Limits) : nres BatchedEmbeddingModel :=
  require negb (batchSize <? 1) else Configuration "embedding-batch" None in
  require negb (fp_dimension profile <? 1) else Configuration "dimension-positive" None in
  require negb (blank (fp_id profile) || blank (fp_model profile) || blank (fp_normalization profile)) else Configuration "profile-identifiers" None in
  require String.eqb (fp_normalization profile) "none" || String.eqb (fp_normalization profile) "unit" else Configuration "profile-identifiers" None in
  let* resolved := resolve_limits limits in
  Ok (MkBatchedModel profile batchSize resolved).

Definition canonicalEmbedding (values : list float64) (dimension : Z) (normalization : string) : nres (list float64) :=
  require negb (dimension <? 1) else OtherError "dimension" None in
  require Z.of_nat (length values) =? dimension else OtherError "dimensions" None in
  require forallb is_finite values else OtherError "finite" None in
  if negb (String.eqb normalization "unit") then Ok values
  else
    let scale := fold_left (fun acc v => f64_max acc (f64_abs v)) values f64_zero in
    require negb (f64_eq scale f64_zero) else OtherError "norm" None in
    let scaled := map (fun v => f64_div v scale) values in
    let norm := f64_sqrt (fold_left (fun acc v => f64_add acc (f64_mul v v)) scaled f64_zero) in
    Ok (map (fun v => f64_div v norm) scaled).

Definition validateBatch (em : BatchedEmbeddingModel) (batch : list string) (result : ProviderEmbeddingResult) : nres (list (list float64)) :=
  let invalid := InvalidOutput "embed" in
  require bool_decide (pe_inputType result = EmbeddingDocument) else invalid in
  require bool_decide (pe_inputs result = batch) else invalid in
  require Nat.eqb (length (pe_embeddings result)) (length batch) else invalid in
  map_res (fun value => map_err (fun _ => invalid) (canonicalEmbedding value (fp_dimension (bm_profile em)) (fp_normalization (bm_profile em))))
    (pe_embeddings result).

(** What [Embed] returns. *)
Record EmbeddingResult := MkEmbeddingResult { er_Vectors : list (list float64); er_Usage : Usage }.

Section embedding.
Context {T : Type} {ET : EmbeddingTransport T} (em : BatchedEmbeddingModel) (texts : list string).

(** The texts from [start], as many as a batch holds. *)
Definition batch_at (start : Z) : list string :=
  let stop := Z.min (start + bm_batchSize em) (Z.of_nat (length texts)) in
  take (Z.to_nat (stop - start)) (drop (Z.to_nat start) texts).

Definition embed_batch (start : Z) (t : T) : nres (list (list float64) * Usage) * T :=
  match NewEmbeddingRequest (batch_at start) EmbeddingDocument (fp_dimension (bm_profile em)) with
  | Err e => (Err e, t)
  | Ok request =>
      let (ended, t') := EmbedBatch t request in
      match ce_result ended with
      | Err e => (Err (mapEmbeddingCallError (ce_parent ended) (ce_call ended) e (li_timeout (bm_limits em))), t')
      | Ok result => (let* vectors := validateBatch em (batch_at start) result in Ok (vectors, pe_usage result), t')
      end
  end.

(** The loop of [Embed]. *)
Fixpoint embed_from (n : nat) (start : Z) (vectors : list (list float64)) (usage : Usage) (t : T) : nres EmbeddingResult * T :=
  if Z.of_nat (length texts) <=? start then (Ok (MkEmbeddingResult vectors usage), t)
  else
    match n with
    | O => (Err Unreachable, t)
    | S n =>
        let (r, t') := embed_batch start t in
        match r with
        | Err e => (Err e, t')
        | Ok (more, used) => embed_from n (start + bm_batchSize em) (vectors ++ more) (addRequestUsage usage used) t'
        end
    end.

Definition Embed (t : T) : nres EmbeddingResult * T :=
  if bool_decide (texts = []) then (Ok (MkEmbeddingResult [] (MkUsage 0 None None)), t)
  else embed_from (length texts) 0 [] (MkUsage 0 None None) t.
End embedding.

(** ** Token estimates ([tokens.go]) *)

Definition characterUnitsPerToken : Z := 4.
Definition nonASCIICharacterUnits : Z := 4.

Record TokenEstimatorProfile := MkEstimatorProfile { ep_estimatorID : string; ep_version : string }.

Definition validateEstimatorText (value : string) (maximum : Z) : nres unit :=
  require negb (String.eqb value "") else OtherError "estimator text" None in
  require negb (maximum <? rune_count value) else OtherError "estimator text" None in
  Ok tt.

Definition NewTokenEstimatorProfile (estimatorID version : string) : nres TokenEstimatorProfile :=
  let* _ := validateEstimatorText estimatorID 128 in
  let* _ := validateEstimatorText version 64 in
  Ok (MkEstimatorProfile estimatorID version).

Record TokenEstimator := MkEstimator { te_profile : TokenEstimatorProfile; te_count : string -> Z }.

Definition NewTokenEstimator (profile : TokenEstimatorProfile) (count : string -> Z) : nres TokenEstimator :=
  let* _ := NewTokenEstimatorProfile (ep_estimatorID profile) (ep_version profile) in
  Ok (MkEstimator profile count).

Definition Estimate (e : TokenEstimator) (text : string) : nres Z :=
  let value := te_count e text in
  require negb (value <? 0) else OtherError "token estimate" None in
  Ok value.

Definition character_units (text : string) : Z :=
  fold_left (fun units r => units + (if rune_value r <=? 127 then 1 else nonASCIICharacterUnits)) (runes (bytes_of text)) 0.

Definition CharacterTokenEstimator : TokenEstimator :=
  MkEstimator (MkEstimatorProfile "character:weighted" "1")
    (fun text => (character_units text + characterUnitsPerToken - 1) / characterUnitsPerToken).
