(* ===== verification/InferenceProps.v ===== *)
(** * What inference guarantees

    The schema that a model is shown is the schema of the codec; a fenced answer is
    unwrapped; the conversation about an answer is bounded and says what happened;
    embeddings answer to their texts. *)

From S2P Require Import Prelude.
From S2P Require Import GoStrings.
From S2P Require Import GoTime.
From S2P Require Import Refs.
From S2P Require Import Json.
From S2P Require Import JsonText.
From S2P Require Import JsonWriter.
From S2P Require Import MemoryModel.
From S2P Require Import MemorySearch.
From S2P Require Import Handoff.
From S2P Require Import HandoffCodec.
From S2P Require Import Inference.

(** ** Passes over a JSON text *)

(** A byte between tokens, and a byte of a token. *)
Definition structural (c : ascii) : bool :=
  existsb (Ascii.eqb c) ["["; "]"; "{"; "}"; ","; ":"]%char.
Definition token_byte (c : ascii) : Prop := is_ws c = false /\ structural c = false.

Lemma not_structural c (P : ascii -> Prop) :
  structural c = true -> P "["%char -> P "]"%char -> P "{"%char -> P "}"%char -> P ","%char -> P ":"%char -> P c.
Proof.
  unfold structural. cbn [existsb]. rewrite !orb_true_iff, !Ascii.eqb_eq. intros H.
  by repeat destruct H as [->|H].
Qed.

(** Bytes of a string that end neither it nor an escape. *)
Definition inert (bs : bytes) : Prop :=
  forall (St : Type) (step : St -> ascii -> St * bytes) st rest,
    outside_strings step st true false (bs ++ rest) = bs ++ outside_strings step st true false rest.

Lemma inert_nil : inert [].
Proof. done. Qed.

Lemma inert_app a b : inert a -> inert b -> inert (a ++ b).
Proof. intros Ha Hb St step st rest. by rewrite <- !app_assoc, Ha, Hb. Qed.

Lemma inert_cons c bs : c <> dquote -> c <> backslash -> inert bs -> inert (c :: bs).
Proof.
  intros H1 H2 H St step st rest. cbn [app outside_strings]. apply Ascii.eqb_neq in H1, H2. rewrite H1, H2. cbn [negb].
  by rewrite H.
Qed.

Lemma inert_escape c bs : inert bs -> inert (backslash :: c :: bs).
Proof. intros H St step st rest. cbn [app outside_strings]. rewrite Ascii.eqb_refl. by rewrite H. Qed.

Lemma inert_raw bs : Forall (fun c => c <> dquote /\ c <> backslash) bs -> inert bs.
Proof. induction 1 as [|c bs [H1 H2] _ IH]; [apply inert_nil|by apply inert_cons]. Qed.

Lemma hex_digit_inert n : hex_digit n <> dquote /\ hex_digit n <> backslash.
Proof.
  split; [|apply hex_digit_plain]. unfold hex_digit. destruct (String.get _ _) as [c|] eqn:E; [|done].
  intros ->. revert E. generalize (Z.to_nat n). intros k. do 16 (destruct k as [|k]; [discriminate|]). by destruct k.
Qed.

Lemma json_rune_inert eh ls r : (rune_bad r = false -> rune_shape r) -> inert (json_rune eh ls r).
Proof.
  intros Hr. unfold json_rune. destruct (rune_bad r); [by apply inert_escape, inert_raw; repeat constructor|].
  specialize (Hr eq_refl). destruct (Z.ltb_spec (rune_value r) 128) as [Hlt|Hge].
  - destruct (short_escape (rune_value r)) as [c|] eqn:Ec; [by apply inert_escape|]. destruct (_ || _).
    + apply (inert_escape "u"%char). apply inert_raw. repeat constructor; try done; apply hex_digit_inert.
    + destruct Hr as [(c & -> & Ev & _)|[H _]]; [|lia]. apply inert_raw. constructor; [|done].
      split; intros ->; rewrite Ev in Ec; by vm_compute in Ec.
  - destruct Hr as [(c & _ & Ev & Hc)|(_ & Hall & _)]; [lia|].
    destruct (ls && _); [destruct (_ =? _); by apply inert_escape, inert_raw; repeat constructor|].
    apply inert_raw. eapply Forall_impl; [exact Hall|]. cbn beta. intros c Hc. split; intros ->; by vm_compute in Hc.
Qed.

Lemma pass_string {St} (step : St -> ascii -> St * bytes) st st' w eh ls s rest :
  step st dquote = (st', w ++ [dquote]) ->
  outside_strings step st false false (json_string eh ls s ++ rest)
  = w ++ json_string eh ls s ++ outside_strings step st' false false rest.
Proof.
  intros Hs. unfold json_string. cbn [app outside_strings]. rewrite Hs, Ascii.eqb_refl, <- !app_assoc. cbn [app]. f_equal. f_equal.
  assert (H : inert (concat (map (json_rune eh ls) (runes (bytes_of s))))).
  { pose proof (runes_shape (bytes_of s)) as H. induction H as [|r rs Hr _ IH]; [apply inert_nil|].
    cbn. apply inert_app; [by apply json_rune_inert|done]. }
  by rewrite (H _ step st').
Qed.

(** Passes that keep the tokens: only white space is written or left out, and none
    inside of a token. *)
Class KeepsTokens {St} (step : St -> ascii -> St * bytes) := {
  settled : St -> Prop;
  kt_inside st c : settled st -> token_byte c -> step st c = (st, [c]);
  kt_first st c : token_byte c -> exists w st', step st c = (st', w ++ [c]) /\ white w /\ settled st';
  kt_white st c : is_ws c = true -> exists st' w, step st c = (st', w) /\ white w;
  kt_mark st c : structural c = true -> exists st' w w', step st c = (st', w ++ c :: w') /\ white w /\ white w'
}.

#[export] Instance spacing_keeps : KeepsTokens (fun _ c => (tt, if Ascii.eqb c comma || Ascii.eqb c colon then [c; space] else [c])).
Proof.
  exists (fun _ => True).
  - intros [] c _ [_ H]. f_equal. apply not_true_iff_false in H. destruct (_ || _) eqn:E; [|done].
    exfalso. apply H. apply orb_true_iff in E as [->%Ascii.eqb_eq| ->%Ascii.eqb_eq]; reflexivity.
  - intros [] c [_ H]. exists [], tt. split; [|by repeat constructor]. f_equal. apply not_true_iff_false in H. destruct (_ || _) eqn:E; [|done].
    exfalso. apply H. apply orb_true_iff in E as [->%Ascii.eqb_eq| ->%Ascii.eqb_eq]; reflexivity.
  - intros [] c H. eexists _, _. split; [reflexivity|]. destruct (_ || _) eqn:E; repeat constructor; done.
  - intros [] c H. apply (not_structural c (fun c => exists st' w w', (tt, if Ascii.eqb c comma || Ascii.eqb c colon then [c; space] else [c])
      = (st', w ++ c :: w') /\ white w /\ white w') H); try (exists tt, [], []; by repeat constructor); exists tt, [], [space]; by repeat constructor.
Qed.

#[export] Instance compact_keeps : KeepsTokens (fun (_ : unit) c => (tt, if is_ws c then [] else [c])).
Proof.
  exists (fun _ => True).
  - intros [] c _ [-> _]. done.
  - intros [] c [-> _]. exists [], tt. by repeat constructor.
  - intros [] c ->. exists tt, []. by repeat constructor.
  - intros [] c H. exists tt, [], []. split; [|by repeat constructor]. by apply (not_structural c (fun c => (tt, if is_ws c then [] else [c]) = (tt, [] ++ [c])) H).
Qed.

#[export] Instance indent_keeps : KeepsTokens indent_step.
Proof.
  assert (Ht : forall c st, token_byte c -> indent_step st c =
    let (need, depth) := st in let depth := if need then Datatypes.S depth else depth in ((false, depth), (if need then line_break depth else []) ++ [c])).
  { intros c [need depth] [Hw Hs]. unfold indent_step. rewrite Hw. unfold structural in Hs. cbn [existsb] in Hs.
    rewrite !orb_false_iff in Hs. destruct Hs as (-> & -> & -> & -> & Hc & Hd & _). unfold comma, colon. rewrite Hc, Hd. by destruct need. }
  exists (fun st => fst st = false).
  - intros [need depth] c H Hc. cbn in H. subst need. by rewrite Ht.
  - intros [need depth] c Hc. rewrite Ht by done. eexists _, _. split; [reflexivity|]. split; [|done].
    destruct need; [apply white_break|constructor].
  - intros [need depth] c H. unfold indent_step. rewrite H. eexists _, []. split; [reflexivity|constructor].
  - intros [need depth] c H. assert (Hw : is_ws c = false) by exact (not_structural c (fun c => is_ws c = false) H eq_refl eq_refl eq_refl eq_refl eq_refl eq_refl).
    unfold indent_step. rewrite Hw. cbn zeta. set (closing := Ascii.eqb c "]"%char || Ascii.eqb c "}"%char).
    set (d := if need && negb closing then Datatypes.S depth else depth). set (before := if need && negb closing then line_break d else []).
    assert (Hb : white before) by (unfold before; destruct (need && _); [apply white_break|constructor]).
    destruct (Ascii.eqb c "["%char || Ascii.eqb c "{"%char); [by eexists _, before, []; split; [reflexivity|repeat constructor]|].
    destruct (Ascii.eqb c comma); [eexists _, before, _; split; [reflexivity|split; [done|apply white_break]]|].
    destruct (Ascii.eqb c colon); [by eexists _, before, [space]; split; [reflexivity|repeat constructor]|].
    destruct closing; [destruct need|].
    + eexists _, [], []; split; [reflexivity|by repeat constructor].
    + eexists _, (line_break (pred d)), []; split; [reflexivity|split; [apply white_break|constructor]].
    + by eexists _, before, []; split; [reflexivity|repeat constructor].
Qed.

Section pass.
Context {St : Type} (step : St -> ascii -> St * bytes) {K : KeepsTokens step}.
Notation pass st s := (outside_strings step st false false s).

(** A byte of a literal or a number. *)
Definition atom (c : ascii) : Prop := token_byte c /\ c <> dquote.

Lemma pass_settled bs : Forall atom bs -> forall st rest, settled st -> pass st (bs ++ rest) = bs ++ pass st rest.
Proof.
  induction 1 as [|c bs [Hc Hq] _ IH]; intros st rest Hs; [done|]. cbn [app outside_strings].
  rewrite (kt_inside st c Hs Hc). apply Ascii.eqb_neq in Hq. rewrite Hq. cbn. by rewrite IH.
Qed.

Lemma pass_atoms bs st :
  Forall atom bs -> bs <> [] -> exists w st', white w /\ forall rest, pass st (bs ++ rest) = w ++ bs ++ pass st' rest.
Proof.
  intros [|c more [Hc Hq] Hm]; [done|]. intros _. destruct (kt_first st c Hc) as (w & st' & E & Hw & Hs).
  exists w, st'. split; [done|]. intros rest. cbn [app outside_strings]. rewrite E. apply Ascii.eqb_neq in Hq. rewrite Hq.
  rewrite pass_settled by done. by rewrite <- app_assoc.
Qed.

Lemma pass_white w st : white w -> exists w' st', white w' /\ forall rest, pass st (w ++ rest) = w' ++ pass st' rest.
Proof.
  intros H. revert st. induction H as [|c w Hc _ IH]; intros st; [exists [], st; by split; [constructor|]|].
  destruct (kt_white st c Hc) as (st1 & w1 & E & Hw1). destruct (IH st1) as (w2 & st2 & Hw2 & E2).
  exists (w1 ++ w2), st2. split; [by apply Forall_app|]. intros rest. cbn [app outside_strings]. rewrite E.
  assert (Hq : Ascii.eqb c dquote = false) by (apply Ascii.eqb_neq; intros ->; by vm_compute in Hc).
  by rewrite Hq, E2, <- app_assoc.
Qed.

Lemma pass_mark c st :
  structural c = true -> exists w w' st', white w /\ white w' /\ forall rest, pass st (c :: rest) = w ++ c :: w' ++ pass st' rest.
Proof.
  intros Hc. destruct (kt_mark st c Hc) as (st' & w & w' & E & Hw & Hw'). exists w, w', st'. split; [done|]. split; [done|].
  intros rest. cbn [outside_strings]. rewrite E.
  assert (Hq : Ascii.eqb c dquote = false) by (apply Ascii.eqb_neq; intros ->; by vm_compute in Hc).
  rewrite Hq. flat. done.
Qed.

Lemma pass_text eh s st :
  exists w st', white w /\ forall rest, pass st (json_string eh true s ++ rest) = w ++ json_string eh true s ++ pass st' rest.
Proof.
  destruct (kt_first st dquote) as (w & st' & E & Hw & _); [by split|]. exists w, st'. split; [done|].
  intros rest. by apply pass_string.
Qed.

Lemma pretty_atoms (z : Z) : Forall atom (bytes_of (pretty z)) /\ bytes_of (pretty z) <> [].
Proof.
  assert (HN : forall n : N, Forall atom (bytes_of (pretty n)) /\ bytes_of (pretty n) <> []).
  { intros n. destruct (pretty_N_digits n) as [Hd (c & more & E & _)]. split; [|by rewrite E].
    eapply Forall_impl; [exact Hd|]. cbn beta. intros x Hx. unfold is_digit, in_range in Hx. unfold atom, token_byte, is_ws, structural.
    split; [split; [lia|]|intros ->; by vm_compute in Hx]. apply not_true_iff_false. intros H.
    by apply (not_structural x (fun x => ((48 <=? byteZ x) && (byteZ x <=? 57)) = false)) in H; [rewrite Hx in H|..]. }
  destruct z as [|p|p].
  - exact (HN 0%N).
  - exact (HN (N.pos p)).
  - split; [|done]. change (bytes_of (pretty (Z.neg p))) with ("-"%char :: bytes_of (pretty (N.pos p))). constructor; [by split|apply HN].
Qed.

Definition kept_value (j : json) (b : bytes) : Prop :=
  forall st, exists w b' w' st', white w /\ white w' /\ renders j b' /\ forall rest, pass st (b ++ rest) = w ++ b' ++ w' ++ pass st' rest.
Definition kept_items (xs : list json) (body : bytes) : Prop :=
  forall st, exists body' w' st', renders_items xs body' /\ white w' /\ forall rest, pass st (body ++ rest) = body' ++ w' ++ pass st' rest.
Definition kept_fields (fs : list (string * json)) (body : bytes) : Prop :=
  forall st, exists body' w' st', renders_fields fs body' /\ white w' /\ forall rest, pass st (body ++ rest) = body' ++ w' ++ pass st' rest.

Lemma items_white w xs body : white w -> renders_items xs body -> renders_items xs (w ++ body).
Proof.
  intros Hw [w0 H0|w1 j b w2 H1 H2 Hb|w1 j b w2 j' more body' H1 H2 Hb Hm]; rewrite app_assoc; constructor; try done; by apply Forall_app.
Qed.

Lemma fields_white w fs body : white w -> renders_fields fs body -> renders_fields fs (w ++ body).
Proof.
  intros Hw [w0 H0|w1 eh f w2 w3 b w4 H1 H2 H3 H4 Hb|w1 eh f w2 w3 b w4 f' more body' H1 H2 H3 H4 Hb Hm];
    rewrite app_assoc; constructor; try done; by apply Forall_app.
Qed.

Lemma kept_scalar j b : (forall b', b' = b -> renders j b') -> Forall atom b -> b <> [] -> kept_value j b.
Proof.
  intros Hr Ha Hb st. destruct (pass_atoms b st Ha Hb) as (w & st' & Hw & E). exists w, b, [], st'.
  split; [done|]. split; [constructor|]. split; [by apply Hr|]. exact E.
Qed.

Lemma kept_last_item w1 j b w2 : white w1 -> white w2 -> kept_value j b -> kept_items [j] (w1 ++ b ++ w2 ++ ["]"%char]).
Proof.
  intros H1 H2 Hb st. destruct (pass_white w1 st H1) as (v1 & s1 & V1 & E1). destruct (Hb s1) as (x & b' & x' & s2 & X & X' & R & E2).
  destruct (pass_white w2 s2 H2) as (v2 & s3 & V2 & E3). destruct (pass_mark "]" s3 eq_refl) as (y & y' & s4 & Y & Y' & E4).
  exists ((v1 ++ x) ++ b' ++ (x' ++ v2 ++ y) ++ ["]"%char]), y', s4. split; [constructor; [by apply Forall_app|by repeat (apply Forall_app; split)|done]|].
  split; [done|]. intros rest. flat. by rewrite E1, E2, E3, E4.
Qed.

Lemma kept_more_items w1 j b w2 xs body :
  white w1 -> white w2 -> kept_value j b -> kept_items xs body -> xs <> [] -> kept_items (j :: xs) (w1 ++ b ++ w2 ++ comma :: body).
Proof.
  intros H1 H2 Hb Hm Hx st. destruct (pass_white w1 st H1) as (v1 & s1 & V1 & E1). destruct (Hb s1) as (x & b' & x' & s2 & X & X' & R & E2).
  destruct (pass_white w2 s2 H2) as (v2 & s3 & V2 & E3). destruct (pass_mark comma s3 eq_refl) as (y & y' & s4 & Y & Y' & E4).
  destruct (Hm s4) as (body' & z & s5 & Rm & Z & E5).
  exists ((v1 ++ x) ++ b' ++ (x' ++ v2 ++ y) ++ comma :: y' ++ body'), z, s5. split; [|split; [done|]].
  - destruct xs; [done|]. constructor; [by apply Forall_app|by repeat (apply Forall_app; split)|done|by apply items_white].
  - intros rest. flat. by rewrite E1, E2, E3, E4, E5.
Qed.

Lemma kept_last_field w1 eh f w2 w3 b w4 :
  white w1 -> white w2 -> white w3 -> white w4 -> kept_value (snd f) b ->
  kept_fields [f] (w1 ++ json_string eh true (fst f) ++ w2 ++ colon :: w3 ++ b ++ w4 ++ ["}"%char]).
Proof.
  intros H1 H2 H3 H4 Hb st. destruct (pass_white w1 st H1) as (v1 & s1 & V1 & E1). destruct (pass_text eh (fst f) s1) as (t & s2 & T & E2).
  destruct (pass_white w2 s2 H2) as (v2 & s3 & V2 & E3). destruct (pass_mark colon s3 eq_refl) as (y & y' & s4 & Y & Y' & E4).
  destruct (pass_white w3 s4 H3) as (v3 & s5 & V3 & E5). destruct (Hb s5) as (x & b' & x' & s6 & X & X' & R & E6).
  destruct (pass_white w4 s6 H4) as (v4 & s7 & V4 & E7). destruct (pass_mark "}" s7 eq_refl) as (u & u' & s8 & U & U' & E8).
  exists ((v1 ++ t) ++ json_string eh true (fst f) ++ (v2 ++ y) ++ colon :: (y' ++ v3 ++ x) ++ b' ++ (x' ++ v4 ++ u) ++ ["}"%char]), u', s8.
  split; [constructor; try done; by repeat (apply Forall_app; split)|]. split; [done|].
  intros rest. flat. by rewrite E1, E2, E3, E4, E5, E6, E7, E8.
Qed.

Lemma kept_more_fields w1 eh f w2 w3 b w4 fs body :
  white w1 -> white w2 -> white w3 -> white w4 -> kept_value (snd f) b -> kept_fields fs body -> fs <> [] ->
  kept_fields (f :: fs) (w1 ++ json_string eh true (fst f) ++ w2 ++ colon :: w3 ++ b ++ w4 ++ comma :: body).
Proof.
  intros H1 H2 H3 H4 Hb Hm Hx st. destruct (pass_white w1 st H1) as (v1 & s1 & V1 & E1). destruct (pass_text eh (fst f) s1) as (t & s2 & T & E2).
  destruct (pass_white w2 s2 H2) as (v2 & s3 & V2 & E3). destruct (pass_mark colon s3 eq_refl) as (y & y' & s4 & Y & Y' & E4).
  destruct (pass_white w3 s4 H3) as (v3 & s5 & V3 & E5). destruct (Hb s5) as (x & b' & x' & s6 & X & X' & R & E6).
  destruct (pass_white w4 s6 H4) as (v4 & s7 & V4 & E7). destruct (pass_mark comma s7 eq_refl) as (u & u' & s8 & U & U' & E8).
  destruct (Hm s8) as (body' & z & s9 & Rm & Z & E9).
  exists ((v1 ++ t) ++ json_string eh true (fst f) ++ (v2 ++ y) ++ colon :: (y' ++ v3 ++ x) ++ b' ++ (x' ++ v4 ++ u) ++ comma :: u' ++ body'), z, s9.
  split; [destruct fs; [done|]; constructor; try done; try (by repeat (apply Forall_app; split)); by apply fields_white|]. split; [done|].
  intros rest. flat. by rewrite E1, E2, E3, E4, E5, E6, E7, E8, E9.
Qed.

Lemma pass_keeps :
  (forall j b, renders j b -> kept_value j b) /\ (forall xs body, renders_items xs body -> kept_items xs body) /\
  (forall fs body, renders_fields fs body -> kept_fields fs body).
Proof.
  apply renders_ind3.
  - apply kept_scalar; [intros ? ->; constructor|by repeat constructor|done].
  - intros b. apply kept_scalar; [intros ? ->; constructor|by destruct b; repeat constructor|by destruct b].
  - intros z. apply kept_scalar; [intros ? ->; constructor|apply pretty_atoms..].
  - intros eh s st. destruct (pass_text eh s st) as (w & st' & Hw & E). exists w, (json_string eh true s), [], st'.
    split; [done|]. split; [constructor|]. split; [constructor|]. exact E.
  - intros xs body _ IH st. destruct (pass_mark "[" st eq_refl) as (y & y' & s1 & Y & Y' & E1). destruct (IH s1) as (body' & z & s2 & R & Z & E2).
    exists y, ("["%char :: y' ++ body'), z, s2. split; [done|]. split; [done|]. split; [constructor; by apply items_white|].
    intros rest. flat. by rewrite E1, E2.
  - intros fs body _ IH st. destruct (pass_mark "{" st eq_refl) as (y & y' & s1 & Y & Y' & E1). destruct (IH s1) as (body' & z & s2 & R & Z & E2).
    exists y, ("{"%char :: y' ++ body'), z, s2. split; [done|]. split; [done|]. split; [constructor; by apply fields_white|].
    intros rest. flat. by rewrite E1, E2.
  - intros j b _ IH st. destruct (IH st) as (w & b' & w' & st' & Hw & Hw' & R & E). exists w, b', w', st'. split; [done|]. split; [done|]. by split; [constructor|].
  - intros w Hw st. destruct (pass_white w st Hw) as (v & s1 & V & E1). destruct (pass_mark "]" s1 eq_refl) as (y & y' & s2 & Y & Y' & E2).
    exists ((v ++ y) ++ ["]"%char]), y', s2. split; [constructor; by apply Forall_app|]. split; [done|]. intros rest. flat. by rewrite E1, E2.
  - intros w1 j b w2 H1 H2 _ Hb. by apply kept_last_item.
  - intros w1 j b w2 j' more body H1 H2 _ Hb _ Hm. by apply kept_more_items.
  - intros w Hw st. destruct (pass_white w st Hw) as (v & s1 & V & E1). destruct (pass_mark "}" s1 eq_refl) as (y & y' & s2 & Y & Y' & E2).
    exists ((v ++ y) ++ ["}"%char]), y', s2. split; [constructor; by apply Forall_app|]. split; [done|]. intros rest. flat. by rewrite E1, E2.
  - intros w1 eh f w2 w3 b w4 H1 H2 H3 H4 _ Hb. by apply kept_last_field.
  - intros w1 eh f w2 w3 b w4 f' more body H1 H2 H3 H4 _ Hb _ Hm. by apply kept_more_fields.
Qed.

(** The result is a text of the same value, between white space. *)
Lemma pass_renders j b st : renders j b -> exists w b' w', white w /\ white w' /\ renders j b' /\ pass st b = w ++ b' ++ w'.
Proof.
  intros H. destruct (proj1 pass_keeps j b H st) as (w & b' & w' & st' & Hw & Hw' & R & E). exists w, b', w'.
  split; [done|]. split; [done|]. split; [done|]. specialize (E []). by rewrite !app_nil_r in E.
Qed.
End pass.

(** A text of a value, between white space. *)
Definition text_of (j : json) (s : bytes) : Prop :=
  exists w b w', white w /\ white w' /\ renders j b /\ s = w ++ b ++ w'.

Lemma pass_text_of {St} (step : St -> ascii -> St * bytes) `{!KeepsTokens step} st j s :
  text_of j s -> text_of j (outside_strings step st false false s).
Proof.
  intros (w & b & w' & Hw & Hw' & R & ->). destruct (pass_white step w st Hw) as (v & s1 & V & E1).
  destruct (proj1 (pass_keeps step) j b R s1) as (x & b' & x' & s2 & X & X' & R' & E2).
  destruct (pass_white step w' s2 Hw') as (v' & s3 & V' & E3). specialize (E3 []). rewrite app_nil_r in E3. rewrite E1, E2, E3.
  exists (v ++ x), b', (x' ++ v' ++ []). split; [by apply Forall_app|]. split; [by repeat (apply Forall_app; split)|].
  split; [done|]. cbn [outside_strings]. by flat.
Qed.

Lemma read_text_of strict j s :
  text_of j s -> names_unique j -> (nesting j <= max_depth)%nat -> read_json strict s = Some (value_of j).
Proof.
  intros (w & b & w' & Hw & Hw' & R & ->) Hu Hd. unfold read_json. destruct (renders_starts j b R) as (c & more & E & Hc & _).
  rewrite skip_white by done. assert (Hs : skip_ws (b ++ w') = b ++ w') by (rewrite E; by apply skip_starts). rewrite Hs.
  assert (He : ends w').
  { destruct Hw' as [|x w'' Hx _]; [done|]. cbn. unfold is_ws in Hx. unfold is_digit, in_range. split; [lia|].
    repeat split; intros ->; by vm_compute in Hx. }
  destruct (renders_reads strict) as [Hr _]. rewrite (Hr j b R Hu max_depth _ w' Hd He).
  - pose proof (skip_white w' [] Hw') as E0. rewrite app_nil_r in E0. by rewrite E0.
  - unfold parse_fuel. rewrite !length_app. lia.
Qed.

(** C23: what a model is shown is the schema of the codec: leaving out the white space and
    writing it the way of Python changes nothing that a reader sees, and the root of the
    schema is of type object. *)
Theorem prompt_schema_same {I R} instructions (codec : StructuredCodec I R) limits settings g j :
  text_of j (OutputSchema codec) -> names_unique j -> (nesting j <= max_depth)%nat ->
  NewPromptedGenerator instructions codec limits settings = Ok g ->
  exists shown, instructions_of g = [instructions; defaultPromptedOutputTemplate (string_of shown)] /\
    (forall strict, read_json strict shown = Some (value_of j)) /\
    exists ms, value_of j = VMembers ms /\ field "type" ms = Some (VText (bytes_of "object")).
Proof.
  intros Hj Hu Hd H. unfold NewPromptedGenerator in H. bind_inv H. injection H as <-. exists (pythonJSONSpacing a1). split; [done|].
  apply map_err_ok in Ha1. unfold prepareObjectSchema in Ha1. bind_inv Ha1. apply of_option_ok_inv in Ha3.
  rewrite (read_text_of false j) in Ha3 by done. injection Ha3 as <-. split.
  - intros strict. apply read_text_of; [|done|done]. apply pass_text_of; [apply spacing_keeps|].
    assert (Ec : a1 = compact_json (OutputSchema codec)) by (destruct (value_of j); try discriminate Ha1; bind_inv Ha1; by injection Ha1 as <-).
    rewrite Ec. by apply pass_text_of; [apply compact_keeps|].
  - destruct (value_of j); try discriminate Ha1. bind_inv Ha1. apply check_ok_inv in Ha3. eexists. split; [done|].
    destruct (field "type" _) as [[]|]; try discriminate Ha3. apply bool_decide_eq_true in Ha3. by subst.
Qed.

(** The issues of a feedback are a JSON text too. *)
Lemma indent_same j s strict :
  text_of j s -> names_unique j -> (nesting j <= max_depth)%nat -> read_json strict (indent_json s) = Some (value_of j).
Proof. intros Hj Hu Hd. apply read_text_of; [|done|done]. by apply pass_text_of; [apply indent_keeps|]. Qed.

(** ** Fences *)

Definition backtick : ascii := "`".

Lemma strip_prefix_app p s : strip_prefix p (p ++ s) = Some s.
Proof. induction p as [|a p IH]; [done|]. cbn. by rewrite Ascii.eqb_refl. Qed.

Lemma strip_prefix_some p s r : strip_prefix p s = Some r -> s = p ++ r.
Proof.
  revert s. induction p as [|a p IH]; intros s H; [by injection H as ->|]. destruct s as [|b s]; [done|]. cbn in H.
  destruct (Ascii.eqb_spec a b) as [->|]; [|done]. cbn. f_equal. by apply IH.
Qed.

Lemma expect_some c s r : expect c s = Some r -> s = c :: r.
Proof. destruct s as [|x s]; [done|]. cbn. destruct (Ascii.eqb_spec x c) as [->|]; [|done]. by intros [= ->]. Qed.

(** Nothing in a text could close the object before its end. *)
Definition closes_late (mid : bytes) : Prop :=
  forall p q, mid = p ++ "}"%char :: q -> strip_prefix fence (drop_while is_posix_space q) = None.

Lemma closes_end q tail :
  strip_prefix fence (drop_while is_posix_space q) = None -> closes (q ++ "}"%char :: tail) = false.
Proof.
  intros H. unfold closes. induction q as [|c q IH]; [reflexivity|]. cbn [app drop_while] in *.
  destruct (is_posix_space c); [by apply IH|]. apply bool_decide_eq_false. intros [r Hr].
  apply strip_prefix_some in Hr. change fence with [backtick; backtick; backtick] in *.
  destruct q as [|d [|e q]]; try discriminate Hr. injection Hr as -> -> -> _. discriminate H.
Qed.

Lemma shortest_closed mid tail :
  closes_late mid -> closes tail = true -> shortest_object (mid ++ "}"%char :: tail) = Some (mid ++ ["}"%char]).
Proof.
  induction mid as [|c mid IH]; intros Hm Ht; cbn [app shortest_object].
  { by rewrite Ascii.eqb_refl, Ht. }
  destruct (Ascii.eqb_spec c "}") as [->|_]; cbn [andb].
  - rewrite (closes_end mid tail) by (by apply (Hm [])). cbn. rewrite IH; [done| |done].
    intros p q ->. by apply (Hm ("}"%char :: p)).
  - rewrite IH; [done| |done]. intros p q ->. by apply (Hm (c :: p)).
Qed.

Lemma drop_words lang s :
  Forall (fun c => is_word c = true) lang -> drop_while is_word (lang ++ Zbyte 10 :: s) = Zbyte 10 :: s.
Proof. induction 1 as [|c lang Hc _ IH]; [reflexivity|]. cbn. by rewrite Hc. Qed.

Lemma match_fenced lang mid tail :
  Forall (fun c => is_word c = true) lang -> closes_late mid -> closes tail = true ->
  match_fence (fence ++ lang ++ Zbyte 10 :: "{"%char :: mid ++ "}"%char :: tail) = Some ("{"%char :: mid ++ ["}"%char]).
Proof.
  intros Hl Hm Ht. unfold match_fence. rewrite strip_prefix_app, drop_words by done.
  change (optional [Zbyte 13] (Zbyte 10 :: ?s)) with (@nil ascii, Zbyte 10 :: s). cbn iota beta.
  change (expect (Zbyte 10) (Zbyte 10 :: ?s)) with (Some s). cbn iota.
  change (expect "{" ("{"%char :: ?s)) with (Some s). cbn iota. by rewrite shortest_closed.
Qed.

Lemma find_after prose s object :
  Forall (fun c => c <> backtick) prose -> match_fence s = Some object -> find_fence (prose ++ s) = Some object.
Proof.
  intros Hp Hs. induction Hp as [|c prose Hc _ IH].
  - destruct s as [|c s]; [done|]. cbn [app find_fence]. by rewrite Hs.
  - cbn [app find_fence]. rewrite IH. unfold match_fence. cbn [strip_prefix fence bytes_of list_ascii_of_string].
    destruct (Ascii.eqb_spec "`" c) as [<-|]; [by destruct Hc|done].
Qed.

(** An object that a model puts into a Markdown fence, with a language or without and
    after any prose, is unwrapped, whatever follows the fence, as long as the object holds
    no closing brace before a fence. *)
Theorem fenced_answer prose lang mid rest :
  Forall (fun c => c <> backtick) prose -> expect "{" prose = None -> Forall (fun c => is_word c = true) lang -> closes_late mid ->
  let object := "{"%char :: mid ++ ["}"%char] in
  stripMarkdownFences (prose ++ fence ++ lang ++ Zbyte 10 :: object ++ Zbyte 10 :: fence ++ rest) = object /\
  stripMarkdownFences object = object.
Proof.
  intros Hp Hb Hl Hm object. split; [|done]. unfold stripMarkdownFences.
  assert (He : expect "{" (prose ++ fence ++ lang ++ Zbyte 10 :: object ++ Zbyte 10 :: fence ++ rest) = None) by (destruct prose; [reflexivity|cbn in Hb |- *; by destruct (Ascii.eqb _ _)]).
  rewrite He. rewrite (find_after prose _ object Hp); [done|]. unfold object. cbn [app]. rewrite <- app_assoc. cbn [app].
  apply match_fenced; [done|done|reflexivity].
Qed.

(** Otherwise the answer stays, or an object inside of it is taken. *)
Lemma shortest_object_prefix s o : shortest_object s = Some o -> exists mid q, o = mid ++ ["}"%char] /\ s = o ++ q.
Proof.
  revert o. induction s as [|c s IH]; intros o H; [done|]. cbn [shortest_object] in H.
  destruct (Ascii.eqb c "}" && closes s) eqn:E.
  - injection H as <-. apply andb_true_iff in E as [->%Ascii.eqb_eq _]. by exists [], s.
  - destruct (shortest_object s) as [o'|]; [|done]. injection H as <-. destruct (IH o' eq_refl) as (mid & q & -> & ->).
    by exists (c :: mid), q.
Qed.

Lemma find_fence_inside s o : find_fence s = Some o -> exists p mid q, o = "{"%char :: mid ++ ["}"%char] /\ s = p ++ o ++ q.
Proof.
  revert o. induction s as [|c s IH]; intros o H; [done|]. cbn [find_fence] in H.
  destruct (match_fence (c :: s)) as [o'|] eqn:E.
  - injection H as <-. unfold match_fence in E. destruct (strip_prefix _ _) as [r|] eqn:E1; [|done]. apply strip_prefix_some in E1.
    destruct (optional _ _) as [a r1] eqn:E2. destruct (expect (Zbyte 10) r1) as [r2|] eqn:E3; [|done]. apply expect_some in E3.
    destruct (expect "{" r2) as [r3|] eqn:E4; [|done]. apply expect_some in E4.
    destruct (shortest_object r3) as [o3|] eqn:E5; [|done]. injection E as <-. apply shortest_object_prefix in E5 as (mid & q & -> & ->).
    destruct (drop_while_suffix is_word r) as [p Hp].
    assert (Ho : exists p', drop_while is_word r = p' ++ r1).
    { cbn [optional] in E2. destruct (expect (Zbyte 13) _) as [r4|] eqn:E6; injection E2 as <- <-; [|by exists []].
      apply expect_some in E6. rewrite E6. by exists [Zbyte 13]. }
    destruct Ho as [p' Hp']. exists (fence ++ p ++ p' ++ [Zbyte 10]), mid, q. split; [done|].
    rewrite E1, Hp, Hp', E3, E4. by flat.
  - destruct (IH o H) as (p & mid & q & -> & ->). by exists (c :: p), mid, q.
Qed.

(** ** Usage *)

(** A total is known when every part is. *)
Definition total_of (counts : list (option Z)) : option Z :=
  match counts with [] => None | _ => fold_right (fun c t => match c, t with Some a, Some b => Some (a + b) | _, _ => None end) (Some 0) counts end.

Definition no_usage : Usage := MkUsage 0 None None.
Definition usage_of (us : list Usage) : Usage := fold_left addRequestUsage us no_usage.

Definition sum_known (counts : list (option Z)) : Z := fold_right (fun c t => default 0 c + t) 0 counts.
Definition counts_fit (counts : list (option Z)) : Prop :=
  Forall (fun c => negative c = false) counts /\ sum_known counts <= max_int64.

Lemma sum_known_app a b : sum_known (a ++ b) = sum_known a + sum_known b.
Proof. unfold sum_known. induction a as [|c a IH]; cbn; [done|lia]. Qed.

Lemma sum_known_nonneg counts : Forall (fun c => negative c = false) counts -> 0 <= sum_known counts.
Proof. unfold sum_known. induction 1 as [|[n|] l Hn _ IH]; cbn in *; [lia| |lia]. apply Z.ltb_ge in Hn. lia. Qed.

Lemma total_of_known counts : counts <> [] -> total_of counts = if forallb (fun c => bool_decide (is_Some c)) counts then Some (sum_known counts) else None.
Proof.
  intros H. unfold total_of. destruct counts as [|c counts]; [done|]. clear H. set (l := c :: counts). clearbody l.
  induction l as [|[n|] l IH]; cbn; [done| |done]. rewrite IH. by destruct (forallb _ l).
Qed.

Lemma forallb_snoc {A} (f : A -> bool) l x : forallb f (l ++ [x]) = forallb f l && f x.
Proof. rewrite forallb_app. cbn. by rewrite andb_true_r. Qed.

Lemma addOptional_total counts c :
  counts_fit (counts ++ [c]) -> addOptionalCount (total_of counts) c (bool_decide (counts = [])) = total_of (counts ++ [c]).
Proof.
  intros [Hn Hs]. rewrite (total_of_known (counts ++ [c])) by (by destruct counts). rewrite forallb_snoc.
  destruct c as [n|]; cbn [addOptionalCount bool_decide]; [|by rewrite andb_false_r].
  destruct counts as [|c0 counts]; [cbn; f_equal; lia|]. set (l := c0 :: counts) in *.
  change (bool_decide (l = [])) with false. cbn iota. rewrite (total_of_known l) by done.
  rewrite bool_decide_true by (by exists n). rewrite andb_true_r. destruct (forallb _ l); [|done].
  assert (E : sum_known [Some n] = n) by (cbn; lia). rewrite sum_known_app, E in *. clear E.
  apply Forall_app in Hn as [Hl Hc]. inversion_clear Hc as [|? ? Hn _]. apply Z.ltb_ge in Hn. apply sum_known_nonneg in Hl.
  rewrite wrap64_id; [done|unfold in_int64, min_int64, max_int64 in *; lia].
Qed.

Lemma usage_totals us :
  counts_fit (map us_InputTokens us) -> counts_fit (map us_OutputTokens us) -> Z.of_nat (length us) <= max_int64 ->
  usage_of us = MkUsage (Z.of_nat (length us)) (total_of (map us_InputTokens us)) (total_of (map us_OutputTokens us)).
Proof.
  induction us as [|u us IH] using rev_ind; [done|]. intros Hi Ho Hl. unfold usage_of in *. rewrite fold_left_app. cbn [fold_left].
  rewrite !map_app in *. cbn [map] in *. rewrite length_app in *. cbn [length] in *.
  assert (Hfit : forall l c, counts_fit (l ++ [c]) -> counts_fit l).
  { intros l c [H1 H2]. apply Forall_app in H1 as [H1 Hc]. split; [done|]. rewrite sum_known_app in H2. cbn in H2.
    inversion_clear Hc as [|? ? Hc' _]. destruct c as [n|]; cbn in *; [apply Z.ltb_ge in Hc'|]; lia. }
  rewrite IH; [|by eapply Hfit|by eapply Hfit|lia]. unfold addRequestUsage. cbn [us_Requests us_InputTokens us_OutputTokens].
  rewrite wrap64_id by (unfold in_int64, min_int64, max_int64 in *; lia).
  assert (Hfirst : forall X (f : Usage -> X), (Z.of_nat (length us) + 1 =? 1) = bool_decide (map f us = [])).
  { intros X f. destruct us; cbn; [done|]. apply Z.eqb_neq. lia. }
  f_equal; [lia| |]; erewrite Hfirst; by apply addOptional_total.
Qed.

(** ** The conversation *)

Section conversation.
Context {M I R : Type} {TM : TextModel M} (g : PromptedGenerator I R).

(** The messages after answers that did not decode, and what they cost. *)
Definition messages_after (prompt : bytes) (failed : list (TextResponse * decode_failure)) : list Message :=
  MkMessage RoleUser (string_of prompt) None :: concat (map (fun f => turn (fst f) (snd f)) failed).
Definition usage_after (failed : list (TextResponse * decode_failure)) : Usage := usage_of (map (fun f => tr_usage (fst f)) failed).

(** The model was asked, each time with all that was said, and its answers did not
    decode. *)
Inductive failing (prompt : bytes) (m : M) : list (TextResponse * decode_failure) -> M -> Prop :=
| F_start : failing prompt m [] m
| F_next failed m1 ended response why m2 :
    failing prompt m failed m1 -> Complete m1 (request_of g (messages_after prompt failed)) = (ended, m2) ->
    ce_result ended = Ok response -> decoded g response = Err why -> failing prompt m (failed ++ [(response, why)]) m2.

(** How the last call ended the conversation. *)
Definition concluded (prompt : bytes) (failed : list (TextResponse * decode_failure)) (m1 : M) (r : nres (Generated R)) (m' : M) : Prop :=
  exists ended, Complete m1 (request_of g (messages_after prompt failed)) = (ended, m') /\
    match ce_result ended with
    | Err e => r = Err (mapInferenceCallError (ce_parent ended) (ce_call ended) e "generate" (li_timeout (pg_limits g)))
    | Ok response => exists output, decoded g response = Ok output /\
        r = Ok (MkGenerated output (usage_of (map (fun f => tr_usage (fst f)) failed ++ [tr_usage response])))
    end.

Lemma converse_spec prompt m0 n : forall requestNumber failed m r m',
  failing prompt m0 failed m -> requestNumber = Z.of_nat (length failed) + 1 ->
  Z.of_nat n = li_maxRequests (pg_limits g) - Z.of_nat (length failed) -> (0 < n)%nat ->
  converse g n requestNumber (messages_after prompt failed) (usage_after failed) m = (r, m') ->
  exists failed' m1, failing prompt m0 failed' m1 /\
    ((Z.of_nat (length failed') = li_maxRequests (pg_limits g) /\ r = Err (InvalidOutput "generate") /\ m' = m1) \/
     (Z.of_nat (length failed') < li_maxRequests (pg_limits g) /\ concluded prompt failed' m1 r m')).
Proof.
  induction n as [|n IH]; intros k failed m r m' Hf Hk Hn Hpos H; [lia|]. cbn [converse] in H.
  destruct (Complete m (request_of g (messages_after prompt failed))) as [ended m2] eqn:Ec.
  destruct (ce_result ended) as [response|e] eqn:Er.
  2:{ injection H as <- <-. exists failed, m. split; [done|]. right. split; [lia|]. exists ended. split; [done|]. by rewrite Er. }
  assert (Hu : addRequestUsage (usage_after failed) (tr_usage response) = usage_of (map (fun f => tr_usage (fst f)) failed ++ [tr_usage response])).
  { unfold usage_after, usage_of. by rewrite fold_left_app. }
  destruct (decoded g response) as [output|why] eqn:Ed.
  - injection H as <- <-. exists failed, m. split; [done|]. right. split; [lia|]. exists ended. split; [done|]. rewrite Er. exists output. by rewrite Hu.
  - pose proof (F_next _ _ _ _ _ _ _ _ Hf Ec Er Ed) as Hf'. destruct (Z.eqb_spec k (li_maxRequests (pg_limits g))) as [E|E].
    + injection H as <- <-. exists (failed ++ [(response, why)]), m2. split; [done|]. left. rewrite length_app. cbn. split; [lia|done].
    + apply (IH (k + 1) (failed ++ [(response, why)]) m2 r m'); [done|rewrite length_app; cbn; lia|rewrite length_app; cbn; lia|lia|].
      unfold messages_after, usage_after. rewrite !map_app, concat_app. cbn [map concat fst snd]. rewrite app_nil_r, <- Hu. exact H.
Qed.
End conversation.

(** C21: a generation asks the model at most as often as the limit allows, each time with the
    prompt, the schema and every earlier answer with its feedback; it ends with the first
    answer that decodes, with the first call that fails, or, only when as many answers as
    the limit allows did not decode, with an invalid output.  The usage of a result is
    that of all its calls, and it never gets past the loop. *)
Theorem generation_bounded {M I R} `{TextModel M} instructions (codec : StructuredCodec I R) limits settings g value (m : M) r m' :
  NewPromptedGenerator instructions codec limits settings = Ok g -> Generate g value m = (r, m') ->
  let maximum := match limits with Some l => li_maxRequests l | None => 2 end in
  (r = Err (Configuration "serialize" None) /\ m' = m) \/
  exists prompt failed m1, EncodeInput codec value = Some prompt /\ failing g prompt m failed m1 /\
    ((Z.of_nat (length failed) = maximum /\ r = Err (InvalidOutput "generate") /\ m' = m1) \/
     (Z.of_nat (length failed) < maximum /\ concluded g prompt failed m1 r m')).
Proof.
  intros Hg HG maximum. unfold NewPromptedGenerator in Hg. bind_inv Hg. injection Hg as <-. unfold Generate in HG. cbn [pg_codec pg_limits] in HG.
  assert (Hmax : li_maxRequests a0 = maximum /\ 1 <= maximum).
  { unfold maximum. unfold resolve_limits in Ha0. destruct limits as [l|]; [|by injection Ha0 as <-]. bind_inv Ha0. injection Ha0 as <-.
    apply check_ok_inv, negb_true_iff, orb_false_iff in Ha2 as [_ Hl%Z.ltb_ge]. done. }
  destruct Hmax as [Emax Hmax]. destruct (EncodeInput codec value) as [prompt|]; [|injection HG as <- <-; by left].
  destruct (bool_decide _) eqn:Ev; rewrite ?Ev in HG; [|injection HG as <- <-; by left]. right.
  rewrite <- Emax. edestruct (converse_spec (MkPromptedGenerator instructions codec a1 a0 settings) prompt m) as (failed & m1 & Hf & Hend);
    [apply F_start| | | |exact HG|by exists prompt, failed, m1]; cbn; lia.
Qed.

(** ** Embeddings *)

Section embeddings.
Context {T : Type} {ET : EmbeddingTransport T} (em : BatchedEmbeddingModel) (texts : list string).
Notation size := (bm_batchSize em).
Notation total := (Z.of_nat (length texts)).

(** The batches before [start] were embedded, and this is what was answered and kept. *)
Inductive served (t : T) : Z -> list (ProviderEmbeddingResult * list (list float64)) -> T -> Prop :=
| S_start : served t 0 [] t
| S_next start results t1 ended result vectors t2 :
    served t start results t1 -> start < total ->
    EmbedBatch t1 (MkEmbeddingRequest (batch_at em texts start) EmbeddingDocument (fp_dimension (bm_profile em))) = (ended, t2) ->
    ce_result ended = Ok result -> validateBatch em (batch_at em texts start) result = Ok vectors ->
    served t (start + size) (results ++ [(result, vectors)]) t2.

(** A vector that was kept for what the provider answered. *)
Definition canonical_of (raw vector : list float64) : Prop :=
  canonicalEmbedding raw (fp_dimension (bm_profile em)) (fp_normalization (bm_profile em)) = Ok vector.

Record batches_ok (start : Z) (results : list (ProviderEmbeddingResult * list (list float64))) : Prop := {
  bo_start : 0 <= start;
  bo_inputs : concat (map (fun x => pe_inputs (fst x)) results) = take (Z.to_nat start) texts;
  bo_sizes : Forall (fun x => 1 <= Z.of_nat (length (pe_inputs (fst x))) <= size) results;
  bo_counts : Forall (fun x => length (pe_embeddings (fst x)) = length (pe_inputs (fst x))) results;
  bo_vectors : Forall2 canonical_of (concat (map (fun x => pe_embeddings (fst x)) results)) (concat (map snd results))
}.

Lemma batch_length start : 1 <= size -> 0 <= start -> start < total -> 1 <= Z.of_nat (length (batch_at em texts start)) <= size.
Proof. intros Hs H0 Hlt. unfold batch_at. rewrite length_take, length_drop. lia. Qed.

Lemma batch_next start : 1 <= size -> 0 <= start -> take (Z.to_nat (start + size)) texts = take (Z.to_nat start) texts ++ batch_at em texts start.
Proof.
  intros Hs H0. unfold batch_at. rewrite take_take_drop.
  destruct (Z.le_ge_cases (start + size) total).
  - f_equal. lia.
  - rewrite !take_ge by lia. done.
Qed.

Lemma validateBatch_ok batch result vectors :
  validateBatch em batch result = Ok vectors ->
  pe_inputs result = batch /\ length (pe_embeddings result) = length batch /\ Forall2 canonical_of (pe_embeddings result) vectors.
Proof.
  intros H. unfold validateBatch in H. bind_inv H. apply check_ok_inv, bool_decide_eq_true in Ha0. apply check_ok_inv, Nat.eqb_eq in Ha1.
  split; [done|]. split; [done|]. apply map_res_Forall2 in H. eapply Forall2_impl; [exact H|]. intros x y Hx. cbn beta in Hx. by apply map_err_ok in Hx.
Qed.

Lemma served_ok t start results t1 : 1 <= size -> served t start results t1 -> batches_ok start results.
Proof.
  intros Hs. induction 1 as [|start results t1 ended result vectors t2 _ [B1 B2 B3 B4 B5] Hlt _ _ Hv]; [by split|].
  apply validateBatch_ok in Hv as (H1 & H2 & H3). pose proof (batch_length start Hs B1 Hlt) as Hb.
  split; rewrite ?map_app, ?concat_app; cbn [map concat fst snd]; rewrite ?app_nil_r.
  - lia.
  - by rewrite B2, H1, batch_next.
  - apply Forall_app. split; [done|]. constructor; [|done]. cbn. by rewrite H1.
  - apply Forall_app. split; [done|]. constructor; [|done]. cbn. by rewrite H1.
  - by apply Forall2_app.
Qed.

Lemma embed_from_spec t0 n : forall start results t r t',
  1 <= size -> 1 <= fp_dimension (bm_profile em) -> served t0 start results t -> total - start <= Z.of_nat n ->
  embed_from em texts n start (concat (map snd results)) (usage_of (map (fun x => pe_usage (fst x)) results)) t = (r, t') ->
  match r with
  | Ok e => exists stop results, served t0 stop results t' /\ total <= stop /\
              e = MkEmbeddingResult (concat (map snd results)) (usage_of (map (fun x => pe_usage (fst x)) results))
  | Err e => exists stop results t1, served t0 stop results t1 /\ stop < total /\ embed_batch em texts stop t1 = (Err e, t')
  end.
Proof.
  induction n as [|n IH]; intros start results t r t' Hs Hd Hserved Hn H; cbn [embed_from] in H.
  { replace (total <=? start) with true in H by (symmetry; apply Z.leb_le; lia). injection H as <- <-. exists start, results. split; [done|]. split; [lia|done]. }
  destruct (Z.leb_spec total start); [injection H as <- <-; by exists start, results|].
  destruct (embed_batch em texts start t) as [b t2] eqn:Eb. destruct b as [[more used]|e].
  2:{ injection H as <- <-. by exists start, results, t. }
  unfold embed_batch, NewEmbeddingRequest in Eb. rewrite (proj2 (Z.ltb_ge _ _)) in Eb by done. cbn in Eb.
  destruct (EmbedBatch t _) as [ended t3] eqn:Ee. destruct (ce_result ended) as [result|e] eqn:Er; [|done].
  destruct (validateBatch em (batch_at em texts start) result) as [vectors|e] eqn:Ev; [|done]. cbn in Eb. injection Eb as <- <- <-.
  pose proof (S_next _ _ _ _ _ _ _ _ Hserved ltac:(lia) Ee Er Ev) as Hserved'.
  apply (IH (start + size) (results ++ [(result, vectors)]) t3 r t'); [done|done|done|lia|].
  rewrite !map_app, concat_app. cbn [map concat fst snd]. unfold usage_of in *. rewrite app_nil_r, fold_left_app. exact H.
Qed.
End embeddings.

Lemma canonical_length values dimension normalization v :
  canonicalEmbedding values dimension normalization = Ok v -> Z.of_nat (length v) = dimension.
Proof.
  unfold canonicalEmbedding. intros H. bind_inv H. apply check_ok_inv, Z.eqb_eq in Ha0.
  destruct (negb (String.eqb normalization "unit")); [by injection H as <-|]. bind_inv H. injection H as <-. by rewrite !length_map.
Qed.

(** C22: the vectors of an embedding answer to its texts one by one: the texts are sent once,
    in their order, in batches of at most the size of the model, and each vector is what
    the provider answered for its text, made canonical, with the dimension of the
    profile; the usage is that of all batches.  An error is that of the first batch
    that failed, and nothing is sent after it. *)
Theorem embed_aligned {T} `{EmbeddingTransport T} profile batchSize limits em texts (t : T) r t' :
  NewBatchedEmbeddingModel profile batchSize limits = Ok em -> Embed em texts t = (r, t') ->
  match r with
  | Ok e => exists results,
      (exists stop, served em texts t stop results t') /\
      concat (map (fun x => pe_inputs (fst x)) results) = texts /\
      Forall (fun x => 1 <= Z.of_nat (length (pe_inputs (fst x))) <= batchSize) results /\
      Forall2 (canonical_of em) (concat (map (fun x => pe_embeddings (fst x)) results)) (er_Vectors e) /\
      length (er_Vectors e) = length texts /\
      Forall (fun v => Z.of_nat (length v) = fp_dimension profile) (er_Vectors e) /\
      er_Usage e = usage_of (map (fun x => pe_usage (fst x)) results)
  | Err e => exists stop results t1,
      served em texts t stop results t1 /\ stop < Z.of_nat (length texts) /\ embed_batch em texts stop t1 = (Err e, t')
  end.
Proof.
  intros Hem HE. unfold NewBatchedEmbeddingModel in Hem. bind_inv Hem. injection Hem as <-.
  apply check_ok_inv, negb_true_iff, Z.ltb_ge in Ha, Ha0. set (em := MkBatchedModel profile batchSize a3) in *. unfold Embed in HE.
  destruct (decide (texts = [])) as [->|Hne].
  { rewrite bool_decide_true in HE by done. injection HE as <- <-. exists []. split; [exists 0; constructor|]. do 5 (split; [done|]). done. }
  rewrite bool_decide_false in HE by done.
  apply (embed_from_spec em texts t (length texts) 0 [] t r t') in HE; [|done|done|constructor|lia].
  destruct r as [e|e]; [|exact HE]. destruct HE as (stop & results & Hserved & Hstop & ->). exists results. cbn [er_Vectors er_Usage].
  pose proof (served_ok em texts t stop results t' Ha Hserved) as [B1 B2 B3 B4 B5].
  split; [by exists stop|]. rewrite take_ge in B2 by lia. split; [done|]. split; [done|]. split; [done|]. split; [|split; [|done]].
  - rewrite <- (Forall2_length _ _ _ B5), <- B2. clear -B4. induction B4 as [|x l Hx _ IH]; [done|]. cbn. by rewrite !length_app, Hx, IH.
  - clear -B5. induction B5 as [|raw v l k Hx _ IH]; constructor; [|done]. by apply canonical_length in Hx.
Qed.

(** ** Estimates *)

(** An estimate covers the text at four characters a token, and does not exceed its
    characters. *)
Lemma character_units_bounds text : rune_count text <= character_units text <= 4 * rune_count text.
Proof.
  unfold rune_count, character_units. generalize (runes (bytes_of text)). intros rs.
  assert (H : forall u, u + Z.of_nat (length rs) <=
    fold_left (fun units r => units + (if rune_value r <=? 127 then 1 else nonASCIICharacterUnits)) rs u <= u + 4 * Z.of_nat (length rs)).
  { induction rs as [|r rs IH]; intros u; cbn [fold_left length]; [lia|].
    specialize (IH (u + (if rune_value r <=? 127 then 1 else nonASCIICharacterUnits))). unfold nonASCIICharacterUnits in *.
    destruct (_ <=? _); lia. }
  specialize (H 0). lia.
Qed.

Lemma character_estimate text n :
  Estimate CharacterTokenEstimator text = Ok n -> rune_count text <= 4 * n /\ n <= rune_count text.
Proof.
  unfold Estimate. intros H. bind_inv H. injection H as <-. cbn [te_count CharacterTokenEstimator]. unfold characterUnitsPerToken.
  pose proof (character_units_bounds text) as Hb. assert (0 <= rune_count text) by (unfold rune_count; lia).
  pose proof (Z.div_mod (character_units text + 4 - 1) 4 ltac:(lia)). pose proof (Z.mod_pos_bound (character_units text + 4 - 1) 4 ltac:(lia)). lia.
Qed.

(** ** Witnesses

    A model that answers from a script, and a provider that embeds the length of a
    text. *)

Definition demo_schema : bytes := json_text "{'type': 'object'}".
Definition demo_tree : json := JObj [("type", JStr "object")]%string.

Definition demo_decode (answer : bytes) : result decode_failure jvalue :=
  match read_json false answer with Some (VMembers ms) => Ok (VMembers ms) | _ => Err Undecodable end.
Definition demo_codec : StructuredCodec string jvalue :=
  MkStructuredCodec (fun s => Some (json_string true true s)) demo_schema demo_decode.
Definition demo_generator : PromptedGenerator string jvalue :=
  MkPromptedGenerator "answer" demo_codec (compact_json demo_schema) DefaultLimits (MkSettings None None).
Lemma demo_generator_ok : NewPromptedGenerator "answer" demo_codec None (MkSettings None None) = Ok demo_generator.
Proof.
  assert (E : prepareObjectSchema demo_schema = Ok (compact_json demo_schema)) by (vm_compute; reflexivity).
  unfold NewPromptedGenerator. cbn [OutputSchema demo_codec]. rewrite E. reflexivity.
Qed.

Lemma demo_text : text_of demo_tree demo_schema.
Proof.
  exists [], demo_schema, []. split; [constructor|]. split; [constructor|]. split; [|by vm_compute].
  change demo_schema with ("{"%char :: ([] ++ json_string true true "type" ++ [] ++ colon :: [space] ++ json_string true true "object" ++ [] ++ ["}"%char])).
  constructor. by apply (RF_last [] true ("type"%string, JStr "object") [] [space] _ []); repeat constructor.
Qed.

Lemma prompt_schema_same_witness :
  exists shown, instructions_of demo_generator = ["answer"%string; defaultPromptedOutputTemplate (string_of shown)] /\
    read_json true shown = Some (value_of demo_tree).
Proof.
  destruct (prompt_schema_same "answer" demo_codec None (MkSettings None None) demo_generator demo_tree demo_text) as (shown & H1 & H2 & _).
  - split; [repeat constructor; by intros H%elem_of_nil|done].
  - apply Nat.leb_le. vm_compute. reflexivity.
  - exact demo_generator_ok.
  - exists shown. split; [exact H1|exact (H2 true)].
Defined.

Definition demo_mid : bytes := json_text "'a': 1".
Definition demo_object : bytes := "{"%char :: demo_mid ++ ["}"%char].
Definition demo_answer : bytes := bytes_of "Here:" ++ fence ++ bytes_of "json" ++ Zbyte 10 :: demo_object ++ Zbyte 10 :: fence ++ bytes_of " Bye.".

Lemma demo_mid_open : closes_late demo_mid.
Proof.
  intros p q E. assert (H : "}"%char ∈ demo_mid) by (rewrite E; set_solver). exfalso. revert H. apply (bool_decide_eq_false _). by vm_compute.
Qed.

Lemma fenced_answer_witness : stripMarkdownFences demo_answer = demo_object.
Proof.
  refine (proj1 (fenced_answer (bytes_of "Here:") (bytes_of "json") demo_mid (bytes_of " Bye.") _ _ _ demo_mid_open)).
  - repeat constructor; discriminate.
  - reflexivity.
  - repeat constructor.
Defined.

#[local] Instance scripted : TextModel (list string) := fun answers _ =>
  match answers with
  | [] => (MkCallEnd (Err (OtherError "silent" None)) None None, [])
  | a :: more => (MkCallEnd (Ok (MkTextResponse a (MkUsage 1 (Some 7) None) None)) None None, more)
  end.

Definition demo_script : list string := ["no"%string; string_of demo_answer].
Definition demo_generated := Generate demo_generator "question" demo_script.

Lemma generation_bounded_witness :
  is_ok (fst demo_generated) = true /\
  exists prompt failed m1, failing demo_generator prompt demo_script failed m1 /\ Z.of_nat (length failed) < 2 /\
    concluded demo_generator prompt failed m1 (fst demo_generated) (snd demo_generated).
Proof.
  assert (K : is_ok (fst demo_generated) = true) by (vm_compute; reflexivity). split; [exact K|].
  destruct (generation_bounded "answer" demo_codec None (MkSettings None None) demo_generator "question"%string demo_script
    (fst demo_generated) (snd demo_generated) demo_generator_ok (surjective_pairing _)) as [[E _]|(prompt & failed & m1 & _ & Hf & Hend)].
  - rewrite E in K. discriminate K.
  - exists prompt, failed, m1. split; [exact Hf|]. destruct Hend as [(_ & E & _)|Hend]; [rewrite E in K; discriminate K|exact Hend].
Defined.

#[local] Instance measuring : EmbeddingTransport nat := fun calls request =>
  (MkCallEnd (Ok (MkProviderEmbedding (eq_inputs request) EmbeddingDocument
     (map (fun s => [f64_of_int (Z.of_nat (String.length s))]) (eq_inputs request)) (MkUsage 1 None None))) None None, S calls).

Definition demo_profile : fixedEmbeddingProfile := MkFixedProfile "lengths" "ruler" 1 "none".
Definition demo_embedder : BatchedEmbeddingModel := MkBatchedModel demo_profile 2 DefaultLimits.
Definition demo_texts : list string := ["a"; "bc"; "def"]%string.
Definition demo_embedded := Embed demo_embedder demo_texts 0%nat.

Lemma embed_aligned_witness :
  snd demo_embedded = 2%nat /\ exists e, fst demo_embedded = Ok e /\ length (er_Vectors e) = 3%nat.
Proof.
  split; [vm_compute; reflexivity|]. assert (K : is_ok (fst demo_embedded) = true) by (vm_compute; reflexivity).
  pose proof (embed_aligned demo_profile 2 None demo_embedder demo_texts 0%nat (fst demo_embedded) (snd demo_embedded)
    ltac:(vm_compute; reflexivity) (surjective_pairing _)) as H.
  destruct (fst demo_embedded) as [e|e]; [|discriminate K]. exists e. split; [reflexivity|].
  destruct H as (results & _ & _ & _ & _ & Hl & _). exact Hl.
Defined.
