(* ===== verification/ScopeProps.v ===== *)
(** * Scopes: what the commands of the application do

    The commands as steps of an organization of scopes, and the properties of the
    hierarchy, of its changes and of its selections. *)

From S2P Require Import Prelude.
From S2P Require Import GoStrings.
From S2P Require Import Json.
From S2P Require Import Refs.
From S2P Require Import Sql.
From S2P Require Import ArtifactStore.
From S2P Require Import Scope.
From S2P Require Import ScopeStore.

(** ** Commands *)

Inductive command :=
| CCreate (newID : string) (draft : Draft)
| CUpdate (id : string) (mutation : Mutation)
| CBootstrap (newID : string)
| CSetDefault (id : string)
| CBind (key : BindingKey) (id : string)
| CClear (key : BindingKey).

Inductive outcome := OScope (d : Descriptor) | OBinding (b : Binding) | OCleared (b : bool).

Definition then_ret {T A B} (m : txn T A) (f : A -> B) : txn T B := let! a := m in tx_ret (f a).

(** ** The organization, and its steps *)

Record organization := MkOrganization {
  og_scopes : gmap string Descriptor;
  og_requests : gmap string (string * string);
  og_settings : gmap string string;
  og_bindings : gmap (string * string * string) string
}.

Definition organization_of (t : ScopeTables) : organization :=
  MkOrganization (map_imap (fun id _ => described t id) (st_scopes t)) (st_requests t) (st_settings t) (st_bindings t).

Definition put_scope (d : Descriptor) (o : organization) : organization :=
  MkOrganization (<[de_id d := d]> (og_scopes o)) (og_requests o) (og_settings o) (og_bindings o).
Definition put_request (key digest id : string) (o : organization) : organization :=
  MkOrganization (og_scopes o) (<[key := (digest, id)]> (og_requests o)) (og_settings o) (og_bindings o).
Definition put_default (id : string) (o : organization) : organization :=
  MkOrganization (og_scopes o) (og_requests o) (<["default"%string := id]> (og_settings o)) (og_bindings o).
Definition put_bindings b (o : organization) : organization := MkOrganization (og_scopes o) (og_requests o) (og_settings o) b.

(** The parent of a scope is there and is not below it, and so are the scopes that it
    refers to, which are others. *)
Definition fits (o : organization) (id : string) (m : metadata) : Prop :=
  (md_parentScopeID m <> ""%string ->
     is_Some (og_scopes o !! md_parentScopeID m) /\ ~ rtc (parent_in (og_scopes o)) id (md_parentScopeID m)) /\
  (forall r, r ∈ md_contextReferences m -> is_Some (og_scopes o !! r) /\ r <> id).

Inductive creates (id : string) (draft : Draft) (o : organization) : Descriptor -> organization -> Prop :=
| creates_new digest :
    let d := MkDescriptor id (canonical (dr_metadata draft)) 1 in
    draftDigest draft = Ok digest -> og_requests o !! dr_idempotencyKey draft = None ->
    og_scopes o !! id = None -> fits o id (dr_metadata draft) ->
    creates id draft o d (put_request (dr_idempotencyKey draft) digest id (put_scope d o))
| creates_again digest d :
    draftDigest draft = Ok digest -> og_requests o !! dr_idempotencyKey draft = Some (digest, de_id d) ->
    og_scopes o !! de_id d = Some d -> creates id draft o d o.

Inductive performs : command -> organization -> outcome -> organization -> Prop :=
| performs_create id draft o d o' : creates id draft o d o' -> performs (CCreate id draft) o (OScope d) o'
| performs_update id mutation old o :
    let d := MkDescriptor id (canonical (mu_metadata mutation)) (mu_expectedVersion mutation + 1) in
    og_scopes o !! id = Some old -> de_version old = mu_expectedVersion mutation -> fits o id (mu_metadata mutation) ->
    performs (CUpdate id mutation) o (OScope d) (put_scope d o)
| performs_keep newID id d o :
    og_settings o !! "default"%string = Some id -> og_scopes o !! id = Some d -> performs (CBootstrap newID) o (OScope d) o
| performs_bootstrap newID draft o d o' :
    og_settings o !! "default"%string = None ->
    NewDraft "Default" "Default context" "" [] [] "powercontext.default-scope.v1" = Ok draft ->
    creates newID draft o d o' -> performs (CBootstrap newID) o (OScope d) (put_default (de_id d) o')
| performs_default id d o : og_scopes o !! id = Some d -> performs (CSetDefault id) o (OScope d) (put_default id o)
| performs_bind key id o :
    is_Some (og_scopes o !! id) ->
    performs (CBind key id) o (OBinding (MkBinding key id)) (put_bindings (<[binding_row key := id]> (og_bindings o)) o)
| performs_clear key o :
    performs (CClear key) o (OCleared (bool_decide (is_Some (og_bindings o !! binding_row key))))
      (put_bindings (delete (binding_row key) (og_bindings o)) o).

(** ** The organization of the tables *)

Lemma organization_lookup t id : og_scopes (organization_of t) !! id = described t id.
Proof. cbn. rewrite map_lookup_imap. unfold described. by destruct (st_scopes t !! id). Qed.

Lemma fits_placed t id m : organized t -> fits (organization_of t) id m <-> placed t id m.
Proof.
  intros Ho. unfold fits, placed.
  assert (Hp : forall p c, rtc (parent_in (og_scopes (organization_of t))) p c <-> rtc (parent_row (st_scopes t)) p c).
  { intros p c. split; apply rtc_subrel; intros ? ?; by apply (parent_described t _ Ho (organization_lookup t)). }
  rewrite organization_lookup, Hp, (described_there _ _ Ho). split; intros [H1 H2]; (split; [done|]); intros r Hr.
  - rewrite <- (described_there _ _ Ho), <- organization_lookup. by apply H2.
  - rewrite organization_lookup, (described_there _ _ Ho). by apply H2.
Qed.

Lemma organization_store t id m version d : described (store_scope id m version t) id = Some d ->
  organization_of (store_scope id m version t) = put_scope d (organization_of t).
Proof.
  intros Hd. apply described_named in Hd as Hi.
  assert (E : og_scopes (organization_of (store_scope id m version t)) = <[de_id d := d]> (og_scopes (organization_of t))).
  { apply map_eq. intros x. rewrite organization_lookup, Hi. destruct (decide (x = id)) as [->|Hne].
    - by rewrite lookup_insert_eq.
    - rewrite lookup_insert_ne, organization_lookup by done. by apply described_others. }
  unfold put_scope. rewrite <- E. done.
Qed.

Section operations.
Context {T : Type} {H : Holds T ScopeTables}.
Implicit Types s : SessionOf T.
Notation stored s := (rows (tables s) : ScopeTables).

Definition run (c : command) : txn T outcome :=
  match c with
  | CCreate newID draft => then_ret (app_Create newID draft) OScope
  | CUpdate id mutation => then_ret (app_Update id mutation) OScope
  | CBootstrap newID => then_ret (app_BootstrapDefault newID) OScope
  | CSetDefault id => then_ret (app_SetDefault id) OScope
  | CBind key id => then_ret (app_Bind key id) OBinding
  | CClear key => then_ret (app_ClearBinding key) OCleared
  end.

(** ** What the transactions did *)

Lemma LockHierarchy_ok s u s' : LockHierarchy s = (Ok u, s') -> stored s' = stored s.
Proof. intros E. unfold LockHierarchy in E. apply on_stored in E. by injection E. Qed.

Lemma keeps_stored {A} (m : txn T A) s a s' : keeps m -> m s = (Ok a, s') -> stored s' = stored s.
Proof. intros Hk E. apply Hk in E. by rewrite E. Qed.

Lemma required_ok {A} (m : txn T A) s a s' : required m s = (Ok a, s') -> m s = (Ok a, s').
Proof. by apply tx_catch_ok. Qed.

Lemma findScopeCreation_ok key digest s o s' : findScopeCreation key digest s = (Ok o, s') ->
  match o with
  | None => st_requests (stored s) !! key = None
  | Some d => st_requests (stored s) !! key = Some (digest, de_id d) /\ described (stored s) (de_id d) = Some d
  end.
Proof.
  unfold findScopeCreation. intros E. tx_inv E. apply read_ok in Ha as [-> E1].
  destruct (st_requests (stored s) !! key) as [[digest' id]|]; [|by tx_pure]. tx_inv E. tx_pure.
  apply String.eqb_eq in Ha as ->. apply GetScope_ok in Ha0. rewrite E1 in Ha0.
  apply described_named in Ha0 as Hi. by subst id.
Qed.

(** A scope was created, or it had been. *)
Definition created (id : string) (draft : Draft) (digest : string) (t t' : ScopeTables) (d : Descriptor) : Prop :=
  let m := dr_metadata draft in
  (st_requests t !! dr_idempotencyKey draft = Some (digest, de_id d) /\ described t (de_id d) = Some d /\ t' = t) \/
  (st_requests t !! dr_idempotencyKey draft = None /\ st_scopes t !! id = None /\ id <> ""%string /\
   NoDup (md_contextReferences m) /\ (forall r, r ∈ md_contextReferences m -> there t r = true /\ r <> id) /\
   let t1 := put_references id m (with_scopes (<[id := row_of m 1]> (st_scopes t)) t) in
   described t1 id = Some d /\ t' = with_requests (<[dr_idempotencyKey draft := (digest, id)]> (st_requests t)) t1).

Lemma CreateScope_ok id draft s d s' : CreateScope id draft s = (Ok d, s') ->
  exists digest, draftDigest draft = Ok digest /\ created id draft digest (stored s) (stored s') d.
Proof.
  unfold CreateScope, sc. intros E. tx_inv E. tx_pure. exists a1. split; [done|].
  pose proof (keeps_stored _ _ _ _ (findScopeCreation_keeps _ _) Ha2) as E2. apply findScopeCreation_ok in Ha2.
  destruct a2 as [d'|]; [tx_pure; left; rewrite E2; by destruct Ha2|].
  tx_inv E.
  match goal with I : insert_scope _ _ _ = _, W : writeScopeRelationships _ _ _ = _, Q : insert_request _ _ _ _ = _ |- _ =>
    apply insert_scope_ok in I as (E3 & Hn & _ & _); apply writeScopeRelationships_ok in W as (E4 & Hd & Hr);
    apply insert_request_ok in Q as (E5 & _ & _) end.
  pose proof (keeps_stored _ _ _ _ (GetScope_keeps _) E) as E6. apply GetScope_ok in E.
  rewrite E6, E5, E4, E3, E2 in *. right. assert (Hid : id <> ""%string).
  { intros ->. by unfold describe, NewDescriptor in Heqr. }
  split_and!; [done|done|done|done| |by split].
  intros r Hx. apply Hr in Hx as [Hx Hne]. split; [|done]. apply there_iff. apply there_iff in Hx. cbn in Hx.
  by rewrite lookup_insert_ne in Hx.
Qed.

(** A scope was replaced, from the version that was expected. *)
Lemma UpdateScope_ok id mutation s d s' : UpdateScope id mutation s = (Ok d, s') ->
  let m := mu_metadata mutation in
  let version := wrap64 (mu_expectedVersion mutation + 1) in
  stored s' = store_scope id m version (stored s) /\ described (stored s') id = Some d /\
  (exists old, st_scopes (stored s) !! id = Some old /\ sr_version old = mu_expectedVersion mutation) /\ 0 < version /\
  NoDup (md_contextReferences m) /\ forall r, r ∈ md_contextReferences m -> r <> id.
Proof.
  unfold UpdateScope, sc. intros E. cbn zeta. tx_inv E.
  match goal with U : update_scope _ _ _ _ = _ |- _ => apply update_scope_ok in U as [(-> & E1 & Hold & _ & Hpos)|[-> _]] end;
    cbn in E; [|tx_inv E; by tx_pure].
  tx_inv E.
  match goal with D : delete_contexts _ _ = _, X : delete_externals _ _ = _, W : writeScopeRelationships _ _ _ = _ |- _ =>
    pose proof (clear_references_ok _ _ _ _ _ _ D X) as E2; apply writeScopeRelationships_ok in W as (E3 & Hd & Hr) end.
  pose proof (keeps_stored _ _ _ _ (GetScope_keeps _) E) as E4. apply GetScope_ok in E. cbn in Hpos.
  rewrite E4, E3, E2, E1 in *. split_and!; [done|done|done|done|done|]. intros r Hx ->. by apply Hr in Hx as [_ ?].
Qed.

Lemma listing s ds s' : ListScopes s = (Ok ds, s') -> lists (stored s) ds /\ stored s' = stored s.
Proof.
  intros E. split; [|by eapply keeps_stored; [apply ListScopes_keeps|]]. apply ListScopes_ok in E as (? & ? & _). done.
Qed.

(** ** Steps *)

Lemma created_fits id draft digest t t' d : organized t -> draftDigest draft = Ok digest ->
  created id draft digest t t' d ->
  (st_requests t !! dr_idempotencyKey draft = None -> placed t id (dr_metadata draft)) ->
  creates id draft (organization_of t) d (organization_of t') /\ organized t' /\ there t' (de_id d) = true.
Proof.
  intros Ho Hdig [(Hq & Hd & ->)|(Hq & Hn & Hid & Hnd & _ & Hd & ->)] Hpl.
  - split_and!; [|done|apply described_there; [done|by exists d]]. eapply creates_again; [done|done|by rewrite organization_lookup].
  - specialize (Hpl Hq).
    assert (E : put_references id (dr_metadata draft) (with_scopes (<[id := row_of (dr_metadata draft) 1]> (st_scopes t)) t) = store_scope id (dr_metadata draft) 1 t).
    { unfold store_scope. f_equal. transitivity (with_scopes (<[id := row_of (dr_metadata draft) 1]> (st_scopes t)) (clear_references id t)); [by rewrite (clear_fresh t id Ho Hn)|done]. }
    rewrite E in *. assert (Ho' : organized (store_scope id (dr_metadata draft) 1 t)) by by eapply store_scope_organized.
    assert (Hth : there (store_scope id (dr_metadata draft) 1 t) id = true) by (apply there_store; by left).
    apply described_named in Hd as Hi. rewrite Hi. split_and!; [|exact (with_requests_organized _ Ho' _ digest _ Hth)|done].
    pose proof (described_stored _ _ _ _ _ Hnd Hd) as Ed. subst d.
    pose proof (organization_store _ _ _ _ _ Hd) as Eo.
    set (t1 := store_scope _ _ _ _) in *.
    change (organization_of (with_requests _ t1)) with (put_request (dr_idempotencyKey draft) digest id (organization_of t1)).
    rewrite Eo. apply creates_new; [done|done| |by apply fits_placed]. rewrite organization_lookup. unfold described. by rewrite Hn.
Qed.

Lemma transaction_stored {A} (fn : txn T A) s a s' : Transaction fn s = (Ok a, s') ->
  exists s1 s2, stored s1 = stored s /\ fn s1 = (Ok a, s2) /\ stored s' = stored s2.
Proof. intros (s1 & s2 & E1 & E & E2)%transaction_ok. exists s1, s2. by rewrite E1, E2. Qed.

Lemma app_Create_performs newID draft s d s' : organized (stored s) -> app_Create newID draft s = (Ok d, s') ->
  creates newID draft (organization_of (stored s)) d (organization_of (stored s')) /\ organized (stored s').
Proof.
  intros Ho. unfold app_Create, store_Create, sc. intros E. tx_inv E. tx_pure.
  apply transaction_stored in E as (s1 & s2 & E1 & E & ->). rewrite <- E1 in *. tx_inv E. tx_pure.
  apply LockHierarchy_ok in Ha. rename st into s3.
  match goal with F : findScopeCreation _ _ _ = (Ok ?o, _) |- _ =>
    pose proof (keeps_stored _ _ _ _ (findScopeCreation_keeps _ _) F) as E2; apply findScopeCreation_ok in F; destruct o as [d'|] end.
  - tx_pure. rewrite E2, Ha in *. destruct_and?. split; [|done]. by eapply creates_again; [..|rewrite organization_lookup].
  - tx_inv E. tx_pure. match goal with L : ListScopes _ = _, V : validateScopeRelationships _ _ _ _ = _ |- _ =>
      apply listing in L as [Hl E3]; rename V into Hv end.
    apply CreateScope_ok in E as (digest & Hd & E). rewrite E3, E2, Ha in *.
    match type of Hv with _ = Ok ?u => destruct u end. apply (validate_placed _ _ Ho Hl) in Hv.
    destruct (created_fits _ _ _ _ _ _ Ho Hd E) as (? & ? & _); done.
Qed.

Lemma GetScope_there id s d s' : organized (stored s) -> GetScope id s = (Ok d, s') ->
  stored s' = stored s /\ described (stored s) id = Some d /\ there (stored s) id = true /\ de_id d = id.
Proof.
  intros Ho E. pose proof (keeps_stored _ _ _ _ (GetScope_keeps _) E) as E1. apply GetScope_ok in E.
  split_and!; [done|done|apply described_there; [done|by exists d]|by eapply described_named].
Qed.

Lemma app_Update_performs id mutation s d s' : organized (stored s) -> app_Update id mutation s = (Ok d, s') ->
  performs (CUpdate id mutation) (organization_of (stored s)) (OScope d) (organization_of (stored s')) /\ organized (stored s').
Proof.
  intros Ho. unfold app_Update, store_Update, sc. intros E. tx_inv E. tx_pure.
  apply transaction_stored in E as (s1 & s2 & E1 & E & ->). rewrite <- E1 in *. tx_inv E. tx_pure.
  apply LockHierarchy_ok in Ha. rewrite <- Ha in Ho |- *.
  match goal with G : required _ _ = _, L : ListScopes _ = _, V : validateScopeRelationships _ _ _ _ = Ok ?u |- _ =>
    apply required_ok, (GetScope_there _ _ _ _ Ho) in G as (E2 & Hd & Hth & Hid); apply listing in L as [Hl E3];
    rewrite E2 in Hl, E3; destruct u; apply (validate_placed _ _ Ho Hl) in V; rename V into Hp end.
  apply UpdateScope_ok in E as (Es & Hd' & (old & Hold & Hver) & Hpos & Hnd & _). rewrite Es, E3 in *.
  assert (Hw : wrap64 (mu_expectedVersion mutation + 1) = mu_expectedVersion mutation + 1).
  { pose proof Hd as (row & Hr & Hload)%described_some. apply load_id in Hload as (_ & _ & _ & Hge).
    pose proof (versions_fit _ Ho _ _ Hold). rewrite Hold in Hr. injection Hr as <-. rewrite Hver in *.
    destruct (decide (mu_expectedVersion mutation = max_int64)) as [E|]; [rewrite E in Hpos; by vm_compute in Hpos|].
    apply wrap64_id. unfold in_int64, min_int64, max_int64 in *. lia. }
  pose proof (described_stored _ _ _ _ _ Hnd Hd') as ->.
  split; [|eapply store_scope_organized; [done|done| |apply wrap64_range|exact Hd']].
  - rewrite (organization_store _ _ _ _ _ Hd'), Hw in *. eapply performs_update; [by rewrite organization_lookup| |by apply fits_placed].
    lia.
  - by apply (scopes_named _ Ho), there_iff.
Qed.

(** The organization of tables whose settings changed. *)
Lemma organization_default t id : organization_of (with_settings (<["default"%string := id]> (st_settings t)) t) = put_default id (organization_of t).
Proof. done. Qed.

Lemma DefaultScope_ok s o s' : DefaultScope s = (Ok o, s') ->
  match o with
  | None => st_settings (stored s) !! "default"%string = None
  | Some d => exists id, st_settings (stored s) !! "default"%string = Some id /\ described (stored s) id = Some d
  end.
Proof.
  unfold DefaultScope. intros E. tx_inv E. apply read_ok in Ha as [-> E1].
  destruct (st_settings (stored s) !! "default"%string) as [id|]; [|by tx_pure]. tx_inv E. tx_pure.
  apply GetScope_ok in Ha. rewrite E1 in Ha. eauto.
Qed.

Lemma app_BootstrapDefault_performs newID s d s' : organized (stored s) -> app_BootstrapDefault newID s = (Ok d, s') ->
  performs (CBootstrap newID) (organization_of (stored s)) (OScope d) (organization_of (stored s')) /\ organized (stored s').
Proof.
  intros Ho. unfold app_BootstrapDefault, store_BootstrapDefault, sc. intros E. tx_inv E. apply tx_lift_ok in Ha as [Hdraft ->].
  apply map_err_ok in Hdraft. apply transaction_stored in E as (s1 & s2 & E1 & E & ->). rewrite <- E1 in *. tx_inv E.
  apply LockHierarchy_ok in Ha. rewrite <- Ha in Ho |- *.
  match goal with D : required _ _ = (Ok ?o, _) |- _ => apply required_ok in D;
    pose proof (keeps_stored _ _ _ _ DefaultScope_keeps D) as E2; apply DefaultScope_ok in D as Hdef; destruct o as [d'|] end.
  - tx_pure. destruct Hdef as (id & Hs & Hd). rewrite E2. split; [|done].
    by eapply performs_keep; [|rewrite organization_lookup].
  - tx_inv E. tx_pure. match goal with C : CreateScope _ _ _ = _, D : SetDefaultScope _ _ = _ |- _ =>
      apply CreateScope_ok in C as (digest & Hd & C); apply SetDefaultScope_ok in D as [Es _]; rename C into Hc end.
    rewrite E2 in Hc. destruct (created_fits _ _ _ _ _ _ Ho Hd Hc) as (Hcr & Ho' & Hth).
    { intros _. assert (Hm : dr_metadata a = MkMetadata "Default" "Default context" "" [] []).
      { clear -Hdraft. vm_compute in Hdraft. by injection Hdraft as <-. }
      rewrite Hm. split; [done|]. intros r Hr. by apply elem_of_nil in Hr. }
    rewrite Es. split; [|by apply with_settings_organized]. rewrite organization_default. by eapply performs_bootstrap.
Qed.

Lemma app_SetDefault_performs id s d s' : organized (stored s) -> app_SetDefault id s = (Ok d, s') ->
  performs (CSetDefault id) (organization_of (stored s)) (OScope d) (organization_of (stored s')) /\ organized (stored s').
Proof.
  intros Ho. unfold app_SetDefault, store_SetDefault. intros E. apply transaction_stored in E as (s1 & s2 & E1 & E & ->).
  rewrite <- E1 in *. tx_inv E. tx_pure. apply LockHierarchy_ok in Ha. rewrite <- Ha in Ho |- *.
  match goal with G : required _ _ = _, D : SetDefaultScope _ _ = _ |- _ =>
    apply required_ok, (GetScope_there _ _ _ _ Ho) in G as (E2 & Hd & Hth & _); apply SetDefaultScope_ok in D as [Es _] end.
  rewrite Es, E2. split; [|by apply with_settings_organized]. rewrite organization_default.
  apply performs_default. by rewrite organization_lookup.
Qed.

Lemma app_Bind_performs key id s b s' : organized (stored s) -> app_Bind key id s = (Ok b, s') ->
  performs (CBind key id) (organization_of (stored s)) (OBinding b) (organization_of (stored s')) /\ organized (stored s').
Proof.
  intros Ho. unfold app_Bind, store_SetBinding. intros E. apply transaction_stored in E as (s1 & s2 & E1 & E & ->).
  rewrite <- E1 in *. tx_inv E. apply LockHierarchy_ok in Ha. rewrite <- Ha in Ho |- *.
  match goal with G : required _ _ = _ |- _ => apply required_ok, (GetScope_there _ _ _ _ Ho) in G as (E2 & Hd & Hth & _) end.
  apply SetScopeBinding_ok in E as (Es & _ & ->). rewrite Es, E2. split; [|by apply with_binding_organized].
  apply performs_bind. rewrite organization_lookup. by eexists.
Qed.

Lemma app_ClearBinding_performs key s b s' : organized (stored s) -> app_ClearBinding key s = (Ok b, s') ->
  performs (CClear key) (organization_of (stored s)) (OCleared b) (organization_of (stored s')) /\ organized (stored s').
Proof.
  intros Ho. unfold app_ClearBinding, store_ClearBinding. intros E. apply transaction_stored in E as (s1 & s2 & E1 & E & ->).
  rewrite <- E1 in *. tx_inv E. apply LockHierarchy_ok in Ha. rewrite <- Ha in Ho |- *.
  apply ClearScopeBinding_ok in E as [Es ->]. rewrite Es. split; [|by apply without_binding_organized]. apply performs_clear.
Qed.

Lemma run_performs c s r s' : organized (stored s) -> run c s = (Ok r, s') ->
  performs c (organization_of (stored s)) r (organization_of (stored s')) /\ organized (stored s').
Proof.
  intros Ho E. destruct c; cbn [run] in E; unfold then_ret in E; tx_inv E; tx_pure.
  - apply app_Create_performs in Ha as [? ?]; [|done]. split; [|done]. by apply performs_create.
  - by apply app_Update_performs.
  - by apply app_BootstrapDefault_performs.
  - by apply app_SetDefault_performs.
  - by apply app_Bind_performs.
  - by apply app_ClearBinding_performs.
Qed.

(** A command that fails changes nothing. *)
Definition atomic {A} (m : txn T A) : Prop := forall s e s', m s = (Err e, s') -> tables s' = tables s.

Lemma atomic_then {A B} (m : txn T A) (f : A -> B) : atomic m -> atomic (then_ret m f).
Proof. intros Hm s e s' E. apply tx_bind_err in E as [E|(? & ? & _ & E)]; [by eapply Hm|done]. Qed.

Lemma atomic_after {A B} (m : txn T A) (k : A -> txn T B) : keeps m -> (forall a, atomic (k a)) -> atomic (tx_bind m k).
Proof.
  intros Hm Hk s e s' E. apply tx_bind_err in E as [E|(a & s1 & Ha & E)]; [by eapply Hm|].
  apply Hm in Ha. apply Hk in E. congruence.
Qed.

Lemma atomic_transaction {A} (m : txn T A) : atomic (Transaction m).
Proof. intros s e s'. apply transaction_err. Qed.

Lemma run_atomic c : atomic (run c).
Proof.
  destruct c; apply atomic_then; unfold app_Create, app_Update, app_BootstrapDefault, sc;
    try (apply atomic_after; [apply keeps_lift|intros ?]); apply atomic_transaction.
Qed.
End operations.

(** ** Listings that do not fail *)

Section listings.
Context {T : Type} {H : Holds T ScopeTables} (t : T) (Ho : organized (rows t)).
Notation scopes := (rows t : ScopeTables).

Lemma load_all_reads found : (forall id row, (id, row) ∈ found -> exists d, load scopes id row = Ok d) ->
  exists ds, reads (load_all found) t (Ok ds).
Proof.
  induction found as [|[id row] found IH]; intros Hf; [by exists []|]. cbn [load_all].
  destruct (Hf id row) as [d Hd]; [left|]. destruct IH as [ds Hds]; [intros; apply Hf; by right|].
  exists (d :: ds). eapply reads_bind; [pose proof (loadScope_reads id row t) as Hl; rewrite Hd in Hl; exact Hl|].
  by eapply reads_bind; [exact Hds|].
Qed.

Lemma ListScopes_reads : exists ds, reads ListScopes t (Ok ds) /\ lists scopes ds.
Proof.
  assert (Hr : exists ds, reads ListScopes t (Ok ds)).
  { unfold ListScopes. edestruct load_all_reads as [ds Hds]; [|exists ds; eapply reads_bind; [apply reads_read|exact Hds]].
    intros id row Hin. rewrite merge_sort_Permutation in Hin. apply elem_of_map_to_list in Hin as Hrow.
    destruct (scopes_read _ Ho _ _ Hrow) as [d (row' & Hr & Hd)%described_some]. rewrite Hrow in Hr. injection Hr as <-. by exists d. }
  destruct Hr as [ds Hds]. exists ds. split; [done|]. by apply (listing (MkSession t []) ds (MkSession t [])).
Qed.

Lemma lists_by_id ds : lists scopes ds -> lists scopes (by_id ds).
Proof.
  intros [Hn Hd]. assert (Hp : by_id ds ≡ₚ ds) by apply merge_sort_Permutation. split; [by rewrite Hp|].
  intros d. rewrite Hp. apply Hd.
Qed.
End listings.

Lemma ResolveSelection_reads {T} {H : Holds T ScopeTables} selection listed (t : T) r :
  match selection with OtherSelection _ => False | _ => True end -> reads ListScopes t (Ok listed) ->
  select selection listed = Ok r -> reads (app_ResolveSelection selection) t (Ok r).
Proof.
  intros Hs Hl E. unfold app_ResolveSelection. eapply reads_bind; [apply reads_check; by destruct selection|].
  eapply reads_bind; [apply reads_transaction, Hl|]. unfold sc. rewrite E. apply reads_lift.
Qed.

(** ** Properties *)

Section properties.
Context {T : Type} {H : Holds T ScopeTables}.

(** One command, whatever statements of it the driver fails. *)
Definition command_step (t t' : T) : Prop := exists c faults r s', run c (MkSession t faults) = (r, s') /\ t' = tables s'.

Lemma run_organized c (s : SessionOf T) : organized (rows (tables s)) -> organized (rows (tables (snd (run c s)))).
Proof.
  intros Ho. destruct (run c s) as [[r|e] s'] eqn:E; cbn; [exact (proj2 (run_performs c s r s' Ho E))|by rewrite (run_atomic c s e s' E)].
Qed.

(** Requests are never withdrawn. *)
Lemma creates_keeps id draft o d o' : creates id draft o d o' -> og_requests o ⊆ og_requests o'.
Proof. destruct 1; [by apply insert_subseteq|done]. Qed.

Lemma performs_keeps c o r o' : performs c o r o' -> og_requests o ⊆ og_requests o'.
Proof. destruct 1 as [? ? ? ? ? Hc| | |? ? ? ? ? _ _ Hc| | |]; try done; by apply creates_keeps in Hc. Qed.

Lemma creates_requested id draft o d o' : creates id draft o d o' ->
  exists digest, draftDigest draft = Ok digest /\ og_requests o' !! dr_idempotencyKey draft = Some (digest, de_id d).
Proof. destruct 1 as [digest|digest d']; exists digest; (split; [done|]); [apply lookup_insert_eq|done]. Qed.

Lemma requests_kept t t' : organized (rows t) -> rtc command_step t t' -> forall key request,
  st_requests (rows t) !! key = Some request -> organized (rows t') /\ st_requests (rows t') !! key = Some request.
Proof.
  intros Ho Hs key request Hq. induction Hs as [|x y z (c & faults & r & s' & E & ->) _ IH]; [done|]. destruct r as [r|e].
  - destruct (run_performs c (MkSession x faults) r s' Ho E) as [Hp Ho']. apply IH; [done|].
    apply performs_keeps in Hp. by apply (lookup_weaken _ _ _ _ Hq Hp).
  - rewrite (run_atomic c (MkSession x faults) e s' E) in IH. by apply IH.
Qed.

Lemma app_Create_checked newID draft (s : SessionOf T) d s' : app_Create newID draft s = (Ok d, s') -> exists draft', check_draft draft = Ok draft'.
Proof. unfold app_Create, sc. intros E. tx_inv E. tx_pure. eauto. Qed.

Lemma LockHierarchy_reads (t : T) : reads LockHierarchy t (Ok tt).
Proof. unfold reads, LockHierarchy, on, statement. cbn. by rewrite with_same. Qed.

(** A repeated creation on tables that hold its request. *)
Lemma Create_again_reads newID draft draft' digest id (t : T) d :
  check_draft draft = Ok draft' -> draftDigest draft = Ok digest ->
  st_requests (rows t) !! dr_idempotencyKey draft = Some (digest, id) -> described (rows t) id = Some d ->
  reads (app_Create newID draft) t (Ok d).
Proof.
  intros Hchk Hdig Hq Hd. unfold app_Create, store_Create, sc. rewrite Hchk.
  eapply reads_bind; [apply reads_lift|]. apply reads_transaction. eapply reads_bind; [apply LockHierarchy_reads|].
  rewrite Hdig. eapply reads_bind; [apply reads_lift|]. eapply (reads_bind _ _ _ (Some d)); [|apply reads_ret].
  unfold findScopeCreation. eapply reads_bind; [apply reads_read|]. rewrite Hq.
  eapply reads_bind; [apply reads_check, String.eqb_refl|]. eapply reads_bind; [by apply GetScope_reads|]. apply reads_ret.
Qed.

(** C14: The commands on scopes implement their specification: a command that succeeds is
    a step of the organization (a creation at version 1 or the one that its key
    already made, an update of exactly one scope from the expected version to the
    next, a default, a binding), and a command that fails changes nothing. *)
Theorem scope_commands_refine (c : command) (s : SessionOf T) :
  organized (rows (tables s)) ->
  match run c s with
  | (Ok r, s') => performs c (organization_of (rows (tables s))) r (organization_of (rows (tables s')))
  | (Err _, s') => tables s' = tables s
  end.
Proof.
  intros Ho. destruct (run c s) as [[r|e] s'] eqn:E; [by apply (run_performs c s r s')|by eapply run_atomic].
Qed.

(** C15: Whatever commands are given, and whatever statements fail, the scopes stay
    organized: every row reads as a scope, parents, references, defaults, bindings and
    requests name stored scopes, versions fit, and following parents always ends. *)
Theorem scopes_organized (t t' : T) :
  organized (rows t) -> rtc command_step t t' -> organized (rows t').
Proof.
  intros Ho Hs. induction Hs as [|x y z (c & faults & r & s' & E & ->) _ IH]; [done|]. apply IH.
  pose proof (run_organized c (MkSession x faults) Ho) as Ho'. by rewrite E in Ho'.
Qed.

(** C16: A subtree selection of organized scopes answers, and with the root and every
    scope below it, once each, every one after its parent. *)
Theorem subtree_exact (t : T) (root : string) :
  organized (rows t) -> there (rows t) root = true ->
  exists ds, app_ResolveSelection (SelectionSubtree root) (MkSession t []) = (Ok ds, MkSession t []) /\
    head (map de_id ds) = Some root /\ NoDup (map de_id ds) /\
    (forall d, d ∈ ds <-> described (rows t) (de_id d) = Some d /\ rtc (parent_row (st_scopes (rows t))) root (de_id d)) /\
    forall i d, ds !! S i = Some d -> exists j d', (j <= i)%nat /\ ds !! j = Some d' /\ ParentScopeID d = de_id d'.
Proof.
  intros Ho Hroot. destruct (ListScopes_reads t Ho) as (listed & Hr & Hl).
  pose proof (lists_by_id t listed Hl) as Hb. set (scopes := by_id listed) in *.
  apply (described_there _ _ Ho) in Hroot as [d Hd]. apply described_named in Hd as Hi.
  assert (Hin : d ∈ scopes) by (apply Hb; by rewrite Hi).
  assert (Hne : ""%string ∉ map de_id scopes).
  { intros (x & Hx & Hxs)%list_elem_of_fmap. apply Hb in Hxs.
    pose proof (index_none_empty _ _ Ho Hb) as Hnone. rewrite (index_listed _ _ Hb), Hx in Hnone. congruence. }
  destruct (subtree_spec scopes d (proj1 Hb) Hne Hin) as (Hh & Hn & Hm & Hp).
  exists (subtree_from (S (length scopes)) 0 scopes [d] {[de_id d]}). split_and!; [| |done| |].
  - apply ResolveSelection_reads with (listed := listed); [done|exact Hr|].
    unfold select. fold scopes. by rewrite (index_listed _ _ Hb), Hd.
  - apply head_Some in Hh as (more & ->). cbn. by rewrite Hi.
  - intros x. rewrite Hm, Hi, (parents_listed _ _ Ho Hb). destruct Hb as [_ ->]. done.
  - done.
Qed.

(** C17: A creation can be repeated: once it succeeded, the same draft is answered with the
    same scope, as it is by then, and nothing changes, whatever happened in between. *)
Theorem create_idempotent (newID newID' : string) (draft : Draft) (s s1 : SessionOf T) (t2 : T) (d : Descriptor) :
  organized (rows (tables s)) -> app_Create newID draft s = (Ok d, s1) -> rtc command_step (tables s1) t2 ->
  exists d', app_Create newID' draft (MkSession t2 []) = (Ok d', MkSession t2 []) /\
    de_id d' = de_id d /\ described (rows t2) (de_id d) = Some d'.
Proof.
  intros Ho E Hs. destruct (app_Create_performs _ _ _ _ _ Ho E) as [Hc Ho1].
  apply creates_requested in Hc as (digest & Hdig & Hq). apply app_Create_checked in E as [draft' Hchk].
  destruct (requests_kept _ _ Ho1 Hs _ _ Hq) as [Ho2 Hq2].
  destruct (proj2 (described_there _ _ Ho2) (requests_stored _ Ho2 _ _ _ Hq2)) as [d' Hd'].
  exists d'. split_and!; [|by eapply described_named|done].
  eapply Create_again_reads; [exact Hchk|exact Hdig|exact Hq2|exact Hd'].
Qed.
End properties.

(** ** Examples *)

Definition no_scopes : ScopeTables := MkScopeTables ∅ ∅ ∅ ∅ ∅ ∅.

Lemma no_scopes_organized : organized no_scopes.
Proof.
  assert (Hw : well_founded (parent_row ∅)).
  { intros c. constructor. intros p (row & Hr & _). by rewrite lookup_empty in Hr. }
  split; cbn; [..|exact Hw| | | | |]; intros *; rewrite ?lookup_empty; try done; try (by intros [? [=]]).
Qed.

Definition home_draft : Draft := MkDraft (MkMetadata "Home" "All work" "" [] []) "home".
Definition team_draft : Draft :=
  MkDraft (MkMetadata "Team" "One team" "home" ["home"] [MkExternal "repo" "team.git"; MkExternal "chat" "#team"]) "team".
Definition home_tables : ScopeTables := tables (snd (run (CCreate "home" home_draft) (MkSession no_scopes []))).
Definition team_tables : ScopeTables := tables (snd (run (CCreate "team" team_draft) (MkSession home_tables []))).
Definition under_itself : Mutation := MkMutation 1 (MkMetadata "Home" "All work" "team" [] []).

Lemma home_organized : organized home_tables.
Proof. exact (run_organized (CCreate "home" home_draft) (MkSession no_scopes []) no_scopes_organized). Qed.
Lemma team_organized : organized team_tables.
Proof. exact (run_organized (CCreate "team" team_draft) (MkSession home_tables []) home_organized). Qed.

(** A scope cannot be put below its child, nor at a version that it has not. *)
Example cycle_update_refused : fst (run (CUpdate "home" under_itself) (MkSession team_tables [])) = Err (SScope ScRelationship).
Proof. vm_compute. reflexivity. Qed.
Example stale_update_refused : fst (run (CUpdate "home" (MkMutation 2 (dr_metadata home_draft))) (MkSession team_tables [])) = Err (SScope (ScVersion 2 1)).
Proof. vm_compute. reflexivity. Qed.

Lemma scope_commands_refine_witness :
  organized home_tables /\
  match run (CCreate "team" team_draft) (MkSession home_tables []) with
  | (Ok r, s') => performs (CCreate "team" team_draft) (organization_of home_tables) r (organization_of (tables s'))
  | (Err _, s') => tables s' = home_tables
  end.
Proof. split; [exact home_organized|]. exact (scope_commands_refine (CCreate "team" team_draft) (MkSession home_tables []) home_organized). Defined.

Lemma scopes_organized_witness : rtc command_step home_tables team_tables /\ organized team_tables.
Proof.
  assert (Hs : rtc command_step home_tables team_tables).
  { apply rtc_once. exists (CCreate "team" team_draft), []. eexists _, _. split; [apply surjective_pairing|reflexivity]. }
  split; [exact Hs|]. exact (scopes_organized home_tables team_tables home_organized Hs).
Defined.

Lemma subtree_exact_witness : there team_tables "home" = true /\
  exists ds, app_ResolveSelection (SelectionSubtree "home") (MkSession team_tables []) = (Ok ds, MkSession team_tables []) /\
    head (map de_id ds) = Some "home"%string.
Proof.
  assert (Ht : there team_tables "home" = true) by (vm_compute; reflexivity).
  split; [exact Ht|]. destruct (subtree_exact (H := holds_self ScopeTables) team_tables "home" team_organized Ht) as (ds & E & Hh & _).
  exists ds. split; [exact E|exact Hh].
Defined.

Definition home_session : SessionOf ScopeTables := snd (app_Create "home" home_draft (MkSession no_scopes [])).

Lemma create_idempotent_witness :
  exists d', app_Create "other" home_draft (MkSession (tables home_session) []) = (Ok d', MkSession (tables home_session) []) /\
    de_id d' = "home"%string.
Proof.
  assert (E : app_Create "home" home_draft (MkSession no_scopes []) = (Ok (MkDescriptor "home" (dr_metadata home_draft) 1), home_session))
    by (vm_compute; reflexivity).
  destruct (create_idempotent (H := holds_self ScopeTables) "home" "other" home_draft (MkSession no_scopes []) home_session (tables home_session) _
    no_scopes_organized E (rtc_refl _ _)) as (d' & Hr & Hi & _).
  exists d'. split; [exact Hr|exact Hi].
Defined.
